(* ===== verification/_CoqProject ===== *)
-Q . S2P
Prelude.v
Randomness.v
BigEndian.v
Asn1.v
BFTMessages.v
FabricFuzzer.v
FabricBlocks.v
SmartBFTConfig.v
SmartBFTConfigSpec.v
SmartBFT.v
SmartBFTChain.v
SmartBFTSpec.v
SmartBFTChainSpec.v
SmartBFTExamples.v
Rlp.v
RlpSpec.v
RlpStream.v
RlpStreamSpec.v
RlpDecoderSpec.v
EthTypes.v
GoHeap.v
CliqueSnapshot.v
CliqueRotation.v
Clique.v
CliqueSeal.v
CliqueEngine.v
CliqueMining.v
CliqueExamples.v
CliqueApi.v
ForkId.v
GethFuzzer.v
GethFuzzerSpec.v
GethPeerSpec.v
TxByPrice.v
Miner.v
MinerSpec.v
MinerResults.v
MinerExamples.v
EthHandlers.v
EthHandlersSpec.v
EthHandshake.v
EthWire.v
EthBroadcast.v
EthBroadcastSpec.v
TxFetcher.v
TxFetcherSpec.v
TxFetcherLoop.v
TxFetcherExamples.v
BlockFetcher.v
BlockFetcherSpec.v
BlockFetcherExamples.v
EthNode.v
EthNodeSpec.v
EthNodeExamples.v
EthServe.v
