(* ===== verification/Prelude.v ===== *)
(** * LOKI: verification of the instrumented nodes written in Go

    LOKI fuzzes consensus protocols from inside: it patches a node of each
    blockchain so that the node keeps the messages it sends as seeds, mutates
    them and sends the mutations to its peers.  This library models the two
    nodes written in Go, Hyperledger Fabric with the SmartBFT orderer
    (src/src/fabric_fuzz) and go-ethereum (src/src/geth_fuzz): the code LOKI
    added, and the code of the nodes that decides about the messages concerned.

    ** The parts and how they interact

    - Fabric fuzzers (orderer/consensus/smartbft: messageFuzzer.go,
      protocolFuzzer.go, transactionFuzzer.go, egress.go).  The egress records
      every consensus message and transaction in seed pools; two endless loops
      draw a seed, mutate it in place and send it through the egress again to a
      drawn set of nodes.
      BFTMessages.v: the protobuf messages.  FabricFuzzer.v: pools, mutators,
      loops, egress, in the state monad [GoM] of this file.
    - Blocks (protos/common, protos/utils, orderer/common/cluster/util.go):
      headers, hashes, metadata and envelopes.  FabricBlocks.v; Asn1.v and
      BigEndian.v for the encodings that are hashed and signed.
    - The SmartBFT orderer (orderer/consensus/smartbft), which the fuzzers above
      are part of and whose checks decide what becomes of a fuzzed message.
      SmartBFTConfig.v: the configuration of a channel and the identities of its
      consenters (util.go, configverifier.go, consenter.go).  SmartBFT.v:
      assembling, signing and verifying proposals (assembler.go, signer.go,
      verifier.go, signature.go).  SmartBFTChain.v: delivering decisions,
      writing blocks, synchronizing and verifying the blocks of other nodes
      (chain.go, synchronizer.go, ingress.go, multichannel/blockwriter.go,
      cluster/util.go).  The theorems are in SmartBFTConfigSpec.v,
      SmartBFTSpec.v and SmartBFTChainSpec.v; SmartBFTExamples.v evaluates a
      network of four orderers.  A decision goes through all of them: the
      assembler makes a proposal of requests, the other nodes verify and sign
      it, [Deliver] turns proposal and signatures into a block, the block writer
      appends it, and the new runtime configuration is read from it.
    - Ethereum peer and fuzzers (eth/protocols/eth: peer.go, MessageFuzz.go,
      TransactionFuzz.go, protocol.go).  Every send method of a peer appends
      its packet to a seed slice; the fuzzing loop draws a type and a seed,
      mutates it and sends it.
      GethFuzzer.v: definitions, in the monad [StM], which keeps the state when
      an operation fails.  GethFuzzerSpec.v: the fuzzing loop.  GethPeerSpec.v:
      all operations of a peer as a transition system.
    - Ethereum handlers (eth/protocols/eth: handlers.go, handler.go;
      core/headerchain.go; sanity checks of core/types/block.go).  What a node
      does with a received, possibly fuzzed, message.
      EthHandlers.v, EthHandlersSpec.v.
    - Fork identifiers (core/forkid/forkid.go): the compatibility check of the
      handshake.  ForkId.v.
    - Ethereum handshake (eth/protocols/eth/handshake.go, Msg.Decode of
      p2p/message.go, the call in eth/handler.go): the exchange of status
      messages that precedes everything else.  EthHandshake.v.
    - Ethereum packets as bytes (the packet types of eth/protocols/eth/protocol.go,
      HashOrNumber's own encoding): what a peer writes and a handler decodes.
      EthWire.v, which implements the handlers' interface [Decoder] for
      announcements, queries and headers.
    - Ethereum write loops (eth/protocols/eth/broadcast.go): the goroutines that
      send what the asynchronous methods of a peer queue.  EthBroadcast.v: the
      loops as labelled transition systems over the peer.  EthBroadcastSpec.v.
    - The transaction fetcher (eth/fetcher/tx_fetcher.go): what a node makes of the
      announcements and deliveries of its peers.  TxFetcher.v: the loop, a pass
      per case of its select.  TxFetcherSpec.v: the stages of a hash.
      TxFetcherLoop.v: its theorems.  TxFetcherExamples.v: runs.
    - The block fetcher (eth/fetcher/block_fetcher.go, common/prque): the
      announcements, headers, bodies and blocks of peers, and the queue of what is
      to be imported.  BlockFetcher.v: the loop.  BlockFetcherSpec.v: its
      invariant and theorems.  BlockFetcherExamples.v: runs.
    - The node (eth/handler.go, handler_eth.go, peerset.go, sync.go): the connected
      peers, what becomes of their packets, broadcasts, and when to synchronize;
      it drives the peers and both fetchers.  EthNode.v: operations and steps.
      EthNodeSpec.v: their theorems.  EthNodeExamples.v: runs.  EthServe.v: the
      protocol handlers on top of the node.
    - Clique, the consensus engine of the fuzzed Ethereum network
      (consensus/clique: snapshot.go, clique.go, api.go).
      CliqueSnapshot.v: voting snapshots.  CliqueRotation.v: runs of headers.
      Clique.v: the engine with its caches.  CliqueSeal.v: what is signed.
      CliqueEngine.v: correctness of the engine.  CliqueExamples.v: a chain.
      CliqueApi.v: the status and signer queries.
    - The block producer (miner/miner.go, worker.go, unconfirmed.go, the assembly of
      blocks in core/types/block.go and core/types/hashing.go): what a signer of
      the network mines.  GoHeap.v: container/heap.  TxByPrice.v: the queue of
      transactions on it (core/types/transaction.go).  CliqueMining.v: the
      engine's part, from Prepare to a seal another node accepts.  Miner.v: the
      worker with its environment, tasks, results and loops.  MinerSpec.v,
      MinerResults.v: its theorems.  MinerExamples.v: a mined block.
    - Headers, configuration, gas limit and base fee (core/types/block.go,
      params/config.go, consensus/misc).  EthTypes.v.
    - RLP (rlp/encode.go, rlp/raw.go, rlp/decode.go), which every Ethereum message
      and every seal is written in.  Rlp.v: encoder and raw decoder.  RlpSpec.v:
      format.  RlpStream.v: the stream decoder and the decoders of Go types.
      RlpStreamSpec.v: streams as parsers.  RlpDecoderSpec.v: what the decoder of
      a type accepts.

    ** How the code is read

    Go functions are Rocq functions of the same name.  A [uint64] is a [Z] in
    range with the wrap-around written out ([+u], [-u], [u64], [i64]); a
    [*big.Int] is an [option Z].  Errors and panics are the constructors [Err]
    and [Panic] of [outcome].  Where the code shares objects through pointers
    and something depends on it (seeds, headers, transactions), they live in a
    heap and are named by locations.  Go maps are [gmap] and [gset].

    Code outside the repository is a type class with the promises the code relies
    on as a second class: [Randomness] ([math/rand], gofuzz; law-abiding
    instance [StreamRandom]), [EthCrypto] (Keccak, signature recovery),
    [CliqueEnv] (LRU caches, database, JSON), [MinerEnv] and [TrieHasher] (state
    database, execution of transactions, tries), and, for packets with blocks,
    transactions and receipts, [Decoder].
    For Fabric: [Protobuf] (a codec per message; a message is its known fields),
    [Certificates] (X.509, PEM, durations), [ChannelConfig] and [ConfigTx] (what
    the orderer reads of a configuration bundle), [BlockVerifier] (the policy
    of a block signature), [BlockPuller] (blocks other nodes send).
    [Backend] is the code's own interface of that name.  [mapset.Set.Pop] is a
    function that picks an element.  CRC-32, sorting and big-endian conversions
    of the standard library are defined and computed.

    ** What the theorems show

    - The fuzzing loops of both nodes keep the pools well typed, and their exact
      effect is a function of the draws: which seed is replaced by what, who
      receives it, and that nothing else changes.  The loop of the Ethereum node
      never panics; that of the orderer only when a fuzzed string cannot be
      marshalled.  Consequences: the corpus is closed, receipts are never
      fuzzed, one second of fuzzing works on one seed, and header seeds are the
      node's own objects.
    - SmartBFT: what one part of a node produces the other parts accept.  An
      assembled proposal and an honest signature are verified; a delivered
      decision is read back from the ledger unchanged, and its signatures can be
      verified from the ledger with the configuration block alone, exactly those
      of nodes whose configured identity sanitizing leaves alone; ledger, writer
      and runtime configuration stay in step whatever is delivered or pulled; the runtime configuration is
      well-formed; the height to synchronize to is one that f+1 nodes reach; a
      sequence of blocks is accepted exactly when every link and signature is
      right; verdicts do not depend on the order in which goroutines finish; no
      input makes the verifier panic.  One theorem shows a gap: the number of a
      proposed block is not checked against the ledger.
    - Clique: a header changes the snapshot exactly as a stateless description of
      the voting rules does, and only a majority changes the signers; votes and
      tally stay consistent; signers are spaced out, exactly one is in turn and
      one can always seal; retrieved snapshots are the replay of the chain from
      a trusted start (the genesis block, or a checkpoint that the engine may
      trust), however cached; a verified header is one the rules accept; the
      seal covers every other field.
    - Block producer: the queue serves transactions by price and nonce like a list
      per account would; whatever happens while a block is filled, the block an
      authorized signer seals passes the verification of every node with the same
      voting state, within its gas limit; blocks are written with the receipts
      their headers commit to, which name their block and their place in it,
      under every interleaving of the loops; a node mines
      when it is asked to and is not in its first synchronization.
    - RLP: the encoder with its two buffers produces the recursive definition of
      the format, the raw decoder accepts canonical input only and inverts it,
      and no byte string is two values.  The stream decoder of a Go type accepts
      exactly the encodings of the type, although a limit it keeps can wrap
      around, and inverts the encoder.
    - Handshake: it succeeds exactly for an acceptable status of the connected
      node, and two nodes of one chain complete it, which composes the fork
      identifier, encoder, decoder and checks.
    - Write loops: under every interleaving with the peer and its fuzzers they
      are safe, every batch is taken in turn and discarded only after a failed
      write, their queues are FIFO, a failed write is final and a queue is drained
      when the connection is up.
    - Transaction fetcher: whatever is announced, delivered and dropped, it reaches
      none of its panics and every hash is in one stage of its automaton; hashes
      are requested from one peer at a time and only from peers that announced
      them; a delivered hash leaves no trace; while something is tracked a timer
      is armed.  Its limit on announcements is applied the wrong way round, and a
      disconnected peer can leave hashes behind.
    - Block fetcher: it reaches none of its panics; no block is imported twice at a
      time; what is imported was sent whole or is what its origin announced, with
      the body its header commits to; a peer has at most 64 blocks in the queue.
      A block with a number near 2^64 blocks the queue of a young chain, and the
      counter of announcements can be too low.
    - Node: whatever peers send, in any interleaving with the fetchers, broadcasts
      and synchronizations, no step panics, and what is imported and requested was
      sent or announced in a packet of its origin.  A mined block goes whole to
      the square root of the peers that do not know it and by its hash to the
      others, and so do transactions; a
      synchronization starts exactly when a peer is ahead and enough are
      connected, with the one that claims most.
    - Packets: what is sent is what the handler decodes, and an exchange of headers
      between two nodes, run through request, encoder, decoder, handler, reply and
      back, delivers the headers asked for.
    - Handlers: on top of the node, no message makes it panic, and a connection is
      read until the first error; answers keep their limits, and header queries
      by number are an arithmetic progression.
    - Fork identifiers: the filter decides by the rules of EIP-2124, and two nodes
      of one chain accept each other.

    ** Loops and fuel

    Endless loops take the number of passes, or the times of the passes, and the
    theorems quantify over it.  [evict] runs for the cardinality of the set,
    [headers_loop] for the lookups the code allows, [ancestor_loop] for
    [maxNonCanonical], [toBytes_loop], [be_loop] and the counting of RLP values
    for the length of their input, [pull_loop] for the blocks between the
    ledger and the target height; each is proved to be enough by the theorem
    about its result.  The walk back of the engine's [snapshot] has a fuel, and
    snapshot_terminates gives one that is enough.  The stream decoder's loops run
    for the length of the input, which DecodeBytes_exact shows to be enough.
    The transaction loop of the miner runs for the queued transactions
    (transaction_loop_fuel), the loops of a heap for its length, the loop over the
    import queue for the length of the queue (import_queue_ok).
    The write loops, the worker's loops and the fetchers' loops have no fuel: their
    theorems are about all finite traces.

    ** Not modelled

    Sleeping, logging, metrics and the file of iteration counts; goroutines and
    data races between the fuzzing loops and the rest of a node (a loop pass is
    one step; the write loops and their writers do interleave with it); the cache
    of RLP decoders with the parsing of struct tags, and the DecodeRLP methods of
    blocks and transactions; the timers and the resubmission interval of the
    miner (floating point), the execution of transactions and the state; the
    downloader, and the starting and stopping of a node.  Of the SmartBFT orderer:
    the wiring of a node (New, HandleChain, NewChain, Start, Halt), the consensus library
    itself and its write-ahead log, which are vendored, asynchronous block
    writing, which SmartBFT channels do not use, and block files.  The rest of
    Fabric and of go-ethereum.  The nodes LOKI patches in Rust (src/src/diem_fuzz)
    and C++ (src/src/fisco_fuzz) are not part of this library. *)

From stdpp Require Export base gmap sets list strings sorting.
From Stdlib Require Export ZArith Lia.
From Stdlib.Strings Require Import Byte.

#[export] Set Default Goal Selector "!".

(** ** Go machine integers

    A Go [uint64] is a [Z] in [0, 2^64); every operation that can leave the
    range is followed by the wrap-around the language prescribes. *)

Declare Scope go_scope.
Delimit Scope go_scope with go.
Open Scope Z_scope.

Definition two64 : Z := 18446744073709551616.
Definition maxInt64 : Z := 9223372036854775807.

(** Conversion to [uint64]: reduction modulo 2^64. *)
Definition u64 (z : Z) : Z := z mod two64.

(** Conversion to [int64]: two's complement of the low 64 bits. *)
Definition i64 (z : Z) : Z :=
  let r := z mod two64 in if r <=? maxInt64 then r else r - two64.

Definition is_u64 (z : Z) : Prop := 0 <= z < two64.

Notation "a +u b" := (u64 (a + b)) (at level 50, left associativity) : go_scope.
Notation "a -u b" := (u64 (a - b)) (at level 50, left associativity) : go_scope.
Open Scope go_scope.

Lemma u64_range z : is_u64 (u64 z).
Proof. apply Z.mod_pos_bound. reflexivity. Qed.

Lemma u64_id z : is_u64 z -> u64 z = z.
Proof. apply Z.mod_small. Qed.

Lemma u64_add_small a b : 0 <= a -> 0 <= b -> a + b < two64 -> a +u b = a + b.
Proof. intros. apply u64_id. unfold is_u64. lia. Qed.

Lemma u64_sub_small a b : b <= a -> a - b < two64 -> a -u b = a - b.
Proof. intros. apply u64_id. unfold is_u64. lia. Qed.

Lemma u64_sub_add a b : is_u64 a -> (a -u b) +u b = a.
Proof.
  intros Ha. unfold u64. rewrite Z.add_mod_idemp_l by discriminate.
  replace (a - b + b) with a by lia. by apply Z.mod_small.
Qed.

(** An underflowing subtraction lands at the top of the range. *)
Lemma u64_sub_underflow a b :
  0 <= a < b -> b < two64 -> a -u b = two64 + a - b.
Proof.
  intros Ha Hb. unfold u64.
  replace (a - b) with (two64 + a - b + (-1) * two64) by lia.
  rewrite Z.mod_add by discriminate. apply Z.mod_small. lia.
Qed.

Lemma i64_small z : 0 <= z <= maxInt64 -> i64 z = z.
Proof.
  intros Hz. unfold i64. rewrite Z.mod_small by (unfold two64, maxInt64 in *; lia).
  destruct (Z.leb_spec z maxInt64); lia.
Qed.

(** [big.Int.Uint64]: the low 64 bits of the absolute value. *)
Definition big_Uint64 (z : Z) : Z := u64 (Z.abs z).

Lemma big_Uint64_id z : is_u64 z -> big_Uint64 z = z.
Proof. intros Hz. unfold big_Uint64. rewrite Z.abs_eq by apply Hz. by apply u64_id. Qed.

Lemma big_Uint64_range z : is_u64 (big_Uint64 z).
Proof. apply u64_range. Qed.

Create HintDb golib.
#[export] Hint Resolve u64_range u64_id : golib.

(** ** Bytes *)

Abbreviation byte := Byte.byte.
Abbreviation bytes := (list Byte.byte).

#[export] Instance byte_eq_dec : EqDecision byte := Byte.byte_eq_dec.
#[export] Program Instance byte_countable : Countable byte :=
  inj_countable Byte.to_N Byte.of_N _.
Next Obligation. intros x. apply Byte.of_to_N. Qed.
#[export] Instance byte_inhabited : Inhabited byte := populate Byte.x00.

(** The unsigned value of a byte, and Go's conversion [byte(z)]. *)
Definition byte_val (b : byte) : Z := Z.of_N (Byte.to_N b).
Definition to_byte (z : Z) : byte :=
  match Byte.of_N (Z.to_N (z mod 256)) with Some b => b | None => Byte.x00 end.

Lemma byte_val_range b : 0 <= byte_val b < 256.
Proof. unfold byte_val. pose proof (Byte.to_N_bounded b). lia. Qed.

Lemma to_byte_val b : to_byte (byte_val b) = b.
Proof.
  unfold to_byte. rewrite Z.mod_small by apply byte_val_range.
  unfold byte_val. rewrite N2Z.id, Byte.of_to_N. reflexivity.
Qed.

Lemma byte_val_to_byte z : byte_val (to_byte z) = z mod 256.
Proof.
  unfold to_byte, byte_val.
  pose proof (Z.mod_pos_bound z 256 eq_refl) as Hm.
  destruct (Byte.of_N (Z.to_N (z mod 256))) as [b|] eqn:E.
  - apply Byte.to_of_N in E. rewrite E. lia.
  - pose proof (Byte.to_of_N_option_map (Z.to_N (z mod 256))) as H.
    rewrite E in H. destruct (N.leb_spec (Z.to_N (z mod 256)) 255); [done|lia].
Qed.

Lemma byte_val_to_byte_small z : 0 <= z < 256 -> byte_val (to_byte z) = z.
Proof. intros. rewrite byte_val_to_byte. by apply Z.mod_small. Qed.

#[export] Instance byte_val_inj : Inj (=) (=) byte_val.
Proof. intros a b H. rewrite <- (to_byte_val a), H. apply to_byte_val. Qed.

(** Big-endian value of a byte string. *)
Definition be_val (bs : bytes) : Z :=
  fold_left (fun acc b => acc * 256 + byte_val b) bs 0.

(** [hex.EncodeToString]: two lower-case digits per byte. *)
Definition hex_digit (z : Z) : Ascii.ascii :=
  Ascii.ascii_of_N (Z.to_N (if z <? 10 then 48 + z else 87 + z)).

Fixpoint hex_encode (bs : bytes) : string :=
  match bs with
  | [] => EmptyString
  | b :: rest =>
      String (hex_digit (byte_val b / 16))
        (String (hex_digit (byte_val b mod 16)) (hex_encode rest))
  end.

Lemma hex_digit_inj a b :
  0 <= a < 16 -> 0 <= b < 16 -> hex_digit a = hex_digit b -> a = b.
Proof.
  intros Ha Hb H. unfold hex_digit in H.
  apply (f_equal Ascii.N_of_ascii) in H.
  rewrite !Ascii.N_ascii_embedding in H by (repeat case_match; lia).
  destruct (Z.ltb_spec a 10), (Z.ltb_spec b 10); lia.
Qed.

Lemma hex_encode_inj a b : hex_encode a = hex_encode b -> a = b.
Proof.
  revert b. induction a as [|x a IH]; intros [|y b]; simpl; try done.
  intros [= H1 H2 H3]. f_equal; [|by apply IH].
  pose proof (byte_val_range x). pose proof (byte_val_range y).
  apply hex_digit_inj in H1; [|split; [apply Z.div_pos | apply Z.div_lt_upper_bound]; lia..].
  apply hex_digit_inj in H2; [|apply Z.mod_pos_bound; lia..].
  apply byte_val_inj. rewrite (Z.div_mod (byte_val x) 16), (Z.div_mod (byte_val y) 16) by lia.
  congruence.
Qed.

(** ** Outcomes of fallible Go code

    A Go call returns a value, returns a non-nil error, or panics (an explicit
    [panic], [Logger.Panicf], a nil dereference, an index out of range).
    Errors are their message with the formatted arguments left out. *)

Abbreviation error := string.

Inductive outcome (A : Type) : Type :=
| Ok (a : A)
| Err (e : error)
| Panic (msg : string).
Arguments Ok {A} a.
Arguments Err {A} e.
Arguments Panic {A} msg.

#[export] Instance outcome_ret : MRet outcome := fun A a => Ok a.
#[export] Instance outcome_bind : MBind outcome := fun A B f m =>
  match m with
  | Ok a => f a
  | Err e => Err e
  | Panic p => Panic p
  end.
#[export] Instance outcome_fmap : FMap outcome := fun A B f m =>
  match m with
  | Ok a => Ok (f a)
  | Err e => Err e
  | Panic p => Panic p
  end.
#[export] Instance outcome_eq_dec `{EqDecision A} : EqDecision (outcome A).
Proof. solve_decision. Defined.

(** [errors.Wrap(err, msg)]. *)
Definition wrap {A} (msg : string) (m : outcome A) : outcome A :=
  match m with
  | Err e => Err (msg +:+ ": " +:+ e)
  | m => m
  end.

(** [if err != nil { Panicf(msg) }]. *)
Definition or_panic {A} (msg : string) (m : outcome A) : outcome A :=
  match m with
  | Err e => Panic msg
  | m => m
  end.

(** Dereference of a pointer that may be nil. *)
Definition deref {A} (p : option A) : outcome A :=
  match p with
  | Some a => Ok a
  | None => Panic "invalid memory address or nil pointer dereference"
  end.

(** Slice indexing [l[i]] with an [int] index. *)
Definition index {A} (l : list A) (i : nat) : outcome A :=
  match l !! i with
  | Some a => Ok a
  | None => Panic "index out of range"
  end.

(** Slice assignment [l[i] = x]. *)
Definition set_index {A} (l : list A) (i : nat) (x : A) : outcome (list A) :=
  if decide (i < length l)%nat then Ok (<[i:=x]> l) else Panic "index out of range".

(** [if !b { return err }]. *)
Definition ensure (b : bool) (e : error) : outcome unit :=
  if b then Ok tt else Err e.

Definition ok_or {A} (o : option A) (e : error) : outcome A :=
  match o with
  | Some a => Ok a
  | None => Err e
  end.

Section Outcome.
Context {A B : Type}.
Implicit Types m : outcome A.

Lemma bind_Ok m (f : A -> outcome B) b :
  (m ≫= f) = Ok b <-> exists a, m = Ok a /\ f a = Ok b.
Proof. destruct m; simpl; naive_solver. Qed.

Lemma wrap_Ok s m a : wrap s m = Ok a <-> m = Ok a.
Proof. destruct m; naive_solver. Qed.

Lemma or_panic_Ok s m a : or_panic s m = Ok a <-> m = Ok a.
Proof. destruct m; naive_solver. Qed.

Lemma deref_Ok (p : option A) a : deref p = Ok a <-> p = Some a.
Proof. destruct p; naive_solver. Qed.

Lemma index_Ok (l : list A) i a : index l i = Ok a <-> l !! i = Some a.
Proof. unfold index. destruct (l !! i); naive_solver. Qed.

Lemma set_index_Ok (l l' : list A) i x :
  set_index l i x = Ok l' <-> (i < length l)%nat /\ l' = <[i:=x]> l.
Proof. unfold set_index. case_decide; naive_solver. Qed.

Lemma ok_or_Ok (o : option A) e a : ok_or o e = Ok a <-> o = Some a.
Proof. destruct o; naive_solver. Qed.
End Outcome.

(** Whether a run succeeded, for evaluation on concrete inputs. *)
Definition is_ok {A} (m : outcome A) : bool :=
  match m with Ok _ => true | _ => false end.

Lemma is_ok_ex {A} (m : outcome A) : is_ok m = true -> exists a, m = Ok a.
Proof. destruct m; [eauto|done..]. Qed.

Lemma ensure_Ok b e u : ensure b e = Ok u <-> b = true.
Proof. destruct u, b; naive_solver. Qed.

(** [inv_ok] turns a successful run of a monadic definition into the facts of
    every step it went through. *)
Ltac inv_ok :=
  repeat match goal with
  | H : mbind _ _ = Ok _ |- _ =>
      let x := fresh "v" in let E := fresh "E" in
      apply bind_Ok in H as (x & E & H)
  | H : wrap _ _ = Ok _ |- _ => apply wrap_Ok in H
  | H : or_panic _ _ = Ok _ |- _ => apply or_panic_Ok in H
  | H : deref _ = Ok _ |- _ => apply deref_Ok in H
  | H : index _ _ = Ok _ |- _ => apply index_Ok in H
  | H : set_index _ _ _ = Ok _ |- _ => apply set_index_Ok in H as [? ?]
  | H : ok_or _ _ = Ok _ |- _ => apply ok_or_Ok in H
  | H : ensure _ _ = Ok _ |- _ => apply ensure_Ok in H
  | H : Err _ = Ok _ |- _ => discriminate H
  | H : Panic _ = Ok _ |- _ => discriminate H
  | H : Ok _ = Ok _ |- _ => injection H as H; try subst
  | H : mret _ = Ok _ |- _ => injection H as H; try subst
  end.

(** ** Stateful Go code

    Code that reads and writes shared variables is a function of the state it
    shares: [GoM S A] runs on a state and gives a value with the new state, an
    error, or a panic. *)

Definition GoM (S A : Type) : Type := S -> outcome (A * S).

#[export] Instance GoM_ret S : MRet (GoM S) := fun A a s => Ok (a, s).
#[export] Instance GoM_bind S : MBind (GoM S) := fun A B f m s =>
  match m s with
  | Ok (a, s') => f a s'
  | Err e => Err e
  | Panic p => Panic p
  end.

Definition gets {S A} (f : S -> A) : GoM S A := fun s => Ok (f s, s).
Definition modify {S} (f : S -> S) : GoM S unit := fun s => Ok (tt, f s).
Definition lift {S A} (m : outcome A) : GoM S A := fun s =>
  match m with
  | Ok a => Ok (a, s)
  | Err e => Err e
  | Panic p => Panic p
  end.

Fixpoint for_each {S A} (body : A -> GoM S unit) (l : list A) : GoM S unit :=
  match l with
  | [] => mret tt
  | x :: rest => body x ≫= fun _ => for_each body rest
  end.

(** A Hoare triple for code that must finish without an error or a panic. *)
Definition runs {S A} (P : S -> Prop) (m : GoM S A) (Q : A -> S -> S -> Prop) : Prop :=
  forall s, P s -> exists a s', m s = Ok (a, s') /\ Q a s s'.

Section GoMLaws.
Context {S : Type}.

Lemma GoM_bind_Ok {A B} (m : GoM S A) (f : A -> GoM S B) s r :
  (m ≫= f) s = Ok r <-> exists a s', m s = Ok (a, s') /\ f a s' = Ok r.
Proof.
  unfold mbind, GoM_bind. destruct (m s) as [[a s']| |]; naive_solver.
Qed.

Lemma lift_Ok {A} (m : outcome A) (s : S) r :
  lift m s = Ok r <-> exists a, m = Ok a /\ r = (a, s).
Proof. unfold lift. destruct m; naive_solver. Qed.

Lemma runs_bind {A B} P (m : GoM S A) (f : A -> GoM S B) Q R :
  runs P m Q ->
  (forall a s0, P s0 ->
     runs (fun s => Q a s0 s) (f a) (fun b _ s' => R b s0 s')) ->
  runs P (m ≫= f) R.
Proof.
  intros Hm Hf s Hs. destruct (Hm s Hs) as (a & s' & E & HQ).
  destruct (Hf a s Hs s' HQ) as (b & s'' & E' & HR).
  exists b, s''. split; [|done]. apply GoM_bind_Ok. eauto.
Qed.

Lemma runs_consequence {A} (P P' : S -> Prop) (m : GoM S A) (Q Q' : A -> S -> S -> Prop) :
  runs P m Q -> (forall s, P' s -> P s) ->
  (forall a s s', P' s -> Q a s s' -> Q' a s s') -> runs P' m Q'.
Proof. intros H HP HQ s Hs. destruct (H s (HP _ Hs)) as (a & s' & ? & ?). eauto 6. Qed.

Lemma runs_ret {A} P (a : A) :
  runs P (mret a : GoM S A) (fun b s s' => b = a /\ s' = s).
Proof. intros s Hs. eexists _, _. by split. Qed.

(** A loop preserves what each pass preserves. *)
Lemma runs_for_each {A} (I : S -> Prop) (body : A -> GoM S unit) l :
  (forall x, x ∈ l -> runs I (body x) (fun _ _ s' => I s')) ->
  runs I (for_each body l) (fun _ _ s' => I s').
Proof.
  induction l as [|x l IH]; intros Hb; simpl.
  - eapply runs_consequence; [apply runs_ret | done | naive_solver].
  - eapply runs_bind; [apply Hb; set_solver|]. intros ? s0 ?.
    eapply runs_consequence; [apply IH; set_solver | done | done].
Qed.
End GoMLaws.

(** ** Methods that return errors

    A Go method that returns an error leaves its receiver as far as it got:
    [StM S A] gives the outcome and the state after it, whatever the outcome. *)

Definition StM (S A : Type) : Type := S -> outcome A * S.

#[export] Instance StM_ret S : MRet (StM S) := fun A a s => (Ok a, s).
#[export] Instance StM_bind S : MBind (StM S) := fun A B f m s =>
  match m s with
  | (Ok a, s') => f a s'
  | (Err e, s') => (Err e, s')
  | (Panic p, s') => (Panic p, s')
  end.

Definition pure {S A} (m : outcome A) : StM S A := fun s => (m, s).
Definition getS {S A} (f : S -> A) : StM S A := fun s => (Ok (f s), s).
(** A fallible read of the state. *)
Definition askS {S A} (f : S -> outcome A) : StM S A := fun s => (f s, s).
Definition putS {S} (f : S -> S) : StM S unit := fun s => (Ok tt, f s).

Section StMLaws.
Context {S : Type}.

Lemma StM_bind_Ok {A B} (m : StM S A) (f : A -> StM S B) s b s' :
  (m ≫= f) s = (Ok b, s') <-> exists a s1, m s = (Ok a, s1) /\ f a s1 = (Ok b, s').
Proof.
  unfold mbind, StM_bind. destruct (m s) as [[a|e|p] s1]; split; try naive_solver.
Qed.

(** Running through a step that succeeds. *)
Lemma StM_run {A B} (m : StM S A) (f : A -> StM S B) s a s' :
  m s = (Ok a, s') -> (m ≫= f) s = f a s'.
Proof. intros H. unfold mbind, StM_bind. by rewrite H. Qed.

Lemma StM_run_pure {A B} (m : outcome A) (f : A -> StM S B) s a :
  m = Ok a -> (pure m ≫= f) s = f a s.
Proof. by intros ->. Qed.

Lemma StM_run_ensure {B} b e (f : unit -> StM S B) s :
  b = true -> (pure (ensure b e) ≫= f) s = f tt s.
Proof. by intros ->. Qed.

Lemma pure_Ok {A} (m : outcome A) (s : S) a s' :
  pure m s = (Ok a, s') <-> m = Ok a /\ s' = s.
Proof. unfold pure. naive_solver. Qed.

Lemma StM_bind_ext {A B} (m : StM S A) (f g : A -> StM S B) s :
  (forall a s', m s = (Ok a, s') -> f a s' = g a s') -> (m ≫= f) s = (m ≫= g) s.
Proof. intros H. unfold mbind, StM_bind. destruct (m s) as [[a|e|p] s']; [by apply H|done..]. Qed.

(** What every run keeps, whatever its outcome, and what a successful one
    returns. *)
Definition keeps {A} (I : S -> Prop) (m : StM S A) (Q : A -> Prop) : Prop :=
  forall s, I s -> I (m s).2 /\ forall a, (m s).1 = Ok a -> Q a.

Lemma keeps_bind {A B} I (m : StM S A) (f : A -> StM S B) Q R :
  keeps I m Q -> (forall a, Q a -> keeps I (f a) R) -> keeps I (m ≫= f) R.
Proof.
  intros Hm Hf s Hs. unfold mbind, StM_bind. specialize (Hm s Hs).
  destruct (m s) as [[a|e|p] s1]; cbn in *; destruct Hm as [H1 H2]; [|by split..].
  by apply (Hf a (H2 a eq_refl)).
Qed.

Lemma keeps_pure {A} I (m : outcome A) (Q : A -> Prop) :
  (forall a, m = Ok a -> Q a) -> keeps I (pure m) Q.
Proof. intros H s Hs. by split. Qed.

Lemma keeps_ret {A} I (a : A) (Q : A -> Prop) : Q a -> keeps I (mret a) Q.
Proof. intros H s Hs. split; [done|]. by intros b [= <-]. Qed.

Lemma keeps_get {A} (I : S -> Prop) (f : S -> A) (Q : A -> Prop) :
  (forall s, I s -> Q (f s)) -> keeps I (getS f) Q.
Proof. intros H s Hs. split; [done|]. intros a [= <-]. by apply H. Qed.

Lemma keeps_ask {A} (I : S -> Prop) (f : S -> outcome A) (Q : A -> Prop) :
  (forall s a, I s -> f s = Ok a -> Q a) -> keeps I (askS f) Q.
Proof. intros H s Hs. split; [done|]. intros a Ha. by apply (H s). Qed.

Lemma askS_Ok {A} (f : S -> outcome A) s a s' :
  askS f s = (Ok a, s') <-> f s = Ok a /\ s' = s.
Proof. unfold askS. split; [intros H; by simplify_eq|by intros [-> ->]]. Qed.

Lemma getS_Ok {A} (f : S -> A) s a s' :
  getS f s = (Ok a, s') <-> a = f s /\ s' = s.
Proof. unfold getS. split; [intros H; by simplify_eq|by intros [-> ->]]. Qed.

Lemma keeps_weaken {A} I (m : StM S A) (Q R : A -> Prop) :
  keeps I m Q -> (forall a, Q a -> R a) -> keeps I m R.
Proof. intros H HQ s Hs. destruct (H s Hs) as [H1 H2]. split; [done|]. eauto. Qed.
End StMLaws.

(** ** Lists and outcomes *)

Lemma filter_all {A} (P : A -> Prop) `{!forall x, Decision (P x)} (l : list A) :
  (forall x, x ∈ l -> P x) -> filter P l = l.
Proof.
  induction l as [|x l IH]; intros Hl; [done|].
  rewrite filter_cons_True by (apply Hl; by left). f_equal. apply IH. intros; apply Hl; by right.
Qed.

Lemma filter_none {A} (P : A -> Prop) `{!forall x, Decision (P x)} (l : list A) :
  (forall x, x ∈ l -> ~ P x) -> filter P l = [].
Proof.
  induction l as [|x l IH]; intros Hn; [done|]. rewrite filter_cons_False by (apply Hn; left).
  apply IH. intros y Hy. apply Hn. by right.
Qed.

Lemma Ok_inj {A} (a b : A) : Ok a = Ok b -> b = a.
Proof. by intros [= ->]. Qed.

Lemma bind_ext {A B} (m : outcome A) (f g : A -> outcome B) : (forall a, f a = g a) -> m ≫= f = m ≫= g.
Proof. intros H. destruct m; [apply H|done..]. Qed.
