(* ===== verification/Randomness.v ===== *)
(** * Randomness of the fuzzers

    The fuzzers draw from [math/rand] and from the package [gofuzz], which is
    not part of the repository.  Both are an interface: a generator state with
    draws, and the ranges their documentation promises.  Every theorem about a
    fuzzer holds for every generator that keeps the promises; [StreamRandom]
    is one, used to run the fuzzers on concrete draws. *)

From S2P Require Import Prelude.

(** [math/rand] (as the code calls it) and [gofuzz] on the basic types. *)
Class Randomness := {
  RNG : Type;
  (** [rand.Float64()] is k / 2^53; the draw is the numerator k. *)
  rand_Float64 : RNG -> Z * RNG;
  (** [rand.Intn(n)] for n > 0. *)
  rand_Intn : Z -> RNG -> Z * RNG;
  (** [rand.Uint64()]. *)
  rand_Uint64 : RNG -> Z * RNG;
  (** [rand.Seed(time.Now().Unix())]. *)
  rand_Seed : RNG -> RNG;
  (** The generators after [rand.Seed(t)]; gofuzz has a source of its own, which
      keeps its state. *)
  rand_SeedAt : Z -> RNG -> RNG;
  (** [f.Fuzz(p)] for p of type [*uint64], [*string], [*bool], [*[]byte] and
      [*big.Int]; the old value is what p points to. *)
  fuzz_uint64 : Z -> RNG -> Z * RNG;
  fuzz_string : string -> RNG -> string * RNG;
  fuzz_bool : bool -> RNG -> bool * RNG;
  fuzz_bytes : bytes -> RNG -> bytes * RNG;
  fuzz_bigint : Z -> RNG -> Z * RNG;
  (** [*uint32], byte arrays and [*time.Time]. *)
  fuzz_uint32 : Z -> RNG -> Z * RNG;
  fuzz_array : bytes -> RNG -> bytes * RNG;
  fuzz_time : Z -> RNG -> Z * RNG;
}.

Definition two53 : Z := 9007199254740992.

(** What the documentation of [math/rand] and [gofuzz] promises. *)
Class RandomnessOk `{!Randomness} : Prop := {
  rand_Float64_range r : 0 <= (rand_Float64 r).1 < two53;
  rand_Intn_range n r : 0 < n -> 0 <= (rand_Intn n r).1 < n;
  rand_Uint64_range r : is_u64 (rand_Uint64 r).1;
  fuzz_uint64_range z r : is_u64 (fuzz_uint64 z r).1;
  (** After seeding, the draws depend on the seed only. *)
  rand_SeedAt_Intn t n r r' :
    (rand_Intn n (rand_SeedAt t r)).1 = (rand_Intn n (rand_SeedAt t r')).1;
  rand_SeedAt_Intn2 t n k r r' :
    (rand_Intn k (rand_Intn n (rand_SeedAt t r)).2).1 = (rand_Intn k (rand_Intn n (rand_SeedAt t r')).2).1;
}.

(** Comparisons of a draw k / 2^53 with the constants 0.1, 0.7 and 0.85, which
    the compiler rounds to the binary64 numbers 3602879701896397 / 2^55,
    6305039478318694 / 2^53 and 7656119366529843 / 2^53. *)
Definition ge_0_1 (k : Z) : bool := 3602879701896397 <=? 4 * k.
Definition le_0_1 (k : Z) : bool := 4 * k <=? 3602879701896397.
Definition lt_0_7 (k : Z) : bool := k <? 6305039478318694.
Definition lt_0_85 (k : Z) : bool := k <? 7656119366529843.

(** ** A generator that replays a list of draws *)

Module StreamRandom.
Definition draw (r : list Z) : Z * list Z :=
  match r with
  | [] => (0, [])
  | z :: rest => (z, rest)
  end.

#[export] Instance stream : Randomness := {|
  RNG := list Z;
  rand_Float64 r := let '(z, r') := draw r in (z mod two53, r');
  rand_Intn n r := let '(z, r') := draw r in (z mod n, r');
  rand_Uint64 r := let '(z, r') := draw r in (u64 z, r');
  rand_Seed r := r;
  rand_SeedAt t _ := [t; t; t; t; t; t; t; t];
  fuzz_uint64 _ r := let '(z, r') := draw r in (u64 z, r');
  fuzz_string _ r :=
    let '(z, r') := draw r in (String (Ascii.ascii_of_N (Z.to_N z)) EmptyString, r');
  fuzz_bool _ r := let '(z, r') := draw r in (Z.odd z, r');
  fuzz_bytes _ r := let '(z, r') := draw r in ([to_byte z], r');
  fuzz_bigint _ r := let '(z, r') := draw r in (z, r');
  fuzz_uint32 _ r := let '(z, r') := draw r in (z mod 4294967296, r');
  fuzz_array b r := let '(z, r') := draw r in ((fun _ => to_byte z) <$> b, r');
  fuzz_time _ r := draw r;
|}.

#[export] Instance stream_ok : RandomnessOk (H := stream).
Proof.
  split; intros; try done; simpl; destruct (draw _); simpl;
    try apply u64_range; apply Z.mod_pos_bound; done.
Qed.
End StreamRandom.
