(* ===== verification/BigEndian.v ===== *)
(** * Minimal big-endian numbers

    Numbers as byte strings without leading zeros, as RLP and ASN.1 write
    them. *)

From S2P Require Import Prelude.

(** [big.Int.BitLen] of a number that is not negative. *)
Definition big_BitLen (i : Z) : Z := if i =? 0 then 0 else Z.log2 i + 1.

Fixpoint be_loop (fuel : nat) (n : Z) : bytes :=
  match fuel with
  | O => []
  | S f => if n =? 0 then [] else be_loop f (n / 256) ++ [to_byte n]
  end.

Definition be_bytes (n : Z) : bytes := be_loop (Z.to_nat (big_BitLen n)) n.

Lemma div_256_lt n m : n < m * 256 -> n / 256 < m.
Proof. intros H. apply Z.div_lt_upper_bound; lia. Qed.

Lemma be_loop_enough f f' n :
  0 <= n < 256 ^ Z.of_nat f -> n < 256 ^ Z.of_nat f' -> be_loop f n = be_loop f' n.
Proof.
  revert f' n. induction f as [|f IH]; intros [|f'] n Hn Hn'; cbn; try done.
  - change (256 ^ Z.of_nat 0) with 1 in Hn. assert (n = 0) as -> by lia. done.
  - change (256 ^ Z.of_nat 0) with 1 in Hn'. assert (n = 0) as -> by lia. done.
  - destruct (Z.eqb_spec n 0); [done|]. rewrite !Nat2Z.inj_succ, !Z.pow_succ_r in * by lia.
    rewrite (IH f' (n / 256)); [done| |apply div_256_lt; lia].
    split; [apply Z.div_pos; lia|apply div_256_lt; lia].
Qed.

Lemma bitlen_bound n : 0 <= n -> n < 256 ^ big_BitLen n /\ 0 <= big_BitLen n.
Proof.
  intros Hn. unfold big_BitLen. destruct (Z.eqb_spec n 0) as [->|]; [done|].
  pose proof (Z.log2_nonneg n). split; [|lia].
  pose proof (Z.log2_spec n ltac:(lia)) as [_ H2]. eapply Z.lt_le_trans; [exact H2|].
  rewrite <- Z.add_1_r. apply Z.pow_le_mono_l. lia.
Qed.

Lemma be_bytes_fuel f n : 0 <= n < 256 ^ Z.of_nat f -> be_bytes n = be_loop f n.
Proof.
  intros Hn. pose proof (bitlen_bound n ltac:(lia)) as [H1 H2].
  apply be_loop_enough; rewrite ?Z2Nat.id; lia.
Qed.

Lemma be_bytes_0 : be_bytes 0 = [].
Proof. done. Qed.

Lemma be_bytes_step n : 0 < n -> be_bytes n = be_bytes (n / 256) ++ [to_byte n].
Proof.
  intros Hn. pose proof (bitlen_bound n ltac:(lia)) as [H1 H2].
  set (f := Z.to_nat (big_BitLen n)). assert (n < 256 ^ Z.of_nat (S f)) as Hf.
  { unfold f. rewrite Nat2Z.inj_succ, Z2Nat.id by lia.
    eapply Z.lt_le_trans; [exact H1|]. apply Z.pow_le_mono_r; lia. }
  rewrite (be_bytes_fuel (S f) n) by lia. cbn. destruct (Z.eqb_spec n 0); [lia|].
  rewrite (be_bytes_fuel f (n / 256)); [done|].
  rewrite Nat2Z.inj_succ, Z.pow_succ_r in Hf by lia.
  split; [apply Z.div_pos; lia|apply div_256_lt; lia].
Qed.

Lemma be_val_snoc b x : be_val (b ++ [x]) = be_val b * 256 + byte_val x.
Proof. unfold be_val. by rewrite fold_left_app. Qed.

Lemma be_val_nonneg b : 0 <= be_val b.
Proof.
  induction b as [|x b IH] using rev_ind; [done|]. rewrite be_val_snoc.
  pose proof (byte_val_range x). lia.
Qed.

(** Induction following the digits. *)
Lemma Z_digit_ind (P : Z -> Prop) :
  P 0 -> (forall n, 0 < n -> P (n / 256) -> P n) -> forall n, 0 <= n -> P n.
Proof.
  intros H0 Hs n Hn. pattern n. apply (Zlt_0_ind P); [|done].
  intros x IH Hx. destruct (Z.eq_dec x 0) as [->|]; [done|]. apply Hs; [lia|]. apply IH.
  split; [apply Z.div_pos; lia|]. apply Z.div_lt; lia.
Qed.

Lemma be_val_be_bytes n : 0 <= n -> be_val (be_bytes n) = n.
Proof.
  revert n. apply Z_digit_ind; [done|]. intros n Hn IH.
  rewrite be_bytes_step, be_val_snoc, IH, byte_val_to_byte by done.
  pose proof (Z.div_mod n 256). lia.
Qed.

(** No leading zero. *)
Definition canonical (b : bytes) : Prop := head b <> Some Byte.x00.

Lemma be_bytes_canonical n : 0 <= n -> canonical (be_bytes n).
Proof.
  unfold canonical. revert n. apply Z_digit_ind; [done|]. intros n Hn IH.
  rewrite be_bytes_step by done. destruct (be_bytes (n / 256)) eqn:E; [|done].
  assert (n / 256 = 0) as Hz.
  { rewrite <- (be_val_be_bytes (n / 256)) by (apply Z.div_pos; lia). by rewrite E. }
  cbn. intros [= H]. apply (f_equal byte_val) in H. rewrite byte_val_to_byte in H.
  change (byte_val Byte.x00) with 0 in H. pose proof (Z.div_mod n 256). lia.
Qed.

Lemma canonical_pos b : b <> [] -> canonical b -> 0 < be_val b.
Proof.
  induction b as [|x b IH] using rev_ind; [done|]. intros _ Hc. rewrite be_val_snoc.
  pose proof (byte_val_range x). destruct b as [|y b].
  - cbn. assert (byte_val x <> 0); [|lia]. intros E. apply Hc. cbn. f_equal.
    apply byte_val_inj. by rewrite E.
  - assert (0 < be_val (y :: b)) by (by apply IH). lia.
Qed.

Lemma be_bytes_be_val b : canonical b -> be_bytes (be_val b) = b.
Proof.
  induction b as [|x b IH] using rev_ind; [done|]. intros Hc.
  assert (b ++ [x] <> []) as Hne by (by destruct b).
  pose proof (canonical_pos _ Hne Hc) as Hp. rewrite be_bytes_step by done.
  rewrite be_val_snoc. pose proof (byte_val_range x). rewrite Z.div_add_l by lia.
  rewrite Z.div_small, Z.add_0_r by done. rewrite IH by (destruct b; [done|exact Hc]).
  do 2 f_equal. apply byte_val_inj. rewrite byte_val_to_byte.
  rewrite Z.add_comm, Z.mod_add by lia. by apply Z.mod_small.
Qed.

Lemma length_be_bytes_le f n : 0 <= n < 256 ^ Z.of_nat f -> (length (be_bytes n) <= f)%nat.
Proof.
  intros Hn. rewrite (be_bytes_fuel f n Hn). clear Hn. revert n.
  induction f as [|f IH]; intros n; cbn; [lia|]. case_match; cbn; [lia|].
  rewrite length_app. cbn. specialize (IH (n / 256)). lia.
Qed.

Lemma be_bytes_nonempty n : 0 < n -> be_bytes n <> [].
Proof. intros Hn. rewrite be_bytes_step by done. by destruct (be_bytes _). Qed.

Lemma be_val_lt_pow k b : (length b <= k)%nat -> be_val b < 256 ^ Z.of_nat k.
Proof.
  revert k. induction b as [|x b IH] using rev_ind; intros k Hk.
  - change (be_val []) with 0. lia.
  - rewrite length_app in Hk. cbn in Hk. destruct k as [|k]; [lia|].
    rewrite be_val_snoc, Nat2Z.inj_succ, Z.pow_succ_r by lia.
    specialize (IH k ltac:(lia)). pose proof (byte_val_range x). lia.
Qed.
