(* ===== verification/Asn1.v ===== *)
(** * ASN.1

    What the orderer uses of [encoding/asn1]: structures of octet strings, one of
    them with a leading integer.  Writing gives the distinguished encoding;
    reading accepts what the Go decoder accepts, which is more: bytes after the
    structure, and further elements inside it, are ignored. *)

From S2P Require Import Prelude BigEndian.

Definition tagInteger : Z := 2.
Definition tagOctetString : Z := 4.
Definition tagSequence : Z := 48.

Definition zlen (b : bytes) : Z := Z.of_nat (length b).

(** ** Writing *)

Definition der_length (n : Z) : bytes :=
  if n <? 128 then [to_byte n]
  else to_byte (128 + zlen (be_bytes n)) :: be_bytes n.

Definition tlv (tag : Z) (content : bytes) : bytes :=
  to_byte tag :: der_length (zlen content) ++ content.

(** A number that is not negative, in two's complement. *)
Definition der_uint (n : Z) : bytes :=
  match be_bytes n with
  | [] => [Byte.x00]
  | b :: rest => if byte_val b <? 128 then b :: rest else Byte.x00 :: b :: rest
  end.

(** A number of any sign. *)
Definition der_int (n : Z) : bytes :=
  if n <? 0 then
    let b := (fun x => to_byte (255 - byte_val x)) <$> be_bytes (- n - 1) in
    match b with
    | x :: _ => if byte_val x <? 128 then Byte.xff :: b else b
    | [] => [Byte.xff]
    end
  else der_uint n.

Definition octets (b : bytes) : bytes := tlv tagOctetString b.

(** A structure of octet strings. *)
Definition marshal_octets (l : list bytes) : bytes := tlv tagSequence (concat (octets <$> l)).

(** A structure of an integer and octet strings. *)
Definition marshal_int_octets (n : Z) (l : list bytes) : bytes :=
  tlv tagSequence (tlv tagInteger (der_uint n) ++ concat (octets <$> l)).

(** ** Reading *)

Fixpoint parse_length_loop (k : nat) (acc : Z) (b : bytes) : outcome (Z * bytes) :=
  match k with
  | O => if acc <? 128 then Err "non-minimal length" else mret (acc, b)
  | S k' =>
      match b with
      | [] => Err "truncated tag or length"
      | x :: rest =>
          if 8388608 <=? acc then Err "length too large"
          else
            let acc := acc * 256 + byte_val x in
            if acc =? 0 then Err "superfluous leading zeros in length" else parse_length_loop k' acc rest
      end
  end.

Definition parse_length (b : bytes) : outcome (Z * bytes) :=
  match b with
  | [] => Err "truncated tag or length"
  | x :: rest =>
      if byte_val x <? 128 then mret (byte_val x, rest)
      else if byte_val x =? 128 then Err "indefinite length found (not DER)"
      else parse_length_loop (Z.to_nat (byte_val x - 128)) 0 rest
  end.

(** The content of an element with the tag, and what follows it. *)
Definition parse_tlv (tag : Z) (b : bytes) : outcome (bytes * bytes) :=
  match b with
  | [] => Err "sequence truncated"
  | x :: rest =>
      if byte_val x =? tag then
        '(n, rest) ← parse_length rest;
        if zlen rest <? n then Err "data truncated"
        else mret (take (Z.to_nat n) rest, drop (Z.to_nat n) rest)
      else Err "tags don't match"
  end.

(** [*big.Int]: two's complement, refused when not minimal. *)
Definition parse_bigint (b : bytes) : outcome Z :=
  let signed x := if byte_val x <? 128 then be_val b else be_val b - 256 ^ zlen b in
  match b with
  | [] => Err "empty integer"
  | [x] => mret (signed x)
  | x :: y :: _ =>
      if ((byte_val x =? 0) && (byte_val y <? 128)) || ((byte_val x =? 255) && (128 <=? byte_val y))
      then Err "integer not minimally-encoded"
      else mret (signed x)
  end.

Fixpoint parse_octets (k : nat) (b : bytes) : outcome (list bytes) :=
  match k with
  | O => mret []
  | S k' =>
      '(x, rest) ← parse_tlv tagOctetString b;
      l ← parse_octets k' rest;
      mret (x :: l)
  end.

Definition unmarshal_octets (k : nat) (b : bytes) : outcome (list bytes) :=
  '(content, _) ← parse_tlv tagSequence b;
  parse_octets k content.

Definition unmarshal_int_octets (k : nat) (b : bytes) : outcome (Z * list bytes) :=
  '(content, _) ← parse_tlv tagSequence b;
  '(i, rest) ← parse_tlv tagInteger content;
  n ← parse_bigint i;
  l ← parse_octets k rest;
  mret (n, l).

(** ** What is written can be read *)

Lemma be_val_cons x b : be_val (x :: b) = byte_val x * 256 ^ zlen b + be_val b.
Proof.
  induction b as [|y b IH] using rev_ind; [unfold zlen; cbn; lia|].
  rewrite app_comm_cons, !be_val_snoc, IH. unfold zlen. rewrite length_app. cbn [length].
  rewrite Nat2Z.inj_add, Z.pow_add_r by lia. change (256 ^ Z.of_nat 1) with 256. lia.
Qed.

Lemma parse_length_loop_ok b acc rest :
  0 <= acc -> (acc = 0 -> canonical b /\ b <> []) -> 128 <= acc * 256 ^ zlen b + be_val b < 2147483648 ->
  parse_length_loop (length b) acc (b ++ rest) = Ok (acc * 256 ^ zlen b + be_val b, rest).
Proof.
  revert acc. induction b as [|x b IH]; intros acc Ha Hc Hn; cbn [length parse_length_loop app].
  - unfold zlen in *. cbn in *. rewrite (proj2 (Z.ltb_ge acc 128)) by lia. do 2 f_equal. lia.
  - rewrite be_val_cons in Hn |- *.
    assert (zlen (x :: b) = zlen b + 1) as El by (unfold zlen; cbn [length]; lia). rewrite El in *.
    rewrite Z.pow_add_r, Z.pow_1_r in * by (unfold zlen; lia).
    pose proof (byte_val_range x). pose proof (be_val_nonneg b). assert (1 <= 256 ^ zlen b) by (apply (Z.pow_le_mono_r 256 0); unfold zlen; lia).
    rewrite (proj2 (Z.leb_gt 8388608 acc)) by nia.
    assert (0 < acc * 256 + byte_val x) as Hpos.
    { destruct (Z.eq_dec acc 0) as [->|]; [|lia]. destruct (Hc eq_refl) as [Hcan _].
      assert (byte_val x <> 0); [|lia]. intros E. apply Hcan. cbn. f_equal. by apply byte_val_inj. }
    rewrite (proj2 (Z.eqb_neq _ 0)) by lia. rewrite IH; [|lia|lia|nia]. do 2 f_equal. nia.
Qed.

Lemma parse_length_ok n rest : 0 <= n < 2147483648 -> parse_length (der_length n ++ rest) = Ok (n, rest).
Proof.
  intros Hn. unfold der_length. destruct (Z.ltb_spec n 128) as [Hs|Hl].
  - cbn. rewrite byte_val_to_byte_small, (proj2 (Z.ltb_lt n 128)) by lia. done.
  - pose proof (length_be_bytes_le 4 n ltac:(lia)) as Hlen.
    pose proof (be_bytes_nonempty n ltac:(lia)) as Hne.
    assert (1 <= zlen (be_bytes n) <= 4) as Hz.
    { unfold zlen. destruct (be_bytes n); [done|]. cbn [length] in *. lia. }
    cbn [app parse_length]. rewrite byte_val_to_byte_small by lia.
    rewrite (proj2 (Z.ltb_ge _ 128)), (proj2 (Z.eqb_neq _ 128)) by lia.
    replace (128 + zlen (be_bytes n) - 128) with (zlen (be_bytes n)) by lia.
    unfold zlen at 1. rewrite Nat2Z.id. rewrite parse_length_loop_ok.
    + rewrite be_val_be_bytes by lia. by rewrite Z.mul_0_l.
    + done.
    + intros _. split; [apply be_bytes_canonical; lia|done].
    + rewrite be_val_be_bytes by lia. lia.
Qed.

(** Content that fits the lengths the decoder accepts. *)
Definition fits (b : bytes) : Prop := zlen b < 2147483648.

Lemma parse_tlv_ok tag c rest : 0 <= tag < 256 -> fits c -> parse_tlv tag (tlv tag c ++ rest) = Ok (c, rest).
Proof.
  intros Ht Hc. unfold tlv. cbn [app parse_tlv]. rewrite byte_val_to_byte_small, Z.eqb_refl by done.
  rewrite <- app_assoc, parse_length_ok by (split; [unfold zlen; lia|exact Hc]). cbn.
  rewrite (proj2 (Z.ltb_ge _ _)) by (unfold zlen; rewrite length_app; lia).
  unfold zlen. rewrite Nat2Z.id. by rewrite take_app_length, drop_app_length.
Qed.

Lemma parse_octets_ok l rest : Forall fits l -> parse_octets (length l) (concat (octets <$> l) ++ rest) = Ok l.
Proof.
  induction 1 as [|b l Hb _ IH]; [done|]. cbn [length parse_octets fmap list_fmap concat].
  rewrite <- app_assoc. unfold octets at 1. rewrite parse_tlv_ok by done. cbn. by rewrite IH.
Qed.

Lemma parse_bigint_ok n : 0 <= n -> parse_bigint (der_uint n) = Ok n.
Proof.
  intros Hn. unfold der_uint. pose proof (be_bytes_canonical n Hn) as Hc.
  rewrite <- (be_val_be_bytes n Hn) at 2. destruct (be_bytes n) as [|x b] eqn:E; [done|].
  assert (byte_val x <> 0) as Hx.
  { intros H0. apply Hc. cbn. f_equal. by apply byte_val_inj. }
  pose proof (byte_val_range x). destruct (Z.ltb_spec (byte_val x) 128) as [Hs|Hl].
  - unfold parse_bigint. destruct b as [|y b]; rewrite (proj2 (Z.ltb_lt (byte_val x) 128)) by lia; [done|].
    rewrite (proj2 (Z.eqb_neq _ 0)), (proj2 (Z.eqb_neq _ 255)) by lia. done.
  - unfold parse_bigint. rewrite (proj2 (Z.ltb_ge (byte_val x) 128)) by lia.
    change (byte_val Byte.x00) with 0. cbn [Z.eqb andb orb Z.ltb]. cbn. do 2 f_equal.
Qed.

Lemma der_int_nonneg n : 0 <= n -> der_int n = der_uint n.
Proof. intros Hn. unfold der_int. by rewrite (proj2 (Z.ltb_ge n 0)). Qed.

Lemma unmarshal_octets_ok l rest :
  Forall fits l -> fits (concat (octets <$> l)) ->
  unmarshal_octets (length l) (marshal_octets l ++ rest) = Ok l.
Proof.
  intros Hl Hc. unfold unmarshal_octets, marshal_octets. rewrite parse_tlv_ok by done. cbn.
  rewrite <- (app_nil_r (concat _)). by apply parse_octets_ok.
Qed.

Lemma unmarshal_int_octets_ok n l rest :
  0 <= n -> Forall fits l -> fits (der_uint n) -> fits (tlv tagInteger (der_uint n) ++ concat (octets <$> l)) ->
  unmarshal_int_octets (length l) (marshal_int_octets n l ++ rest) = Ok (n, l).
Proof.
  intros Hn Hl Hi Hc. unfold unmarshal_int_octets, marshal_int_octets. rewrite parse_tlv_ok by done. cbn [mbind outcome_bind].
  rewrite parse_tlv_ok by done. cbn [mbind outcome_bind]. rewrite parse_bigint_ok by done. cbn.
  rewrite <- (app_nil_r (concat _)), parse_octets_ok by done. done.
Qed.

(** ** Sizes *)

Lemma fits_tlv t c : fits (tlv t c) -> fits c.
Proof. unfold fits, zlen, tlv. cbn [length]. rewrite length_app. lia. Qed.

Lemma fits_app a b : fits (a ++ b) -> fits a /\ fits b.
Proof. unfold fits, zlen. rewrite length_app. lia. Qed.

Lemma fits_concat l : fits (concat l) -> Forall fits l.
Proof.
  induction l as [|b l IH]; cbn; intros H; constructor; apply fits_app in H as [H1 H2]; auto.
Qed.

Lemma fits_octets l : fits (concat (octets <$> l)) -> Forall fits l.
Proof.
  intros H. apply fits_concat in H. rewrite Forall_fmap in H. eapply Forall_impl; [exact H|].
  intros b. apply fits_tlv.
Qed.

Lemma marshal_octets_roundtrip l rest :
  fits (marshal_octets l) -> unmarshal_octets (length l) (marshal_octets l ++ rest) = Ok l.
Proof.
  intros H. apply fits_tlv in H. apply unmarshal_octets_ok; [by apply fits_octets|done].
Qed.

Lemma marshal_int_octets_roundtrip n l rest :
  0 <= n -> fits (marshal_int_octets n l) -> unmarshal_int_octets (length l) (marshal_int_octets n l ++ rest) = Ok (n, l).
Proof.
  intros Hn H. apply fits_tlv in H. pose proof (fits_app _ _ H) as [Hi Ho].
  apply unmarshal_int_octets_ok; [done|by apply fits_octets|by eapply fits_tlv|done].
Qed.
