(* ===== verification/BFTMessages.v ===== *)
(** * Consensus messages of the SmartBFT protocol

    The protobuf messages the orderers exchange.  They are generated code of
    the vendored consensus library; what the fuzzers use of them is their
    fields and the [oneof] they are wrapped in.  A message that arrives or is
    built by the library carries a non-nil body in its [oneof], so a body is
    not an option; the two nested pointers the fuzzers touch are. *)

From S2P Require Import Prelude.

Record Proposal := {
  pr_Header : bytes;
  pr_Payload : bytes;
  pr_Metadata : bytes;
  pr_VerificationSequence : Z;
}.

Record Signature := {
  sg_Signer : Z;
  sg_Value : bytes;
  sg_Msg : bytes;
}.

Record PrePrepare := {
  pp_View : Z;
  pp_Seq : Z;
  pp_Proposal : option Proposal;
  pp_PrevCommitSignatures : list Signature;
}.

Record Prepare := {
  p_View : Z;
  p_Seq : Z;
  p_Digest : string;
  p_Assist : bool;
}.

Record Commit := {
  c_View : Z;
  c_Seq : Z;
  c_Digest : string;
  c_Signature : option Signature;
  c_Assist : bool;
}.

Record ViewChange := {
  vc_NextView : Z;
  vc_Reason : string;
}.

Record SignedViewData := {
  svd_RawViewData : bytes;
  svd_Signer : Z;
  svd_Signature : bytes;
}.

Record NewView := {
  nv_SignedViewData : list SignedViewData;
}.

Record HeartBeat := {
  hb_View : Z;
  hb_Seq : Z;
}.

Record HeartBeatResponse := {
  hbr_View : Z;
}.

Record StateTransferResponse := {
  str_ViewNum : Z;
  str_Sequence : Z;
}.

(** The [oneof] of a message. *)
Inductive Content :=
| Message_PrePrepare (b : PrePrepare)
| Message_Prepare (b : Prepare)
| Message_Commit (b : Commit)
| Message_ViewChange (b : ViewChange)
| Message_ViewData (b : SignedViewData)
| Message_NewView (b : NewView)
| Message_HeartBeat (b : HeartBeat)
| Message_HeartBeatResponse (b : HeartBeatResponse)
| Message_StateTransferRequest
| Message_StateTransferResponse (b : StateTransferResponse).

(** [protos.Message]: the [oneof] may be unset. *)
Abbreviation Message := (option Content).

(** The message types the fuzzer distinguishes.
    [fabric:orderer/consensus/smartbft/protocolFuzzer.go:86-99] MessageType *)
Inductive MessageType :=
| PrePrePareMsg
| PrePareMsg
| CommitMsg
| ViewChangeMsg
| ViewDataMsg
| NewViewMsg
| HeartBeatMsg
| HeartBeatResponseMsg
| StateTransferRequestMsg
| StateTransferResponseMsg.

#[export] Instance MessageType_eq_dec : EqDecision MessageType.
Proof. solve_decision. Defined.

(** The [int32] value of a type, and the type of a value; 10 has none.
    [fabric:orderer/consensus/smartbft/protocolFuzzer.go:86-99] MessageType *)
Definition messageType_of (z : Z) : option MessageType :=
  if z =? 0 then Some PrePrePareMsg
  else if z =? 1 then Some PrePareMsg
  else if z =? 2 then Some CommitMsg
  else if z =? 3 then Some ViewChangeMsg
  else if z =? 4 then Some ViewDataMsg
  else if z =? 5 then Some NewViewMsg
  else if z =? 6 then Some HeartBeatMsg
  else if z =? 7 then Some HeartBeatResponseMsg
  else if z =? 8 then Some StateTransferRequestMsg
  else if z =? 9 then Some StateTransferResponseMsg
  else None.

(** The type of a body. *)
Definition content_type (c : Content) : MessageType :=
  match c with
  | Message_PrePrepare _ => PrePrePareMsg
  | Message_Prepare _ => PrePareMsg
  | Message_Commit _ => CommitMsg
  | Message_ViewChange _ => ViewChangeMsg
  | Message_ViewData _ => ViewDataMsg
  | Message_NewView _ => NewViewMsg
  | Message_HeartBeat _ => HeartBeatMsg
  | Message_HeartBeatResponse _ => HeartBeatResponseMsg
  | Message_StateTransferRequest => StateTransferRequestMsg
  | Message_StateTransferResponse _ => StateTransferResponseMsg
  end.

(** The view and sequence numbers of a message are [uint64] fields. *)
Definition content_u64 (c : Content) : Prop :=
  match c with
  | Message_PrePrepare b => is_u64 (pp_View b) /\ is_u64 (pp_Seq b)
  | Message_Prepare b => is_u64 (p_View b) /\ is_u64 (p_Seq b)
  | Message_Commit b => is_u64 (c_View b) /\ is_u64 (c_Seq b)
  | Message_ViewChange b => is_u64 (vc_NextView b)
  | Message_HeartBeat b => is_u64 (hb_View b) /\ is_u64 (hb_Seq b)
  | Message_HeartBeatResponse b => is_u64 (hbr_View b)
  | Message_StateTransferResponse b => is_u64 (str_ViewNum b) /\ is_u64 (str_Sequence b)
  | _ => True
  end.
