(* ===== verification/FabricFuzzer.v ===== *)
(** * The Fabric fuzzer

    The LOKI code inside Fabric's SmartBFT orderer: the seed pools
    (protocolFuzzer.go, transactionFuzzer.go), the mutators (messageFuzzer.go),
    the fuzzing loops and the egress the mutated messages leave through
    (egress.go).

    The seed pools hold pointers: a message that is sent, stored and mutated is
    one object, so the state has a heap of messages and pools of locations.
    The nested objects of a message are owned by it. *)

From S2P Require Import Prelude Randomness BFTMessages.

Abbreviation loc := positive.

(** [gofuzz] on the two struct pointers the mutators pass, and the marshaller
    of the cluster messages (both outside the repository). *)
Class FabricEnv `{!Randomness} := {
  fuzz_Proposal : Proposal -> RNG -> Proposal * RNG;
  fuzz_Signature : Signature -> RNG -> Signature * RNG;
  (** [proto.Marshal] of a consensus message; [None] is its error, which it
      returns for a string field that is not valid UTF-8. *)
  marshal_Message : Message -> option bytes;
  (** [proto.Unmarshal] into a [common.Envelope] (payload, signature). *)
  unmarshal_Envelope : bytes -> option (bytes * bytes);
}.

Section FabricFuzzer.
  Context {Rnd : Randomness} {Fenv : FabricEnv}.

(** ** State *)

(** The seed pools, package variables of the orderer.
    [fabric:orderer/consensus/smartbft/protocolFuzzer.go:29-39] Seeds *)
Record Seeds := {
  PrePrePareMsgSeeds : list loc;
  PrePareMsgSeeds : list loc;
  CommitMsgSeeds : list loc;
  ViewChangeSeeds : list loc;
  ViewDataSeeds : list loc;
  NewViewSeeds : list loc;
  HeartBeatSeeds : list loc;
  HeartBeatResponseSeeds : list loc;
  StateTransferRequestSeeds : list loc;
  StateTransferResponseSeeds : list loc;
}.

(** What leaves through the cluster RPC: a consensus request with the
    marshalled message, or a submit request with an envelope. *)
Inductive Sent :=
| SentConsensus (dest : Z) (channel : string) (payload : bytes)
| SentSubmit (dest : Z) (channel : string) (env : bytes * bytes).

Record FuzzState := {
  heap : gmap loc Message;
  seeds : Seeds;
  transactionSeeds : list bytes;
  rng : RNG;
  sent : list Sent;
}.

Abbreviation M := (GoM FuzzState).

Definition set_heap h s : FuzzState :=
  {| heap := h; seeds := seeds s; transactionSeeds := transactionSeeds s; rng := rng s; sent := sent s |}.
Definition set_seeds p s : FuzzState :=
  {| heap := heap s; seeds := p; transactionSeeds := transactionSeeds s; rng := rng s; sent := sent s |}.
Definition set_txs t s : FuzzState :=
  {| heap := heap s; seeds := seeds s; transactionSeeds := t; rng := rng s; sent := sent s |}.
Definition set_rng r s : FuzzState :=
  {| heap := heap s; seeds := seeds s; transactionSeeds := transactionSeeds s; rng := r; sent := sent s |}.
Definition add_sent x s : FuzzState :=
  {| heap := heap s; seeds := seeds s; transactionSeeds := transactionSeeds s; rng := rng s; sent := sent s ++ [x] |}.

(** The pool of each message type. *)
Definition pool (t : MessageType) (p : Seeds) : list loc :=
  match t with
  | PrePrePareMsg => PrePrePareMsgSeeds p
  | PrePareMsg => PrePareMsgSeeds p
  | CommitMsg => CommitMsgSeeds p
  | ViewChangeMsg => ViewChangeSeeds p
  | ViewDataMsg => ViewDataSeeds p
  | NewViewMsg => NewViewSeeds p
  | HeartBeatMsg => HeartBeatSeeds p
  | HeartBeatResponseMsg => HeartBeatResponseSeeds p
  | StateTransferRequestMsg => StateTransferRequestSeeds p
  | StateTransferResponseMsg => StateTransferResponseSeeds p
  end.

(** [pool = append(pool, m)], the body of the ten [Add...Seeds] functions.
    [fabric:orderer/consensus/smartbft/protocolFuzzer.go:42-82] AddPrePrePareMsgSeeds *)
Definition add_seed (t : MessageType) (m : loc) (p : Seeds) : Seeds :=
  let app t' := if decide (t = t') then pool t' p ++ [m] else pool t' p in
  {| PrePrePareMsgSeeds := app PrePrePareMsg;
     PrePareMsgSeeds := app PrePareMsg;
     CommitMsgSeeds := app CommitMsg;
     ViewChangeSeeds := app ViewChangeMsg;
     ViewDataSeeds := app ViewDataMsg;
     NewViewSeeds := app NewViewMsg;
     HeartBeatSeeds := app HeartBeatMsg;
     HeartBeatResponseSeeds := app HeartBeatResponseMsg;
     StateTransferRequestSeeds := app StateTransferRequestMsg;
     StateTransferResponseSeeds := app StateTransferResponseMsg |}.

Definition append_seed (t : MessageType) (m : loc) : M unit :=
  modify (fun s => set_seeds (add_seed t m (seeds s)) s).

(** ** Random draws *)

(** A draw of the shared generator. *)
Definition random {A} (f : RNG -> A * RNG) : M A := fun s =>
  let '(a, r) := f (rng s) in Ok (a, set_rng r s).

(** [fabric:orderer/consensus/smartbft/messageFuzzer.go:213-215] percentageRandom *)
Definition percentageRandom : M Z := random rand_Float64.

(** [fabric:orderer/consensus/smartbft/messageFuzzer.go:202-211] seqFuzz *)
Definition seqFuzz (seq : Z) : M Z :=
  p ← percentageRandom;
  if ge_0_1 p then mret (seq -u 1)
  else
    q ← percentageRandom;
    if le_0_1 q then mret (seq +u 1) else mret seq.

(** [f.Fuzz(p)] on a struct pointer that may be nil, which gofuzz skips. *)
Definition fuzz_pointer {A} (f : A -> RNG -> A * RNG) (p : option A) : M (option A) :=
  match p with
  | None => mret None
  | Some a => a' ← random (f a); mret (Some a')
  end.

(** ** Message accessors *)

Definition GetContent (m : loc) : M Message :=
  s ← gets id; lift (deref (heap s !! m)).

Definition PutContent (m : loc) (c : Content) : M unit :=
  modify (fun s => set_heap (<[m := Some c]> (heap s)) s).

(** The generated getters: the body of the asked type, or nil, whose field the
    caller then dereferences. *)
Definition get_body {A} (m : loc) (sel : Content -> option A) : M A :=
  c ← GetContent m; lift (deref (c ≫= sel)).

(** ** Mutators *)

(** [fabric:orderer/consensus/smartbft/messageFuzzer.go:41-47] StateTransferResponse *)
Definition StateTransferResponseFuzz (m : loc) : M loc :=
  b ← get_body m (fun c => if c is Message_StateTransferResponse b then Some b else None);
  seq ← random (fuzz_uint64 (str_Sequence b));
  view ← random (fuzz_uint64 (str_ViewNum b));
  _ ← PutContent m (Message_StateTransferResponse
        {| str_ViewNum := view; str_Sequence := seq |});
  mret m.

(** [fabric:orderer/consensus/smartbft/messageFuzzer.go:49-55] StateTransferRequest *)
Definition StateTransferRequestFuzz (m : loc) : M loc := mret m.

(** [fabric:orderer/consensus/smartbft/messageFuzzer.go:57-64] HeartBeatResponseFuzz *)
Definition HeartBeatResponseFuzz (m : loc) : M loc :=
  b ← get_body m (fun c => if c is Message_HeartBeatResponse b then Some b else None);
  view ← random (fuzz_uint64 (hbr_View b));
  _ ← PutContent m (Message_HeartBeatResponse {| hbr_View := view |});
  mret m.

(** [fabric:orderer/consensus/smartbft/messageFuzzer.go:66-75] HeartBeatFuzz *)
Definition HeartBeatFuzz (m : loc) : M loc :=
  b ← get_body m (fun c => if c is Message_HeartBeat b then Some b else None);
  view ← random (fuzz_uint64 (hb_View b));
  seq ← seqFuzz (hb_Seq b);
  _ ← PutContent m (Message_HeartBeat {| hb_View := view; hb_Seq := seq |});
  mret m.

(** [fabric:orderer/consensus/smartbft/messageFuzzer.go:77-83] NewViewFuzz *)
Definition NewViewFuzz (m : loc) : M loc := mret m.

(** [fabric:orderer/consensus/smartbft/messageFuzzer.go:85-91] ViewDataFuzz *)
Definition ViewDataFuzz (m : loc) : M loc := mret m.

(** [fabric:orderer/consensus/smartbft/messageFuzzer.go:93-101] ViewChangeFuzz *)
Definition ViewChangeFuzz (m : loc) : M loc :=
  b ← get_body m (fun c => if c is Message_ViewChange b then Some b else None);
  reason ← random (fuzz_string (vc_Reason b));
  next ← random (fuzz_uint64 (vc_NextView b));
  _ ← PutContent m (Message_ViewChange {| vc_NextView := next; vc_Reason := reason |});
  mret m.

(** [fabric:orderer/consensus/smartbft/messageFuzzer.go:103-116] CommitFuzz *)
Definition CommitFuzz (m : loc) : M loc :=
  b ← get_body m (fun c => if c is Message_Commit b then Some b else None);
  view ← random (fuzz_uint64 (c_View b));
  seq ← seqFuzz (c_Seq b);
  assist ← random (fuzz_bool (c_Assist b));
  digest ← random (fuzz_string (c_Digest b));
  sig ← fuzz_pointer fuzz_Signature (c_Signature b);
  _ ← PutContent m (Message_Commit
        {| c_View := view; c_Seq := seq; c_Digest := digest;
           c_Signature := sig; c_Assist := assist |});
  mret m.

(** [fabric:orderer/consensus/smartbft/messageFuzzer.go:120-131] PrePrePareMsgFuzz *)
Definition PrePrePareMsgFuzz (m : loc) : M loc :=
  b ← get_body m (fun c => if c is Message_PrePrepare b then Some b else None);
  view ← random (fuzz_uint64 (pp_View b));
  seq ← seqFuzz (pp_Seq b);
  prop ← fuzz_pointer fuzz_Proposal (pp_Proposal b);
  _ ← PutContent m (Message_PrePrepare
        {| pp_View := view; pp_Seq := seq; pp_Proposal := prop;
           pp_PrevCommitSignatures := pp_PrevCommitSignatures b |});
  mret m.

(** [fabric:orderer/consensus/smartbft/messageFuzzer.go:134-146] PrePareMsgFuzz *)
Definition PrePareMsgFuzz (m : loc) : M loc :=
  b ← get_body m (fun c => if c is Message_Prepare b then Some b else None);
  view ← random (fuzz_uint64 (p_View b));
  seq ← seqFuzz (p_Seq b);
  assist ← random (fuzz_bool (p_Assist b));
  digest ← random (fuzz_string (p_Digest b));
  _ ← PutContent m (Message_Prepare
        {| p_View := view; p_Seq := seq; p_Digest := digest; p_Assist := assist |});
  mret m.

(** The mutator of a message type. *)
Definition mutate (t : MessageType) : loc -> M loc :=
  match t with
  | PrePrePareMsg => PrePrePareMsgFuzz
  | PrePareMsg => PrePareMsgFuzz
  | CommitMsg => CommitFuzz
  | ViewChangeMsg => ViewChangeFuzz
  | ViewDataMsg => ViewDataFuzz
  | NewViewMsg => NewViewFuzz
  | HeartBeatMsg => HeartBeatFuzz
  | HeartBeatResponseMsg => HeartBeatResponseFuzz
  | StateTransferRequestMsg => StateTransferRequestFuzz
  | StateTransferResponseMsg => StateTransferResponseFuzz
  end.

(** [fabric:orderer/consensus/smartbft/messageFuzzer.go:12-38] ConsensusMessageFuzzed *)
Definition ConsensusMessageFuzzed (m : loc) : M unit :=
  c ← GetContent m;
  match c with
  | Some b => _ ← mutate (content_type b) m; mret tt
  | None => mret tt
  end.

(** [fabric:orderer/consensus/smartbft/messageFuzzer.go:151-155] TransactionMessageFuzzed *)
Definition TransactionMessageFuzzed (req : bytes) : M bytes :=
  random (fuzz_bytes req).

(** [fabric:orderer/consensus/smartbft/messageFuzzer.go:161-196] getType *)
Definition getType (m : loc) : M string :=
  c ← GetContent m;
  match c with
  | Some b =>
      _ ← append_seed (content_type b) m;
      mret (match content_type b with
            | PrePrePareMsg => "PrePrepare"
            | PrePareMsg => "Prepare"
            | CommitMsg => "Commit"
            | ViewChangeMsg => "ViewChange"
            | ViewDataMsg => "ViewData"
            | NewViewMsg => "NewView"
            | HeartBeatMsg => "HeartBeat"
            | HeartBeatResponseMsg => "HeartBeatResponse"
            | StateTransferRequestMsg => "StateTransferRequest"
            | StateTransferResponseMsg => "StateTransferResponse"
            end%string)
  | None => mret "Unexpected message type, ignoring"%string
  end.

(** [fabric:orderer/consensus/smartbft/transactionFuzzer.go:29-31] AddTransactionSeeds *)
Definition AddTransactionSeeds (seed : bytes) : M unit :=
  modify (fun s => set_txs (transactionSeeds s ++ [seed]) s).

(** [fabric:orderer/consensus/smartbft/messageFuzzer.go:198-200] addTx *)
Definition addTx (req : bytes) : M unit := AddTransactionSeeds req.

(** ** Egress *)

(** [fabric:orderer/consensus/smartbft/egress.go:34-39] Egress *)
Record Egress := {
  Channel : string;
  RuntimeNodes : list Z;
}.

(** [fabric:orderer/consensus/smartbft/egress.go:41-48] Nodes *)
Definition Nodes (e : Egress) : list Z := fold_left (fun res n => res ++ [n]) (RuntimeNodes e) [].

(** [fabric:protos/utils/commonutils.go:22-30] MarshalOrPanic *)
Definition MarshalOrPanic (c : Message) : outcome bytes :=
  or_panic "proto.Marshal" (ok_or (marshal_Message c) "invalid UTF-8").

(** [fabric:orderer/consensus/smartbft/egress.go:106-111] bftMsgToClusterMsg *)
Definition bftMsgToClusterMsg (m : loc) : M bytes :=
  c ← GetContent m; lift (MarshalOrPanic c).

(** The RPC send; the caller only logs its error. *)
Definition rpc_SendConsensus (e : Egress) (dest : Z) (payload : bytes) : M unit :=
  modify (add_sent (SentConsensus dest (Channel e) payload)).
Definition rpc_SendSubmit (e : Egress) (dest : Z) (env : bytes * bytes) : M unit :=
  modify (add_sent (SentSubmit dest (Channel e) env)).

(** [fabric:orderer/consensus/smartbft/egress.go:50-61] SendConsensusFuzz *)
Definition SendConsensusFuzz (e : Egress) (targetID : Z) (m : loc) : M unit :=
  _ ← ConsensusMessageFuzzed m;
  _ ← getType m;
  payload ← bftMsgToClusterMsg m;
  rpc_SendConsensus e targetID payload.

(** [fabric:orderer/consensus/smartbft/egress.go:64-74] SendConsensus *)
Definition SendConsensus (e : Egress) (targetID : Z) (m : loc) : M unit :=
  _ ← getType m;
  payload ← bftMsgToClusterMsg m;
  rpc_SendConsensus e targetID payload.

(** The slice header handed to the mutator is a copy, and its result is
    dropped: what is sent is the envelope as it was decoded.
    [fabric:orderer/consensus/smartbft/egress.go:76-89] SendTransactionFuzz *)
Definition SendTransactionFuzz (e : Egress) (targetID : Z) (request : bytes) : M unit :=
  env ← lift (or_panic "Failed unmarshaling request" (ok_or (unmarshal_Envelope request) "bad envelope"));
  _ ← TransactionMessageFuzzed env.1;
  rpc_SendSubmit e targetID env.

(** [fabric:orderer/consensus/smartbft/egress.go:91-104] SendTransaction *)
Definition SendTransaction (e : Egress) (targetID : Z) (request : bytes) : M unit :=
  env ← lift (or_panic "Failed unmarshaling request" (ok_or (unmarshal_Envelope request) "bad envelope"));
  rpc_SendSubmit e targetID env.

(** ** The protocol fuzzer *)

(** [fabric:orderer/consensus/smartbft/protocolFuzzer.go:212-215] getNextType *)
Definition getNextType : M Z :=
  _ ← modify (fun s => set_rng (rand_Seed (rng s)) s);
  random (rand_Intn 11).

(** [fabric:orderer/consensus/smartbft/protocolFuzzer.go:217-223] getNextMsgSeed *)
Definition getNextMsgSeed (l : list loc) : M (option loc) :=
  match l with
  | [] => mret None
  | _ :: _ =>
      i ← random (rand_Intn (Z.of_nat (length l)));
      m ← lift (index l (Z.to_nat i)); mret (Some m)
  end.

(** One case of the switch in [protocolFuzz]: pick a seed of the pool, mutate
    it in place, append what the mutator returns.
    [fabric:orderer/consensus/smartbft/protocolFuzzer.go:137-142] protocolFuzz *)
Definition fuzz_seed (t : MessageType) : M (option loc) :=
  p ← gets (fun s => pool t (seeds s));
  msg ← getNextMsgSeed p;
  match msg with
  | None => mret None
  | Some m =>
      m' ← mutate t m;
      _ ← append_seed t m';
      mret (Some m)
  end.

(** [fabric:orderer/consensus/smartbft/protocolFuzzer.go:131-210] protocolFuzz *)
Definition protocolFuzz : M (option loc) :=
  nextType ← getNextType;
  match messageType_of nextType with
  | Some t => fuzz_seed t
  | None => mret None
  end.

(** What the fuzzer reads of the consensus controller, whose [Comm] is the
    egress. *)
Record Controller := {
  ID : Z;
  NodesList : list Z;
  Comm : Egress;
}.

(** The first strategy of [BroadcastConsensusFuzz], everybody but oneself, and
    the other two, the nodes from index 6 or 8 on.
    [fabric:orderer/consensus/smartbft/protocolFuzzer.go:237-246] BroadcastConsensusFuzz *)
Definition send_to_others (c : Controller) (send : Z -> M unit) : M unit :=
  for_each (fun node => if ID c =? node then mret tt else send node) (NodesList c).
Definition send_from (k : nat) (c : Controller) (send : Z -> M unit) : M unit :=
  for_each send (drop k (NodesList c)).

(** [fabric:orderer/consensus/smartbft/protocolFuzzer.go:228-272] BroadcastConsensusFuzz *)
Definition BroadcastConsensusFuzz (c : Controller) (msg : loc) : M unit :=
  probability ← percentageRandom;
  let send node := SendConsensus (Comm c) node msg in
  if lt_0_7 probability then send_to_others c send
  else if lt_0_85 probability then send_from 6 c send
  else send_from 8 c send.

(** The nodes that fuzz.
    [fabric:orderer/consensus/smartbft/protocolFuzzer.go:110-127] RunFuzz *)
Definition bad_guy (c : Controller) : bool :=
  (ID c =? 1) || (ID c =? 3) || (ID c =? 5).

(** One pass of the loop of [RunFuzz].
    [fabric:orderer/consensus/smartbft/protocolFuzzer.go:113-123] RunFuzz *)
Definition RunFuzz_pass (c : Controller) : M unit :=
  msg ← protocolFuzz;
  match msg with
  | Some m => BroadcastConsensusFuzz c m
  | None => mret tt
  end.

(** [n] passes of the loop; a node that is not a bad guy never enters it.
    [fabric:orderer/consensus/smartbft/protocolFuzzer.go:101-128] RunFuzz *)
Fixpoint RunFuzz (c : Controller) (n : nat) : M unit :=
  match n with
  | O => mret tt
  | S n' => if bad_guy c then _ ← RunFuzz_pass c; RunFuzz c n' else mret tt
  end.

(** ** The transaction fuzzer *)

(** [fabric:orderer/consensus/smartbft/transactionFuzzer.go:34-40] getNextTxSeed *)
Definition getNextTxSeed : M (option bytes) :=
  l ← gets transactionSeeds;
  match l with
  | [] => mret None
  | _ :: _ =>
      i ← random (rand_Intn (Z.of_nat (length l)));
      t ← lift (index l (Z.to_nat i)); mret (Some t)
  end.

(** [fabric:orderer/consensus/smartbft/transactionFuzzer.go:41-47] transactionFuzz *)
Definition transactionFuzz : M (option bytes) := getNextTxSeed.

(** The third strategy sends unfuzzed.
    [fabric:orderer/consensus/smartbft/transactionFuzzer.go:75-119] BroadcastTransactionsFuzz *)
Definition BroadcastTransactionsFuzz (c : Controller) (req : bytes) : M unit :=
  probability ← percentageRandom;
  if lt_0_7 probability then
    send_to_others c (fun node => SendTransactionFuzz (Comm c) node req)
  else if lt_0_85 probability then
    send_from 6 c (fun node => SendTransactionFuzz (Comm c) node req)
  else
    send_from 8 c (fun node => SendTransaction (Comm c) node req).

(** One pass of the loop of [RunTxFuzz].
    [fabric:orderer/consensus/smartbft/transactionFuzzer.go:59-69] RunTxFuzz *)
Definition RunTxFuzz_pass (c : Controller) : M unit :=
  req ← transactionFuzz;
  match req with
  | Some r => BroadcastTransactionsFuzz c r
  | None => mret tt
  end.

(** [n] passes of the loop.
    [fabric:orderer/consensus/smartbft/transactionFuzzer.go:49-72] RunTxFuzz *)
Fixpoint RunTxFuzz (c : Controller) (n : nat) : M unit :=
  match n with
  | O => mret tt
  | S n' => if bad_guy c then _ ← RunTxFuzz_pass c; RunTxFuzz c n' else mret tt
  end.

(** ** Seed pools stay well typed *)

(** Every seed of a pool points to a message of the pool's type, whose numeric
    fields are machine integers. *)
Definition seed_ok (s : FuzzState) (t : MessageType) (m : loc) : Prop :=
  exists c, heap s !! m = Some (Some c) /\ content_type c = t /\ content_u64 c.

Definition seeds_ok (s : FuzzState) : Prop :=
  forall t m, m ∈ pool t (seeds s) -> seed_ok s t m.

Lemma pool_add_seed t t' m p :
  pool t' (add_seed t m p) = if decide (t = t') then pool t' p ++ [m] else pool t' p.
Proof. by destruct t'. Qed.

Context {RndOk : RandomnessOk}.

Lemma random_run {A} (f : RNG -> A * RNG) s :
  random f s = Ok ((f (rng s)).1, set_rng (f (rng s)).2 s).
Proof. unfold random. by destruct (f (rng s)). Qed.

Lemma set_rng_rng r s : rng (set_rng r s) = r.
Proof. done. Qed.

Lemma set_rng_twice r r' s : set_rng r (set_rng r' s) = set_rng r s.
Proof. done. Qed.

Lemma set_rng_self s : set_rng (rng s) s = s.
Proof. by destruct s. Qed.

(** ** The mutation of a message, by the draws *)

(** A sequence number goes down by one for nine draws of ten, and otherwise up
    by one or nowhere, modulo 2^64. *)
Definition drawn_seq (seq : Z) (r : RNG) : Z * RNG :=
  let '(p, r1) := rand_Float64 r in
  if ge_0_1 p then ((seq - 1) mod two64, r1)
  else let '(q, r2) := rand_Float64 r1 in
       (if le_0_1 q then (seq + 1) mod two64 else seq, r2).

Definition drawn_pointer {A} (f : A -> RNG -> A * RNG) (p : option A) (r : RNG) : option A * RNG :=
  match p with
  | None => (None, r)
  | Some a => let '(a', r') := f a r in (Some a', r')
  end.

(** What a message becomes under the draws from [r], and the generator after
    them.  View data, new views and state transfer requests stay as they are;
    a pre-prepare keeps the commit signatures of the previous block. *)
Definition mutation (c : Content) (r : RNG) : Content * RNG :=
  match c with
  | Message_PrePrepare b =>
      let '(v, r1) := fuzz_uint64 (pp_View b) r in
      let '(q, r2) := drawn_seq (pp_Seq b) r1 in
      let '(p, r3) := drawn_pointer fuzz_Proposal (pp_Proposal b) r2 in
      (Message_PrePrepare {| pp_View := v; pp_Seq := q; pp_Proposal := p;
         pp_PrevCommitSignatures := pp_PrevCommitSignatures b |}, r3)
  | Message_Prepare b =>
      let '(v, r1) := fuzz_uint64 (p_View b) r in
      let '(q, r2) := drawn_seq (p_Seq b) r1 in
      let '(a, r3) := fuzz_bool (p_Assist b) r2 in
      let '(d, r4) := fuzz_string (p_Digest b) r3 in
      (Message_Prepare {| p_View := v; p_Seq := q; p_Digest := d; p_Assist := a |}, r4)
  | Message_Commit b =>
      let '(v, r1) := fuzz_uint64 (c_View b) r in
      let '(q, r2) := drawn_seq (c_Seq b) r1 in
      let '(a, r3) := fuzz_bool (c_Assist b) r2 in
      let '(d, r4) := fuzz_string (c_Digest b) r3 in
      let '(g, r5) := drawn_pointer fuzz_Signature (c_Signature b) r4 in
      (Message_Commit {| c_View := v; c_Seq := q; c_Digest := d;
         c_Signature := g; c_Assist := a |}, r5)
  | Message_ViewChange b =>
      let '(d, r1) := fuzz_string (vc_Reason b) r in
      let '(v, r2) := fuzz_uint64 (vc_NextView b) r1 in
      (Message_ViewChange {| vc_NextView := v; vc_Reason := d |}, r2)
  | Message_HeartBeat b =>
      let '(v, r1) := fuzz_uint64 (hb_View b) r in
      let '(q, r2) := drawn_seq (hb_Seq b) r1 in
      (Message_HeartBeat {| hb_View := v; hb_Seq := q |}, r2)
  | Message_HeartBeatResponse b =>
      let '(v, r1) := fuzz_uint64 (hbr_View b) r in
      (Message_HeartBeatResponse {| hbr_View := v |}, r1)
  | Message_StateTransferResponse b =>
      let '(q, r1) := fuzz_uint64 (str_Sequence b) r in
      let '(v, r2) := fuzz_uint64 (str_ViewNum b) r1 in
      (Message_StateTransferResponse {| str_ViewNum := v; str_Sequence := q |}, r2)
  | Message_ViewData _ | Message_NewView _ | Message_StateTransferRequest => (c, r)
  end.

Lemma seqFuzz_run seq s :
  seqFuzz seq s = Ok ((drawn_seq seq (rng s)).1, set_rng (drawn_seq seq (rng s)).2 s).
Proof.
  unfold seqFuzz, percentageRandom, drawn_seq, mbind, GoM_bind. rewrite random_run.
  destruct (rand_Float64 (rng s)) as [p r1]. cbn [fst snd].
  destruct (ge_0_1 p); [done|]. rewrite random_run, set_rng_rng, set_rng_twice.
  destruct (rand_Float64 r1) as [q r2]. cbn [fst snd]. by destruct (le_0_1 q).
Qed.

Lemma drawn_seq_u64 seq r : is_u64 seq -> is_u64 (drawn_seq seq r).1.
Proof.
  intros Hs. unfold drawn_seq. destruct (rand_Float64 r) as [p r1].
  destruct (ge_0_1 p); [apply u64_range|]. destruct (rand_Float64 r1) as [q r2].
  destruct (le_0_1 q); [apply u64_range|done].
Qed.

Lemma fuzz_pointer_run {A} (f : A -> RNG -> A * RNG) p s :
  fuzz_pointer f p s = Ok ((drawn_pointer f p (rng s)).1, set_rng (drawn_pointer f p (rng s)).2 s).
Proof.
  destruct p as [a|]; simpl.
  - unfold mbind, GoM_bind. rewrite random_run. by destruct (f a (rng s)).
  - by rewrite set_rng_self.
Qed.

Lemma get_body_run {A} m (sel : Content -> option A) c b s :
  heap s !! m = Some (Some c) -> sel c = Some b -> get_body m sel s = Ok (b, s).
Proof.
  intros Hm Hb. unfold get_body, GetContent, gets, mbind, GoM_bind, lift, deref, id.
  by rewrite Hm; simpl; rewrite Hb.
Qed.

(** Symbolic execution of a mutator. *)
Ltac open_draws :=
  repeat first
    [ progress cbn beta iota zeta delta [fst snd]
    | match goal with |- context [let '(_, _) := ?e in _] => destruct e as [? ?] end ].
Ltac run_draws :=
  repeat first
    [ rewrite random_run | rewrite seqFuzz_run | rewrite fuzz_pointer_run
    | rewrite set_rng_twice | rewrite set_rng_rng | progress cbn beta iota zeta ];
  open_draws.

(** A mutator replaces its message in place by the drawn mutation, and changes
    nothing else but the generator. *)
Lemma mutate_run m c s :
  heap s !! m = Some (Some c) ->
  mutate (content_type c) m s =
    Ok (m, set_rng (mutation c (rng s)).2 (set_heap (<[m := Some (mutation c (rng s)).1]> (heap s)) s)).
Proof.
  intros Hm.
  destruct c; cbn [content_type mutate mutation fst snd];
    match goal with
    | |- context [?f m s] => unfold f
    end;
    try (rewrite insert_id by done; by destruct s);
    unfold mbind, GoM_bind; erewrite get_body_run by (exact Hm || done);
    by run_draws.
Qed.

Lemma mutation_type c r : content_type (mutation c r).1 = content_type c.
Proof. destruct c; cbn [mutation]; by open_draws. Qed.

Lemma mutation_u64 c r : content_u64 c -> content_u64 (mutation c r).1.
Proof.
  destruct c; cbn [mutation content_u64]; try done; intros Hc; destruct_and?;
  repeat match goal with
  | |- context [fuzz_uint64 ?z ?r] =>
      generalize (fuzz_uint64_range z r); destruct (fuzz_uint64 z r) as [? ?]; intros ?
  | H : is_u64 ?q |- context [drawn_seq ?q ?r] =>
      generalize (drawn_seq_u64 q r H); destruct (drawn_seq q r) as [? ?]; intros ?
  | |- context [let '(_, _) := ?e in _] => destruct e as [? ?]
  end.
  all: cbn [content_u64 fst pp_View pp_Seq p_View p_Seq c_View c_Seq vc_NextView hb_View hb_Seq
    hbr_View str_ViewNum str_Sequence] in *; by auto.
Qed.

(** ** What a pass draws *)

(** The message types in the order of their numbers. *)
Definition message_types : list MessageType :=
  [PrePrePareMsg; PrePareMsg; CommitMsg; ViewChangeMsg; ViewDataMsg; NewViewMsg;
   HeartBeatMsg; HeartBeatResponseMsg; StateTransferRequestMsg; StateTransferResponseMsg].

(** The seed a pass works on: the generator is seeded, a number below 11 is
    drawn for the type, and a position in the pool of that type.  There is none
    exactly when the number is 10, which is no type, or the pool is empty. *)
Definition drawn_seed (s : FuzzState) : option (MessageType * loc) * RNG :=
  let '(z, r) := rand_Intn 11 (rand_Seed (rng s)) in
  match message_types !! Z.to_nat z with
  | None => (None, r)
  | Some t =>
      match pool t (seeds s) with
      | [] => (None, r)
      | l => let '(i, r') := rand_Intn (Z.of_nat (length l)) r in
             ((fun m => (t, m)) <$> l !! Z.to_nat i, r')
      end
  end.

Lemma messageType_of_lookup z :
  0 <= z < 11 -> messageType_of z = message_types !! Z.to_nat z.
Proof.
  intros Hz. assert (z = 0 \/ z = 1 \/ z = 2 \/ z = 3 \/ z = 4 \/ z = 5 \/ z = 6 \/ z = 7 \/
    z = 8 \/ z = 9 \/ z = 10) as E by lia.
  repeat (destruct E as [->|E]; [done|]). by rewrite E.
Qed.

Lemma getNextType_run s :
  getNextType s = Ok ((rand_Intn 11 (rand_Seed (rng s))).1,
                      set_rng (rand_Intn 11 (rand_Seed (rng s))).2 s).
Proof.
  unfold getNextType, modify, mbind, GoM_bind. by rewrite random_run, set_rng_rng, set_rng_twice.
Qed.

Lemma getNextMsgSeed_run l s :
  l <> [] ->
  let '(i, r) := rand_Intn (Z.of_nat (length l)) (rng s) in
  exists m, l !! Z.to_nat i = Some m /\ getNextMsgSeed l s = Ok (Some m, set_rng r s).
Proof.
  intros Hl. destruct l as [|x l]; [done|].
  unfold getNextMsgSeed, mbind, GoM_bind. rewrite random_run.
  pose proof (rand_Intn_range (Z.of_nat (length (x :: l))) (rng s)) as Hi.
  destruct (rand_Intn _ _) as [i r]. cbn [fst snd] in *.
  destruct (lookup_lt_is_Some_2 (x :: l) (Z.to_nat i)) as [m Hm]; [simpl in *; lia|].
  exists m. unfold lift, index. by rewrite Hm.
Qed.

(** The seed that was drawn is replaced in place by its mutation, and its own
    location is appended to the pool it came from. *)
Definition after_mutation (t : MessageType) (m : loc) (b : Content) (r : RNG) (s : FuzzState) :
    FuzzState :=
  set_seeds (add_seed t m (seeds s))
    (set_rng (mutation b r).2 (set_heap (<[m := Some (mutation b r).1]> (heap s)) s)).

Lemma protocolFuzz_run s :
  seeds_ok s ->
  match drawn_seed s with
  | (None, r) => protocolFuzz s = Ok (None, set_rng r s)
  | (Some (t, m), r) =>
      m ∈ pool t (seeds s) /\ exists b, heap s !! m = Some (Some b) /\ content_type b = t /\
        content_u64 b /\ protocolFuzz s = Ok (Some m, after_mutation t m b r s)
  end.
Proof.
  intros Hok. unfold protocolFuzz, drawn_seed, mbind, GoM_bind. rewrite getNextType_run.
  pose proof (rand_Intn_range 11 (rand_Seed (rng s)) ltac:(done)) as Hz.
  destruct (rand_Intn 11 _) as [z r]. cbn [fst snd] in *. rewrite messageType_of_lookup by done.
  destruct (message_types !! Z.to_nat z) as [t|]; [|done].
  unfold fuzz_seed, gets, mbind, GoM_bind. cbn [seeds set_rng].
  destruct (pool t (seeds s)) as [|x l] eqn:Ep; [done|]. rewrite <- Ep in *.
  pose proof (getNextMsgSeed_run (pool t (seeds s)) (set_rng r s) ltac:(by rewrite Ep)) as Hg.
  cbn [rng set_rng] in Hg. destruct (rand_Intn _ r) as [i r']. destruct Hg as (m & Hm & E).
  rewrite Hm, E. apply list_elem_of_lookup_2 in Hm. split; [done|].
  destruct (Hok t m Hm) as (b & Hb & <- & Hu). exists b. split_and!; [done..|].
  by rewrite (mutate_run m b).
Qed.

(** *** Sending *)

Definition consensus_sends (e : Egress) (payload : bytes) (nodes : list Z) : list Sent :=
  (fun d => SentConsensus d (Channel e) payload) <$> nodes.

(** Sending the same message to a list of nodes: one request each, all with the
    same payload, and one more copy of the message's location in its pool for
    each of them. *)
Definition after_sends (e : Egress) (m : loc) (c : Content) (payload : bytes) (nodes : list Z)
    (s s' : FuzzState) : Prop :=
  heap s' = heap s /\ transactionSeeds s' = transactionSeeds s /\ rng s' = rng s /\
  sent s' = sent s ++ consensus_sends e payload nodes /\
  forall t, pool t (seeds s') =
    pool t (seeds s) ++ (if decide (content_type c = t) then replicate (length nodes) m else []).

Lemma SendConsensus_run e d m c s :
  heap s !! m = Some (Some c) ->
  SendConsensus e d m s =
    match marshal_Message (Some c) with
    | Some payload => Ok (tt, add_sent (SentConsensus d (Channel e) payload)
                                (set_seeds (add_seed (content_type c) m (seeds s)) s))
    | None => Panic "proto.Marshal"
    end.
Proof.
  intros Hm. unfold SendConsensus, getType, bftMsgToClusterMsg, MarshalOrPanic, GetContent, gets,
    append_seed, modify, rpc_SendConsensus, lift, mbind, GoM_bind, id, deref, mret, GoM_ret.
  rewrite Hm. simpl. rewrite Hm. simpl. by destruct (marshal_Message (Some c)).
Qed.

Lemma send_list_run e m c payload nodes s :
  heap s !! m = Some (Some c) -> nodes = [] \/ marshal_Message (Some c) = Some payload ->
  exists s', for_each (fun node => SendConsensus e node m) nodes s = Ok (tt, s') /\
    after_sends e m c payload nodes s s'.
Proof.
  revert s. induction nodes as [|d nodes IH]; intros s Hm Hp; simpl.
  { exists s. split; [done|]. split_and!; [done..|by rewrite app_nil_r|].
    intros t. case_decide; by rewrite app_nil_r. }
  destruct Hp as [|Hp]; [done|].
  unfold mbind at 1, GoM_bind at 1. rewrite (SendConsensus_run e d m c), Hp by done.
  destruct (IH (add_sent (SentConsensus d (Channel e) payload)
              (set_seeds (add_seed (content_type c) m (seeds s)) s)))
    as (s' & E & Hh & Htx & Hr & Hs & Hpo); [done|by right|].
  exists s'. split; [done|]. split_and!; [done..| |].
  - rewrite Hs. simpl. by rewrite <- app_assoc.
  - intros t. rewrite Hpo. simpl. rewrite pool_add_seed.
    case_decide; [by rewrite <- app_assoc|done].
Qed.

Lemma send_list_panics e m c nodes s :
  heap s !! m = Some (Some c) -> nodes <> [] -> marshal_Message (Some c) = None ->
  for_each (fun node => SendConsensus e node m) nodes s = Panic "proto.Marshal".
Proof.
  intros Hm Hn Hp. destruct nodes as [|d nodes]; [done|]. simpl.
  unfold mbind, GoM_bind. by rewrite (SendConsensus_run e d m c), Hp.
Qed.

Lemma for_each_others c (send : Z -> M unit) s :
  send_to_others c send s = for_each send (filter (fun node => ID c <> node) (NodesList c)) s.
Proof.
  unfold send_to_others. revert s.
  induction (NodesList c) as [|d l IH]; intros s; simpl; [done|].
  unfold mbind, GoM_bind. destruct (Z.eqb_spec (ID c) d) as [E|E].
  - rewrite filter_cons_False by tauto. simpl. apply IH.
  - rewrite filter_cons_True by done. simpl. unfold mbind, GoM_bind.
    destruct (send d s) as [[[] s']| |]; [apply IH|done|done].
Qed.

(** The receivers of a broadcast, by the draw that chose the strategy. *)
Definition receivers (c : Controller) (probability : Z) : list Z :=
  if lt_0_7 probability then filter (fun node => ID c <> node) (NodesList c)
  else if lt_0_85 probability then drop 6 (NodesList c)
  else drop 8 (NodesList c).

Lemma BroadcastConsensusFuzz_sends c m s :
  BroadcastConsensusFuzz c m s =
    for_each (fun node => SendConsensus (Comm c) node m) (receivers c (rand_Float64 (rng s)).1)
      (set_rng (rand_Float64 (rng s)).2 s).
Proof.
  unfold BroadcastConsensusFuzz, percentageRandom, receivers, mbind, GoM_bind. rewrite random_run.
  destruct (lt_0_7 _); [apply for_each_others|by destruct (lt_0_85 _)].
Qed.

(** ** What the loops do *)

(** The state after a pass that drew the seed at [m] of type [t], mutated it to
    [b] and sent [payload] to [ds], with the generator left at [r]: exactly that
    message is replaced, one request per receiver leaves, and the location is
    listed again once for the mutation and once for every receiver. *)
Definition fuzzed_and_sent (c : Controller) (t : MessageType) (m : loc) (b : Content)
    (payload : bytes) (ds : list Z) (r : RNG) (s s' : FuzzState) : Prop :=
  heap s' = <[m := Some b]> (heap s) /\
  sent s' = sent s ++ ((fun d => SentConsensus d (Channel (Comm c)) payload) <$> ds) /\
  (forall t', pool t' (seeds s') = pool t' (seeds s) ++
     (if decide (t = t') then replicate (S (length ds)) m else [])) /\
  transactionSeeds s' = transactionSeeds s /\ rng s' = r.

Lemma RunFuzz_pass_run c s :
  seeds_ok s ->
  match drawn_seed s with
  | (None, r) => RunFuzz_pass c s = Ok (tt, set_rng r s)
  | (Some (t, m), r) =>
      m ∈ pool t (seeds s) /\
      exists b, heap s !! m = Some (Some b) /\ content_type b = t /\ content_u64 b /\
        let '(b', r1) := mutation b r in
        let '(p, r2) := rand_Float64 r1 in
        let ds := receivers c p in
        (marshal_Message (Some b') = None -> ds <> [] ->
           RunFuzz_pass c s = Panic "proto.Marshal") /\
        (forall payload, ds = [] \/ marshal_Message (Some b') = Some payload ->
           exists s', RunFuzz_pass c s = Ok (tt, s') /\ fuzzed_and_sent c t m b' payload ds r2 s s')
  end.
Proof.
  intros Hok. unfold RunFuzz_pass, mbind, GoM_bind.
  pose proof (protocolFuzz_run s Hok) as Hf.
  destruct (drawn_seed s) as [[[t m]|] r]; [|by rewrite Hf].
  destruct Hf as (Hin & b & Hb & Ht & Hu & E). split; [done|]. exists b. split_and!; [done..|].
  rewrite E, BroadcastConsensusFuzz_sends. unfold after_mutation. cbn [rng set_seeds set_rng].
  pose proof (mutation_type b r) as Hmt.
  destruct (mutation b r) as [b' r1]. cbn [fst snd] in *.
  destruct (rand_Float64 r1) as [p r2]. cbn [fst snd].
  set (s1 := set_rng r2 _). assert (heap s1 !! m = Some (Some b')) as Hm by apply lookup_insert_eq.
  split; [by intros; apply (send_list_panics _ _ b')|]. intros payload Hp.
  destruct (send_list_run (Comm c) m b' payload _ s1 Hm Hp)
    as (s' & E' & Hh & Htx & Hr & Hs & Hpo).
  exists s'. split; [done|]. split_and!; [done..| |done|done].
  intros t'. rewrite Hpo. cbn [seeds set_rng set_seeds s1]. rewrite pool_add_seed, Hmt, Ht.
  case_decide; [by rewrite <- app_assoc|done].
Qed.

Lemma fuzzed_and_sent_members c t m b payload ds r s s' :
  m ∈ pool t (seeds s) -> fuzzed_and_sent c t m b payload ds r s s' ->
  forall t' m', m' ∈ pool t' (seeds s') <-> m' ∈ pool t' (seeds s).
Proof.
  intros Hm (_ & _ & Hp & _) t' m'.
  rewrite Hp, elem_of_app. case_decide; [subst|set_solver].
  rewrite elem_of_replicate. naive_solver.
Qed.

Lemma fuzzed_and_sent_seeds_ok c t m b payload ds r s s' :
  seeds_ok s -> m ∈ pool t (seeds s) -> content_type b = t -> content_u64 b ->
  fuzzed_and_sent c t m b payload ds r s s' -> seeds_ok s'.
Proof.
  intros Hok Hm Hb Hbu Hp t' m' Hin.
  apply (fuzzed_and_sent_members _ _ _ _ _ _ _ _ _ Hm Hp) in Hin.
  destruct (Hok _ _ Hin) as (c0 & Hc & Ht & Hu).
  destruct Hp as (Hh & _). unfold seed_ok; rewrite Hh.
  destruct (decide (m = m')) as [->|Hne].
  - exists b. rewrite lookup_insert_eq. destruct (Hok _ _ Hm) as (c1 & ? & ? & _). naive_solver.
  - exists c0. by rewrite lookup_insert_ne.
Qed.

(** The message a pass is about to send. *)
Definition drawn_mutation (s : FuzzState) : option Content :=
  '(_, m) ← (drawn_seed s).1; b ← mjoin (heap s !! m); Some (mutation b (drawn_seed s).2).1.

(** A pass ends with the pools well typed and no message object created or
    forgotten, or panics because the message it drew does not marshal. *)
Lemma RunFuzz_pass_keeps c s :
  seeds_ok s ->
  (exists s', RunFuzz_pass c s = Ok (tt, s') /\ seeds_ok s' /\ dom (heap s') = dom (heap s) /\
     forall t m, m ∈ pool t (seeds s') <-> m ∈ pool t (seeds s)) \/
  (RunFuzz_pass c s = Panic "proto.Marshal" /\
     exists b, drawn_mutation s = Some b /\ content_u64 b /\ marshal_Message (Some b) = None).
Proof.
  intros Hok. pose proof (RunFuzz_pass_run c s Hok) as Hp. unfold drawn_mutation.
  destruct (drawn_seed s) as [[[t m]|] r]; [|left; by eexists].
  destruct Hp as (Hin & b & Hb & Ht & Hu & Hp). cbn [fst snd].
  pose proof (mutation_type b r) as Hmt. pose proof (mutation_u64 b r Hu) as Hmu.
  assert (mjoin (heap s !! m) = Some b) as Hj by by rewrite Hb.
  destruct (mutation b r) as [b' r1] eqn:Em. destruct (rand_Float64 r1) as [p r2].
  destruct Hp as [Hpanic Hrun]. cbn [fst snd] in *.
  assert ((exists payload, receivers c p = [] \/ marshal_Message (Some b') = Some payload) \/
    (receivers c p <> [] /\ marshal_Message (Some b') = None)) as [[payload Hd]|[Hd Hn]].
  { destruct (marshal_Message (Some b')) as [x|]; [left; eauto|].
    destruct (receivers c p); [left; exists []; by left|by right]. }
  - left. destruct (Hrun payload Hd) as (s' & E & He). exists s'. split_and!; [done| | |].
    + by apply (fuzzed_and_sent_seeds_ok c t m b' payload (receivers c p) r2 s);
        [..|congruence|done|done].
    + destruct He as (-> & _). rewrite dom_insert_lookup_L; [done|by eexists].
    + by apply (fuzzed_and_sent_members c t m b' payload (receivers c p) r2).
  - right. split; [by apply Hpanic|]. exists b'. cbn. rewrite Hj. cbn. by rewrite Em.
Qed.

Lemma RunFuzz_step c n s s1 :
  RunFuzz_pass c s = Ok (tt, s1) -> bad_guy c = true -> RunFuzz c (S n) s = RunFuzz c n s1.
Proof. intros E Hb. simpl. rewrite Hb. unfold mbind, GoM_bind. by rewrite E. Qed.

(** What any number of passes does, from well-typed pools. *)
Lemma RunFuzz_runs c n s :
  seeds_ok s ->
  (exists s', RunFuzz c n s = Ok (tt, s') /\ seeds_ok s' /\ dom (heap s') = dom (heap s) /\
     forall t m, m ∈ pool t (seeds s') <-> m ∈ pool t (seeds s)) \/
  (RunFuzz c n s = Panic "proto.Marshal" /\
     exists k s1 b, (k < n)%nat /\ RunFuzz c k s = Ok (tt, s1) /\ drawn_mutation s1 = Some b /\
       content_u64 b /\ marshal_Message (Some b) = None).
Proof.
  revert s. induction n as [|n IH]; intros s Hok; [left; by exists s|].
  destruct (bad_guy c) eqn:Hb; [|left; exists s; simpl; by rewrite Hb].
  destruct (RunFuzz_pass_keeps c s Hok) as [(s1 & E & Hok1 & Hd & Hm)|(E & b & Hdr & Hu & Hn)].
  - rewrite (RunFuzz_step c n s s1) by done.
    destruct (IH s1 Hok1) as [(s' & E' & Hok' & Hd' & Hm')|(E' & k & s2 & b & Hk & E2 & Hrest)].
    + left. exists s'. split_and!; [done|done|congruence|]. intros t m. by rewrite Hm', Hm.
    + right. split; [done|]. exists (S k), s2, b.
      rewrite (RunFuzz_step c k s s1) by done. split; [lia|done].
  - right. split.
    + simpl. rewrite Hb. unfold mbind, GoM_bind. by rewrite E.
    + exists O, s, b. split; [lia|done].
Qed.

(** C17. The consensus fuzzing loop, left running from well-typed seed pools:
    any number of passes either ends normally, with the pools well typed and
    every view and sequence number inside [uint64], or stops at one panic only,
    the one of MarshalOrPanic, in a pass whose freshly mutated message
    proto.Marshal refuses (a fuzzed string that is not UTF-8).  There is no nil
    dereference, no index out of range and no other panic; and when every
    message marshals the loop never stops. *)
Theorem RunFuzz_safe c n s :
  seeds_ok s ->
  ((exists s', RunFuzz c n s = Ok (tt, s') /\ seeds_ok s') \/
   (RunFuzz c n s = Panic "proto.Marshal" /\
      exists k s1 b, (k < n)%nat /\ RunFuzz c k s = Ok (tt, s1) /\ drawn_mutation s1 = Some b /\
        marshal_Message (Some b) = None)) /\
  ((forall b, content_u64 b -> is_Some (marshal_Message (Some b))) ->
     exists s', RunFuzz c n s = Ok (tt, s') /\ seeds_ok s').
Proof.
  intros Hok. destruct (RunFuzz_runs c n s Hok)
    as [(s' & E & Hok' & _)|(E & k & s1 & b & Hk & E1 & Hd & Hu & Hn)].
  - split; [left|]; eauto.
  - split; [right; split; [done|]; by exists k, s1, b|].
    intros Hall. destruct (Hall b Hu) as [x Hx]. congruence.
Qed.

(** C1. One pass of the fuzzing loop, as a function of the draws.  The pass
    seeds the generator and draws a type and a position in that type's pool; it
    does nothing more exactly when the number drawn is no type or the pool is
    empty.  Otherwise the message at that position is replaced in place by its
    drawn mutation (view drawn, sequence number moved by at most one modulo
    2^64, the other fields of the type drawn or kept as spelled out), and the
    next draw decides who gets it: below 0.7 everybody but the node itself,
    below 0.85 the nodes from index 6 on, else those from index 8 on.  Every
    receiver gets the marshalled mutation, the pool lists the location again
    1 + (number of receivers) times, and nothing else changes; if there is a
    receiver and the mutation does not marshal, the pass panics. *)
Theorem RunFuzz_pass_effect c s :
  seeds_ok s ->
  match drawn_seed s with
  | (None, r) => RunFuzz_pass c s = Ok (tt, set_rng r s)
  | (Some (t, m), r) =>
      m ∈ pool t (seeds s) /\
      exists b, heap s !! m = Some (Some b) /\ content_type b = t /\
        let '(b', r1) := mutation b r in
        let '(p, r2) := rand_Float64 r1 in
        let ds := if lt_0_7 p then filter (fun node => ID c <> node) (NodesList c)
                  else if lt_0_85 p then drop 6 (NodesList c)
                  else drop 8 (NodesList c) in
        (marshal_Message (Some b') = None -> ds <> [] ->
           RunFuzz_pass c s = Panic "proto.Marshal") /\
        (forall payload, ds = [] \/ marshal_Message (Some b') = Some payload ->
           exists s', RunFuzz_pass c s = Ok (tt, s') /\ fuzzed_and_sent c t m b' payload ds r2 s s')
  end.
Proof.
  intros Hok. pose proof (RunFuzz_pass_run c s Hok) as Hp.
  destruct (drawn_seed s) as [[[t m]|] r]; [|done]. naive_solver.
Qed.

(** Fuzzing never enlarges the corpus: after any number of passes each pool
    holds the same set of message objects as before (only more aliases of
    them), no message object is created, and so every mutation has replaced
    the seed it started from. *)
Theorem RunFuzz_corpus_closed c n s s' :
  seeds_ok s -> RunFuzz c n s = Ok (tt, s') ->
  dom (heap s') = dom (heap s) /\
  forall t m, m ∈ pool t (seeds s') <-> m ∈ pool t (seeds s).
Proof.
  intros Hok E. destruct (RunFuzz_runs c n s Hok) as [(s2 & E' & _ & H)|(E' & _)];
    rewrite E in E'; [by injection E' as <-|done].
Qed.

(** Who a broadcast reaches: when the message marshals it goes, in node order,
    to every node but oneself when the draw is below 0.7; otherwise to the nodes
    from index 6 on (below 0.85) or from index 8 on, oneself included, so that
    in a cluster of at most six nodes these two strategies send nothing. *)
Theorem BroadcastConsensusFuzz_targets c m b payload s :
  heap s !! m = Some (Some b) -> marshal_Message (Some b) = Some payload ->
  exists s' ds, BroadcastConsensusFuzz c m s = Ok (tt, s') /\
    sent s' = sent s ++ consensus_sends (Comm c) payload ds /\
    let p := (rand_Float64 (rng s)).1 in
    (lt_0_7 p = true -> ds = filter (fun node => ID c <> node) (NodesList c)) /\
    (lt_0_7 p = false -> lt_0_85 p = true -> ds = drop 6 (NodesList c)) /\
    (lt_0_7 p = false -> lt_0_85 p = false -> ds = drop 8 (NodesList c)) /\
    (lt_0_7 p = false -> (length (NodesList c) <= 6)%nat -> ds = []).
Proof.
  intros Hm Hp. rewrite BroadcastConsensusFuzz_sends.
  destruct (send_list_run (Comm c) m b payload (receivers c (rand_Float64 (rng s)).1)
    (set_rng (rand_Float64 (rng s)).2 s) Hm (or_intror Hp)) as (s' & E & _ & _ & _ & Hs & _).
  exists s', (receivers c (rand_Float64 (rng s)).1). split_and!; [done|done|].
  unfold receivers. destruct (lt_0_7 _), (lt_0_85 _); split_and!; try done;
    intros _ Hl; apply drop_ge; lia.
Qed.

(** The sequence mutation: the result is the old sequence number minus one
    for draws of at least 0.1 and otherwise plus one or unchanged, always
    computed modulo 2^64 (sequence 0 becomes 2^64 - 1), and only the generator
    state is consumed. *)
Theorem seqFuzz_bounds seq s :
  is_u64 seq ->
  exists seq' r, seqFuzz seq s = Ok (seq', set_rng r s) /\ is_u64 seq' /\
    (ge_0_1 (rand_Float64 (rng s)).1 = true ->
       seq' = if seq =? 0 then two64 - 1 else seq - 1) /\
    (ge_0_1 (rand_Float64 (rng s)).1 = false ->
       seq' = seq \/ seq' = if seq =? two64 - 1 then 0 else seq + 1).
Proof.
  intros Hs. rewrite seqFuzz_run. eexists _, _. split; [reflexivity|].
  split; [by apply drawn_seq_u64|]. unfold drawn_seq, is_u64 in *.
  destruct (rand_Float64 (rng s)) as [p r1]. cbn [fst snd].
  split; intros ->; [|destruct (rand_Float64 r1) as [q r2]; destruct (le_0_1 q); [right|by left]];
    cbn [fst].
  - destruct (Z.eqb_spec seq 0) as [->|]; [done|]. apply Z.mod_small. unfold two64 in *; lia.
  - destruct (Z.eqb_spec seq (two64 - 1)) as [->|]; [done|].
    apply Z.mod_small. unfold two64 in *; lia.
Qed.

(** *** Transactions *)

Lemma SendTransaction_run e d req s :
  SendTransaction e d req s =
    match unmarshal_Envelope req with
    | Some env => Ok (tt, add_sent (SentSubmit d (Channel e) env) s)
    | None => Panic "Failed unmarshaling request"
    end.
Proof.
  unfold SendTransaction, mbind, GoM_bind, lift, or_panic, ok_or. by destruct (unmarshal_Envelope req).
Qed.

Lemma SendTransactionFuzz_run e d req s :
  SendTransactionFuzz e d req s =
    match unmarshal_Envelope req with
    | Some env =>
        Ok (tt, add_sent (SentSubmit d (Channel e) env) (set_rng (fuzz_bytes env.1 (rng s)).2 s))
    | None => Panic "Failed unmarshaling request"
    end.
Proof.
  unfold SendTransactionFuzz, mbind, GoM_bind, lift, or_panic, ok_or.
  destruct (unmarshal_Envelope req) as [env|]; [|done].
  unfold TransactionMessageFuzzed. by rewrite random_run.
Qed.

(** Sending a "fuzzed" transaction is sending the transaction: on every
    input [SendTransactionFuzz] ends the way [SendTransaction] does and emits
    the same request; the mutated payload is thrown away and only the
    generator state differs. *)
Theorem SendTransactionFuzz_is_SendTransaction e d req s :
  match SendTransactionFuzz e d req s, SendTransaction e d req s with
  | Ok (_, s1), Ok (_, s2) => s1 = set_rng (rng s1) s2
  | Panic p, Panic q => p = q
  | _, _ => False
  end.
Proof.
  rewrite SendTransactionFuzz_run, SendTransaction_run. by destruct (unmarshal_Envelope req).
Qed.

(** A request the transaction fuzzer may emit: the decoding of a seed. *)
Definition seed_request (c : Controller) (txs : list bytes) (x : Sent) : Prop :=
  exists d env req, x = SentSubmit d (Channel (Comm c)) env /\
    req ∈ txs /\ unmarshal_Envelope req = Some env.

(** What sending one seed to some nodes does. *)
Definition only_seed_requests (c : Controller) (s s' : FuzzState) : Prop :=
  heap s' = heap s /\ seeds s' = seeds s /\ transactionSeeds s' = transactionSeeds s /\
  exists l, sent s' = sent s ++ l /\ Forall (seed_request c (transactionSeeds s)) l.

Lemma only_seed_requests_trans c s1 s2 s3 :
  only_seed_requests c s1 s2 -> only_seed_requests c s2 s3 -> only_seed_requests c s1 s3.
Proof.
  intros (?&?&Ht&l1&Hs1&F1) (?&?&?&l2&Hs2&F2). unfold only_seed_requests.
  split_and!; [congruence..|]. exists (l1 ++ l2).
  rewrite Hs2, Hs1, <- app_assoc. split; [done|]. apply Forall_app. split; [done|].
  by rewrite Ht in F2.
Qed.

Lemma send_txs_run c (send : Z -> M unit) nodes s :
  (forall d s0, transactionSeeds s0 = transactionSeeds s ->
     exists s1, send d s0 = Ok (tt, s1) /\ only_seed_requests c s0 s1) ->
  exists s', for_each send nodes s = Ok (tt, s') /\ only_seed_requests c s s'.
Proof.
  intros Hsend. revert s Hsend. induction nodes as [|d nodes IH]; intros s Hsend; simpl.
  { exists s. split; [done|]. split_and!; [done..|]. exists []. by rewrite app_nil_r. }
  destruct (Hsend d s eq_refl) as (s1 & E1 & H1).
  destruct (IH s1) as (s2 & E2 & H2).
  { intros d' s0 Ht. apply Hsend. destruct H1 as (_&_&Ht1&_). congruence. }
  exists s2. split; [|by apply only_seed_requests_trans with s1].
  unfold mbind, GoM_bind. by rewrite E1.
Qed.

Lemma BroadcastTransactionsFuzz_run c req env s :
  req ∈ transactionSeeds s -> unmarshal_Envelope req = Some env ->
  exists s', BroadcastTransactionsFuzz c req s = Ok (tt, s') /\ only_seed_requests c s s'.
Proof.
  intros Hin Henv. unfold BroadcastTransactionsFuzz, percentageRandom, mbind, GoM_bind.
  rewrite random_run. cbn beta iota.
  assert (forall send : Z -> M unit,
    (forall d s0, exists r, send d s0 =
       Ok (tt, add_sent (SentSubmit d (Channel (Comm c)) env) (set_rng r s0))) ->
    forall nodes r, exists s', for_each send nodes (set_rng r s) = Ok (tt, s') /\
      only_seed_requests c s s') as Hall.
  { intros send Hs nodes r. apply (send_txs_run c send nodes (set_rng r s)).
    intros d s0 Ht. destruct (Hs d s0) as [r' E]. eexists. split; [done|].
    split_and!; [done..|]. exists [SentSubmit d (Channel (Comm c)) env]. split; [done|].
    apply Forall_singleton. exists d, env, req. split_and!; [done| |done].
    cbn in Ht. by rewrite Ht. }
  case_match; [rewrite for_each_others|case_match]; apply Hall; intros d s0;
    rewrite ?SendTransactionFuzz_run, ?SendTransaction_run, Henv; eauto.
Qed.

(** The transaction fuzzing loop replays: when every recorded request
    decodes, any number of passes finishes, and everything it emits is a submit
    request carrying the unmodified envelope of some recorded seed; the
    consensus seeds and messages are untouched. *)
Theorem RunTxFuzz_replays c n s :
  Forall (fun req => is_Some (unmarshal_Envelope req)) (transactionSeeds s) ->
  exists s', RunTxFuzz c n s = Ok (tt, s') /\ only_seed_requests c s s'.
Proof.
  revert s. induction n as [|n IH]; intros s Hs; simpl.
  all: assert (only_seed_requests c s s) as Hrefl
    by (split_and!; [done..|]; exists []; by rewrite app_nil_r).
  { by exists s. }
  destruct (bad_guy c); [|by exists s].
  assert (exists s1, RunTxFuzz_pass c s = Ok (tt, s1) /\ only_seed_requests c s s1)
    as (s1 & E1 & H1).
  { unfold RunTxFuzz_pass, transactionFuzz, getNextTxSeed, gets, mbind, GoM_bind.
    destruct (transactionSeeds s) as [|x l] eqn:El; [by exists s|].
    rewrite random_run. cbn beta iota zeta. set (i := (rand_Intn _ _).1).
    assert (0 <= i < Z.of_nat (length (x :: l))) as Hi
      by (apply rand_Intn_range; simpl; lia).
    destruct (lookup_lt_is_Some_2 (x :: l) (Z.to_nat i)) as [req Hreq]; [lia|].
    unfold lift, index. rewrite Hreq. cbn beta iota zeta.
    destruct (proj1 (Forall_lookup _ _) Hs _ _ Hreq) as [env Henv].
    apply (BroadcastTransactionsFuzz_run c req env
             (set_rng (rand_Intn (Z.of_nat (length (x :: l))) (rng s)).2 s)); [|done].
    cbn. rewrite El. by apply list_elem_of_lookup_2 in Hreq. }
  unfold mbind at 1, GoM_bind at 1. rewrite E1.
  destruct (IH s1) as (s2 & E2 & H2).
  { destruct H1 as (_&_&->&_). done. }
  exists s2. split; [done|]. by apply only_seed_requests_trans with s1.
Qed.
End FabricFuzzer.

(** ** The fuzzer on concrete draws *)

Module FabricExample.
Import StreamRandom.

(** Strings of one byte are UTF-8 up to 127. *)
Definition ascii_string (x : string) : bool :=
  forallb (fun a => (Ascii.N_of_ascii a <? 128)%N) (String.list_ascii_of_string x).

(** A marshaller that writes the type and the view of a message and refuses
    strings that are not ASCII, a decoder that takes a request as the payload,
    and mutations that truncate. *)
#[local] Instance env : FabricEnv := {|
  fuzz_Proposal p r :=
    ({| pr_Header := []; pr_Payload := pr_Payload p; pr_Metadata := pr_Metadata p;
        pr_VerificationSequence := pr_VerificationSequence p |}, r);
  fuzz_Signature x r := (x, r);
  marshal_Message m :=
    match m with
    | Some (Message_HeartBeat b) => Some [Byte.x06; to_byte (hb_View b); to_byte (hb_Seq b)]
    | Some (Message_ViewChange b) => if ascii_string (vc_Reason b) then Some [Byte.x03] else None
    | Some (Message_Prepare b) => if ascii_string (p_Digest b) then Some [Byte.x01] else None
    | Some (Message_Commit b) => if ascii_string (c_Digest b) then Some [Byte.x02] else None
    | Some _ => Some [Byte.x09]
    | None => Some []
    end;
  unmarshal_Envelope b := match b with [] => None | _ => Some (b, []) end;
|}.

Definition hb : Content := Message_HeartBeat {| hb_View := 7; hb_Seq := 0 |}.

(** One recorded heartbeat, one recorded transaction, and the draws: message
    type 6, seed 0, view 9, sequence minus one, strategy one. *)
Definition s0 : FuzzState := {|
  heap := {[ 1%positive := Some hb ]};
  seeds := {| PrePrePareMsgSeeds := []; PrePareMsgSeeds := []; CommitMsgSeeds := [];
    ViewChangeSeeds := []; ViewDataSeeds := []; NewViewSeeds := [];
    HeartBeatSeeds := [1%positive]; HeartBeatResponseSeeds := [];
    StateTransferRequestSeeds := []; StateTransferResponseSeeds := [] |};
  transactionSeeds := [[Byte.x2a]];
  rng := [6; 0; 9; 9007199254740991; 5];
  sent := [];
|}.

Definition c0 : Controller := {|
  ID := 1; NodesList := [1; 2; 3; 4];
  Comm := {| Channel := "ch"%string; RuntimeNodes := [1; 2; 3; 4] |} |}.

Lemma s0_ok : seeds_ok s0.
Proof.
  intros t m Hm. destruct t; simpl in Hm; try (by inversion Hm).
  apply list_elem_of_singleton in Hm as ->. by exists hb.
Qed.

(** The pass really mutates and sends: a heartbeat with view 9 and sequence
    2^64 - 1 reaches the three other nodes. *)
Example RunFuzz_run :
  (fun r => match r with Ok (_, s) => (sent s, length (HeartBeatSeeds (seeds s))) | _ => ([], O) end)
    (RunFuzz c0 1 s0) =
  ([SentConsensus 2 "ch" [Byte.x06; Byte.x09; Byte.xff];
    SentConsensus 3 "ch" [Byte.x06; Byte.x09; Byte.xff];
    SentConsensus 4 "ch" [Byte.x06; Byte.x09; Byte.xff]], 5%nat).
Proof. vm_compute. reflexivity. Qed.

(** The same node with a recorded view change, and draws that make its reason a
    byte that is not UTF-8: the orderer dies in MarshalOrPanic. *)
Definition vc : Content := Message_ViewChange {| vc_NextView := 7; vc_Reason := "timeout"%string |}.
Definition s1 : FuzzState :=
  set_rng [3; 0; 200; 9; 5]
    (set_heap {[ 1%positive := Some vc ]}
       (set_seeds {| PrePrePareMsgSeeds := []; PrePareMsgSeeds := []; CommitMsgSeeds := [];
          ViewChangeSeeds := [1%positive]; ViewDataSeeds := []; NewViewSeeds := [];
          HeartBeatSeeds := []; HeartBeatResponseSeeds := [];
          StateTransferRequestSeeds := []; StateTransferResponseSeeds := [] |} s0)).

Example fuzzed_string_kills :
  match RunFuzz c0 1 s1 with Panic p => Some p | _ => None end = Some "proto.Marshal"%string.
Proof. vm_compute. reflexivity. Qed.

Lemma RunFuzz_safe_witness :
  (exists s', RunFuzz c0 3 s0 = Ok (tt, s') /\ seeds_ok s') \/
  (RunFuzz c0 3 s0 = Panic "proto.Marshal" /\
     exists k s1 b, (k < 3)%nat /\ RunFuzz c0 k s0 = Ok (tt, s1) /\ drawn_mutation s1 = Some b /\
       marshal_Message (Some b) = None).
Proof. exact (proj1 (RunFuzz_safe c0 3 s0 s0_ok)). Defined.

(** The heartbeat becomes view 9, sequence 2^64 - 1, and goes to nodes 2, 3
    and 4. *)
Lemma RunFuzz_pass_effect_witness :
  exists s', RunFuzz_pass c0 s0 = Ok (tt, s') /\
    fuzzed_and_sent c0 HeartBeatMsg 1%positive
      (Message_HeartBeat {| hb_View := 9; hb_Seq := 18446744073709551615 |})
      [Byte.x06; Byte.x09; Byte.xff] [2; 3; 4] [] s0 s'.
Proof.
  destruct (RunFuzz_pass_effect c0 s0 s0_ok) as (_ & b & Hb & _ & H).
  injection Hb as <-. destruct H as [_ H]. apply H. right. reflexivity.
Defined.

Lemma RunFuzz_corpus_closed_witness :
  exists s', RunFuzz c0 1 s0 = Ok (tt, s') /\
    dom (heap s') = dom (heap s0) /\
    forall t m, m ∈ pool t (seeds s') <-> m ∈ pool t (seeds s0).
Proof.
  destruct (RunFuzz c0 1 s0) as [[[] s']|e|q] eqn:E; [|discriminate E..].
  exists s'. split; [reflexivity|]. exact (RunFuzz_corpus_closed c0 1 s0 s' s0_ok E).
Defined.
End FabricExample.
