(* ===== verification/FabricBlocks.v ===== *)
(** * Blocks of the Fabric ledger

    The blocks, envelopes and block metadata of protos/common, the hashing of
    block headers (protos/common/block.go), and the accessors of protos/utils and
    orderer/common/cluster/util.go.

    The protobuf library is an interface: a codec per message type, which reads
    back what it wrote.  A message is the record of its known fields.  SHA-256 is a function of the bytes. *)

From S2P Require Import Prelude BigEndian Asn1.

(** ** Protobuf *)

Record Codec (A : Type) := { Marshal : A -> bytes; Unmarshal : bytes -> outcome A }.
Arguments Marshal {A} _ _.
Arguments Unmarshal {A} _ _.

(** What is written can be read, and malformed input is an error. *)
Definition codec_ok {A} (c : Codec A) : Prop :=
  (forall a, Unmarshal c (Marshal c a) = Ok a) /\ forall b e, Unmarshal c b <> Panic e.

Lemma codec_roundtrip {A} (c : Codec A) a : codec_ok c -> Unmarshal c (Marshal c a) = Ok a.
Proof. intros [H _]. apply H. Qed.

Lemma codec_inj {A} (c : Codec A) a b : codec_ok c -> Marshal c a = Marshal c b -> a = b.
Proof. intros Hc E. apply (f_equal (Unmarshal c)) in E. rewrite !codec_roundtrip in E by done. by injection E. Qed.

(** ** Messages *)

Record BlockHeader := { Number : Z; PreviousHash : bytes; DataHash : bytes }.

(** The header of a block is never nil here: blocks are made with one or come
    from the ledger. *)
Record Block := { b_Header : BlockHeader; b_Data : option (list bytes); b_Metadata : option (list bytes) }.

Record MetadataSignature := {
  ms_SignatureHeader : bytes;
  ms_Signature : bytes;
  ms_Nonce : bytes;
  ms_SignerId : Z;
  ms_AuxiliaryInput : bytes;
}.

Record Metadata := { md_Value : bytes; md_Signatures : list MetadataSignature }.

(** [LastConfig] is its index. *)
Record OrdererBlockMetadata := { obm_LastConfig : option Z; obm_ConsenterMetadata : bytes }.

#[export] Instance OrdererBlockMetadata_eq_dec : EqDecision OrdererBlockMetadata.
Proof. solve_decision. Defined.

Record Envelope := { env_Payload : bytes; env_Signature : bytes }.
(** The code asks whether the channel header is nil, so that is kept. *)
Record PayloadHeader := { ph_ChannelHeader : option bytes; ph_SignatureHeader : bytes }.
Record Payload := { pl_Header : option PayloadHeader; pl_Data : bytes }.
Record ChannelHeader := { ch_Type : Z; ch_ChannelId : string }.
Record SignatureHeader := { sh_Creator : bytes; sh_Nonce : bytes }.
Record SerializedIdentity := { si_Mspid : string; si_IdBytes : bytes }.

#[export] Instance SerializedIdentity_eq_dec : EqDecision SerializedIdentity.
Proof. solve_decision. Defined.

(** A configuration and the update it came from. *)
Record ConfigEnvelope := { ce_Config : option bytes; ce_LastUpdate : option Envelope }.

(** The state of the consensus protocol a block carries. *)
Record ViewMetadata := {
  vm_ViewId : Z;
  vm_LatestSequence : Z;
  vm_DecisionsInView : Z;
  vm_BlackList : list Z;
  vm_PrevCommitSignatureDigest : bytes;
}.

#[export] Instance ViewMetadata_eq_dec : EqDecision ViewMetadata.
Proof. solve_decision. Defined.

Definition emptyViewMetadata : ViewMetadata :=
  {| vm_ViewId := 0; vm_LatestSequence := 0; vm_DecisionsInView := 0; vm_BlackList := [];
     vm_PrevCommitSignatureDigest := [] |}.

(** A ledger is its blocks, numbered from 0. *)
Abbreviation Ledger := (list Block).

Class Protobuf := {
  pb_BlockData : Codec (list bytes);
  pb_BlockMetadata : Codec (list bytes);
  pb_Metadata : Codec Metadata;
  pb_LastConfig : Codec Z;
  pb_OrdererBlockMetadata : Codec OrdererBlockMetadata;
  pb_Envelope : Codec Envelope;
  pb_Payload : Codec Payload;
  pb_ChannelHeader : Codec ChannelHeader;
  pb_SignatureHeader : Codec SignatureHeader;
  pb_SerializedIdentity : Codec SerializedIdentity;
  pb_ConfigEnvelope : Codec ConfigEnvelope;
  pb_ViewMetadata : Codec ViewMetadata;
  sha256 : bytes -> bytes;
}.

Class ProtobufOk `{!Protobuf} : Prop := {
  BlockData_ok : codec_ok pb_BlockData;
  BlockMetadata_ok : codec_ok pb_BlockMetadata;
  Metadata_ok : codec_ok pb_Metadata;
  LastConfig_ok : codec_ok pb_LastConfig;
  OrdererBlockMetadata_ok : codec_ok pb_OrdererBlockMetadata;
  Envelope_ok : codec_ok pb_Envelope;
  Payload_ok : codec_ok pb_Payload;
  ChannelHeader_ok : codec_ok pb_ChannelHeader;
  SignatureHeader_ok : codec_ok pb_SignatureHeader;
  SerializedIdentity_ok : codec_ok pb_SerializedIdentity;
  ConfigEnvelope_ok : codec_ok pb_ConfigEnvelope;
  ViewMetadata_ok : codec_ok pb_ViewMetadata;
  (** No bytes are the message with no fields set. *)
  Metadata_empty : Unmarshal pb_Metadata [] = Ok {| md_Value := []; md_Signatures := [] |};
}.

(** [common.HeaderType]. *)
Definition HeaderType_CONFIG : Z := 1.
Definition HeaderType_ENDORSER_TRANSACTION : Z := 3.
Definition HeaderType_ORDERER_TRANSACTION : Z := 4.

(** [common.BlockMetadataIndex]; there are five. *)
Definition SIGNATURES : nat := 0.
Definition LAST_CONFIG : nat := 1.
Definition ORDERER : nat := 3.
Definition metadata_entries : nat := 5.

Section Blocks.
Context {Pb : Protobuf}.

(** ** Headers and data *)

(** [fabric:protos/common/block.go] NewBlock *)
Definition NewBlock (seqNum : Z) (previousHash : bytes) : Block := {|
  b_Header := {| Number := seqNum; PreviousHash := previousHash; DataHash := [] |};
  b_Data := Some [];
  b_Metadata := Some (replicate metadata_entries []);
|}.

(** [fabric:protos/common/block.go] BlockHeader.Bytes *)
Definition BlockHeader_Bytes (h : BlockHeader) : outcome bytes :=
  if maxInt64 <? Number h then Panic "Golang does not currently support encoding uint64 to asn1"
  else mret (marshal_int_octets (Number h) [PreviousHash h; DataHash h]).

(** [fabric:protos/common/block.go] BlockHeader.Hash *)
Definition BlockHeader_Hash (h : BlockHeader) : outcome bytes := b ← BlockHeader_Bytes h; mret (sha256 b).

(** [fabric:common/util/utils.go] ConcatenateBytes *)
Definition ConcatenateBytes (l : list bytes) : bytes := concat l.

(** [fabric:protos/common/block.go] BlockData.Bytes *)
Definition BlockData_Bytes (d : list bytes) : bytes := ConcatenateBytes d.

(** [fabric:protos/common/block.go] BlockData.Hash *)
Definition BlockData_Hash (d : list bytes) : bytes := sha256 (BlockData_Bytes d).

Definition set_metadata (m : list bytes) (b : Block) : Block :=
  {| b_Header := b_Header b; b_Data := b_Data b; b_Metadata := Some m |}.

(** ** Accessors of protos/utils *)

(** [fabric:protos/utils/commonutils.go] UnmarshalEnvelope *)
Definition UnmarshalEnvelope (b : bytes) : outcome Envelope :=
  wrap "error unmarshaling Envelope" (Unmarshal pb_Envelope b).

(** [fabric:protos/utils/txutils.go] GetEnvelopeFromBlock *)
Definition GetEnvelopeFromBlock (data : bytes) : outcome Envelope :=
  wrap "error unmarshaling Envelope" (Unmarshal pb_Envelope data).

(** [fabric:protos/utils/proputils.go] GetPayload *)
Definition GetPayload (e : Envelope) : outcome Payload :=
  wrap "error unmarshaling Payload" (Unmarshal pb_Payload (env_Payload e)).

(** [fabric:protos/utils/commonutils.go] UnmarshalPayload *)
Definition UnmarshalPayload (b : bytes) : outcome Payload :=
  wrap "error unmarshaling Payload" (Unmarshal pb_Payload b).

(** [fabric:protos/utils/commonutils.go] UnmarshalChannelHeader *)
Definition UnmarshalChannelHeader (b : bytes) : outcome ChannelHeader :=
  wrap "error unmarshaling ChannelHeader" (Unmarshal pb_ChannelHeader b).

(** [fabric:protos/utils/commonutils.go] ExtractEnvelope *)
Definition ExtractEnvelope (block : Block) (i : nat) : outcome Envelope :=
  data ← ok_or (b_Data block) "block data is nil";
  e ← ok_or (data !! i) "envelope index out of bounds";
  wrap "block data does not carry an envelope" (GetEnvelopeFromBlock e).

(** The type of the transaction in an envelope. *)
Definition envelope_type (e : Envelope) : outcome Z :=
  payload ← GetPayload e;
  header ← ok_or (pl_Header payload) "no header in payload";
  hdr ← UnmarshalChannelHeader (default [] (ph_ChannelHeader header));
  mret (ch_Type hdr).

(** [fabric:protos/utils/commonutils.go] IsConfigTransaction *)
Definition IsConfigTransaction (e : Envelope) : bool :=
  match envelope_type e with
  | Ok t => (t =? HeaderType_CONFIG) || (t =? HeaderType_ORDERER_TRANSACTION)
  | _ => false
  end.

(** [fabric:protos/utils/commonutils.go] IsConfigBlock *)
Definition IsConfigBlock (block : Block) : bool :=
  match ExtractEnvelope block 0 with
  | Ok e => IsConfigTransaction e
  | _ => false
  end.

(** [fabric:protos/utils/commonutils.go] ChannelHeader *)
Definition utils_ChannelHeader (env : Envelope) : outcome ChannelHeader :=
  payload ← UnmarshalPayload (env_Payload env);
  header ← ok_or (pl_Header payload) "header not set";
  b ← ok_or (ph_ChannelHeader header) "channel header not set";
  wrap "error unmarshaling channel header" (UnmarshalChannelHeader b).

(** [fabric:protos/utils/commonutils.go] ChannelID *)
Definition ChannelID (env : Envelope) : outcome string :=
  chdr ← wrap "error retrieving channel header" (utils_ChannelHeader env); mret (ch_ChannelId chdr).

(** [fabric:protos/utils/commonutils.go] UnmarshalEnvelopeOfType *)
Definition UnmarshalEnvelopeOfType {A} (env : Envelope) (headerType : Z) (c : Codec A) : outcome A :=
  payload ← UnmarshalPayload (env_Payload env);
  header ← ok_or (pl_Header payload) "envelope must have a Header";
  chdr ← UnmarshalChannelHeader (default [] (ph_ChannelHeader header));
  _ ← ensure (ch_Type chdr =? headerType) "invalid type";
  wrap "error unmarshaling message" (Unmarshal c (pl_Data payload)).

(** [block.Metadata.Metadata[i]]: a nil metadata or a short one panics. *)
Definition metadata_at (block : Block) (i : nat) : outcome bytes :=
  m ← deref (b_Metadata block); index m i.

(** [fabric:protos/utils/blockutils.go] GetMetadataFromBlock *)
Definition GetMetadataFromBlock (block : Block) (i : nat) : outcome Metadata :=
  b ← metadata_at block i; wrap "error unmarshaling metadata from block" (Unmarshal pb_Metadata b).

(** [fabric:protos/utils/blockutils.go] GetLastConfigIndexFromBlock *)
Definition GetLastConfigIndexFromBlock (block : Block) : outcome Z :=
  md ← GetMetadataFromBlock block LAST_CONFIG;
  wrap "error unmarshaling LastConfig" (Unmarshal pb_LastConfig (md_Value md)).

(** ** The ledger *)

Definition Height (l : Ledger) : Z := Z.of_nat (length l).

(** Numbers beyond the ledger have no block. *)
Definition ledger_Block (l : Ledger) (n : Z) : option Block :=
  if (0 <=? n) && (n <? Height l) then l !! Z.to_nat n else None.

(** [fabric:orderer/common/cluster/util.go] LastConfigBlock *)
Definition LastConfigBlock (block : Block) (l : Ledger) : outcome Block :=
  _ ← ensure (match b_Metadata block with Some m => (LAST_CONFIG <? length m)%nat | None => false end)
        "no metadata in block";
  n ← GetLastConfigIndexFromBlock block;
  ok_or (ledger_Block l n) "unable to retrieve last config block".

(** [fabric:orderer/common/cluster/util.go] ConfigFromBlock *)
Definition ConfigFromBlock (block : Block) : outcome ConfigEnvelope :=
  match b_Data block with
  | Some (txn :: _) =>
      env ← GetEnvelopeFromBlock txn;
      payload ← GetPayload env;
      if Number (b_Header block) =? 0 then
        wrap "invalid config envelope" (Unmarshal pb_ConfigEnvelope (pl_Data payload))
      else
        header ← ok_or (pl_Header payload) "nil header in payload";
        chdr ← UnmarshalChannelHeader (default [] (ph_ChannelHeader header));
        _ ← ensure (ch_Type chdr =? HeaderType_CONFIG) "not a config block";
        wrap "invalid config envelope" (Unmarshal pb_ConfigEnvelope (pl_Data payload))
  | _ => Err "empty block"
  end.
End Blocks.

(** ** Reading what was written *)

Section Roundtrips.
Context {Pb : Protobuf} {PbOk : ProtobufOk}.

Lemma BlockData_rt a : Unmarshal pb_BlockData (Marshal pb_BlockData a) = Ok a.
Proof. apply codec_roundtrip, BlockData_ok. Qed.
Lemma BlockMetadata_rt a : Unmarshal pb_BlockMetadata (Marshal pb_BlockMetadata a) = Ok a.
Proof. apply codec_roundtrip, BlockMetadata_ok. Qed.
Lemma Metadata_rt a : Unmarshal pb_Metadata (Marshal pb_Metadata a) = Ok a.
Proof. apply codec_roundtrip, Metadata_ok. Qed.
Lemma Metadata_nonempty m : md_Signatures m <> [] -> Marshal pb_Metadata m <> [].
Proof. intros Hv E. pose proof (Metadata_rt m) as H. rewrite E, Metadata_empty in H. by injection H as <-. Qed.
Lemma LastConfig_rt a : Unmarshal pb_LastConfig (Marshal pb_LastConfig a) = Ok a.
Proof. apply codec_roundtrip, LastConfig_ok. Qed.
Lemma OrdererBlockMetadata_rt a : Unmarshal pb_OrdererBlockMetadata (Marshal pb_OrdererBlockMetadata a) = Ok a.
Proof. apply codec_roundtrip, OrdererBlockMetadata_ok. Qed.
Lemma SignatureHeader_rt a : Unmarshal pb_SignatureHeader (Marshal pb_SignatureHeader a) = Ok a.
Proof. apply codec_roundtrip, SignatureHeader_ok. Qed.
End Roundtrips.

(** Steps through code that reads what it wrote. *)
Ltac codec_simpl :=
  repeat (cbn [mbind outcome_bind mret outcome_ret wrap or_panic ok_or deref ensure negb];
          first [rewrite BlockData_rt | rewrite BlockMetadata_rt | rewrite Metadata_rt | rewrite LastConfig_rt
                | rewrite OrdererBlockMetadata_rt | rewrite SignatureHeader_rt]);
  cbn [mbind outcome_bind mret outcome_ret wrap or_panic ok_or deref ensure negb].

(** [inv_ok] for code that also takes pairs apart. *)
Ltac inv_run :=
  repeat (inv_ok;
          match goal with
          | x : (_ * _)%type |- _ => destruct x
          | x : unit |- _ => destruct x
          end);
  inv_ok.

(** ** Code that does not panic *)

Definition nopanic {A} (m : outcome A) : Prop := forall p, m <> Panic p.

Section NoPanic.
Context {A B : Type}.

Lemma nopanic_Ok (a : A) : nopanic (Ok a).
Proof. done. Qed.
Lemma nopanic_Err e : nopanic (Err e : outcome A).
Proof. done. Qed.
Lemma nopanic_bind (m : outcome A) (f : A -> outcome B) :
  nopanic m -> (forall a, m = Ok a -> nopanic (f a)) -> nopanic (m ≫= f).
Proof. intros Hm Hf. destruct m as [a|e|p]; [by apply Hf|done|by destruct (Hm p)]. Qed.
Lemma nopanic_wrap s (m : outcome A) : nopanic m -> nopanic (wrap s m).
Proof. intros Hm p. destruct m; [done..|apply Hm]. Qed.
Lemma nopanic_ensure b e : nopanic (ensure b e).
Proof. by destruct b. Qed.
Lemma nopanic_ok_or (o : option A) e : nopanic (ok_or o e).
Proof. by destruct o. Qed.
Lemma nopanic_codec (c : Codec A) b : codec_ok c -> nopanic (Unmarshal c b).
Proof. intros [_ H] p. apply H. Qed.
End NoPanic.

#[export] Hint Resolve nopanic_Ok nopanic_Err nopanic_wrap nopanic_ensure nopanic_ok_or nopanic_codec : nopanic.
#[export] Hint Resolve BlockData_ok BlockMetadata_ok Metadata_ok LastConfig_ok OrdererBlockMetadata_ok Envelope_ok
  Payload_ok ChannelHeader_ok SignatureHeader_ok SerializedIdentity_ok ConfigEnvelope_ok ViewMetadata_ok : nopanic.

(** Goes through the steps of a monadic definition. *)
Ltac nopanic :=
  repeat first [exact (nopanic_Ok _) | solve [eauto 4 with nopanic] | apply nopanic_bind | apply nopanic_wrap
               | match goal with |- forall _, _ => intro end | case_match | progress cbn beta].

Lemma parse_length_nopanic b : nopanic (parse_length b).
Proof.
  assert (forall k acc b, nopanic (parse_length_loop k acc b)) as H.
  { intros k. induction k as [|k IH]; intros acc c; cbn; nopanic. }
  unfold parse_length. nopanic; apply H.
Qed.

Lemma parse_tlv_nopanic t b : nopanic (parse_tlv t b).
Proof. unfold parse_tlv. nopanic; apply parse_length_nopanic. Qed.
#[export] Hint Resolve parse_tlv_nopanic : nopanic.

Lemma parse_octets_nopanic k b : nopanic (parse_octets k b).
Proof. revert b. induction k as [|k IH]; intros b; cbn; nopanic. Qed.

Lemma parse_bigint_nopanic b : nopanic (parse_bigint b).
Proof. unfold parse_bigint. nopanic. Qed.
#[export] Hint Resolve parse_octets_nopanic parse_bigint_nopanic : nopanic.

Lemma unmarshal_octets_nopanic k b : nopanic (unmarshal_octets k b).
Proof. unfold unmarshal_octets. nopanic. Qed.

Lemma unmarshal_int_octets_nopanic k b : nopanic (unmarshal_int_octets k b).
Proof. unfold unmarshal_int_octets. nopanic. Qed.
#[export] Hint Resolve unmarshal_octets_nopanic unmarshal_int_octets_nopanic : nopanic.
