(* ===== verification/SmartBFTConfig.v ===== *)
(** * Configuration of a SmartBFT channel

    Consenters and options of a channel, read from its configuration blocks
    (orderer/consensus/smartbft/util.go and consenter.go), the runtime
    configuration derived from the last blocks, the sanitizing of identities
    (common/crypto/sanitize.go), and the check of configuration transactions
    (configverifier.go).

    What is read of a configuration by other parts of Fabric is an interface,
    [ChannelConfig]: the orderer section of a bundle, the filters, and the
    computation of configuration updates; [Certificates] stands for the packages
    that read X.509 certificates and PEM, and for [time.ParseDuration]. *)

From stdpp Require Import pretty.
From S2P Require Import Prelude BigEndian Asn1 FabricBlocks.

(** ** Data *)

Record Consenter := {
  ConsenterId : Z;
  Host : string;
  Port : Z;
  Identity : bytes;
  ClientTlsCert : bytes;
  ServerTlsCert : bytes;
}.

Inductive Options_Rotation := Options_UNDEFINED | Options_OFF | Options_ON.

Record Options := {
  o_RequestBatchMaxCount : Z;
  o_RequestBatchMaxBytes : Z;
  o_RequestBatchMaxInterval : string;
  o_IncomingMessageBufferSize : Z;
  o_RequestPoolSize : Z;
  o_RequestForwardTimeout : string;
  o_RequestComplainTimeout : string;
  o_RequestAutoRemoveTimeout : string;
  o_ViewChangeResendInterval : string;
  o_ViewChangeTimeout : string;
  o_LeaderHeartbeatTimeout : string;
  o_LeaderHeartbeatCount : Z;
  o_CollectTimeout : string;
  o_SyncOnStart : bool;
  o_SpeedUpViewChange : bool;
  o_LeaderRotation : Options_Rotation;
  o_DecisionsPerLeader : Z;
}.

Record ConfigMetadata := { cm_Consenters : list Consenter; cm_Options : option Options }.

(** The orderer section of a channel configuration. *)
Record OrdererConfig := { oc_ConsensusType : string; oc_ConsensusMetadata : bytes }.

(** [fabric:vendor/github.com/SmartBFT-Go/consensus/pkg/types/config.go:15-80] Configuration *)
Record Configuration := {
  SelfID : Z;
  RequestBatchMaxCount : Z;
  RequestBatchMaxBytes : Z;
  RequestBatchMaxInterval : Z;
  IncomingMessageBufferSize : Z;
  RequestPoolSize : Z;
  RequestForwardTimeout : Z;
  RequestComplainTimeout : Z;
  RequestAutoRemoveTimeout : Z;
  ViewChangeResendInterval : Z;
  ViewChangeTimeout : Z;
  LeaderHeartbeatTimeout : Z;
  LeaderHeartbeatCount : Z;
  NumOfTicksBehindBeforeSyncing : Z;
  CollectTimeout : Z;
  SyncOnStart : bool;
  SpeedUpViewChange : bool;
  LeaderRotation : bool;
  DecisionsPerLeader : Z;
}.

#[export] Instance Configuration_eq_dec : EqDecision Configuration.
Proof. solve_decision. Defined.

(** A configuration with all fields zero. *)
Definition zeroConfiguration : Configuration :=
  Build_Configuration 0 0 0 0 0 0 0 0 0 0 0 0 0 0 0 false false false 0.

Definition Millisecond : Z := 1000000.
Definition Second : Z := 1000 * Millisecond.
Definition Minute : Z := 60 * Second.

(** [fabric:vendor/github.com/SmartBFT-Go/consensus/pkg/types/config.go:86-105] DefaultConfig *)
Definition DefaultConfig : Configuration := {|
  SelfID := 0;
  RequestBatchMaxCount := 100;
  RequestBatchMaxBytes := 10 * 1024 * 1024;
  RequestBatchMaxInterval := 50 * Millisecond;
  IncomingMessageBufferSize := 200;
  RequestPoolSize := 400;
  RequestForwardTimeout := 2 * Second;
  RequestComplainTimeout := 20 * Second;
  RequestAutoRemoveTimeout := 3 * Minute;
  ViewChangeResendInterval := 5 * Second;
  ViewChangeTimeout := 20 * Second;
  LeaderHeartbeatTimeout := Minute;
  LeaderHeartbeatCount := 10;
  NumOfTicksBehindBeforeSyncing := 10;
  CollectTimeout := Second;
  SyncOnStart := false;
  SpeedUpViewChange := false;
  LeaderRotation := true;
  DecisionsPerLeader := 3;
|}.

(** [fabric:vendor/github.com/SmartBFT-Go/consensus/pkg/types/config.go:107-171] Configuration.Validate *)
Definition Validate (c : Configuration) : outcome unit :=
  _ ← ensure (0 <? SelfID c) "SelfID is lower than or equal to zero";
  _ ← ensure (0 <? RequestBatchMaxCount c) "RequestBatchMaxCount should be greater than zero";
  _ ← ensure (0 <? RequestBatchMaxBytes c) "RequestBatchMaxBytes should be greater than zero";
  _ ← ensure (0 <? RequestBatchMaxInterval c) "RequestBatchMaxInterval should be greater than zero";
  _ ← ensure (0 <? IncomingMessageBufferSize c) "IncomingMessageBufferSize should be greater than zero";
  _ ← ensure (0 <? RequestPoolSize c) "RequestPoolSize should be greater than zero";
  _ ← ensure (0 <? RequestForwardTimeout c) "RequestForwardTimeout should be greater than zero";
  _ ← ensure (0 <? RequestComplainTimeout c) "RequestComplainTimeout should be greater than zero";
  _ ← ensure (0 <? RequestAutoRemoveTimeout c) "RequestAutoRemoveTimeout should be greater than zero";
  _ ← ensure (0 <? ViewChangeResendInterval c) "ViewChangeResendInterval should be greater than zero";
  _ ← ensure (0 <? ViewChangeTimeout c) "ViewChangeTimeout should be greater than zero";
  _ ← ensure (0 <? LeaderHeartbeatTimeout c) "LeaderHeartbeatTimeout should be greater than zero";
  _ ← ensure (0 <? LeaderHeartbeatCount c) "LeaderHeartbeatCount should be greater than zero";
  _ ← ensure (0 <? NumOfTicksBehindBeforeSyncing c) "NumOfTicksBehindBeforeSyncing should be greater than zero";
  _ ← ensure (0 <? CollectTimeout c) "CollectTimeout should be greater than zero";
  _ ← ensure (RequestBatchMaxCount c <=? RequestBatchMaxBytes c)
        "RequestBatchMaxCount is bigger than RequestBatchMaxBytes";
  _ ← ensure (RequestForwardTimeout c <=? RequestComplainTimeout c)
        "RequestForwardTimeout is bigger than RequestComplainTimeout";
  _ ← ensure (RequestComplainTimeout c <=? RequestAutoRemoveTimeout c)
        "RequestComplainTimeout is bigger than RequestAutoRemoveTimeout";
  _ ← ensure (ViewChangeResendInterval c <=? ViewChangeTimeout c)
        "ViewChangeResendInterval is bigger than ViewChangeTimeout";
  ensure (negb (LeaderRotation c && (DecisionsPerLeader c <=? 0)))
    "DecisionsPerLeader should be greater than zero when leader rotation is active".

(** [fabric:orderer/common/cluster/comm.go:56-65] RemoteNode *)
Record RemoteNode := { rn_ID : Z; rn_Endpoint : string; rn_ServerTLSCert : bytes; rn_ClientTLSCert : bytes }.

(** [fabric:orderer/consensus/smartbft/util.go:381-385] nodeConfig *)
Record nodeConfig := {
  nc_id2Identities : gmap Z bytes;
  nc_remoteNodes : list RemoteNode;
  nc_nodeIDs : list Z;
}.

(** A certificate: the signature on it, the order of the curve of its key when
    that is an ECDSA key, and its bytes. *)
Record Certificate := { cert_Signature : bytes; cert_N : option Z; cert_Raw : bytes }.

Class Certificates := {
  pem_Decode : bytes -> option bytes;
  pem_Encode : bytes -> bytes;
  ParseCertificate : bytes -> outcome Certificate;
  (** A certificate written with another signature. *)
  with_signature : bytes -> bytes -> outcome bytes;
  ParseDuration : string -> outcome Z;
}.

(** PEM is read back, and a rewritten certificate has the new signature and the old
    key. *)
Class CertificatesOk `{!Certificates} : Prop := {
  pem_roundtrip b : pem_Decode (pem_Encode b) = Some b;
  with_signature_parses der c sig raw :
    ParseCertificate der = Ok c -> with_signature (cert_Raw c) sig = Ok raw ->
    exists c', ParseCertificate raw = Ok c' /\ cert_Signature c' = sig /\ cert_N c' = cert_N c;
}.

Class ChannelConfig := {
  NewBundleFromEnvelope : Envelope -> outcome (option OrdererConfig);
  pb_ConfigMetadata : Codec ConfigMetadata;
  ApplyFilters : string -> Envelope -> outcome unit;
  (** The configuration of a channel that is being created, and its update. *)
  NewChannelConfig : Envelope -> outcome (Envelope -> outcome ConfigEnvelope);
  ProposeConfigUpdate : string -> Envelope -> outcome ConfigEnvelope;
}.

Section Config.
Context {Pb : Protobuf} {Certs : Certificates} {CC : ChannelConfig}.

(** ** Identities *)

(** [fabric:bccsp/utils/ecdsa.go] MarshalECDSASignature *)
Definition MarshalECDSASignature (r s : Z) : bytes :=
  tlv tagSequence (tlv tagInteger (der_int r) ++ tlv tagInteger (der_int s)).

(** [fabric:bccsp/utils/ecdsa.go] UnmarshalECDSASignature *)
Definition UnmarshalECDSASignature (raw : bytes) : outcome (Z * Z) :=
  '(r, s) ← wrap "failed unmashalling signature" (
    '(content, _) ← parse_tlv tagSequence raw;
    '(i, rest) ← parse_tlv tagInteger content;
    r ← parse_bigint i;
    '(j, _) ← parse_tlv tagInteger rest;
    s ← parse_bigint j;
    mret (r, s));
  _ ← ensure (0 <? r) "invalid signature, R must be larger than zero";
  _ ← ensure (0 <? s) "invalid signature, S must be larger than zero";
  mret (r, s).

(** [fabric:common/crypto/sanitize.go] SanitizeIdentity *)
Definition SanitizeIdentity (identity : bytes) : outcome bytes :=
  sID ← wrap "failed unmarshaling identity" (Unmarshal pb_SerializedIdentity identity);
  der ← ok_or (pem_Decode (si_IdBytes sID)) "failed to PEM decode identity bytes";
  cert ← wrap "failed parsing certificate" (ParseCertificate der);
  '(r, s) ← wrap "failed unmarshaling ECDSA signature on identity" (UnmarshalECDSASignature (cert_Signature cert));
  n ← or_panic "interface conversion" (ok_or (cert_N cert) "not an ECDSA key");
  if s <=? Z.shiftr n 1 then mret identity
  else
    newRaw ← wrap "failed marshaling new certificate"
      (with_signature (cert_Raw cert) (MarshalECDSASignature r (n - s)));
    mret (Marshal pb_SerializedIdentity {| si_Mspid := si_Mspid sID; si_IdBytes := pem_Encode newRaw |}).

(** ** Options *)

(** [fabric:orderer/consensus/smartbft/util.go] configFromMetadataOptions *)
Definition configFromMetadataOptions (selfID : Z) (options : option Options) : outcome Configuration :=
  options ← ok_or options "config metadata options field is nil";
  batchInterval ← wrap "bad config metadata option RequestBatchMaxInterval" (ParseDuration (o_RequestBatchMaxInterval options));
  forward ← wrap "bad config metadata option RequestForwardTimeout" (ParseDuration (o_RequestForwardTimeout options));
  complain ← wrap "bad config metadata option RequestComplainTimeout" (ParseDuration (o_RequestComplainTimeout options));
  remove ← wrap "bad config metadata option RequestAutoRemoveTimeout" (ParseDuration (o_RequestAutoRemoveTimeout options));
  resend ← wrap "bad config metadata option ViewChangeResendInterval" (ParseDuration (o_ViewChangeResendInterval options));
  viewChange ← wrap "bad config metadata option ViewChangeTimeout" (ParseDuration (o_ViewChangeTimeout options));
  heartbeat ← wrap "bad config metadata option LeaderHeartbeatTimeout" (ParseDuration (o_LeaderHeartbeatTimeout options));
  collect ← wrap "bad config metadata option CollectTimeout" (ParseDuration (o_CollectTimeout options));
  let decisions := if o_DecisionsPerLeader options =? 0 then 1 else DecisionsPerLeader DefaultConfig in
  let '(rotation, decisions) :=
    match o_LeaderRotation options with
    | Options_OFF => (false, 0)
    | _ => (true, decisions)
    end in
  let config := {|
    SelfID := selfID;
    RequestBatchMaxCount := o_RequestBatchMaxCount options;
    RequestBatchMaxBytes := o_RequestBatchMaxBytes options;
    RequestBatchMaxInterval := batchInterval;
    IncomingMessageBufferSize := o_IncomingMessageBufferSize options;
    RequestPoolSize := o_RequestPoolSize options;
    RequestForwardTimeout := forward;
    RequestComplainTimeout := complain;
    RequestAutoRemoveTimeout := remove;
    ViewChangeResendInterval := resend;
    ViewChangeTimeout := viewChange;
    LeaderHeartbeatTimeout := heartbeat;
    LeaderHeartbeatCount := o_LeaderHeartbeatCount options;
    NumOfTicksBehindBeforeSyncing := NumOfTicksBehindBeforeSyncing DefaultConfig;
    CollectTimeout := collect;
    SyncOnStart := o_SyncOnStart options;
    SpeedUpViewChange := o_SpeedUpViewChange options;
    LeaderRotation := rotation;
    DecisionsPerLeader := decisions;
  |} in
  _ ← wrap "config validation failed" (Validate config);
  mret config.

(** ** Consenters *)

(** [fabric:orderer/consensus/smartbft/util.go] ConfigurationEnvelop *)
Definition ConfigurationEnvelop (configBlock : Block) : outcome ConfigEnvelope :=
  env ← wrap "failed to extract envelop from block" (ExtractEnvelope configBlock 0);
  payload ← wrap "failed to unmarshal envelop payload" (UnmarshalPayload (env_Payload env));
  wrap "failed to unmarshal configuration payload" (Unmarshal pb_ConfigEnvelope (pl_Data payload)).

(** [fabric:orderer/consensus/smartbft/util.go] ConsenterCertificate.IsConsenterOfChannel *)
Definition IsConsenterOfChannel (conCert : bytes) (configBlock : option Block) : outcome unit :=
  configBlock ← ok_or configBlock "nil block";
  env ← ExtractEnvelope configBlock 0;
  oc ← NewBundleFromEnvelope env;
  oc ← ok_or oc "no orderer config in bundle";
  _ ← ensure (String.eqb (oc_ConsensusType oc) "smartbft") "not a SmartBFT config block";
  m ← Unmarshal pb_ConfigMetadata (oc_ConsensusMetadata oc);
  ensure (existsb (fun c => bool_decide (conCert = ServerTlsCert c) || bool_decide (conCert = ClientTlsCert c))
            (cm_Consenters m))
    "not in the channel".

(** [fabric:orderer/consensus/smartbft/consenter.go] pemToDER *)
Definition pemToDER (pemBytes : bytes) : outcome bytes := ok_or (pem_Decode pemBytes) "invalid PEM block".

(** [fabric:orderer/consensus/smartbft/consenter.go] Consenter.detectSelfID *)
Fixpoint detectSelfID (cert : bytes) (consenters : list Consenter) : outcome Z :=
  match consenters with
  | [] => Err "not in the channel"
  | cst :: rest =>
      if bool_decide (cert = ServerTlsCert cst) then mret (ConsenterId cst) else detectSelfID cert rest
  end.

(** [fabric:orderer/consensus/smartbft/util.go:340-366] RemoteNodesFromConfigBlock *)
Definition remote_node (consenter : Consenter) : outcome RemoteNode :=
  server ← pemToDER (ServerTlsCert consenter);
  client ← pemToDER (ClientTlsCert consenter);
  _ ← ParseCertificate server;
  _ ← ParseCertificate client;
  mret {| rn_ID := ConsenterId consenter;
          rn_Endpoint := Host consenter +:+ ":" +:+ pretty (Z.to_N (Port consenter));
          rn_ServerTLSCert := server;
          rn_ClientTLSCert := client |}.

(** [fabric:orderer/consensus/smartbft/util.go:329-367] RemoteNodesFromConfigBlock *)
Fixpoint remote_nodes_loop (selfID : Z) (consenters : list Consenter) (acc : nodeConfig) : outcome nodeConfig :=
  match consenters with
  | [] => mret acc
  | c :: rest =>
      sanitizedID ← or_panic "Failed to sanitize identity" (SanitizeIdentity (Identity c));
      remote ← (if selfID =? ConsenterId c then mret [] else n ← remote_node c; mret [n]);
      remote_nodes_loop selfID rest {|
        nc_id2Identities := <[ConsenterId c := sanitizedID]> (nc_id2Identities acc);
        nc_remoteNodes := nc_remoteNodes acc ++ remote;
        nc_nodeIDs := nc_nodeIDs acc ++ [ConsenterId c];
      |}
  end.

Definition emptyNodeConfig : nodeConfig := {| nc_id2Identities := ∅; nc_remoteNodes := []; nc_nodeIDs := [] |}.

(** The first transaction of a block: an empty block panics. *)
Definition first_envelope (block : Block) : outcome Envelope :=
  data ← deref (b_Data block);
  txn ← index data 0;
  wrap "failed unmarshaling envelope of config block" (Unmarshal pb_Envelope txn).

(** [fabric:orderer/consensus/smartbft/util.go:303-379] RemoteNodesFromConfigBlock *)
Definition RemoteNodesFromConfigBlock (block : Block) (selfID : Z) : outcome nodeConfig :=
  env ← first_envelope block;
  oc ← wrap "failed getting a new bundle from envelope of config block" (NewBundleFromEnvelope env);
  oc ← ok_or oc "no orderer config in config block";
  m ← wrap "failed to unmarshal consensus metadata" (Unmarshal pb_ConfigMetadata (oc_ConsensusMetadata oc));
  _ ← ok_or (cm_Options m) "failed to retrieve consensus metadata options";
  nc ← remote_nodes_loop selfID (cm_Consenters m) emptyNodeConfig;
  mret {| nc_id2Identities := nc_id2Identities nc;
          nc_remoteNodes := nc_remoteNodes nc;
          nc_nodeIDs := merge_sort Z.le (nc_nodeIDs nc) |}.

(** [fabric:orderer/consensus/smartbft/util.go] configBlockToBFTConfig *)
Definition configBlockToBFTConfig (selfID : Z) (block : Block) : outcome Configuration :=
  match b_Data block with
  | Some (txn :: _) =>
      env ← UnmarshalEnvelope txn;
      oc ← NewBundleFromEnvelope env;
      oc ← ok_or oc "no orderer config";
      m ← Unmarshal pb_ConfigMetadata (oc_ConsensusMetadata oc);
      configFromMetadataOptions selfID (cm_Options m)
  | _ => Err "empty block"
  end.

(** [fabric:orderer/consensus/smartbft/util.go] isConfigBlock *)
Definition isConfigBlock (block : Block) : bool :=
  match b_Data block with
  | Some [txn] =>
      match UnmarshalEnvelope txn with
      | Ok env => match envelope_type env with Ok t => t =? HeaderType_CONFIG | _ => false end
      | _ => false
      end
  | _ => false
  end.

(** [fabric:orderer/consensus/smartbft/util.go] getViewMetadataFromBlock *)
Definition getViewMetadataFromBlock (block : Block) : outcome ViewMetadata :=
  if Number (b_Header block) =? 0 then mret emptyViewMetadata
  else
    md ← or_panic "error unmarshaling metadata from block" (GetMetadataFromBlock block SIGNATURES);
    ordererMD ← wrap "failed unmarshaling OrdererBlockMetadata" (Unmarshal pb_OrdererBlockMetadata (md_Value md));
    Unmarshal pb_ViewMetadata (obm_ConsenterMetadata ordererMD).

(** ** The runtime configuration *)

(** [fabric:orderer/consensus/smartbft/util.go:389-400] RuntimeConfig *)
Record RuntimeConfig := {
  BFTConfig : Configuration;
  isConfig : bool;
  rtc_id : Z;
  LastCommittedBlockHash : string;
  RemoteNodes : list RemoteNode;
  ID2Identities : gmap Z bytes;
  rtc_LastBlock : option Block;
  rtc_LastConfigBlock : option Block;
  rtc_Nodes : list Z;
}.

(** [fabric:orderer/consensus/smartbft/util.go] RuntimeConfig.configBlockCommitted *)
Definition configBlockCommitted (rtc : RuntimeConfig) (block : Block) : outcome RuntimeConfig :=
  nodeConf ← wrap "remote nodes cannot be computed, rejecting config block"
               (RemoteNodesFromConfigBlock block (rtc_id rtc));
  bftConfig ← configBlockToBFTConfig (rtc_id rtc) block;
  hash ← BlockHeader_Hash (b_Header block);
  mret {|
    BFTConfig := bftConfig;
    isConfig := true;
    rtc_id := rtc_id rtc;
    LastCommittedBlockHash := hex_encode hash;
    RemoteNodes := nc_remoteNodes nodeConf;
    ID2Identities := nc_id2Identities nodeConf;
    rtc_LastBlock := Some block;
    rtc_LastConfigBlock := Some block;
    rtc_Nodes := nc_nodeIDs nodeConf;
  |}.

(** [fabric:orderer/consensus/smartbft/util.go] RuntimeConfig.BlockCommitted *)
Definition BlockCommitted (rtc : RuntimeConfig) (block : Block) : outcome RuntimeConfig :=
  match ConfigFromBlock block with
  | Ok _ => configBlockCommitted rtc block
  | Panic p => Panic p
  | Err _ =>
      hash ← BlockHeader_Hash (b_Header block);
      mret {|
        BFTConfig := BFTConfig rtc;
        isConfig := false;
        rtc_id := rtc_id rtc;
        LastCommittedBlockHash := hex_encode hash;
        RemoteNodes := RemoteNodes rtc;
        ID2Identities := ID2Identities rtc;
        rtc_LastBlock := Some block;
        rtc_LastConfigBlock := rtc_LastConfigBlock rtc;
        rtc_Nodes := rtc_Nodes rtc;
      |}
  end.

(** ** Configuration transactions *)

(** [fabric:orderer/consensus/smartbft/configverifier.go] ConfigBlockValidator.verifyConfigUpdateMsg *)
Definition verifyConfigUpdateMsg (validatingChannel : string) (outEnv : Envelope) (confEnv : ConfigEnvelope)
    (chdr : ChannelHeader) : outcome unit :=
  match ce_LastUpdate confEnv, ce_Config confEnv with
  | Some lastUpdate, Some config =>
      envPayload ← UnmarshalPayload (env_Payload lastUpdate);
      header ← ok_or (pl_Header envPayload) "inner header is nil";
      _ ← ok_or (ph_ChannelHeader header) "inner channelheader is nil";
      _ ← ApplyFilters (ch_ChannelId chdr) outEnv;
      channelID ← match ChannelID lastUpdate with
                  | Err _ => Err "error extracting channel ID from config update"
                  | m => m
                  end;
      expected ←
        (if negb (String.eqb validatingChannel channelID) then
           _ ← ensure (ch_Type chdr =? HeaderType_ORDERER_TRANSACTION) "header type does not fit the channel";
           propose ← NewChannelConfig lastUpdate;
           propose lastUpdate
         else
           _ ← ensure (negb (ch_Type chdr =? HeaderType_ORDERER_TRANSACTION))
                 "expected config transaction but got orderer transaction";
           ProposeConfigUpdate (ch_ChannelId chdr) lastUpdate);
      ensure (bool_decide (Some config = ce_Config expected))
        "pending config does not match calculated expected config"
  | _, _ => Err "invalid config envelope"
  end.

(** [fabric:orderer/consensus/smartbft/configverifier.go] ConfigBlockValidator.ValidateConfig *)
Definition ValidateConfig (validatingChannel : string) (envelope : Envelope) : outcome unit :=
  payload ← UnmarshalPayload (env_Payload envelope);
  header ← ok_or (pl_Header payload) "no header was set";
  b ← ok_or (ph_ChannelHeader header) "no channel header was set";
  chdr ← wrap "channel header unmarshalling error" (UnmarshalChannelHeader b);
  if ch_Type chdr =? HeaderType_CONFIG then
    configEnvelope ← wrap "data unmarshalling error" (Unmarshal pb_ConfigEnvelope (pl_Data payload));
    verifyConfigUpdateMsg validatingChannel envelope configEnvelope chdr
  else if ch_Type chdr =? HeaderType_ORDERER_TRANSACTION then
    env ← wrap "data unmarshalling error" (UnmarshalEnvelope (pl_Data payload));
    configEnvelope ← wrap "data unmarshalling error" (UnmarshalEnvelopeOfType env HeaderType_CONFIG pb_ConfigEnvelope);
    verifyConfigUpdateMsg validatingChannel envelope configEnvelope chdr
  else Err "unexpected envelope type".
End Config.
