(* ===== verification/SmartBFTConfigSpec.v ===== *)
(** * Correctness of the channel configuration

    The runtime configuration a node derives from the blocks of its ledger is
    well-formed: identities, members and remote nodes describe the same
    consenters, and the parameters of the protocol are valid.  Identities are
    brought into one form, so that the two signatures that are valid for a
    certificate give one identity. *)

From S2P Require Import Prelude BigEndian Asn1 FabricBlocks SmartBFTConfig.

(** ** Options *)

Definition with_decisions (d : Z) (o : Options) : Options := {|
  o_RequestBatchMaxCount := o_RequestBatchMaxCount o;
  o_RequestBatchMaxBytes := o_RequestBatchMaxBytes o;
  o_RequestBatchMaxInterval := o_RequestBatchMaxInterval o;
  o_IncomingMessageBufferSize := o_IncomingMessageBufferSize o;
  o_RequestPoolSize := o_RequestPoolSize o;
  o_RequestForwardTimeout := o_RequestForwardTimeout o;
  o_RequestComplainTimeout := o_RequestComplainTimeout o;
  o_RequestAutoRemoveTimeout := o_RequestAutoRemoveTimeout o;
  o_ViewChangeResendInterval := o_ViewChangeResendInterval o;
  o_ViewChangeTimeout := o_ViewChangeTimeout o;
  o_LeaderHeartbeatTimeout := o_LeaderHeartbeatTimeout o;
  o_LeaderHeartbeatCount := o_LeaderHeartbeatCount o;
  o_CollectTimeout := o_CollectTimeout o;
  o_SyncOnStart := o_SyncOnStart o;
  o_SpeedUpViewChange := o_SpeedUpViewChange o;
  o_LeaderRotation := o_LeaderRotation o;
  o_DecisionsPerLeader := d;
|}.

Section ConfigSpec.
Context {Pb : Protobuf} {Certs : Certificates} {CC : ChannelConfig}.

Lemma options_decisions_ignored selfID o d d' :
  d <> 0 -> d' <> 0 ->
  configFromMetadataOptions selfID (Some (with_decisions d o)) =
  configFromMetadataOptions selfID (Some (with_decisions d' o)).
Proof.
  intros Hd Hd'. unfold configFromMetadataOptions, with_decisions. cbn -[Validate].
  by rewrite (proj2 (Z.eqb_neq d 0) Hd), (proj2 (Z.eqb_neq d' 0) Hd').
Qed.

Lemma configFromMetadataOptions_valid selfID options c :
  configFromMetadataOptions selfID options = Ok c -> Validate c = Ok tt /\ SelfID c = selfID.
Proof.
  unfold configFromMetadataOptions. intros H. inv_run. destruct (o_LeaderRotation _); inv_run; done.
Qed.

(** ** Identities *)

Lemma ECDSASignature_roundtrip r s :
  0 < r -> 0 < s -> fits (MarshalECDSASignature r s) -> UnmarshalECDSASignature (MarshalECDSASignature r s) = Ok (r, s).
Proof.
  intros Hr Hs Hf. unfold UnmarshalECDSASignature, MarshalECDSASignature in *. rewrite !der_int_nonneg in * by lia.
  pose proof (fits_tlv _ _ Hf) as Hc. pose proof (fits_app _ _ Hc) as [H1 H2]. apply fits_tlv in H1, H2.
  rewrite <- (app_nil_r (tlv tagSequence _)), parse_tlv_ok by done. cbn [mbind outcome_bind].
  rewrite parse_tlv_ok by done. cbn [mbind outcome_bind]. rewrite parse_bigint_ok by lia. cbn [mbind outcome_bind].
  rewrite <- (app_nil_r (tlv tagInteger _)), parse_tlv_ok by done. cbn [mbind outcome_bind]. rewrite parse_bigint_ok by lia.
  cbn [mbind outcome_bind wrap mret outcome_ret ensure]. rewrite (proj2 (Z.ltb_lt 0 r)), (proj2 (Z.ltb_lt 0 s)) by lia. done.
Qed.

(** Sanitizing is done once. *)
Lemma sanitize_idempotent {PbOk : ProtobufOk} {CertsOk : CertificatesOk} identity clean :
  (forall b c n r s, ParseCertificate b = Ok c -> cert_N c = Some n -> UnmarshalECDSASignature (cert_Signature c) = Ok (r, s) ->
     s < n /\ fits (MarshalECDSASignature r (n - s))) ->
  SanitizeIdentity identity = Ok clean -> SanitizeIdentity clean = Ok clean.
Proof.
  intros Hlt H. pose proof H as H0. unfold SanitizeIdentity in H. inv_run.
  destruct (Z.leb_spec z0 (Z.shiftr v2 1)) as [Hlow|Hhigh]; inv_run; [done|].
  match goal with Hp : ParseCertificate _ = Ok _, Hn : cert_N _ = Some _, Hu : UnmarshalECDSASignature _ = Ok _ |- _ =>
    destruct (Hlt _ _ _ _ _ Hp Hn Hu) as [Hsn Hf];
    assert (0 < z) as Hz by (unfold UnmarshalECDSASignature in Hu; inv_run; by apply Z.ltb_lt) end.
  match goal with Hp : ParseCertificate _ = Ok _, Hw : with_signature _ _ = Ok _ |- _ =>
    destruct (with_signature_parses _ _ _ _ Hp Hw) as (c' & Hc' & Hs' & Hn') end.
  unfold SanitizeIdentity. rewrite codec_roundtrip by apply SerializedIdentity_ok. cbn [wrap mbind outcome_bind si_IdBytes].
  rewrite pem_roundtrip. cbn [ok_or mbind outcome_bind]. rewrite Hc'. cbn [wrap mbind outcome_bind].
  rewrite Hs', ECDSASignature_roundtrip by (done || lia). cbn [wrap mbind outcome_bind]. rewrite Hn'.
  match goal with Hn : cert_N _ = Some _ |- _ => rewrite Hn end. cbn [ok_or or_panic mbind outcome_bind].
  rewrite (proj2 (Z.leb_le _ _)); [done|]. rewrite Z.shiftr_div_pow2 in * by lia. change (2 ^ 1) with 2 in *.
  pose proof (Z.div_mod v2 2 ltac:(lia)). pose proof (Z.mod_pos_bound v2 2 ltac:(lia)). lia.
Qed.

(** ** Consenters *)

(** Identities, members and remote nodes are those of the same consenters. *)
Record nodes_ok (selfID : Z) (ids : gmap Z bytes) (remote : list RemoteNode) (nodes : list Z) : Prop := {
  nodes_identities : dom ids = list_to_set nodes;
  nodes_remote : rn_ID <$> remote ≡ₚ filter (fun n => n <> selfID) nodes;
}.

Lemma remote_node_id c r : remote_node c = Ok r -> rn_ID r = ConsenterId c.
Proof. unfold remote_node. intros H. inv_run. done. Qed.

Lemma remote_nodes_loop_ok selfID consenters acc nc :
  remote_nodes_loop selfID consenters acc = Ok nc ->
  nodes_ok selfID (nc_id2Identities acc) (nc_remoteNodes acc) (nc_nodeIDs acc) ->
  nodes_ok selfID (nc_id2Identities nc) (nc_remoteNodes nc) (nc_nodeIDs nc) /\
  nc_nodeIDs nc = nc_nodeIDs acc ++ (ConsenterId <$> consenters).
Proof.
  revert acc. induction consenters as [|c l IH]; intros acc H Hok; cbn in H.
  - inv_ok. split; [done|]. by rewrite app_nil_r.
  - inv_ok. apply IH in H as [H1 H2]; cbn [nc_nodeIDs nc_id2Identities nc_remoteNodes] in *.
    + split; [done|]. rewrite H2. cbn. by rewrite <- app_assoc.
    + destruct Hok as [Hd Hr]. split.
      * rewrite dom_insert_L, Hd, list_to_set_app_L. cbn. set_solver.
      * rewrite fmap_app, filter_app, Hr. f_equiv. cbn. destruct (Z.eqb_spec selfID (ConsenterId c)) as [Eq|Ne]; inv_ok.
        -- rewrite decide_False by congruence. done.
        -- rewrite decide_True by congruence. cbn. by erewrite remote_node_id by done.
Qed.

Lemma RemoteNodesFromConfigBlock_ok block selfID nc :
  RemoteNodesFromConfigBlock block selfID = Ok nc ->
  nodes_ok selfID (nc_id2Identities nc) (nc_remoteNodes nc) (nc_nodeIDs nc) /\ Sorted Z.le (nc_nodeIDs nc).
Proof.
  unfold RemoteNodesFromConfigBlock. intros H. inv_run. cbn.
  match goal with H : remote_nodes_loop _ _ _ = Ok _ |- _ => apply remote_nodes_loop_ok in H as [[Hd Hr] _]; [|done] end.
  split; [split|].
  - rewrite Hd. apply set_eq. intros x. rewrite !elem_of_list_to_set. by rewrite merge_sort_Permutation.
  - rewrite Hr. by rewrite merge_sort_Permutation.
  - apply Sorted_merge_sort. intros x y. lia.
Qed.

(** ** The runtime configuration *)

Record rtc_ok (rtc : RuntimeConfig) : Prop := {
  rtc_sorted : Sorted Z.le (rtc_Nodes rtc);
  rtc_nodes : nodes_ok (rtc_id rtc) (ID2Identities rtc) (RemoteNodes rtc) (rtc_Nodes rtc);
  rtc_valid : Validate (BFTConfig rtc) = Ok tt /\ SelfID (BFTConfig rtc) = rtc_id rtc;
  rtc_last : exists b h, rtc_LastBlock rtc = Some b /\ BlockHeader_Hash (b_Header b) = Ok h /\
               LastCommittedBlockHash rtc = hex_encode h;
  rtc_config : exists b ce, rtc_LastConfigBlock rtc = Some b /\ ConfigFromBlock b = Ok ce;
}.

Lemma configBlockCommitted_ok rtc block rtc' ce :
  configBlockCommitted rtc block = Ok rtc' -> ConfigFromBlock block = Ok ce ->
  rtc_ok rtc' /\ rtc_id rtc' = rtc_id rtc /\ rtc_LastBlock rtc' = Some block /\ rtc_LastConfigBlock rtc' = Some block.
Proof.
  unfold configBlockCommitted. intros H Hc. inv_run. split; [|done].
  match goal with H : RemoteNodesFromConfigBlock _ _ = Ok _ |- _ => apply RemoteNodesFromConfigBlock_ok in H as [? ?] end.
  split; cbn; [done..| |eauto|eauto].
  match goal with H : configBlockToBFTConfig _ _ = Ok _ |- _ => unfold configBlockToBFTConfig in H end.
  repeat case_match; try done. inv_run. by eapply configFromMetadataOptions_valid.
Qed.

(** A block is taken over: it becomes the last block, and the configuration block
    if it is one. *)
Lemma BlockCommitted_run rtc block rtc' :
  BlockCommitted rtc block = Ok rtc' -> rtc_ok rtc \/ is_ok (ConfigFromBlock block) = true ->
  rtc_ok rtc' /\ rtc_id rtc' = rtc_id rtc /\ rtc_LastBlock rtc' = Some block /\
  rtc_LastConfigBlock rtc' = (if is_ok (ConfigFromBlock block) then Some block else rtc_LastConfigBlock rtc).
Proof.
  unfold BlockCommitted. intros H Hok. destruct (ConfigFromBlock block) as [ce|e|p] eqn:E; [|destruct Hok as [Hok|Hok]|done].
  - eapply configBlockCommitted_ok in H as (? & ? & ? & ?); done.
  - inv_run. split; [|done]. destruct Hok. split; cbn; eauto.
  - done.
Qed.

(** C33. Well-formedness of the runtime configuration: taking over a block,
    from a well-formed configuration or as the first configuration block,
    gives a well-formed one: the members are sorted and are exactly the nodes
    with an identity, the remote nodes are the members except oneself, the
    protocol parameters are valid and carry the node's own identifier, the
    recorded hash is that of the last block, and the last configuration block
    parses; the block is the last block, and the last configuration block
    exactly if it carries a configuration. *)
Theorem BlockCommitted_well_formed rtc block rtc' :
  BlockCommitted rtc block = Ok rtc' -> rtc_ok rtc \/ is_ok (ConfigFromBlock block) = true ->
  rtc_ok rtc' /\ rtc_id rtc' = rtc_id rtc /\ rtc_LastBlock rtc' = Some block /\
  rtc_LastConfigBlock rtc' = (if is_ok (ConfigFromBlock block) then Some block else rtc_LastConfigBlock rtc).
Proof. apply BlockCommitted_run. Qed.
End ConfigSpec.
