(* ===== verification/SmartBFT.v ===== *)
(** * Proposals and signatures of the SmartBFT orderer

    How a leader assembles a proposal (orderer/consensus/smartbft/assembler.go),
    how a node verifies it and the signatures on it (verifier.go), how it signs
    (signer.go), and the encodings in between (signature.go); the inspection of
    requests (util.go).

    [Verifier] holds the runtime configuration, the policies and the configuration
    sequence a node works with.  The nonce of a signature is an argument.  The
    transactions of a block are verified by goroutines, whose results arrive in
    an order that is an argument too. *)

From S2P Require Import Prelude BigEndian Asn1 FabricBlocks SmartBFTConfig.

(** ** Data *)

(** [types.Proposal], [types.Signature] and [types.RequestInfo] of the consensus
    library. *)
Record Proposal := {
  prop_Payload : bytes;
  prop_Header : bytes;
  prop_Metadata : bytes;
  prop_VerificationSequence : Z;
}.

Record types_Signature := { ts_ID : Z; ts_Value : bytes; ts_Msg : bytes }.

Record RequestInfo := { ri_ClientID : string; ri_ID : string }.

Definition zeroRequestInfo : RequestInfo := {| ri_ClientID := ""; ri_ID := "" |}.

(** [fabric:orderer/consensus/smartbft/signature.go:20-26] Signature *)
Record Signature := {
  Nonce : bytes;
  sig_SignatureHeader : bytes;
  sig_BlockHeader : bytes;
  sig_OrdererBlockMetadata : bytes;
  AuxiliaryInput : bytes;
}.

Record SignedData := { sd_Data : bytes; sd_Identity : bytes; sd_Signature : bytes }.

Definition Policy : Type := list SignedData -> outcome unit.

(** [fabric:orderer/consensus/smartbft/verifier.go:71-80] Verifier *)
Record Verifier := {
  v_RuntimeConfig : RuntimeConfig;
  ValidateIdentityStructure : SerializedIdentity -> outcome unit;
  GetPolicy : string -> option Policy;
  v_Sequence : Z;
  ValidatingChannel : string;
}.

(** The key of a node and its own identity. *)
Record SignerSerializer := { Sign : bytes -> outcome bytes; Serialize : outcome bytes }.

Section SmartBFT.
Context {Pb : Protobuf} {Certs : Certificates} {CC : ChannelConfig}.

(** ** Encodings *)

(** [fabric:orderer/consensus/smartbft/signature.go] Signature.Marshal *)
Definition Signature_Marshal (s : Signature) : bytes :=
  marshal_octets [Nonce s; sig_SignatureHeader s; sig_BlockHeader s; sig_OrdererBlockMetadata s; AuxiliaryInput s].

(** [fabric:orderer/consensus/smartbft/signature.go] Signature.Unmarshal *)
Definition Signature_Unmarshal (b : bytes) : outcome Signature :=
  l ← unmarshal_octets 5 b;
  match l with
  | [n; h; bh; md; aux] =>
      mret {| Nonce := n; sig_SignatureHeader := h; sig_BlockHeader := bh; sig_OrdererBlockMetadata := md;
              AuxiliaryInput := aux |}
  | _ => Err "asn1: structure error"
  end.

(** [fabric:orderer/consensus/smartbft/signature.go] Signature.AsBytes *)
Definition AsBytes (s : Signature) : bytes :=
  ConcatenateBytes [sig_OrdererBlockMetadata s; sig_SignatureHeader s; sig_BlockHeader s; AuxiliaryInput s].

(** [fabric:orderer/consensus/smartbft/assembler.go] ByteBufferTuple.ToBytes *)
Definition ByteBufferTuple_ToBytes (a b : bytes) : bytes := marshal_octets [a; b].

(** [fabric:orderer/consensus/smartbft/assembler.go] ByteBufferTuple.FromBytes *)
Definition ByteBufferTuple_FromBytes (bs : bytes) : outcome (bytes * bytes) :=
  l ← unmarshal_octets 2 bs;
  match l with [a; b] => mret (a, b) | _ => Err "asn1: structure error" end.

(** [fabric:orderer/consensus/smartbft/signature.go:57-67] ProposalToBlock *)
Definition unmarshal_header (b : bytes) : outcome BlockHeader :=
  '(n, l) ← unmarshal_int_octets 2 b;
  match l with
  | [prev; data] => mret {| Number := big_Uint64 n; PreviousHash := prev; DataHash := data |}
  | _ => Err "asn1: structure error"
  end.

(** [fabric:orderer/consensus/smartbft/signature.go] ProposalToBlock *)
Definition ProposalToBlock (proposal : Proposal) : outcome Block :=
  _ ← ensure (negb (bool_decide (prop_Header proposal = []))) "proposal header cannot be nil";
  hdr ← wrap "bad header" (unmarshal_header (prop_Header proposal));
  _ ← ensure (negb (bool_decide (prop_Payload proposal = []))) "proposal payload cannot be nil";
  '(a, b) ← wrap "bad payload and metadata tuple" (ByteBufferTuple_FromBytes (prop_Payload proposal));
  data ← wrap "bad payload" (Unmarshal pb_BlockData a);
  metadata ← wrap "bad metadata" (Unmarshal pb_BlockMetadata b);
  mret {| b_Header := hdr; b_Data := Some data; b_Metadata := Some metadata |}.

(** ** Assembling *)

(** [fabric:orderer/consensus/smartbft/assembler.go:89-105] singleConfigTxOrSeveralNonConfigTx *)
Fixpoint batch_loop (requests : list bytes) : outcome (list bytes) :=
  match requests with
  | [] => mret []
  | req :: rest =>
      envelope ← or_panic "Programming error, received bad envelope but should have validated it"
                   (UnmarshalEnvelope req);
      if IsConfigTransaction envelope then mret []
      else batch ← batch_loop rest; mret (req :: batch)
  end.

(** [fabric:orderer/consensus/smartbft/assembler.go] singleConfigTxOrSeveralNonConfigTx *)
Definition singleConfigTxOrSeveralNonConfigTx (requests : list bytes) : outcome (list bytes) :=
  batch ← batch_loop requests;
  match batch with
  | [] => req ← index requests 0; mret [req]
  | _ => mret batch
  end.

(** The number of the configuration block a block refers to: its own when it is
    one, the last one otherwise. *)
Definition last_config_number (rtc : RuntimeConfig) (block : Block) : outcome Z :=
  lcb ← deref (rtc_LastConfigBlock rtc);
  mret (if isConfigBlock block then Number (b_Header block) else Number (b_Header lcb)).

Definition orderer_metadata (lastConfig : Z) (metadata : bytes) : bytes :=
  Marshal pb_OrdererBlockMetadata {| obm_LastConfig := Some lastConfig; obm_ConsenterMetadata := metadata |}.

(** [fabric:orderer/consensus/smartbft/assembler.go:58-68] AssembleProposal *)
Definition set_block_metadata (lastConfig : Z) (metadata : bytes) (block : Block) : outcome Block :=
  m ← deref (b_Metadata block);
  m ← set_index m LAST_CONFIG
        (Marshal pb_Metadata {| md_Value := Marshal pb_LastConfig lastConfig; md_Signatures := [] |});
  m ← set_index m SIGNATURES
        (Marshal pb_Metadata {| md_Value := orderer_metadata lastConfig metadata; md_Signatures := [] |});
  mret (set_metadata m block).

(** [fabric:orderer/consensus/smartbft/assembler.go:50-52] AssembleProposal *)
Definition next_block (lastBlock : Block) (batch : list bytes) : outcome Block :=
  hash ← BlockHeader_Hash (b_Header lastBlock);
  let block := NewBlock (Number (b_Header lastBlock) +u 1) hash in
  mret {| b_Header := {| Number := Number (b_Header block); PreviousHash := PreviousHash (b_Header block);
                         DataHash := BlockData_Hash batch |};
          b_Data := Some batch;
          b_Metadata := b_Metadata block |}.

(** [fabric:orderer/consensus/smartbft/assembler.go:39-83] Assembler.AssembleProposal *)
Definition AssembleProposal (rtc : RuntimeConfig) (verificationSeq : Z) (metadata : bytes) (requests : list bytes)
  : outcome Proposal :=
  lastBlock ← deref (rtc_LastBlock rtc);
  _ ← or_panic "Programming error, no requests in proposal" (ensure (negb (bool_decide (requests = []))) "no requests");
  batch ← singleConfigTxOrSeveralNonConfigTx requests;
  block ← next_block lastBlock batch;
  lastConfig ← last_config_number rtc block;
  block ← set_block_metadata lastConfig metadata block;
  header ← BlockHeader_Bytes (b_Header block);
  data ← deref (b_Data block);
  md ← deref (b_Metadata block);
  mret {| prop_Header := header;
          prop_Payload := ByteBufferTuple_ToBytes (Marshal pb_BlockData data) (Marshal pb_BlockMetadata md);
          prop_Metadata := metadata;
          prop_VerificationSequence := i64 verificationSeq |}.

(** ** Signing *)

(** [fabric:orderer/consensus/smartbft/signer.go] Signer.newSignatureHeaderOrPanic *)
Definition newSignatureHeaderOrPanic (s : SignerSerializer) (nonce : bytes) : outcome SignatureHeader :=
  creator ← or_panic "cannot serialize the identity" (Serialize s);
  mret {| sh_Creator := creator; sh_Nonce := nonce |}.

(** [fabric:orderer/consensus/smartbft/signer.go] Signer.Sign *)
Definition Signer_Sign (s : SignerSerializer) (msg : bytes) : outcome bytes :=
  or_panic "Failed signing message" (Sign s msg).

(** [fabric:orderer/consensus/smartbft/signer.go] Signer.SignProposal *)
Definition SignProposal (id : Z) (s : SignerSerializer) (rtc : RuntimeConfig) (nonce : bytes) (proposal : Proposal)
    (auxiliaryInput : bytes) : outcome types_Signature :=
  block ← or_panic "Tried to sign bad proposal" (ProposalToBlock proposal);
  header ← BlockHeader_Bytes (b_Header block);
  sigHdr ← newSignatureHeaderOrPanic s nonce;
  lastConfig ← last_config_number rtc block;
  let sig := {|
    Nonce := nonce;
    sig_SignatureHeader := Marshal pb_SignatureHeader sigHdr;
    sig_BlockHeader := header;
    sig_OrdererBlockMetadata := orderer_metadata lastConfig (prop_Metadata proposal);
    AuxiliaryInput := auxiliaryInput;
  |} in
  value ← or_panic "cannot sign" (Sign s (AsBytes sig));
  let sig := {|
    Nonce := Nonce sig;
    sig_SignatureHeader := [];
    sig_BlockHeader := sig_BlockHeader sig;
    sig_OrdererBlockMetadata := sig_OrdererBlockMetadata sig;
    AuxiliaryInput := AuxiliaryInput sig;
  |} in
  mret {| ts_ID := id; ts_Value := value; ts_Msg := Signature_Marshal sig |}.

(** ** Requests *)

(** [fabric:orderer/consensus/smartbft/util.go:183-187] request *)
Record request := { req_sigHdr : SignatureHeader; req_envelope : Envelope; req_chHdr : ChannelHeader }.

(** [fabric:orderer/consensus/smartbft/util.go] RequestInspector.unwrapReq *)
Definition unwrapReq (req : bytes) : outcome request :=
  envelope ← UnmarshalEnvelope req;
  payload ← wrap "failed unmarshaling payload" (Unmarshal pb_Payload (env_Payload envelope));
  header ← ok_or (pl_Header payload) "no header in payload";
  sigHdr ← Unmarshal pb_SignatureHeader (ph_SignatureHeader header);
  _ ← ensure (negb (bool_decide (default [] (ph_ChannelHeader header) = []))) "no channel header in payload";
  chdr ← wrap "error unmarshaling channel header" (UnmarshalChannelHeader (default [] (ph_ChannelHeader header)));
  mret {| req_sigHdr := sigHdr; req_envelope := envelope; req_chHdr := chdr |}.

(** [fabric:orderer/consensus/smartbft/util.go] RequestInspector.requestIDFromSigHeader *)
Definition requestIDFromSigHeader (v : Verifier) (sigHdr : SignatureHeader) : outcome RequestInfo :=
  sID ← wrap "identity isn't an MSP Identity" (Unmarshal pb_SerializedIdentity (sh_Creator sigHdr));
  _ ← ValidateIdentityStructure v sID;
  let txID := sha256 (sh_Nonce sigHdr ++ sh_Creator sigHdr) in
  let clientID := sha256 (sh_Creator sigHdr) in
  mret {| ri_ID := hex_encode txID; ri_ClientID := hex_encode clientID |}.

(** [fabric:orderer/consensus/smartbft/util.go] RequestInspector.RequestID *)
Definition RequestID (v : Verifier) (rawReq : bytes) : outcome RequestInfo :=
  match (req ← unwrapReq rawReq; requestIDFromSigHeader v (req_sigHdr req)) with
  | Err _ => mret zeroRequestInfo
  | r => r
  end.

Fixpoint request_ids (v : Verifier) (txns : list bytes) : outcome (list RequestInfo) :=
  match txns with
  | [] => mret []
  | txn :: rest => req ← RequestID v txn; l ← request_ids v rest; mret (req :: l)
  end.

(** [fabric:orderer/consensus/smartbft/verifier.go] Verifier.RequestsFromProposal *)
Definition RequestsFromProposal (v : Verifier) (proposal : Proposal) : outcome (list RequestInfo) :=
  match ProposalToBlock proposal with
  | Err _ => mret []
  | Panic p => Panic p
  | Ok block => match b_Data block with None => mret [] | Some txns => request_ids v txns end
  end.

(** [fabric:orderer/consensus/smartbft/chain.go] chainACL.Evaluate *)
Definition chainACL_Evaluate (v : Verifier) (signatureSet : list SignedData) : outcome unit :=
  policy ← ok_or (GetPolicy v "/Channel/Writers") "could not find policy";
  wrap "permission denied" (policy signatureSet).

(** [fabric:orderer/consensus/smartbft/verifier.go] consenterVerifier.Evaluate *)
Definition consenterVerifier_Evaluate (v : Verifier) (signatureSet : list SignedData) : outcome unit :=
  policy ← ok_or (GetPolicy v "/Channel/Orderer/Writers") "could not find policy";
  policy signatureSet.

Definition is_config_type (t : Z) : bool := (t =? HeaderType_CONFIG) || (t =? HeaderType_ORDERER_TRANSACTION).

(** [fabric:orderer/consensus/smartbft/verifier.go] Verifier.verifyRequest *)
Definition verifyRequest (v : Verifier) (noConfigAllowed : bool) (rawRequest : bytes) : outcome RequestInfo :=
  req ← unwrapReq rawRequest;
  _ ← wrap "access denied" (chainACL_Evaluate v
        [{| sd_Identity := sh_Creator (req_sigHdr req); sd_Data := env_Payload (req_envelope req);
            sd_Signature := env_Signature (req_envelope req) |}]);
  let t := ch_Type (req_chHdr req) in
  _ ← ensure (negb (noConfigAllowed && negb (t =? HeaderType_ENDORSER_TRANSACTION)))
        "only endorser transactions can be sent with other transactions";
  _ ← ensure (is_config_type t || (t =? HeaderType_ENDORSER_TRANSACTION))
        "transaction of this type is not allowed to be included in blocks";
  _ ← (if is_config_type t then ValidateConfig (ValidatingChannel v) (req_envelope req) else mret tt);
  requestIDFromSigHeader v (req_sigHdr req).

(** [fabric:orderer/consensus/smartbft/verifier.go] Verifier.VerifyRequest *)
Definition VerifyRequest (v : Verifier) (rawRequest : bytes) : outcome RequestInfo := verifyRequest v false rawRequest.

(** ** Verifying proposals *)

(** [fabric:orderer/consensus/smartbft/verifier.go] verifyHashChain *)
Definition verifyHashChain (block : Block) (prevHeaderHash : string) : outcome unit :=
  _ ← ensure (String.eqb prevHeaderHash (hex_encode (PreviousHash (b_Header block)))) "unexpected previous header hash";
  data ← deref (b_Data block);
  ensure (String.eqb (hex_encode (DataHash (b_Header block))) (hex_encode (BlockData_Hash data))) "unexpected data hash".

(** The goroutines of [validateTransactions]: a panic of one takes the node down. *)
Fixpoint validations (verifyReq : bytes -> outcome RequestInfo) (l : list bytes) : outcome (list (outcome RequestInfo)) :=
  match l with
  | [] => mret []
  | payload :: rest =>
      match verifyReq payload with
      | Panic p => Panic p
      | r => vs ← validations verifyReq rest; mret (r :: vs)
      end
  end.

(** [fabric:orderer/consensus/smartbft/verifier.go:333-339] validateTransactions *)
Fixpoint collect (arrival : list nat) (vs : list (outcome RequestInfo)) (m : gmap nat RequestInfo)
  : outcome (gmap nat RequestInfo) :=
  match arrival with
  | [] => mret m
  | i :: rest =>
      match vs !! i with
      | None => collect rest vs m
      | Some r => info ← r; collect rest vs (<[i := info]> m)
      end
  end.

(** [fabric:orderer/consensus/smartbft/verifier.go:305-347] validateTransactions *)
Definition validateTransactions (arrival : list nat) (blockData : list bytes)
    (verifyReq : bool -> bytes -> outcome RequestInfo) : outcome (list RequestInfo) :=
  let noConfigAllowed := (1 <? length blockData)%nat in
  vs ← validations (verifyReq noConfigAllowed) blockData;
  indexToRequestInfo ← collect arrival vs ∅;
  mret ((fun i => default zeroRequestInfo (indexToRequestInfo !! i)) <$> seq 0 (length blockData)).

(** [fabric:orderer/consensus/smartbft/verifier.go] Verifier.verifyBlockDataAndMetadata *)
Definition verifyBlockDataAndMetadata (v : Verifier) (arrival : list nat) (block : Block) (metadata : bytes)
  : outcome (list RequestInfo) :=
  data ← ok_or (b_Data block) "empty block data";
  _ ← ensure (negb (bool_decide (data = []))) "empty block data";
  _ ← ensure (match b_Metadata block with Some m => (metadata_entries <=? length m)%nat | None => false end)
        "block metadata is either missing or contains too few entries";
  signatureMetadata ← GetMetadataFromBlock block SIGNATURES;
  ordererMD ← wrap "failed unmarshaling OrdererBlockMetadata"
                (Unmarshal pb_OrdererBlockMetadata (md_Value signatureMetadata));
  metadataInBlock ← wrap "failed unmarshaling smartbft metadata from block"
                      (Unmarshal pb_ViewMetadata (obm_ConsenterMetadata ordererMD));
  metadataFromProposal ← wrap "failed unmarshaling smartbft metadata from proposal" (Unmarshal pb_ViewMetadata metadata);
  _ ← ensure (bool_decide (metadataInBlock = metadataFromProposal)) "unexpected metadata in block";
  lastConfig ← last_config_number (v_RuntimeConfig v) block;
  index ← ok_or (obm_LastConfig ordererMD) "last config is nil";
  _ ← ensure (index =? lastConfig) "unexpected last config in block orderer metadata";
  rawLastConfig ← GetMetadataFromBlock block LAST_CONFIG;
  lastConf ← Unmarshal pb_LastConfig (md_Value rawLastConfig);
  _ ← ensure (lastConf =? lastConfig) "unexpected last config in block metadata";
  validateTransactions arrival data (verifyRequest v).

(** [fabric:orderer/consensus/smartbft/verifier.go] Verifier.VerifyProposal *)
Definition VerifyProposal (v : Verifier) (arrival : list nat) (proposal : Proposal) : outcome (list RequestInfo) :=
  block ← ProposalToBlock proposal;
  _ ← verifyHashChain block (LastCommittedBlockHash (v_RuntimeConfig v));
  requests ← verifyBlockDataAndMetadata v arrival block (prop_Metadata proposal);
  _ ← ensure (v_Sequence v =? u64 (prop_VerificationSequence proposal)) "unexpected verification sequence";
  mret requests.

(** ** Verifying signatures *)

(** [fabric:orderer/consensus/smartbft/verifier.go] Verifier.AuxiliaryData *)
Definition AuxiliaryData (msg : bytes) : outcome bytes :=
  match Signature_Unmarshal msg with
  | Ok sig => mret (AuxiliaryInput sig)
  | Err _ => mret []
  | Panic p => Panic p
  end.

(** [fabric:orderer/consensus/smartbft/verifier.go] Verifier.VerifySignature *)
Definition VerifySignature (v : Verifier) (signature : types_Signature) : outcome unit :=
  identity ← ok_or (ID2Identities (v_RuntimeConfig v) !! ts_ID signature) "node doesn't exist";
  chainACL_Evaluate v
    [{| sd_Identity := identity; sd_Data := ts_Msg signature; sd_Signature := ts_Value signature |}].

(** [fabric:orderer/consensus/smartbft/verifier.go] Verifier.verifySignatureIsBoundToProposal *)
Definition verifySignatureIsBoundToProposal (sig : Signature) (identity : bytes) (prop : Proposal) : outcome unit :=
  _ ← ensure (bool_decide (prop_Header prop = sig_BlockHeader sig)) "mismatched block header";
  sigHdr ← wrap "malformed signature header" (Unmarshal pb_SignatureHeader (sig_SignatureHeader sig));
  _ ← ensure (bool_decide (sh_Creator sigHdr = identity))
        "identity in signature header does not match expected identity";
  ordererMD ← wrap "malformed orderer metadata in signature"
                (Unmarshal pb_OrdererBlockMetadata (sig_OrdererBlockMetadata sig));
  _ ← ensure (bool_decide (obm_ConsenterMetadata ordererMD = prop_Metadata prop))
        "consenter metadata in OrdererBlockMetadata doesn't match proposal";
  block ← ProposalToBlock prop;
  md ← deref (b_Metadata block);
  _ ← ensure (length md =? metadata_entries)%nat "block metadata is of the wrong size";
  b ← index md SIGNATURES;
  signatureMetadata ← wrap "malformed signature metadata" (Unmarshal pb_Metadata b);
  ordererMDFromBlock ← wrap "malformed orderer metadata in block"
                         (Unmarshal pb_OrdererBlockMetadata (md_Value signatureMetadata));
  ensure (bool_decide (ordererMDFromBlock = ordererMD))
    "signature's OrdererBlockMetadata and OrdererBlockMetadata extracted from block do not match".

(** The signature header is rebuilt from the nonce and the identity. *)
Definition rebuild_header (sig : Signature) (identity : bytes) : Signature := {|
  Nonce := Nonce sig;
  sig_SignatureHeader := Marshal pb_SignatureHeader {| sh_Creator := identity; sh_Nonce := Nonce sig |};
  sig_BlockHeader := sig_BlockHeader sig;
  sig_OrdererBlockMetadata := sig_OrdererBlockMetadata sig;
  AuxiliaryInput := AuxiliaryInput sig;
|}.

(** [fabric:orderer/consensus/smartbft/verifier.go] Verifier.VerifyConsenterSig *)
Definition VerifyConsenterSig (v : Verifier) (signature : types_Signature) (prop : Proposal) : outcome bytes :=
  identity ← ok_or (ID2Identities (v_RuntimeConfig v) !! ts_ID signature) "node doesn't exist";
  sig ← wrap "malformed signature format" (Signature_Unmarshal (ts_Msg signature));
  let sig := rebuild_header sig identity in
  _ ← verifySignatureIsBoundToProposal sig identity prop;
  _ ← consenterVerifier_Evaluate v
        [{| sd_Signature := ts_Value signature; sd_Data := AsBytes sig; sd_Identity := identity |}];
  mret (AuxiliaryInput sig).
End SmartBFT.
