(* ===== verification/SmartBFTChain.v ===== *)
(** * The chain of a SmartBFT orderer

    Writing blocks to the ledger (orderer/common/multichannel/blockwriter.go,
    addBlock of common/ledger/blkstorage), delivering decisions and reading them
    back, ordering requests (orderer/consensus/smartbft/chain.go), catching up
    with other nodes (synchronizer.go), dispatching received messages
    (ingress.go, consenter.go), and verifying blocks received from other nodes
    (orderer/common/cluster/util.go).

    The block writer works synchronously for SmartBFT channels
    (newChainSupport), so a block is in the ledger when [WriteBlock] returns.
    The block is a shared object: the writer adds to the metadata of the block
    the chain holds, so the chain goes on with the writer's last block. *)

From S2P Require Import Prelude Randomness BFTMessages FabricFuzzer BigEndian Asn1.
From S2P Require Import FabricBlocks SmartBFTConfig SmartBFT.

(** ** Data *)

(** A configuration as the channel uses it: its sequence number and orderer
    section. *)
Record Bundle := { bundle_Sequence : Z; bundle_OrdererConfig : option OrdererConfig }.

(** The configuration machinery of a channel.  Validation and creation of bundles
    are in common/configtx and common/channelconfig; [Validate_config] takes the
    current sequence. *)
Class ConfigTx := {
  Validate_config : Z -> ConfigEnvelope -> outcome unit;
  CreateBundle : string -> option bytes -> outcome Bundle;
  ProcessNormalMsg : Envelope -> outcome unit;
  ProcessConfigMsg : Envelope -> outcome Envelope;
  pb_PreparesFrom : Codec (list Z);
}.

(** Only the next sequence is valid. *)
Class ConfigTxOk `{!ConfigTx} : Prop := {
  validated_sequence seq env ch b :
    Validate_config seq env = Ok tt -> CreateBundle ch (ce_Config env) = Ok b -> bundle_Sequence b = seq +u 1;
  PreparesFrom_ok : codec_ok pb_PreparesFrom;
}.

(** [fabric:orderer/common/multichannel/blockwriter.go:35-43] BlockWriter *)
Record Support := {
  sup_Ledger : Ledger;
  sup_Sequence : Z;
  sup_ConsensusType : string;
  lastConfigBlockNum : Z;
  lastConfigSeq : Z;
  lastBlock : Block;
  sup_newChains : list Envelope;
}.

Record Reconfig := { InLatestDecision : bool; CurrentNodes : list Z; CurrentConfig : Configuration }.

Definition zeroReconfig : Reconfig :=
  {| InLatestDecision := false; CurrentNodes := []; CurrentConfig := zeroConfiguration |}.

Record Decision := { d_Proposal : Proposal; d_Signatures : list types_Signature }.

(** The state of a chain: what the code reaches from a [BFTChain], whether it was
    halted, and the members last passed to [Comm.Configure]. *)
Record BFTChain := {
  c_RuntimeConfig : RuntimeConfig;
  c_support : Support;
  c_halted : bool;
  c_members : list RemoteNode;
}.

(** [fabric:orderer/common/cluster/util.go:181-191] BlockVerifier *)
Class BlockVerifier := {
  bv_VerifyBlockSignature : list SignedData -> option ConfigEnvelope -> outcome unit;
  Id2Identity : option ConfigEnvelope -> outcome (gmap Z bytes);
}.

(** [fabric:orderer/consensus/smartbft/chain.go:42-46] BlockPuller *)
Class BlockPuller := {
  PullBlock : Z -> option Block;
  HeightsByEndpoints : outcome (list (string * Z));
}.

Section Chain.
Context {Pb : Protobuf} {Certs : Certificates} {CC : ChannelConfig} {Tx : ConfigTx}.

(** ** The ledger and its writer *)

(** The hash of the last block; an empty ledger has none. *)
Definition CurrentBlockHash (l : Ledger) : outcome bytes :=
  match last l with
  | None => mret []
  | Some b => BlockHeader_Hash (b_Header b)
  end.

(** [fabric:common/ledger/blkstorage/fsblkstorage/blockfile_mgr.go:240-258] blockfileMgr.addBlock *)
Definition Append (l : Ledger) (block : Block) : outcome Ledger :=
  _ ← ensure (Number (b_Header block) =? Height l) "unexpected block number";
  current ← CurrentBlockHash l;
  _ ← ensure (bool_decide (PreviousHash (b_Header block) = current)) "unexpected Previous block hash";
  mret (l ++ [block]).

Definition put_metadata (i : nat) (m : bytes) (block : Block) : outcome Block :=
  md ← deref (b_Metadata block);
  md ← set_index md i m;
  mret (set_metadata md block).

(** [fabric:orderer/common/multichannel/blockwriter.go] BlockWriter.addLastConfigSignature *)
Definition addLastConfigSignature (s : Support) (block : Block) : outcome (Support * Block) :=
  let configSeq := sup_Sequence s in
  let advanced := lastConfigSeq s <? configSeq in
  let num := if advanced then Number (b_Header block) else lastConfigBlockNum s in
  let seq := if advanced then configSeq else lastConfigSeq s in
  block ← put_metadata LAST_CONFIG
            (Marshal pb_Metadata {| md_Value := Marshal pb_LastConfig num; md_Signatures := [] |}) block;
  mret ({| sup_Ledger := sup_Ledger s; sup_Sequence := sup_Sequence s; sup_ConsensusType := sup_ConsensusType s;
           lastConfigBlockNum := num; lastConfigSeq := seq; lastBlock := lastBlock s;
           sup_newChains := sup_newChains s |}, block).

(** [fabric:orderer/common/multichannel/blockwriter.go] BlockWriter.addBlockSignature *)
Definition addBlockSignature (signer : SignerSerializer) (nonce : bytes) (s : Support) (block : Block) : outcome Block :=
  hdr ← newSignatureHeaderOrPanic signer nonce;
  let signatureHeader := Marshal pb_SignatureHeader hdr in
  consenterMD ← metadata_at block ORDERER;
  let value := orderer_metadata (lastConfigBlockNum s) consenterMD in
  header ← BlockHeader_Bytes (b_Header block);
  signature ← or_panic "cannot sign" (Sign signer (ConcatenateBytes [value; signatureHeader; header]));
  put_metadata SIGNATURES
    (Marshal pb_Metadata {|
       md_Value := value;
       md_Signatures := [{| ms_SignatureHeader := signatureHeader; ms_Signature := signature; ms_Nonce := [];
                            ms_SignerId := 0; ms_AuxiliaryInput := [] |}] |}) block.

(** [fabric:orderer/common/multichannel/blockwriter.go] BlockWriter.commitBlock *)
Definition commitBlock (signer : SignerSerializer) (nonce : bytes) (s : Support) (encodedMetadataValue : option bytes)
  : outcome Support :=
  block ← match encodedMetadataValue with
          | None => mret (lastBlock s)
          | Some v => put_metadata ORDERER (Marshal pb_Metadata {| md_Value := v; md_Signatures := [] |}) (lastBlock s)
          end;
  '(s, block) ← addLastConfigSignature s block;
  signatures ← metadata_at block SIGNATURES;
  block ← (if bool_decide (signatures = []) then addBlockSignature signer nonce s block else mret block);
  ledger ← or_panic "Could not append block" (Append (sup_Ledger s) block);
  mret {| sup_Ledger := ledger; sup_Sequence := sup_Sequence s; sup_ConsensusType := sup_ConsensusType s;
          lastConfigBlockNum := lastConfigBlockNum s; lastConfigSeq := lastConfigSeq s; lastBlock := block;
          sup_newChains := sup_newChains s |}.

(** [fabric:orderer/common/multichannel/blockwriter.go:170-190] BlockWriter.WriteBlock *)
Definition WriteBlock (signer : SignerSerializer) (nonce : bytes) (s : Support) (block : Block)
    (encodedMetadataValue : option bytes) : outcome Support :=
  commitBlock signer nonce
    {| sup_Ledger := sup_Ledger s; sup_Sequence := sup_Sequence s; sup_ConsensusType := sup_ConsensusType s;
       lastConfigBlockNum := lastConfigBlockNum s; lastConfigSeq := lastConfigSeq s; lastBlock := block;
       sup_newChains := sup_newChains s |} encodedMetadataValue.

(** [bw.support.Update(bundle)]. *)
Definition Update (bundle : Bundle) (oc : OrdererConfig) (s : Support) : Support :=
  {| sup_Ledger := sup_Ledger s; sup_Sequence := bundle_Sequence bundle; sup_ConsensusType := oc_ConsensusType oc;
     lastConfigBlockNum := lastConfigBlockNum s; lastConfigSeq := lastConfigSeq s; lastBlock := lastBlock s;
     sup_newChains := sup_newChains s |}.

(** [bw.registrar.newChain(config)]: the chain that is created is another one. *)
Definition newChain (config : Envelope) (s : Support) : Support :=
  {| sup_Ledger := sup_Ledger s; sup_Sequence := sup_Sequence s; sup_ConsensusType := sup_ConsensusType s;
     lastConfigBlockNum := lastConfigBlockNum s; lastConfigSeq := lastConfigSeq s; lastBlock := lastBlock s;
     sup_newChains := sup_newChains s ++ [config] |}.

(** [fabric:orderer/common/multichannel/blockwriter.go:94-162] BlockWriter.WriteConfigBlock *)
Definition WriteConfigBlock (signer : SignerSerializer) (nonce : bytes) (s : Support) (block : Block)
    (encodedMetadataValue : option bytes) : outcome Support :=
  ctx ← or_panic "Told to write a config block, but could not get configtx" (ExtractEnvelope block 0);
  payload ← or_panic "Told to write a config block, but configtx payload is invalid" (UnmarshalPayload (env_Payload ctx));
  header ← or_panic "Told to write a config block, but configtx payload header is missing"
             (ok_or (pl_Header payload) "no header");
  chdr ← or_panic "Told to write a config block with an invalid channel header"
           (UnmarshalChannelHeader (default [] (ph_ChannelHeader header)));
  if ch_Type chdr =? HeaderType_ORDERER_TRANSACTION then
    newChannelConfig ← or_panic "did not have config update embedded" (UnmarshalEnvelope (pl_Data payload));
    WriteBlock signer nonce (newChain newChannelConfig s) block encodedMetadataValue
  else if ch_Type chdr =? HeaderType_CONFIG then
    configEnvelope ← or_panic "did not have config envelope encoded" (Unmarshal pb_ConfigEnvelope (pl_Data payload));
    _ ← or_panic "could not apply the new config" (Validate_config (sup_Sequence s) configEnvelope);
    bundle ← or_panic "could not convert the new config to a bundle"
               (CreateBundle (ch_ChannelId chdr) (ce_Config configEnvelope));
    oc ← or_panic "OrdererConfig missing from bundle" (ok_or (bundle_OrdererConfig bundle) "missing");
    let encodedMetadataValue :=
      if String.eqb (sup_ConsensusType s) (oc_ConsensusType oc) then encodedMetadataValue else None in
    WriteBlock signer nonce (Update bundle oc s) block encodedMetadataValue
  else Panic "Told to write a config block with unknown header type".

(** ** Decisions *)

(** [fabric:orderer/consensus/smartbft/chain.go] BFTChain.updateRuntimeConfig *)
Definition updateRuntimeConfig (c : BFTChain) (block : Block) : outcome (Reconfig * BFTChain) :=
  let prevRTC := c_RuntimeConfig c in
  match BlockCommitted prevRTC block with
  | Panic p => Panic p
  | Err _ =>
      mret (zeroReconfig, {| c_RuntimeConfig := prevRTC; c_support := c_support c; c_halted := true;
                             c_members := c_members c |})
  | Ok newRTC =>
      let membershipDidNotChange := bool_decide (rtc_Nodes newRTC = rtc_Nodes prevRTC) in
      let configDidNotChange := bool_decide (BFTConfig newRTC = BFTConfig prevRTC) in
      mret ({| InLatestDecision := negb (membershipDidNotChange && configDidNotChange);
               CurrentNodes := rtc_Nodes newRTC;
               CurrentConfig := BFTConfig newRTC |},
            {| c_RuntimeConfig := newRTC; c_support := c_support c; c_halted := c_halted c;
               c_members := if IsConfigBlock block then RemoteNodes newRTC else c_members c |})
  end.

(** [fabric:orderer/consensus/smartbft/chain.go:361-366] Deliver *)
Definition write_block (signer : SignerSerializer) (nonce : bytes) (s : Support) (block : Block) : outcome Support :=
  if IsConfigBlock block then WriteConfigBlock signer nonce s block None else WriteBlock signer nonce s block None.

(** [fabric:orderer/consensus/smartbft/chain.go:314-341] Deliver *)
Fixpoint metadata_signatures (signatures : list types_Signature) : outcome (list (bytes * MetadataSignature)) :=
  match signatures with
  | [] => mret []
  | s :: rest =>
      sig ← Signature_Unmarshal (ts_Msg s);
      l ← metadata_signatures rest;
      mret ((sig_OrdererBlockMetadata sig,
             {| ms_SignatureHeader := []; ms_Signature := ts_Value s; ms_Nonce := Nonce sig; ms_SignerId := ts_ID s;
                ms_AuxiliaryInput := AuxiliaryInput sig |}) :: l)
  end.

(** [fabric:orderer/consensus/smartbft/chain.go] BFTChain.Deliver *)
Definition Deliver (signer : SignerSerializer) (nonce : bytes) (c : BFTChain) (proposal : Proposal)
    (signatures : list types_Signature) : outcome (Reconfig * BFTChain) :=
  block ← or_panic "failed to read proposal" (ProposalToBlock proposal);
  match metadata_signatures signatures with
  | Panic p => Panic p
  | Err _ =>
      mret (zeroReconfig, {| c_RuntimeConfig := c_RuntimeConfig c; c_support := c_support c; c_halted := true;
                             c_members := c_members c |})
  | Ok sigs =>
      let ordererBlockMetadata := default [] (head (fst <$> sigs)) in
      block ← put_metadata SIGNATURES
                (Marshal pb_Metadata {| md_Value := ordererBlockMetadata; md_Signatures := snd <$> sigs |}) block;
      support ← write_block signer nonce (c_support c) block;
      updateRuntimeConfig {| c_RuntimeConfig := c_RuntimeConfig c; c_support := support; c_halted := c_halted c;
                             c_members := c_members c |} (lastBlock support)
  end.

(** [fabric:orderer/consensus/smartbft/chain.go:489-495] blockToProposalWithoutSignaturesInMetadata *)
Definition without_signatures (block : Block) : outcome Block :=
  md ← deref (b_Metadata block);
  match md !! SIGNATURES with
  | None => mret block
  | Some b =>
      let value := match Unmarshal pb_Metadata b with Ok m => md_Value m | _ => [] end in
      put_metadata SIGNATURES (Marshal pb_Metadata {| md_Value := value; md_Signatures := [] |}) block
  end.

(** [fabric:orderer/consensus/smartbft/chain.go] BFTChain.blockToProposalWithoutSignaturesInMetadata *)
Definition blockToProposalWithoutSignaturesInMetadata (verificationSeq : Z) (block : Block) : outcome Proposal :=
  clone ← without_signatures block;
  header ← BlockHeader_Bytes (b_Header clone);
  data ← deref (b_Data clone);
  md ← deref (b_Metadata clone);
  mret {| prop_Header := header;
          prop_Payload := ByteBufferTuple_ToBytes (Marshal pb_BlockData data) (Marshal pb_BlockMetadata md);
          prop_Metadata := [];
          prop_VerificationSequence :=
            if isConfigBlock block then i64 (i64 verificationSeq - 1) else i64 verificationSeq |}.

(** [fabric:orderer/consensus/smartbft/chain.go:532-552] blockToDecision *)
Fixpoint library_signatures (header value : bytes) (sigs : list MetadataSignature) : list types_Signature :=
  match sigs with
  | [] => []
  | sigMD :: rest =>
      let sig := {| Nonce := ms_Nonce sigMD; sig_SignatureHeader := []; sig_BlockHeader := header;
                    sig_OrdererBlockMetadata := value; AuxiliaryInput := ms_AuxiliaryInput sigMD |} in
      let l := library_signatures header value rest in
      match Unmarshal pb_PreparesFrom (ms_AuxiliaryInput sigMD) with
      | Ok _ => {| ts_Msg := Signature_Marshal sig; ts_Value := ms_Signature sigMD; ts_ID := ms_SignerId sigMD |} :: l
      | _ => l
      end
  end.

(** [fabric:orderer/consensus/smartbft/chain.go] BFTChain.blockToDecision *)
Definition blockToDecision (verificationSeq : Z) (block : Block) : outcome Decision :=
  proposal ← blockToProposalWithoutSignaturesInMetadata verificationSeq block;
  if Number (b_Header block) =? 0 then mret {| d_Proposal := proposal; d_Signatures := [] |}
  else
    b ← metadata_at block SIGNATURES;
    signatureMetadata ← or_panic "Failed unmarshaling signatures from block metadata" (Unmarshal pb_Metadata b);
    ordererMD ← or_panic "Failed unmarshaling OrdererBlockMetadata from block signature metadata"
                  (Unmarshal pb_OrdererBlockMetadata (md_Value signatureMetadata));
    header ← BlockHeader_Bytes (b_Header block);
    mret {| d_Proposal := {| prop_Payload := prop_Payload proposal; prop_Header := prop_Header proposal;
                             prop_Metadata := obm_ConsenterMetadata ordererMD;
                             prop_VerificationSequence := prop_VerificationSequence proposal |};
            d_Signatures := library_signatures header (md_Value signatureMetadata) (md_Signatures signatureMetadata) |}.

(** [fabric:orderer/consensus/smartbft/chain.go] BFTChain.blockToID2Identities *)
Definition blockToID2Identities (block : Block) : outcome (gmap Z bytes) :=
  env ← or_panic "Failed unmarshaling envelope of previous config block" (first_envelope block);
  oc ← or_panic "Failed getting a new bundle from envelope of previous config block" (NewBundleFromEnvelope env);
  oc ← or_panic "Orderer config of previous config block is nil" (ok_or oc "nil");
  m ← or_panic "Failed to unmarshal consensus metadata" (Unmarshal pb_ConfigMetadata (oc_ConsensusMetadata oc));
  foldl (fun acc consenter =>
           ids ← acc;
           sanitizedID ← or_panic "Failed to sanitize identity" (SanitizeIdentity (Identity consenter));
           mret (<[ConsenterId consenter := sanitizedID]> ids))
    (mret ∅) (cm_Consenters m).

(** ** Starting *)

(** [fabric:orderer/consensus/smartbft/assembler.go] lastConfigBlockFromLedger *)
Definition lastConfigBlockFromLedger (l : Ledger) : outcome Block :=
  lastBlock ← ok_or (ledger_Block l (Height l -u 1)) "unable to retrieve block";
  LastConfigBlock lastBlock l.

(** [fabric:orderer/consensus/smartbft/assembler.go] previousConfigBlockFromLedger *)
Definition previousConfigBlockFromLedger (l : Ledger) : outcome Block :=
  let previousBlockSeq := if Height l =? 1 then 0 else Height l -u 2 in
  previousBlock ← ok_or (ledger_Block l previousBlockSeq) "unable to retrieve block";
  LastConfigBlock previousBlock l.

(** [fabric:orderer/consensus/smartbft/assembler.go] LastBlockFromLedgerOrPanic *)
Definition LastBlockFromLedgerOrPanic (l : Ledger) : outcome Block :=
  or_panic "Failed retrieving last block" (ok_or (ledger_Block l (Height l -u 1)) "nil").

(** [fabric:orderer/consensus/smartbft/assembler.go] LastConfigBlockFromLedgerOrPanic *)
Definition LastConfigBlockFromLedgerOrPanic (l : Ledger) : outcome Block :=
  or_panic "Failed retrieving last config block" (lastConfigBlockFromLedger l).

(** A runtime configuration before any block: only the identifier is set. *)
Definition blankRuntimeConfig (selfID : Z) : RuntimeConfig := {|
  BFTConfig := zeroConfiguration; isConfig := false; rtc_id := selfID; LastCommittedBlockHash := "";
  RemoteNodes := []; ID2Identities := ∅; rtc_LastBlock := None; rtc_LastConfigBlock := None; rtc_Nodes := [];
|}.

(** [fabric:orderer/consensus/smartbft/chain.go:132-148] NewChain *)
Definition initialRuntimeConfig (selfID : Z) (l : Ledger) : outcome RuntimeConfig :=
  lastBlock ← LastBlockFromLedgerOrPanic l;
  lastConfigBlock ← LastConfigBlockFromLedgerOrPanic l;
  rtc ← wrap "failed constructing RuntimeConfig" (BlockCommitted (blankRuntimeConfig selfID) lastConfigBlock);
  wrap "failed constructing RuntimeConfig" (BlockCommitted rtc lastBlock).

(** [fabric:orderer/common/multichannel/blockwriter.go:45-66] newBlockWriter *)
Definition newBlockWriter (l : Ledger) (sequence : Z) (consensusType : string) (last : Block) : outcome Support :=
  num ← (if Number (b_Header last) =? 0 then mret 0
         else or_panic "Error extracting last config block from block metadata" (GetLastConfigIndexFromBlock last));
  mret {| sup_Ledger := l; sup_Sequence := sequence; sup_ConsensusType := consensusType; lastConfigBlockNum := num;
          lastConfigSeq := sequence; lastBlock := last; sup_newChains := [] |}.

(** [fabric:orderer/consensus/smartbft/chain.go] BFTChain.lastPersistedProposalAndSignatures *)
Definition lastPersistedProposalAndSignatures (c : BFTChain) : outcome (Proposal * list types_Signature) :=
  lastBlock ← LastBlockFromLedgerOrPanic (sup_Ledger (c_support c));
  decision ← blockToDecision (sup_Sequence (c_support c)) lastBlock;
  mret (d_Proposal decision, d_Signatures decision).

(** ** Synchronizing *)

(** [fabric:orderer/consensus/smartbft/synchronizer.go] Synchronizer.computeTargetHeight *)
Definition computeTargetHeight (nodes : list Z) (heights : list Z) : outcome Z :=
  let heights := merge_sort Z.ge heights in
  let f := Z.to_nat (u64 (Z.quot (Z.of_nat (length nodes) - 1) 3)) in
  if (length heights <? f + 1)%nat then
    _ ← index heights 0;
    index heights (length heights - 1)
  else index heights f.

(** The synchronizer works on the chain and remembers the last reconfiguration. *)
Record SyncState := { sync_chain : BFTChain; lastReconfig : Reconfig }.

(** [fabric:orderer/consensus/smartbft/synchronizer.go:109-128] synchronize *)
Fixpoint pull_loop `{!BlockPuller} (signer : SignerSerializer) (nonce : bytes) (fuel : nat) (seq targetSeq : Z)
    (lastPulledBlock : option Block) (s : SyncState) : outcome (option Block * Z * SyncState) :=
  match fuel with
  | O => mret (lastPulledBlock, seq, s)
  | S fuel =>
      if targetSeq <? seq then mret (lastPulledBlock, seq, s)
      else
        match PullBlock seq with
        | None => mret (lastPulledBlock, seq, s)
        | Some block =>
            let c := sync_chain s in
            support ← write_block signer nonce (c_support c) block;
            let block := lastBlock support in
            '(reconfig, c) ← updateRuntimeConfig
              {| c_RuntimeConfig := c_RuntimeConfig c; c_support := support; c_halted := c_halted c;
                 c_members := c_members c |} block;
            let reconfig := {| InLatestDecision := InLatestDecision reconfig || InLatestDecision (lastReconfig s);
                               CurrentNodes := CurrentNodes reconfig; CurrentConfig := CurrentConfig reconfig |} in
            pull_loop signer nonce fuel (seq +u 1) targetSeq (Some block)
              {| sync_chain := c; lastReconfig := reconfig |}
        end
  end.

(** A synchronization gives a decision or an error, and a state in both cases. *)
Definition sync_result : Type := (Decision + error) * SyncState.

(** [fabric:orderer/consensus/smartbft/synchronizer.go] Synchronizer.synchronize *)
Definition synchronize `{!BlockPuller} (signer : SignerSerializer) (nonce : bytes) (s : SyncState) : outcome sync_result :=
  match HeightsByEndpoints with
  | Panic p => Panic p
  | Err e => mret (inr ("cannot get HeightsByEndpoints: " +:+ e), s)
  | Ok heightByEndpoint =>
      if bool_decide (heightByEndpoint = []) then mret (inr "no cluster members to synchronize with", s)
      else
        targetHeight ← computeTargetHeight (rtc_Nodes (c_RuntimeConfig (sync_chain s))) (snd <$> heightByEndpoint);
        let startHeight := Height (sup_Ledger (c_support (sync_chain s))) in
        if targetHeight <=? startHeight then mret (inr "already at the height", s)
        else
          '(last, _, s') ← pull_loop signer nonce (Z.to_nat (targetHeight - startHeight)) startHeight
                             (targetHeight -u 1) None s;
          match last with
          | None => mret (inr "failed pulling block", s')
          | Some block =>
              (* The view metadata is read for the log; reading it can panic. *)
              _ ← match getViewMetadataFromBlock block with Panic p => Panic p | _ => mret tt end;
              decision ← blockToDecision (sup_Sequence (c_support (sync_chain s'))) block;
              mret (inl decision, s')
          end
  end.

Record SyncResponse := { Latest : Decision; sr_Reconfig : Reconfig }.

(** [fabric:orderer/consensus/smartbft/synchronizer.go] Synchronizer.Sync *)
Definition Sync `{!BlockPuller} (signer : SignerSerializer) (nonce : bytes) (s : SyncState)
  : outcome (SyncResponse * SyncState) :=
  '(r, s) ← synchronize signer nonce s;
  match r with
  | inr _ =>
      let c := sync_chain s in
      block ← deref (ledger_Block (sup_Ledger (c_support c)) (Height (sup_Ledger (c_support c)) -u 1));
      decision ← blockToDecision (sup_Sequence (c_support c)) block;
      mret ({| Latest := decision;
               sr_Reconfig := {| InLatestDecision := false; CurrentNodes := rtc_Nodes (c_RuntimeConfig c);
                                 CurrentConfig := BFTConfig (c_RuntimeConfig c) |} |}, s)
  | inl decision =>
      mret ({| Latest := decision; sr_Reconfig := lastReconfig s |},
            {| sync_chain := sync_chain s; lastReconfig := zeroReconfig |})
  end.

(** ** Verifying received blocks *)

(** [fabric:orderer/common/cluster/util.go] VerifyBlockHash *)
Definition VerifyBlockHash (indexInBuffer : nat) (blockBuff : list Block) : outcome unit :=
  block ← ok_or (blockBuff !! indexInBuffer) "index out of bounds";
  data ← deref (b_Data block);
  _ ← ensure (bool_decide (BlockData_Hash data = DataHash (b_Header block)))
        "computed hash of block doesn't match claimed hash";
  match indexInBuffer with
  | O => mret tt
  | S i =>
      prevBlock ← index blockBuff i;
      _ ← ensure (Number (b_Header prevBlock) +u 1 =? Number (b_Header block)) "sequences were received consecutively";
      hash ← BlockHeader_Hash (b_Header prevBlock);
      ensure (bool_decide (PreviousHash (b_Header block) = hash)) "block's hash mismatches prev block hash"
  end.

(** The identities a node passes to the extraction of signatures: those of the
    configuration, as they are there.
    [fabric:orderer/common/multichannel/chainsupport.go:207-212] ChainSupport.Id2Identity *)
Definition consenter_identities (consenters : list Consenter) : gmap Z bytes :=
  fold_left (fun res consenter => <[ConsenterId consenter := Identity consenter]> res) consenters ∅.

(** From the consensus metadata, which is the channel's own or that of the
    envelope.
    [fabric:orderer/common/multichannel/chainsupport.go:190-214] ChainSupport.Id2Identity *)
Definition ChainSupport_Id2Identity (consensusMD : bytes) : outcome (gmap Z bytes) :=
  m ← or_panic "Failed unmarshaling ConfigMetadata from metadata" (Unmarshal pb_ConfigMetadata consensusMD);
  mret (consenter_identities (cm_Consenters m)).

(** [fabric:orderer/common/cluster/util.go:349-373] SignatureSetFromBlock *)
Fixpoint signature_set (header value : bytes) (id2identities : gmap Z bytes) (sigs : list MetadataSignature)
  : outcome (list SignedData) :=
  match sigs with
  | [] => mret []
  | ms :: rest =>
      '(identity, hdr) ←
        (if bool_decide (ms_SignatureHeader ms = []) then
           let identity := default [] (id2identities !! ms_SignerId ms) in
           mret (identity, Marshal pb_SignatureHeader {| sh_Creator := identity; sh_Nonce := ms_Nonce ms |})
         else
           sigHdr ← wrap "failed unmarshaling signature header for block"
                      (Unmarshal pb_SignatureHeader (ms_SignatureHeader ms));
           mret (sh_Creator sigHdr, ms_SignatureHeader ms));
      l ← signature_set header value id2identities rest;
      mret ({| sd_Identity := identity; sd_Data := ConcatenateBytes [value; hdr; header; ms_AuxiliaryInput ms];
               sd_Signature := ms_Signature ms |} :: l)
  end.

(** [fabric:orderer/common/cluster/util.go] SignatureSetFromBlock *)
Definition SignatureSetFromBlock (block : Block) (id2identities : gmap Z bytes) : outcome (list SignedData) :=
  _ ← ensure (match b_Metadata block with Some m => (SIGNATURES <? length m)%nat | None => false end)
        "no metadata in block";
  metadata ← wrap "failed unmarshaling medatata for signatures" (GetMetadataFromBlock block SIGNATURES);
  header ← match md_Signatures metadata with [] => mret [] | _ => BlockHeader_Bytes (b_Header block) end;
  signature_set header (md_Value metadata) id2identities (md_Signatures metadata).

(** [fabric:orderer/common/cluster/util.go] VerifyBlockSignature *)
Definition VerifyBlockSignature `{!BlockVerifier} (block : Block) (config : option ConfigEnvelope) : outcome unit :=
  id2identities ← Id2Identity config;
  signatureSet ← SignatureSetFromBlock block id2identities;
  bv_VerifyBlockSignature signatureSet config.

(** [fabric:orderer/common/cluster/util.go:219-223] verifyBlockSequence *)
Fixpoint verify_hashes (indices : list nat) (blockBuff : list Block) : outcome unit :=
  match indices with
  | [] => mret tt
  | i :: rest => _ ← VerifyBlockHash i blockBuff; verify_hashes rest blockBuff
  end.

(** [fabric:orderer/common/cluster/util.go:230-245] verifyBlockSequence *)
Fixpoint verify_signatures `{!BlockVerifier} (alwaysCheckSig : bool) (blocks : list Block)
    (config : option ConfigEnvelope) (isLastBlockConfigBlock : bool) : outcome (option ConfigEnvelope * bool) :=
  match blocks with
  | [] => mret (config, isLastBlockConfigBlock)
  | block :: rest =>
      let check configFromBlock :=
        _ ← VerifyBlockSignature block config; verify_signatures alwaysCheckSig rest configFromBlock true in
      match ConfigFromBlock block with
      | Panic p => Panic p
      | Ok configFromBlock => check (Some configFromBlock)
      | Err e =>
          if alwaysCheckSig then check None
          else if String.eqb e "not a config block" then verify_signatures alwaysCheckSig rest config false
          else Err e
      end
  end.

(** [fabric:orderer/common/cluster/util.go] verifyBlockSequence *)
Definition verifyBlockSequence `{!BlockVerifier} (blockBuff : list Block) (alwaysCheckSig : bool) : outcome unit :=
  _ ← ensure (negb (bool_decide (blockBuff = []))) "buffer is empty";
  _ ← verify_hashes (seq 0 (length blockBuff)) blockBuff;
  '(config, isLastBlockConfigBlock) ← verify_signatures alwaysCheckSig blockBuff None false;
  if isLastBlockConfigBlock : bool then mret tt
  else lastBlock ← deref (last blockBuff); VerifyBlockSignature lastBlock config.

(** [fabric:orderer/common/cluster/util.go] VerifyBlocksBFT *)
Definition VerifyBlocksBFT `{!BlockVerifier} (blockBuff : list Block) : outcome unit := verifyBlockSequence blockBuff true.

(** [fabric:orderer/common/cluster/util.go] VerifyBlocksCFT *)
Definition VerifyBlocksCFT `{!BlockVerifier} (blockBuff : list Block) : outcome unit := verifyBlockSequence blockBuff false.
End Chain.

(** ** Ordering requests

    The chain keeps every request as a seed of the transaction fuzzer before it
    gives it to the consensus library; the result is what the library gets. *)

Section Order.
Context {Rnd : Randomness} {Pb : Protobuf} {Certs : Certificates} {CC : ChannelConfig} {Tx : ConfigTx}.

(** [fabric:orderer/consensus/smartbft/chain.go] BFTChain.submit *)
Definition submit (env : Envelope) : GoM FuzzState bytes :=
  let reqBytes := Marshal pb_Envelope env in
  addTx reqBytes;;
  mret reqBytes.

(** [fabric:orderer/consensus/smartbft/chain.go] BFTChain.Order *)
Definition Order (sequence : Z) (env : Envelope) (configSeq : Z) : GoM FuzzState bytes :=
  lift (if configSeq <? sequence then wrap "bad normal message" (ProcessNormalMsg env) else mret tt);;
  submit env.

(** [fabric:orderer/consensus/smartbft/chain.go] BFTChain.Configure *)
Definition Configure (validatingChannel : string) (sequence : Z) (config : Envelope) (configSeq : Z)
  : GoM FuzzState bytes :=
  config ← lift (if configSeq <? sequence then wrap "bad normal message" (ProcessConfigMsg config) else mret config);
  lift (wrap "illegal config update attempted" (ValidateConfig validatingChannel config));;
  submit config.
End Order.

(** ** Received messages *)

(** What a chain of a channel is: a SmartBFT chain, or one of another kind. *)
Inductive ChainKind := SmartBFTChain | OtherChain | NilChain.

Inductive Received :=
| HandleMessage (channel : string) (sender : Z) (m : Content)
| HandleRequest (channel : string) (sender : Z) (req : bytes).

Section Ingress.
Context {Pb : Protobuf}.
Context (GetChain : string -> option ChainKind) (pb_Message : Codec Content).

(** [fabric:orderer/consensus/smartbft/consenter.go] Consenter.ReceiverByChain *)
Definition ReceiverByChain (channelID : string) : outcome (option string) :=
  match GetChain channelID with
  | None => mret None
  | Some NilChain => Panic "Programming error - Chain is nil although it exists in the mapping"
  | Some SmartBFTChain => mret (Some channelID)
  | Some OtherChain => mret None
  end.

(** [fabric:orderer/consensus/smartbft/ingress.go] Ingreess.OnConsensus *)
Definition OnConsensus (channel : string) (sender : Z) (payload : bytes) : outcome Received :=
  receiver ← ReceiverByChain channel;
  receiver ← ok_or receiver "channel doesn't exist";
  msg ← wrap "malformed message" (Unmarshal pb_Message payload);
  mret (HandleMessage receiver sender msg).

(** [fabric:orderer/consensus/smartbft/ingress.go] Ingreess.OnSubmit *)
Definition OnSubmit (channel : string) (sender : Z) (payload : Envelope) : outcome Received :=
  receiver ← ReceiverByChain channel;
  receiver ← ok_or receiver "channel doesn't exist";
  mret (HandleRequest receiver sender (Marshal pb_Envelope payload)).
End Ingress.
