(* ===== verification/SmartBFTSpec.v ===== *)
(** * Correctness of proposals and signatures

    What the parts of a SmartBFT node promise to each other: a proposal the
    assembler makes is one the verifier accepts, a signature the signer makes is
    one the verifier accepts, an accepted signature covers the proposal, and the
    transactions of a block are judged the same in whatever order the goroutines
    finish. *)

From S2P Require Import Prelude BigEndian Asn1 FabricBlocks SmartBFTConfig SmartBFT.

(** ** Numbers and codes that are read back *)

Lemma u64_i64 z : is_u64 z -> u64 (i64 z) = z.
Proof.
  intros Hz. unfold i64. rewrite Z.mod_small by exact Hz. case_match; [by apply u64_id|].
  unfold u64. replace (z - two64) with (z + (-1) * two64) by lia. rewrite Z.mod_add by done. by apply Z.mod_small.
Qed.

Section Spec.
Context {Pb : Protobuf} {PbOk : ProtobufOk} {Certs : Certificates} {CC : ChannelConfig}.

(** ** Encodings *)

Lemma header_roundtrip h hb junk :
  is_u64 (Number h) -> BlockHeader_Bytes h = Ok hb -> fits hb -> unmarshal_header (hb ++ junk) = Ok h.
Proof.
  intros Hn Hb Hf. unfold BlockHeader_Bytes in Hb. case_match; inv_ok. unfold unmarshal_header.
  rewrite (marshal_int_octets_roundtrip _ [_; _]) by (apply Hn || done). cbn. rewrite big_Uint64_id by done.
  by destruct h.
Qed.

Lemma Signature_roundtrip s : fits (Signature_Marshal s) -> Signature_Unmarshal (Signature_Marshal s) = Ok s.
Proof.
  intros Hf. unfold Signature_Unmarshal, Signature_Marshal in *. rewrite <- (app_nil_r (marshal_octets _)).
  rewrite (marshal_octets_roundtrip [_; _; _; _; _]) by done. by destruct s.
Qed.

(** The proposal of a block. *)
Definition block_proposal (hb : bytes) (data md : list bytes) (metadata : bytes) (seq : Z) : Proposal := {|
  prop_Header := hb;
  prop_Payload := ByteBufferTuple_ToBytes (Marshal pb_BlockData data) (Marshal pb_BlockMetadata md);
  prop_Metadata := metadata;
  prop_VerificationSequence := seq;
|}.

Lemma ProposalToBlock_ok h hb junk data md metadata seq :
  is_u64 (Number h) -> BlockHeader_Bytes h = Ok hb -> fits hb ->
  fits (ByteBufferTuple_ToBytes (Marshal pb_BlockData data) (Marshal pb_BlockMetadata md)) ->
  ProposalToBlock (block_proposal (hb ++ junk) data md metadata seq) =
    Ok {| b_Header := h; b_Data := Some data; b_Metadata := Some md |}.
Proof.
  intros Hn Hb Hf Hp. unfold ProposalToBlock, block_proposal. cbn [prop_Header prop_Payload].
  rewrite (bool_decide_eq_false_2 (hb ++ junk = [])).
  2:{ unfold BlockHeader_Bytes in Hb. case_match; inv_ok. done. }
  cbn [ensure negb mbind outcome_bind]. rewrite (header_roundtrip h) by done. cbn [wrap mbind outcome_bind].
  rewrite (bool_decide_eq_false_2 (ByteBufferTuple_ToBytes _ _ = [])) by done. cbn [ensure negb mbind outcome_bind].
  unfold ByteBufferTuple_FromBytes, ByteBufferTuple_ToBytes in *. rewrite <- (app_nil_r (marshal_octets _)).
  rewrite (marshal_octets_roundtrip [_; _]) by done. cbn.
  by codec_simpl.
Qed.

Lemma ProposalToBlock_inv prop block :
  ProposalToBlock prop = Ok block ->
  exists data md, b_Data block = Some data /\ b_Metadata block = Some md /\ is_u64 (Number (b_Header block)).
Proof.
  unfold ProposalToBlock, unmarshal_header. intros H. inv_run. cbn. eexists _, _. split_and!; [done..|].
  repeat (case_match; inv_ok; try done). apply big_Uint64_range.
Qed.

(** ** Transactions are verified in any order *)

Lemma validations_Ok f l vs :
  validations f l = Ok vs <-> vs = f <$> l /\ Forall (fun x => forall p, f x <> Panic p) l.
Proof.
  revert vs. induction l as [|x l IH]; intros vs; cbn.
  - split; [intros [= <-]; done|intros [-> _]; done].
  - split.
    + destruct (f x) as [i|e|p] eqn:E; intros H; inv_ok; try done; apply IH in E0 as [-> Hl]; cbn;
        (split; [done|constructor; [congruence|done]]).
    + intros [-> Hl]. apply Forall_cons in Hl as [Hx Hl].
      destruct (f x) as [i|e|p] eqn:E; [| |by destruct (Hx p)];
        rewrite (proj2 (IH _) (conj eq_refl Hl)); done.
Qed.

Lemma collect_sound arrival vs m m' :
  collect arrival vs m = Ok m' ->
  (forall i r, i ∈ arrival -> vs !! i = Some r -> exists info, r = Ok info /\ m' !! i = Some info) /\
  (forall i, i ∉ arrival -> m' !! i = m !! i).
Proof.
  revert m. induction arrival as [|i l IH]; intros m H; cbn in H.
  - inv_ok. split; [intros i r Hi; by apply elem_of_nil in Hi|done].
  - assert (exists m1, collect l vs m1 = Ok m' /\ (forall j, j ≠ i -> m1 !! j = m !! j) /\
      forall r, vs !! i = Some r -> exists info, r = Ok info /\ m1 !! i = Some info) as (m1 & H1 & Hm & Hi).
    { destruct (vs !! i) as [r|].
      - inv_ok. exists (<[i := v]> m). split_and!; [done|by intros; rewrite lookup_insert_ne by done|].
        intros ? [= <-]. exists v. by rewrite lookup_insert_eq.
      - exists m. done. }
    destruct (IH _ H1) as [IH1 IH2]. split.
    + intros j r Hj Hr. destruct (decide (j ∈ l)) as [Hl|Hl]; [by apply IH1|].
      apply elem_of_cons in Hj as [->|Hj]; [|done]. destruct (Hi r Hr) as (info & -> & Hinfo).
      exists info. by rewrite IH2 by done.
    + intros j Hj. apply not_elem_of_cons in Hj as [Hne Hj]. by rewrite IH2, Hm by done.
Qed.

Lemma collect_complete arrival vs m :
  (forall i r, i ∈ arrival -> vs !! i = Some r -> exists info, r = Ok info) -> exists m', collect arrival vs m = Ok m'.
Proof.
  revert m. induction arrival as [|i l IH]; intros m H; cbn; [by eexists|].
  assert (forall j r, j ∈ l -> vs !! j = Some r -> exists info, r = Ok info) as Hl by (intros; eapply H; [right|]; done).
  destruct (vs !! i) as [r|] eqn:E; [|by apply IH].
  destruct (H i r) as [info ->]; [left|done|]. cbn. by apply IH.
Qed.

Lemma elem_of_arrival arrival n i : arrival ≡ₚ seq 0 n -> i ∈ arrival <-> (i < n)%nat.
Proof. intros ->. rewrite elem_of_seq. lia. Qed.

Lemma validate_any_order arrival data f infos :
  arrival ≡ₚ seq 0 (length data) ->
  validateTransactions arrival data f = Ok infos <->
  Forall2 (fun r i => f (1 <? length data)%nat r = Ok i) data infos.
Proof.
  intros Ha. unfold validateTransactions. set (g := f _). split.
  - intros H. inv_ok. apply validations_Ok in E as [-> _]. apply collect_sound in E0 as [Hc _].
    apply Forall2_same_length_lookup_2; [by rewrite length_fmap, length_seq|].
    intros i r info Hr Hi. rewrite list_lookup_fmap in Hi. apply fmap_Some in Hi as (j & Hj & ->).
    apply lookup_seq in Hj as [-> Hj]. destruct (Hc (0 + i)%nat (g r)) as (info & E & Hm).
    + by apply (elem_of_arrival _ _ _ Ha).
    + cbn. by rewrite list_lookup_fmap, Hr.
    + rewrite Hm, E. done.
  - intros HF. rewrite (proj2 (validations_Ok g data (g <$> data))).
    2:{ split; [done|]. apply Forall_forall. intros r Hr p Hp. apply list_elem_of_lookup in Hr as [i Hi].
        destruct (Forall2_lookup_l _ _ _ _ _ HF Hi) as (info & _ & E). congruence. }
    cbn [mbind outcome_bind].
    destruct (collect_complete arrival (g <$> data) ∅) as [m' Hm'].
    { intros i r Hi Hr. rewrite list_lookup_fmap in Hr. apply fmap_Some in Hr as (x & Hx & ->).
      destruct (Forall2_lookup_l _ _ _ _ _ HF Hx) as (info & _ & E). eauto. }
    rewrite Hm'. cbn. f_equal. apply collect_sound in Hm' as [Hc _]. apply list_eq. intros i.
    rewrite list_lookup_fmap. destruct (decide (i < length data)%nat) as [Hi|Hi].
    + rewrite lookup_seq_lt by done. cbn. destruct (lookup_lt_is_Some_2 data i Hi) as [r Hr].
      destruct (Forall2_lookup_l _ _ _ _ _ HF Hr) as (info & Hinfo & E).
      destruct (Hc i (g r)) as (info' & E' & Hm).
      * by apply (elem_of_arrival _ _ _ Ha).
      * by rewrite list_lookup_fmap, Hr.
      * rewrite Hm, Hinfo. cbn. congruence.
    + rewrite lookup_seq_ge by lia. cbn. symmetry. apply lookup_ge_None_2.
      rewrite <- (Forall2_length _ _ _ HF). lia.
Qed.

(** ** The assembler and the verifier *)

(** A runtime configuration that knows the last block and the last configuration
    block, and the hash of the former. *)
Record rtc_current (rtc : RuntimeConfig) (lb cb : Block) : Prop := {
  current_last : rtc_LastBlock rtc = Some lb;
  current_config : rtc_LastConfigBlock rtc = Some cb;
  current_number : 0 <= Number (b_Header lb) < maxInt64;
  current_hash h : BlockHeader_Hash (b_Header lb) = Ok h -> LastCommittedBlockHash rtc = hex_encode h;
}.

Lemma unwrapReq_type r q e :
  unwrapReq r = Ok q -> UnmarshalEnvelope r = Ok e -> IsConfigTransaction e = is_config_type (ch_Type (req_chHdr q)).
Proof.
  unfold unwrapReq. intros H He. inv_run. rewrite He in E. injection E as ->. cbn [req_chHdr].
  unfold IsConfigTransaction, envelope_type, GetPayload. rewrite E0. codec_simpl. rewrite E1. codec_simpl.
  by rewrite E4.
Qed.

(** A request that is accepted on its own and is no configuration transaction is
    accepted with others. *)
Lemma verifyRequest_with_others v r e info :
  VerifyRequest v r = Ok info -> UnmarshalEnvelope r = Ok e -> IsConfigTransaction e = false ->
  verifyRequest v true r = Ok info.
Proof.
  unfold VerifyRequest, verifyRequest. intros H He Hc. inv_run.
  rewrite E. cbn [mbind outcome_bind]. rewrite E0. cbn [mbind outcome_bind].
  rewrite (unwrapReq_type _ _ _ E He) in Hc. rewrite Hc in *. cbn [orb] in E2. rewrite E2. exact H.
Qed.

Definition no_config (r : bytes) : Prop := exists e, UnmarshalEnvelope r = Ok e /\ IsConfigTransaction e = false.

Lemma batch_loop_spec requests :
  Forall (fun r => exists e, UnmarshalEnvelope r = Ok e) requests ->
  exists batch, batch_loop requests = Ok batch /\ batch `prefix_of` requests /\ Forall no_config batch.
Proof.
  induction 1 as [|r l [e He] _ (batch & IH1 & IH2 & IH3)]; cbn.
  - exists []. split_and!; [done|apply prefix_nil|constructor].
  - rewrite He. cbn. destruct (IsConfigTransaction e) eqn:Ec.
    + exists []. split_and!; [done|apply prefix_nil|constructor].
    + rewrite IH1. cbn. exists (r :: batch). split_and!; [done|by apply prefix_cons|].
      constructor; [by exists e|done].
Qed.

(** A batch is a beginning of the requests: one configuration transaction, or
    others only. *)
Lemma batch_spec requests :
  requests <> [] -> Forall (fun r => exists e, UnmarshalEnvelope r = Ok e) requests ->
  exists batch, singleConfigTxOrSeveralNonConfigTx requests = Ok batch /\ batch `prefix_of` requests /\ batch <> [] /\
    ((1 < length batch)%nat -> Forall no_config batch).
Proof.
  intros Hne HF. destruct (batch_loop_spec requests HF) as (batch & Hb & Hp & Hn).
  unfold singleConfigTxOrSeveralNonConfigTx. rewrite Hb. cbn [mbind outcome_bind].
  destruct batch as [|r batch].
  - destruct requests as [|r requests]; [done|]. cbn. exists [r]. split_and!; [done| |done|cbn; lia].
    by exists requests.
  - exists (r :: batch). by split_and!.
Qed.

Lemma VerifyRequest_envelope v r info : VerifyRequest v r = Ok info -> exists e, UnmarshalEnvelope r = Ok e.
Proof. unfold VerifyRequest, verifyRequest, unwrapReq. intros H. inv_run. eauto. Qed.

(** Requests accepted on their own are accepted as a batch. *)
Lemma batch_accepted v batch infos :
  Forall2 (fun r i => VerifyRequest v r = Ok i) batch infos ->
  ((1 < length batch)%nat -> Forall no_config batch) ->
  Forall2 (fun r i => verifyRequest v (1 <? length batch)%nat r = Ok i) batch infos.
Proof.
  intros HF Hn. destruct (Nat.ltb_spec 1 (length batch)) as [Hl|_]; [|exact HF].
  specialize (Hn Hl). clear Hl. induction HF as [|r i l l' Hr HF IH]; constructor.
  - apply Forall_cons in Hn as [(e & He & Hc) _]. by eapply verifyRequest_with_others.
  - apply IH. by apply Forall_cons in Hn as [_ ?].
Qed.

Definition assembled_metadata (lastConfig : Z) (metadata : bytes) : list bytes :=
  [Marshal pb_Metadata {| md_Value := orderer_metadata lastConfig metadata; md_Signatures := [] |};
   Marshal pb_Metadata {| md_Value := Marshal pb_LastConfig lastConfig; md_Signatures := [] |}; []; []; []].

Definition assembled_block (number : Z) (prev : bytes) (batch : list bytes) (md : list bytes) : Block := {|
  b_Header := {| Number := number; PreviousHash := prev; DataHash := BlockData_Hash batch |};
  b_Data := Some batch;
  b_Metadata := Some md;
|}.

(** The configuration number of a block of this data. *)
Definition batch_config (number : Z) (cb : Block) (batch : list bytes) : Z :=
  if isConfigBlock (assembled_block number [] batch []) then number else Number (b_Header cb).

Lemma AssembleProposal_run rtc seq metadata requests lb cb batch h hb :
  rtc_LastBlock rtc = Some lb -> rtc_LastConfigBlock rtc = Some cb -> requests <> [] ->
  0 <= Number (b_Header lb) < maxInt64 ->
  singleConfigTxOrSeveralNonConfigTx requests = Ok batch ->
  BlockHeader_Hash (b_Header lb) = Ok h ->
  let n := Number (b_Header lb) + 1 in
  let md := assembled_metadata (batch_config n cb batch) metadata in
  BlockHeader_Bytes (b_Header (assembled_block n h batch md)) = Ok hb ->
  AssembleProposal rtc seq metadata requests = Ok (block_proposal hb batch md metadata (i64 seq)).
Proof.
  intros Hlb Hcb Hne Hn Hb Hh n md Hhb. unfold AssembleProposal. rewrite Hlb. cbn [deref mbind outcome_bind].
  rewrite (bool_decide_eq_false_2 (requests = [])) by done. codec_simpl. rewrite Hb. codec_simpl.
  unfold next_block. rewrite Hh. codec_simpl. cbn [NewBlock b_Header Number PreviousHash b_Metadata].
  rewrite (u64_add_small _ 1) by (unfold two64, maxInt64 in *; lia). fold n.
  unfold last_config_number. rewrite Hcb. codec_simpl. cbn [b_Header Number].
  match goal with |- context [isConfigBlock ?b] =>
    change (if isConfigBlock b then n else Number (b_Header cb)) with (batch_config n cb batch) end.
  unfold set_block_metadata. cbn [b_Metadata deref mbind outcome_bind].
  change (set_index (replicate metadata_entries []) LAST_CONFIG ?x) with (Ok [[]; x; []; []; []] : outcome (list bytes)).
  codec_simpl.
  change (set_index [[]; ?y; []; []; []] SIGNATURES ?x) with (Ok [x; y; []; []; []] : outcome (list bytes)).
  codec_simpl. cbn [assembled_block set_metadata b_Header b_Data b_Metadata deref mbind outcome_bind] in *. rewrite Hhb. done.
Qed.

Lemma AssembleProposal_inv rtc seq metadata requests prop lb cb :
  AssembleProposal rtc seq metadata requests = Ok prop ->
  rtc_LastBlock rtc = Some lb -> rtc_LastConfigBlock rtc = Some cb -> 0 <= Number (b_Header lb) < maxInt64 ->
  exists batch h hb,
    let n := Number (b_Header lb) + 1 in
    let md := assembled_metadata (batch_config n cb batch) metadata in
    singleConfigTxOrSeveralNonConfigTx requests = Ok batch /\
    BlockHeader_Bytes (b_Header (assembled_block n h batch md)) = Ok hb /\
    prop = block_proposal hb batch md metadata (i64 seq).
Proof.
  intros H Hlb Hcb Hn. pose proof H as H0. unfold AssembleProposal in H0. inv_run. rewrite Hlb in E. injection E as <-.
  unfold next_block in E2. inv_run.
  match goal with Hh : BlockHeader_Hash (b_Header lb) = Ok ?h |- _ => exists v1, h end.
  set (n := Number (b_Header lb) + 1). set (md := assembled_metadata (batch_config n cb v1) metadata).
  match goal with Hh : BlockHeader_Hash (b_Header lb) = Ok ?h |- _ =>
    assert (exists hb, BlockHeader_Bytes (b_Header (assembled_block n h v1 md)) = Ok hb) as [hb Hhb] end.
  { unfold BlockHeader_Bytes. cbn. rewrite (proj2 (Z.ltb_ge maxInt64 n)) by (unfold n; lia). by eexists. }
  exists hb. split_and!; [done..|].
  assert (requests <> []) as Hne by (intros ->; done).
  epose proof (AssembleProposal_run rtc seq metadata requests lb cb v1 _ hb Hlb Hcb Hne Hn ltac:(done) ltac:(done) Hhb) as Hrun.
  rewrite Hrun in H. by apply Ok_inj in H.
Qed.

Section Assembled.
Context (n : Z) (h : bytes) (batch : list bytes) (lc : Z) (metadata : bytes).
Abbreviation block := (assembled_block n h batch (assembled_metadata lc metadata)).

Lemma assembled_SIGNATURES :
  GetMetadataFromBlock block SIGNATURES = Ok {| md_Value := orderer_metadata lc metadata; md_Signatures := [] |}.
Proof. unfold GetMetadataFromBlock, metadata_at. cbn. by codec_simpl. Qed.

Lemma assembled_LAST_CONFIG :
  GetMetadataFromBlock block LAST_CONFIG = Ok {| md_Value := Marshal pb_LastConfig lc; md_Signatures := [] |}.
Proof. unfold GetMetadataFromBlock, metadata_at. cbn. by codec_simpl. Qed.

Lemma assembled_last_config rtc cb :
  rtc_LastConfigBlock rtc = Some cb -> last_config_number rtc block = Ok (batch_config n cb batch).
Proof. intros H. unfold last_config_number. by rewrite H. Qed.
End Assembled.

Lemma verify_assembled_metadata v arrival n h batch cb metadata vm :
  rtc_LastConfigBlock (v_RuntimeConfig v) = Some cb -> batch <> [] -> Unmarshal pb_ViewMetadata metadata = Ok vm ->
  verifyBlockDataAndMetadata v arrival
    (assembled_block n h batch (assembled_metadata (batch_config n cb batch) metadata)) metadata =
  validateTransactions arrival batch (verifyRequest v).
Proof.
  intros Hcb Hne Hvm. unfold verifyBlockDataAndMetadata.
  change (b_Data (assembled_block _ _ batch _)) with (Some batch). codec_simpl.
  rewrite (bool_decide_eq_false_2 (batch = [])) by done. codec_simpl.
  change (ensure (match b_Metadata _ with Some _ => _ | None => false end) _) with (Ok tt : outcome unit). codec_simpl.
  rewrite assembled_SIGNATURES. codec_simpl. cbn [md_Value]. unfold orderer_metadata. codec_simpl.
  cbn [obm_ConsenterMetadata obm_LastConfig]. rewrite Hvm. codec_simpl. rewrite bool_decide_eq_true_2 by done. codec_simpl.
  rewrite (assembled_last_config _ _ _ _ _ _ cb) by done. codec_simpl. rewrite Z.eqb_refl. codec_simpl.
  rewrite assembled_LAST_CONFIG. codec_simpl. cbn [md_Value]. codec_simpl. by rewrite Z.eqb_refl.
Qed.

Lemma verify_assembled v arrival lb cb batch h hb junk metadata vm :
  rtc_current (v_RuntimeConfig v) lb cb -> is_u64 (v_Sequence v) -> batch <> [] ->
  Unmarshal pb_ViewMetadata metadata = Ok vm -> BlockHeader_Hash (b_Header lb) = Ok h ->
  let n := Number (b_Header lb) + 1 in
  let md := assembled_metadata (batch_config n cb batch) metadata in
  BlockHeader_Bytes (b_Header (assembled_block n h batch md)) = Ok hb ->
  let prop := block_proposal (hb ++ junk) batch md metadata (i64 (v_Sequence v)) in
  fits hb -> fits (prop_Payload prop) ->
  VerifyProposal v arrival prop = validateTransactions arrival batch (verifyRequest v).
Proof.
  intros Hrtc Hseq Hne Hvm Hh n md Hhb prop Hf Hp. pose proof (current_number _ _ _ Hrtc) as Hn.
  unfold VerifyProposal, prop.
  rewrite (ProposalToBlock_ok (b_Header (assembled_block n h batch md))); [|unfold is_u64; cbn; unfold n, two64, maxInt64 in *; lia|done..].
  cbn [mbind outcome_bind]. unfold verifyHashChain. cbn [b_Header b_Data assembled_block PreviousHash DataHash].
  rewrite (current_hash _ _ _ Hrtc h Hh), String.eqb_refl. codec_simpl. rewrite String.eqb_refl. codec_simpl.
  cbn [prop_Metadata prop_VerificationSequence block_proposal].
  change (Build_Block _ _ _) with (assembled_block n h batch md). unfold md.
  rewrite (verify_assembled_metadata v arrival n h batch cb metadata vm) by (apply Hrtc || done).
  rewrite u64_i64, Z.eqb_refl by done. by destruct (validateTransactions _ _ _).
Qed.

(** A proposal is canonical when its header is the encoding of the block's, its
    block has all metadata entries, and the signed metadata of the block carries
    the proposal's metadata. *)
Record canonical_proposal (prop : Proposal) (block : Block) : Prop := {
  cp_block : ProposalToBlock prop = Ok block;
  cp_header : BlockHeader_Bytes (b_Header block) = Ok (prop_Header prop);
  cp_entries : exists md, b_Metadata block = Some md /\ length md = metadata_entries;
  cp_metadata : exists sm lc, GetMetadataFromBlock block SIGNATURES = Ok sm /\
    Unmarshal pb_OrdererBlockMetadata (md_Value sm) =
      Ok {| obm_LastConfig := lc; obm_ConsenterMetadata := prop_Metadata prop |};
}.

Lemma assembled_canonical n h batch lc metadata hb seq :
  is_u64 n -> let md := assembled_metadata lc metadata in
  let block := assembled_block n h batch md in
  BlockHeader_Bytes (b_Header block) = Ok hb ->
  let prop := block_proposal hb batch md metadata seq in
  fits (prop_Header prop) -> fits (prop_Payload prop) -> canonical_proposal prop block.
Proof.
  intros Hn md block Hhb prop Hf Hp. split.
  - unfold prop. rewrite <- (app_nil_r hb). by rewrite (ProposalToBlock_ok (b_Header block)).
  - done.
  - by eexists.
  - eexists _, _. split; [apply assembled_SIGNATURES|]. cbn [md_Value]. unfold orderer_metadata. by codec_simpl.
Qed.

Lemma AssembleProposal_canonical rtc seq metadata requests prop lb cb :
  AssembleProposal rtc seq metadata requests = Ok prop ->
  rtc_LastBlock rtc = Some lb -> rtc_LastConfigBlock rtc = Some cb -> 0 <= Number (b_Header lb) < maxInt64 ->
  fits (prop_Header prop) -> fits (prop_Payload prop) -> exists block, canonical_proposal prop block.
Proof.
  intros Ha Hlb Hcb Hn Hf Hp. destruct (AssembleProposal_inv _ _ _ _ _ _ _ Ha Hlb Hcb Hn) as (batch & h & hb & _ & Hhb & ->).
  eexists. apply assembled_canonical; [|done..]. unfold is_u64, two64, maxInt64 in *. lia.
Qed.

Lemma assemble_and_verify v lb cb metadata vm requests :
  rtc_current (v_RuntimeConfig v) lb cb -> is_u64 (v_Sequence v) -> Unmarshal pb_ViewMetadata metadata = Ok vm ->
  requests <> [] -> Forall (fun r => is_ok (VerifyRequest v r) = true) requests ->
  exists prop batch infos,
    AssembleProposal (v_RuntimeConfig v) (v_Sequence v) metadata requests = Ok prop /\
    batch `prefix_of` requests /\ batch <> [] /\
    Forall2 (fun r i => VerifyRequest v r = Ok i) batch infos /\
    (fits (prop_Header prop) -> fits (prop_Payload prop) ->
     (exists block, canonical_proposal prop block /\ b_Data block = Some batch) /\
     forall arrival, arrival ≡ₚ seq 0 (length batch) -> VerifyProposal v arrival prop = Ok infos).
Proof.
  intros Hrtc Hseq Hvm Hne HF. pose proof (current_number _ _ _ Hrtc) as Hn.
  destruct (batch_spec requests Hne) as (batch & Hb & Hpre & Hbne & Hnc).
  { eapply Forall_impl; [exact HF|]. cbn. intros r Hr. apply is_ok_ex in Hr as [i Hi]. by eapply VerifyRequest_envelope. }
  assert (exists infos, Forall2 (fun r i => VerifyRequest v r = Ok i) batch infos) as [infos HF2].
  { destruct Hpre as [rest ->]. apply Forall_app in HF as [HF _]. clear -HF. induction HF as [|r l Hr _ [infos IH]].
    - by exists [].
    - apply is_ok_ex in Hr as [i Hi]. exists (i :: infos). by constructor. }
  assert (forall k, 0 <= Number k <= maxInt64 -> exists b, BlockHeader_Bytes k = Ok b) as Hbytes.
  { intros k Hk. unfold BlockHeader_Bytes. rewrite (proj2 (Z.ltb_ge maxInt64 (Number k))) by lia. by eexists. }
  destruct (Hbytes (b_Header lb)) as [lbb Hlbb]; [lia|].
  assert (BlockHeader_Hash (b_Header lb) = Ok (sha256 lbb)) as Hh by (unfold BlockHeader_Hash; by rewrite Hlbb).
  set (n := Number (b_Header lb) + 1). set (md := assembled_metadata (batch_config n cb batch) metadata).
  destruct (Hbytes (b_Header (assembled_block n (sha256 lbb) batch md))) as [hb Hhb]; [cbn; unfold n; lia|].
  eexists _, batch, infos. split; [by eapply AssembleProposal_run; try apply Hrtc|]. split_and!; [done..|].
  intros Hf Hp. split.
  - eexists. split; [apply assembled_canonical; [|done..]|done]. unfold is_u64, n, two64, maxInt64 in *. lia.
  - intros arrival Ha. rewrite <- (app_nil_r hb). rewrite (verify_assembled v arrival lb cb batch (sha256 lbb) hb [] metadata vm) by done.
    apply validate_any_order; [done|]. by apply batch_accepted.
Qed.

(** ** The signer and the verifier *)

(** What a signer puts into the message of its signature. *)
Definition signature_of (nonce header : bytes) (lastConfig : Z) (metadata aux : bytes) : Signature := {|
  Nonce := nonce; sig_SignatureHeader := []; sig_BlockHeader := header;
  sig_OrdererBlockMetadata := orderer_metadata lastConfig metadata; AuxiliaryInput := aux |}.

Lemma SignProposal_inv id s rtc nonce prop aux sg :
  SignProposal id s rtc nonce prop aux = Ok sg ->
  exists block header creator lc,
    ProposalToBlock prop = Ok block /\ BlockHeader_Bytes (b_Header block) = Ok header /\
    Serialize s = Ok creator /\ last_config_number rtc block = Ok lc /\
    let sig := signature_of nonce header lc (prop_Metadata prop) aux in
    Sign s (AsBytes (rebuild_header sig creator)) = Ok (ts_Value sg) /\
    sg = {| ts_ID := id; ts_Value := ts_Value sg; ts_Msg := Signature_Marshal sig |}.
Proof.
  unfold SignProposal, newSignatureHeaderOrPanic. intros H. inv_run. eexists _, _, _, _. by split_and!.
Qed.

Lemma SignProposal_run id s rtc nonce prop aux block header creator lc value :
  ProposalToBlock prop = Ok block -> BlockHeader_Bytes (b_Header block) = Ok header -> Serialize s = Ok creator ->
  last_config_number rtc block = Ok lc ->
  let sig := signature_of nonce header lc (prop_Metadata prop) aux in
  Sign s (AsBytes (rebuild_header sig creator)) = Ok value ->
  SignProposal id s rtc nonce prop aux = Ok {| ts_ID := id; ts_Value := value; ts_Msg := Signature_Marshal sig |}.
Proof.
  intros Hb Hh Hs Hl sig Hv. unfold SignProposal, newSignatureHeaderOrPanic. rewrite Hb. codec_simpl. rewrite Hh. codec_simpl.
  rewrite Hs. codec_simpl. rewrite Hl. codec_simpl. cbn [Nonce sig_BlockHeader sig_OrdererBlockMetadata AuxiliaryInput].
  change (Sign s _) with (Sign s (AsBytes (rebuild_header sig creator))). rewrite Hv. done.
Qed.

(** Everything the verifier demands of a signature, and nothing else. *)
Record signature_accepted (v : Verifier) (sg : types_Signature) (prop : Proposal) (aux : bytes) : Prop := {
  sa_parts : exists identity sig o policy block sm md,
    ID2Identities (v_RuntimeConfig v) !! ts_ID sg = Some identity /\
    Signature_Unmarshal (ts_Msg sg) = Ok sig /\
    sig_BlockHeader sig = prop_Header prop /\ AuxiliaryInput sig = aux /\
    Unmarshal pb_OrdererBlockMetadata (sig_OrdererBlockMetadata sig) = Ok o /\
    obm_ConsenterMetadata o = prop_Metadata prop /\
    ProposalToBlock prop = Ok block /\ b_Metadata block = Some md /\ length md = metadata_entries /\
    GetMetadataFromBlock block SIGNATURES = Ok sm /\ Unmarshal pb_OrdererBlockMetadata (md_Value sm) = Ok o /\
    GetPolicy v "/Channel/Orderer/Writers" = Some policy /\
    policy [{| sd_Identity := identity; sd_Signature := ts_Value sg;
               sd_Data := sig_OrdererBlockMetadata sig ++
                          Marshal pb_SignatureHeader {| sh_Creator := identity; sh_Nonce := Nonce sig |} ++
                          prop_Header prop ++ aux |}] = Ok tt;
}.

Lemma bound_iff sig identity prop :
  verifySignatureIsBoundToProposal (rebuild_header sig identity) identity prop = Ok tt <->
  exists o block sm md,
    sig_BlockHeader sig = prop_Header prop /\
    Unmarshal pb_OrdererBlockMetadata (sig_OrdererBlockMetadata sig) = Ok o /\
    obm_ConsenterMetadata o = prop_Metadata prop /\
    ProposalToBlock prop = Ok block /\ b_Metadata block = Some md /\ length md = metadata_entries /\
    GetMetadataFromBlock block SIGNATURES = Ok sm /\ Unmarshal pb_OrdererBlockMetadata (md_Value sm) = Ok o.
Proof.
  unfold verifySignatureIsBoundToProposal, GetMetadataFromBlock, metadata_at.
  cbn [rebuild_header sig_BlockHeader sig_SignatureHeader sig_OrdererBlockMetadata]. split.
  - intros H. rewrite SignatureHeader_rt in H. inv_run.
    repeat match goal with H : bool_decide _ = true |- _ => apply bool_decide_eq_true in H end.
    apply Nat.eqb_eq in E6. cbn in *. subst. eexists _, _, _, _. split_and!; [done..| |done].
    rewrite E5. cbn. unfold index. rewrite E7. cbn. by rewrite E8.
  - intros (o & block & sm & md & Hh & Ho & Hm & Hb & Hmd & Hl & Hsm & Hsv).
    rewrite bool_decide_eq_true_2 by done. codec_simpl. cbn [sh_Creator]. rewrite bool_decide_eq_true_2 by done. codec_simpl.
    rewrite Ho. codec_simpl. rewrite bool_decide_eq_true_2 by done. codec_simpl. rewrite Hb. codec_simpl.
    rewrite Hmd in Hsm |- *. codec_simpl. rewrite Hl. codec_simpl. cbn in Hsm.
    destruct (index md SIGNATURES); [|done..]. cbn [mbind outcome_bind] in *. cbn [Nat.eqb metadata_entries ensure mbind outcome_bind].
    apply wrap_Ok in Hsm. rewrite Hsm. codec_simpl. rewrite Hsv. codec_simpl. by rewrite bool_decide_eq_true_2.
Qed.

Lemma accepted_iff v sg prop aux : VerifyConsenterSig v sg prop = Ok aux <-> signature_accepted v sg prop aux.
Proof.
  split.
  - unfold VerifyConsenterSig, consenterVerifier_Evaluate. intros H. inv_run. split.
    apply bound_iff in E1 as (o & block & sm & md & Hh & Ho & Hm & Hb & Hmd & Hl & Hsm & Hsv).
    eexists _, _, _, _, _, _, _. split_and!; try done. rewrite <- Hh. unfold AsBytes, ConcatenateBytes in *.
    cbn in *. by rewrite app_nil_r in *.
  - intros [(identity & sig & o & policy & block & sm & md & Hid & Hsig & Hh & Ha & Ho & Hm & Hb & Hmd & Hl & Hsm & Hsv & Hp & He)].
    unfold VerifyConsenterSig, consenterVerifier_Evaluate. rewrite Hid. codec_simpl. rewrite Hsig. codec_simpl.
    rewrite (proj2 (bound_iff _ _ _)); [|eexists _, _, _, _; by split_and!]. codec_simpl. rewrite Hp. codec_simpl.
    unfold AsBytes, ConcatenateBytes. cbn. by rewrite app_nil_r, Hh, Ha, He.
Qed.

(** What an accepted proposal says about the last configuration. *)
Lemma VerifyProposal_config v arrival prop infos block :
  VerifyProposal v arrival prop = Ok infos -> ProposalToBlock prop = Ok block ->
  exists lc sm cm, last_config_number (v_RuntimeConfig v) block = Ok lc /\ GetMetadataFromBlock block SIGNATURES = Ok sm /\
    Unmarshal pb_OrdererBlockMetadata (md_Value sm) = Ok {| obm_LastConfig := Some lc; obm_ConsenterMetadata := cm |}.
Proof.
  unfold VerifyProposal, verifyBlockDataAndMetadata. intros H Hb. rewrite Hb in H. cbn [mbind outcome_bind] in H. inv_run.
  match goal with H : (?i =? ?l) = true, E : obm_LastConfig ?o = Some ?i |- _ =>
    apply Z.eqb_eq in H; subst i; exists l; eexists _, (obm_ConsenterMetadata o); destruct o; cbn in * end.
  subst. by split_and!.
Qed.

(** The signatures a signer makes satisfy the policy. *)
Definition signs_for (s : SignerSerializer) (identity : bytes) (policy : Policy) : Prop :=
  Serialize s = Ok identity /\
  forall m, exists sg, Sign s m = Ok sg /\
    policy [{| sd_Identity := identity; sd_Signature := sg; sd_Data := m |}] = Ok tt.

Lemma honest_signature v arrival prop block infos id s rtc nonce aux identity policy :
  canonical_proposal prop block -> VerifyProposal v arrival prop = Ok infos ->
  rtc_LastConfigBlock rtc = rtc_LastConfigBlock (v_RuntimeConfig v) ->
  ID2Identities (v_RuntimeConfig v) !! id = Some identity ->
  GetPolicy v "/Channel/Orderer/Writers" = Some policy -> signs_for s identity policy ->
  exists sg, SignProposal id s rtc nonce prop aux = Ok sg /\
    (fits (ts_Msg sg) -> VerifyConsenterSig v sg prop = Ok aux).
Proof.
  intros Hc Hv Hrtc Hid Hpol [Hser Hsign].
  pose proof (cp_block _ _ Hc) as Hb. destruct (VerifyProposal_config _ _ _ _ _ Hv Hb) as (lc & sm & cm & Hlc & Hsm & Ho).
  destruct (cp_metadata _ _ Hc) as (sm' & lc' & Hsm' & Ho'). rewrite Hsm' in Hsm. injection Hsm as <-.
  rewrite Ho' in Ho. injection Ho as -> <-. destruct (cp_entries _ _ Hc) as (md & Hmd & Hlen).
  set (sig := signature_of nonce (prop_Header prop) lc (prop_Metadata prop) aux).
  destruct (Hsign (AsBytes (rebuild_header sig identity))) as (value & Hval & Hok).
  eexists. split.
  - eapply SignProposal_run; [exact Hb|apply Hc|exact Hser| |exact Hval]. unfold last_config_number in *. by rewrite Hrtc.
  - intros Hf. apply accepted_iff. split. eexists _, sig, _, policy, block, sm', md.
    split_and!; try done; [by apply Signature_roundtrip|apply OrdererBlockMetadata_rt|done|].
    cbn [ts_Value]. revert Hok. unfold AsBytes, ConcatenateBytes. cbn. by rewrite app_nil_r.
Qed.

(** ** Requests of a proposal *)

Lemma verifyRequest_id v b r i : verifyRequest v b r = Ok i -> RequestID v r = Ok i.
Proof. unfold verifyRequest, RequestID. intros H. inv_run. rewrite E. cbn. by rewrite H. Qed.

Lemma request_ids_ok v b l infos : Forall2 (fun r i => verifyRequest v b r = Ok i) l infos -> request_ids v l = Ok infos.
Proof. induction 1 as [|r i l l' Hr _ IH]; [done|]. cbn. by rewrite (verifyRequest_id _ _ _ _ Hr), IH. Qed.

Lemma VerifyProposal_transactions v arrival prop infos block data :
  VerifyProposal v arrival prop = Ok infos -> ProposalToBlock prop = Ok block -> b_Data block = Some data ->
  data <> [] /\ validateTransactions arrival data (verifyRequest v) = Ok infos.
Proof.
  unfold VerifyProposal, verifyBlockDataAndMetadata. intros H Hb Hd. rewrite Hb in H. cbn [mbind outcome_bind] in H. inv_run.
  split; [|congruence]. intros ->. simplify_eq.
Qed.

(** The requests of an accepted proposal are found again when it is delivered. *)
Lemma RequestsFromProposal_agrees v arrival prop infos block data :
  ProposalToBlock prop = Ok block -> b_Data block = Some data -> arrival ≡ₚ seq 0 (length data) ->
  VerifyProposal v arrival prop = Ok infos -> RequestsFromProposal v prop = Ok infos.
Proof.
  intros Hb Hd Ha Hv. destruct (VerifyProposal_transactions _ _ _ _ _ _ Hv Hb Hd) as [_ Ht].
  apply validate_any_order in Ht; [|done]. unfold RequestsFromProposal. rewrite Hb, Hd. by eapply request_ids_ok.
Qed.

(** ** Headers *)

Definition with_header (h : bytes) (prop : Proposal) : Proposal :=
  {| prop_Payload := prop_Payload prop; prop_Header := h; prop_Metadata := prop_Metadata prop;
     prop_VerificationSequence := prop_VerificationSequence prop |}.

Definition with_block_header (h : BlockHeader) (block : Block) : Block :=
  {| b_Header := h; b_Data := b_Data block; b_Metadata := b_Metadata block |}.

Lemma ProposalToBlock_with_header prop block hb h :
  ProposalToBlock prop = Ok block -> hb <> [] -> unmarshal_header hb = Ok h ->
  ProposalToBlock (with_header hb prop) = Ok (with_block_header h block).
Proof.
  intros Hb Hne Hh. unfold ProposalToBlock in *. cbn [with_header prop_Header prop_Payload].
  rewrite (bool_decide_eq_false_2 (hb = [])) by done. codec_simpl. rewrite Hh. codec_simpl.
  inv_run. rewrite E1. codec_simpl. rewrite E2. codec_simpl. rewrite E3. codec_simpl. rewrite E4. codec_simpl. done.
Qed.

(** A block header is part of the verdict only through its hashes and, for a
    configuration block, its number. *)
Lemma VerifyProposal_with_header v arrival prop block infos hb k :
  let h := {| Number := k; PreviousHash := PreviousHash (b_Header block); DataHash := DataHash (b_Header block) |} in
  VerifyProposal v arrival prop = Ok infos -> ProposalToBlock prop = Ok block ->
  (isConfigBlock block = true -> k = Number (b_Header block)) ->
  hb <> [] -> unmarshal_header hb = Ok h ->
  VerifyProposal v arrival (with_header hb prop) = Ok infos.
Proof.
  intros h Hv Hb Hk Hne Hh. unfold VerifyProposal in *. rewrite Hb in Hv.
  rewrite (ProposalToBlock_with_header prop block hb h) by done.
  cbn [mbind outcome_bind with_header prop_Metadata prop_VerificationSequence] in *.
  change (verifyHashChain (with_block_header h block)) with (verifyHashChain block).
  assert (last_config_number (v_RuntimeConfig v) (with_block_header h block) =
          last_config_number (v_RuntimeConfig v) block) as Hlc.
  { unfold last_config_number. change (isConfigBlock (with_block_header h block)) with (isConfigBlock block).
    destruct (deref _); [|done..]. cbn. destruct (isConfigBlock block); [by rewrite Hk|done]. }
  assert (verifyBlockDataAndMetadata v arrival (with_block_header h block) (prop_Metadata prop) =
          verifyBlockDataAndMetadata v arrival block (prop_Metadata prop)) as ->; [|exact Hv].
  unfold verifyBlockDataAndMetadata. repeat (apply bind_ext; intros ?). by rewrite Hlc.
Qed.

(** ** No input makes the verifier panic *)

(** The parts of Fabric the verifier calls return. *)
Record env_returns (v : Verifier) : Prop := {
  er_filters ch e : nopanic (ApplyFilters ch e);
  er_template e : nopanic (NewChannelConfig e);
  er_propose_new e f : NewChannelConfig e = Ok f -> nopanic (f e);
  er_propose ch e : nopanic (ProposeConfigUpdate ch e);
  er_policies name policy l : GetPolicy v name = Some policy -> nopanic (policy l);
  er_identity i : nopanic (ValidateIdentityStructure v i);
  er_config : is_Some (rtc_LastConfigBlock (v_RuntimeConfig v));
}.

#[local] Hint Resolve er_filters er_template er_propose_new er_propose er_policies er_identity : nopanic.

Lemma ProposalToBlock_nopanic prop : nopanic (ProposalToBlock prop).
Proof. unfold ProposalToBlock, unmarshal_header, ByteBufferTuple_FromBytes. nopanic. Qed.

Lemma Signature_Unmarshal_nopanic b : nopanic (Signature_Unmarshal b).
Proof. unfold Signature_Unmarshal. nopanic. Qed.

Lemma utils_nopanic :
  (forall b, nopanic (UnmarshalEnvelope b)) /\ (forall b, nopanic (UnmarshalPayload b)) /\
  (forall b, nopanic (UnmarshalChannelHeader b)) /\ (forall e, nopanic (ChannelID e)).
Proof.
  unfold ChannelID, utils_ChannelHeader, UnmarshalEnvelope, UnmarshalPayload, UnmarshalChannelHeader.
  split_and!; intros; nopanic.
Qed.

Lemma UnmarshalEnvelope_nopanic b : nopanic (UnmarshalEnvelope b).
Proof. apply utils_nopanic. Qed.
Lemma UnmarshalPayload_nopanic b : nopanic (UnmarshalPayload b).
Proof. apply utils_nopanic. Qed.
Lemma UnmarshalChannelHeader_nopanic b : nopanic (UnmarshalChannelHeader b).
Proof. apply utils_nopanic. Qed.
Lemma ChannelID_nopanic e : nopanic (ChannelID e).
Proof. apply utils_nopanic. Qed.
#[local] Hint Resolve ProposalToBlock_nopanic Signature_Unmarshal_nopanic UnmarshalEnvelope_nopanic
  UnmarshalPayload_nopanic UnmarshalChannelHeader_nopanic ChannelID_nopanic : nopanic.

Lemma ValidateConfig_nopanic v ch e : env_returns v -> nopanic (ValidateConfig ch e).
Proof.
  intros Hv. assert (forall o c h, nopanic (verifyConfigUpdateMsg ch o c h)) as Hu.
  { intros o c h. unfold verifyConfigUpdateMsg. nopanic.
    match goal with H : ChannelID _ = Panic _ |- _ => by apply ChannelID_nopanic in H end. }
  unfold ValidateConfig, UnmarshalEnvelopeOfType. nopanic; try apply Hu.
Qed.
#[local] Hint Resolve ValidateConfig_nopanic : nopanic.

Lemma unwrapReq_nopanic r : nopanic (unwrapReq r).
Proof. unfold unwrapReq. nopanic. Qed.
#[local] Hint Resolve unwrapReq_nopanic : nopanic.

Lemma requestID_nopanic v h : env_returns v -> nopanic (requestIDFromSigHeader v h).
Proof. intros Hv. unfold requestIDFromSigHeader. nopanic. Qed.
#[local] Hint Resolve requestID_nopanic : nopanic.

Lemma Evaluate_nopanic v l : env_returns v -> nopanic (chainACL_Evaluate v l) /\ nopanic (consenterVerifier_Evaluate v l).
Proof.
  intros Hv. unfold chainACL_Evaluate, consenterVerifier_Evaluate.
  split; (apply nopanic_bind; [nopanic|]); intros p Hp; apply ok_or_Ok in Hp; nopanic.
Qed.

Lemma chainACL_nopanic v l : env_returns v -> nopanic (chainACL_Evaluate v l).
Proof. intros. by apply Evaluate_nopanic. Qed.
Lemma consenterVerifier_nopanic v l : env_returns v -> nopanic (consenterVerifier_Evaluate v l).
Proof. intros. by apply Evaluate_nopanic. Qed.
#[local] Hint Resolve chainACL_nopanic consenterVerifier_nopanic : nopanic.

Lemma verifyRequest_nopanic v b r : env_returns v -> nopanic (verifyRequest v b r).
Proof. intros Hv. unfold verifyRequest. nopanic. Qed.

Lemma validateTransactions_nopanic arrival data f :
  (forall b r, nopanic (f b r)) -> nopanic (validateTransactions arrival data f).
Proof.
  intros Hf. unfold validateTransactions. apply nopanic_bind.
  - generalize (f (1 <? length data)%nat) (Hf (1 <? length data)%nat). intros g Hg. clear arrival.
    induction data as [|r l IH]; cbn; nopanic. by apply Hg in H.
  - intros vs Hvs. apply validations_Ok in Hvs as [-> _]. apply nopanic_bind; [|nopanic].
    generalize (f (1 <? length data)%nat) (Hf (1 <? length data)%nat) (∅ : gmap nat RequestInfo). intros g Hg.
    induction arrival as [|i l IH]; intros m; cbn; nopanic.
    rewrite list_lookup_fmap in H. apply fmap_Some in H as (x & _ & ->). apply Hg.
Qed.

Lemma GetMetadata_nopanic block md i :
  b_Metadata block = Some md -> (i < length md)%nat -> nopanic (GetMetadataFromBlock block i).
Proof.
  intros Hm Hi. unfold GetMetadataFromBlock, metadata_at, index. rewrite Hm. cbn.
  destruct (lookup_lt_is_Some_2 md i Hi) as [b ->]. cbn. nopanic.
Qed.

Lemma VerifyProposal_nopanic v arrival prop : env_returns v -> nopanic (VerifyProposal v arrival prop).
Proof.
  intros Hv. unfold VerifyProposal. apply nopanic_bind; [nopanic|]. intros block Hb.
  destruct (ProposalToBlock_inv _ _ Hb) as (data & md & Hd & Hm & _).
  apply nopanic_bind; [unfold verifyHashChain; rewrite Hd; cbn; nopanic|]. intros _ _.
  apply nopanic_bind; [|nopanic]. unfold verifyBlockDataAndMetadata, last_config_number. rewrite Hd, Hm. cbn [ok_or mbind outcome_bind].
  destruct (er_config _ Hv) as [cb ->]. cbn [deref mbind outcome_bind mret outcome_ret].
  apply nopanic_bind; [nopanic|]. intros _ _. apply nopanic_bind; [nopanic|]. intros u Hl.
  apply ensure_Ok, Nat.leb_le in Hl.
  assert (forall i, (i < metadata_entries)%nat -> nopanic (GetMetadataFromBlock block i)) as Hg.
  { intros i Hi. apply (GetMetadata_nopanic _ md); [done|lia]. }
  pose proof (Hg SIGNATURES ltac:(unfold SIGNATURES, metadata_entries; lia)) as Hs.
  pose proof (Hg LAST_CONFIG ltac:(unfold LAST_CONFIG, metadata_entries; lia)) as Hc.
  pose proof (fun b r => verifyRequest_nopanic v b r Hv) as Hr.
  pose proof (validateTransactions_nopanic arrival data _ Hr) as Ht. nopanic.
Qed.

Lemma bound_nopanic sig identity prop : nopanic (verifySignatureIsBoundToProposal sig identity prop).
Proof.
  unfold verifySignatureIsBoundToProposal. do 5 (apply nopanic_bind; [nopanic|]; intros).
  apply nopanic_bind; [nopanic|]. intros block Hb. destruct (ProposalToBlock_inv _ _ Hb) as (data & md & Hd & Hm & _).
  rewrite Hm. cbn [deref mbind outcome_bind]. apply nopanic_bind; [nopanic|]. intros u Hl.
  apply ensure_Ok, Nat.eqb_eq in Hl. do 5 (destruct md as [|? md]; [done|]). cbn. nopanic.
Qed.
#[local] Hint Resolve bound_nopanic : nopanic.

Lemma VerifyConsenterSig_nopanic v sg prop : env_returns v -> nopanic (VerifyConsenterSig v sg prop).
Proof. intros Hv. unfold VerifyConsenterSig. nopanic. Qed.

Lemma RequestsFromProposal_nopanic v prop : env_returns v -> nopanic (RequestsFromProposal v prop).
Proof.
  intros Hv. assert (forall r, nopanic (RequestID v r)) as Hr.
  { intros r. unfold RequestID. case_match; [done..|]. exfalso. revert H.
    apply nopanic_bind; [nopanic|]. intros. nopanic. }
  assert (forall l, nopanic (request_ids v l)) as Hl by (induction l; cbn; nopanic).
  unfold RequestsFromProposal. destruct (ProposalToBlock prop) as [b|e|p] eqn:E; [|done|by apply ProposalToBlock_nopanic in E].
  nopanic.
Qed.

(** A header followed by other bytes is read as the header, so the proposal is
    accepted; but a signer signs the header it read, which is not the one the
    verifier compares with. *)
Lemma trailing_header_unsignable v arrival prop block infos junk :
  canonical_proposal prop block -> VerifyProposal v arrival prop = Ok infos -> fits (prop_Header prop) -> junk <> [] ->
  let prop' := with_header (prop_Header prop ++ junk) prop in
  VerifyProposal v arrival prop' = Ok infos /\
  forall id s rtc nonce aux sg v', SignProposal id s rtc nonce prop' aux = Ok sg -> fits (ts_Msg sg) ->
    is_ok (VerifyConsenterSig v' sg prop') = false.
Proof.
  intros Hc Hv Hf Hj prop'. pose proof (cp_block _ _ Hc) as Hb. pose proof (cp_header _ _ Hc) as Hh.
  destruct (ProposalToBlock_inv _ _ Hb) as (data & md & _ & _ & Hn).
  assert (unmarshal_header (prop_Header prop ++ junk) = Ok (b_Header block)) as Hu by (by apply header_roundtrip).
  assert (prop_Header prop ++ junk <> []) as Hne by (intros E; by apply app_eq_nil in E as [_ ->]).
  split.
  - apply (VerifyProposal_with_header v arrival prop block infos _ (Number (b_Header block))); try done.
    rewrite Hu. by destruct (b_Header block).
  - intros id s rtc nonce aux sg v' Hs Hfs. apply SignProposal_inv in Hs as (b' & hb & creator & lc & Hb' & Hhb & _ & _ & _ & Hsg).
    unfold prop' in Hb'. rewrite (ProposalToBlock_with_header prop block _ (b_Header block)) in Hb' by done.
    apply Ok_inj in Hb' as ->. cbn in Hhb. rewrite Hh in Hhb. apply Ok_inj in Hhb as ->.
    destruct (VerifyConsenterSig v' sg prop') as [aux'|?|?] eqn:E; [exfalso|done..].
    apply accepted_iff in E as [(identity & sig & o & policy & bk & sm & mdd & _ & Hsig & Hbh & _)].
    rewrite Hsg in Hsig, Hfs. cbn [ts_Msg] in *. rewrite Signature_roundtrip in Hsig by done. apply Ok_inj in Hsig as ->.
    cbn in Hbh. symmetry in Hbh. rewrite <- (app_nil_r (prop_Header prop)) in Hbh at 2. by apply app_inv_head in Hbh.
Qed.

(** C6. The assembler and the verifier agree: from requests that are each
    acceptable on their own, a leader whose runtime configuration is current
    assembles a proposal of a non-empty beginning of them (one configuration
    transaction, or others only), and every node with the same configuration
    accepts the proposal, whatever the order in which its goroutines finish,
    with the identifiers of exactly those requests. *)
Theorem assembled_proposal_verifies v lb cb metadata vm requests :
  rtc_current (v_RuntimeConfig v) lb cb -> is_u64 (v_Sequence v) -> Unmarshal pb_ViewMetadata metadata = Ok vm ->
  requests <> [] -> Forall (fun r => is_ok (VerifyRequest v r) = true) requests ->
  exists prop batch infos,
    AssembleProposal (v_RuntimeConfig v) (v_Sequence v) metadata requests = Ok prop /\
    batch `prefix_of` requests /\ batch <> [] /\
    Forall2 (fun r i => VerifyRequest v r = Ok i) batch infos /\
    (fits (prop_Header prop) -> fits (prop_Payload prop) ->
     (exists block, canonical_proposal prop block /\ b_Data block = Some batch) /\
     forall arrival, arrival ≡ₚ seq 0 (length batch) -> VerifyProposal v arrival prop = Ok infos).
Proof. apply assemble_and_verify. Qed.

(** The signer and the verifier agree: on a canonical proposal it accepts, a
    node whose signatures satisfy the policy of the orderers makes a signature
    that every node that knows its identity and the same last configuration
    block accepts, giving back the auxiliary data. *)
Theorem honest_signature_accepted v arrival prop block infos id s rtc nonce aux identity policy :
  canonical_proposal prop block -> VerifyProposal v arrival prop = Ok infos ->
  rtc_LastConfigBlock rtc = rtc_LastConfigBlock (v_RuntimeConfig v) ->
  ID2Identities (v_RuntimeConfig v) !! id = Some identity ->
  GetPolicy v "/Channel/Orderer/Writers" = Some policy -> signs_for s identity policy ->
  exists sg, SignProposal id s rtc nonce prop aux = Ok sg /\
    (fits (ts_Msg sg) -> VerifyConsenterSig v sg prop = Ok aux).
Proof. apply honest_signature. Qed.

(** What an accepted signature says: the verifier accepts a signature for a
    proposal exactly when its signer is a known node, it was made over the
    proposal's header, the auxiliary data, and orderer metadata that carry the
    proposal's metadata and equal those of the proposal's block, under the
    signer's identity, and the policy of the orderers accepts it. *)
Theorem VerifyConsenterSig_spec v sg prop aux : VerifyConsenterSig v sg prop = Ok aux <-> signature_accepted v sg prop aux.
Proof. apply accepted_iff. Qed.

(** C19. No proposal, signature or request a node can receive, fuzzed or not,
    makes the verifier panic, as long as the parts of Fabric it calls return. *)
Theorem verifier_never_panics v : env_returns v ->
  (forall arrival prop, nopanic (VerifyProposal v arrival prop)) /\
  (forall sg prop, nopanic (VerifyConsenterSig v sg prop)) /\
  (forall sg, nopanic (VerifySignature v sg)) /\
  (forall r, nopanic (VerifyRequest v r)) /\
  (forall prop, nopanic (RequestsFromProposal v prop)) /\
  (forall msg, nopanic (AuxiliaryData msg)).
Proof.
  intros Hv. split_and!; intros.
  - by apply VerifyProposal_nopanic.
  - by apply VerifyConsenterSig_nopanic.
  - unfold VerifySignature. nopanic.
  - by apply verifyRequest_nopanic.
  - by apply RequestsFromProposal_nopanic.
  - unfold AuxiliaryData. destruct (Signature_Unmarshal msg) eqn:E; [done..|]. by apply Signature_Unmarshal_nopanic in E.
Qed.

(** The concurrent check of transactions is deterministic where it matters:
    whatever the order in which the goroutines deliver their results, the
    transactions of a block are accepted exactly when each of them is, and the
    identifiers come in the order of the block. *)
Theorem validateTransactions_any_order arrival data f infos :
  arrival ≡ₚ seq 0 (length data) ->
  validateTransactions arrival data f = Ok infos <->
  Forall2 (fun r i => f (1 <? length data)%nat r = Ok i) data infos.
Proof. apply validate_any_order. Qed.
End Spec.
