(* ===== verification/SmartBFTChainSpec.v ===== *)
(** * Correctness of the chain The ledger, its writer and the runtime
    configuration stay in step, whatever is delivered or pulled from other
    nodes; a decision read back from the ledger is the one that was delivered,
    and its signatures can be verified from the ledger, as far as the
    configured identities are the sanitized ones; the height a node
    synchronizes to is one that enough nodes report; a sequence of blocks is
    verified link by link. *)

From S2P Require Import Prelude Randomness BFTMessages FabricFuzzer BigEndian Asn1.
From S2P Require Import FabricBlocks SmartBFTConfig SmartBFTConfigSpec SmartBFT SmartBFTChain SmartBFTSpec.

Section Ledgers.
Context {Pb : Protobuf} {PbOk : ProtobufOk} {Certs : Certificates} {CC : ChannelConfig}
  {Tx : ConfigTx} {TxOk : ConfigTxOk}.

(** ** The ledger *)

(** Blocks are numbered from 0 and each carries the hash of the one before. *)
Definition ledger_ok (l : Ledger) : Prop :=
  forall i b, l !! i = Some b ->
    Number (b_Header b) = Z.of_nat i /\
    forall p, i <> 0%nat -> l !! pred i = Some p -> BlockHeader_Hash (b_Header p) = Ok (PreviousHash (b_Header b)).

Lemma Append_ok l b l' :
  Append l b = Ok l' -> ledger_ok l -> l' = l ++ [b] /\ Number (b_Header b) = Height l /\ ledger_ok l'.
Proof.
  unfold Append. intros H Hl. inv_run. apply Z.eqb_eq in E. apply bool_decide_eq_true in E1. split_and!; [done..|].
  intros i c Hc. destruct (decide (i < length l)%nat) as [Hi|Hi].
  - rewrite lookup_app_l in Hc by done. destruct (Hl i c Hc) as [Hn Hp]. split; [done|]. intros p Hne Hp'.
    rewrite lookup_app_l in Hp' by lia. by apply Hp.
  - rewrite lookup_app_r in Hc by lia. apply list_lookup_singleton_Some in Hc as [Hi' <-].
    unfold Height in E. split; [lia|]. intros p Hne Hp. rewrite lookup_app_l in Hp by lia.
    unfold CurrentBlockHash in E0. rewrite last_lookup in E0. replace (pred (length l)) with (pred i) in E0 by lia.
    rewrite Hp in E0. by rewrite E0, E1.
Qed.

(** ** The writer *)

(** A block with other metadata. *)
Definition same_block (b b' : Block) : Prop := b_Header b' = b_Header b /\ b_Data b' = b_Data b.

Lemma put_metadata_Ok i m b b' :
  put_metadata i m b = Ok b' <->
  exists md, b_Metadata b = Some md /\ (i < length md)%nat /\ b' = set_metadata (<[i := m]> md) b.
Proof.
  unfold put_metadata. split.
  - intros H. inv_run. eexists. by split_and!.
  - intros (md & Hm & Hi & ->). rewrite Hm. cbn. unfold set_index. by rewrite decide_True.
Qed.

Ltac put_inv :=
  match goal with
  | H : put_metadata _ _ _ = Ok _ |- _ =>
      let md := fresh "md" in let Hm := fresh "Hm" in let Hl := fresh "Hl" in
      apply put_metadata_Ok in H as (md & Hm & Hl & ->)
  end.

(** The type of the first transaction of a block. *)
Definition tx_type (b : Block) : outcome Z := e ← ExtractEnvelope b 0; envelope_type e.

Lemma same_block_type b b' : same_block b b' -> tx_type b' = tx_type b.
Proof. intros [Hh Hd]. unfold tx_type, ExtractEnvelope. by rewrite Hd. Qed.

Lemma same_block_config b b' : same_block b b' -> ConfigFromBlock b' = ConfigFromBlock b.
Proof. intros [Hh Hd]. unfold ConfigFromBlock. by rewrite Hd, Hh. Qed.

Lemma IsConfigBlock_type b :
  IsConfigBlock b = true <-> tx_type b = Ok HeaderType_CONFIG \/ tx_type b = Ok HeaderType_ORDERER_TRANSACTION.
Proof.
  unfold IsConfigBlock, IsConfigTransaction, tx_type. destruct (ExtractEnvelope b 0) as [e|?|?]; [|naive_solver..].
  cbn. destruct (envelope_type e) as [t|?|?]; [|naive_solver..]. rewrite orb_true_iff, !Z.eqb_eq. naive_solver.
Qed.

Lemma ConfigFromBlock_type b ce :
  Number (b_Header b) <> 0 -> ConfigFromBlock b = Ok ce -> tx_type b = Ok HeaderType_CONFIG.
Proof.
  unfold ConfigFromBlock, tx_type, ExtractEnvelope. intros Hn H.
  destruct (b_Data b) as [[|txn data]|]; [done| |done]. inv_run. cbn. rewrite E. cbn.
  rewrite (proj2 (Z.eqb_neq _ 0) Hn) in H. inv_run. apply Z.eqb_eq in E3.
  unfold envelope_type. rewrite E0. cbn. rewrite E1. cbn. rewrite E2. cbn. by rewrite E3.
Qed.

Lemma config_type_ConfigFromBlock b pl e h chdr ce :
  ExtractEnvelope b 0 = Ok e -> UnmarshalPayload (env_Payload e) = Ok pl -> pl_Header pl = Some h ->
  UnmarshalChannelHeader (default [] (ph_ChannelHeader h)) = Ok chdr -> ch_Type chdr = HeaderType_CONFIG ->
  Unmarshal pb_ConfigEnvelope (pl_Data pl) = Ok ce -> ConfigFromBlock b = Ok ce.
Proof.
  unfold ExtractEnvelope, ConfigFromBlock. intros He Hp Hh Hc Ht Hce. inv_run. rewrite E.
  destruct v as [|txn data]; [done|]. cbn in E0. injection E0 as <-. rewrite He. cbn.
  change (GetPayload e) with (UnmarshalPayload (env_Payload e)). rewrite Hp. cbn. case_match; [by rewrite Hce|].
  rewrite Hh. cbn. rewrite Hc. cbn. rewrite Ht. cbn. by rewrite Hce.
Qed.

Definition LAST_CONFIG_entry (num : Z) : bytes :=
  Marshal pb_Metadata {| md_Value := Marshal pb_LastConfig num; md_Signatures := [] |}.

(** What committing does to the writer: the number and sequence of the last
    configuration follow the channel's sequence. *)
Definition advanced (s : Support) : bool := lastConfigSeq s <? sup_Sequence s.
Definition next_config_num (s : Support) : Z :=
  if advanced s then Number (b_Header (lastBlock s)) else lastConfigBlockNum s.
Definition next_config_seq (s : Support) : Z := if advanced s then sup_Sequence s else lastConfigSeq s.

Record committed (s s' : Support) : Prop := {
  com_append : Append (sup_Ledger s) (lastBlock s') = Ok (sup_Ledger s');
  com_same : same_block (lastBlock s) (lastBlock s');
  com_seq : sup_Sequence s' = sup_Sequence s;
  com_num : lastConfigBlockNum s' = next_config_num s;
  com_cfgseq : lastConfigSeq s' = next_config_seq s;
  (** A signed block gets only the number of its last configuration. *)
  com_block md sig : b_Metadata (lastBlock s) = Some md -> md !! SIGNATURES = Some sig -> sig <> [] ->
    lastBlock s' = set_metadata (<[LAST_CONFIG := LAST_CONFIG_entry (next_config_num s)]> md) (lastBlock s);
}.

Lemma commitBlock_committed signer nonce s s' : commitBlock signer nonce s None = Ok s' -> committed s s'.
Proof.
  unfold commitBlock, addLastConfigSignature. intros H. cbn [mbind outcome_bind mret outcome_ret] in H. inv_run.
  fold (advanced s) in *. put_inv. unfold metadata_at in *. cbn [set_metadata b_Metadata deref mbind outcome_bind] in *.
  inv_run. match goal with H : _ !! SIGNATURES = Some _ |- _ => rewrite list_lookup_insert_ne in H by done end.
  case_bool_decide as Hsig; [unfold addBlockSignature in *; inv_run; put_inv|inv_run];
    (split; cbn; [done..|]; intros ? ? ? ? ?; by simplify_eq).
Qed.

(** A block goes to the writer with the sequence it leads to. *)
Record handed_over (s : Support) (block : Block) (s1 : Support) : Prop := {
  ho_ledger : sup_Ledger s1 = sup_Ledger s;
  ho_block : lastBlock s1 = block;
  ho_num : lastConfigBlockNum s1 = lastConfigBlockNum s;
  ho_cfgseq : lastConfigSeq s1 = lastConfigSeq s;
  ho_seq : sup_Sequence s1 =
    if decide (tx_type block = Ok HeaderType_CONFIG) then sup_Sequence s +u 1 else sup_Sequence s;
  ho_config : tx_type block = Ok HeaderType_CONFIG -> is_ok (ConfigFromBlock block) = true;
}.

Lemma WriteConfigBlock_run signer nonce s block s' :
  WriteConfigBlock signer nonce s block None = Ok s' -> exists s1, committed s1 s' /\ handed_over s block s1.
Proof.
  unfold WriteConfigBlock, WriteBlock. intros H. inv_run.
  assert (tx_type block = Ok (ch_Type v2)) as Ht.
  { unfold tx_type. rewrite E. cbn. unfold envelope_type. change (GetPayload v) with (UnmarshalPayload (env_Payload v)).
    rewrite E0. cbn. rewrite E1. cbn. by rewrite E2. }
  destruct (Z.eqb_spec (ch_Type v2) HeaderType_ORDERER_TRANSACTION) as [To|_]; inv_run.
  - apply commitBlock_committed in H. eexists. split; [exact H|]. rewrite To in Ht. split; try done.
    + by rewrite decide_False by (by rewrite Ht).
    + by rewrite Ht.
  - destruct (Z.eqb_spec (ch_Type v2) HeaderType_CONFIG) as [Tc|_]; [|done]. inv_run.
    replace (if String.eqb _ _ then None else None) with (None : option bytes) in H by (by case_match).
    apply commitBlock_committed in H. eexists. split; [exact H|]. rewrite Tc in Ht. split; try done.
    + rewrite decide_True by done. cbn. by eapply validated_sequence.
    + intros _. by erewrite (config_type_ConfigFromBlock block v0 v v1 v2) by done.
Qed.

Lemma write_block_run signer nonce s block s' :
  write_block signer nonce s block = Ok s' -> exists s1, committed s1 s' /\ handed_over s block s1.
Proof.
  unfold write_block. intros H. destruct (IsConfigBlock block) eqn:Ec; [by eapply WriteConfigBlock_run|].
  assert (tx_type block <> Ok HeaderType_CONFIG) as Hn.
  { intros Ht. rewrite (proj2 (IsConfigBlock_type block)) in Ec by (by left). done. }
  unfold WriteBlock in H. apply commitBlock_committed in H. eexists. split; [exact H|].
  split; try done. by rewrite decide_False.
Qed.

(** ** The invariant of a chain *)

(** The ledger is a chain of blocks, the writer stands at its end, and knows the
    sequence of the channel. *)
Record support_ok (s : Support) : Prop := {
  sok_ledger : ledger_ok (sup_Ledger s);
  sok_last : last (sup_Ledger s) = Some (lastBlock s);
  sok_seq : lastConfigSeq s = sup_Sequence s;
}.

(** The runtime configuration is well-formed, is that of the last block, and
    agrees with the writer about the last configuration block. *)
Record chain_ok (c : BFTChain) : Prop := {
  cok_support : support_ok (c_support c);
  cok_rtc : rtc_ok (c_RuntimeConfig c);
  cok_last : rtc_LastBlock (c_RuntimeConfig c) = Some (lastBlock (c_support c));
  cok_config : exists cb, rtc_LastConfigBlock (c_RuntimeConfig c) = Some cb /\
                 Number (b_Header cb) = lastConfigBlockNum (c_support c);
}.

Lemma support_height s : support_ok s -> 0 < Height (sup_Ledger s).
Proof.
  intros [_ Hl _]. unfold Height. destruct (sup_Ledger s); [done|]. cbn. lia.
Qed.

Lemma support_last_number s : support_ok s -> Number (b_Header (lastBlock s)) = Height (sup_Ledger s) - 1.
Proof.
  intros Hs. pose proof (support_height s Hs) as Hh. pose proof (sok_last _ Hs) as Hl. rewrite last_lookup in Hl.
  destruct (sok_ledger _ Hs _ _ Hl) as [-> _]. unfold Height in *. lia.
Qed.

Lemma write_block_support signer nonce s block s' :
  write_block signer nonce s block = Ok s' -> support_ok s -> 0 <= sup_Sequence s < two64 - 1 ->
  support_ok s' /\ same_block block (lastBlock s') /\ sup_Ledger s' = sup_Ledger s ++ [lastBlock s'] /\
  Number (b_Header block) = Height (sup_Ledger s) /\
  is_ok (ConfigFromBlock block) = bool_decide (tx_type block = Ok HeaderType_CONFIG) /\
  sup_Sequence s' = (if decide (tx_type block = Ok HeaderType_CONFIG) then sup_Sequence s + 1 else sup_Sequence s) /\
  lastConfigBlockNum s' =
    (if decide (tx_type block = Ok HeaderType_CONFIG) then Number (b_Header block) else lastConfigBlockNum s).
Proof.
  intros Hw Hs Hroom. pose proof (support_height s Hs) as Hh. destruct Hs as [Hl Hlast Hseq].
  apply write_block_run in Hw as (s1 & [Ha Hsame Hcs Hcn Hcc _] & [Hol Hob Hon Hoc Hos Hocf]).
  rewrite Hol in Ha. apply Append_ok in Ha as (Hl' & Hnum & Hlok); [|done]. rewrite Hob in *.
  destruct Hsame as [Hsh Hsd]. rewrite Hsh in Hnum.
  rewrite u64_add_small in Hos by lia.
  unfold next_config_num, next_config_seq, advanced in *. rewrite Hob, Hon, Hoc, Hseq, Hos in *.
  split_and!; try done.
  - split; [done|by rewrite Hl', last_snoc|]. rewrite Hcc, Hcs. case_decide; [by rewrite (proj2 (Z.ltb_lt _ _)) by lia|].
    by rewrite Z.ltb_irrefl.
  - case_bool_decide as Ht; [by apply Hocf|]. destruct (ConfigFromBlock block) eqn:E; [|done..].
    apply ConfigFromBlock_type in E; [done|lia].
  - rewrite Hcn. case_decide; [by rewrite (proj2 (Z.ltb_lt _ _)) by lia|]. by rewrite Z.ltb_irrefl.
Qed.

Lemma updateRuntimeConfig_support c block r c' :
  updateRuntimeConfig c block = Ok (r, c') -> c_support c' = c_support c /\ (c_halted c = true -> c_halted c' = true).
Proof. unfold updateRuntimeConfig. destruct (BlockCommitted _ _); intros H; inv_run; done. Qed.

(** Writing a block and updating the runtime configuration keeps them in step, or
    halts the chain. *)
Lemma commit_chain signer nonce c block s' r c' :
  chain_ok c -> 0 <= sup_Sequence (c_support c) < two64 - 1 ->
  write_block signer nonce (c_support c) block = Ok s' ->
  updateRuntimeConfig {| c_RuntimeConfig := c_RuntimeConfig c; c_support := s'; c_halted := c_halted c;
                         c_members := c_members c |} (lastBlock s') = Ok (r, c') ->
  c_halted c' = true \/ chain_ok c'.
Proof.
  intros [Hs Hrtc _ (cb & Hcb & Hn)] Hroom Hw Hu.
  destruct (write_block_support _ _ _ _ _ Hw Hs Hroom) as (Hs' & Hsame & Hl & Hnum & Hcfg & Hseq & Hlc).
  unfold updateRuntimeConfig in Hu. cbn [c_RuntimeConfig] in Hu.
  destruct (BlockCommitted _ _) as [rtc'|e|p] eqn:Eb; inv_run; [right|by left].
  destruct (BlockCommitted_run _ _ _ Eb (or_introl Hrtc)) as (Hr' & _ & Hlast & Hcb').
  split; cbn; [done..|]. rewrite Hcb', Hlc, (same_block_config _ _ Hsame), Hcfg.
  case_bool_decide as Ht; [rewrite decide_True by done|rewrite decide_False by done].
  - eexists. split; [done|]. by destruct Hsame as [-> _].
  - by exists cb.
Qed.

(** ** Delivering *)

Lemma Deliver_chain signer nonce c prop sigs r c' :
  chain_ok c -> 0 <= sup_Sequence (c_support c) < two64 - 1 -> Deliver signer nonce c prop sigs = Ok (r, c') ->
  c_halted c' = true \/
  (chain_ok c' /\ exists block, ProposalToBlock prop = Ok block /\ same_block block (lastBlock (c_support c')) /\
     sup_Ledger (c_support c') = sup_Ledger (c_support c) ++ [lastBlock (c_support c')]).
Proof.
  intros Hc Hroom H. unfold Deliver in H. inv_run. destruct (metadata_signatures sigs) as [ms|e|p]; inv_run; [|by left].
  put_inv. destruct (commit_chain _ _ _ _ _ _ _ Hc Hroom E1 H) as [Hh|Hc']; [by left|right]. split; [done|].
  exists v. split; [done|]. apply updateRuntimeConfig_support in H as [-> _]. cbn [c_support].
  by destruct (write_block_support _ _ _ _ _ E1 (cok_support _ Hc) Hroom) as (_ & Hsame & Hl' & _).
Qed.

(** Delivering returns no error: what fails is a panic. *)
Definition noerr {A} (m : outcome A) : Prop := forall e, m <> Err e.

Lemma noerr_bind {A B} (m : outcome A) (f : A -> outcome B) : noerr m -> (forall a, noerr (f a)) -> noerr (m ≫= f).
Proof. intros Hm Hf. destruct m as [a|e|p]; [apply Hf|by destruct (Hm e)|done]. Qed.
Lemma noerr_or_panic {A} s (m : outcome A) : noerr (or_panic s m).
Proof. by destruct m. Qed.
Lemma noerr_deref {A} (o : option A) : noerr (deref o).
Proof. by destruct o. Qed.
Lemma noerr_index {A} (l : list A) i : noerr (index l i).
Proof. unfold index. by destruct (l !! i). Qed.
Lemma noerr_set_index {A} (l : list A) i x : noerr (set_index l i x).
Proof. unfold set_index. by case_decide. Qed.
Lemma noerr_header h : noerr (BlockHeader_Bytes h).
Proof. unfold BlockHeader_Bytes. by case_match. Qed.

#[local] Hint Resolve noerr_or_panic noerr_deref noerr_index noerr_set_index noerr_header : noerr.
Ltac noerr :=
  repeat first [by intros ? | solve [eauto 2 with noerr] | apply noerr_bind; intros | case_match].

Lemma write_block_noerr signer nonce s block : noerr (write_block signer nonce s block).
Proof.
  unfold write_block, WriteConfigBlock, WriteBlock, commitBlock, addLastConfigSignature, addBlockSignature, put_metadata,
    metadata_at, newSignatureHeaderOrPanic.
  noerr.
Qed.

Lemma Deliver_noerr signer nonce c prop sigs : noerr (Deliver signer nonce c prop sigs).
Proof.
  unfold Deliver, put_metadata, updateRuntimeConfig. noerr. apply write_block_noerr.
Qed.

(** A block that does not continue the ledger takes the node down. *)
Lemma Deliver_wrong_number signer nonce c prop sigs block :
  support_ok (c_support c) -> 0 <= sup_Sequence (c_support c) < two64 - 1 ->
  ProposalToBlock prop = Ok block -> Number (b_Header block) <> Height (sup_Ledger (c_support c)) ->
  is_ok (metadata_signatures sigs) = true -> exists msg, Deliver signer nonce c prop sigs = Panic msg.
Proof.
  intros Hs Hroom Hb Hn Hsig. destruct (Deliver signer nonce c prop sigs) as [[r c']|e|p] eqn:H; [exfalso| |eauto].
  2:{ by apply Deliver_noerr in H. }
  unfold Deliver in H. rewrite Hb in H. cbn [or_panic mbind outcome_bind] in H.
  destruct (metadata_signatures sigs) as [ms|e|p]; inv_run; try done. put_inv.
  by destruct (write_block_support _ _ _ _ _ E0 Hs Hroom) as (_ & _ & _ & Hnum & _).
Qed.

(** ** Reading decisions back *)

(** A signature as a signer makes it, with auxiliary data the library reads. *)
Definition signed_by_node (header : bytes) (lc : Z) (metadata : bytes) (sg : types_Signature) : Prop :=
  exists nonce aux, ts_Msg sg = Signature_Marshal (signature_of nonce header lc metadata aux) /\
    fits (ts_Msg sg) /\ is_ok (Unmarshal pb_PreparesFrom aux) = true.

Lemma signatures_roundtrip header lc metadata sigs :
  Forall (signed_by_node header lc metadata) sigs ->
  exists ms, metadata_signatures sigs = Ok ms /\ length ms = length sigs /\
    Forall (fun m => fst m = orderer_metadata lc metadata) ms /\
    library_signatures header (orderer_metadata lc metadata) (snd <$> ms) = sigs.
Proof.
  induction 1 as [|sg l (nonce & aux & Hm & Hf & Ha) _ (ms & H1 & H2 & H3 & H4)]; [by exists []|].
  cbn. rewrite Hm in *. rewrite Signature_roundtrip by done. cbn. rewrite H1. cbn. eexists. split; [done|].
  split_and!; [cbn; by rewrite H2|by constructor|]. cbn. rewrite H4.
  apply is_ok_ex in Ha as [x ->]. f_equal. destruct sg as [id value msg]. cbn in *. by rewrite Hm.
Qed.

(** A batch is a configuration transaction alone, or has none. *)
Lemma batch_config_type requests batch b :
  singleConfigTxOrSeveralNonConfigTx requests = Ok batch -> b_Data b = Some batch ->
  isConfigBlock b = bool_decide (tx_type b = Ok HeaderType_CONFIG).
Proof.
  intros Hb Hd. assert ((exists r, batch = [r]) \/ exists r l, batch = r :: l /\ no_config r) as Hcases.
  { unfold singleConfigTxOrSeveralNonConfigTx in Hb. inv_run. destruct v as [|r l]; inv_run; [by left; eexists|].
    right. exists r, l. split; [done|]. destruct requests as [|q requests]; [done|]. cbn in E. inv_run.
    destruct (IsConfigTransaction v) eqn:Ec; inv_run; [done|]. by eexists. }
  unfold isConfigBlock, tx_type, ExtractEnvelope. rewrite Hd. cbn [ok_or mbind outcome_bind].
  assert (forall r l e, batch = r :: l -> UnmarshalEnvelope r = Ok e ->
    (x ← ok_or (batch !! 0%nat) "envelope index out of bounds";
     wrap "block data does not carry an envelope" (GetEnvelopeFromBlock x)) = Ok e) as Hx.
  { intros r l e -> He. cbn. change (GetEnvelopeFromBlock r) with (UnmarshalEnvelope r). by rewrite He. }
  destruct Hcases as [(r & ->)|(r & l & -> & e & He & Hc)].
  - cbn. change (GetEnvelopeFromBlock r) with (UnmarshalEnvelope r).
    destruct (UnmarshalEnvelope r) as [e|?|?]; [|done..]. cbn. destruct (envelope_type e) as [t|?|?]; [|done..].
    destruct (Z.eqb_spec t HeaderType_CONFIG) as [->|Hne]; [done|]. by rewrite bool_decide_eq_false_2 by congruence.
  - rewrite (Hx r l e) by done. cbn [mbind outcome_bind]. unfold IsConfigTransaction in Hc.
    rewrite bool_decide_eq_false_2; [|by intros Ht; rewrite Ht in Hc]. destruct l; [|done]. rewrite He.
    destruct (envelope_type e) as [t|?|?]; [|done..]. by apply orb_false_iff in Hc as [-> _].
Qed.

Lemma i64_back seq : 0 <= seq < two64 - 1 -> i64 (i64 (seq + 1) - 1) = i64 seq.
Proof.
  intros Hs. unfold i64 at 1. assert ((i64 (seq + 1) - 1) mod two64 = seq mod two64) as ->; [|done].
  unfold i64. rewrite (Z.mod_small (seq + 1)) by lia. case_match.
  - do 2 f_equal. lia.
  - replace (seq + 1 - two64 - 1) with (seq + (-1) * two64) by lia. by rewrite Z.mod_add.
Qed.

Lemma last_ledger_block l b : last l = Some b -> Height l < two64 -> LastBlockFromLedgerOrPanic l = Ok b.
Proof.
  intros Hl Hh. unfold LastBlockFromLedgerOrPanic, ledger_Block, Height in *. assert (0 < length l)%nat by (destruct l; [done|cbn; lia]).
  rewrite u64_sub_small by lia. rewrite (proj2 (Z.leb_le _ _)), (proj2 (Z.ltb_lt _ _)) by lia. cbn [andb].
  replace (Z.to_nat (Z.of_nat (length l) - 1)) with (pred (length l)) by lia. by rewrite <- last_lookup, Hl.
Qed.

(** A block as it is in the ledger: the assembled one with the signatures. *)
Definition signed_metadata (lc : Z) (metadata : bytes) (ms : list MetadataSignature) : list bytes :=
  <[SIGNATURES := Marshal pb_Metadata {| md_Value := orderer_metadata lc metadata; md_Signatures := ms |}]>
    (assembled_metadata lc metadata).

Lemma ledger_block_decision n h batch lc metadata ms hb seq :
  let md := assembled_metadata lc metadata in
  let block := assembled_block n h batch (signed_metadata lc metadata ms) in
  n <> 0 -> BlockHeader_Bytes (b_Header block) = Ok hb ->
  blockToDecision seq block = Ok {|
    d_Proposal := block_proposal hb batch md metadata (if isConfigBlock block then i64 (i64 seq - 1) else i64 seq);
    d_Signatures := library_signatures hb (orderer_metadata lc metadata) ms |}.
Proof.
  intros md block Hn Hhb.
  assert (without_signatures block = Ok (assembled_block n h batch md)) as Hws.
  { unfold without_signatures, put_metadata. cbn. by rewrite Metadata_rt. }
  unfold blockToDecision, blockToProposalWithoutSignaturesInMetadata. rewrite Hws. cbn [mbind outcome_bind].
  change (b_Header (assembled_block n h batch md)) with (b_Header block). rewrite Hhb. cbn [mbind outcome_bind].
  cbn [assembled_block b_Data b_Metadata deref mbind outcome_bind mret outcome_ret].
  change (Number (b_Header block)) with n. rewrite (proj2 (Z.eqb_neq n 0) Hn).
  change (metadata_at block SIGNATURES) with
    (Ok (Marshal pb_Metadata {| md_Value := orderer_metadata lc metadata; md_Signatures := ms |}) : outcome bytes).
  codec_simpl. cbn [md_Value md_Signatures]. unfold orderer_metadata. by codec_simpl.
Qed.

(** Delivering an assembled proposal puts exactly its block with the signatures
    into the ledger. *)
Lemma Deliver_assembled signer nonce c metadata requests prop sigs r c' lb cb :
  chain_ok c -> 0 <= sup_Sequence (c_support c) < two64 - 1 ->
  rtc_LastBlock (c_RuntimeConfig c) = Some lb -> rtc_LastConfigBlock (c_RuntimeConfig c) = Some cb ->
  0 <= Number (b_Header lb) < maxInt64 ->
  AssembleProposal (c_RuntimeConfig c) (sup_Sequence (c_support c)) metadata requests = Ok prop ->
  fits (prop_Header prop) -> fits (prop_Payload prop) -> sigs <> [] ->
  (forall block, ProposalToBlock prop = Ok block -> exists lc,
     last_config_number (c_RuntimeConfig c) block = Ok lc /\
     Forall (signed_by_node (prop_Header prop) lc (prop_Metadata prop)) sigs) ->
  Deliver signer nonce c prop sigs = Ok (r, c') ->
  exists n h batch lc ms hb seq,
    let block := assembled_block n h batch (signed_metadata lc metadata ms) in
    n <> 0 /\ BlockHeader_Bytes (b_Header block) = Ok hb /\ lastBlock (c_support c') = block /\
    prop = block_proposal hb batch (assembled_metadata lc metadata) metadata seq /\
    seq = (if isConfigBlock block then i64 (i64 (sup_Sequence (c_support c')) - 1) else i64 (sup_Sequence (c_support c'))) /\
    library_signatures hb (orderer_metadata lc metadata) ms = sigs.
Proof.
  intros Hc Hroom Hlb Hcb Hn Ha Hfh Hfp Hne Hsig Hd.
  destruct (AssembleProposal_inv _ _ _ _ _ _ _ Ha Hlb Hcb Hn) as (batch & h & hb & Hb & Hhb & ->).
  set (n := Number (b_Header lb) + 1) in *. set (lc := batch_config n cb batch) in *.
  assert (ProposalToBlock (block_proposal hb batch (assembled_metadata lc metadata) metadata (i64 (sup_Sequence (c_support c)))) =
    Ok (assembled_block n h batch (assembled_metadata lc metadata))) as Hpb.
  { rewrite <- (app_nil_r hb). rewrite (ProposalToBlock_ok (b_Header (assembled_block n h batch (assembled_metadata lc metadata)))); [done| |done..].
    unfold is_u64. cbn. unfold n, two64, maxInt64 in *. lia. }
  destruct (Hsig _ Hpb) as (lc' & Hlc' & Hf). rewrite (assembled_last_config _ _ _ _ _ _ cb) in Hlc' by done.
  injection Hlc' as <-. fold lc in Hf. cbn [block_proposal prop_Header prop_Metadata] in Hf.
  destruct (signatures_roundtrip _ _ _ _ Hf) as (ms & Hms & Hlen & Hfst & Hlib).
  unfold Deliver in Hd. rewrite Hpb, Hms in Hd. cbn [or_panic mbind outcome_bind] in Hd.
  assert (default [] (head (fst <$> ms)) = orderer_metadata lc metadata) as Hom.
  { destruct ms as [|m ms]; [by destruct sigs|]. by apply Forall_cons in Hfst as [Hm _]. }
  rewrite Hom in Hd. set (ms' := snd <$> ms) in *.
  set (block1 := assembled_block n h batch (signed_metadata lc metadata ms')).
  change (put_metadata SIGNATURES _ _) with (Ok block1) in Hd. cbn [mbind outcome_bind] in Hd. inv_run.
  match goal with Hw : write_block _ _ _ _ = Ok ?s |- _ => rename Hw into Hwr; rename s into s' end.
  apply updateRuntimeConfig_support in Hd as [Hcs _]. cbn [c_support] in Hcs.
  destruct (write_block_support _ _ _ _ _ Hwr (cok_support _ Hc) Hroom) as (_ & _ & _ & _ & _ & Hseq & Hlcn).
  destruct (cok_config _ Hc) as (cb' & Hcb' & Hnum). rewrite Hcb in Hcb'. injection Hcb' as <-.
  pose proof (batch_config_type _ _ block1 Hb eq_refl) as Hcfg.
  assert (lastConfigBlockNum s' = lc) as Hlcs.
  { rewrite Hlcn, <- Hnum. unfold lc, batch_config. change (isConfigBlock (assembled_block _ _ _ _)) with (isConfigBlock block1).
    rewrite Hcfg.
    by case_decide; [rewrite bool_decide_eq_true_2 by done|rewrite bool_decide_eq_false_2 by done]. }
  assert (lastBlock s' = block1) as Hlast.
  { apply write_block_run in Hwr as (s1 & Hcom & Hho).
    rewrite (com_block _ _ Hcom (signed_metadata lc metadata ms')
               (Marshal pb_Metadata {| md_Value := orderer_metadata lc metadata; md_Signatures := ms' |})).
    - rewrite <- (com_num _ _ Hcom), Hlcs, (ho_block _ _ _ Hho). done.
    - by rewrite (ho_block _ _ _ Hho).
    - done.
    - apply Metadata_nonempty. cbn. unfold ms'. destruct ms; [by destruct sigs|done]. }
  exists n, h, batch, lc, ms', hb, (i64 (sup_Sequence (c_support c))). rewrite Hcs. split_and!; try done.
  - unfold n. lia.
  - cbv zeta. fold block1. rewrite Hcfg, Hseq. case_decide as Ht; [rewrite bool_decide_eq_true_2 by done|by rewrite bool_decide_eq_false_2].
    by rewrite i64_back.
Qed.

(** A signature made by a node with the same last configuration block. *)
Definition made_by_node (rtc : RuntimeConfig) (prop : Proposal) (sg : types_Signature) : Prop :=
  exists id s rtc' nonce aux, SignProposal id s rtc' nonce prop aux = Ok sg /\
    rtc_LastConfigBlock rtc' = rtc_LastConfigBlock rtc /\ fits (ts_Msg sg) /\ is_ok (Unmarshal pb_PreparesFrom aux) = true.

Lemma signers_agree rtc prop block cb sigs :
  canonical_proposal prop block -> rtc_LastConfigBlock rtc = Some cb -> Forall (made_by_node rtc prop) sigs ->
  exists lc, last_config_number rtc block = Ok lc /\ Forall (signed_by_node (prop_Header prop) lc (prop_Metadata prop)) sigs.
Proof.
  intros Hcan Hcb Hsig. destruct (last_config_number rtc block) as [lc|?|?] eqn:El;
    [|by unfold last_config_number in El; rewrite Hcb in El..]. exists lc. split; [done|].
  eapply Forall_impl; [exact Hsig|]. cbn. intros sg (id & s & rtc' & nonce & aux & Hsp & Hrtc & Hf & Haux).
  apply SignProposal_inv in Hsp as (b & header & creator & lc' & Hb & Hhd & _ & Hlc & _ & Hsg).
  rewrite (cp_block _ _ Hcan) in Hb. apply Ok_inj in Hb as ->.
  rewrite (cp_header _ _ Hcan) in Hhd. apply Ok_inj in Hhd as ->.
  unfold last_config_number in *. rewrite Hrtc, El in Hlc. apply Ok_inj in Hlc as ->.
  exists nonce, aux. split_and!; [by rewrite Hsg|done..].
Qed.

Lemma made_by_node_reads rtc prop sigs :
  Forall (made_by_node rtc prop) sigs -> is_ok (metadata_signatures sigs) = true.
Proof.
  induction 1 as [|sg l (id & s & rtc' & nonce & aux & Hsp & _ & Hf & _) _ IH]; [done|].
  apply SignProposal_inv in Hsp as (b & header & creator & lc & _ & _ & _ & _ & _ & Hsg).
  apply is_ok_ex in IH as [ms Hms]. cbn. apply (f_equal ts_Msg) in Hsg. cbn [ts_Msg] in Hsg. rewrite Hsg in *.
  rewrite Signature_roundtrip by done. cbn. by rewrite Hms.
Qed.

Lemma Deliver_ledger signer nonce c prop sigs r c' :
  chain_ok c -> 0 <= sup_Sequence (c_support c) < two64 - 1 -> sigs <> [] ->
  Forall (made_by_node (c_RuntimeConfig c) prop) sigs -> Deliver signer nonce c prop sigs = Ok (r, c') ->
  last (sup_Ledger (c_support c')) = Some (lastBlock (c_support c')) /\
  Height (sup_Ledger (c_support c')) = Height (sup_Ledger (c_support c)) + 1.
Proof.
  intros Hc Hroom Hne Hsig Hd. apply made_by_node_reads in Hsig. unfold Deliver in Hd. inv_run.
  destruct (metadata_signatures sigs) as [ms|?|?]; [|done..]. inv_run. put_inv.
  match goal with Hw : write_block _ _ _ _ = Ok _ |- _ =>
    destruct (write_block_support _ _ _ _ _ Hw (cok_support _ Hc) Hroom) as (Hs' & _ & Hl' & _) end.
  match goal with Hu : updateRuntimeConfig _ _ = Ok _ |- _ => apply updateRuntimeConfig_support in Hu as [-> _] end.
  cbn [c_support]. split; [apply Hs'|]. rewrite Hl'. unfold Height. rewrite length_app. cbn. lia.
Qed.

(** ** Signatures in the ledger *)

Definition carries (omd : bytes) (sg : types_Signature) : Prop :=
  exists sig, Signature_Unmarshal (ts_Msg sg) = Ok sig /\ sig_OrdererBlockMetadata sig = omd.

(** A delivered block carries the metadata of the first signature and all
    signatures. *)
Lemma Deliver_signatures signer nonce c prop sigs r c' omd block :
  ProposalToBlock prop = Ok block -> sigs <> [] -> Forall (carries omd) sigs ->
  Deliver signer nonce c prop sigs = Ok (r, c') ->
  exists ms, metadata_signatures sigs = Ok ms /\ same_block block (lastBlock (c_support c')) /\
    (exists md, b_Metadata (lastBlock (c_support c')) = Some md /\ (SIGNATURES < length md)%nat) /\
    GetMetadataFromBlock (lastBlock (c_support c')) SIGNATURES = Ok {| md_Value := omd; md_Signatures := snd <$> ms |}.
Proof.
  intros Hb Hne Hcar Hd. unfold Deliver in Hd. rewrite Hb in Hd. cbn [or_panic mbind outcome_bind] in Hd.
  assert (exists ms, metadata_signatures sigs = Ok ms /\ length ms = length sigs /\ Forall (fun m => fst m = omd) ms)
    as (ms & Hms & Hlen & Hfst).
  { clear -Hcar. induction Hcar as [|sg l (sig & Hs & Ho) _ (ms & H1 & H2 & H3)]; [by exists []|].
    cbn. rewrite Hs. cbn. rewrite H1. cbn. eexists. split_and!; [done|cbn; by rewrite H2|by constructor]. }
  exists ms. split; [done|]. rewrite Hms in Hd. destruct ms as [|m ms]; [by destruct sigs|].
  apply Forall_cons in Hfst as [Hm _]. cbn [fmap list_fmap head default] in Hd. rewrite Hm in Hd.
  inv_run. put_inv. match goal with Hw : write_block _ _ _ _ = Ok _ |- _ => rename Hw into Hwr end.
  apply updateRuntimeConfig_support in Hd as [-> _]. cbn [c_support].
  apply write_block_run in Hwr as (s1 & Hcom & Hho). pose proof (com_same _ _ Hcom) as Hsame.
  rewrite (ho_block _ _ _ Hho) in Hsame. split; [exact Hsame|].
  erewrite (com_block _ _ Hcom); [|by rewrite (ho_block _ _ _ Hho)|by rewrite list_lookup_insert_eq|by apply Metadata_nonempty].
  split.
  - eexists. split; [done|]. by rewrite !length_insert.
  - unfold GetMetadataFromBlock, metadata_at, index. cbn [set_metadata b_Metadata deref mbind outcome_bind].
    rewrite list_lookup_insert_ne, list_lookup_insert_eq by done. by codec_simpl.
Qed.

(** The signed data of an accepted signature. *)
Definition data_of (v : Verifier) (policy : Policy) (sg : types_Signature) (sd : SignedData) : Prop :=
  ID2Identities (v_RuntimeConfig v) !! ts_ID sg = Some (sd_Identity sd) /\ sd_Signature sd = ts_Value sg /\
  policy [sd] = Ok tt.

(** The identities of the configuration, [raw], and the sanitized ones the
    verifier compares with. *)
Definition sanitizes (raw sanitized : gmap Z bytes) : Prop :=
  forall id, match raw !! id with
    | Some i => exists i', SanitizeIdentity i = Ok i' /\ sanitized !! id = Some i'
    | None => sanitized !! id = None
    end.

Lemma remote_nodes_sanitize selfID consenters raw acc nc :
  remote_nodes_loop selfID consenters acc = Ok nc -> sanitizes raw (nc_id2Identities acc) ->
  sanitizes (fold_left (fun res c => <[ConsenterId c := Identity c]> res) consenters raw) (nc_id2Identities nc).
Proof.
  revert raw acc. induction consenters as [|c l IH]; intros raw acc H Hs; cbn in H |- *; [by inv_ok|].
  inv_run. eapply IH; [exact H|]. cbn [nc_id2Identities]. intros id.
  destruct (decide (id = ConsenterId c)) as [->|Hne]; [rewrite !lookup_insert_eq; eauto|].
  rewrite !lookup_insert_ne by done. apply Hs.
Qed.

(** A node that reads the configuration block of the verifier's runtime
    configuration finds the identities the verifier has, before sanitizing. *)
Lemma Id2Identity_sanitizes cb selfID nc env oc ids :
  RemoteNodesFromConfigBlock cb selfID = Ok nc -> first_envelope cb = Ok env ->
  NewBundleFromEnvelope env = Ok (Some oc) -> ChainSupport_Id2Identity (oc_ConsensusMetadata oc) = Ok ids ->
  sanitizes ids (nc_id2Identities nc).
Proof.
  unfold RemoteNodesFromConfigBlock, ChainSupport_Id2Identity. intros H He Ho Hi. inv_run.
  match goal with H : remote_nodes_loop _ _ _ = Ok _ |- _ => rename H into Hl end.
  cbn [nc_id2Identities]. unfold consenter_identities. rewrite E0 in He. simplify_eq. rewrite E1 in Ho. simplify_eq.
  rewrite E3 in E. simplify_eq.
  eapply remote_nodes_sanitize; [exact Hl|]. intros id. cbn. by rewrite !lookup_empty.
Qed.

(** How an extracted signature relates to the one the verifier accepted: it is
    that signature, under the identity the configuration has for its signer; and
    it is over the data the policy accepted exactly when sanitizing leaves that
    identity alone, because the signature header is rebuilt from it. *)
Definition extracted (v : Verifier) (policy : Policy) (ids : gmap Z bytes) (sg : types_Signature) (sd : SignedData) :
    Prop :=
  exists raw verified, data_of v policy sg verified /\
    ids !! ts_ID sg = Some raw /\ SanitizeIdentity raw = Ok (sd_Identity verified) /\
    sd_Identity sd = raw /\ sd_Signature sd = ts_Value sg /\
    (SanitizeIdentity raw = Ok raw -> sd = verified) /\
    (SanitizeIdentity raw <> Ok raw -> sd_Data sd <> sd_Data verified).

Lemma signature_set_extracted v policy prop omd ids sigs ms :
  sanitizes ids (ID2Identities (v_RuntimeConfig v)) ->
  GetPolicy v "/Channel/Orderer/Writers" = Some policy ->
  Forall (fun sg => exists aux, VerifyConsenterSig v sg prop = Ok aux) sigs -> Forall (carries omd) sigs ->
  metadata_signatures sigs = Ok ms ->
  exists l, signature_set (prop_Header prop) omd ids (snd <$> ms) = Ok l /\ Forall2 (extracted v policy ids) sigs l.
Proof.
  intros Hids Hpol Hacc Hcar. revert ms. induction Hacc as [|sg sigs [aux Hsg] _ IH]; intros ms Hms; cbn in Hms.
  - inv_ok. by exists [].
  - apply Forall_cons in Hcar as [(sig & Hu & Ho) Hcar]. rewrite Hu in Hms. cbn in Hms. inv_run.
    destruct (IH Hcar _ E) as (l & Hl & HF). cbn. rewrite Hl.
    apply accepted_iff in Hsg as [(identity & sig' & o & policy' & block & sm & md & Hid & Hsig & Hh & Ha & _ & _ & _ & _ & _ & _ & _ & Hp & He)].
    rewrite Hu in Hsig. injection Hsig as <-. rewrite Hpol in Hp. injection Hp as <-.
    specialize (Hids (ts_ID sg)). destruct (ids !! ts_ID sg) as [raw|] eqn:Er; [|congruence].
    destruct Hids as (i' & Hsan & Hi'). rewrite Hid in Hi'. injection Hi' as <-.
    eexists. split; [done|]. constructor; [|done].
    eexists raw, {| sd_Identity := identity; sd_Signature := ts_Value sg; sd_Data := _ |}.
    split; [split_and!; [exact Hid|done|exact He]|]. cbn [sd_Identity sd_Signature sd_Data default].
    split_and!; [done..| |]; unfold ConcatenateBytes; cbn; rewrite app_nil_r, Ha.
    + rewrite Hsan. by intros [= ->].
    + rewrite Hsan. intros Hne Heq. apply Hne. apply app_inv_head, app_inv_tail in Heq.
      apply (codec_inj _ _ _ SignatureHeader_ok) in Heq. injection Heq. congruence.
Qed.

Lemma ledger_signatures signer nonce c prop sigs r c' omd block v policy ids :
  ProposalToBlock prop = Ok block -> BlockHeader_Bytes (b_Header block) = Ok (prop_Header prop) ->
  sanitizes ids (ID2Identities (v_RuntimeConfig v)) ->
  sigs <> [] -> Forall (carries omd) sigs ->
  GetPolicy v "/Channel/Orderer/Writers" = Some policy ->
  Forall (fun sg => exists aux, VerifyConsenterSig v sg prop = Ok aux) sigs ->
  Deliver signer nonce c prop sigs = Ok (r, c') ->
  exists l, SignatureSetFromBlock (lastBlock (c_support c')) ids = Ok l /\ Forall2 (extracted v policy ids) sigs l.
Proof.
  intros Hb Hh Hids Hne Hcar Hpol Hacc Hd.
  destruct (Deliver_signatures _ _ _ _ _ _ _ _ _ Hb Hne Hcar Hd) as (ms & Hms & [Hsh _] & (md & Hm & Hl) & Hg).
  destruct (signature_set_extracted v policy prop omd ids sigs ms Hids Hpol Hacc Hcar Hms) as (l & Hset & HF).
  exists l. split; [|done]. unfold SignatureSetFromBlock. rewrite Hm, (proj2 (Nat.ltb_lt _ _) Hl).
  cbn [ensure mbind outcome_bind]. rewrite Hg. cbn [wrap mbind outcome_bind md_Signatures md_Value]. rewrite Hsh, Hh.
  destruct ms as [|m ms]; [|exact Hset]. destruct sigs; [done|]. cbn in Hms. inv_run. done.
Qed.

(** ** The height to synchronize to *)

(** The number of faulty nodes that are tolerated. *)
Definition tolerated (nodes : list Z) : nat := ((length nodes - 1) / 3)%nat.

Lemma tolerated_code nodes :
  Z.of_nat (length nodes) < two64 -> Z.to_nat (u64 (Z.quot (Z.of_nat (length nodes) - 1) 3)) = tolerated nodes.
Proof.
  intros Hl. unfold tolerated. destruct nodes as [|n nodes]; [done|]. cbn [length] in *.
  replace (Z.of_nat (S (length nodes)) - 1) with (Z.of_nat (length nodes)) by lia.
  replace (S (length nodes) - 1)%nat with (length nodes) by lia.
  rewrite Z.quot_div_nonneg by lia. rewrite <- (Nat2Z.inj_div _ 3). rewrite u64_id, Nat2Z.id; [done|].
  unfold is_u64. pose proof (Nat.Div0.div_le_upper_bound (length nodes) 3 (length nodes) ltac:(lia)). lia.
Qed.

Lemma sorted_take_ge l f t :
  StronglySorted Z.ge l -> l !! f = Some t -> Forall (fun x => t <= x) (take (S f) l) /\ Forall (fun x => x <= t) (drop f l).
Proof.
  intros Hs. revert f. induction Hs as [|a l Hs IH Ha]; intros f Hf; [done|]. destruct f as [|f]; cbn in *.
  - injection Hf as ->. split; [constructor; [lia|constructor]|]. constructor; [lia|].
    eapply Forall_impl; [exact Ha|]. cbn. lia.
  - destruct (IH f Hf) as [H1 H2]. split; [|done]. constructor; [|done].
    eapply Forall_forall in Ha; [|by eapply list_elem_of_lookup_2]. lia.
Qed.

Lemma count_sorted l f t :
  StronglySorted Z.ge l -> l !! f = Some t ->
  (f < length (filter (fun x => t <= x)%Z l))%nat /\ (length (filter (fun x => t < x)%Z l) <= f)%nat.
Proof.
  intros Hs Hf. destruct (sorted_take_ge _ _ _ Hs Hf) as [H1 H2]. apply lookup_lt_Some in Hf as Hlen. split.
  - rewrite <- (take_drop (S f) l), filter_app, length_app, (filter_all _ (take (S f) l)), length_take; [lia|].
    by apply Forall_forall.
  - rewrite <- (take_drop f l), filter_app, length_app, (filter_none _ (drop f l)).
    + pose proof (length_filter (fun x => t < x) (take f l)). rewrite length_take in *. cbn. lia.
    + intros x Hx. eapply Forall_forall in Hx; [|exact H2]. cbn in Hx. lia.
Qed.

Lemma target_height nodes heights t :
  Z.of_nat (length nodes) < two64 -> computeTargetHeight nodes heights = Ok t ->
  t ∈ heights /\
  ((tolerated nodes < length heights)%nat ->
     (tolerated nodes < length (filter (fun h => t <= h)%Z heights))%nat /\
     (length (filter (fun h => t < h)%Z heights) <= tolerated nodes)%nat) /\
  ((length heights <= tolerated nodes)%nat -> Forall (fun h => t <= h) heights).
Proof.
  intros Hn H. unfold computeTargetHeight in H. rewrite tolerated_code in H by done.
  pose proof (merge_sort_Permutation Z.ge heights) as Hp.
  assert (StronglySorted Z.ge (merge_sort Z.ge heights)) as Hs.
  { apply StronglySorted_merge_sort; [intros ???; lia|intros ??; lia]. }
  set (l := merge_sort Z.ge heights) in *.
  assert (forall i x, l !! i = Some x -> x ∈ heights) as Hin.
  { intros i x Hx. rewrite <- Hp. by eapply list_elem_of_lookup_2. }
  assert (length l = length heights) as Hlen by (by rewrite Hp).
  assert (forall (P : Z -> Prop) `{!forall x, base.Decision (P x)}, length (filter P heights) = length (filter P l)) as Hcount.
  { intros P HP. by rewrite Hp. }
  rewrite Hlen in H. destruct (Nat.ltb_spec (length heights) (tolerated nodes + 1)) as [Hlt|Hge]; inv_run.
  - split_and!; [by eapply Hin|lia|]. intros _. apply lookup_lt_Some in H as Hl.
    destruct (sorted_take_ge _ _ _ Hs H) as [H1 _]. rewrite take_ge in H1 by lia.
    rewrite Forall_forall in H1 |- *. intros x Hx. apply H1. by rewrite Hp.
  - split_and!; [by eapply Hin| |lia]. intros _. rewrite !Hcount. by apply count_sorted.
Qed.

(** ** Synchronizing *)

Section Sync.
Context {Puller : BlockPuller}.

Abbreviation ledger_of s := (sup_Ledger (c_support (sync_chain s))).
Abbreviation sequence_of s := (sup_Sequence (c_support (sync_chain s))).

(** The ledger is sound; the rest is too unless the chain was halted. *)
Definition sync_ok (s : SyncState) : Prop :=
  support_ok (c_support (sync_chain s)) /\ (c_halted (sync_chain s) = true \/ chain_ok (sync_chain s)).

(** A block as it was pulled. *)
Definition pulled_block (b : Block) : Prop := exists p, PullBlock (Number (b_Header b)) = Some p /\ same_block p b.

Record pull_result (fuel : nat) (target : Z) (last0 : option Block) (s : SyncState)
    (r : option Block) (seq' : Z) (s' : SyncState) (pulled : list Block) : Prop := {
  pr_ledger : ledger_of s' = ledger_of s ++ pulled;
  pr_ok : sync_ok s';
  pr_seq : seq' = Height (ledger_of s');
  pr_last : r = match last pulled with Some b => Some b | None => last0 end;
  pr_fuel : (length pulled <= fuel)%nat;
  pr_target : pulled <> [] -> Height (ledger_of s') <= target + 1;
  pr_pulled : Forall pulled_block pulled;
  pr_stop : seq' <= target -> (length pulled < fuel)%nat -> PullBlock seq' = None;
}.

Lemma pull_step signer nonce s block support r c' :
  sync_ok s -> 0 <= sequence_of s < two64 - 1 -> PullBlock (Height (ledger_of s)) = Some block ->
  write_block signer nonce (c_support (sync_chain s)) block = Ok support ->
  updateRuntimeConfig {| c_RuntimeConfig := c_RuntimeConfig (sync_chain s); c_support := support;
                         c_halted := c_halted (sync_chain s); c_members := c_members (sync_chain s) |}
    (lastBlock support) = Ok (r, c') ->
  let s' := {| sync_chain := c'; lastReconfig := r |} in
  sync_ok s' /\ c_support c' = support /\ ledger_of s' = ledger_of s ++ [lastBlock support] /\ pulled_block (lastBlock support) /\
  sequence_of s <= sequence_of s' <= sequence_of s + 1.
Proof.
  intros [Hs Hc] Hroom Hp Hw Hu s'. destruct (write_block_support _ _ _ _ _ Hw Hs Hroom) as (Hs' & Hsame & Hl & Hnum & _ & Hseq & _).
  pose proof (updateRuntimeConfig_support _ _ _ _ Hu) as [Hsup Hhalt]. cbn [c_support c_halted] in *.
  unfold sync_ok, s'. cbn [sync_chain]. rewrite Hsup. split_and!; try done.
  - destruct Hc as [Hh|Hc]; [left; by apply Hhalt|]. by eapply commit_chain.
  - exists block. destruct Hsame as [Hsh Hsd]. rewrite Hsh, Hnum. done.
  - rewrite Hseq. case_decide; lia.
  - rewrite Hseq. case_decide; lia.
Qed.

Lemma pull_loop_ok signer nonce fuel target last0 s r seq' s' :
  sync_ok s -> 0 <= sequence_of s -> sequence_of s + Z.of_nat fuel < two64 - 1 ->
  Height (ledger_of s) + Z.of_nat fuel < two64 ->
  pull_loop signer nonce fuel (Height (ledger_of s)) target last0 s = Ok (r, seq', s') ->
  exists pulled, pull_result fuel target last0 s r seq' s' pulled.
Proof.
  revert last0 s. induction fuel as [|fuel IH]; intros last0 s Hs H0 Hroom Hh H; cbn [pull_loop] in H.
  - inv_run. exists []. split; cbn; rewrite ?app_nil_r; try done; lia.
  - destruct (Z.ltb_spec target (Height (ledger_of s))) as [Ht|Ht].
    { inv_run. exists []. split; cbn; rewrite ?app_nil_r; try done; lia. }
    destruct (PullBlock (Height (ledger_of s))) as [block|] eqn:Ep.
    2:{ inv_run. exists []. split; cbn; rewrite ?app_nil_r; try done; lia. }
    inv_run. match goal with Hw : write_block _ _ _ _ = Ok ?x |- _ => rename x into support; rename Hw into Hwr end.
    match goal with Hu : updateRuntimeConfig _ _ = Ok (?a, ?b) |- _ => rename a into rc; rename b into c'; rename Hu into Hup end.
    destruct (pull_step _ _ _ _ _ _ _ Hs ltac:(lia) Ep Hwr Hup) as (Hs1 & Hsup & Hl1 & Hpb & Hseq1).
    set (s1 := {| sync_chain := c'; lastReconfig := _ |}) in H.
    assert (Height (ledger_of s1) = Height (ledger_of s) + 1) as Hh1.
    { unfold s1, Height. cbn [sync_chain] in *. rewrite Hl1, length_app. cbn. lia. }
    rewrite u64_add_small in H by (unfold Height in *; lia). rewrite <- Hh1 in H.
    apply IH in H as (pulled & [P1 P2 P3 P4 P5 P6 P7 P8]);
      [|exact Hs1|unfold s1; cbn [sync_chain] in *; lia|unfold s1; cbn [sync_chain] in *; lia|lia].
    exists (lastBlock support :: pulled). split.
    + rewrite P1. unfold s1. cbn [sync_chain] in *. by rewrite Hl1, <- app_assoc.
    + done.
    + done.
    + rewrite P4, last_cons. by destruct (last pulled).
    + cbn. lia.
    + intros _. destruct pulled as [|b pulled]; [|by apply P6]. rewrite app_nil_r in P1. rewrite P1. lia.
    + by constructor.
    + cbn. intros. apply P8; [done|lia].
Qed.

(** What a synchronization did. *)
Record sync_effect (s : SyncState) (res : Decision + error) (s' : SyncState) : Prop := {
  se_ok : sync_ok s';
  se_pulled : exists pulled, ledger_of s' = ledger_of s ++ pulled /\ Forall pulled_block pulled /\
    match res with
    | inr _ => pulled = []
    | inl d => exists heights t b, HeightsByEndpoints = Ok heights /\
        computeTargetHeight (rtc_Nodes (c_RuntimeConfig (sync_chain s))) (snd <$> heights) = Ok t /\
        Height (ledger_of s) < Height (ledger_of s') <= t /\
        (Height (ledger_of s') < t -> PullBlock (Height (ledger_of s')) = None) /\
        last (ledger_of s') = Some b /\ blockToDecision (sequence_of s') b = Ok d
    end;
}.

Lemma synchronize_effect signer nonce s res s' :
  sync_ok s -> 0 <= sequence_of s ->
  (forall heights t, HeightsByEndpoints = Ok heights ->
     computeTargetHeight (rtc_Nodes (c_RuntimeConfig (sync_chain s))) (snd <$> heights) = Ok t ->
     sequence_of s + t < two64 - 1) ->
  synchronize signer nonce s = Ok (res, s') -> sync_effect s res s'.
Proof.
  intros Hs H0 Hroom H. unfold synchronize in H.
  assert (forall e, sync_effect s (inr e) s) as Hnone.
  { intros e. split; [done|]. exists []. by rewrite app_nil_r. }
  destruct HeightsByEndpoints as [heights|e|p] eqn:Eh; [|inv_run; apply Hnone|done].
  case_bool_decide as Hnil; [inv_run; apply Hnone|]. inv_run.
  match goal with Hc : computeTargetHeight _ _ = Ok ?x |- _ => rename x into t; rename Hc into Hct end.
  pose proof (Hroom _ _ eq_refl Hct) as Hlt.
  destruct (Z.leb_spec t (Height (ledger_of s))) as [Hle|Hgt]; [inv_run; apply Hnone|]. inv_run.
  assert (0 <= Height (ledger_of s)) as Hh0 by (unfold Height; lia).
  match goal with Hp : pull_loop _ _ _ _ _ _ _ = Ok (?a, ?b, ?c) |- _ =>
    rename a into lastp; rename b into seq'; rename c into s1; rename Hp into Hpl end.
  rewrite u64_sub_small in Hpl by lia.
  apply pull_loop_ok in Hpl as (pulled & [P1 P2 P3 P4 P5 P6 P7 P8]); [|done|lia|lia|lia].
  destruct (last pulled) as [b|] eqn:El; subst lastp.
  - inv_run. split; [done|]. exists pulled. split_and!; [done..|].
    assert (pulled <> []) as Hne by (by intros ->).
    assert (length pulled <> 0)%nat by (by destruct pulled).
    assert (Height (ledger_of s') = Height (ledger_of s) + Z.of_nat (length pulled)) as Hh'.
    { unfold Height. rewrite P1, length_app. lia. }
    exists heights, t, b. split_and!; try done; [lia|specialize (P6 Hne); lia|intros Hlt'|rewrite P1; by rewrite last_app, El].
    apply P8; lia.
  - inv_run. apply last_None in El as ->. split; [done|]. by exists [].
Qed.
End Sync.

(** ** Sequences of blocks *)

(** A block belongs to its data, and follows the one before. *)
Definition linked (prev : option Block) (b : Block) : Prop :=
  (exists data, b_Data b = Some data /\ DataHash (b_Header b) = BlockData_Hash data) /\
  match prev with
  | None => True
  | Some p => Number (b_Header b) = Number (b_Header p) +u 1 /\
              BlockHeader_Hash (b_Header p) = Ok (PreviousHash (b_Header b))
  end.

Definition previous (blocks : list Block) (i : nat) : option Block :=
  match i with O => None | S j => blocks !! j end.

Lemma VerifyBlockHash_iff i blocks b :
  blocks !! i = Some b -> VerifyBlockHash i blocks = Ok tt <-> linked (previous blocks i) b.
Proof.
  intros Hb. unfold VerifyBlockHash, linked. rewrite Hb. cbn [ok_or mbind outcome_bind]. destruct (b_Data b) as [data|]; cbn.
  2:{ split; [done|]. by intros [(d & Hd & _) _]. }
  assert (forall P, (exists d, Some data = Some d /\ DataHash (b_Header b) = BlockData_Hash d) /\ P <->
                    BlockData_Hash data = DataHash (b_Header b) /\ P) as -> by naive_solver.
  case_bool_decide as Hd; cbn; [|by split; [|intros []]]. destruct i as [|i]; cbn; [naive_solver|].
  assert (i < length blocks)%nat as Hi by (apply lookup_lt_Some in Hb; lia).
  destruct (lookup_lt_is_Some_2 _ _ Hi) as [p Hp]. unfold index. rewrite Hp. cbn.
  destruct (Z.eqb_spec (Number (b_Header p) +u 1) (Number (b_Header b))) as [En|En]; cbn; [|naive_solver].
  destruct (BlockHeader_Hash (b_Header p)) as [h|?|?]; cbn; [|naive_solver..].
  case_bool_decide; cbn; naive_solver.
Qed.

Lemma verify_hashes_iff l blocks :
  verify_hashes l blocks = Ok tt <-> Forall (fun i => VerifyBlockHash i blocks = Ok tt) l.
Proof.
  induction l as [|i l IH]; cbn; [done|]. rewrite Forall_cons, <- IH.
  destruct (VerifyBlockHash i blocks) as [[]|?|?]; cbn; naive_solver.
Qed.

(** The configuration a block brings, if it does. *)
Definition block_config (b : Block) : option ConfigEnvelope :=
  match ConfigFromBlock b with Ok ce => Some ce | _ => None end.

Lemma ConfigFromBlock_nopanic b : nopanic (ConfigFromBlock b).
Proof.
  unfold ConfigFromBlock, GetEnvelopeFromBlock, GetPayload, UnmarshalChannelHeader. nopanic.
Qed.

Lemma verify_signatures_bft {BV : BlockVerifier} blocks config flag :
  is_ok (verify_signatures true blocks config flag) = true <->
  forall i b, blocks !! i = Some b ->
    VerifyBlockSignature b (match previous blocks i with Some p => block_config p | None => config end) = Ok tt.
Proof.
  revert config flag. induction blocks as [|b blocks IH]; intros config flag; cbn [verify_signatures].
  - split; [intros _ i b Hb; by rewrite lookup_nil in Hb|done].
  - transitivity (VerifyBlockSignature b config = Ok tt /\
                  is_ok (verify_signatures true blocks (block_config b) true) = true).
    { unfold block_config. pose proof (ConfigFromBlock_nopanic b) as Hnp.
      destruct (ConfigFromBlock b) as [ce|e|p]; [| |by destruct (Hnp p)];
        destruct (VerifyBlockSignature b config) as [[]|?|?]; cbn; naive_solver. }
    rewrite IH. assert (forall i b', blocks !! i = Some b' ->
      match previous (b :: blocks) (S i) with Some p => block_config p | None => config end =
      match previous blocks i with Some p => block_config p | None => block_config b end) as Hprev.
    { intros [|i] b' Hi; cbn; [done|]. destruct (blocks !! i) eqn:E; [done|].
      apply lookup_ge_None in E. apply lookup_lt_Some in Hi. lia. }
    split.
    + intros [Hb Hl] [|i] b' Hi; [cbn in *; by simplify_eq|]. rewrite (Hprev i b') by done. by apply Hl.
    + intros H. split; [by apply (H 0%nat)|]. intros i b' Hi. rewrite <- (Hprev i b') by done. by apply H.
Qed.

Lemma verify_signatures_flag {BV : BlockVerifier} blocks config flag cfg fl :
  verify_signatures true blocks config flag = Ok (cfg, fl) -> fl = match blocks with [] => flag | _ => true end.
Proof.
  revert config flag. induction blocks as [|b blocks IH]; intros config flag H; cbn in H; [by inv_run|].
  destruct (ConfigFromBlock b) as [ce|e|p]; [| |done]; inv_run; apply IH in H as ->; by destruct blocks.
Qed.

(** Every block is linked and signed under the configuration of the block before
    it, if that is a configuration block, and under the committed one if not. *)
Lemma VerifyBlocksBFT_iff {BV : BlockVerifier} blocks :
  VerifyBlocksBFT blocks = Ok tt <->
  blocks <> [] /\ forall i b, blocks !! i = Some b ->
    linked (previous blocks i) b /\ VerifyBlockSignature b (previous blocks i ≫= block_config) = Ok tt.
Proof.
  unfold VerifyBlocksBFT, verifyBlockSequence. case_bool_decide as Hne; cbn [negb ensure mbind outcome_bind]; [naive_solver|].
  assert (verify_hashes (seq 0 (length blocks)) blocks = Ok tt <-> forall i b, blocks !! i = Some b -> linked (previous blocks i) b) as Hh.
  { rewrite verify_hashes_iff, Forall_forall. split.
    - intros H i b Hb. apply VerifyBlockHash_iff; [done|]. apply H, elem_of_seq. apply lookup_lt_Some in Hb. lia.
    - intros H i Hi. apply elem_of_seq in Hi. destruct (lookup_lt_is_Some_2 blocks i) as [b Hb]; [lia|].
      by apply (VerifyBlockHash_iff _ _ b), H. }
  pose proof (verify_signatures_bft blocks None false) as Hs.
  assert (forall i, match previous blocks i with Some p => block_config p | None => None end = previous blocks i ≫= block_config) as Hm.
  { intros i. by destruct (previous blocks i). }
  setoid_rewrite Hm in Hs. split.
  - intros H. inv_run. split; [done|]. intros i b' Hb'. split; [by apply Hh|]. apply Hs; [|done]. by rewrite E0.
  - intros [_ H]. rewrite (proj2 Hh) by (intros i b Hb; by apply H). cbn [mbind outcome_bind].
    destruct (verify_signatures true blocks None false) as [[cfg fl]|e|p] eqn:E;
      [|by assert (is_ok (Err e : outcome (option ConfigEnvelope * bool)) = true) by (apply Hs; intros; by apply H)
       |by assert (is_ok (Panic p : outcome (option ConfigEnvelope * bool)) = true) by (apply Hs; intros; by apply H)].
    apply verify_signatures_flag in E as ->. cbn. by destruct blocks.
Qed.

(** ** Theorems *)

(** A block that continues the ledger and has room for its signatures. *)
Record continues (c : BFTChain) (block : Block) : Prop := {
  cn_number : Number (b_Header block) = Height (sup_Ledger (c_support c));
  cn_small : Number (b_Header block) <= maxInt64;
  cn_previous : CurrentBlockHash (sup_Ledger (c_support c)) = Ok (PreviousHash (b_Header block));
  cn_metadata : exists md, b_Metadata block = Some md /\ (LAST_CONFIG < length md)%nat;
}.

Lemma metadata_signatures_length sigs ms : metadata_signatures sigs = Ok ms -> length ms = length sigs.
Proof.
  revert ms. induction sigs as [|sg sigs IH]; intros ms H; cbn in H; inv_run; [done|]. cbn. f_equal. by apply IH.
Qed.

Lemma addLastConfigSignature_returns s block md :
  b_Metadata block = Some md -> (LAST_CONFIG < length md)%nat ->
  exists s1 m, addLastConfigSignature s block = Ok (s1, set_metadata (<[LAST_CONFIG := m]> md) block) /\
    sup_Ledger s1 = sup_Ledger s.
Proof.
  intros Hmd Hlen. unfold addLastConfigSignature.
  erewrite (proj2 (put_metadata_Ok _ _ _ _)); [|by exists md]. cbn. by eexists _, _.
Qed.

(** Writing a signed block that continues the ledger. *)
Lemma WriteBlock_returns signer nonce s block md sig :
  b_Metadata block = Some md -> (LAST_CONFIG < length md)%nat -> md !! SIGNATURES = Some sig -> sig <> [] ->
  Number (b_Header block) = Height (sup_Ledger s) -> CurrentBlockHash (sup_Ledger s) = Ok (PreviousHash (b_Header block)) ->
  exists s', WriteBlock signer nonce s block None = Ok s' /\ same_block block (lastBlock s').
Proof.
  intros Hmd Hlen Hsig Hne Hn Hp. unfold WriteBlock, commitBlock. cbn [mbind outcome_bind mret outcome_ret lastBlock].
  match goal with |- context [addLastConfigSignature ?x block] =>
    destruct (addLastConfigSignature_returns x block md Hmd Hlen) as (s1 & m & -> & Hl) end.
  cbn [mbind outcome_bind]. unfold metadata_at, index. cbn [set_metadata b_Metadata deref mbind outcome_bind].
  rewrite list_lookup_insert_ne, Hsig by done. cbn [mbind outcome_bind]. rewrite bool_decide_false by done.
  unfold Append. cbn [mbind outcome_bind mret outcome_ret b_Header]. rewrite Hl. cbn [sup_Ledger set_metadata b_Header].
  rewrite Hn, Z.eqb_refl, Hp.
  cbn. rewrite bool_decide_true by done. cbn. by eexists.
Qed.

(** The next block is delivered. *)
Lemma Deliver_returns signer nonce c prop sigs block :
  support_ok (c_support c) -> ProposalToBlock prop = Ok block -> IsConfigBlock block = false -> continues c block ->
  sigs <> [] -> is_ok (metadata_signatures sigs) = true ->
  exists r c', Deliver signer nonce c prop sigs = Ok (r, c') /\ c_halted c' = c_halted c.
Proof.
  intros Hs Hb Hcfg [Hn Hsm Hp (md & Hmd & Hlen)] Hne Hms. unfold Deliver. rewrite Hb. cbn [or_panic mbind outcome_bind].
  destruct (metadata_signatures sigs) as [ms| |] eqn:Ems; [|done..]. apply metadata_signatures_length in Ems.
  unfold put_metadata at 1, set_index. rewrite Hmd. cbn [deref mbind outcome_bind].
  rewrite decide_True by (unfold SIGNATURES, LAST_CONFIG in *; lia). cbn [mbind outcome_bind mret outcome_ret].
  set (entry := Marshal pb_Metadata _). set (block1 := set_metadata _ block).
  assert (IsConfigBlock block1 = false) as Hcfg1 by exact Hcfg. unfold write_block. rewrite Hcfg1.
  destruct (WriteBlock_returns signer nonce (c_support c) block1 (<[SIGNATURES := entry]> md) entry) as (s' & E & Hsame); try done.
  - by rewrite length_insert.
  - apply list_lookup_insert_eq. unfold SIGNATURES, LAST_CONFIG in *; lia.
  - apply Metadata_nonempty. cbn. intros E%(f_equal length). rewrite length_fmap, Ems in E. by destruct sigs.
  - rewrite E. cbn [mbind outcome_bind]. unfold updateRuntimeConfig, BlockCommitted. cbn [c_RuntimeConfig].
    pose proof (ConfigFromBlock_nopanic (lastBlock s')) as Hnp.
    assert (Number (b_Header (lastBlock s')) = Number (b_Header block)) as En by (by rewrite (proj1 Hsame)).
    destruct (ConfigFromBlock (lastBlock s')) as [ce|e|e] eqn:Ec; [exfalso| |by destruct (Hnp e)].
    + apply ConfigFromBlock_type in Ec; [|pose proof (support_height _ Hs); lia].
      rewrite (same_block_type block) in Ec by done. assert (IsConfigBlock block = true) by (apply IsConfigBlock_type; by left).
      congruence.
    + unfold BlockHeader_Hash, BlockHeader_Bytes. rewrite (proj2 (Z.ltb_ge _ _)) by lia. cbn. by eexists _, _.
Qed.

(** C18. What delivering a decision does to a chain whose ledger, writer and runtime
    configuration agree, whatever the proposal and the signatures (the channel's
    sequence being short of the largest number).  It never returns an error.  It
    panics if the proposal is no block, or if its signatures can be read and its
    block does not carry the next number of the ledger.  It returns, without
    halting the chain, for a proposal that is no configuration block, has the
    next number and the hash of the last block and metadata with room for the
    signatures, if there are signatures and all can be read.  Whenever it
    returns, the chain is halted, or the ledger is a chain of blocks with one
    more block, the proposal's, at whose end the writer and the runtime
    configuration stand, with the same last configuration block and the
    channel's sequence; it is halted and the ledger untouched when a signature
    cannot be read. *)
Theorem Deliver_keeps_chain signer nonce c prop sigs :
  chain_ok c -> 0 <= sup_Sequence (c_support c) < two64 - 1 ->
  (forall e, Deliver signer nonce c prop sigs <> Err e) /\
  (is_ok (ProposalToBlock prop) = false \/
     (exists block, ProposalToBlock prop = Ok block /\ is_ok (metadata_signatures sigs) = true /\
        Number (b_Header block) <> Height (sup_Ledger (c_support c))) ->
   exists msg, Deliver signer nonce c prop sigs = Panic msg) /\
  (forall block, ProposalToBlock prop = Ok block -> IsConfigBlock block = false -> continues c block ->
     sigs <> [] -> is_ok (metadata_signatures sigs) = true ->
     exists r c', Deliver signer nonce c prop sigs = Ok (r, c') /\ c_halted c' = c_halted c) /\
  (forall r c', Deliver signer nonce c prop sigs = Ok (r, c') ->
     (c_halted c' = true \/
      (chain_ok c' /\ exists block, ProposalToBlock prop = Ok block /\ same_block block (lastBlock (c_support c')) /\
         sup_Ledger (c_support c') = sup_Ledger (c_support c) ++ [lastBlock (c_support c')])) /\
     (is_ok (metadata_signatures sigs) = false -> c_halted c' = true /\ c_support c' = c_support c)).
Proof.
  intros Hc Hroom. split_and!.
  - apply Deliver_noerr.
  - intros [Hp|(block & Hb & Hs & Hn)].
    + unfold Deliver. destruct (ProposalToBlock prop); [done|cbn; eauto..].
    + eapply Deliver_wrong_number; [apply Hc|done..].
  - intros block. apply Deliver_returns, Hc.
  - intros r c' E. split; [by apply (Deliver_chain signer nonce c prop sigs r)|].
    unfold Deliver in E. inv_run. destruct (metadata_signatures sigs); inv_run; done.
Qed.

(** C3. Decisions survive the ledger: after an assembled proposal was
    delivered with the signatures of nodes that share the last configuration
    block, what a node reads from the last block of its ledger when it starts
    is exactly that proposal, with its header, payload, metadata and
    verification sequence, and exactly those signatures, also when the block
    changed the configuration. *)
Theorem decision_roundtrip signer nonce c metadata requests prop sigs r c' :
  chain_ok c -> 0 <= sup_Sequence (c_support c) < two64 - 1 -> Height (sup_Ledger (c_support c)) < maxInt64 ->
  AssembleProposal (c_RuntimeConfig c) (sup_Sequence (c_support c)) metadata requests = Ok prop ->
  fits (prop_Header prop) -> fits (prop_Payload prop) -> sigs <> [] ->
  Forall (made_by_node (c_RuntimeConfig c) prop) sigs ->
  Deliver signer nonce c prop sigs = Ok (r, c') ->
  lastPersistedProposalAndSignatures c' = Ok (prop, sigs).
Proof.
  intros Hc Hroom Hh Ha Hfh Hfp Hne Hsig Hd. destruct (cok_config _ Hc) as (cb & Hcb & _). pose proof (cok_last _ Hc) as Hlb.
  pose proof (support_last_number _ (cok_support _ Hc)) as Hnum.
  pose proof (support_height _ (cok_support _ Hc)) as Hpos.
  assert (0 <= Number (b_Header (lastBlock (c_support c))) < maxInt64) as Hn by lia.
  destruct (AssembleProposal_canonical _ _ _ _ _ _ _ Ha Hlb Hcb Hn Hfh Hfp) as [block Hcan].
  destruct (Deliver_assembled signer nonce c metadata requests prop sigs r c' (lastBlock (c_support c)) cb)
    as (n & h & batch & lc & ms & hb & seq & Hn0 & Hhb & Hlast & Hprop & Hseq & Hlib); try done.
  { intros b Hb. rewrite (cp_block _ _ Hcan) in Hb. apply Ok_inj in Hb as ->. by eapply signers_agree. }
  destruct (Deliver_ledger _ _ _ _ _ _ _ Hc Hroom Hne Hsig Hd) as [Hl' Hlen].
  unfold lastPersistedProposalAndSignatures. rewrite (last_ledger_block _ _ Hl') by (unfold two64, maxInt64 in *; lia).
  cbn [mbind outcome_bind]. rewrite Hlast.
  rewrite (ledger_block_decision n h batch lc metadata ms hb) by done. cbn. by rewrite Hlib, Hprop, Hseq.
Qed.

(** C7. What another node can verify from the ledger alone.  Take a proposal
    whose header is the canonical encoding of its block's header (as the
    assembler writes it; the verifier does not insist on it), delivered with
    signatures that a verifier whose runtime configuration is that of the
    configuration block accepted and that carry the same orderer metadata.
    With the identities a node takes from that configuration block, which are
    not sanitized, the signature set it extracts from the block in the ledger
    has the same signatures in the same order under the configured identities;
    a signature is over the data the policy of the orderers accepted if its
    signer's identity is one that sanitizing leaves alone, and over different
    data if it is not (a certificate signed with a high S). *)
Theorem ledger_signatures_verify signer nonce c prop sigs r c' omd block v policy cb selfID nc env oc ids :
  ProposalToBlock prop = Ok block -> BlockHeader_Bytes (b_Header block) = Ok (prop_Header prop) ->
  RemoteNodesFromConfigBlock cb selfID = Ok nc -> ID2Identities (v_RuntimeConfig v) = nc_id2Identities nc ->
  first_envelope cb = Ok env -> NewBundleFromEnvelope env = Ok (Some oc) ->
  ChainSupport_Id2Identity (oc_ConsensusMetadata oc) = Ok ids ->
  sigs <> [] -> Forall (carries omd) sigs ->
  GetPolicy v "/Channel/Orderer/Writers" = Some policy ->
  Forall (fun sg => exists aux, VerifyConsenterSig v sg prop = Ok aux) sigs ->
  Deliver signer nonce c prop sigs = Ok (r, c') ->
  exists l, SignatureSetFromBlock (lastBlock (c_support c')) ids = Ok l /\
    Forall2 (fun sg sd => exists raw verified,
      data_of v policy sg verified /\
      ids !! ts_ID sg = Some raw /\ SanitizeIdentity raw = Ok (sd_Identity verified) /\
      sd_Identity sd = raw /\ sd_Signature sd = ts_Value sg /\
      (SanitizeIdentity raw = Ok raw -> sd = verified) /\
      (SanitizeIdentity raw <> Ok raw -> sd_Data sd <> sd_Data verified)) sigs l.
Proof.
  intros Hb Hh Hn Hid He Ho Hi. eapply ledger_signatures; [done..|].
  rewrite Hid. by eapply Id2Identity_sanitizes.
Qed.

(** C34. The verifier does not look at the number of a block: with any other
    number, an accepted proposal that is no configuration block is still
    accepted; a node that then signs it panics if the number exceeds an int64,
    and a node that delivers it panics unless the number is the height of its
    ledger. *)
Theorem unchecked_block_number v arrival prop block infos k :
  ProposalToBlock prop = Ok block -> VerifyProposal v arrival prop = Ok infos -> isConfigBlock block = false -> is_u64 k ->
  let hb := marshal_int_octets k [PreviousHash (b_Header block); DataHash (b_Header block)] in
  fits hb ->
  let prop' := with_header hb prop in
  VerifyProposal v arrival prop' = Ok infos /\
  (maxInt64 < k -> forall id s rtc nonce aux, exists msg, SignProposal id s rtc nonce prop' aux = Panic msg) /\
  (forall signer nonce c sigs, support_ok (c_support c) -> 0 <= sup_Sequence (c_support c) < two64 - 1 ->
     k <> Height (sup_Ledger (c_support c)) -> is_ok (metadata_signatures sigs) = true ->
     exists msg, Deliver signer nonce c prop' sigs = Panic msg).
Proof.
  intros Hb Hv Hcfg Hk hb Hf prop'.
  set (h := {| Number := k; PreviousHash := PreviousHash (b_Header block); DataHash := DataHash (b_Header block) |}).
  assert (unmarshal_header hb = Ok h) as Hu.
  { unfold unmarshal_header, hb. rewrite <- (app_nil_r (marshal_int_octets _ _)).
    rewrite (marshal_int_octets_roundtrip _ [_; _]) by (apply Hk || done). cbn. by rewrite big_Uint64_id. }
  assert (ProposalToBlock prop' = Ok (with_block_header h block)) as Hb' by (by apply ProposalToBlock_with_header).
  split_and!.
  - apply (VerifyProposal_with_header v arrival prop block infos hb k); try done. by rewrite Hcfg.
  - intros Hbig id s rtc nonce aux. unfold SignProposal. rewrite Hb'. cbn [or_panic mbind outcome_bind].
    unfold BlockHeader_Bytes. cbn [with_block_header b_Header Number h]. rewrite (proj2 (Z.ltb_lt _ _) Hbig). by eexists.
  - intros signer nonce c sigs Hs Hroom Hne Hsig. by eapply Deliver_wrong_number.
Qed.

(** The height to catch up to: it is one of the reported heights; if more
    nodes report than may be faulty, more than that many report at least it,
    so one correct node does, and it is the highest such height, for at most
    that many report more; if fewer report, it is the lowest. *)
Theorem computeTargetHeight_quorum nodes heights t :
  Z.of_nat (length nodes) < two64 -> computeTargetHeight nodes heights = Ok t ->
  t ∈ heights /\
  ((tolerated nodes < length heights)%nat ->
     (tolerated nodes < length (filter (fun h => t <= h)%Z heights))%nat /\
     (length (filter (fun h => t < h)%Z heights) <= tolerated nodes)%nat) /\
  ((length heights <= tolerated nodes)%nat -> Forall (fun h => t <= h) heights).
Proof. apply target_height. Qed.

(** C20. Synchronizing appends what was pulled and nothing else: the ledger
    grows by pulled blocks that continue it, up to at most the target height,
    short of it only when the next block could not be pulled, and the decision
    returned is that of its last block; when an error is returned the ledger
    is unchanged.  The chain stays consistent unless it was halted. *)
Theorem synchronize_sound {Puller : BlockPuller} signer nonce s res s' :
  sync_ok s -> 0 <= sup_Sequence (c_support (sync_chain s)) ->
  (forall heights t, HeightsByEndpoints = Ok heights ->
     computeTargetHeight (rtc_Nodes (c_RuntimeConfig (sync_chain s))) (snd <$> heights) = Ok t ->
     sup_Sequence (c_support (sync_chain s)) + t < two64 - 1) ->
  synchronize signer nonce s = Ok (res, s') -> sync_effect s res s'.
Proof. apply synchronize_effect. Qed.

(** C21. What a received sequence of blocks is checked for: it is accepted
    exactly when it is not empty and every block has the hash of its data, the
    number after and the hash of the block before it, and signatures that are
    valid under the configuration of the block just before it if that is a
    configuration block, and under the committed configuration if it is not. *)
Theorem VerifyBlocksBFT_spec {BV : BlockVerifier} blocks :
  VerifyBlocksBFT blocks = Ok tt <->
  blocks <> [] /\ forall i b, blocks !! i = Some b ->
    linked (previous blocks i) b /\ VerifyBlockSignature b (previous blocks i ≫= block_config) = Ok tt.
Proof. apply VerifyBlocksBFT_iff. Qed.
End Ledgers.

(** ** Requests become seeds *)

Section Requests.
Context {Rnd : Randomness} {Pb : Protobuf} {Certs : Certificates} {CC : ChannelConfig} {Tx : ConfigTx}.

(** Whatever is ordered is kept as a seed of the transaction fuzzer. *)
Lemma ordered_request_is_seed sequence env configSeq s req s' :
  Order sequence env configSeq s = Ok (req, s') ->
  req = Marshal pb_Envelope env /\ transactionSeeds s' = transactionSeeds s ++ [req].
Proof.
  unfold Order, submit. intros H. apply GoM_bind_Ok in H as ([] & s1 & H1 & H). apply lift_Ok in H1 as (? & _ & E).
  apply GoM_bind_Ok in H as ([] & s2 & H2 & H). injection H as <- <-.
  injection H2 as <-. by injection E as _ ->.
Qed.
End Requests.
