(* ===== verification/SmartBFTExamples.v ===== *)
(** * A SmartBFT network

    Four orderers, a ledger with its genesis block, a request, its proposal and
    signatures, evaluated; the theorems about proposals, signatures and the
    ledger applied to them. *)

From S2P Require Import Prelude Randomness BFTMessages FabricFuzzer BigEndian Asn1.
From S2P Require Import FabricBlocks SmartBFTConfig SmartBFTConfigSpec SmartBFT SmartBFTChain SmartBFTSpec SmartBFTChainSpec.

(** ** A wire format *)

(** Numbers as bytes, the lowest first. *)
Fixpoint pack (fuel : nat) (n : Z) : bytes :=
  match fuel with
  | O => []
  | S f => if n =? 0 then [] else to_byte (Z.land n 255) :: pack f (Z.shiftr n 8)
  end.

Definition unpack (b : bytes) : Z := foldr (fun x acc => Z.shiftl acc 8 + byte_val x) 0 b.

Lemma unpack_pack f n : 0 <= n < 256 ^ Z.of_nat f -> unpack (pack f n) = n.
Proof.
  revert n. induction f as [|f IH]; intros n Hn; cbn [pack].
  - change (256 ^ Z.of_nat 0) with 1 in Hn. cbn. lia.
  - destruct (Z.eqb_spec n 0) as [->|Hne]; [done|]. cbn [unpack foldr]. fold (unpack (pack f (Z.shiftr n 8))).
    change 255 with (Z.ones 8). rewrite Z.land_ones, Z.shiftr_div_pow2 by lia. change (2 ^ 8) with 256.
    rewrite Nat2Z.inj_succ, Z.pow_succ_r in Hn by lia. pose proof (Z.mod_pos_bound n 256 eq_refl).
    rewrite IH by (split; [apply Z.div_pos; lia|apply Z.div_lt_upper_bound; lia]).
    rewrite byte_val_to_byte_small, Z.shiftl_mul_pow2 by lia. change (2 ^ 8) with 256.
    pose proof (Z.div_mod n 256). lia.
Qed.

(** Any countable type has a codec; no bytes are the default message. *)
Definition countable_codec {T} `{Countable T} {A} (d : A) (to : A -> T) (from : T -> A) : Codec A := {|
  Marshal a := let n := Z.pos (encode (to a)) in pack (Z.to_nat (big_BitLen n)) n;
  Unmarshal b :=
    match b with
    | [] => Ok d
    | _ => match unpack b with
           | Z.pos p => match decode p with Some t => Ok (from t) | None => Err "malformed" end
           | _ => Err "malformed"
           end
    end;
|}.

Lemma countable_codec_ok {T} `{Countable T} {A} (d : A) (to : A -> T) (from : T -> A) :
  (forall a, from (to a) = a) -> codec_ok (countable_codec d to from).
Proof.
  intros Hinv. split.
  - intros a. unfold countable_codec. cbn [Marshal Unmarshal]. set (n := Z.pos (encode (to a))).
    pose proof (bitlen_bound n ltac:(done)) as [Hb1 Hb2].
    pose proof (unpack_pack (Z.to_nat (big_BitLen n)) n) as Hv. rewrite Z2Nat.id in Hv by done.
    specialize (Hv ltac:(done)). destruct (pack _ n) as [|x b]; [done|]. rewrite Hv. cbn. by rewrite decode_encode, Hinv.
  - intros b p. cbn. repeat case_match; done.
Qed.

Module Network.

Definition ms_tuple (m : MetadataSignature) :=
  (ms_SignatureHeader m, ms_Signature m, ms_Nonce m, ms_SignerId m, ms_AuxiliaryInput m).
Definition tuple_ms (t : bytes * bytes * bytes * Z * bytes) : MetadataSignature :=
  let '(h, s, n, i, a) := t in
  {| ms_SignatureHeader := h; ms_Signature := s; ms_Nonce := n; ms_SignerId := i; ms_AuxiliaryInput := a |}.

Lemma tuple_ms_inv m : tuple_ms (ms_tuple m) = m.
Proof. by destruct m. Qed.

Definition env_tuple (e : Envelope) := (env_Payload e, env_Signature e).
Definition tuple_env (t : bytes * bytes) : Envelope := {| env_Payload := t.1; env_Signature := t.2 |}.

Definition checksum (b : bytes) : bytes :=
  [to_byte (fold_left (fun a x => a * 3 + byte_val x) (firstn 40 b) 0);
   to_byte (fold_left (fun a x => a + byte_val x) b 0); to_byte (Z.of_nat (length b))].

#[export] Instance Pb : Protobuf := {|
  pb_BlockData := countable_codec [] (fun l => l) (fun l => l);
  pb_BlockMetadata := countable_codec [] (fun l => l) (fun l => l);
  pb_Metadata := countable_codec {| md_Value := []; md_Signatures := [] |}
    (fun m => (md_Value m, ms_tuple <$> md_Signatures m))
    (fun t => {| md_Value := t.1; md_Signatures := tuple_ms <$> t.2 |});
  pb_LastConfig := countable_codec 0 (fun z => z) (fun z => z);
  pb_OrdererBlockMetadata := countable_codec {| obm_LastConfig := None; obm_ConsenterMetadata := [] |}
    (fun m => (obm_LastConfig m, obm_ConsenterMetadata m))
    (fun t => {| obm_LastConfig := t.1; obm_ConsenterMetadata := t.2 |});
  pb_Envelope := countable_codec {| env_Payload := []; env_Signature := [] |} env_tuple tuple_env;
  pb_Payload := countable_codec {| pl_Header := None; pl_Data := [] |}
    (fun p => ((fun h => (ph_ChannelHeader h, ph_SignatureHeader h)) <$> pl_Header p, pl_Data p))
    (fun t => {| pl_Header := (fun h => {| ph_ChannelHeader := h.1; ph_SignatureHeader := h.2 |}) <$> t.1;
                 pl_Data := t.2 |});
  pb_ChannelHeader := countable_codec {| ch_Type := 0; ch_ChannelId := "" |}
    (fun h => (ch_Type h, ch_ChannelId h)) (fun t => {| ch_Type := t.1; ch_ChannelId := t.2 |});
  pb_SignatureHeader := countable_codec {| sh_Creator := []; sh_Nonce := [] |}
    (fun h => (sh_Creator h, sh_Nonce h)) (fun t => {| sh_Creator := t.1; sh_Nonce := t.2 |});
  pb_SerializedIdentity := countable_codec {| si_Mspid := ""; si_IdBytes := [] |}
    (fun i => (si_Mspid i, si_IdBytes i)) (fun t => {| si_Mspid := t.1; si_IdBytes := t.2 |});
  pb_ConfigEnvelope := countable_codec {| ce_Config := None; ce_LastUpdate := None |}
    (fun c => (ce_Config c, env_tuple <$> ce_LastUpdate c))
    (fun t => {| ce_Config := t.1; ce_LastUpdate := tuple_env <$> t.2 |});
  pb_ViewMetadata := countable_codec emptyViewMetadata
    (fun m => (vm_ViewId m, vm_LatestSequence m, vm_DecisionsInView m, vm_BlackList m, vm_PrevCommitSignatureDigest m))
    (fun t => let '(v, s, d, b, p) := t in
       {| vm_ViewId := v; vm_LatestSequence := s; vm_DecisionsInView := d; vm_BlackList := b;
          vm_PrevCommitSignatureDigest := p |});
  sha256 := checksum;
|}.

#[export] Instance PbOk : ProtobufOk.
Proof.
  split; try (apply countable_codec_ok; by intros []).
  - apply countable_codec_ok. intros [v l]. cbn. f_equal. rewrite <- list_fmap_compose.
    transitivity (id <$> l); [|apply list_fmap_id]. apply list_fmap_ext. intros i m _. apply tuple_ms_inv.
  - apply countable_codec_ok. intros [[[]|] d]; done.
  - apply countable_codec_ok. intros [c [[]|]]; done.
  - done.
Qed.

(** ** Four orderers *)

Definition identity (i : Z) : bytes := Marshal pb_SerializedIdentity {| si_Mspid := "Org"; si_IdBytes := [to_byte i] |}.

Definition orderer (i : Z) : Consenter := {|
  ConsenterId := i; Host := "orderer"; Port := 7050 + i; Identity := identity i;
  ClientTlsCert := [to_byte (100 + i)]; ServerTlsCert := [to_byte (200 + i)] |}.

Definition options : Options := {|
  o_RequestBatchMaxCount := 100; o_RequestBatchMaxBytes := 1000; o_RequestBatchMaxInterval := "50ms";
  o_IncomingMessageBufferSize := 200; o_RequestPoolSize := 400; o_RequestForwardTimeout := "2s";
  o_RequestComplainTimeout := "20s"; o_RequestAutoRemoveTimeout := "3m"; o_ViewChangeResendInterval := "5s";
  o_ViewChangeTimeout := "20s"; o_LeaderHeartbeatTimeout := "1m"; o_LeaderHeartbeatCount := 10;
  o_CollectTimeout := "1s"; o_SyncOnStart := false; o_SpeedUpViewChange := false; o_LeaderRotation := Options_ON;
  o_DecisionsPerLeader := 7 |}.

Definition durations : list (string * Z) :=
  [("50ms", 50 * Millisecond); ("1s", Second); ("2s", 2 * Second); ("5s", 5 * Second); ("20s", 20 * Second);
   ("1m", Minute); ("3m", 3 * Minute)].

#[export] Instance Certs : Certificates := {|
  pem_Decode b := Some b;
  pem_Encode b := b;
  ParseCertificate b := Ok {| cert_Signature := MarshalECDSASignature 3 4; cert_N := Some 11; cert_Raw := b |};
  with_signature raw _ := Ok raw;
  ParseDuration s := ok_or (snd <$> list_find (fun d => d.1 = s) durations) "invalid duration" ≫= fun d => mret d.2;
|}.

Definition orderer_config : OrdererConfig := {| oc_ConsensusType := "smartbft"; oc_ConsensusMetadata := [] |}.

#[export] Instance CC : ChannelConfig := {|
  NewBundleFromEnvelope _ := Ok (Some orderer_config);
  pb_ConfigMetadata := {|
    Marshal _ := [];
    Unmarshal _ := Ok {| cm_Consenters := orderer <$> [1; 2; 3; 4]; cm_Options := Some options |} |};
  ApplyFilters _ _ := Ok tt;
  NewChannelConfig _ := Err "no channel is created";
  ProposeConfigUpdate _ e := Ok {| ce_Config := Some (be_bytes 1); ce_LastUpdate := Some e |};
|}.

(** The bytes of a configuration are its sequence. *)
#[export] Instance Tx : ConfigTx := {|
  Validate_config seq env :=
    ensure (match ce_Config env with Some b => be_val b =? seq +u 1 | None => false end) "unexpected sequence";
  CreateBundle _ config :=
    b ← ok_or config "nil config"; Ok {| bundle_Sequence := be_val b; bundle_OrdererConfig := Some orderer_config |};
  ProcessNormalMsg _ := Ok tt;
  ProcessConfigMsg e := Ok e;
  pb_PreparesFrom := countable_codec [] (fun l => l) (fun l => l);
|}.

#[export] Instance TxOk : ConfigTxOk.
Proof.
  split; [|by apply countable_codec_ok]. intros seq env ch b Hv Hb. cbn in *. destruct (ce_Config env); [|done].
  cbn in *. inv_run. by apply Z.eqb_eq.
Qed.

(** ** Requests and blocks *)

Definition client : bytes := Marshal pb_SerializedIdentity {| si_Mspid := "Org"; si_IdBytes := [Byte.x99] |}.

Definition transaction (typ nonce : Z) (data : bytes) : bytes :=
  let payload := Marshal pb_Payload {|
    pl_Header := Some {|
      ph_ChannelHeader := Some (Marshal pb_ChannelHeader {| ch_Type := typ; ch_ChannelId := "ch" |});
      ph_SignatureHeader := Marshal pb_SignatureHeader {| sh_Creator := client; sh_Nonce := [to_byte nonce] |} |};
    pl_Data := data |} in
  Marshal pb_Envelope {| env_Payload := payload; env_Signature := checksum payload |}.

Definition config_data : bytes := Marshal pb_ConfigEnvelope {| ce_Config := Some []; ce_LastUpdate := None |}.

Definition genesis : Block :=
  let data := [transaction HeaderType_CONFIG 0 config_data] in
  {| b_Header := {| Number := 0; PreviousHash := []; DataHash := BlockData_Hash data |};
     b_Data := Some data; b_Metadata := Some (replicate metadata_entries []) |}.

Definition requests : list bytes :=
  [transaction HeaderType_ENDORSER_TRANSACTION 1 []; transaction HeaderType_ENDORSER_TRANSACTION 2 [Byte.x05]].

(** ** Nodes *)

(** Signatures are checksums, and every policy checks them. *)
Definition signer (i : Z) : SignerSerializer := {| Sign m := Ok (checksum m); Serialize := Ok (identity i) |}.

Definition policy : Policy := fun l =>
  ensure (forallb (fun sd => bool_decide (sd_Signature sd = checksum (sd_Data sd))) l) "bad signature".

Definition rtc0 : RuntimeConfig :=
  match initialRuntimeConfig 1 [genesis] with Ok rtc => rtc | _ => blankRuntimeConfig 1 end.

Definition verifier : Verifier := {|
  v_RuntimeConfig := rtc0;
  ValidateIdentityStructure := fun _ => Ok tt;
  GetPolicy := fun _ => Some policy;
  v_Sequence := 0;
  ValidatingChannel := "ch";
|}.

Definition c0 : BFTChain := {|
  c_RuntimeConfig := rtc0;
  c_support := {| sup_Ledger := [genesis]; sup_Sequence := 0; sup_ConsensusType := "smartbft"; lastConfigBlockNum := 0;
                  lastConfigSeq := 0; lastBlock := genesis; sup_newChains := [] |};
  c_halted := false;
  c_members := [];
|}.

Definition view_metadata : bytes :=
  Marshal pb_ViewMetadata {| vm_ViewId := 0; vm_LatestSequence := 1; vm_DecisionsInView := 0; vm_BlackList := [];
                             vm_PrevCommitSignatureDigest := [] |}.

Definition nobody : Proposal := {| prop_Payload := []; prop_Header := []; prop_Metadata := []; prop_VerificationSequence := 0 |}.

Definition prop1 : Proposal :=
  match AssembleProposal rtc0 0 view_metadata requests with Ok p => p | _ => nobody end.

Definition block1 : Block := match ProposalToBlock prop1 with Ok b => b | _ => genesis end.

Definition aux : bytes := Marshal pb_PreparesFrom [1; 2; 3].

Definition signature (i : Z) : types_Signature :=
  match SignProposal i (signer i) rtc0 [to_byte i] prop1 aux with
  | Ok sg => sg
  | _ => {| ts_ID := 0; ts_Value := []; ts_Msg := [] |}
  end.

Definition signatures : list types_Signature := signature <$> [1; 2; 3].

Definition c1 : BFTChain := match Deliver (signer 1) [] c0 prop1 signatures with Ok (_, c) => c | _ => c0 end.

(** ** Facts about the run *)

Ltac run := vm_compute; reflexivity.

Lemma commit_genesis : BlockCommitted rtc0 genesis = Ok rtc0.
Proof. run. Qed.

Lemma rtc0_well_formed : rtc_ok rtc0.
Proof. apply (BlockCommitted_run rtc0 genesis rtc0 commit_genesis). right. run. Qed.

Lemma c0_ok : chain_ok c0.
Proof.
  split.
  - split; [|done..]. intros i b Hb. destruct i as [|i]; [|done]. injection Hb as <-. by split.
  - apply rtc0_well_formed.
  - run.
  - exists genesis. split; [run|done].
Qed.

Lemma current : rtc_current rtc0 genesis genesis.
Proof.
  split; [run|run|by vm_compute|]. intros h Hh. apply Ok_inj in Hh as ->. run.
Qed.

Lemma requests_accepted : Forall (fun r => is_ok (VerifyRequest verifier r) = true) requests.
Proof. repeat constructor; run. Qed.

Lemma assembled : AssembleProposal rtc0 0 view_metadata requests = Ok prop1.
Proof. run. Qed.

Lemma read_block1 : ProposalToBlock prop1 = Ok block1.
Proof. run. Qed.

Lemma prop1_verifies : exists infos, VerifyProposal verifier [1; 0]%nat prop1 = Ok infos.
Proof. apply is_ok_ex. run. Qed.

Lemma prop1_canonical : canonical_proposal prop1 block1.
Proof.
  split; [run|run|eexists; split; run|]. eexists _, _. split; run.
Qed.

Lemma delivered : exists r, Deliver (signer 1) [] c0 prop1 signatures = Ok (r, c1).
Proof. eexists. run. Qed.

Lemma signer_honest i : signs_for (signer i) (identity i) policy.
Proof.
  split; [done|]. intros m. exists (checksum m). split; [done|]. unfold policy. cbn [forallb sd_Signature sd_Data].
  by rewrite bool_decide_eq_true_2.
Qed.

Lemma signature_made i :
  SignProposal i (signer i) rtc0 [to_byte i] prop1 aux = Ok (signature i) -> fits (ts_Msg (signature i)) ->
  made_by_node rtc0 prop1 (signature i).
Proof.
  intros Hs Hf. exists i, (signer i), rtc0, [to_byte i], aux. split; [exact Hs|]. split; [reflexivity|].
  split; [exact Hf|run].
Qed.

Lemma signatures_made : Forall (made_by_node rtc0 prop1) signatures.
Proof.
  constructor; [apply signature_made; run|]. constructor; [apply signature_made; run|].
  constructor; [apply signature_made; run|]. constructor.
Qed.

Lemma verifier_returns : env_returns verifier.
Proof.
  split.
  - intros ch e. apply nopanic_Ok.
  - intros e. apply nopanic_Err.
  - intros e f Hf. discriminate Hf.
  - intros ch e. apply nopanic_Ok.
  - intros name p l Hp. cbn in Hp. injection Hp as <-. apply nopanic_ensure.
  - intros i. apply nopanic_Ok.
  - exists genesis. run.
Qed.

Lemma c0_room : 0 <= sup_Sequence (c_support c0) < two64 - 1.
Proof. change (sup_Sequence (c_support c0)) with 0. unfold two64. lia. Qed.

(** ** Witnesses *)

Lemma BlockCommitted_well_formed_witness : rtc_ok rtc0 /\ rtc_LastConfigBlock rtc0 = Some genesis.
Proof.
  destruct (BlockCommitted_well_formed rtc0 genesis rtc0 commit_genesis) as (H1 & _ & _ & H4); [right; run|].
  split; [exact H1|]. rewrite H4. run.
Defined.

Lemma assembled_proposal_verifies_witness :
  exists prop batch infos, AssembleProposal rtc0 0 view_metadata requests = Ok prop /\ batch `prefix_of` requests /\
    VerifyProposal verifier (seq 0 (length batch)) prop = Ok infos.
Proof.
  destruct (assembled_proposal_verifies verifier genesis genesis view_metadata
    {| vm_ViewId := 0; vm_LatestSequence := 1; vm_DecisionsInView := 0; vm_BlackList := [];
       vm_PrevCommitSignatureDigest := [] |} requests) as (prop & batch & infos & Ha & Hp & _ & _ & Hv).
  - exact current.
  - by vm_compute.
  - run.
  - done.
  - exact requests_accepted.
  - exists prop, batch, infos. split; [exact Ha|]. split; [exact Hp|].
    change (AssembleProposal rtc0 0 view_metadata requests = Ok prop) in Ha. rewrite assembled in Ha. apply Ok_inj in Ha as ->.
    destruct Hv as [_ Hv]; [run|run|]. by apply Hv.
Defined.

Lemma honest_signature_accepted_witness :
  exists sg, SignProposal 2 (signer 2) rtc0 [Byte.x02] prop1 aux = Ok sg /\
    (fits (ts_Msg sg) -> VerifyConsenterSig verifier sg prop1 = Ok aux).
Proof.
  destruct prop1_verifies as [infos Hv].
  apply (honest_signature_accepted verifier [1; 0]%nat prop1 block1 infos 2 (signer 2) rtc0 [Byte.x02] aux (identity 2) policy
           prop1_canonical Hv).
  - done.
  - run.
  - done.
  - apply signer_honest.
Defined.

Lemma VerifyConsenterSig_spec_witness : signature_accepted verifier (signature 3) prop1 aux.
Proof. apply VerifyConsenterSig_spec. run. Defined.

Lemma verifier_never_panics_witness : nopanic (VerifyProposal verifier [] nobody).
Proof.
  refine (proj1 (verifier_never_panics verifier _) [] nobody). exact verifier_returns.
Defined.

Lemma validateTransactions_any_order_witness :
  exists infos, Forall2 (fun r i => verifyRequest verifier true r = Ok i) requests infos.
Proof.
  destruct (is_ok_ex (validateTransactions [1; 0]%nat requests (verifyRequest verifier))) as [infos H]; [run|].
  exists infos. apply (validateTransactions_any_order [1; 0]%nat requests (verifyRequest verifier) infos); [|exact H].
  cbn. apply perm_swap.
Defined.

Lemma block1_continues : continues c0 block1.
Proof.
  split.
  - run.
  - apply Z.leb_le. run.
  - run.
  - assert (option_map (fun md => (LAST_CONFIG <? length md)%nat) (b_Metadata block1) = Some true) as H by run.
    destruct (b_Metadata block1) as [md|]; [|done]. exists md. split; [done|]. apply Nat.ltb_lt. by injection H.
Qed.

Lemma Deliver_keeps_chain_witness :
  (c_halted c1 = true \/
   (chain_ok c1 /\ exists block, ProposalToBlock prop1 = Ok block /\ same_block block (lastBlock (c_support c1)) /\
      sup_Ledger (c_support c1) = sup_Ledger (c_support c0) ++ [lastBlock (c_support c1)])) /\
  (exists r c', Deliver (signer 1) [] c0 prop1 signatures = Ok (r, c') /\ c_halted c' = c_halted c0) /\
  exists msg, Deliver (signer 1) [] c0 nobody signatures = Panic msg.
Proof.
  split; [|split].
  - destruct delivered as [r Hd].
    exact (proj1 (proj2 (proj2 (proj2 (Deliver_keeps_chain (signer 1) [] c0 prop1 signatures c0_ok c0_room))) r c1 Hd)).
  - apply (proj1 (proj2 (proj2 (Deliver_keeps_chain (signer 1) [] c0 prop1 signatures c0_ok c0_room))) block1).
    + run.
    + run.
    + exact block1_continues.
    + discriminate.
    + run.
  - apply (proj1 (proj2 (Deliver_keeps_chain (signer 1) [] c0 nobody signatures c0_ok c0_room))). left. run.
Defined.

Lemma decision_roundtrip_witness : lastPersistedProposalAndSignatures c1 = Ok (prop1, signatures).
Proof.
  destruct delivered as [r Hd].
  apply (decision_roundtrip (signer 1) [] c0 view_metadata requests prop1 signatures r c1 c0_ok c0_room).
  - reflexivity.
  - exact assembled.
  - run.
  - run.
  - discriminate.
  - exact signatures_made.
  - exact Hd.
Defined.

(** The node reads the genesis block; the certificates have a low S. *)
Definition identities0 : gmap Z bytes := consenter_identities (orderer <$> [1; 2; 3; 4]).
Definition nodes0 : nodeConfig :=
  match RemoteNodesFromConfigBlock genesis 1 with Ok nc => nc | _ => emptyNodeConfig end.
Definition genesis_envelope : Envelope :=
  match first_envelope genesis with Ok e => e | _ => {| env_Payload := []; env_Signature := [] |} end.

Lemma ledger_signatures_verify_witness :
  exists l, SignatureSetFromBlock (lastBlock (c_support c1)) identities0 = Ok l /\ length l = 3%nat.
Proof.
  destruct delivered as [r Hd].
  destruct (ledger_signatures_verify (signer 1) [] c0 prop1 signatures r c1 (orderer_metadata 0 view_metadata) block1
    verifier policy genesis 1 nodes0 genesis_envelope orderer_config identities0) as (l & E & F).
  - exact read_block1.
  - run.
  - run.
  - run.
  - run.
  - reflexivity.
  - reflexivity.
  - discriminate.
  - constructor; [eexists; split; run|]. constructor; [eexists; split; run|]. constructor; [eexists; split; run|]. constructor.
  - reflexivity.
  - constructor; [exists aux; run|]. constructor; [exists aux; run|]. constructor; [exists aux; run|]. constructor.
  - exact Hd.
  - exists l. split; [exact E|]. symmetry. exact (Forall2_length _ _ _ F).
Defined.

Lemma unchecked_block_number_witness :
  let hb := marshal_int_octets 9223372036854775808 [PreviousHash (b_Header block1); DataHash (b_Header block1)] in
  let prop' := with_header hb prop1 in
  (exists infos, VerifyProposal verifier [1; 0]%nat prop' = Ok infos) /\
  (exists msg, SignProposal 2 (signer 2) rtc0 [] prop' aux = Panic msg) /\
  (exists msg, Deliver (signer 1) [] c0 prop' signatures = Panic msg).
Proof.
  destruct prop1_verifies as [infos Hv].
  destruct (unchecked_block_number verifier [1; 0]%nat prop1 block1 infos 9223372036854775808 read_block1 Hv)
    as (H1 & H2 & H3); [run|unfold is_u64, two64; lia|run|].
  split; [exists infos; exact H1|]. split; [apply H2; reflexivity|]. apply H3; [apply c0_ok|exact c0_room|discriminate|run].
Defined.

Lemma computeTargetHeight_quorum_witness :
  computeTargetHeight [1; 2; 3; 4] [7; 5; 9] = Ok 7 /\ (1 < length (filter (fun h => 7 <= h)%Z [7; 5; 9]%Z))%nat.
Proof.
  split; [run|]. destruct (computeTargetHeight_quorum [1; 2; 3; 4] [7; 5; 9] 7) as (_ & H & _); [reflexivity|run|].
  apply H. vm_compute. lia.
Defined.

(** A node that has the block, and three that report their heights. *)
#[export] Instance Puller : BlockPuller := {|
  PullBlock n := if n =? 1 then Some (lastBlock (c_support c1)) else None;
  HeightsByEndpoints := Ok [("a", 2); ("b", 1); ("c", 2)];
|}.

Definition s0 : SyncState := {| sync_chain := c0; lastReconfig := zeroReconfig |}.

Lemma synchronize_sound_witness :
  exists d s', synchronize (signer 1) [] s0 = Ok (inl d, s') /\ sync_effect s0 (inl d) s'.
Proof.
  assert (exists d s', synchronize (signer 1) [] s0 = Ok (inl d, s')) as (d & s' & Hs).
  { eexists _, _. run. }
  exists d, s'. split; [exact Hs|]. apply (synchronize_sound (signer 1) [] s0 (inl d) s').
  - split; [apply c0_ok|]. right. exact c0_ok.
  - apply c0_room.
  - intros heights t Hh Ht. apply Ok_inj in Hh as ->.
    assert (computeTargetHeight (rtc_Nodes (c_RuntimeConfig (sync_chain s0))) (snd <$> [("a", 2); ("b", 1); ("c", 2)]) = Ok 2)
      as E by run.
    rewrite E in Ht. apply Ok_inj in Ht as ->. reflexivity.
  - exact Hs.
Defined.

#[export] Instance BV : BlockVerifier := {|
  bv_VerifyBlockSignature l _ := policy l;
  Id2Identity _ := Ok (ID2Identities rtc0);
|}.

Lemma VerifyBlocksBFT_spec_witness :
  linked (Some genesis) (lastBlock (c_support c1)) /\
  VerifyBlockSignature (lastBlock (c_support c1)) (block_config genesis) = Ok tt.
Proof.
  destruct (proj1 (VerifyBlocksBFT_spec (sup_Ledger (c_support c1)))) as [_ H]; [run|].
  apply (H 1%nat). run.
Defined.
End Network.
