(* ===== verification/Rlp.v ===== *)
(** * RLP: encoding buffers and the raw decoder

    rlp/encode.go and rlp/raw.go of the Ethereum node.  The encoder writes
    string data and list headers into separate buffers and interleaves them at
    the end; the reference encoding below it is the recursive definition of the
    format.  The values the reflection-driven writers walk over are the
    constructors of [rval]; types with an [EncodeRLP] method of their own are
    not among them. *)

From S2P Require Import Prelude BigEndian.

(** ** Integers *)

Definition shr_byte (i k : Z) : byte := to_byte (Z.shiftr i k).

(** [putint] returns the bytes it writes.
    [geth:rlp/encode.go] putint *)
Definition putint (i : Z) : bytes :=
  if i <? Z.shiftl 1 8 then [to_byte i]
  else if i <? Z.shiftl 1 16 then [shr_byte i 8; to_byte i]
  else if i <? Z.shiftl 1 24 then [shr_byte i 16; shr_byte i 8; to_byte i]
  else if i <? Z.shiftl 1 32 then [shr_byte i 24; shr_byte i 16; shr_byte i 8; to_byte i]
  else if i <? Z.shiftl 1 40 then
    [shr_byte i 32; shr_byte i 24; shr_byte i 16; shr_byte i 8; to_byte i]
  else if i <? Z.shiftl 1 48 then
    [shr_byte i 40; shr_byte i 32; shr_byte i 24; shr_byte i 16; shr_byte i 8; to_byte i]
  else if i <? Z.shiftl 1 56 then
    [shr_byte i 48; shr_byte i 40; shr_byte i 32; shr_byte i 24; shr_byte i 16; shr_byte i 8; to_byte i]
  else
    [shr_byte i 56; shr_byte i 48; shr_byte i 40; shr_byte i 32; shr_byte i 24; shr_byte i 16;
     shr_byte i 8; to_byte i].

Fixpoint intsize_loop (fuel : nat) (size i : Z) : Z :=
  match fuel with
  | O => size
  | S f =>
      let i := Z.shiftr i 8 in
      if i =? 0 then size else intsize_loop f (size + 1) i
  end.

(** A [uint64] is zero after at most eight shifts.
    [geth:rlp/encode.go] intsize *)
Definition intsize (i : Z) : Z := intsize_loop 8 1 i.

(** [geth:rlp/encode.go] headsize *)
Definition headsize (size : Z) : Z := if size <? 56 then 1 else 1 + intsize size.

(** [puthead] returns the bytes it writes.
    [geth:rlp/encode.go] puthead *)
Definition puthead (smalltag largetag size : Z) : bytes :=
  if size <? 56 then [to_byte (smalltag + size)]
  else
    let b := putint size in
    to_byte (largetag + Z.of_nat (length b)) :: b.

(** [geth:rlp/raw.go] ListSize *)
Definition ListSize (contentSize : Z) : Z := headsize contentSize +u contentSize.

(** [geth:rlp/raw.go] IntSize *)
Definition IntSize (x : Z) : Z := if x <? 128 then 1 else 1 + intsize x.

(** [geth:rlp/raw.go] AppendUint64 *)
Definition AppendUint64 (b : bytes) (i : Z) : bytes :=
  if i =? 0 then b ++ [to_byte 128]
  else if i <? 128 then b ++ [to_byte i]
  else if i <? Z.shiftl 1 8 then b ++ [to_byte 129; to_byte i]
  else if i <? Z.shiftl 1 16 then b ++ [to_byte 130; shr_byte i 8; to_byte i]
  else if i <? Z.shiftl 1 24 then b ++ [to_byte 131; shr_byte i 16; shr_byte i 8; to_byte i]
  else if i <? Z.shiftl 1 32 then
    b ++ [to_byte 132; shr_byte i 24; shr_byte i 16; shr_byte i 8; to_byte i]
  else if i <? Z.shiftl 1 40 then
    b ++ [to_byte 133; shr_byte i 32; shr_byte i 24; shr_byte i 16; shr_byte i 8; to_byte i]
  else if i <? Z.shiftl 1 48 then
    b ++ [to_byte 134; shr_byte i 40; shr_byte i 32; shr_byte i 24; shr_byte i 16; shr_byte i 8;
          to_byte i]
  else if i <? Z.shiftl 1 56 then
    b ++ [to_byte 135; shr_byte i 48; shr_byte i 40; shr_byte i 32; shr_byte i 24; shr_byte i 16;
          shr_byte i 8; to_byte i]
  else
    b ++ [to_byte 136; shr_byte i 56; shr_byte i 48; shr_byte i 40; shr_byte i 32; shr_byte i 24;
          shr_byte i 16; shr_byte i 8; to_byte i].

(** ** The encoding buffer *)

(** [geth:rlp/encode.go] listhead *)
Record listhead := { offset : nat; lh_size : Z }.

(** [geth:rlp/encode.go] listhead.encode *)
Definition lh_encode (h : listhead) : bytes := puthead 192 247 (lh_size h).

(** The scratch [sizebuf] holds nothing between operations.
    [geth:rlp/encode.go] encbuf *)
Record encbuf := {
  str : bytes;
  lheads : list listhead;
  lhsize : Z;
}.

(** [geth:rlp/encode.go] encbuf.reset *)
Definition reset : encbuf := {| str := []; lheads := []; lhsize := 0 |}.

(** [w.str = append(w.str, b...)].
    [geth:rlp/encode.go] encbuf.Write *)
Definition Write (b : bytes) (w : encbuf) : encbuf :=
  {| str := str w ++ b; lheads := lheads w; lhsize := lhsize w |}.

(** [geth:rlp/encode.go] encbuf.encodeStringHeader *)
Definition encodeStringHeader (size : Z) (w : encbuf) : encbuf :=
  if size <? 56 then Write [to_byte (128 + size)] w
  else
    let b := putint size in
    Write (to_byte (183 + Z.of_nat (length b)) :: b) w.

(** [geth:rlp/encode.go] encbuf.encodeString *)
Definition encodeString (b : bytes) (w : encbuf) : encbuf :=
  match b with
  | [x] => if byte_val x <=? 127 then Write [x] w
           else Write b (encodeStringHeader 1 w)
  | _ => Write b (encodeStringHeader (Z.of_nat (length b)) w)
  end.

(** [geth:rlp/encode.go] encbuf.encodeUint *)
Definition encodeUint (i : Z) (w : encbuf) : encbuf :=
  if i =? 0 then Write [to_byte 128] w
  else if i <? 128 then Write [to_byte i] w
  else
    let b := putint i in
    Write (to_byte (128 + Z.of_nat (length b)) :: b) w.

(** [geth:rlp/encode.go] encbuf.size *)
Definition size_of (w : encbuf) : Z := Z.of_nat (length (str w)) + lhsize w.

(** [geth:rlp/encode.go] encbuf.list *)
Definition list_start (w : encbuf) : nat * encbuf :=
  (length (lheads w),
   {| str := str w;
      lheads := lheads w ++ [{| offset := length (str w); lh_size := lhsize w |}];
      lhsize := lhsize w |}).

(** [geth:rlp/encode.go] encbuf.listEnd *)
Definition listEnd (idx : nat) (w : encbuf) : outcome encbuf :=
  lh ← index (lheads w) idx;
  let size := size_of w - Z.of_nat (offset lh) - lh_size lh in
  let lhsize' := if size <? 56 then lhsize w + 1 else lhsize w + (1 + intsize size) in
  mret {| str := str w;
          lheads := <[idx := {| offset := offset lh; lh_size := size |}]> (lheads w);
          lhsize := lhsize' |}.

(** The loop of [toBytes]: [out] is what has been written of the [cap] bytes. *)
Fixpoint toBytes_loop (cap : nat) (s : bytes) (strpos : nat) (heads : list listhead) (out : bytes) :
    outcome bytes :=
  match heads with
  | [] => mret (out ++ take (cap - length out) (drop strpos s))
  | head :: rest =>
      if (offset head <? strpos)%nat then Panic "slice bounds out of range"
      else
        let piece := take (cap - length out) (take (offset head - strpos) (drop strpos s)) in
        let out := out ++ piece in
        let enc := lh_encode head in
        if (cap <? length out + length enc)%nat then Panic "index out of range"
        else toBytes_loop cap s (strpos + length piece) rest (out ++ enc)
  end.

(** [geth:rlp/encode.go] encbuf.toBytes *)
Definition toBytes (w : encbuf) : outcome bytes :=
  let cap := Z.to_nat (size_of w) in
  out ← toBytes_loop cap (str w) 0 (lheads w) [];
  mret (out ++ replicate (cap - length out) Byte.x00).

(** ** Writers *)

(** What the writers see through reflection. A struct carries its required
    fields and its optional ones, each with whether it [IsZero]; a pointer
    carries the encoding of nil its type and tags choose; the [tail] slice of a
    struct has no list header of its own. *)
Inductive rval :=
| RRaw (b : bytes)
| RUint (i : Z)
| RBool (b : bool)
| RBigPtr (i : option Z)
| RBig (i : Z)
| RString (s : bytes)
| RBytes (b : bytes)
| RByteArray (b : bytes)
| RSlice (l : list rval)
| RTail (l : list rval)
| RStruct (fields : list rval) (optional : list (bool * rval))
| RPtr (nilEncoding : byte) (v : option rval)
| RIface (v : option rval).

(** [geth:rlp/encode.go] writeBool *)
Definition writeBool (b : bool) (w : encbuf) : encbuf :=
  if b then Write [to_byte 1] w else Write [to_byte 128] w.

(** [big.Int.Bits]: the little-endian 64-bit words of a non-negative number. *)
Fixpoint big_Bits_loop (fuel : nat) (i : Z) : list Z :=
  match fuel with
  | O => []
  | S f => if i =? 0 then [] else (i mod two64) :: big_Bits_loop f (i / two64)
  end.

Definition big_Bits (i : Z) : list Z := big_Bits_loop (Z.to_nat (big_BitLen i)) i.

(** The inner loop over the bytes of a word: [buf[index] = byte(d); d >>= 8],
    counting [index] down; [acc] is the filled end of the buffer. *)
Fixpoint fill_word (j : nat) (d : Z) (index : nat) (acc : bytes) : nat * bytes :=
  match j, index with
  | S j', S index' => fill_word j' (Z.shiftr d 8) index' (to_byte d :: acc)
  | _, _ => (index, acc)
  end.

Fixpoint fill_words (ds : list Z) (index : nat) (acc : bytes) : nat * bytes :=
  match ds with
  | [] => (index, acc)
  | d :: rest => let '(index, acc) := fill_word 8 d index acc in fill_words rest index acc
  end.

(** [geth:rlp/encode.go] writeBigInt *)
Definition writeBigInt (i : Z) (w : encbuf) : outcome encbuf :=
  if i <? 0 then Err "rlp: cannot encode negative *big.Int"
  else
    let bitlen := big_BitLen i in
    if bitlen <=? 64 then mret (encodeUint (big_Uint64 i) w)
    else
      let length := Z.shiftr (Z.land (bitlen + 7) (-8)) 3 in
      let w := encodeStringHeader length w in
      let '(index, acc) := fill_words (big_Bits i) (Z.to_nat length) [] in
      mret (Write (replicate index Byte.x00 ++ acc) w).

(** [geth:rlp/encode.go] writeBigIntPtr *)
Definition writeBigIntPtr (p : option Z) (w : encbuf) : outcome encbuf :=
  match p with
  | None => mret (Write [to_byte 128] w)
  | Some i => writeBigInt i w
  end.

(** [geth:rlp/encode.go] writeString *)
Definition writeString (s : bytes) (w : encbuf) : encbuf :=
  match s with
  | [x] => if byte_val x <=? 127 then Write [x] w
           else Write s (encodeStringHeader 1 w)
  | _ => Write s (encodeStringHeader (Z.of_nat (length s)) w)
  end.

(** [geth:rlp/encode.go] makeByteArrayWriter *)
Definition writeByteArray (b : bytes) (w : encbuf) : encbuf :=
  match b with
  | [] => Write [to_byte 128] w
  | [x] => if byte_val x <=? 127 then Write [x] w else Write [to_byte 129; x] w
  | _ => Write b (encodeStringHeader (Z.of_nat (length b)) w)
  end.

(** The optional fields up to the last one that is not zero. *)
Fixpoint drop_zero_tail {A} (l : list (bool * A)) : list (bool * A) :=
  match l with
  | [] => []
  | (z, v) :: rest =>
      match drop_zero_tail rest with
      | [] => if z then [] else [(z, v)]
      | rest' => (z, v) :: rest'
      end
  end.

Abbreviation writer := (encbuf -> outcome encbuf).

Fixpoint run_writers (ws : list writer) (w : encbuf) : outcome encbuf :=
  match ws with
  | [] => mret w
  | f :: rest => w ← f w; run_writers rest w
  end.

(** [geth:rlp/encode.go] makeSliceWriter *)
Definition makeSliceWriter (tail : bool) (elems : list writer) : writer := fun w =>
  if tail then run_writers elems w
  else
    match elems with
    | [] => mret (Write [to_byte 192] w)
    | _ =>
        let '(listOffset, w) := list_start w in
        w ← run_writers elems w;
        listEnd listOffset w
    end.

(** Without optional fields the zero tail is empty.
    [geth:rlp/encode.go] makeStructWriter *)
Definition makeStructWriter (fields : list writer) (optional : list (bool * writer)) : writer := fun w =>
  let '(lh, w) := list_start w in
  w ← run_writers (fields ++ (drop_zero_tail optional).*2) w;
  listEnd lh w.

(** [geth:rlp/encode.go] makePtrWriter *)
Definition makePtrWriter (nilEncoding : byte) (ev : option writer) : writer := fun w =>
  match ev with
  | Some f => f w
  | None => mret (Write [nilEncoding] w)
  end.

(** [geth:rlp/encode.go] writeInterface *)
Definition writeInterface (ev : option writer) : writer := fun w =>
  match ev with
  | None => mret (Write [to_byte 192] w)
  | Some f => f w
  end.

(** The writer of each type.
    [geth:rlp/encode.go] makeWriter *)
Fixpoint encode (v : rval) : writer :=
  match v with
  | RRaw b => fun w => mret (Write b w)
  | RUint i => fun w => mret (encodeUint i w)
  | RBool b => fun w => mret (writeBool b w)
  | RBigPtr p => writeBigIntPtr p
  | RBig i => writeBigInt i
  | RString s => fun w => mret (writeString s w)
  | RBytes b => fun w => mret (encodeString b w)
  | RByteArray b => fun w => mret (writeByteArray b w)
  | RSlice l => makeSliceWriter false (map encode l)
  | RTail l => makeSliceWriter true (map encode l)
  | RStruct fields optional =>
      makeStructWriter (map encode fields) (map (fun p => (p.1, encode p.2)) optional)
  | RPtr nilEncoding ev =>
      makePtrWriter nilEncoding (match ev with Some v => Some (encode v) | None => None end)
  | RIface ev =>
      writeInterface (match ev with Some v => Some (encode v) | None => None end)
  end.

(** The buffer comes from a pool and is reset before use.
    [geth:rlp/encode.go] EncodeToBytes *)
Definition EncodeToBytes (v : rval) : outcome bytes :=
  eb ← encode v reset;
  toBytes eb.

(** The writes [toWriter] makes on a writer that takes every write whole.
    [geth:rlp/encode.go] encbuf.toWriter *)
Fixpoint toWriter_loop (s : bytes) (strpos : nat) (heads : list listhead) (written : bytes) :
    outcome bytes :=
  match heads with
  | [] => mret (if (strpos <? length s)%nat then written ++ drop strpos s else written)
  | head :: rest =>
      if (strpos <? offset head)%nat then
        if (length s <? offset head)%nat then Panic "slice bounds out of range"
        else
          let piece := take (offset head - strpos) (drop strpos s) in
          toWriter_loop s (strpos + length piece) rest (written ++ piece ++ lh_encode head)
      else toWriter_loop s strpos rest (written ++ lh_encode head)
  end.

(** [geth:rlp/encode.go] Encode *)
Definition Encode (v : rval) : outcome bytes :=
  eb ← encode v reset;
  toWriter_loop (str eb) 0 (lheads eb) [].

(** ** Raw decoding *)

(** [geth:rlp/decode.go] Kind *)
Inductive Kind := KByte | KString | KList.

#[export] Instance Kind_eq_dec : EqDecision Kind.
Proof. solve_decision. Defined.

Definition ErrUnexpectedEOF : error := "unexpected EOF".
Definition ErrCanonSize : error := "rlp: non-canonical size information".
Definition ErrCanonInt : error := "rlp: non-canonical integer format".
Definition ErrExpectedString : error := "rlp: expected String or Byte".
Definition ErrExpectedList : error := "rlp: expected List".
Definition ErrValueTooLarge : error := "rlp: value size exceeds available input length".
Definition errUintOverflow : error := "rlp: uint overflow".

(** The big-endian value of [slen] bytes, as the shifts of the switch compute
    it; a size of zero or above eight leaves the sum at zero. *)
Fixpoint or_bytes (acc : Z) (b : bytes) : Z :=
  match b with
  | [] => acc
  | x :: rest => or_bytes (Z.lor (Z.shiftl acc 8) (byte_val x)) rest
  end.

(** [geth:rlp/raw.go] readSize *)
Definition readSize (b : bytes) (slen : nat) : outcome Z :=
  if (length b <? slen)%nat then Err ErrUnexpectedEOF
  else
    let s := if ((1 <=? slen) && (slen <=? 8))%nat then or_bytes 0 (take slen b) else 0 in
    if s <? 56 then Err ErrCanonSize
    else
      b0 ← index b 0;
      if byte_val b0 =? 0 then Err ErrCanonSize else mret s.

(** The switch on the first byte: kind, tag size and content size.
    [geth:rlp/raw.go:124-150] readKind *)
Definition read_tag (b0 : byte) (tl : bytes) : outcome (Kind * Z * Z) :=
  let b := byte_val b0 in
  if b <? 128 then mret (KByte, 0, 1)
  else if b <? 184 then
    let contentsize := b - 128 in
    let single := match tl with b1 :: _ => byte_val b1 <? 128 | [] => false end in
    if (contentsize =? 1) && single then Err ErrCanonSize
    else mret (KString, 1, contentsize)
  else if b <? 192 then
    contentsize ← readSize tl (Z.to_nat (b - 183));
    mret (KString, b - 183 + 1, contentsize)
  else if b <? 248 then mret (KList, 1, b - 192)
  else
    contentsize ← readSize tl (Z.to_nat (b - 247));
    mret (KList, b - 247 + 1, contentsize).

(** [geth:rlp/raw.go] readKind *)
Definition readKind (buf : bytes) : outcome (Kind * Z * Z) :=
  match buf with
  | [] => Err ErrUnexpectedEOF
  | b0 :: tl =>
      '(k, tagsize, contentsize) ← read_tag b0 tl;
      if Z.of_nat (length buf) -u tagsize <? contentsize then Err ErrValueTooLarge
      else mret (k, tagsize, contentsize)
  end.

(** [geth:rlp/raw.go] Split *)
Definition Split (b : bytes) : outcome (Kind * bytes * bytes) :=
  '(k, ts, cs) ← readKind b;
  let ts := Z.to_nat ts in
  let cs := Z.to_nat cs in
  mret (k, take cs (drop ts b), drop (ts + cs) b).

(** [geth:rlp/raw.go] SplitString *)
Definition SplitString (b : bytes) : outcome (bytes * bytes) :=
  '(k, content, rest) ← Split b;
  if bool_decide (k = KList) then Err ErrExpectedString else mret (content, rest).

(** [geth:rlp/raw.go] SplitUint64 *)
Definition SplitUint64 (b : bytes) : outcome (Z * bytes) :=
  '(content, rest) ← SplitString b;
  match content with
  | [] => mret (0, rest)
  | [x] => if byte_val x =? 0 then Err ErrCanonInt else mret (byte_val x, rest)
  | _ =>
      if (8 <? length content)%nat then Err errUintOverflow
      else
        match readSize content (length content) with
        | Ok x => mret (x, rest)
        | Err _ => Err ErrCanonInt
        | Panic p => Panic p
        end
  end.

(** [geth:rlp/raw.go] SplitList *)
Definition SplitList (b : bytes) : outcome (bytes * bytes) :=
  '(k, content, rest) ← Split b;
  if bool_decide (k = KList) then mret (content, rest) else Err ErrExpectedList.

Fixpoint CountValues_loop (fuel : nat) (b : bytes) (i : Z) : outcome Z :=
  match b, fuel with
  | [], _ => mret i
  | _, O => Panic "out of fuel"
  | _, S f =>
      '(_, tagsize, size) ← readKind b;
      CountValues_loop f (drop (Z.to_nat (tagsize + size)) b) (i + 1)
  end.

(** Every value takes at least one byte, so the length of the input bounds the
    number of passes.
    [geth:rlp/raw.go] CountValues *)
Definition CountValues (b : bytes) : outcome Z := CountValues_loop (length b) b 0.
