(* ===== verification/RlpSpec.v ===== *)
(** * RLP: the reference encoding and the correctness of encoder and decoder

    The recursive definition of the format, the proof that the two-buffer
    encoder of rlp/encode.go produces it, and the round trips of the raw decoder
    of rlp/raw.go, which accepts canonical encodings only. *)

From S2P Require Import Prelude BigEndian Rlp.

(** ** The integer routines *)

Lemma shr_byte_div i k : 0 <= k -> shr_byte (i / 256) k = shr_byte i (8 + k).
Proof.
  intros Hk. unfold shr_byte. f_equal. rewrite <- Z.shiftr_shiftr by done. f_equal.
  by rewrite Z.shiftr_div_pow2.
Qed.

Lemma putint_step i : 256 <= i < two64 -> putint i = putint (i / 256) ++ [to_byte i].
Proof.
  intros Hi. unfold putint.
  assert (forall k, 0 <= k -> (i / 256 <? Z.shiftl 1 k) = (i <? Z.shiftl 1 (8 + k))) as Hlt.
  { intros k Hk. apply eq_true_iff_eq. rewrite !Z.ltb_lt, !Z.shiftl_1_l, Z.pow_add_r by lia.
    change (2 ^ 8) with 256. split; intros H.
    - pose proof (Z.div_mod i 256). pose proof (Z.mod_pos_bound i 256). lia.
    - apply div_256_lt. lia. }
  change (to_byte (i / 256)) with (shr_byte (i / 256) 0).
  rewrite !Hlt by lia. rewrite !shr_byte_div by lia.
  repeat match goal with |- context [8 + ?k] => let z := eval compute in (8 + k) in change (8 + k) with z end.
  destruct (Z.ltb_spec i (Z.shiftl 1 8)); [change (Z.shiftl 1 8) with 256 in *; lia|].
  destruct (Z.ltb_spec i (Z.shiftl 1 16)); [reflexivity|].
  destruct (Z.ltb_spec i (Z.shiftl 1 24)); [reflexivity|].
  destruct (Z.ltb_spec i (Z.shiftl 1 32)); [reflexivity|].
  destruct (Z.ltb_spec i (Z.shiftl 1 40)); [reflexivity|].
  destruct (Z.ltb_spec i (Z.shiftl 1 48)); [reflexivity|].
  destruct (Z.ltb_spec i (Z.shiftl 1 56)); [reflexivity|].
  destruct (Z.ltb_spec i (Z.shiftl 1 64)); [reflexivity|]. change (Z.shiftl 1 64) with two64 in *. lia.
Qed.

Lemma putint_be i : 0 < i < two64 -> putint i = be_bytes i.
Proof.
  intros [Hi Hlt]. assert (0 <= i) as H0 by lia. revert Hi Hlt.
  revert i H0. apply (Z_digit_ind (fun i => 0 < i -> i < two64 -> putint i = be_bytes i));
    [lia|]. intros i Hi IH _ Hlt. rewrite be_bytes_step by done.
  destruct (Z.ltb_spec i 256) as [Hs|Hs].
  - rewrite Z.div_small, be_bytes_0 by lia. unfold putint. change (Z.shiftl 1 8) with 256.
    by destruct (Z.ltb_spec i 256); [|lia].
  - rewrite putint_step, IH; [done|apply Z.div_str_pos; lia| |lia].
    pose proof (Z.div_lt i 256). lia.
Qed.

Lemma intsize_loop_be f size i :
  0 < i < 256 ^ Z.of_nat f -> intsize_loop f size i = size - 1 + Z.of_nat (length (be_bytes i)).
Proof.
  revert size i. induction f as [|f IH]; intros size i Hi; [cbn in Hi; lia|]. cbn [intsize_loop].
  rewrite Nat2Z.inj_succ, Z.pow_succ_r in Hi by lia.
  rewrite Z.shiftr_div_pow2 by lia. change (2 ^ 8) with 256.
  rewrite be_bytes_step, length_app by lia. cbn [length].
  destruct (Z.eqb_spec (i / 256) 0) as [E|E]; [rewrite E, be_bytes_0; cbn; lia|].
  rewrite IH; [lia|]. pose proof (Z.div_pos i 256). pose proof (div_256_lt i (256 ^ Z.of_nat f)). lia.
Qed.

Lemma intsize_be i : 0 < i < two64 -> intsize i = Z.of_nat (length (be_bytes i)).
Proof. intros Hi. unfold intsize. rewrite intsize_loop_be; [lia|exact Hi]. Qed.

(** ** The reference encoding *)

Definition hdr (small large : Z) (n : nat) : bytes :=
  let n := Z.of_nat n in
  if n <? 56 then [to_byte (small + n)]
  else to_byte (large + Z.of_nat (length (be_bytes n))) :: be_bytes n.

Definition rlp_str (b : bytes) : bytes :=
  match b with
  | [x] => if byte_val x <? 128 then [x] else hdr 128 183 1 ++ b
  | _ => hdr 128 183 (length b) ++ b
  end.

Definition rlp_list (payload : bytes) : bytes := hdr 192 247 (length payload) ++ payload.

(** RLP items, the values of the format itself. *)
Inductive item :=
| Str (b : bytes)
| Lst (l : list item).

Fixpoint rlp (x : item) : bytes :=
  match x with
  | Str b => rlp_str b
  | Lst l => rlp_list (concat (map rlp l))
  end.

Definition rlp_big (i : Z) : outcome bytes :=
  if i <? 0 then Err "rlp: cannot encode negative *big.Int" else mret (rlp_str (be_bytes i)).

(** The encodings of a list of values, one after the other. *)
Fixpoint seq_outcome (l : list (outcome bytes)) : outcome bytes :=
  match l with
  | [] => mret []
  | m :: rest => b ← m; c ← seq_outcome rest; mret (b ++ c)
  end.

(** The encoding of a Go value by recursion on it. *)
Fixpoint rlp_val (v : rval) : outcome bytes :=
  match v with
  | RRaw b => mret b
  | RUint i => mret (rlp_str (be_bytes i))
  | RBool b => mret (rlp_str (if b then [Byte.x01] else []))
  | RBigPtr None => mret (rlp_str [])
  | RBigPtr (Some i) | RBig i => rlp_big i
  | RString b | RBytes b | RByteArray b => mret (rlp_str b)
  | RSlice l => p ← seq_outcome (map rlp_val l); mret (rlp_list p)
  | RTail l => seq_outcome (map rlp_val l)
  | RStruct fields optional =>
      p ← seq_outcome (map rlp_val fields ++
                       (drop_zero_tail (map (fun p => (p.1, rlp_val p.2)) optional)).*2);
      mret (rlp_list p)
  | RPtr nilEncoding None => mret [nilEncoding]
  | RIface None => mret (rlp_list [])
  | RPtr _ (Some v) | RIface (Some v) => rlp_val v
  end.

(** Machine integers are in range. *)
Fixpoint uints_ok (v : rval) : Prop :=
  match v with
  | RUint i => is_u64 i
  | RSlice l | RTail l => fold_right (fun x P => uints_ok x /\ P) True l
  | RStruct fields optional =>
      fold_right (fun x P => uints_ok x /\ P) True fields /\
      fold_right (fun x P => uints_ok x.2 /\ P) True optional
  | RPtr _ (Some v) | RIface (Some v) => uints_ok v
  | _ => True
  end.

(** ** What a piece of the encoder has written *)

(** Interleaving string data, which starts at position [base], with the list
    headers. *)
Fixpoint flat (base : nat) (s : bytes) (hs : list listhead) : bytes :=
  match hs with
  | [] => s
  | h :: rest =>
      take (offset h - base) s ++ lh_encode h ++ flat (offset h) (drop (offset h - base) s) rest
  end.

Fixpoint heads_ok (base : nat) (s : bytes) (hs : list listhead) : Prop :=
  match hs with
  | [] => True
  | h :: rest =>
      (base <= offset h <= base + length s)%nat /\
      heads_ok (offset h) (drop (offset h - base) s) rest
  end.

Definition heads_len (hs : list listhead) : nat :=
  fold_right (fun h n => (length (lh_encode h) + n)%nat) 0%nat hs.

Lemma length_flat hs base s :
  heads_ok base s hs -> length (flat base s hs) = (length s + heads_len hs)%nat.
Proof.
  revert base s. induction hs as [|h hs IH]; intros base s Hok; [cbn; lia|].
  cbn [flat heads_ok] in *. change (heads_len (h :: hs)) with (length (lh_encode h) + heads_len hs)%nat.
  destruct Hok as [Hb Hok]. rewrite !length_app, (IH _ _ Hok), length_take, length_drop. lia.
Qed.

Lemma flat_cons_data base s1 s2 hs :
  heads_ok (base + length s1) s2 hs ->
  flat base (s1 ++ s2) hs = s1 ++ flat (base + length s1) s2 hs /\ heads_ok base (s1 ++ s2) hs.
Proof.
  destruct hs as [|h hs]; cbn; [done|]. intros [Hb Hok].
  rewrite take_app, drop_app, take_ge, (drop_ge s1) by lia. cbn.
  replace (offset h - base - length s1)%nat with (offset h - (base + length s1))%nat by lia.
  rewrite <- app_assoc. rewrite length_app. split; [done|]. split; [lia|done].
Qed.

Lemma flat_app base s1 s2 h1 h2 :
  heads_ok base s1 h1 -> heads_ok (base + length s1) s2 h2 ->
  flat base (s1 ++ s2) (h1 ++ h2) = flat base s1 h1 ++ flat (base + length s1) s2 h2 /\
  heads_ok base (s1 ++ s2) (h1 ++ h2).
Proof.
  revert base s1. induction h1 as [|h h1 IH]; intros base s1 H1 H2; [by apply flat_cons_data|].
  cbn [app flat heads_ok] in *. destruct H1 as [Hb H1].
  rewrite take_app_le, drop_app_le by lia.
  destruct (IH (offset h) (drop (offset h - base) s1) H1) as [-> Hok].
  { rewrite length_drop. by replace (offset h + (length s1 - (offset h - base)))%nat
      with (base + length s1)%nat by lia. }
  rewrite length_drop, length_app.
  replace (offset h + (length s1 - (offset h - base)))%nat with (base + length s1)%nat by lia.
  rewrite <- !app_assoc. split; [done|]. split; [lia|done].
Qed.

Lemma heads_len_cons h hs : heads_len (h :: hs) = (length (lh_encode h) + heads_len hs)%nat.
Proof. done. Qed.

Lemma heads_len_app h1 h2 : heads_len (h1 ++ h2) = (heads_len h1 + heads_len h2)%nat.
Proof.
  induction h1 as [|h h1 IH]; [done|].
  cbn [app]. rewrite !heads_len_cons. lia.
Qed.

(** From [w] to [w'] the encoder appended something that reads [b]. *)
Definition wrote (w w' : encbuf) (b : bytes) : Prop :=
  exists s hs,
    str w' = str w ++ s /\ lheads w' = lheads w ++ hs /\
    lhsize w' = lhsize w + Z.of_nat (heads_len hs) /\
    heads_ok (length (str w)) s hs /\ flat (length (str w)) s hs = b.

Lemma wrote_nil w : wrote w w [].
Proof. exists [], []. cbn. rewrite !app_nil_r. split_and!; (done || lia). Qed.

Lemma wrote_Write b w : wrote w (Write b w) b.
Proof. exists b, []. cbn. rewrite !app_nil_r. split_and!; (done || lia). Qed.

Lemma wrote_trans w1 w2 w3 b c : wrote w1 w2 b -> wrote w2 w3 c -> wrote w1 w3 (b ++ c).
Proof.
  intros (s & hs & E1 & E2 & E3 & Hok & Hf) (s' & hs' & E1' & E2' & E3' & Hok' & Hf').
  rewrite E1, length_app in Hok', Hf'.
  destruct (flat_app (length (str w1)) s s' hs hs' Hok Hok') as [Hfl Hok2].
  exists (s ++ s'), (hs ++ hs'). rewrite E1', E1, E2', E2, E3', E3, heads_len_app, <- !app_assoc.
  split_and!; (done || lia || congruence).
Qed.

Lemma wrote_heads w w' b : wrote w w' b -> (length (lheads w) <= length (lheads w'))%nat.
Proof. intros (s & hs & _ & -> & _). rewrite length_app. lia. Qed.

(** *** Strings and integers *)

Lemma putint_hdr tag n : 56 <= n < two64 ->
  to_byte (tag + Z.of_nat (length (putint n))) :: putint n =
  to_byte (tag + Z.of_nat (length (be_bytes n))) :: be_bytes n.
Proof. intros Hn. by rewrite putint_be by lia. Qed.

Lemma encodeStringHeader_wrote n w :
  Z.of_nat n < two64 -> wrote w (encodeStringHeader (Z.of_nat n) w) (hdr 128 183 n).
Proof.
  intros Hn. unfold encodeStringHeader, hdr. cbv zeta.
  destruct (Z.ltb_spec (Z.of_nat n) 56); [apply wrote_Write|].
  rewrite putint_hdr by lia. apply wrote_Write.
Qed.

Lemma encodeString_wrote b w :
  Z.of_nat (length b) < two64 -> wrote w (encodeString b w) (rlp_str b).
Proof.
  intros Hb. unfold encodeString, rlp_str.
  assert (wrote w (Write b (encodeStringHeader (Z.of_nat (length b)) w)) (hdr 128 183 (length b) ++ b))
    as Hgen by (eapply wrote_trans; [by apply encodeStringHeader_wrote|apply wrote_Write]).
  destruct b as [|x [|y b]]; [exact Hgen| |exact Hgen].
  destruct (Z.leb_spec (byte_val x) 127), (Z.ltb_spec (byte_val x) 128); try lia;
    [apply wrote_Write|exact Hgen].
Qed.

Lemma be_bytes_small i : 0 < i < 256 -> be_bytes i = [to_byte i].
Proof. intros Hi. by rewrite be_bytes_step, Z.div_small, be_bytes_0 by lia. Qed.

(** The encoding of an integer, spelled out. *)
Lemma rlp_uint i :
  is_u64 i ->
  rlp_str (be_bytes i) =
    if i =? 0 then [to_byte 128]
    else if i <? 128 then [to_byte i]
    else to_byte (128 + Z.of_nat (length (putint i))) :: putint i.
Proof.
  intros Hi. unfold is_u64 in Hi. destruct (Z.eqb_spec i 0) as [->|]; [done|].
  destruct (Z.ltb_spec i 128).
  { rewrite be_bytes_small by lia. unfold rlp_str. rewrite byte_val_to_byte_small by lia.
    by destruct (Z.ltb_spec i 128); [|lia]. }
  rewrite putint_be by lia. unfold rlp_str.
  assert (Z.of_nat (length (be_bytes i)) < 56) as Hl
    by (pose proof (length_be_bytes_le 8 i Hi); lia).
  assert (hdr 128 183 (length (be_bytes i)) = [to_byte (128 + Z.of_nat (length (be_bytes i)))]) as Hh.
  { unfold hdr. cbv zeta. by destruct (Z.ltb_spec (Z.of_nat (length (be_bytes i))) 56); [|lia]. }
  destruct (be_bytes i) as [|x [|y b]] eqn:E.
  - rewrite <- E in *. by destruct (be_bytes_nonempty i ltac:(lia)).
  - destruct (Z.ltb_spec (byte_val x) 128) as [Hx|]; [|done].
    exfalso. apply (f_equal be_val) in E. rewrite be_val_be_bytes in E by lia. cbn in E. lia.
  - by rewrite Hh.
Qed.

Lemma encodeUint_wrote i w : is_u64 i -> wrote w (encodeUint i w) (rlp_str (be_bytes i)).
Proof.
  intros Hi. rewrite rlp_uint by done. unfold encodeUint. repeat case_match; apply wrote_Write.
Qed.

(** *** Integers above 64 bits *)

(** The [k] low bytes of a number, most significant first. *)
Fixpoint be_fix (k : nat) (n : Z) : bytes :=
  match k with
  | O => []
  | S k' => be_fix k' (n / 256) ++ [to_byte n]
  end.

Lemma be_fix_add a b n : be_fix (a + b) n = be_fix a (n / 256 ^ Z.of_nat b) ++ be_fix b n.
Proof.
  revert n. induction b as [|b IH]; intros n.
  - rewrite Nat.add_0_r, app_nil_r. cbn. by rewrite Z.div_1_r.
  - rewrite Nat.add_succ_r. cbn [be_fix]. rewrite IH, <- app_assoc.
    rewrite Nat2Z.inj_succ, Z.pow_succ_r, Z.div_div by lia. done.
Qed.

Lemma to_byte_mod n m : 0 < m -> to_byte (n mod (256 * m)) = to_byte n.
Proof.
  intros Hm. apply byte_val_inj. rewrite !byte_val_to_byte. symmetry.
  apply Znumtheory.Zmod_div_mod; [lia..|]. apply Z.divide_factor_l.
Qed.

Lemma be_fix_mod k m n : (k <= m)%nat -> be_fix k (n mod 256 ^ Z.of_nat m) = be_fix k n.
Proof.
  revert m n. induction k as [|k IH]; intros m n Hk; [done|]. destruct m as [|m]; [lia|].
  cbn [be_fix]. rewrite Nat2Z.inj_succ, Z.pow_succ_r by lia. rewrite to_byte_mod by lia. f_equal.
  rewrite <- (IH m (n / 256)) by lia. f_equal.
  rewrite Z.rem_mul_r by lia. rewrite Z.mul_comm, Z.div_add by lia.
  rewrite Z.div_small by (apply Z.mod_pos_bound; lia). done.
Qed.

Lemma be_fix_0 k : be_fix k 0 = replicate k Byte.x00.
Proof.
  induction k as [|k IH]; [done|]. cbn [be_fix]. rewrite Z.div_0_l, IH by lia.
  change (to_byte 0) with Byte.x00. by rewrite <- replicate_S_end.
Qed.

Lemma be_fix_be_bytes n : 0 <= n -> be_fix (length (be_bytes n)) n = be_bytes n.
Proof.
  revert n. apply Z_digit_ind; [done|]. intros n Hn IH. rewrite be_bytes_step by done.
  rewrite length_app, Nat.add_1_r. cbn [be_fix]. by rewrite IH.
Qed.

Lemma fill_word_spec j d index acc :
  fill_word j d index acc = ((index - Nat.min j index)%nat, be_fix (Nat.min j index) d ++ acc).
Proof.
  revert d index acc. induction j as [|j IH]; intros d index acc.
  - cbn. by rewrite Nat.sub_0_r.
  - destruct index as [|index]; [done|]. cbn [fill_word Nat.min be_fix Nat.sub].
    rewrite IH, Z.shiftr_div_pow2 by lia. by rewrite <- app_assoc.
Qed.

Lemma fill_words_spec f i index acc :
  0 <= i < two64 ^ Z.of_nat f ->
  let '(ix, a) := fill_words (big_Bits_loop f i) index acc in
  replicate ix Byte.x00 ++ a = be_fix index i ++ acc.
Proof.
  revert i index acc. induction f as [|f IH]; intros i index acc Hi.
  { cbn in *. assert (i = 0) as -> by lia. by rewrite be_fix_0. }
  cbn [big_Bits_loop]. destruct (Z.eqb_spec i 0) as [->|]; [cbn; by rewrite be_fix_0|].
  cbn [fill_words]. rewrite fill_word_spec.
  rewrite Nat2Z.inj_succ, Z.pow_succ_r in Hi by lia.
  specialize (IH (i / two64) (index - Nat.min 8 index)%nat (be_fix (Nat.min 8 index) (i mod two64) ++ acc)).
  destruct (fill_words _ _ _) as [ix a]. rewrite IH.
  2:{ split; [apply Z.div_pos; unfold two64; lia|apply Z.div_lt_upper_bound; unfold two64 in *; lia]. }
  rewrite app_assoc. f_equal. change two64 with (256 ^ Z.of_nat 8). rewrite be_fix_mod by lia.
  destruct (Nat.le_ge_cases index 8).
  - rewrite Nat.min_r, Nat.sub_diag by lia. done.
  - rewrite Nat.min_l by lia. rewrite <- be_fix_add. f_equal. lia.
Qed.

Lemma big_BitLen_step n : 256 <= n -> big_BitLen n = big_BitLen (n / 256) + 8.
Proof.
  intros Hn. assert (0 < n / 256) by (apply Z.div_str_pos; lia). unfold big_BitLen.
  destruct (Z.eqb_spec n 0), (Z.eqb_spec (n / 256) 0); try lia.
  change 256 with (2 ^ 8). rewrite <- Z.shiftr_div_pow2, Z.log2_shiftr by lia.
  pose proof (Z.log2_le_mono 256 n Hn) as Hl. change (Z.log2 256) with 8 in Hl. lia.
Qed.

Lemma length_be_bytes n : 0 <= n -> Z.of_nat (length (be_bytes n)) = (big_BitLen n + 7) / 8.
Proof.
  revert n. apply Z_digit_ind; [done|]. intros n Hn IH.
  rewrite be_bytes_step, length_app, Nat2Z.inj_add by done. cbn [length].
  destruct (Z.leb_spec 256 n).
  - rewrite IH, (big_BitLen_step n) by done.
    replace (big_BitLen (n / 256) + 8 + 7) with (big_BitLen (n / 256) + 7 + 1 * 8) by lia.
    rewrite Z.div_add by lia. done.
  - rewrite Z.div_small, be_bytes_0 by lia. unfold big_BitLen.
    destruct (Z.eqb_spec n 0); [lia|]. pose proof (Z.log2_nonneg n).
    assert (Z.log2 n < 8) by (apply Z.log2_lt_pow2; lia).
    apply Z.div_unique with (Z.log2 n + 1 + 7 - 8); cbn; lia.
Qed.

Lemma round_up_8 z : Z.shiftr (Z.land z (-8)) 3 = z / 8.
Proof.
  rewrite Z.shiftr_land. change (Z.shiftr (-8) 3) with (-1). rewrite Z.land_m1_r.
  by rewrite Z.shiftr_div_pow2 by lia.
Qed.

Lemma bitlen_64 i : 0 <= i -> big_BitLen i <= 64 <-> i < two64.
Proof.
  intros Hi. unfold big_BitLen. destruct (Z.eqb_spec i 0) as [->|]; [split; [done|lia]|].
  change two64 with (2 ^ 64). rewrite (Z.log2_lt_pow2 i 64) by lia. lia.
Qed.

Lemma big_Bits_fill i index acc :
  0 <= i ->
  let '(ix, a) := fill_words (big_Bits i) index acc in
  replicate ix Byte.x00 ++ a = be_fix index i ++ acc.
Proof.
  intros Hi. apply fill_words_spec. split; [done|].
  pose proof (bitlen_bound i Hi) as [H1 H2]. rewrite Z2Nat.id by done.
  eapply Z.lt_le_trans; [exact H1|]. apply Z.pow_le_mono_l. unfold two64. lia.
Qed.

Lemma writeBigInt_wrote i w :
  match rlp_big i with
  | Ok b => exists w', writeBigInt i w = Ok w' /\ (Z.of_nat (length b) < two64 -> wrote w w' b)
                       /\ (length (lheads w) <= length (lheads w'))%nat
  | Err e => writeBigInt i w = Err e
  | Panic _ => False
  end.
Proof.
  unfold rlp_big, writeBigInt. destruct (Z.ltb_spec i 0) as [|Hi]; [done|]. cbn.
  destruct (Z.leb_spec (big_BitLen i) 64) as [Hb|Hb].
  - apply bitlen_64 in Hb; [|done]. rewrite big_Uint64_id by (unfold is_u64; lia).
    assert (wrote w (encodeUint i w) (rlp_str (be_bytes i)))
      by (apply encodeUint_wrote; unfold is_u64; lia).
    eexists. split; [done|]. split; [done|]. by eapply wrote_heads.
  - rewrite round_up_8, <- length_be_bytes, Nat2Z.id by done.
    pose proof (big_Bits_fill i (length (be_bytes i)) [] Hi) as Hf.
    destruct (fill_words _ _ _) as [ix a]. rewrite Hf, app_nil_r, be_fix_be_bytes by done.
    eexists. split; [done|]. split.
    + intros Hlen.
      assert (rlp_str (be_bytes i) = hdr 128 183 (length (be_bytes i)) ++ be_bytes i) as E.
      { unfold rlp_str. destruct (be_bytes i) as [|x [|y b]] eqn:Eb; [done| |done].
        apply (f_equal (Z.of_nat ∘ length)) in Eb. cbn in Eb. rewrite length_be_bytes in Eb by done.
        assert (9 <= (big_BitLen i + 7) / 8) by (apply Z.div_le_lower_bound; lia). lia. }
      rewrite E in *. rewrite length_app in Hlen.
      eapply wrote_trans; [apply encodeStringHeader_wrote; lia|apply wrote_Write].
    + unfold encodeStringHeader. by case_match.
Qed.

(** *** Lists *)

Lemma puthead_hdr (p : bytes) : Z.of_nat (length p) < two64 ->
  puthead 192 247 (Z.of_nat (length p)) = hdr 192 247 (length p).
Proof.
  intros Hp. unfold puthead, hdr. cbv zeta.
  destruct (Z.ltb_spec (Z.of_nat (length p)) 56); [done|]. by apply putint_hdr.
Qed.

Lemma length_hdr small large n : Z.of_nat n < two64 ->
  Z.of_nat (length (hdr small large n)) = headsize (Z.of_nat n).
Proof.
  intros Hn. unfold hdr, headsize. cbv zeta. destruct (Z.ltb_spec (Z.of_nat n) 56); [done|].
  cbn [length]. rewrite intsize_be by lia. lia.
Qed.

Lemma list_wrote w w2 p :
  wrote (list_start w).2 w2 p ->
  exists w3, listEnd (list_start w).1 w2 = Ok w3 /\
    (Z.of_nat (length p) < two64 -> wrote w w3 (rlp_list p)) /\
    (length (lheads w) <= length (lheads w3))%nat.
Proof.
  intros (s & hs & E1 & E2 & E3 & Hok & Hf). cbn in *. pose proof (length_flat _ _ _ Hok) as Hlen.
  unfold listEnd. rewrite E2. rewrite <- app_assoc. cbn [app].
  assert (index (lheads w ++ {| offset := length (str w); lh_size := lhsize w |} :: hs)
            (length (lheads w)) = Ok {| offset := length (str w); lh_size := lhsize w |}) as ->.
  { apply index_Ok. by rewrite lookup_app_r, Nat.sub_diag by lia. }
  cbn [mbind outcome_bind offset lh_size]. eexists. split; [done|].
  assert (size_of w2 - Z.of_nat (length (str w)) - lhsize w = Z.of_nat (length p)) as ->.
  { unfold size_of. rewrite E1, E3, length_app, <- Hf, Hlen. lia. }
  split; [|cbn; rewrite insert_app_r_alt, length_app by lia; lia].
  intros Hp. exists s, ({| offset := length (str w); lh_size := Z.of_nat (length p) |} :: hs).
  cbn [str lheads lhsize flat heads_ok offset]. rewrite Nat.sub_diag, take_0, drop_0.
  unfold lh_encode at 1. cbn [lh_size]. rewrite puthead_hdr by done.
  rewrite heads_len_cons.
  unfold lh_encode at 1. cbn [lh_size]. rewrite puthead_hdr by done.
  rewrite insert_app_r_alt, Nat.sub_diag by lia.
  split_and!; [done|done| |lia|lia|done|by rewrite Hf].
  rewrite E3, Nat2Z.inj_add, length_hdr by done. unfold headsize.
  destruct (Z.of_nat (length p) <? 56); lia.
Qed.

(** *** Whole values *)

Section RvalInd.
Context (P : rval -> Prop).
Context (HRaw : forall b, P (RRaw b)) (HUint : forall i, P (RUint i)) (HBool : forall b, P (RBool b)).
Context (HBigPtr : forall i, P (RBigPtr i)) (HBig : forall i, P (RBig i)).
Context (HString : forall b, P (RString b)) (HBytes : forall b, P (RBytes b)).
Context (HByteArray : forall b, P (RByteArray b)).
Context (HSlice : forall l, Forall P l -> P (RSlice l)) (HTail : forall l, Forall P l -> P (RTail l)).
Context (HStruct : forall l o, Forall P l -> Forall (fun x => P x.2) o -> P (RStruct l o)).
Context (HPtr : forall b o, match o with Some v => P v | None => True end -> P (RPtr b o)).
Context (HIface : forall o, match o with Some v => P v | None => True end -> P (RIface o)).

Fixpoint rval_nested_ind (v : rval) : P v :=
  let all := fix all (l : list rval) : Forall P l :=
    match l with
    | [] => List.Forall_nil P
    | x :: rest => List.Forall_cons P x rest (rval_nested_ind x) (all rest)
    end in
  let all2 := fix all2 (l : list (bool * rval)) : Forall (fun x => P x.2) l :=
    match l with
    | [] => List.Forall_nil _
    | (z, x) :: rest => List.Forall_cons (fun x => P x.2) (z, x) rest (rval_nested_ind x) (all2 rest)
    end in
  match v with
  | RRaw b => HRaw b
  | RUint i => HUint i
  | RBool b => HBool b
  | RBigPtr i => HBigPtr i
  | RBig i => HBig i
  | RString b => HString b
  | RBytes b => HBytes b
  | RByteArray b => HByteArray b
  | RSlice l => HSlice l (all l)
  | RTail l => HTail l (all l)
  | RStruct l o => HStruct l o (all l) (all2 o)
  | RPtr b o => HPtr b o (match o with Some v => rval_nested_ind v | None => I end)
  | RIface o => HIface o (match o with Some v => rval_nested_ind v | None => I end)
  end.
End RvalInd.

(** A writer does what the reference says: the same error, or an encoding that
    reads as the reference bytes. *)
Definition agrees (f : writer) (m : outcome bytes) : Prop :=
  forall w,
    match m with
    | Ok b => exists w', f w = Ok w' /\ (Z.of_nat (length b) < two64 -> wrote w w' b) /\
                         (length (lheads w) <= length (lheads w'))%nat
    | Err e => f w = Err e
    | Panic _ => False
    end.

Lemma agrees_total (g : encbuf -> encbuf) b :
  (forall w, Z.of_nat (length b) < two64 -> wrote w (g w) b) ->
  (forall w, lheads (g w) = lheads w) ->
  agrees (fun w => mret (g w)) (mret b).
Proof. intros H H'. intros w. eexists. split; [done|]. rewrite H'. auto. Qed.

Lemma agrees_run fs ms : Forall2 agrees fs ms -> agrees (run_writers fs) (seq_outcome ms).
Proof.
  induction 1 as [|f m fs ms Hf _ IH]; intros w; cbn.
  { eexists. split; [done|]. split; [intros _; apply wrote_nil|done]. }
  specialize (Hf w). destruct m as [b|e|]; cbn; [|by rewrite Hf|done].
  destruct Hf as (w1 & -> & Hw1 & Hl1). cbn. specialize (IH w1).
  destruct (seq_outcome ms) as [c|e|]; cbn; [|done|done].
  destruct IH as (w2 & -> & Hw2 & Hl2). eexists. split; [done|]. rewrite length_app. split; [|lia].
  intros Hlt. eapply wrote_trans; [apply Hw1; lia|apply Hw2; lia].
Qed.

Lemma agrees_list f m :
  agrees f m ->
  agrees (fun w => let '(i, w) := list_start w in w ← f w; listEnd i w) (p ← m; mret (rlp_list p)).
Proof.
  intros Hf w. specialize (Hf (list_start w).2). destruct (list_start w) as [i w1] eqn:Es.
  cbn [snd] in Hf. destruct m as [p|e|]; cbn [mbind outcome_bind mret outcome_ret]; [|by rewrite Hf|done].
  destruct Hf as (w2 & -> & Hw2 & Hl2). cbn [mbind outcome_bind].
  destruct (Z.ltb_spec (Z.of_nat (length p)) two64) as [Hlt|Hge].
  - specialize (Hw2 Hlt). replace w1 with (list_start w).2 in Hw2 by (by rewrite Es).
    destruct (list_wrote w w2 p Hw2) as (w3 & E3 & Hw3 & Hl3). rewrite Es in E3. eauto 6.
  - injection Es as <- <-. cbn in Hl2. rewrite length_app in Hl2. cbn in Hl2.
    unfold listEnd. destruct (lookup_lt_is_Some_2 (lheads w2) (length (lheads w))) as [h Hh]; [lia|].
    unfold index. rewrite Hh. cbn. eexists. split; [done|]. cbn. rewrite length_insert. split; [|lia].
    unfold rlp_list. rewrite length_app. lia.
Qed.

Lemma drop_zero_tail_map {A B} (f : A -> B) l :
  drop_zero_tail (map (fun p => (p.1, f p.2)) l) =
  map (fun p => (p.1, f p.2)) (drop_zero_tail l).
Proof.
  induction l as [|[z x] l IH]; [done|]. cbn. rewrite IH.
  destruct (drop_zero_tail l); [by destruct z|done].
Qed.

Lemma drop_zero_tail_Forall {A} (P : bool * A -> Prop) l :
  Forall P l -> Forall P (drop_zero_tail l).
Proof.
  induction 1 as [|[z x] l Hx _ IH]; cbn; [done|].
  destruct (drop_zero_tail l); [destruct z; [done|]|]; by constructor.
Qed.

Lemma Forall2_map_agrees l :
  Forall (fun v => uints_ok v -> agrees (encode v) (rlp_val v)) l ->
  fold_right (fun x P => uints_ok x /\ P) True l ->
  Forall2 agrees (map encode l) (map rlp_val l).
Proof. induction 1 as [|v l Hv _ IH]; cbn; [constructor|]. intros [Hu Hl]. constructor; auto. Qed.

Lemma byte_array_string b w : writeByteArray b w = encodeString b w.
Proof.
  destruct b as [|x [|y b]]; [by unfold encodeString, Write; cbn; rewrite !app_nil_r| |done].
  cbn. case_match; [done|]. unfold Write. cbn. by rewrite <- app_assoc.
Qed.

Lemma agrees_string b : agrees (fun w => mret (encodeString b w)) (mret (rlp_str b)).
Proof.
  apply agrees_total.
  - intros w Hlt. apply encodeString_wrote. revert Hlt. unfold rlp_str.
    destruct b as [|x [|y b]]; repeat case_match; rewrite ?length_app; cbn; lia.
  - intros w. unfold encodeString, encodeStringHeader. by repeat case_match.
Qed.

Lemma encode_agrees v : uints_ok v -> agrees (encode v) (rlp_val v).
Proof.
  induction v as [b|i|b|[i|]|i|b|b|b|l IH|l IH|l o IHl IHo|b [v|] IH|[v|] IH] using rval_nested_ind;
    intros Hu; cbn [encode rlp_val].
  - apply agrees_total; [intros; apply wrote_Write|done].
  - apply agrees_total; [intros; by apply encodeUint_wrote|].
    intros w. unfold encodeUint. by repeat case_match.
  - apply agrees_total; [|by destruct b]. intros w _. destruct b; apply wrote_Write.
  - intros w. apply writeBigInt_wrote.
  - apply (agrees_total (Write [to_byte 128])); [intros; apply wrote_Write|done].
  - intros w. apply writeBigInt_wrote.
  - apply agrees_string.
  - apply agrees_string.
  - intros w. rewrite byte_array_string. apply agrees_string.
  - destruct l as [|x l]; [apply (agrees_total (Write [to_byte 192])); [intros; apply wrote_Write|done]|].
    by apply agrees_list, agrees_run, Forall2_map_agrees.
  - by apply agrees_run, Forall2_map_agrees.
  - destruct Hu as [Hl Ho]. apply agrees_list, agrees_run.
    apply Forall2_app; [by apply Forall2_map_agrees|].
    rewrite !drop_zero_tail_map.
    assert (Forall (fun x => agrees (encode x.2) (rlp_val x.2)) o) as H.
    { clear -IHo Ho. induction IHo as [|x o Hx _ IH]; [done|]. destruct Ho as [Hu Ho].
      constructor; [by apply Hx|by apply IH]. }
    apply drop_zero_tail_Forall in H. induction H; cbn; constructor; auto.
  - by apply IH.
  - apply (agrees_total (Write [b])); [intros; apply wrote_Write|done].
  - by apply IH.
  - apply (agrees_total (Write [to_byte 192])); [intros; apply wrote_Write|done].
Qed.

(** *** Producing the output *)

Lemma toBytes_loop_flat cap s strpos hs out :
  heads_ok strpos (drop strpos s) hs -> (strpos <= length s)%nat ->
  cap = (length out + length (flat strpos (drop strpos s) hs))%nat ->
  toBytes_loop cap s strpos hs out = Ok (out ++ flat strpos (drop strpos s) hs).
Proof.
  revert strpos out. induction hs as [|h hs IH]; intros strpos out Hok Hpos Hcap; cbn [toBytes_loop flat] in *.
  - by rewrite take_ge by lia.
  - destruct Hok as [Hb Hok]. rewrite length_drop in Hb.
    destruct (Nat.ltb_spec (offset h) strpos) as [|_]; [lia|].
    rewrite drop_drop in *. replace (strpos + (offset h - strpos))%nat with (offset h) in * by lia.
    rewrite !length_app, length_take, length_drop in Hcap.
    rewrite (take_ge (take _ _)) by (rewrite length_take, length_drop; lia).
    rewrite length_app, length_take, length_drop.
    destruct (Nat.ltb_spec cap (length out + (offset h - strpos) `min` (length s - strpos) + length (lh_encode h)));
      [lia|].
    replace (strpos + (offset h - strpos) `min` (length s - strpos))%nat with (offset h) by lia.
    rewrite IH; [by rewrite <- !app_assoc|done|lia|].
    rewrite !length_app, length_take, length_drop. lia.
Qed.

Lemma toWriter_loop_flat s strpos hs out :
  heads_ok strpos (drop strpos s) hs -> (strpos <= length s)%nat ->
  toWriter_loop s strpos hs out = Ok (out ++ flat strpos (drop strpos s) hs).
Proof.
  revert strpos out. induction hs as [|h hs IH]; intros strpos out Hok Hpos; cbn [toWriter_loop flat] in *.
  - destruct (Nat.ltb_spec strpos (length s)); [done|]. by rewrite drop_ge, app_nil_r by lia.
  - destruct Hok as [Hb Hok]. rewrite length_drop in Hb.
    rewrite drop_drop in *. replace (strpos + (offset h - strpos))%nat with (offset h) in * by lia.
    destruct (Nat.ltb_spec strpos (offset h)) as [Hlt|Hge].
    + destruct (Nat.ltb_spec (length s) (offset h)); [lia|]. rewrite length_take, length_drop.
      replace (strpos + (offset h - strpos) `min` (length s - strpos))%nat with (offset h) by lia.
      rewrite IH by (done || lia). by rewrite <- !app_assoc.
    + assert (offset h = strpos) as E by lia. rewrite E in *. rewrite Nat.sub_diag, take_0.
      rewrite IH by (done || lia). by rewrite <- !app_assoc.
Qed.

Lemma wrote_reset w b :
  wrote reset w b -> toBytes w = Ok b /\ toWriter_loop (str w) 0 (lheads w) [] = Ok b.
Proof.
  intros (s & hs & E1 & E2 & E3 & Hok & Hf). cbn in *. pose proof (length_flat _ _ _ Hok) as Hlen.
  split.
  - unfold toBytes, size_of. rewrite E1, E2, E3.
    assert (Z.to_nat (Z.of_nat (length s) + (0 + Z.of_nat (heads_len hs))) = length b) as ->
      by (rewrite <- Hf, Hlen; lia).
    rewrite toBytes_loop_flat by (rewrite ?drop_0, ?Hf; (done || cbn; lia)).
    cbn. by rewrite drop_0, Hf, Nat.sub_diag, app_nil_r.
  - rewrite E1, E2. rewrite toWriter_loop_flat by (rewrite ?drop_0; (done || lia)).
    by rewrite drop_0, Hf.
Qed.

Lemma EncodeToBytes_spec v :
  uints_ok v -> (forall b, rlp_val v = Ok b -> Z.of_nat (length b) < two64) ->
  EncodeToBytes v = rlp_val v /\ Encode v = rlp_val v.
Proof.
  intros Hu Hlen. unfold EncodeToBytes, Encode.
  pose proof (encode_agrees v Hu reset) as H. destruct (rlp_val v) as [b|e|]; [|by rewrite H|done].
  destruct H as (w & -> & Hw & _). cbn. by apply wrote_reset, Hw, Hlen.
Qed.

(** C4. The encoder is correct: for every Go value the writers support, with
    machine integers in range and an output shorter than 2^64 bytes, encoding
    through the string buffer, the list-header stack and the final interleaving
    gives exactly the recursive RLP encoding, whether it is returned as one byte
    string or written piece by piece; it fails only on negative big integers,
    with the reference's error. *)
Theorem EncodeToBytes_correct v :
  uints_ok v -> (forall b, rlp_val v = Ok b -> Z.of_nat (length b) < two64) ->
  EncodeToBytes v = rlp_val v /\ Encode v = rlp_val v.
Proof. apply EncodeToBytes_spec. Qed.

(** ** Decoding *)

Lemma or_bytes_val acc b :
  0 <= acc -> or_bytes acc b = fold_left (fun a x => a * 256 + byte_val x) b acc.
Proof.
  revert acc. induction b as [|x b IH]; intros acc Hacc; [done|]. cbn [or_bytes fold_left].
  pose proof (byte_val_range x) as Hx.
  assert (Z.lor (Z.shiftl acc 8) (byte_val x) = acc * 256 + byte_val x) as ->.
  { rewrite Z.shiftl_mul_pow2 by lia. change (2 ^ 8) with 256.
    rewrite <- Z.add_lor_land. assert (Z.land (acc * 256) (byte_val x) = 0) as ->; [|lia].
    apply Z.bits_inj'. intros k Hk. rewrite Z.land_spec, Z.bits_0.
    destruct (Z.ltb_spec k 8).
    - change 256 with (2 ^ 8). rewrite Z.mul_pow2_bits_low by lia. done.
    - assert (Z.testbit (byte_val x) k = false) as ->; [|by rewrite andb_false_r].
      apply Z.testbit_false; [done|]. rewrite Z.div_small; [done|]. split; [lia|].
      eapply Z.lt_le_trans; [apply Hx|]. change 256 with (2 ^ 8). apply Z.pow_le_mono_r; lia. }
  apply IH. lia.
Qed.

Lemma or_bytes_be b : or_bytes 0 b = be_val b.
Proof. by apply or_bytes_val. Qed.

(** Reading a size back from its minimal bytes. *)
Lemma readSize_Ok b slen s :
  (1 <= slen <= 8)%nat ->
  readSize b slen = Ok s <->
  (slen <= length b)%nat /\ 56 <= s < two64 /\ take slen b = be_bytes s.
Proof.
  intros Hs. unfold readSize.
  destruct (Nat.ltb_spec (length b) slen) as [|Hlen]; [split; [done|lia]|].
  assert (((1 <=? slen) && (slen <=? 8))%nat = true) as ->.
  { apply andb_true_iff. rewrite !Nat.leb_le. lia. }
  rewrite or_bytes_be. destruct b as [|x b]; [cbn in Hlen; lia|].
  destruct slen as [|k]; [lia|]. cbn [take index lookup list_lookup mbind outcome_bind].
  assert (canonical (x :: take k b) <-> byte_val x <> 0) as Hcan.
  { unfold canonical. cbn. split; intros H E; apply H; [|by injection E as ->].
    f_equal. apply byte_val_inj. by rewrite E. }
  split.
  - destruct (Z.ltb_spec (be_val (x :: take k b)) 56); [done|].
    destruct (Z.eqb_spec (byte_val x) 0) as [|Hx]; [done|]. intros [= <-].
    split; [done|]. rewrite be_bytes_be_val by (by apply Hcan). split; [|done]. split; [done|].
    pose proof (be_bytes_be_val (x :: take k b) ltac:(by apply Hcan)) as E.
    apply (be_val_lt_pow 8). cbn [length]. rewrite length_take. lia.
  - intros (_ & Hrange & E). rewrite E, be_val_be_bytes by lia.
    destruct (Z.ltb_spec s 56); [lia|].
    destruct (Z.eqb_spec (byte_val x) 0) as [H0|]; [|done]. exfalso.
    assert (canonical (x :: take k b)) as Hc by (rewrite E; apply be_bytes_canonical; lia).
    by apply Hcan in Hc.
Qed.

(** The header of a value of kind [k], and when [k] is the kind of a content. *)
Definition tag (k : Kind) (c : bytes) : bytes :=
  match k with
  | KByte => []
  | KString => hdr 128 183 (length c)
  | KList => hdr 192 247 (length c)
  end.

Definition small_byte (c : bytes) : Prop := exists x, c = [x] /\ byte_val x < 128.

Definition kind_ok (k : Kind) (c : bytes) : Prop :=
  match k with
  | KByte => small_byte c
  | KString => ~ small_byte c
  | KList => True
  end.

Lemma be_bytes_len_bounds n : 56 <= n < two64 -> (1 <= length (be_bytes n) <= 8)%nat.
Proof.
  intros Hn. split; [|apply length_be_bytes_le; change (256 ^ Z.of_nat 8) with two64; lia].
  pose proof (be_bytes_nonempty n ltac:(lia)). destruct (be_bytes n); [done|cbn; lia].
Qed.

Lemma hdr_short sm lg n : (n < 56)%nat -> hdr sm lg n = [to_byte (sm + Z.of_nat n)].
Proof. intros Hn. unfold hdr. cbv zeta. by destruct (Z.ltb_spec (Z.of_nat n) 56); [|lia]. Qed.

Lemma hdr_long sm lg n : (56 <= n)%nat ->
  hdr sm lg n = to_byte (lg + Z.of_nat (length (be_bytes (Z.of_nat n)))) :: be_bytes (Z.of_nat n).
Proof. intros Hn. unfold hdr. cbv zeta. by destruct (Z.ltb_spec (Z.of_nat n) 56); [lia|]. Qed.

(** A short header stands for the [n] bytes after it. *)
Lemma short_header b0 tl sm lg n :
  byte_val b0 = sm + Z.of_nat n -> (n < 56)%nat -> (n <= length tl)%nat ->
  b0 :: tl = hdr sm lg (length (take n tl)) ++ take n tl ++ drop n tl /\
  length (hdr sm lg (length (take n tl))) = 1%nat /\ length (take n tl) = n.
Proof.
  intros E Hn Hl. assert (length (take n tl) = n) as El by (rewrite length_take; lia).
  rewrite El, hdr_short, <- E, to_byte_val, take_drop by done. done.
Qed.

(** A long header stands for its size bytes and the content after them. *)
Lemma long_header b0 tl sm lg slen s :
  byte_val b0 = lg + Z.of_nat slen -> (1 <= slen <= 8)%nat -> readSize tl slen = Ok s ->
  Z.of_nat slen + s <= Z.of_nat (length tl) ->
  let c := take (Z.to_nat s) (drop slen tl) in
  b0 :: tl = hdr sm lg (length c) ++ c ++ drop (slen + Z.to_nat s) tl /\
  length (hdr sm lg (length c)) = S slen /\ Z.of_nat (length c) = s /\ (56 <= length c)%nat.
Proof.
  intros E Hslen (Hl & Hs & Ht)%readSize_Ok Hfit c; [|done].
  assert (length c = Z.to_nat s) as Hlen by (unfold c; rewrite length_take, length_drop; lia).
  assert (length (be_bytes s) = slen) as Hsl by (rewrite <- Ht, length_take; lia).
  rewrite Hlen, hdr_long, Z2Nat.id by lia. rewrite Hsl, <- E, to_byte_val. cbn [length app].
  split_and!; [|lia|lia|lia]. f_equal.
  unfold c. rewrite <- Ht, <- drop_drop, take_drop. by rewrite take_drop.
Qed.

Lemma read_tag_sound b0 tl k ts cs :
  read_tag b0 tl = Ok (k, ts, cs) -> ts + cs <= Z.of_nat (length (b0 :: tl)) ->
  exists c rest, b0 :: tl = tag k c ++ c ++ rest /\ kind_ok k c /\
    ts = Z.of_nat (length (tag k c)) /\ cs = Z.of_nat (length c).
Proof.
  intros H Hfit. cbn [length] in Hfit. pose proof (byte_val_range b0) as Hb. unfold read_tag in H.
  assert (forall c, (56 <= length c)%nat -> ~ small_byte c) as Hbig
    by (intros c Hc (x & -> & _); cbn in Hc; lia).
  destruct (Z.ltb_spec (byte_val b0) 128).
  { injection H as <- <- <-. exists [b0], tl. split_and!; [done|by exists b0|done|done]. }
  destruct (Z.ltb_spec (byte_val b0) 184).
  { destruct (_ && _) eqn:Ecan in H; [done|]. injection H as <- <- <-.
    destruct (short_header b0 tl 128 183 (Z.to_nat (byte_val b0 - 128))) as (E & E1 & E2); [lia..|].
    eexists _, _. split; [exact E|]. split; [|split; cbn [tag]; lia].
    intros (x & Ex & Hx). rewrite Ex in E2. cbn in E2. rewrite <- E2 in Ex.
    destruct tl as [|b1 tl]; [done|]. injection Ex as ->.
    destruct (Z.ltb_spec (byte_val x) 128), (Z.eqb_spec (byte_val b0 - 128) 1); (done || lia). }
  destruct (Z.ltb_spec (byte_val b0) 192).
  { apply bind_Ok in H as (s & Hs & [= <- <- <-]).
    destruct (long_header b0 tl 128 183 (Z.to_nat (byte_val b0 - 183)) s) as (E & E1 & E2 & E3); try lia; [done|].
    eexists _, _. split; [exact E|]. split; [by apply Hbig|]. split; cbn [tag]; lia. }
  destruct (Z.ltb_spec (byte_val b0) 248).
  { injection H as <- <- <-.
    destruct (short_header b0 tl 192 247 (Z.to_nat (byte_val b0 - 192))) as (E & E1 & E2); [lia..|].
    eexists _, _. split; [exact E|]. split; [done|]. split; cbn [tag]; lia. }
  apply bind_Ok in H as (s & Hs & [= <- <- <-]).
  destruct (long_header b0 tl 192 247 (Z.to_nat (byte_val b0 - 247)) s) as (E & E1 & E2 & E3); try lia; [done|].
  eexists _, _. split; [exact E|]. split; [done|]. split; cbn [tag]; lia.
Qed.

(** The values the raw decoder splits off: a header of the shortest form, its
    content and whatever follows. *)
Lemma readKind_sound b k ts cs :
  Z.of_nat (length b) < two64 -> readKind b = Ok (k, ts, cs) ->
  exists c rest, b = tag k c ++ c ++ rest /\ kind_ok k c /\
    ts = Z.of_nat (length (tag k c)) /\ cs = Z.of_nat (length c).
Proof.
  intros Hlen H. destruct b as [|b0 tl]; [done|]. cbn [readKind] in H.
  apply bind_Ok in H as ([[k' ts'] cs'] & Ht & H).
  destruct (Z.ltb_spec (Z.of_nat (length (b0 :: tl)) -u ts') cs') as [|Hle]; [done|].
  injection H as -> -> ->. apply read_tag_sound; [done|].
  assert (0 <= ts <= Z.of_nat (length (b0 :: tl))) as Hts; [|rewrite u64_sub_small in Hle; lia].
  pose proof (byte_val_range b0). cbn [length]. unfold read_tag in Ht. repeat case_match; try done;
    first [injection Ht as <- <- <-; lia | apply bind_Ok in Ht as (s & Hs & [= <- <- <-])].
  all: apply readSize_Ok in Hs; lia.
Qed.

(** Evaluates the switch of [read_tag] for a byte in a known range. *)
Ltac tag_branch :=
  unfold read_tag;
  repeat match goal with
  | |- context [byte_val ?b <? ?n] =>
      first [rewrite (proj2 (Z.ltb_lt (byte_val b) n)) by lia
            | rewrite (proj2 (Z.ltb_ge (byte_val b) n)) by lia]
  end.

Lemma hdr_long_reads b0 tl sm lg c rest :
  (56 <= length c)%nat -> Z.of_nat (length c) < two64 -> 0 <= lg -> lg + 8 < 256 ->
  b0 :: tl = hdr sm lg (length c) ++ c ++ rest ->
  exists slen, (1 <= slen <= 8)%nat /\ byte_val b0 = lg + Z.of_nat slen /\
    readSize tl slen = Ok (Z.of_nat (length c)) /\ length (hdr sm lg (length c)) = S slen.
Proof.
  intros Hl Hlt Hlg0 Hlg. rewrite hdr_long by done. intros [= E0 Et].
  pose proof (be_bytes_len_bounds (Z.of_nat (length c)) ltac:(lia)) as Hbl.
  eexists. split; [exact Hbl|]. split; [rewrite E0; by rewrite byte_val_to_byte_small by lia|].
  split; [|done]. apply readSize_Ok; [done|].
  rewrite Et, length_app, take_app_length. split; [lia|]. split; [lia|done].
Qed.

Lemma read_tag_complete b0 k c rest tl :
  b0 :: tl = tag k c ++ c ++ rest -> kind_ok k c -> Z.of_nat (length c) < two64 ->
  read_tag b0 tl = Ok (k, Z.of_nat (length (tag k c)), Z.of_nat (length c)).
Proof.
  intros E Hk Hlt. destruct k; cbn [tag kind_ok] in *.
  - destruct Hk as (x & -> & Hx). injection E as -> _. by tag_branch.
  - destruct (Nat.lt_ge_cases (length c) 56) as [Hs|Hl].
    + rewrite hdr_short in * by done. injection E as E0 Et.
      assert (byte_val b0 = 128 + Z.of_nat (length c)) as Hb by (rewrite E0, byte_val_to_byte_small; lia).
      tag_branch. replace (byte_val b0 - 128) with (Z.of_nat (length c)) by lia.
      destruct (_ && _) eqn:Ec; [|done]. exfalso. apply andb_true_iff in Ec as [Ec1 Ec2].
      apply Hk. apply Z.eqb_eq in Ec1. destruct c as [|x [|y c]]; cbn in Ec1; [lia| |lia].
      exists x. split; [done|]. rewrite Et in Ec2. cbn in Ec2. lia.
    + destruct (hdr_long_reads b0 tl 128 183 c rest) as (slen & Hsl & Hb & Hr & ->); [done || lia..|].
      tag_branch. replace (byte_val b0 - 183) with (Z.of_nat slen) by lia.
      rewrite Nat2Z.id, Hr. cbn. do 3 f_equal. lia.
  - destruct (Nat.lt_ge_cases (length c) 56) as [Hs|Hl].
    + rewrite hdr_short in * by done. injection E as E0 Et.
      assert (byte_val b0 = 192 + Z.of_nat (length c)) as Hb by (rewrite E0, byte_val_to_byte_small; lia).
      tag_branch. cbn. do 2 f_equal. lia.
    + destruct (hdr_long_reads b0 tl 192 247 c rest) as (slen & Hsl & Hb & Hr & ->); [done || lia..|].
      tag_branch. replace (byte_val b0 - 247) with (Z.of_nat slen) by lia.
      rewrite Nat2Z.id, Hr. cbn. do 3 f_equal. lia.
Qed.

Lemma readKind_complete k c rest :
  kind_ok k c -> Z.of_nat (length (tag k c ++ c ++ rest)) < two64 ->
  readKind (tag k c ++ c ++ rest) = Ok (k, Z.of_nat (length (tag k c)), Z.of_nat (length c)).
Proof.
  intros Hk Hlt. rewrite !length_app in Hlt.
  assert (tag k c ++ c ++ rest <> []) as Hne.
  { destruct k; cbn; [|unfold hdr; by case_match..]. by destruct Hk as (x & -> & _). }
  destruct (tag k c ++ c ++ rest) as [|b0 tl] eqn:E; [done|]. cbn [readKind].
  rewrite (read_tag_complete b0 k c rest tl) by (done || lia). cbn [mbind outcome_bind].
  rewrite <- E, !length_app, u64_sub_small by lia.
  destruct (Z.ltb_spec (Z.of_nat (length (tag k c) + (length c + length rest)) - Z.of_nat (length (tag k c)))
              (Z.of_nat (length c))); [lia|done].
Qed.

Lemma Split_spec b k c rest :
  Z.of_nat (length b) < two64 ->
  Split b = Ok (k, c, rest) <-> b = tag k c ++ c ++ rest /\ kind_ok k c.
Proof.
  intros Hlt. unfold Split. split.
  - intros H. apply bind_Ok in H as ([[k' ts] cs] & Hr & [= <- <- <-]).
    destruct (readKind_sound b k' ts cs Hlt Hr) as (c' & r' & -> & Hk & -> & ->).
    rewrite !Nat2Z.id. rewrite drop_app_length, take_app_length.
    rewrite <- drop_drop, drop_app_length, drop_app_length. done.
  - intros [-> Hk]. rewrite readKind_complete by done. cbn. rewrite !Nat2Z.id.
    rewrite drop_app_length, take_app_length.
    rewrite <- drop_drop, drop_app_length, drop_app_length. done.
Qed.

(** The raw decoder accepts exactly the canonical encodings: splitting a
    value off a byte string succeeds precisely when the string starts with a
    header in its shortest form (no header for a single byte below 0x80), the
    content the header announces, and the returned rest. *)
Theorem Split_canonical b k c rest :
  Z.of_nat (length b) < two64 ->
  Split b = Ok (k, c, rest) <-> b = tag k c ++ c ++ rest /\ kind_ok k c.
Proof. apply Split_spec. Qed.

Lemma AppendUint64_rlp b i : is_u64 i -> AppendUint64 b i = b ++ rlp_str (be_bytes i).
Proof.
  intros Hi. rewrite rlp_uint by done. unfold AppendUint64, putint.
  by repeat match goal with |- context [if ?c then _ else _] => destruct c end.
Qed.

(** A string is a byte or a string value. *)
Lemma rlp_str_tag c : exists k, k <> KList /\ kind_ok k c /\ rlp_str c = tag k c ++ c.
Proof.
  assert (small_byte c \/ ~ small_byte c) as [H|H].
  { destruct c as [|x [|y c]]; [right; by intros (? & ? & _)| |right; by intros (? & ? & _)].
    destruct (Z.ltb_spec (byte_val x) 128); [left; by exists x|].
    right. intros (x' & [= <-] & Hx'). lia. }
  - exists KByte. split_and!; [done|done|]. destruct H as (x & -> & Hx). cbn.
    by destruct (Z.ltb_spec (byte_val x) 128); [|lia].
  - exists KString. split_and!; [done|done|]. destruct c as [|x [|y c]]; [done| |done]. cbn.
    destruct (Z.ltb_spec (byte_val x) 128); [|done]. destruct H. by exists x.
Qed.

Lemma SplitString_spec b c rest :
  Z.of_nat (length b) < two64 -> SplitString b = Ok (c, rest) <-> b = rlp_str c ++ rest.
Proof.
  intros Hlt. unfold SplitString. rewrite bind_Ok. split.
  - intros ([[k c'] r] & Hs & H). apply Split_spec in Hs as [-> Hk]; [|done].
    case_bool_decide; [done|]. injection H as -> ->.
    destruct (rlp_str_tag c) as (k' & Hk' & Hok & ->). rewrite <- app_assoc.
    by destruct k, k'; try done; try (by destruct Hk); try (by destruct Hok).
  - intros ->. destruct (rlp_str_tag c) as (k & Hk & Hok & E).
    exists (k, c, rest). rewrite Split_spec, E, <- app_assoc by done. split; [done|].
    by rewrite bool_decide_false.
Qed.

(** Integers round-trip and only in canonical form: [SplitUint64] reads [i]
    off a byte string exactly when the string starts with what [AppendUint64]
    writes for [i], which is also the encoder's integer encoding. *)
Theorem SplitUint64_AppendUint64 b i rest :
  Z.of_nat (length b) < two64 -> is_u64 i ->
  AppendUint64 [] i = rlp_str (be_bytes i) /\
  (SplitUint64 b = Ok (i, rest) <-> b = AppendUint64 [] i ++ rest).
Proof.
  intros Hlt Hi. rewrite AppendUint64_rlp by done. cbn [app]. split; [done|].
  unfold SplitUint64. rewrite bind_Ok. split.
  - intros ([c r] & Hs & H). apply SplitString_spec in Hs as ->; [|done].
    destruct c as [|x [|y c]]; [by injection H as <- <-| |].
    + destruct (Z.eqb_spec (byte_val x) 0) as [|Hx]; [done|]. injection H as <- <-.
      rewrite be_bytes_small by (pose proof (byte_val_range x); lia). by rewrite to_byte_val.
    + destruct (Nat.ltb_spec 8 (length (x :: y :: c))) as [|Hl]; [done|].
      destruct (readSize _ _) as [s| |] eqn:Er; [|done..]. injection H as -> ->.
      apply readSize_Ok in Er as (_ & _ & E); [|cbn in *; lia]. by rewrite take_ge in E by lia; rewrite <- E.
  - intros ->. exists (be_bytes i, rest). rewrite SplitString_spec by done. split; [done|].
    unfold is_u64 in Hi. pose proof (be_val_be_bytes i ltac:(lia)) as Hv.
    pose proof (be_bytes_canonical i ltac:(lia)) as Hc.
    pose proof (length_be_bytes_le 8 i Hi) as Hl.
    destruct (be_bytes i) as [|x [|y c]] eqn:E; [by rewrite <- Hv| |].
    + cbn in Hv. subst i. destruct (Z.eqb_spec (byte_val x) 0) as [Hx|]; [|done].
      destruct Hc. cbn. f_equal. apply byte_val_inj. by rewrite Hx.
    + destruct (Nat.ltb_spec 8 (length (x :: y :: c))) as [|_]; [lia|].
      assert (readSize (x :: y :: c) (length (x :: y :: c)) = Ok i) as ->; [|done].
      apply readSize_Ok; [cbn in *; lia|]. rewrite take_ge, E by lia. split_and!; try done; try lia.
      destruct (Z.ltb_spec i 256) as [Hlt2|]; [|lia]. exfalso.
      destruct (Z.eq_dec i 0) as [->|]; [done|]. by rewrite be_bytes_small in E by lia.
Qed.

(** ** Items *)

Lemma rlp_tag x : exists k c, rlp x = tag k c ++ c /\ kind_ok k c /\
  match x with Str b => k <> KList /\ c = b | Lst l => k = KList /\ c = concat (map rlp l) end.
Proof.
  destruct x as [b|l]; cbn.
  - destruct (rlp_str_tag b) as (k & Hk & Hok & E). by exists k, b.
  - by exists KList, (concat (map rlp l)).
Qed.

Lemma tag_app_nonempty k c : kind_ok k c -> (1 <= length (tag k c ++ c))%nat.
Proof.
  intros Hk. rewrite length_app. destruct k; cbn.
  - destruct Hk as (x & -> & _). cbn. lia.
  - unfold hdr. case_match; cbn; lia.
  - unfold hdr. case_match; cbn; lia.
Qed.

Lemma readSize_no_panic b slen p : readSize b slen <> Panic p.
Proof.
  unfold readSize. destruct (Nat.ltb_spec (length b) slen) as [|Hl]; [done|].
  set (s := if ((1 <=? slen) && (slen <=? 8))%nat then or_bytes 0 (take slen b) else 0).
  assert (slen = 0%nat -> s = 0) as Hs by (by intros ->).
  destruct (Z.ltb_spec s 56); [done|]. destruct b as [|x b]; [cbn in Hl; lia|].
  cbn. by case_match.
Qed.

Lemma readKind_no_panic b p : readKind b <> Panic p.
Proof.
  destruct b as [|b0 tl]; [done|]. cbn [readKind].
  destruct (read_tag b0 tl) as [[[k ts] cs]|e|p'] eqn:E; cbn; [by case_match|done|].
  exfalso. revert E. unfold read_tag. repeat case_match; try done.
  - destruct (readSize _ _) eqn:Er; try done. by apply readSize_no_panic in Er.
  - destruct (readSize _ _) eqn:Er; try done. by apply readSize_no_panic in Er.
Qed.

Lemma CountValues_loop_total fuel b i :
  Z.of_nat (length b) < two64 -> (length b <= fuel)%nat ->
  match CountValues_loop fuel b i with Panic _ => False | _ => True end.
Proof.
  revert b i. induction fuel as [|fuel IH]; intros b i Hlt Hf.
  { destruct b; [done|cbn in Hf; lia]. }
  destruct b as [|b0 tl]; [done|]. cbn [CountValues_loop].
  destruct (readKind (b0 :: tl)) as [[[k ts] cs]|e|p] eqn:E; cbn [mbind outcome_bind]; [|done|].
  - destruct (readKind_sound _ _ _ _ Hlt E) as (c & rest & Eb & Hk & -> & ->).
    pose proof (tag_app_nonempty k c Hk) as Hne. rewrite length_app in Hne.
    apply IH; rewrite length_drop; lia.
  - by destruct (readKind_no_panic (b0 :: tl) p).
Qed.

Lemma CountValues_loop_rlp l fuel i :
  Z.of_nat (length (concat (map rlp l))) < two64 -> (length (concat (map rlp l)) <= fuel)%nat ->
  CountValues_loop fuel (concat (map rlp l)) i = Ok (i + Z.of_nat (length l)).
Proof.
  revert fuel i. induction l as [|x l IH]; intros fuel i Hlt Hf; cbn [map concat] in *.
  { destruct fuel; cbn; by rewrite Z.add_0_r. }
  destruct (rlp_tag x) as (k & c & E & Hk & _). pose proof (tag_app_nonempty k c Hk) as Hne.
  rewrite E, !length_app in *. rewrite <- app_assoc.
  destruct fuel as [|fuel]; [lia|].
  destruct (tag k c ++ c ++ concat (map rlp l)) as [|b0 tl] eqn:Eb;
    [apply (f_equal length) in Eb; rewrite !length_app in Eb; cbn in Eb; lia|].
  cbn [CountValues_loop]. rewrite <- Eb. rewrite readKind_complete by (rewrite ?length_app; done || lia).
  cbn [mbind outcome_bind]. rewrite Z2Nat.inj_add, !Nat2Z.id by lia.
  rewrite <- drop_drop, drop_app_length, drop_app_length. rewrite IH by lia. f_equal. cbn. lia.
Qed.

(** Counting values: on the concatenated encodings of any list of items the
    count is their number; on any input at all the loop terminates with a count
    or an error, within one pass per input byte. *)
Theorem CountValues_correct :
  (forall l, Z.of_nat (length (concat (map rlp l))) < two64 ->
     CountValues (concat (map rlp l)) = Ok (Z.of_nat (length l))) /\
  (forall b, Z.of_nat (length b) < two64 ->
     match CountValues b with Panic _ => False | _ => True end).
Proof.
  split.
  - intros l Hl. unfold CountValues. by rewrite CountValues_loop_rlp by lia.
  - intros b Hb. apply CountValues_loop_total; [done|lia].
Qed.

Section ItemInd.
Context (P : item -> Prop) (HStr : forall b, P (Str b)) (HLst : forall l, Forall P l -> P (Lst l)).

Fixpoint item_nested_ind (x : item) : P x :=
  match x with
  | Str b => HStr b
  | Lst l => HLst l ((fix all (l : list item) : Forall P l :=
      match l with
      | [] => List.Forall_nil P
      | y :: rest => List.Forall_cons P y rest (item_nested_ind y) (all rest)
      end) l)
  end.
End ItemInd.

(** Splitting is a function, so headers and contents are determined. *)
Lemma tag_inj k c r k' c' r' :
  kind_ok k c -> kind_ok k' c' -> tag k c ++ c ++ r = tag k' c' ++ c' ++ r' ->
  Z.of_nat (length (tag k c ++ c ++ r)) < two64 -> k = k' /\ c = c' /\ r = r'.
Proof.
  intros Hk Hk' E Hlt.
  assert (Split (tag k c ++ c ++ r) = Ok (k, c, r)) as H1 by (by apply Split_spec).
  assert (Split (tag k c ++ c ++ r) = Ok (k', c', r')) as H2 by (rewrite E in *; by apply Split_spec).
  rewrite H1 in H2. by injection H2.
Qed.

Lemma rlp_prefix_free x : forall y r r',
  rlp x ++ r = rlp y ++ r' -> Z.of_nat (length (rlp x ++ r)) < two64 -> x = y /\ r = r'.
Proof.
  induction x as [b|l IH] using item_nested_ind; intros y r r' E Hlt.
  - destruct (rlp_tag (Str b)) as (k & c & Ex & Hk & Hkx & ->).
    destruct (rlp_tag y) as (k' & c' & Ey & Hk' & Hy). rewrite Ex, Ey, <- !app_assoc in *.
    destruct (tag_inj _ _ _ _ _ _ Hk Hk' E Hlt) as (<- & <- & <-).
    destruct y; [by destruct Hy as [_ ->]|by destruct Hy].
  - destruct (rlp_tag (Lst l)) as (k & c & Ex & Hk & -> & ->).
    destruct (rlp_tag y) as (k' & c' & Ey & Hk' & Hy). rewrite Ex, Ey, <- !app_assoc in *.
    destruct (tag_inj _ _ _ _ _ _ Hk Hk' E Hlt) as (<- & <- & <-).
    destruct y as [b'|l']; [by destruct Hy|]. destruct Hy as [_ Ec]. split; [|done]. f_equal.
    rewrite !length_app in Hlt. clear Ex Ey Hk Hk' E.
    assert (Z.of_nat (length (concat (map rlp l))) < two64) as Hl by lia. clear Hlt.
    revert l' Ec Hl. induction IH as [|x l Hx _ IHl]; intros [|y l'] Ec Hl; cbn in *; try done.
    + destruct (rlp_tag y) as (k & c & Ey & Hky & _). pose proof (tag_app_nonempty k c Hky).
      rewrite <- Ey in *. destruct (rlp y); cbn in *; [lia|done].
    + destruct (rlp_tag x) as (k & c & Ey & Hky & _). pose proof (tag_app_nonempty k c Hky).
      rewrite <- Ey in *. destruct (rlp x); cbn in *; [lia|done].
    + destruct (Hx y _ _ Ec Hl) as [<- Er]. f_equal. apply IHl; [done|].
      rewrite length_app in Hl. lia.
Qed.

(** The format is unambiguous: no item's encoding is a prefix of another's,
    so a stream of encodings has one reading. *)
Theorem rlp_unambiguous x y r r' :
  Z.of_nat (length (rlp x ++ r)) < two64 -> rlp x ++ r = rlp y ++ r' -> x = y /\ r = r'.
Proof. intros Hl E. by apply (rlp_prefix_free x). Qed.

(** ** Concrete encodings *)

Module RlpExample.

(** [["cat", 1024, [], 2^70]] as a struct with an optional zero field. *)
Definition sample : rval :=
  RStruct [RString [Byte.x63; Byte.x61; Byte.x74]; RUint 1024; RSlice []; RBigPtr (Some (2 ^ 70))]
          [(true, RUint 0)].

Lemma EncodeToBytes_correct_witness :
  EncodeToBytes sample = rlp_val sample /\ Encode sample = rlp_val sample.
Proof.
  apply EncodeToBytes_correct.
  - cbn. unfold is_u64, two64. lia.
  - intros b Hb. vm_compute in Hb. injection Hb as <-. reflexivity.
Defined.

Example sample_bytes :
  EncodeToBytes sample =
  Ok (map to_byte [210; 131; 99; 97; 116; 130; 4; 0; 192; 137; 64; 0; 0; 0; 0; 0; 0; 0; 0]).
Proof. vm_compute. reflexivity. Qed.

Lemma Split_canonical_witness :
  Split (map to_byte [131; 99; 97; 116; 5]) = Ok (KString, map to_byte [99; 97; 116], map to_byte [5])
  <-> map to_byte [131; 99; 97; 116; 5]
      = tag KString (map to_byte [99; 97; 116]) ++ map to_byte [99; 97; 116] ++ map to_byte [5]
      /\ kind_ok KString (map to_byte [99; 97; 116]).
Proof. apply Split_canonical. reflexivity. Defined.

Lemma rlp_unambiguous_witness :
  Lst [Str []] = Lst [Str []] /\ [Byte.x05] = [Byte.x05].
Proof. apply rlp_unambiguous; reflexivity. Defined.

End RlpExample.
