(* ===== verification/RlpStream.v ===== *)
(** * The RLP stream decoder

    rlp/decode.go: [Stream], which reads typed values off a reader while it
    keeps the limits of the input and of the enclosing lists, and the decoders
    built for Go types.

    The reader is the sequence of bytes it will deliver.  The stack of list
    limits has the innermost list first; [kind] is [None] where the code has
    -1.  The scratch buffer for integers is left out.  Go types are terms of
    [rtype], decoded values are the values the encoder writes ([rval]); a value
    is decoded into a fresh variable.  Errors that carry the Go type and the
    path to it ([decodeError]) are their messages. *)

From S2P Require Import Prelude BigEndian Rlp.

(** ** Errors *)

Definition EOL : error := "rlp: end of list".
Definition ErrElemTooLarge : error := "rlp: element is larger than containing list".
Definition ErrMoreThanOneValue : error := "rlp: input contains more than one value".
Definition errNotInList : error := "rlp: call of ListEnd outside of any list".
Definition errNotAtEOL : error := "rlp: call of ListEnd not positioned at EOL".
Definition io_EOF : error := "EOF".

(** [geth:rlp/decode.go] decodeError.Error *)
Definition decodeError (msg : string) : error := String.append "rlp: " (String.append msg " for the type").

(** [geth:rlp/decode.go] wrapStreamError *)
Definition wrapStreamError (err : error) : error :=
  if String.eqb err ErrCanonInt then decodeError "non-canonical integer (leading zero bytes)"
  else if String.eqb err ErrCanonSize then decodeError "non-canonical size information"
  else if String.eqb err ErrExpectedList then decodeError "expected input list"
  else if String.eqb err ErrExpectedString then decodeError "expected input string or byte"
  else if String.eqb err errUintOverflow then decodeError "input string too long"
  else if String.eqb err errNotAtEOL then decodeError "input list has too many elements"
  else err.

Definition wrap {S A} (m : StM S A) : StM S A := fun s =>
  match m s with
  | (Err e, s') => (Err (wrapStreamError e), s')
  | r => r
  end.

(** An error that is looked at instead of being returned. *)
Definition catch {S A} (m : StM S A) : StM S (A + error) := fun s =>
  match m s with
  | (Ok a, s') => (Ok (inl a), s')
  | (Err e, s') => (Ok (inr e), s')
  | (Panic p, s') => (Panic p, s')
  end.

(** ** The stream *)

(** [geth:rlp/decode.go] Stream *)
Record Stream := {
  r : bytes;
  remaining : Z;
  s_size : Z;
  kinderr : option error;
  stack : list Z;
  s_kind : option Kind;
  byteval : byte;
  limited : bool;
}.

Definition set_r x (s : Stream) : Stream :=
  {| r := x; remaining := remaining s; s_size := s_size s; kinderr := kinderr s; stack := stack s;
     s_kind := s_kind s; byteval := byteval s; limited := limited s |}.
Definition set_remaining x (s : Stream) : Stream :=
  {| r := r s; remaining := x; s_size := s_size s; kinderr := kinderr s; stack := stack s;
     s_kind := s_kind s; byteval := byteval s; limited := limited s |}.
Definition set_stack x (s : Stream) : Stream :=
  {| r := r s; remaining := remaining s; s_size := s_size s; kinderr := kinderr s; stack := x;
     s_kind := s_kind s; byteval := byteval s; limited := limited s |}.
Definition set_byteval x (s : Stream) : Stream :=
  {| r := r s; remaining := remaining s; s_size := s_size s; kinderr := kinderr s; stack := stack s;
     s_kind := s_kind s; byteval := x; limited := limited s |}.
Definition set_kind k n e (s : Stream) : Stream :=
  {| r := r s; remaining := remaining s; s_size := n; kinderr := e; stack := stack s;
     s_kind := k; byteval := byteval s; limited := limited s |}.

(** [s.kind = -1]. *)
Definition rearm (s : Stream) : Stream := set_kind None (s_size s) (kinderr s) s.

(** The stream of the pool may hold anything; [discover] is whether the reader is
    one whose length is known.
    [geth:rlp/decode.go] Stream.Reset *)
Definition Reset (discover : bool) (b : bytes) (inputLimit : Z) (s : Stream) : Stream :=
  {| r := b;
     remaining := if 0 <? inputLimit then inputLimit
                  else if discover then Z.of_nat (length b) else remaining s;
     limited := (0 <? inputLimit) || discover;
     s_size := 0; kinderr := None; stack := []; s_kind := None; byteval := Byte.x00 |}.

Definition new_Stream : Stream :=
  {| r := []; remaining := 0; s_size := 0; kinderr := None; stack := []; s_kind := Some KByte;
     byteval := Byte.x00; limited := false |}.

(** [geth:rlp/decode.go] NewStream *)
Definition NewStream (discover : bool) (b : bytes) (inputLimit : Z) : Stream :=
  Reset discover b inputLimit new_Stream.

(** [geth:rlp/decode.go] NewListStream *)
Definition NewListStream (discover : bool) (b : bytes) (len : Z) : Stream :=
  let s := Reset discover b len new_Stream in
  set_kind (Some KList) len (kinderr s) s.

(** ** Reading *)

(** [geth:rlp/decode.go] Stream.listLimit *)
Definition listLimit (s : Stream) : bool * Z :=
  match stack s with
  | [] => (false, 0)
  | limit :: _ => (true, limit)
  end.

Definition set_top (limit : Z) (s : Stream) : Stream :=
  set_stack (match stack s with [] => [] | _ :: st => limit :: st end) s.

(** [geth:rlp/decode.go] Stream.willRead *)
Definition willRead (n : Z) : StM Stream unit :=
  _ ← putS rearm;
  '(inList, limit) ← getS listLimit;
  _ ← (if (inList : bool) then
         if limit <? n then pure (Err ErrElemTooLarge) else putS (set_top (limit -u n))
       else mret tt);
  lim ← getS limited;
  if (lim : bool) then
    rem ← getS remaining;
    if rem <? n then pure (Err ErrValueTooLarge) else putS (set_remaining (rem -u n))
  else mret tt.

(** The bytes read into a buffer of length [n]; a reader that ends before has been
    read to its end.
    [geth:rlp/decode.go] Stream.readFull *)
Definition readFull (n : Z) : StM Stream bytes :=
  _ ← willRead n;
  b ← getS r;
  if Z.of_nat (length b) <? n then
    _ ← putS (set_r []);
    pure (Err ErrUnexpectedEOF)
  else
    _ ← putS (set_r (drop (Z.to_nat n) b));
    mret (take (Z.to_nat n) b).

(** [geth:rlp/decode.go] Stream.readByte *)
Definition readByte : StM Stream byte :=
  _ ← willRead 1;
  b ← getS r;
  match b with
  | [] => pure (Err ErrUnexpectedEOF)
  | x :: rest => _ ← putS (set_r rest); mret x
  end.

(** Callers ask for at most eight bytes.
    [geth:rlp/decode.go] Stream.readUint *)
Definition readUint (size : Z) : StM Stream Z :=
  if size =? 0 then _ ← putS rearm; mret 0
  else if size =? 1 then b ← readByte; mret (byte_val b)
  else
    buffer ← readFull size;
    b0 ← pure (index buffer 0);
    if byte_val b0 =? 0 then pure (Err ErrCanonSize) else mret (be_val buffer).

(** A size that follows the first byte. *)
Definition read_long (k : Kind) (n : Z) : StM Stream (Kind * Z * option error) :=
  size ← catch (readUint n);
  mret match size with
       | inl size => (k, size, if size <? 56 then Some ErrCanonSize else None)
       | inr err => (k, 0, Some err)
       end.

(** [geth:rlp/decode.go] Stream.readKind *)
Definition Stream_readKind : StM Stream (Kind * Z * option error) :=
  b ← catch readByte;
  match b with
  | inr err =>
      st ← getS stack;
      mret (KByte, 0, Some (if bool_decide (st = []) &&
                               (String.eqb err ErrUnexpectedEOF || String.eqb err ErrValueTooLarge)
                            then io_EOF else err))
  | inl b0 =>
      let b := byte_val b0 in
      _ ← putS (set_byteval Byte.x00);
      if b <? 128 then _ ← putS (set_byteval b0); mret (KByte, 0, None)
      else if b <? 184 then mret (KString, b - 128, None)
      else if b <? 192 then read_long KString (b - 183)
      else if b <? 248 then mret (KList, b - 192, None)
      else read_long KList (b - 247)
  end.

(** The limit of the list is the one before the first byte was read.
    [geth:rlp/decode.go] Stream.Kind *)
Definition Stream_Kind : StM Stream (Kind * Z) :=
  k ← getS s_kind;
  match k with
  | Some k =>
      e ← getS kinderr;
      n ← getS s_size;
      pure (match e with Some e => Err e | None => mret (k, n) end)
  | None =>
      '(inList, limit) ← getS listLimit;
      if (inList : bool) && (limit =? 0) then pure (Err EOL)
      else
        '(k, n, e) ← Stream_readKind;
        lim ← getS limited;
        rem ← getS remaining;
        let e := match e with
                 | Some e => Some e
                 | None => if (inList : bool) && (limit <? n) then Some ErrElemTooLarge
                           else if (lim : bool) && (rem <? n) then Some ErrValueTooLarge
                           else None
                 end in
        _ ← putS (set_kind (Some k) n e);
        pure (match e with Some e => Err e | None => mret (k, n) end)
  end.

(** ** Values *)

(** [make([]byte, n)]. *)
Definition make_bytes (n : Z) : StM Stream unit :=
  pure (if maxInt64 <? n then Panic "makeslice: len out of range" else mret tt).

(** [size == 1 && b[0] < 128]: a byte that needs no header. *)
Definition needless_header (size : Z) (b : bytes) : bool :=
  (size =? 1) && match b with x :: _ => byte_val x <? 128 | [] => false end.

(** [geth:rlp/decode.go] Stream.Bytes *)
Definition Stream_Bytes : StM Stream bytes :=
  '(kind, size) ← Stream_Kind;
  match kind with
  | KByte =>
      _ ← putS rearm;
      x ← getS byteval;
      mret [x]
  | KString =>
      _ ← make_bytes size;
      b ← readFull size;
      if needless_header size b then pure (Err ErrCanonSize) else mret b
  | KList => pure (Err ErrExpectedString)
  end.

(** [geth:rlp/decode.go] Stream.Raw *)
Definition Stream_Raw : StM Stream bytes :=
  '(kind, size) ← Stream_Kind;
  if bool_decide (kind = KByte) then
    _ ← putS rearm;
    x ← getS byteval;
    mret [x]
  else
    let start := headsize size in
    let len := start +u size in
    _ ← make_bytes len;
    _ ← (if len <? start then pure (Panic "slice bounds out of range") else mret tt);
    content ← readFull (len - start);
    mret ((if bool_decide (kind = KString) then puthead 128 183 size else puthead 192 247 size) ++ content).

(** [geth:rlp/decode.go] Stream.uint *)
Definition Stream_uint (maxbits : Z) : StM Stream Z :=
  '(kind, size) ← Stream_Kind;
  match kind with
  | KByte =>
      x ← getS byteval;
      if byte_val x =? 0 then pure (Err ErrCanonInt)
      else _ ← putS rearm; mret (byte_val x)
  | KString =>
      if maxbits / 8 <? size then pure (Err errUintOverflow)
      else
        v ← catch (readUint size);
        match v with
        | inr err => pure (Err (if String.eqb err ErrCanonSize then ErrCanonInt else err))
        | inl v => if (0 <? size) && (v <? 128) then pure (Err ErrCanonSize) else mret v
        end
  | KList => pure (Err ErrExpectedString)
  end.

(** [geth:rlp/decode.go] Stream.Uint *)
Definition Stream_Uint : StM Stream Z := Stream_uint 64.

(** [geth:rlp/decode.go] Stream.Bool *)
Definition Stream_Bool : StM Stream bool :=
  num ← Stream_uint 8;
  if num =? 0 then mret false
  else if num =? 1 then mret true
  else pure (Err "rlp: invalid boolean value").

(** The size of the inner list is taken off the outer one without a check.
    [geth:rlp/decode.go] Stream.List *)
Definition Stream_List : StM Stream Z :=
  '(kind, size) ← Stream_Kind;
  if negb (bool_decide (kind = KList)) then pure (Err ErrExpectedList)
  else
    '(inList, limit) ← getS listLimit;
    _ ← (if (inList : bool) then putS (set_top (limit -u size)) else mret tt);
    _ ← putS (fun s => set_stack (size :: stack s) s);
    _ ← putS (fun s => set_kind None 0 (kinderr s) s);
    mret size.

(** [geth:rlp/decode.go] Stream.ListEnd *)
Definition Stream_ListEnd : StM Stream unit :=
  '(inList, limit) ← getS listLimit;
  if negb (inList : bool) then pure (Err errNotInList)
  else if 0 <? limit then pure (Err errNotAtEOL)
  else
    _ ← putS (fun s => set_stack (tail (stack s)) s);
    putS (fun s => set_kind None 0 (kinderr s) s).

(** ** Types *)

(** The Go types the package can decode.  A struct has its fields up to the first
    optional one, and the others; the last field may be a [tail].  A pointer
    has the kind of its "nil" tag, if it has one.  Types with a DecodeRLP method
    are left out. *)
Inductive rtype :=
| TRaw
| TUint (bits : Z)
| TBool
| TBigPtr
| TBig
| TString
| TBytes
| TByteArray (n : nat)
| TSlice (t : rtype)
| TTail (t : rtype)
| TArray (n : nat) (t : rtype)
| TStruct (fields optional : list rtype)
| TPtr (nilTag : option Kind) (t : rtype)
| TIface.

(** [geth:rlp/typecache.go] defaultNilKind *)
Definition defaultNilKind (t : rtype) : Kind :=
  match t with
  | TUint _ | TString | TBool | TRaw | TBytes | TByteArray _ => KString
  | _ => KList
  end.

(** The byte the encoder writes for a nil pointer.
    [geth:rlp/encode.go:584-600] nilEncoding *)
Definition nil_encoding (nilTag : option Kind) (t : rtype) : byte :=
  match default (defaultNilKind t) nilTag with KString => to_byte 128 | _ => to_byte 192 end.

(** [reflect.Zero]. *)
Fixpoint zero (t : rtype) : rval :=
  match t with
  | TRaw => RRaw []
  | TUint _ => RUint 0
  | TBool => RBool false
  | TBigPtr => RBigPtr None
  | TBig => RBig 0
  | TString => RString []
  | TBytes => RBytes []
  | TByteArray n => RByteArray (replicate n Byte.x00)
  | TSlice _ => RSlice []
  | TTail _ => RTail []
  | TArray n t => RSlice (replicate n (zero t))
  | TStruct fields optional => RStruct (map zero fields) (map (fun t => (true, zero t)) optional)
  | TPtr nilTag t => RPtr (nil_encoding nilTag t) None
  | TIface => RIface None
  end.

(** [reflect.Value.IsZero] of a decoded value: a slice that was decoded is not
    nil, and the optional fields of a struct say whether they are zero. *)
Fixpoint is_zero (t : rtype) (v : rval) : bool :=
  match t, v with
  | TUint _, RUint i => i =? 0
  | TBool, RBool b => negb b
  | TBig, RBig i => i =? 0
  | TString, RString s => bool_decide (s = [])
  | TByteArray _, RByteArray b => forallb (fun x => byte_val x =? 0) b
  | TArray _ t, RSlice l => forallb (is_zero t) l
  | TStruct fields _, RStruct vs os =>
      (fix all ts vs := match ts, vs with
                        | t :: ts, v :: vs => is_zero t v && all ts vs
                        | _, _ => true
                        end) fields vs && forallb fst os
  | TPtr _ _, RPtr _ None => true
  | _, _ => false
  end.

(** ** Decoders

    The number of bytes of the input bounds the elements of a list and the depth
    of nested lists; it is the argument [fuel]. *)

(** [geth:rlp/decode.go] decodeRawValue *)
Definition decodeRawValue : StM Stream rval := b ← Stream_Raw; mret (RRaw b).

(** [geth:rlp/decode.go] decodeUint *)
Definition decodeUint (bits : Z) : StM Stream rval := num ← wrap (Stream_uint bits); mret (RUint num).

(** [geth:rlp/decode.go] decodeBool *)
Definition decodeBool : StM Stream rval := b ← wrap Stream_Bool; mret (RBool b).

(** [geth:rlp/decode.go] decodeString *)
Definition decodeString : StM Stream rval := b ← wrap Stream_Bytes; mret (RString b).

(** [geth:rlp/decode.go] decodeByteSlice *)
Definition decodeByteSlice : StM Stream rval := b ← wrap Stream_Bytes; mret (RBytes b).

(** The bytes of an integer; the buffer for up to 32 bytes needs no allocation.
    [geth:rlp/decode.go:218-249] decodeBigInt *)
Definition big_buffer : StM Stream bytes :=
  '(kind, size) ← Stream_Kind;
  match kind with
  | KList => pure (Err ErrExpectedString)
  | KByte =>
      x ← getS byteval;
      _ ← putS rearm;
      mret [x]
  | KString =>
      if size =? 0 then _ ← putS rearm; mret []
      else if size <=? 32 then
        buffer ← readFull size;
        if needless_header size buffer then pure (Err ErrCanonSize) else mret buffer
      else
        _ ← make_bytes size;
        readFull size
  end.

(** [geth:rlp/decode.go] decodeBigInt *)
Definition decodeBigInt : StM Stream Z :=
  wrap (buffer ← big_buffer;
        if match buffer with x :: _ => byte_val x =? 0 | [] => false end then pure (Err ErrCanonInt)
        else mret (be_val buffer)).

(** [geth:rlp/decode.go] decodeByteArray *)
Definition decodeByteArray (n : nat) : StM Stream bytes :=
  '(kind, size) ← Stream_Kind;
  match kind with
  | KByte =>
      if (n =? 0)%nat then pure (Err (decodeError "input string too long"))
      else if (1 <? n)%nat then pure (Err (decodeError "input string too short"))
      else
        x ← getS byteval;
        _ ← putS rearm;
        mret [x]
  | KString =>
      if Z.of_nat n <? size then pure (Err (decodeError "input string too long"))
      else if size <? Z.of_nat n then pure (Err (decodeError "input string too short"))
      else
        slice ← readFull (Z.of_nat n);
        if needless_header size slice then pure (Err (wrapStreamError ErrCanonSize)) else mret slice
  | KList => pure (Err (wrapStreamError ErrExpectedString))
  end.

(** Elements up to the end of the list.
    [geth:rlp/decode.go] decodeSliceElems *)
Fixpoint decodeSliceElems (fuel : nat) (elemdec : StM Stream rval) : StM Stream (list rval) :=
  match fuel with
  | O => pure (Panic "out of fuel")
  | S f =>
      v ← catch elemdec;
      match v with
      | inr err => if String.eqb err EOL then mret [] else pure (Err err)
      | inl v => vs ← decodeSliceElems f elemdec; mret (v :: vs)
      end
  end.

(** [geth:rlp/decode.go] decodeListSlice *)
Definition decodeListSlice (fuel : nat) (elemdec : StM Stream rval) : StM Stream (list rval) :=
  size ← wrap Stream_List;
  if size =? 0 then _ ← Stream_ListEnd; mret []
  else
    vs ← decodeSliceElems fuel elemdec;
    _ ← Stream_ListEnd;
    mret vs.

(** [n] elements; a list that ends before is too short. *)
Fixpoint array_elems (n : nat) (elemdec : StM Stream rval) : StM Stream (list rval) :=
  match n with
  | O => mret []
  | S m =>
      v ← catch elemdec;
      match v with
      | inr err => pure (Err (if String.eqb err EOL then decodeError "input list has too few elements" else err))
      | inl v => vs ← array_elems m elemdec; mret (v :: vs)
      end
  end.

(** [geth:rlp/decode.go] decodeListArray *)
Definition decodeListArray (n : nat) (elemdec : StM Stream rval) : StM Stream (list rval) :=
  _ ← wrap Stream_List;
  vs ← array_elems n elemdec;
  _ ← wrap Stream_ListEnd;
  mret vs.

(** The fields that must be there. *)
Fixpoint required_fields (fields : list (StM Stream rval)) : StM Stream (list rval) :=
  match fields with
  | [] => mret []
  | f :: rest =>
      v ← catch f;
      match v with
      | inr err => pure (Err (if String.eqb err EOL then decodeError "too few elements" else err))
      | inl v => vs ← required_fields rest; mret (v :: vs)
      end
  end.

(** [geth:rlp/decode.go] zeroFields *)
Definition zeroFields (fields : list rtype) : list (bool * rval) := map (fun t => (true, zero t)) fields.

(** The fields from the first optional one on; where the list ends, the rest is
    zero. *)
Fixpoint optional_fields (fields : list (rtype * StM Stream rval)) : StM Stream (list (bool * rval)) :=
  match fields with
  | [] => mret []
  | (t, f) :: rest =>
      v ← catch f;
      match v with
      | inr err => if String.eqb err EOL then mret (zeroFields (t :: rest.*1)) else pure (Err err)
      | inl v => vs ← optional_fields rest; mret ((is_zero t v, v) :: vs)
      end
  end.

(** [geth:rlp/decode.go] makeStructDecoder *)
Definition makeStructDecoder (fields : list (StM Stream rval)) (optional : list (rtype * StM Stream rval)) :
    StM Stream rval :=
  _ ← wrap Stream_List;
  vs ← required_fields fields;
  os ← optional_fields optional;
  _ ← wrap Stream_ListEnd;
  mret (RStruct vs os).

(** [geth:rlp/decode.go] makeSimplePtrDecoder *)
Definition makeSimplePtrDecoder (enc : byte) (dec : StM Stream rval) : StM Stream rval :=
  v ← dec; mret (RPtr enc (Some v)).

(** [geth:rlp/decode.go] makeNilPtrDecoder *)
Definition makeNilPtrDecoder (nilKind : Kind) (enc : byte) (dec : StM Stream rval) : StM Stream rval :=
  '(kind, size) ← wrap Stream_Kind;
  if negb (bool_decide (kind = KByte)) && (size =? 0) then
    if negb (bool_decide (kind = nilKind)) then pure (Err (decodeError "wrong kind of empty value"))
    else _ ← putS rearm; mret (RPtr enc None)
  else v ← dec; mret (RPtr enc (Some v)).

(** [geth:rlp/decode.go] makePtrDecoder *)
Definition makePtrDecoder (nilTag : option Kind) (t : rtype) (dec : StM Stream rval) : StM Stream rval :=
  let enc := nil_encoding nilTag t in
  match nilTag with
  | None => makeSimplePtrDecoder enc dec
  | Some nilKind => makeNilPtrDecoder nilKind enc dec
  end.

(** [depth] bounds the nesting.
    [geth:rlp/decode.go] decodeInterface *)
Fixpoint decodeInterface (fuel depth : nat) : StM Stream rval :=
  match depth with
  | O => pure (Panic "out of fuel")
  | S d =>
      '(kind, _) ← Stream_Kind;
      if bool_decide (kind = KList) then
        slice ← decodeListSlice fuel (decodeInterface fuel d);
        mret (RIface (Some (RSlice slice)))
      else
        b ← Stream_Bytes;
        mret (RIface (Some (RBytes b)))
  end.

(** The decoder of each type.
    [geth:rlp/decode.go] makeDecoder *)
Fixpoint decode (fuel : nat) (t : rtype) : StM Stream rval :=
  match t with
  | TRaw => decodeRawValue
  | TUint bits => decodeUint bits
  | TBool => decodeBool
  | TBigPtr => i ← decodeBigInt; mret (RBigPtr (Some i))
  | TBig => i ← decodeBigInt; mret (RBig i)
  | TString => decodeString
  | TBytes => decodeByteSlice
  | TByteArray n => b ← decodeByteArray n; mret (RByteArray b)
  | TSlice t => l ← decodeListSlice fuel (decode fuel t); mret (RSlice l)
  | TTail t => l ← decodeSliceElems fuel (decode fuel t); mret (RTail l)
  | TArray n t => l ← decodeListArray n (decode fuel t); mret (RSlice l)
  | TStruct fields optional =>
      makeStructDecoder (map (decode fuel) fields) (map (fun t => (t, decode fuel t)) optional)
  | TPtr nilTag t => makePtrDecoder nilTag t (decode fuel t)
  | TIface => decodeInterface fuel fuel
  end.

(** [geth:rlp/decode.go] Stream.Decode *)
Definition Stream_Decode (t : rtype) : StM Stream rval := fun s => decode (S (length (r s))) t s.

(** [s] is the stream the pool gives out.
    [geth:rlp/decode.go] Decode *)
Definition Decode (discover : bool) (t : rtype) (b : bytes) (s : Stream) : outcome rval :=
  (Stream_Decode t (Reset discover b 0 s)).1.

(** [geth:rlp/decode.go] DecodeBytes *)
Definition DecodeBytes (t : rtype) (b : bytes) (s : Stream) : outcome rval :=
  let '(v, s') := Stream_Decode t (Reset true b (Z.of_nat (length b)) s) in
  v ← v;
  _ ← ensure (length (r s') =? 0)%nat ErrMoreThanOneValue;
  mret v.
