(* ===== verification/RlpStreamSpec.v ===== *)
(** * Correctness of the RLP stream decoder

    Each decoder reads exactly the encodings of its type: what it accepts is an
    encoding of the value it returns, it accepts every encoding, it stops
    behind it, and at the end of a list it says so without reading.  The limits
    of the enclosing lists can wrap around, which no successful decoding
    survives. *)

From S2P Require Import Prelude BigEndian Rlp RlpSpec RlpStream.

(** ** States of the stream *)

(** The limit is the input that is left, and list limits are machine integers. *)
Record sane (s : Stream) : Prop := {
  sn_limited : limited s = true;
  sn_remaining : remaining s = Z.of_nat (length (r s));
  sn_length : Z.of_nat (length (r s)) <= maxInt64;
  sn_stack : Forall is_u64 (stack s);
}.

(** Between two values. *)
Definition ready (s : Stream) : Prop := sane s /\ s_kind s = None.

(** There is room for [n] bytes in the innermost list. *)
Definition room (s : Stream) (n : nat) : Prop :=
  match stack s with [] => True | l :: _ => Z.of_nat n <= l end.

Definition shrink (n : nat) (st : list Z) : list Z :=
  match st with [] => [] | l :: st => (l - Z.of_nat n) :: st end.

(** The stream after [n] bytes were read. *)
Definition eat (n : nat) (s : Stream) : Stream :=
  {| r := drop n (r s); remaining := remaining s - Z.of_nat n; s_size := s_size s; kinderr := kinderr s;
     stack := shrink n (stack s); s_kind := None; byteval := byteval s; limited := limited s |}.

Lemma room_le s n m : room s n -> (m <= n)%nat -> room s m.
Proof. unfold room. destruct (stack s); [done|]. lia. Qed.

Lemma length_u64 s : sane s -> is_u64 (Z.of_nat (length (r s))).
Proof. intros [_ _ H _]. unfold is_u64, two64, maxInt64 in *. lia. Qed.

Lemma sane_eat n s : sane s -> (n <= length (r s))%nat -> room s n -> sane (eat n s).
Proof.
  intros [H1 H2 H3 H4] Hn Hr. split; cbn; rewrite ?length_drop; [done|lia|lia|].
  unfold room in Hr. destruct (stack s) as [|l st]; [done|]. apply Forall_cons in H4 as [Hl Hst].
  constructor; [|done]. unfold is_u64 in *. lia.
Qed.

Lemma willRead_eq s n :
  sane s -> (n <= length (r s))%nat -> room s n ->
  willRead (Z.of_nat n) s = (Ok tt, set_remaining (remaining s - Z.of_nat n)
                                      (set_stack (shrink n (stack s)) (rearm s))).
Proof.
  intros [H1 H2 H3 H4] Hn Hr. unfold willRead, mbind, StM_bind, putS, getS, listLimit, room in *.
  cbn [stack rearm set_kind]. assert (Z.of_nat n < two64) by (unfold two64, maxInt64 in *; lia).
  destruct (stack s) as [|l st] eqn:Est; cbn.
  - rewrite H1. cbn. rewrite (proj2 (Z.ltb_ge _ _)) by lia.
    rewrite u64_sub_small by (unfold two64, maxInt64 in *; lia).
    unfold set_remaining, set_stack, rearm, set_kind. cbn. by rewrite Est.
  - apply Forall_cons in H4 as [Hl _]. rewrite (proj2 (Z.ltb_ge l _)) by lia. cbn.
    rewrite H1. cbn. rewrite (proj2 (Z.ltb_ge (remaining s) _)) by lia.
    unfold is_u64 in Hl. rewrite !u64_sub_small by (unfold two64, maxInt64 in *; lia).
    unfold set_top, set_remaining, set_stack, rearm, set_kind. cbn. rewrite Est. reflexivity.
Qed.

Lemma willRead_err s n :
  sane s -> ~ ((n <= length (r s))%nat /\ room s n) ->
  exists e s', willRead (Z.of_nat n) s = (Err e, s') /\ e <> EOL.
Proof.
  intros [H1 H2 H3 H4] Hn. unfold willRead, mbind, StM_bind, putS, getS, listLimit, room in *.
  cbn [stack rearm set_kind]. destruct (stack s) as [|l st] eqn:Est; cbn.
  - rewrite H1. cbn. assert (~ (n <= length (r s))%nat) by naive_solver.
    rewrite (proj2 (Z.ltb_lt _ _)) by lia. eauto.
  - destruct (Z.ltb_spec l (Z.of_nat n)); cbn; [eauto|]. rewrite H1. cbn.
    assert (~ (n <= length (r s))%nat) by (intros ?; apply Hn; split; [done|lia]).
    rewrite (proj2 (Z.ltb_lt _ _)) by lia. eauto.
Qed.

Lemma readFull_eq s n :
  sane s -> (n <= length (r s))%nat -> room s n -> readFull (Z.of_nat n) s = (Ok (take n (r s)), eat n s).
Proof.
  intros Hs Hn Hr. unfold readFull. unfold mbind at 1, StM_bind at 1. rewrite willRead_eq by done.
  unfold mbind, StM_bind, getS, putS. cbn. rewrite (proj2 (Z.ltb_ge _ _)) by lia. rewrite Nat2Z.id. reflexivity.
Qed.

Lemma readFull_cases s n :
  sane s ->
  ((n <= length (r s))%nat /\ room s n /\ readFull (Z.of_nat n) s = (Ok (take n (r s)), eat n s)) \/
  (~ ((n <= length (r s))%nat /\ room s n) /\ exists e s', readFull (Z.of_nat n) s = (Err e, s') /\ e <> EOL).
Proof.
  intros Hs. assert (Decision (room s n)) as [Hd|Hd] by (unfold room; destruct (stack s); apply _).
  - destruct (decide (n <= length (r s))%nat) as [Hn|Hn]; [left; split_and!; [done..|by apply readFull_eq]|].
    right. split; [naive_solver|]. destruct (willRead_err s n Hs) as (e & s' & E & He); [naive_solver|].
    exists e, s'. split; [|done]. unfold readFull, mbind, StM_bind. by rewrite E.
  - right. split; [naive_solver|]. destruct (willRead_err s n Hs) as (e & s' & E & He); [naive_solver|].
    exists e, s'. split; [|done]. unfold readFull, mbind, StM_bind. by rewrite E.
Qed.

Lemma readByte_cases s :
  sane s ->
  (exists x rest, r s = x :: rest /\ room s 1 /\ readByte s = (Ok x, eat 1 s)) \/
  (~ ((1 <= length (r s))%nat /\ room s 1) /\ exists e s', readByte s = (Err e, s') /\ e <> EOL).
Proof.
  intros Hs. destruct (readFull_cases s 1 Hs) as [(Hn & Hr & _)|[Hn _]].
  - left. destruct (r s) as [|x rest] eqn:E; [cbn in Hn; lia|]. exists x, rest. split_and!; [done..|].
    unfold readByte. unfold mbind at 1, StM_bind at 1. change 1 with (Z.of_nat 1).
    rewrite willRead_eq by (rewrite ?E; done). unfold mbind, StM_bind, getS, putS. cbn. rewrite E.
    unfold eat. by rewrite E.
  - right. split; [done|]. destruct (willRead_err s 1 Hs Hn) as (e & s' & E & He). exists e, s'. split; [|done].
    unfold readByte, mbind, StM_bind. change 1 with (Z.of_nat 1). by rewrite E.
Qed.

(** Sizes and integers of [n] bytes: no leading zero unless there is only one. *)
Lemma readUint_cases s (n : nat) :
  sane s -> (1 <= n)%nat ->
  ((n <= length (r s))%nat /\ room s n /\ (n = 1%nat \/ canonical (take n (r s))) /\
   readUint (Z.of_nat n) s = (Ok (be_val (take n (r s))), eat n s)) \/
  (~ ((n <= length (r s))%nat /\ room s n /\ (n = 1%nat \/ canonical (take n (r s)))) /\
   exists e s', readUint (Z.of_nat n) s = (Err e, s') /\ e <> EOL).
Proof.
  intros Hs Hn. unfold readUint. rewrite (proj2 (Z.eqb_neq (Z.of_nat n) 0)) by lia.
  destruct (Z.eqb_spec (Z.of_nat n) 1) as [E1|E1].
  - assert (n = 1%nat) as -> by lia. unfold mbind, StM_bind.
    destruct (readByte_cases s Hs) as [(x & rest & E & Hr & Eb)|[Hno (e & s' & Eb & He)]]; rewrite Eb.
    + left. rewrite E. cbn [length]. split_and!; [lia|done|by left|]. cbn. by rewrite Z.add_0_l.
    + right. split; [naive_solver|]. eauto.
  - unfold mbind at 1 3, StM_bind at 1 3.
    destruct (readFull_cases s n Hs) as [(Hl & Hr & Eb)|[Hno (e & s' & Eb & He)]]; rewrite Eb.
    + destruct (take n (r s)) as [|x l] eqn:Et.
      { apply (f_equal length) in Et. rewrite length_take in Et. cbn in Et. lia. }
      unfold mbind, StM_bind, pure. cbn [index lookup list_lookup].
      destruct (Z.eqb_spec (byte_val x) 0) as [Ex|Ex].
      * right. split; [|by eauto]. intros (_ & _ & [->|Hc]); [lia|]. apply Hc. cbn. f_equal. by apply byte_val_inj.
      * left. split_and!; [done..| |done]. right. unfold canonical. cbn. intros [= ->]. by apply Ex.
    + right. split; [naive_solver|]. eauto.
Qed.

(** ** Headers *)

(** [h] is the header of a value of kind [k] with [n] bytes of content; a byte
    below 0x80 is its own header. *)
Definition header (k : Kind) (n : nat) (h : bytes) (x : byte) : Prop :=
  match k with
  | KByte => h = [x] /\ byte_val x < 128 /\ n = 0%nat
  | KString => h = hdr 128 183 n /\ x = Byte.x00
  | KList => h = hdr 192 247 n /\ x = Byte.x00
  end.

Lemma be_bytes_app_prefix n (slen : nat) l rest :
  length (be_bytes n) = slen -> l = be_bytes n ++ rest -> take slen l = be_bytes n /\ (slen <= length l)%nat.
Proof. intros <- ->. rewrite take_app_length, length_app. split; [done|lia]. Qed.

Lemma read_long_cases k s (slen : nat) :
  sane s -> (1 <= slen <= 8)%nat ->
  (exists (n : nat) rest, (56 <= n)%nat /\ Z.of_nat n < two64 /\ length (be_bytes (Z.of_nat n)) = slen /\
     r s = be_bytes (Z.of_nat n) ++ rest /\ room s slen /\
     read_long k (Z.of_nat slen) s = (Ok (k, Z.of_nat n, None), eat slen s)) \/
  ((forall (n : nat) rest, (56 <= n)%nat -> length (be_bytes (Z.of_nat n)) = slen ->
      r s = be_bytes (Z.of_nat n) ++ rest -> ~ room s slen) /\
   exists n e s', read_long k (Z.of_nat slen) s = (Ok (k, n, Some e), s') /\ e <> EOL).
Proof.
  intros Hs Hsl. unfold read_long, mbind, StM_bind, catch.
  destruct (readUint_cases s slen Hs) as [(Hl & Hr & Hc & E)|[Hno (e & s' & E & He)]]; [lia|rewrite E..].
  - set (v := be_val (take slen (r s))) in *. pose proof (be_val_nonneg (take slen (r s))) as Hv0. fold v in Hv0.
    destruct (Z.ltb_spec v 56) as [Hv|Hv].
    + right. split; [|by exists v, ErrCanonSize, (eat slen s)]. intros n rest Hn Hle Er _.
      destruct (be_bytes_app_prefix _ _ _ _ Hle Er) as [Et _]. unfold v in Hv. rewrite Et, be_val_be_bytes in Hv by lia. lia.
    + left. assert (canonical (take slen (r s))) as Hcan.
      { destruct Hc as [->|Hc]; [|done]. unfold v, canonical in *. destruct (r s) as [|x l]; [done|].
        cbn in *. rewrite take_0 in *. cbn in *. intros [= ->]. change (byte_val Byte.x00) with 0 in Hv. lia. }
      exists (Z.to_nat v), (drop slen (r s)). rewrite Z2Nat.id by done. unfold v at 3 4.
      rewrite be_bytes_be_val, take_drop, length_take by done. split_and!; try done; [lia| |lia].
      pose proof (be_val_lt_pow 8 (take slen (r s))) as Hp. change (256 ^ Z.of_nat 8) with two64 in Hp.
      apply Hp. rewrite length_take. lia.
  - right. split; [|by exists 0, e, s']. intros n rest Hn Hle Er Hr. apply Hno.
    destruct (be_bytes_app_prefix _ _ _ _ Hle Er) as [Et Hll]. rewrite Et. split_and!; [done..|].
    right. apply be_bytes_canonical. lia.
Qed.

(** A header by its first byte. *)
Lemma header_first k n h x :
  header k n h x -> Z.of_nat n < two64 ->
  exists b0 tl, h = b0 :: tl /\
  match k with
  | KByte => byte_val b0 < 128 /\ tl = [] /\ n = 0%nat /\ x = b0
  | KString =>
      (byte_val b0 = 128 + Z.of_nat n /\ (n < 56)%nat /\ tl = []) \/
      ((56 <= n)%nat /\ tl = be_bytes (Z.of_nat n) /\ byte_val b0 = 183 + Z.of_nat (length tl) /\
       (1 <= length tl <= 8)%nat)
  | KList =>
      (byte_val b0 = 192 + Z.of_nat n /\ (n < 56)%nat /\ tl = []) \/
      ((56 <= n)%nat /\ tl = be_bytes (Z.of_nat n) /\ byte_val b0 = 247 + Z.of_nat (length tl) /\
       (1 <= length tl <= 8)%nat)
  end.
Proof.
  intros Hh Hn. destruct k; cbn in Hh.
  1: by destruct Hh as (-> & Hx & ->); exists x, []; split_and!.
  all: destruct Hh as [-> _]; destruct (Nat.lt_ge_cases n 56) as [Hs|Hl].
  all: try (rewrite hdr_short by done; eexists _, []; split; [done|]; left; rewrite byte_val_to_byte_small by lia; done).
  all: rewrite hdr_long by done; eexists _, _; split; [done|]; right.
  all: pose proof (be_bytes_len_bounds (Z.of_nat n) ltac:(lia)); rewrite byte_val_to_byte_small by lia; done.
Qed.

Lemma header_length k n h x : header k n h x -> (1 <= length h)%nat.
Proof. destruct k; cbn; [by intros (-> & _)|intros [-> _]; unfold hdr; case_match; cbn; lia..]. Qed.

(** Headers are determined by the input. *)
Lemma header_unique k n h x rest k' n' h' x' rest' :
  header k n h x -> header k' n' h' x' -> Z.of_nat n < two64 -> Z.of_nat n' < two64 ->
  h ++ rest = h' ++ rest' -> k = k' /\ n = n' /\ h = h' /\ x = x'.
Proof.
  intros H H' Hn Hn' E.
  destruct (header_first _ _ _ _ H Hn) as (b & tl & -> & Hb), (header_first _ _ _ _ H' Hn') as (b' & tl' & -> & Hb').
  injection E as <- E.
  assert (k = k' /\ n = n' /\ tl = tl') as (<- & <- & <-).
  { destruct k, k'; repeat match goal with H : _ \/ _ |- _ => destruct H end; destruct_and?; try lia; subst;
      try (split_and!; [done|lia|done]).
    all: apply app_inj_1 in E as [E _]; [|lia]; rewrite E; split_and!; [done| |done].
    all: apply (f_equal be_val) in E; rewrite !be_val_be_bytes in E by lia; lia. }
  split_and!; try done. destruct k; cbn in H, H'.
  - destruct H as ([= <-] & _), H' as ([= <-] & _). done.
  - by destruct H as [_ ->], H' as [_ ->].
  - by destruct H as [_ ->], H' as [_ ->].
Qed.

Lemma eat_eat m n s : eat m (eat n s) = eat (n + m) s.
Proof.
  unfold eat. cbn. rewrite drop_drop. f_equal; [lia|]. destruct (stack s); [done|]. cbn. f_equal. lia.
Qed.

Lemma room_eat s n m : room s n -> room (eat n s) m <-> room s (n + m).
Proof. unfold room, eat. cbn. destruct (stack s); cbn; [done|]. intros. split; lia. Qed.

(** What is at the head of the input: a header within the list, or none. *)
Definition head_or_none (s : Stream) (res : outcome (Kind * Z * option error) * Stream) : Prop :=
  (exists k (n : nat) h x rest, header k n h x /\ Z.of_nat n < two64 /\ r s = h ++ rest /\ room s (length h) /\
     res = (Ok (k, Z.of_nat n, None), set_byteval x (eat (length h) s))) \/
  ((forall k n h x rest, header k n h x -> Z.of_nat n < two64 -> r s = h ++ rest -> ~ room s (length h)) /\
   exists k n e s', res = (Ok (k, n, Some e), s') /\ e <> EOL).

Definition small_tag (k : Kind) : Z := match k with KList => 192 | _ => 128 end.
Definition large_tag (k : Kind) : Z := match k with KList => 247 | _ => 183 end.

Lemma short_branch k s b0 tl :
  k <> KByte -> r s = b0 :: tl -> room s 1 -> 0 <= byte_val b0 - small_tag k < 56 ->
  head_or_none s (Ok (k, byte_val b0 - small_tag k, None), set_byteval Byte.x00 (eat 1 s)).
Proof.
  intros Hk Er Hr Hb. left. exists k, (Z.to_nat (byte_val b0 - small_tag k)), [b0], Byte.x00, tl.
  rewrite Z2Nat.id by lia. split_and!; [|unfold two64; lia|done..].
  destruct k; [done|..]; cbn in *; rewrite hdr_short, Z2Nat.id by lia; (split; [|done]); f_equal;
    rewrite Zplus_minus; by rewrite to_byte_val.
Qed.

Lemma long_branch k s b0 tl (slen : nat) :
  k <> KByte -> sane s -> r s = b0 :: tl -> room s 1 -> (1 <= slen <= 8)%nat ->
  byte_val b0 = large_tag k + Z.of_nat slen ->
  head_or_none s (read_long k (Z.of_nat slen) (set_byteval Byte.x00 (eat 1 s))).
Proof.
  intros Hk Hs Er Hr Hsl Hb. set (s1 := set_byteval Byte.x00 (eat 1 s)).
  assert (sane s1) as Hs1 by (destruct (sane_eat 1 s Hs ltac:(rewrite Er; cbn; lia) Hr); by split).
  assert (r s1 = tl) as Er1 by (cbn; by rewrite Er).
  assert (forall m, room s1 m <-> room s (S m)) as Hroom by (intros m; exact (room_eat s 1 m Hr)).
  destruct (read_long_cases k s1 slen Hs1 Hsl) as [(n & rest & Hn & Hn64 & Hlen & Et & Hr1 & E)|[Hno E]].
  - left. exists k, n, (b0 :: be_bytes (Z.of_nat n)), Byte.x00, rest. rewrite Er1 in Et. cbn [length].
    split_and!; [|done|by rewrite Er, Et|by rewrite Hlen; apply Hroom|].
    + destruct k; [done|..]; cbn in *; rewrite hdr_long, Hlen by done; (split; [|done]); f_equal;
        by rewrite <- Hb, to_byte_val.
    + rewrite E, Hlen. unfold s1. f_equal. change (S slen) with (1 + slen)%nat. by rewrite <- eat_eat.
  - right. split; [|naive_solver]. intros k' n h x rest Hh Hn Eh. rewrite Er in Eh.
    destruct (header_first _ _ _ _ Hh Hn) as (b & t & -> & Hf). injection Eh as <- Eh. cbn [length].
    rewrite <- Hroom. rewrite <- Er1 in Eh.
    destruct k, k'; cbn in Hb; repeat match goal with H : _ \/ _ |- _ => destruct H end; destruct_and?; try done; try lia.
    all: subst t; replace (length (be_bytes (Z.of_nat n))) with slen by lia; eapply Hno; [done| |exact Eh]; lia.
Qed.

(** The header that is read, or none is there. *)
Lemma readKind_cases s : sane s -> head_or_none s (Stream_readKind s).
Proof.
  intros Hs. unfold Stream_readKind. unfold mbind, StM_bind. unfold catch at 1.
  destruct (readByte_cases s Hs) as [(b0 & tl & Er & Hr & E)|[Hno (e & s' & E & He)]]; rewrite E.
  2:{ right. split.
      - intros k n h x rest Hh Hn Er Hr. apply Hno. pose proof (header_length _ _ _ _ Hh).
        split; [rewrite Er, length_app; lia|]. by eapply room_le.
      - cbn. eexists _, _, _, _. split; [done|]. by destruct (_ && _). }
  pose proof (byte_val_range b0) as Hb. unfold putS.
  destruct (Z.ltb_spec (byte_val b0) 128).
  { left. by exists KByte, 0%nat, [b0], b0, tl. }
  destruct (Z.ltb_spec (byte_val b0) 184); [apply (short_branch KString s b0 tl); (done || cbn; lia)|].
  destruct (Z.ltb_spec (byte_val b0) 192).
  { replace (byte_val b0 - 183) with (Z.of_nat (Z.to_nat (byte_val b0 - 183))) by lia.
    apply (long_branch KString s b0 tl); (done || cbn; lia). }
  destruct (Z.ltb_spec (byte_val b0) 248); [apply (short_branch KList s b0 tl); (done || cbn; lia)|].
  replace (byte_val b0 - 247) with (Z.of_nat (Z.to_nat (byte_val b0 - 247))) by lia.
  apply (long_branch KList s b0 tl); (done || cbn; lia).
Qed.

(** ** The value ahead *)

(** A header with its content ahead, as far as [Kind] checks it. *)
Definition head_at (s : Stream) (k : Kind) (n : nat) (h : bytes) (x : byte) : Prop :=
  header k n h x /\ room s (length h) /\ room s n /\
  exists rest, r s = h ++ rest /\ (n <= length rest)%nat.

(** The stream after [Kind] has read the header. *)
Definition ahead (s : Stream) (k : Kind) (n : nat) (h : bytes) (x : byte) : Stream :=
  set_kind (Some k) (Z.of_nat n) None (set_byteval x (eat (length h) s)).

Lemma head_at_u64 s k n h x : sane s -> head_at s k n h x -> Z.of_nat n < two64.
Proof.
  intros Hs (_ & _ & _ & rest & Er & Hn). pose proof (length_u64 s Hs) as [_ H].
  rewrite Er, length_app in H. lia.
Qed.

Lemma Kind_cases s :
  ready s ->
  (exists st, stack s = 0 :: st /\ Stream_Kind s = (Err EOL, s)) \/
  (exists k n h x, head_at s k n h x /\ Stream_Kind s = (Ok (k, Z.of_nat n), ahead s k n h x)) \/
  ((forall k n h x, ~ head_at s k n h x) /\ exists e s', Stream_Kind s = (Err e, s') /\ e <> EOL).
Proof.
  intros [Hs Hk]. unfold Stream_Kind, mbind, StM_bind, getS. rewrite Hk. unfold listLimit.
  destruct (match stack s with [] => _ | _ => _ end) as [inList limit] eqn:El.
  destruct (inList && (limit =? 0)) eqn:Ez.
  { left. destruct (stack s) as [|l st]; [by injection El as <- <-|]. injection El as <- <-. cbn in Ez.
    apply Z.eqb_eq in Ez as ->. by exists st. }
  right. destruct (readKind_cases s Hs) as [(k & n & h & x & rest & Hh & Hn & Er & Hr & E)|[Hno (k & n & e & s' & E & He)]]; rewrite E.
  2:{ right. split; [|by eauto]. intros k' n' h x Hh. pose proof (head_at_u64 s _ _ _ _ Hs Hh).
      destruct Hh as (Hh & Hr & _ & rest & Er & _). by eapply Hno. }
  cbn [limited remaining set_byteval eat putS pure]. rewrite (sn_limited _ Hs), (sn_remaining _ Hs), Er. cbn [andb].
  assert (Z.of_nat (length (h ++ rest)) - Z.of_nat (length h) = Z.of_nat (length rest)) as -> by (rewrite length_app; lia).
  assert (room s n <-> (inList && (limit <? Z.of_nat n)) = false) as Hroom.
  { unfold room. destruct (stack s); injection El as <- <-; cbn; [done|]. symmetry. apply Z.ltb_ge. }
  assert (forall k' n' h' x', head_at s k' n' h' x' -> n' = n) as Hun.
  { intros k' n' h' x' Hh'. pose proof (head_at_u64 s _ _ _ _ Hs Hh'). destruct Hh' as (Hh' & _ & _ & rest' & Er' & _).
    rewrite Er in Er'. by destruct (header_unique _ _ _ _ _ _ _ _ _ _ Hh Hh' Hn ltac:(lia) Er') as (_ & -> & _). }
  destruct (inList && (limit <? Z.of_nat n)) eqn:E1.
  { right. split; [|by eauto]. intros k' n' h' x' Hh'. rewrite (Hun _ _ _ _ Hh') in Hh'.
    destruct Hh' as (_ & _ & Hr' & _). by apply Hroom in Hr'. }
  destruct (Z.ltb_spec (Z.of_nat (length rest)) (Z.of_nat n)).
  { right. split; [|by eauto]. intros k' n' h' x' Hh'. pose proof (Hun _ _ _ _ Hh') as ->.
    pose proof (head_at_u64 s _ _ _ _ Hs Hh'). destruct Hh' as (Hh' & _ & _ & rest' & Er' & Hl). rewrite Er in Er'.
    destruct (header_unique _ _ _ _ _ _ _ _ _ _ Hh Hh' Hn ltac:(lia) Er') as (_ & _ & <- & _).
    apply app_inv_head in Er' as <-. lia. }
  left. exists k, n, h, x. split; [|done]. split_and!; [done|done|by apply Hroom|]. exists rest. split; [done|lia].
Qed.

Lemma head_at_unique s k n h x k' n' h' x' :
  sane s -> head_at s k n h x -> head_at s k' n' h' x' -> k = k' /\ n = n' /\ h = h' /\ x = x'.
Proof.
  intros Hs H H'. pose proof (head_at_u64 s _ _ _ _ Hs H). pose proof (head_at_u64 s _ _ _ _ Hs H').
  destruct H as (H & _ & _ & rest & Er & _), H' as (H' & _ & _ & rest' & Er' & _). rewrite Er in Er'.
  by eapply header_unique.
Qed.

Lemma Kind_head s k n h x :
  ready s -> head_at s k n h x -> Stream_Kind s = (Ok (k, Z.of_nat n), ahead s k n h x).
Proof.
  intros Hs Hh. destruct (Kind_cases s Hs) as [(st & Est & _)|[(k' & n' & h' & x' & Hh' & E)|[Hno _]]].
  - exfalso. destruct Hh as (Hh & Hr & _). apply header_length in Hh. unfold room in Hr. rewrite Est in Hr. lia.
  - by destruct (head_at_unique s _ _ _ _ _ _ _ _ (proj1 Hs) Hh Hh') as (-> & -> & -> & ->).
  - by destruct (Hno _ _ _ _ Hh).
Qed.

Lemma Kind_end s st : ready s -> stack s = 0 :: st -> Stream_Kind s = (Err EOL, s).
Proof. intros [_ Hk] Est. unfold Stream_Kind, mbind, StM_bind, getS, listLimit. by rewrite Hk, Est. Qed.

(** Asking again gives the same answer. *)
Lemma Kind_again s kn s1 : Stream_Kind s = (Ok kn, s1) -> Stream_Kind s1 = (Ok kn, s1).
Proof.
  unfold Stream_Kind, mbind, StM_bind, getS, pure, putS. destruct (s_kind s) as [k|] eqn:Ek.
  - destruct (kinderr s) eqn:Ee; [done|]. intros [= <- <-]. by rewrite Ek, Ee.
  - destruct (listLimit s) as [inList limit]. destruct (_ && _); [done|].
    destruct (Stream_readKind s) as [[[[k n] e]|?|?] s']; [|done..]. cbn.
    destruct e; [done|]. destruct (_ && _); [done|]. destruct (_ && _); [done|]. intros [= <- <-]. done.
Qed.

(** A header and as much content as it announces. *)
Definition is_value (b : bytes) : Prop :=
  exists k n h x c, header k n h x /\ b = h ++ c /\ length c = n.

Lemma is_value_length b : is_value b -> (1 <= length b)%nat.
Proof. intros (k & n & h & x & c & Hh & -> & _). apply header_length in Hh. rewrite length_app. lia. Qed.

Lemma rlp_list_value p : is_value (rlp_list p).
Proof. by exists KList, (length p), (hdr 192 247 (length p)), Byte.x00, p. Qed.

(** ** Parsers *)

(** What the enclosing lists still expect, beyond the input that is left.  Reading
    in a list does not change it; where the size of an inner list is taken off
    an outer one that is smaller, it jumps above zero, and stays there. *)
Definition debt (s : Stream) : Z := foldr Z.add 0 (stack s) - Z.of_nat (length (r s)).

(** [b] was read. *)
Definition moved (b : bytes) (s s' : Stream) : Prop :=
  ready s' /\ r s = b ++ r s' /\ room s (length b) /\ stack s' = shrink (length b) (stack s).

(** A parser of single values may find the end of the list; one of fields does
    not; one of the rest of a list reads the list to its end. *)
Inductive mode := Value | Fields | Rest.

(** [m] reads the encodings [R], in inputs of less than [N] bytes. *)
Record parses (N : nat) (md : mode) {A} (m : StM Stream A) (R : A -> bytes -> Prop) : Prop := {
  p_total s : ready s -> (length (r s) < N)%nat ->
    match m s with
    | (Ok _, s') => ready s' /\ debt s <= debt s' /\ (length (r s') <= length (r s))%nat /\
                    length (stack s') = length (stack s)
    | (Err e, s') => e = EOL -> md = Value /\ s' = s /\ exists st, stack s = 0 :: st
    | (Panic _, _) => False
    end;
  p_sound s a s' : ready s -> (length (r s) < N)%nat -> m s = (Ok a, s') -> debt s' <= 0 ->
    exists b, R a b /\ moved b s s';
  p_complete s a b rest : ready s -> (length (r s) < N)%nat -> debt s <= 0 -> R a b -> r s = b ++ rest ->
    room s (length b) -> (md = Rest -> exists st, stack s = Z.of_nat (length b) :: st) ->
    exists s', m s = (Ok a, s') /\ moved b s s';
}.

(** A parser of single values: it reads a value, notices the end of a list, and
    may be preceded by a look at the kind. *)
Record reader (N : nat) {A} (m : StM Stream A) (R : A -> bytes -> Prop) : Prop := {
  rd_parses : parses N Value m R;
  rd_reads s a s' : ready s -> (length (r s) < N)%nat -> m s = (Ok a, s') -> (length (r s') < length (r s))%nat;
  rd_value a b : R a b -> is_value b;
  rd_end s st : ready s -> (length (r s) < N)%nat -> stack s = 0 :: st -> m s = (Err EOL, s);
  rd_peek s kn s1 : ready s -> (length (r s) < N)%nat -> Stream_Kind s = (Ok kn, s1) -> m s1 = m s;
}.

Lemma debt_shrink n st l : st <> [] -> foldr Z.add 0 (shrink n st) - l = foldr Z.add 0 st - (Z.of_nat n + l).
Proof. destruct st; [done|]. cbn. lia. Qed.

Lemma moved_debt b s s' : moved b s s' -> debt s <= debt s'.
Proof.
  intros (_ & Er & _ & Es). unfold debt. rewrite Er, Es, length_app. destruct (stack s) as [|l st] eqn:E; cbn; lia.
Qed.

Lemma moved_within b s s' : moved b s s' -> debt s <= 0 -> debt s' <= 0.
Proof.
  intros (_ & Er & _ & Es). unfold debt. rewrite Er, Es, length_app. destruct (stack s) as [|l st] eqn:E; cbn; lia.
Qed.

Lemma moved_total b s s' :
  moved b s s' -> ready s' /\ debt s <= debt s' /\ (length (r s') <= length (r s))%nat /\
                  length (stack s') = length (stack s).
Proof.
  intros H. pose proof (moved_debt _ _ _ H). destruct H as (H & Er & _ & Es). split_and!; [done..|rewrite Er, length_app; lia|].
  rewrite Es. by destruct (stack s).
Qed.

Lemma moved_trans b c s s1 s2 : moved b s s1 -> moved c s1 s2 -> moved (b ++ c) s s2.
Proof.
  intros (_ & Er & Hr & Es) (H2 & Er2 & Hr2 & Es2). split_and!; [done|by rewrite Er, Er2, app_assoc| |].
  - unfold room in *. rewrite Es in Hr2. rewrite length_app. destruct (stack s); cbn in *; [done|lia].
  - rewrite Es2, Es, length_app. destruct (stack s); cbn; [done|]. f_equal. lia.
Qed.

Lemma moved_refl s : ready s -> moved [] s s.
Proof.
  intros Hs. split_and!; [done|done| |].
  - pose proof (sn_stack _ (proj1 Hs)) as H. unfold room. destruct (stack s); [done|].
    apply Forall_cons in H as [H _]. unfold is_u64 in H. cbn. lia.
  - destruct (stack s); [done|]. cbn. by rewrite Z.sub_0_r.
Qed.

(** The contents behind a header. *)
Lemma ready_ahead s k n h x : ready s -> head_at s k n h x -> sane (ahead s k n h x).
Proof.
  intros [Hs _] (_ & Hr & _ & rest & Er & _).
  destruct (sane_eat (length h) s Hs ltac:(rewrite Er, length_app; lia) Hr). by split.
Qed.

Lemma moved_eat s k n h x :
  ready s -> head_at s k n h x -> room s (length h + n) ->
  exists c, length c = n /\ r (ahead s k n h x) = c ++ r (eat n (ahead s k n h x)) /\
    moved (h ++ c) s (eat n (ahead s k n h x)).
Proof.
  intros Hs Hh Hr. pose proof (ready_ahead _ _ _ _ _ Hs Hh) as Ha. destruct Hh as (Hh & Hrh & _ & rest & Er & Hn).
  set (s1 := ahead s k n h x) in *.
  assert (r s1 = rest) as Er1 by (cbn; by rewrite Er, drop_app_length).
  exists (take n rest). cbn [r eat]. rewrite Er1, take_drop, length_take. split_and!; [lia|done|].
  assert (room s1 n) as Hr1 by (by apply (room_eat s (length h) n)).
  assert (length (h ++ take n rest) = length h + n)%nat as El by (rewrite length_app, length_take; lia).
  split_and!; [split; [by apply sane_eat; [|rewrite Er1|]|done]| |by rewrite El|].
  - cbn [r eat]. by rewrite Er1, <- app_assoc, take_drop.
  - rewrite El. cbn. destruct (stack s); cbn; [done|]. f_equal. lia.
Qed.

Lemma ahead_read s k n h x :
  ready s -> head_at s k n h x ->
  (exists c s', length c = n /\ readFull (Z.of_nat n) (ahead s k n h x) = (Ok c, s') /\ moved (h ++ c) s s') \/
  (~ room s (length h + n) /\
   exists e s', readFull (Z.of_nat n) (ahead s k n h x) = (Err e, s') /\ e <> EOL).
Proof.
  intros Hs Hh. pose proof (ready_ahead _ _ _ _ _ Hs Hh) as Ha.
  assert (room (ahead s k n h x) n <-> room s (length h + n)) as Hroom
    by (destruct Hh as (_ & Hr & _); exact (room_eat s (length h) n Hr)).
  destruct (readFull_cases _ n Ha) as [(Hl & Hr & E)|[Hno E]].
  - left. apply Hroom in Hr. destruct (moved_eat s k n h x Hs Hh Hr) as (c & Hc & Er & Hm).
    exists c, (eat n (ahead s k n h x)). split_and!; [done| |done]. rewrite E, Er, <- Hc. by rewrite take_app_length.
  - right. split; [|done]. rewrite <- Hroom. intros Hr. apply Hno. split; [|done].
    destruct Hh as (_ & _ & _ & rest & Er & Hn). cbn. by rewrite Er, drop_app_length.
Qed.

(** ** Decisions by the kind of the value *)

Lemma value_head s b rest :
  is_value b -> r s = b ++ rest -> room s (length b) ->
  exists k n h x c, head_at s k n h x /\ b = h ++ c /\ length c = n /\ r s = h ++ c ++ rest.
Proof.
  intros (k & n & h & x & c & Hh & -> & Hc) Er Hr. exists k, n, h, x, c. rewrite length_app in Hr.
  split_and!; [|done..|by rewrite app_assoc]. split_and!; [done|eapply room_le; [exact Hr|lia]..|].
  exists (c ++ rest). rewrite length_app. split; [by rewrite app_assoc|lia].
Qed.

(** What a decoder does after it looked at the kind. *)
Record runs_at (N : nat) {A} (f : Kind * Z -> StM Stream A) (R : A -> bytes -> Prop) : Prop := {
  ra_total s k n h x : ready s -> (length (r s) < N)%nat -> head_at s k n h x ->
    match f (k, Z.of_nat n) (ahead s k n h x) with
    | (Ok a, s') => ready s' /\ debt s <= debt s' /\ (length (r s') < length (r s))%nat /\
                    length (stack s') = length (stack s) /\ (debt s' <= 0 -> exists b, R a b /\ moved b s s')
    | (Err e, _) => e <> EOL
    | (Panic _, _) => False
    end;
  ra_complete s k n h x a b rest : ready s -> (length (r s) < N)%nat -> head_at s k n h x -> debt s <= 0 -> R a b ->
    r s = b ++ rest -> room s (length b) ->
    exists s', f (k, Z.of_nat n) (ahead s k n h x) = (Ok a, s') /\ moved b s s';
}.

Lemma reader_dispatch N {A} (f : Kind * Z -> StM Stream A) R :
  runs_at N f R -> (forall a b, R a b -> is_value b) -> reader N (Stream_Kind ≫= f) R.
Proof.
  intros [Ht Hc] Hval.
  assert (forall s, ready s -> (length (r s) < N)%nat ->
    (exists st, stack s = 0 :: st /\ (Stream_Kind ≫= f) s = (Err EOL, s)) \/
    match (Stream_Kind ≫= f) s with
    | (Ok a, s') => ready s' /\ debt s <= debt s' /\ (length (r s') < length (r s))%nat /\
                    length (stack s') = length (stack s) /\ (debt s' <= 0 -> exists b, R a b /\ moved b s s')
    | (Err e, _) => e <> EOL
    | (Panic _, _) => False
    end) as Hrun.
  { intros s Hs HN. unfold mbind, StM_bind.
    destruct (Kind_cases s Hs) as [(st & Est & ->)|[(k & n & h & x & Hh & ->)|[_ (e & s' & -> & He)]]]; [by left; exists st| |by right].
    right. by apply Ht. }
  split; [split| | | |].
  - intros s Hs HN. destruct (Hrun s Hs HN) as [(st & Est & ->)|H]; [by eauto|].
    destruct ((Stream_Kind ≫= f) s) as [[a|e|p] s']; [|done..]. destruct H as (? & ? & ? & ? & _). split_and!; (done || lia).
  - intros s a s' Hs HN E Hd. destruct (Hrun s Hs HN) as [(st & _ & E')|H]; [congruence|]. rewrite E in H. by apply H.
  - intros s a b rest Hs HN Hd HR Er Hr _.
    destruct (value_head s b rest (Hval _ _ HR) Er Hr) as (k & n & h & x & c & Hh & _).
    unfold mbind, StM_bind. rewrite (Kind_head s k n h x Hs Hh). by eapply Hc.
  - intros s a s' Hs HN E. destruct (Hrun s Hs HN) as [(st & _ & E')|H]; [congruence|]. rewrite E in H. by apply H.
  - done.
  - intros s st Hs _ Est. unfold mbind, StM_bind. by rewrite (Kind_end s st Hs Est).
  - intros s kn s1 _ _ E. unfold mbind, StM_bind. by rewrite (Kind_again _ _ _ E), E.
Qed.

(** A reader behind the look at the kind. *)
Lemma reader_runs_at N {A} (m : StM Stream A) R : reader N m R -> runs_at N (fun _ => m) R.
Proof.
  intros Hm. split.
  - intros s k n h x Hs HN Hh. rewrite (rd_peek _ _ _ Hm s _ _ Hs HN (Kind_head s k n h x Hs Hh)).
    pose proof (p_total _ _ _ _ (rd_parses _ _ _ Hm) s Hs HN) as Ht.
    pose proof (p_sound _ _ _ _ (rd_parses _ _ _ Hm) s) as Hsnd. pose proof (rd_reads _ _ _ Hm s) as Hrd.
    destruct (m s) as [[a|e|p] s']; [|intros ->|done].
    + destruct Ht as (? & ? & ? & ?). split_and!; try done; [by eapply Hrd|]. intros Hd. by apply Hsnd.
    + destruct (Ht eq_refl) as (_ & _ & st & Est). destruct Hh as (Hh & Hr & _). apply header_length in Hh.
      unfold room in Hr. rewrite Est in Hr. lia.
  - intros s k n h x a b rest Hs HN Hh Hd HR Er Hr. rewrite (rd_peek _ _ _ Hm s _ _ Hs HN (Kind_head s k n h x Hs Hh)).
    by eapply (p_complete _ _ _ _ (rd_parses _ _ _ Hm)).
Qed.

(** ** Single values *)

(** What a decoder does behind the header: it reads the content and accepts it, or
    nothing it may accept is there. *)
Definition content_spec {A} (f : Kind * Z -> StM Stream A) (R : A -> bytes -> Prop) : Prop :=
  forall s k n h x, ready s -> head_at s k n h x ->
  (exists a c s', length c = n /\ f (k, Z.of_nat n) (ahead s k n h x) = (Ok a, s') /\ moved (h ++ c) s s' /\
     R a (h ++ c)) \/
  ((forall a c rest, length c = n -> r s = h ++ c ++ rest -> room s (length (h ++ c)) -> ~ R a (h ++ c)) /\
   exists e s', f (k, Z.of_nat n) (ahead s k n h x) = (Err e, s') /\ e <> EOL).

Lemma content_runs_at N {A} (f : Kind * Z -> StM Stream A) (R : A -> bytes -> Prop) :
  (forall a b, R a b -> is_value b) ->
  (forall a a' b, Z.of_nat (length b) < two64 -> R a b -> R a' b -> a = a') ->
  content_spec f R -> runs_at N f R.
Proof.
  intros Hval Hfun Hf. split.
  - intros s k n h x Hs _ Hh. pose proof (header_length _ _ _ _ (proj1 Hh)) as Hlh.
    destruct (Hf s k n h x Hs Hh) as [(a & c & s' & _ & -> & Hm & HR)|[_ (e & s' & -> & He)]]; [|done].
    destruct (moved_total _ _ _ Hm) as (? & ? & _ & ?). pose proof Hm as (_ & Er & _).
    split_and!; try done; [rewrite Er, !length_app; lia|]. by eauto.
  - intros s k n h x a b rest Hs _ Hh _ HR Er Hr.
    destruct (value_head s b rest (Hval _ _ HR) Er Hr) as (k' & n' & h' & x' & c & Hh' & -> & Hc & Er').
    destruct (head_at_unique s _ _ _ _ _ _ _ _ (proj1 Hs) Hh' Hh) as (-> & -> & -> & ->).
    destruct (Hf s k n h x Hs Hh) as [(a' & c' & s' & Hc' & E' & Hm & HR')|[Hno _]]; [|by destruct (Hno a c rest)].
    pose proof Hm as (_ & Em & _). rewrite Er', <- app_assoc in Em. apply app_inv_head in Em.
    apply app_inj_1 in Em as [<- _]; [|lia]. exists s'. split; [|done]. rewrite E'. do 2 f_equal.
    apply (Hfun _ _ (h ++ c)); [|done..]. pose proof (length_u64 s (proj1 Hs)) as [_ Hu].
    rewrite Er', !length_app in Hu. rewrite length_app. lia.
Qed.

Lemma rlp_str_cases b :
  (exists x, b = [x] /\ byte_val x < 128 /\ rlp_str b = [x]) \/
  (~ small_byte b /\ rlp_str b = hdr 128 183 (length b) ++ b).
Proof.
  destruct (rlp_str_tag b) as (k & Hk & Hok & E). destruct k; cbn in *; [|by right|done].
  left. destruct Hok as (x & -> & Hx). by exists x.
Qed.

Lemma rlp_str_value b : is_value (rlp_str b).
Proof.
  destruct (rlp_str_cases b) as [(x & -> & Hx & E)|[_ E]]; rewrite E.
  - exists KByte, 0%nat, [x], x, []. split_and!; [done|by rewrite app_nil_r|done].
  - by exists KString, (length b), (hdr 128 183 (length b)), Byte.x00, b.
Qed.

Lemma rlp_str_inj b b' : Z.of_nat (length (rlp_str b)) < two64 -> rlp_str b = rlp_str b' -> b = b'.
Proof.
  intros Hl E. destruct (rlp_prefix_free (Str b) (Str b') [] []) as [[= ->] _]; cbn; rewrite ?app_nil_r; done.
Qed.

(** The strings a header and a content can be the encoding of. *)
Lemma rlp_str_split k n h x c b :
  header k n h x -> Z.of_nat (length (h ++ c)) < two64 -> length c = n -> rlp_str b = h ++ c ->
  match k with KByte => b = [x] | KString => b = c /\ ~ small_byte c | KList => False end.
Proof.
  intros Hh Hl Hc E. assert (Z.of_nat n < two64) as Hn by (rewrite length_app in Hl; lia).
  destruct (rlp_str_cases b) as [(y & -> & Hy & Eb)|[Hs Eb]]; rewrite Eb in E.
  - destruct (header_unique KByte 0 [y] y [] _ _ _ _ _ ltac:(done) Hh ltac:(done) Hn E) as (<- & _ & _ & ->). done.
  - assert (Z.of_nat (length b) < two64) as Hb.
    { rewrite <- E, length_app in Hl. lia. }
    destruct (header_unique KString (length b) _ Byte.x00 b _ _ _ _ _ ltac:(by split) Hh Hb Hn E) as (<- & <- & <- & _).
    apply app_inv_head in E as ->. done.
Qed.

Lemma needless_small c : needless_header (Z.of_nat (length c)) c = true <-> small_byte c.
Proof.
  unfold needless_header, small_byte. rewrite andb_true_iff, Z.eqb_eq.
  destruct c as [|x [|y c]]; cbn; [naive_solver lia| |naive_solver lia].
  rewrite Z.ltb_lt. split; [intros [_ H]; by exists x|]. by intros (z & [= <-] & H).
Qed.

Lemma rearm_eat s : rearm s = eat 0 s.
Proof.
  unfold rearm, set_kind, eat. rewrite drop_0, Z.sub_0_r. f_equal. destruct (stack s); [done|]. cbn. by rewrite Z.sub_0_r.
Qed.

(** Values without content. *)
Lemma moved_rearm s k h x : ready s -> head_at s k 0 h x -> moved h s (rearm (ahead s k 0 h x)).
Proof.
  intros Hs Hh. destruct (moved_eat s k 0 h x Hs Hh) as (c & Hc & _ & Hm).
  - destruct Hh as (_ & Hr & _). by rewrite Nat.add_0_r.
  - destruct c; [|done]. by rewrite app_nil_r, <- rearm_eat in Hm.
Qed.

Lemma input_u64 s h c rest : ready s -> r s = h ++ c ++ rest -> Z.of_nat (length (h ++ c)) < two64.
Proof. intros [Hs _] E. pose proof (length_u64 s Hs) as [_ H]. rewrite E, !length_app in H. rewrite length_app. lia. Qed.

(** Decoders of strings: the content is checked by [P] and converted by [g]. *)
Definition string_rel {A} (P : bytes -> Prop) (g : bytes -> A) (a : A) (e : bytes) : Prop :=
  exists b, a = g b /\ P b /\ e = rlp_str b.

Lemma string_rel_value {A} P (g : bytes -> A) a e : string_rel P g a e -> is_value e.
Proof. intros (b & _ & _ & ->). apply rlp_str_value. Qed.

Lemma string_rel_fun {A} P (g : bytes -> A) a a' e :
  Z.of_nat (length e) < two64 -> string_rel P g a e -> string_rel P g a' e -> a = a'.
Proof. intros Hl (b & -> & _ & E) (b' & -> & _ & E'). subst e. by rewrite (rlp_str_inj b b'). Qed.

(** A decoder of strings, from what it does with a byte, a content and a list. *)
Lemma reader_string N {A} (f : Kind * Z -> StM Stream A) P (g : bytes -> A) :
  (forall s h x, ready s -> head_at s KByte 0 h x ->
     (P [x] /\ f (KByte, 0) (ahead s KByte 0 h x) = (Ok (g [x]), rearm (ahead s KByte 0 h x))) \/
     (~ P [x] /\ exists e s', f (KByte, 0) (ahead s KByte 0 h x) = (Err e, s') /\ e <> EOL)) ->
  (forall s n h x, ready s -> head_at s KString n h x ->
     (exists c s', length c = n /\ P c /\ ~ small_byte c /\
        f (KString, Z.of_nat n) (ahead s KString n h x) = (Ok (g c), s') /\ moved (h ++ c) s s') \/
     ((forall c rest, length c = n -> r s = h ++ c ++ rest -> room s (length (h ++ c)) -> ~ small_byte c -> ~ P c) /\
      exists e s', f (KString, Z.of_nat n) (ahead s KString n h x) = (Err e, s') /\ e <> EOL)) ->
  (forall s n, exists e, f (KList, n) s = (Err e, s) /\ e <> EOL) ->
  reader N (Stream_Kind ≫= f) (string_rel P g).
Proof.
  intros Hb Hs Hl.
  apply reader_dispatch, string_rel_value. apply content_runs_at; [apply string_rel_value|apply string_rel_fun|].
  intros s k n h x Hrd Hh. pose proof Hh as [Hhd _].
  assert (forall a c rest, length c = n -> r s = h ++ c ++ rest -> string_rel P g a (h ++ c) ->
    match k with KByte => a = g [x] /\ P [x] | KString => a = g c /\ P c /\ ~ small_byte c | KList => False end) as Hsp.
  { intros a c rest Hc Er (b & -> & Hp & E). pose proof (rlp_str_split _ _ _ _ _ _ Hhd (input_u64 _ _ _ _ Hrd Er) Hc (eq_sym E)).
    destruct k; destruct_and?; by subst. }
  destruct k.
  - destruct Hhd as (Eh & Hx & ->). destruct (Hb s h x Hrd Hh) as [[Hp E]|[Hp E]].
    + left. exists (g [x]), [], (rearm (ahead s KByte 0 h x)). rewrite app_nil_r. split_and!; [done..|by apply moved_rearm|].
      exists [x]. split_and!; [done..|]. subst h. cbn. by destruct (Z.ltb_spec (byte_val x) 128); [|lia].
    + right. split; [|done]. intros a c rest Hc Er _ HR. by destruct (Hsp a c rest Hc Er HR).
  - destruct (Hs s n h x Hrd Hh) as [(c & s' & Hc & Hp & Hns & E & Hm)|[Hno E]].
    + left. exists (g c), c, s'. split_and!; [done..|]. exists c. split_and!; [done..|].
      destruct Hhd as [-> _]. destruct (rlp_str_cases c) as [(y & -> & Hy & _)|[_ ->]]; [|by rewrite Hc].
      destruct Hns. by exists y.
    + right. split; [|done]. intros a c rest Hc Er Hr HR. destruct (Hsp a c rest Hc Er HR) as (_ & Hp & Hns).
      by apply (Hno c rest).
  - right. split; [|destruct (Hl (ahead s KList n h x) (Z.of_nat n)) as (e & E & He); by eauto].
    intros a c rest Hc Er _ HR. by apply (Hsp a c rest).
Qed.

(** *** Strings, integers and raw values *)

Lemma make_bytes_ok n s : Z.of_nat n <= maxInt64 -> make_bytes (Z.of_nat n) s = (Ok tt, s).
Proof. intros H. unfold make_bytes, pure. by rewrite (proj2 (Z.ltb_ge _ _)). Qed.

Lemma head_at_length s k n h x : ready s -> head_at s k n h x -> Z.of_nat (length h + n) <= maxInt64.
Proof.
  intros [Hs _] (_ & _ & _ & rest & Er & Hn). pose proof (sn_length _ Hs) as H. rewrite Er, length_app in H. lia.
Qed.

(** Reading the content into a buffer and refusing a needless header. *)
Lemma checked_read s n h x (m : StM Stream bytes) :
  ready s -> head_at s KString n h x ->
  (forall s1, m s1 = (b ← readFull (Z.of_nat n);
                      if needless_header (Z.of_nat n) b then pure (Err ErrCanonSize) else mret b) s1) ->
  (exists c s', length c = n /\ True /\ ~ small_byte c /\ m (ahead s KString n h x) = (Ok c, s') /\ moved (h ++ c) s s') \/
  ((forall c rest, length c = n -> r s = h ++ c ++ rest -> room s (length (h ++ c)) -> ~ small_byte c -> ~ True) /\
   exists e s', m (ahead s KString n h x) = (Err e, s') /\ e <> EOL).
Proof.
  intros Hs Hh Hm. rewrite Hm. unfold mbind, StM_bind.
  destruct (ahead_read s KString n h x Hs Hh) as [(c & s' & Hc & E & Hmv)|[Hno (e & s' & E & He)]]; rewrite E.
  - destruct (needless_header (Z.of_nat n) c) eqn:En.
    + right. split; [|by eauto]. intros c' rest Hc' Er _ Hns. destruct Hns. apply needless_small.
      destruct Hmv as (_ & Em & _). rewrite Er, <- app_assoc in Em. apply app_inv_head in Em.
      apply app_inj_1 in Em as [-> _]; [|lia]. by rewrite Hc.
    + left. exists c, s'. split_and!; try done. intros Hsm. apply needless_small in Hsm. by rewrite Hc, En in Hsm.
  - right. split; [|by eauto]. intros c rest Hc Er Hr. rewrite length_app, Hc in Hr. done.
Qed.

Lemma reader_Bytes N : reader N Stream_Bytes (string_rel (fun _ => True) id).
Proof.
  apply reader_string.
  - intros s h x Hs Hh. by left.
  - intros s n h x Hs Hh. pose proof (head_at_length _ _ _ _ _ Hs Hh). apply checked_read; [done..|]. intros s1.
    unfold mbind at 1, StM_bind at 1. rewrite make_bytes_ok by lia. done.
  - intros s n. by eexists.
Qed.

Lemma reader_big_buffer N : reader N big_buffer (string_rel (fun _ => True) id).
Proof.
  apply reader_string.
  - intros s h x Hs Hh. by left.
  - intros s n h x Hs Hh. pose proof (head_at_length _ _ _ _ _ Hs Hh).
    destruct (decide (n = 0%nat)) as [->|Hn].
    { left. exists [], (rearm (ahead s KString 0 h x)). rewrite app_nil_r.
      split_and!; [done|done|by intros (? & ? & _)|done|by apply moved_rearm]. }
    apply checked_read; [done..|]. intros s1. rewrite (proj2 (Z.eqb_neq _ _)) by lia.
    destruct (Z.leb_spec (Z.of_nat n) 32); [done|].
    unfold mbind, StM_bind. rewrite make_bytes_ok by lia. destruct (readFull _ s1) as [[b|e|p] s2]; [|done..].
    unfold needless_header. by rewrite (proj2 (Z.eqb_neq (Z.of_nat n) 1)) by lia.
  - intros s n. by eexists.
Qed.

Lemma reader_decodeByteArray N (n : nat) : reader N (decodeByteArray n) (string_rel (fun b => length b = n) id).
Proof.
  apply reader_string.
  - intros s h x Hs Hh. destruct n as [|[|n]]; cbn; [right|by left|right]; (split; [done|by eauto]).
  - intros s m h x Hs Hh. destruct (Z.ltb_spec (Z.of_nat n) (Z.of_nat m)).
    { right. split; [intros c rest Hc _ _ _; lia|by eauto]. }
    destruct (Z.ltb_spec (Z.of_nat m) (Z.of_nat n)).
    { right. split; [intros c rest Hc _ _ _; lia|by eauto]. }
    assert (m = n) as -> by lia.
    destruct (checked_read s n h x (b ← readFull (Z.of_nat n);
      if needless_header (Z.of_nat n) b then pure (Err ErrCanonSize) else mret b) Hs Hh) as [(c & s' & Hc & _ & Hns & E & Hm)|[Hno (e & s' & E & He)]]; [done|..];
      revert E; unfold mbind, StM_bind; destruct (readFull _ _) as [[b|e'|p] s2]; try done;
      try (destruct (needless_header _ _)); intros [= ? ?]; subst.
    + left. by exists c, s'.
    + right. split; [|by eauto]. intros c rest Hc Er Hr Hns _. by apply (Hno c rest).
    + right. split; [|by eauto]. intros c rest Hc Er Hr Hns _. by apply (Hno c rest).
  - intros s m. by eexists.
Qed.

Lemma ahead_uint s n h x :
  ready s -> head_at s KString n h x -> (1 <= n)%nat ->
  (exists c s', length c = n /\ (n = 1%nat \/ canonical c) /\
     readUint (Z.of_nat n) (ahead s KString n h x) = (Ok (be_val c), s') /\ moved (h ++ c) s s') \/
  ((forall c rest, length c = n -> r s = h ++ c ++ rest -> room s (length (h ++ c)) -> ~ canonical c) /\
   exists e s', readUint (Z.of_nat n) (ahead s KString n h x) = (Err e, s') /\ e <> EOL).
Proof.
  intros Hs Hh Hn. pose proof (ready_ahead _ _ _ _ _ Hs Hh) as Ha.
  assert (room (ahead s KString n h x) n <-> room s (length h + n)) as Hroom
    by (destruct Hh as (_ & Hr & _); exact (room_eat s (length h) n Hr)).
  destruct (readUint_cases _ n Ha Hn) as [(Hl & Hr & Hc & E)|[Hno E]].
  - left. apply Hroom in Hr. destruct (moved_eat s KString n h x Hs Hh Hr) as (c & Hlc & Er & Hm).
    rewrite Er, <- Hlc, take_app_length, Hlc in Hc, E. exists c, (eat n (ahead s KString n h x)). by split_and!.
  - right. split; [|done]. intros c rest Hc Er Hr Hcan. rewrite length_app, Hc in Hr. apply Hno.
    assert (r (ahead s KString n h x) = c ++ rest) as -> by (cbn; by rewrite Er, drop_app_length).
    split_and!; [rewrite length_app; lia|by apply Hroom|right]. by rewrite <- Hc, take_app_length.
Qed.

(** A canonical number of two bytes or more is no small one. *)
Lemma canonical_large c : canonical c -> (2 <= length c)%nat -> 128 <= be_val c.
Proof.
  intros Hc Hl. rewrite <- (be_bytes_be_val c Hc) in Hl. pose proof (be_val_nonneg c).
  destruct (Z.lt_ge_cases (be_val c) 128); [|done].
  pose proof (length_be_bytes_le 1 (be_val c)) as H1. change (256 ^ Z.of_nat 1) with 256 in H1. lia.
Qed.

Lemma reader_uint N bits :
  8 <= bits -> reader N (Stream_uint bits) (string_rel (fun b => canonical b /\ Z.of_nat (length b) <= bits / 8) be_val).
Proof.
  intros Hbits. assert (1 <= bits / 8) by (apply Z.div_le_lower_bound; lia). apply reader_string.
  - intros s h x Hs Hh. unfold mbind, StM_bind, getS. cbn [byteval ahead set_kind set_byteval].
    destruct (Z.eqb_spec (byte_val x) 0) as [E|E].
    + right. split; [|by eauto]. intros [Hc _]. apply Hc. cbn. f_equal. by apply byte_val_inj.
    + left. split; [|cbn; by rewrite Z.add_0_l]. split; [|cbn; lia]. intros [= ->]. by apply E.
  - intros s n h x Hs Hh. cbn beta iota. destruct (Z.ltb_spec (bits / 8) (Z.of_nat n)).
    { right. split; [|by eauto]. intros c rest Hc _ _ _ [_ Hl]. lia. }
    unfold mbind, StM_bind, catch. destruct (decide (n = 0%nat)) as [->|Hn].
    { left. exists [], (rearm (ahead s KString 0 h x)). rewrite app_nil_r.
      split_and!; [done|done|cbn; lia|by intros (? & ? & _)|done|by apply moved_rearm]. }
    destruct (ahead_uint s n h x Hs Hh ltac:(lia)) as [(c & s' & Hc & Hcan & E & Hm)|[Hno (e & s' & E & He)]]; rewrite E.
    + rewrite (proj2 (Z.ltb_lt 0 _)) by lia. cbn [andb]. destruct (Z.ltb_spec (be_val c) 128).
      * right. split; [|by eauto]. intros c' rest Hc' Er _ Hns [Hcan' _].
        destruct Hm as (_ & Em & _). rewrite Er, <- app_assoc in Em. apply app_inv_head in Em.
        apply app_inj_1 in Em as [-> _]; [|lia]. apply Hns. destruct (decide (length c = 1%nat)) as [E1|E1].
        -- destruct c as [|y [|]]; try done. exists y. split; [done|]. cbn in *. lia.
        -- pose proof (canonical_large c Hcan' ltac:(lia)). lia.
      * left. exists c, s'. split_and!; try done; [|lia|].
        -- destruct Hcan as [->|]; [|done]. destruct c as [|y [|]]; try done. cbn in *. intros [= ->].
           change (byte_val Byte.x00) with 0 in *. lia.
        -- intros (y & -> & Hy). cbn in *. lia.
    + right. split; [intros c rest Hc Er Hr _ [Hcan _]; by apply (Hno c rest)|].
      eexists _, _. split; [done|]. destruct (String.eqb _ _); [done|done].
  - intros s n. by eexists.
Qed.

Lemma puthead_header sm lg n : Z.of_nat n < two64 -> puthead sm lg (Z.of_nat n) = hdr sm lg n.
Proof.
  intros Hn. unfold puthead, hdr. cbv zeta. destruct (Z.ltb_spec (Z.of_nat n) 56); [done|]. by apply putint_hdr.
Qed.

Lemma reader_Raw N : reader N Stream_Raw (fun b e => b = e /\ is_value e).
Proof.
  apply reader_dispatch; [|by intros a b []].
  apply content_runs_at; [by intros a b []|by intros a a' b _ [-> _] [-> _]|].
  intros s k n h x Hs Hh. pose proof Hh as [Hhd _]. pose proof (head_at_length _ _ _ _ _ Hs Hh) as Hl.
  assert (Z.of_nat n < two64) by (unfold two64, maxInt64 in *; lia).
  destruct (bool_decide (k = KByte)) eqn:Ek.
  - apply bool_decide_eq_true in Ek as ->. destruct Hhd as (Eh & Hx & ->). left. exists [x], [], (rearm (ahead s KByte 0 h x)).
    rewrite app_nil_r. split_and!; [done|done|by apply moved_rearm|by rewrite Eh|].
    exists KByte, 0%nat, h, x, []. by rewrite app_nil_r.
  - apply bool_decide_eq_false in Ek.
    assert (headsize (Z.of_nat n) = Z.of_nat (length h) /\
            (if bool_decide (k = KString) then puthead 128 183 (Z.of_nat n) else puthead 192 247 (Z.of_nat n)) = h) as [E1 E2].
    { rewrite !puthead_header by done. destruct k; [done|..]; destruct Hhd as [-> _]; (split; [by rewrite length_hdr|done]). }
    cbn beta iota zeta. rewrite E1, E2, u64_add_small by (unfold two64, maxInt64 in *; lia).
    unfold mbind, StM_bind, make_bytes, pure. rewrite (proj2 (Z.ltb_ge maxInt64 _)) by lia.
    rewrite (proj2 (Z.ltb_ge (_ + _) _)) by lia. rewrite Z.add_simpl_l. cbn [mret StM_ret].
    destruct (ahead_read s k n h x Hs Hh) as [(c & s' & Hc & E & Hm)|[Hno (e & s' & E & He)]]; rewrite E.
    + left. exists (h ++ c), c, s'. split_and!; [done..|]. by exists k, n, h, x, c.
    + right. split; [|by eauto]. intros a c rest Hc Er Hr _. by rewrite length_app, Hc in Hr.
Qed.

(** ** Combining parsers *)

Lemma wrap_EOL e : wrapStreamError e = EOL -> e = EOL.
Proof. unfold wrapStreamError. by repeat case_match. Qed.

Lemma wrap_not_EOL e : e <> EOL -> wrapStreamError e <> EOL.
Proof. intros H E. by apply H, wrap_EOL. Qed.

Lemma wrap_Ok_inv {A} (m : StM Stream A) s a s' : wrap m s = (Ok a, s') -> m s = (Ok a, s').
Proof. unfold wrap. by destruct (m s) as [[]]. Qed.

Lemma reader_ext N {A} (m m' : StM Stream A) R : (forall s, m s = m' s) -> reader N m R -> reader N m' R.
Proof.
  intros E [[Ht Hs Hc] Hr Hn He Hp].
  split; [split| | | |]; intros *; rewrite <- ?E; [apply Ht|apply Hs|apply Hc|apply Hr|apply Hn|apply He|apply Hp].
Qed.

Lemma parses_ext N md {A} (m m' : StM Stream A) R : (forall s, m s = m' s) -> parses N md m R -> parses N md m' R.
Proof. intros E [Ht Hs Hc]. split; intros *; rewrite <- ?E; [apply Ht|apply Hs|apply Hc]. Qed.

Lemma reader_iff N {A} (m : StM Stream A) R R' : (forall a b, R a b <-> R' a b) -> reader N m R -> reader N m R'.
Proof.
  intros E [[Ht Hs Hc] Hr Hn He Hp]. split; [split| | | |]; try done.
  - intros s a s' H1 H2 H3 H4. destruct (Hs _ _ _ H1 H2 H3 H4) as (b & HR & Hm). exists b. by rewrite <- E.
  - intros s a b rest H1 H2 H3 HR. apply E in HR. by apply Hc.
  - intros a b HR. apply E in HR. by eapply Hn.
Qed.

Lemma parses_iff N md {A} (m : StM Stream A) R R' : (forall a b, R a b <-> R' a b) -> parses N md m R -> parses N md m R'.
Proof.
  intros E [Ht Hs Hc]. split; try done.
  - intros s a s' H1 H2 H3 H4. destruct (Hs _ _ _ H1 H2 H3 H4) as (b & HR & Hm). exists b. by rewrite <- E.
  - intros s a b rest H1 H2 H3 HR. apply E in HR. by apply Hc.
Qed.

Lemma reader_le N N' {A} (m : StM Stream A) R : (N <= N')%nat -> reader N' m R -> reader N m R.
Proof.
  intros HN [[Ht Hs Hc] Hr Hn He Hp]. split; [split| | | |]; try done.
  - intros s H1 H2. apply Ht; [done|lia].
  - intros s a s' H1 H2. apply Hs; [done|lia].
  - intros s a b rest H1 H2. apply Hc; [done|lia].
  - intros s a s' H1 H2. apply Hr; [done|lia].
  - intros s st H1 H2. apply He; [done|lia].
  - intros s kn s1 H1 H2. apply Hp; [done|lia].
Qed.

Lemma reader_wrap N {A} (m : StM Stream A) R : reader N m R -> reader N (wrap m) R.
Proof.
  intros [[Ht Hs Hc] Hr Hn He Hp]. split; [split| | | |]; try done.
  - intros s H1 H2. specialize (Ht s H1 H2). unfold wrap. destruct (m s) as [[a|e|p] s']; [done| |done].
    intros E%wrap_EOL. by apply Ht.
  - intros s a s' H1 H2 H3%wrap_Ok_inv. exact (Hs s a s' H1 H2 H3).
  - intros s a b rest H1 H2 H3 H4 H5 H6 H7. destruct (Hc s a b rest H1 H2 H3 H4 H5 H6 H7) as (s' & E & Hm).
    exists s'. unfold wrap. by rewrite E.
  - intros s a s' H1 H2 H3%wrap_Ok_inv. by eapply Hr.
  - intros s st H1 H2 H3. unfold wrap. by rewrite (He s st).
  - intros s kn s1 H1 H2 E. unfold wrap. by rewrite (Hp _ _ _ H1 H2 E).
Qed.

(** A check or conversion of the value. *)
Lemma reader_then N {A B} (m : StM Stream A) (f : A -> outcome B) R :
  reader N m R -> (forall a, match f a with Ok _ => True | Err e => e <> EOL | Panic _ => False end) ->
  reader N (a ← m; pure (f a)) (fun v b => exists a, R a b /\ f a = Ok v).
Proof.
  intros [[Ht Hs Hc] Hr Hn He Hp] Hf.
  split; [split| | | |]; unfold mbind, StM_bind, pure.
  - intros s H1 H2. specialize (Ht s H1 H2). destruct (m s) as [[a|e|p] s']; [|done..].
    specialize (Hf a). by destruct (f a).
  - intros s v s' H1 H2 H3 H4. destruct (m s) as [[a|e|p] s1] eqn:E; [|done..]. injection H3 as Ef ->.
    destruct (Hs _ _ _ H1 H2 E H4) as (b & HR & Hm). eauto 6.
  - intros s v b rest H1 H2 H3 (a & HR & Ef) H5 H6 H7. destruct (Hc s a b rest H1 H2 H3 HR H5 H6 H7) as (s' & E & Hm).
    exists s'. by rewrite E, Ef.
  - intros s v s' H1 H2 H3. destruct (m s) as [[a|e|p] s1] eqn:E; [|done..]. injection H3 as _ <-. by eapply Hr.
  - intros v b (a & HR & _). by eapply Hn.
  - intros s st H1 H2 H3. by rewrite (He s st).
  - intros s kn s1 H1 H2 E. by rewrite (Hp _ _ _ H1 H2 E).
Qed.

Lemma reader_map N {A B} (m : StM Stream A) (g : A -> B) R :
  reader N m R -> reader N (a ← m; mret (g a)) (fun v b => exists a, v = g a /\ R a b).
Proof.
  intros H. eapply reader_iff, (reader_then N m (fun a => Ok (g a)) R H); [|done].
  intros v b. split; [intros (a & HR & [= <-]); eauto|intros (a & -> & HR); eauto].
Qed.

(** *** Sequences *)

Lemma parses_ret N {A} (a : A) : parses N Fields (mret a) (fun a' b => a' = a /\ b = []).
Proof.
  split.
  - intros s Hs _. split_and!; [done|lia|lia|done].
  - intros s a' s' Hs _ [= <- <-] _. exists []. split; [done|by apply moved_refl].
  - intros s a' b rest Hs _ _ [-> ->] _ _ _. exists s. split; [done|by apply moved_refl].
Qed.

Lemma parses_rest N {A} (m : StM Stream A) R : parses N Fields m R -> parses N Rest m R.
Proof.
  intros [Ht Hs Hc]. split; [|done|].
  - intros s H1 H2. specialize (Ht s H1 H2). destruct (m s) as [[a|e|p] s']; [done| |done]. intros E. by destruct (Ht E).
  - intros s a b rest H1 H2 H3 H4 H5 H6 _. by eapply Hc.
Qed.

Lemma parses_bind N md {A B} (m : StM Stream A) (f : A -> StM Stream B) R Q :
  md <> Value -> parses N Fields m R -> (forall a, parses N md (f a) (Q a)) ->
  parses N md (m ≫= f) (fun v b => exists a b1 b2, b = b1 ++ b2 /\ R a b1 /\ Q a v b2).
Proof.
  intros Hmd [Ht Hs Hc] Hf. split; unfold mbind, StM_bind.
  - intros s H1 H2. specialize (Ht s H1 H2). destruct (m s) as [[a|e|p] s1]; [|intros E; by destruct (Ht E)|done].
    destruct Ht as (Hr1 & Hd1 & Hl1 & Hst1). pose proof (p_total _ _ _ _ (Hf a) s1 Hr1 ltac:(lia)) as Ht2.
    destruct (f a s1) as [[v|e|p] s2]; [|intros E; by destruct (Ht2 E)|done].
    destruct Ht2 as (? & ? & ? & ?). split_and!; [done|lia|lia|congruence].
  - intros s v s2 H1 H2 H3 H4. specialize (Ht s H1 H2). destruct (m s) as [[a|e|p] s1] eqn:E; [|done..].
    destruct Ht as (Hr1 & Hd1 & Hl1 & Hst1). pose proof (p_total _ _ _ _ (Hf a) s1 Hr1 ltac:(lia)) as Ht2.
    rewrite H3 in Ht2. destruct Ht2 as (_ & Hd2 & _).
    destruct (p_sound _ _ _ _ (Hf a) s1 v s2 Hr1 ltac:(lia) H3 H4) as (b2 & HQ & Hm2).
    destruct (Hs s a s1 H1 H2 E ltac:(lia)) as (b1 & HR & Hm1). exists (b1 ++ b2). split; [by eauto 7|by eapply moved_trans].
  - intros s v b rest H1 H2 H3 (a & b1 & b2 & -> & HR & HQ) Er Hroom Hex. rewrite <- app_assoc in Er.
    rewrite length_app in Hroom, Hex. destruct (Hc s a b1 (b2 ++ rest) H1 H2 H3 HR Er) as (s1 & E & Hm1);
      [eapply room_le; [exact Hroom|lia]|done|]. rewrite E.
    pose proof (moved_within _ _ _ Hm1 H3) as Hd. pose proof Hm1 as (Hr1 & Er1 & _ & Es1).
    rewrite Er in Er1. apply app_inv_head in Er1.
    destruct (p_complete _ _ _ _ (Hf a) s1 v b2 rest Hr1) as (s2 & E2 & Hm2); [|done|done|done| | |].
    + apply (f_equal length) in Er1, Er. rewrite !length_app in *. lia.
    + unfold room in *. rewrite Es1. destruct (stack s); cbn; [done|lia].
    + intros ->. destruct (Hex eq_refl) as (st & Est). rewrite Es1, Est. cbn. exists st. f_equal. lia.
    + exists s2. split; [done|by eapply moved_trans].
Qed.

(** A value that must be there; the end of the list becomes the error [err]. *)
Definition field {A} (err : error) (m : StM Stream A) : StM Stream A :=
  v ← catch m;
  match v with
  | inr e => pure (Err (if String.eqb e EOL then err else e))
  | inl v => mret v
  end.

Lemma parses_field N {A} (m : StM Stream A) R err : err <> EOL -> reader N m R -> parses N Fields (field err m) R.
Proof.
  intros Herr Hm. destruct (rd_parses _ _ _ Hm) as [Ht Hs Hc]. split; unfold field, mbind, StM_bind, catch.
  - intros s H1 H2. specialize (Ht s H1 H2). destruct (m s) as [[a|e|p] s']; [done| |done]. cbn.
    destruct (String.eqb_spec e EOL); [done|done].
  - intros s a s' H1 H2 H3. specialize (Hs s a s' H1 H2). destruct (m s) as [[a'|e|p] s1]; [|done..].
    injection H3 as -> ->. by apply Hs.
  - intros s a b rest H1 H2 H3 H4 H5 H6 _. destruct (Hc s a b rest H1 H2 H3 H4 H5 H6 ltac:(done)) as (s' & E & Hmv).
    exists s'. by rewrite E.
Qed.

(** Encodings of a sequence of values. *)
Definition seq_rel {A} (R : A -> bytes -> Prop) (l : list A) (b : bytes) : Prop :=
  exists bs, Forall2 R l bs /\ b = concat bs.

Lemma seq_rel_cons {A} (R : A -> bytes -> Prop) l b :
  (exists a b1 b2, b = b1 ++ b2 /\ R a b1 /\ exists l' b3 b4, b2 = b3 ++ b4 /\ seq_rel R l' b3 /\ l = a :: l' /\ b4 = []) <->
  seq_rel R l b /\ l <> [].
Proof.
  split.
  - intros (a & b1 & b2 & -> & HR & l' & b3 & b4 & -> & (bs & HF & ->) & -> & ->). split; [|done].
    exists (b1 :: bs). rewrite app_nil_r. split; [by constructor|done].
  - intros [(bs & HF & ->) Hl]. destruct HF as [|a b1 l' bs HR HF]; [done|]. exists a, b1, (concat bs).
    split_and!; [done..|]. exists l', (concat bs), []. rewrite app_nil_r. split_and!; [done|by exists bs|done..].
Qed.

Lemma parses_map N md {A B} (m : StM Stream A) (g : A -> B) R :
  parses N md m R -> parses N md (a ← m; mret (g a)) (fun v b => exists a, v = g a /\ R a b).
Proof.
  intros [Ht Hs Hc]. split; unfold mbind, StM_bind.
  - intros s H1 H2. specialize (Ht s H1 H2). by destruct (m s) as [[a|e|p] s'].
  - intros s v s' H1 H2 H3 H4. specialize (Hs s). destruct (m s) as [[a|e|p] s1]; [|done..]. injection H3 as <- ->.
    destruct (Hs a s' H1 H2 eq_refl H4) as (b & HR & Hm). eauto 6.
  - intros s v b rest H1 H2 H3 (a & -> & HR) H5 H6 H7. destruct (Hc s a b rest H1 H2 H3 HR H5 H6 H7) as (s' & E & Hm).
    exists s'. by rewrite E.
Qed.

(** *** Elements up to the end of the list *)

Lemma elems_run N fuel (d : StM Stream rval) R s :
  reader N d R -> ready s -> (length (r s) < fuel)%nat -> (length (r s) < N)%nat ->
  match decodeSliceElems fuel d s with
  | (Ok l, s') => ready s' /\ debt s <= debt s' /\ (length (r s') <= length (r s))%nat /\
                  length (stack s') = length (stack s) /\ (debt s' <= 0 -> exists b, seq_rel R l b /\ moved b s s')
  | (Err e, s') => e <> EOL
  | (Panic _, _) => False
  end.
Proof.
  intros Hd. destruct (rd_parses _ _ _ Hd) as [Ht Hs _]. revert s.
  induction fuel as [|f IH]; intros s Hr Hf HsN; [lia|]. cbn [decodeSliceElems]. unfold mbind, StM_bind, catch.
  specialize (Ht s Hr HsN). destruct (d s) as [[v|e|p] s1] eqn:E; [| |done].
  - pose proof (rd_reads _ _ _ Hd s v s1 Hr HsN E) as Hlt. destruct Ht as (Hr1 & Hd1 & _ & Hst).
    specialize (IH s1 Hr1 ltac:(lia) ltac:(lia)). destruct (decodeSliceElems f d s1) as [[l|e|p] s2]; [|done..].
    destruct IH as (? & ? & ? & ? & IH). split_and!; [done|lia|lia|congruence|]. intros Hle.
    destruct (IH Hle) as (b2 & (bs & HF & ->) & Hm2).
    destruct (Hs s v s1 Hr HsN E ltac:(lia)) as (b1 & HR & Hm1). exists (b1 ++ concat bs).
    split; [|by eapply moved_trans]. exists (b1 :: bs). split; [by constructor|done].
  - destruct (String.eqb_spec e EOL) as [->|He]; [|done]. destruct (Ht eq_refl) as (_ & -> & _).
    split_and!; [done|lia|lia|done|]. intros _. exists []. split; [by exists []|by apply moved_refl].
Qed.

(** The stream between two parts of a list that is read to its end. *)
Lemma moved_step b1 b2 rest s s1 st :
  ready s -> moved b1 s s1 -> r s = b1 ++ b2 ++ rest -> stack s = Z.of_nat (length b1 + length b2) :: st ->
  r s1 = b2 ++ rest /\ room s1 (length b2) /\ stack s1 = Z.of_nat (length b2) :: st.
Proof.
  intros Hs (_ & Er1 & _ & Es1) Er Est. rewrite Er in Er1. apply app_inv_head in Er1.
  assert (stack s1 = Z.of_nat (length b2) :: st) as E by (rewrite Es1, Est; cbn; f_equal; lia).
  split_and!; [done| |done]. unfold room. rewrite E. lia.
Qed.

Lemma elems_complete N fuel (d : StM Stream rval) R l bs rest s st :
  reader N d R -> Forall2 R l bs -> (length (r s) < fuel)%nat -> (length (r s) < N)%nat -> ready s -> debt s <= 0 ->
  r s = concat bs ++ rest -> stack s = Z.of_nat (length (concat bs)) :: st ->
  exists s', decodeSliceElems fuel d s = (Ok l, s') /\ moved (concat bs) s s'.
Proof.
  intros Hd HF. revert s fuel. induction HF as [|v b1 l bs HR HF IH]; intros s [|f] Hf HN Hs Hdebt Er Est; try lia;
    cbn [decodeSliceElems concat] in *; unfold mbind, StM_bind, catch.
  - rewrite (rd_end _ _ _ Hd s st) by done. exists s. split; [done|by apply moved_refl].
  - rewrite <- app_assoc in Er. rewrite length_app in Est.
    destruct (p_complete _ _ _ _ (rd_parses _ _ _ Hd) s v b1 (concat bs ++ rest)) as (s1 & E & Hm1); try done.
    { unfold room. rewrite Est. lia. }
    rewrite E. pose proof (is_value_length _ (rd_value _ _ _ Hd v b1 HR)). pose proof (moved_within _ _ _ Hm1 Hdebt).
    destruct (moved_step _ _ _ _ _ _ Hs Hm1 Er Est) as (Er1 & _ & Est1).
    apply (f_equal length) in Er, Er1 as El. rewrite !length_app in *.
    destruct (IH s1 f) as (s2 & E2 & Hm2); [lia|lia|apply Hm1|done..|].
    rewrite E2. exists s2. split; [done|by eapply moved_trans].
Qed.

Lemma parses_elems N fuel (d : StM Stream rval) R :
  (N <= fuel)%nat -> reader N d R -> parses N Rest (decodeSliceElems fuel d) (seq_rel R).
Proof.
  intros HN Hd. split.
  - intros s H1 H2. pose proof (elems_run N fuel d R s Hd H1 ltac:(lia) H2) as H.
    destruct (decodeSliceElems fuel d s) as [[]]; naive_solver.
  - intros s l s' H1 H2 H3 H4. pose proof (elems_run N fuel d R s Hd H1 ltac:(lia) H2) as H. rewrite H3 in H. by apply H.
  - intros s l b rest H1 H2 H3 (bs & HF & ->) Er _ Hex. destruct (Hex eq_refl) as (st & Est).
    eapply (elems_complete N fuel d R l bs rest); try done. lia.
Qed.

(** *** Fields *)

Abbreviation rel := (rval -> bytes -> Prop).

Lemma parses_field_rest N {A} (m : StM Stream A) R err : parses N Rest m R -> parses N Rest (field err m) R.
Proof.
  intros [Ht Hs Hc]. split; unfold field, mbind, StM_bind, catch.
  - intros s H1 H2. specialize (Ht s H1 H2). destruct (m s) as [[a|e|p] s']; [done| |done]. cbn.
    destruct (String.eqb_spec e EOL); [by destruct Ht|done].
  - intros s a s' H1 H2 H3. specialize (Hs s a s' H1 H2). destruct (m s) as [[a'|e|p] s1]; [|done..].
    injection H3 as -> ->. by apply Hs.
  - intros s a b rest H1 H2 H3 H4 H5 H6 H7. destruct (Hc s a b rest H1 H2 H3 H4 H5 H6 H7) as (s' & E & Hmv).
    exists s'. by rewrite E.
Qed.

(** Decoders of fields, the last of which may read the rest of the list. *)
Inductive fields_ok (N : nat) : mode -> list (StM Stream rval) -> list rel -> Prop :=
| fo_nil : fields_ok N Fields [] []
| fo_cons md d R ds Rs : reader N d R -> fields_ok N md ds Rs -> fields_ok N md (d :: ds) (R :: Rs)
| fo_tail d R : parses N Rest d R -> fields_ok N Rest [d] [R].

Lemma fields_ok_mode N md ds Rs : fields_ok N md ds Rs -> md <> Value.
Proof. by induction 1. Qed.

Fixpoint fields_rel (Rs : list rel) (vs : list rval) (b : bytes) : Prop :=
  match Rs, vs with
  | [], [] => b = []
  | R :: Rs, v :: vs => exists b1 b2, b = b1 ++ b2 /\ R v b1 /\ fields_rel Rs vs b2
  | _, _ => False
  end.

Lemma required_fields_cons d ds s :
  (v ← field (decodeError "too few elements") d; vs ← required_fields ds; mret (v :: vs)) s = required_fields (d :: ds) s.
Proof. cbn [required_fields]. unfold field, mbind, StM_bind, catch. by destruct (d s) as [[v|e|p] s1]. Qed.

Lemma parses_required N md ds Rs : fields_ok N md ds Rs -> parses N md (required_fields ds) (fields_rel Rs).
Proof.
  induction 1 as [|md d R ds Rs Hd Hok IH|d R Hd].
  - eapply parses_iff; [|apply parses_ret]. intros vs b. cbn. by destruct vs; naive_solver.
  - eapply parses_ext; [apply required_fields_cons|]. eapply parses_iff; [|eapply parses_bind].
    4:{ intros v. eapply (parses_map N md _ (cons v)), IH. }
    3:{ by eapply parses_field. }
    2:{ by eapply fields_ok_mode. }
    intros [|v vs] b; cbn; [naive_solver|]. split; [intros (v' & b1 & b2 & -> & HR & vs' & [= -> ->] & H); eauto|].
    intros (b1 & b2 & -> & HR & H). eauto 10.
  - eapply parses_ext; [apply required_fields_cons|].
    eapply parses_ext, parses_iff, (parses_map N Rest _ (fun v => [v])), (parses_field_rest N d R (decodeError "too few elements") Hd); [done|].
    intros vs b. split.
    + intros (v & -> & HR). exists b, []. by rewrite app_nil_r.
    + destruct vs as [|v [|w vs]]; cbn; [done| |by intros (b1 & b2 & _ & _ & [])].
      intros (b1 & b2 & -> & HR & ->). rewrite app_nil_r. eauto.
Qed.

Definition is_tail (t : rtype) : bool := match t with TTail _ => true | _ => false end.

(** Optional fields: all are there, or the list ends before one and the rest is
    zero. *)
Inductive optional_ok (N : nat) : list rtype -> list (StM Stream rval) -> list rel -> Prop :=
| oo_nil : optional_ok N [] [] []
| oo_cons t d R ts ds Rs :
    is_tail t = false -> reader N d R -> optional_ok N ts ds Rs -> optional_ok N (t :: ts) (d :: ds) (R :: Rs)
| oo_tail t d R : is_tail t = true -> parses N Rest d R -> optional_ok N [t] [d] [R].

Fixpoint optional_rel (ts : list rtype) (Rs : list rel) (os : list (bool * rval)) (b : bytes) : Prop :=
  match ts, Rs with
  | [], [] => os = [] /\ b = []
  | t :: ts', R :: Rs =>
      (is_tail t = false /\ os = zeroFields ts /\ b = []) \/
      exists v os' b1 b2, os = (is_zero t v, v) :: os' /\ b = b1 ++ b2 /\ R v b1 /\ optional_rel ts' Rs os' b2
  | _, _ => False
  end.

Lemma parses_optional_cons N t d R ts ds Rs :
  is_tail t = false -> length ds = length ts -> reader N d R ->
  parses N Rest (optional_fields (zip ts ds)) (optional_rel ts Rs) ->
  parses N Rest (optional_fields (zip (t :: ts) (d :: ds))) (optional_rel (t :: ts) (R :: Rs)).
Proof.
  intros Ht Hlen Hd IH. cbn [zip_with optional_fields].
  destruct (rd_parses _ _ _ Hd) as [Htot Hs Hc]. split; unfold mbind, StM_bind, catch.
  - intros s H1 H2. specialize (Htot s H1 H2). destruct (d s) as [[v|e|p] s1] eqn:E; [| |done].
    + destruct Htot as (Hr1 & Hd1 & Hl1 & Hst). pose proof (p_total _ _ _ _ IH s1 Hr1 ltac:(lia)) as H.
      destruct (optional_fields _ s1) as [[os|e|p] s2]; [|intros ->; by destruct H|done].
      destruct H as (? & ? & ? & ?). split_and!; [done|lia|lia|congruence].
    + destruct (String.eqb_spec e EOL) as [->|]; [|done]. destruct (Htot eq_refl) as (_ & -> & _). split_and!; [done|lia|lia|done].
  - intros s os s' H1 H2 H3 H4. specialize (Htot s H1 H2). destruct (d s) as [[v|e|p] s1] eqn:E; [| |done].
    + destruct Htot as (Hr1 & Hd1 & Hl1 & Hst). pose proof (p_total _ _ _ _ IH s1 Hr1 ltac:(lia)) as H.
      pose proof (p_sound _ _ _ _ IH s1) as HsI. destruct (optional_fields _ s1) as [[os'|e|p] s2]; [|done..].
      injection H3 as <- ->. destruct H as (_ & Hd2 & _). destruct (HsI os' s' Hr1 ltac:(lia) eq_refl H4) as (b2 & HR2 & Hm2).
      destruct (Hs s v s1 H1 H2 E ltac:(lia)) as (b1 & HR1 & Hm1). exists (b1 ++ b2).
      split; [right; eauto 10|by eapply moved_trans].
    + destruct (String.eqb_spec e EOL) as [->|]; [|done]. destruct (Htot eq_refl) as (_ & -> & _). injection H3 as <- <-.
      exists []. split; [|by apply moved_refl]. left. by rewrite fst_zip by lia.
  - intros s os b rest H1 H2 H3 HR Er Hroom Hex. destruct (Hex eq_refl) as (st & Est).
    destruct HR as [(_ & -> & ->)|(v & os' & b1 & b2 & -> & -> & HR1 & HR2)].
    + rewrite (rd_end _ _ _ Hd s st) by done. cbn. exists s. rewrite fst_zip by lia. split; [done|by apply moved_refl].
    + rewrite <- app_assoc in Er. rewrite length_app in Est, Hroom.
      destruct (Hc s v b1 (b2 ++ rest)) as (s1 & E & Hm1); try done; [eapply room_le; [exact Hroom|lia]|]. rewrite E.
      destruct (moved_step _ _ _ _ _ _ H1 Hm1 Er Est) as (Er1 & Hr1 & Est1). apply (f_equal length) in Er, Er1 as El.
      rewrite !length_app in *. destruct (p_complete _ _ _ _ IH s1 os' b2 rest) as (s2 & E2 & Hm2); try done;
        [apply Hm1|lia|by eapply moved_within|by eauto|]. rewrite E2. exists s2. split; [done|by eapply moved_trans].
Qed.

Lemma parses_optional_tail N t d R :
  is_tail t = true -> parses N Rest d R -> parses N Rest (optional_fields (zip [t] [d])) (optional_rel [t] [R]).
Proof.
  intros Ht Hd. cbn [zip_with optional_fields].
  destruct Hd as [Htot Hs Hc]. split; unfold mbind, StM_bind, catch.
  - intros s H1 H2. specialize (Htot s H1 H2). destruct (d s) as [[v|e|p] s1]; [done| |done].
    destruct (String.eqb_spec e EOL) as [->|]; [by destruct Htot|done].
  - intros s os s' H1 H2 H3 H4. specialize (Htot s H1 H2). specialize (Hs s). destruct (d s) as [[v|e|p] s1]; [| |done].
    + injection H3 as <- ->. destruct (Hs v s' H1 H2 eq_refl H4) as (b & HR & Hm). exists b. split; [|done].
      right. exists v, [], b, []. by rewrite app_nil_r.
    + destruct (String.eqb_spec e EOL) as [->|]; [by destruct Htot|done].
  - intros s os b rest H1 H2 H3 HR Er Hroom Hex. destruct HR as [(E & _)|(v & os' & b1 & b2 & -> & -> & HR1 & -> & ->)]; [congruence|].
    rewrite app_nil_r in *. destruct (Hc s v b1 rest) as (s1 & E & Hm1); try done. exists s1. by rewrite E.
Qed.

Lemma parses_optional N ts ds Rs :
  optional_ok N ts ds Rs -> parses N Rest (optional_fields (zip ts ds)) (optional_rel ts Rs).
Proof.
  induction 1 as [|t d R ts ds Rs Ht Hd Hok IH|t d R Ht Hd].
  - apply parses_rest. eapply parses_iff; [|apply parses_ret]. done.
  - apply parses_optional_cons; try done. clear -Hok. induction Hok; cbn; congruence.
  - by apply parses_optional_tail.
Qed.

(** *** Lists *)

Lemma stack_sum_nonneg st : Forall is_u64 st -> 0 <= foldr Z.add 0 st.
Proof. induction 1 as [|l st [Hl _] _ IH]; cbn; lia. Qed.

(** Entering a list.  Without room for it the limit of the outer list wraps
    around. *)
Lemma List_enter s n h x :
  ready s -> head_at s KList n h x ->
  exists s2 st, Stream_List s = (Ok (Z.of_nat n), s2) /\ ready s2 /\ stack s2 = Z.of_nat n :: st /\
    r s = h ++ r s2 /\ length st = length (stack s) /\ debt s <= debt s2 /\
    (room s (length h + n) -> st = shrink (length h + n) (stack s) /\ (debt s <= 0 -> debt s2 <= 0)) /\
    (~ room s (length h + n) -> 0 < debt s2).
Proof.
  intros Hs Hh. pose proof (ready_ahead _ _ _ _ _ Hs Hh) as [A1 A2 A3 A4].
  assert (is_u64 (Z.of_nat n)) as Hn64 by (split; [lia|by eapply head_at_u64; [apply Hs|]]).
  pose proof (sn_length _ (proj1 Hs)) as Hlen. pose proof (stack_sum_nonneg _ (sn_stack _ (proj1 Hs))) as Hsum.
  unfold Stream_List, mbind, StM_bind. rewrite (Kind_head s _ _ _ _ Hs Hh).
  destruct Hh as (Hh & Hr & _ & rest & Er & Hl). rewrite bool_decide_true by done. unfold getS, listLimit, putS. cbn [negb].
  cbn in A2, A3, A4. rewrite Er, length_app in Hlen. rewrite Er, drop_app_length in A2, A3.
  unfold debt, room in *. cbn [ahead set_kind set_byteval eat stack].
  destruct (stack s) as [|l st] eqn:Est; cbn [shrink].
  - eexists _, []. split; [reflexivity|]. cbn. rewrite Er, drop_app_length, Est, length_app. cbn.
    split_and!; [|done|done|done|lia|intros _; split; [done|lia]|done].
    split; [|done]. split; cbn; rewrite ?Er, ?drop_app_length, ?Est; try done. by constructor.
  - cbn in Hsum, A4. apply Forall_cons in A4 as [Hl1 Hst]. assert (0 <= foldr Z.add 0 st) by (by apply stack_sum_nonneg).
    eexists _, ((l - Z.of_nat (length h) -u Z.of_nat n) :: st). split; [reflexivity|]. unfold set_top. cbn. rewrite Er, drop_app_length, Est, length_app. cbn.
    split_and!; try done.
    + split; [|done]. split; cbn; rewrite ?Er, ?drop_app_length, ?Est; try done.
      constructor; [done|]. constructor; [apply u64_range|done].
    + destruct (Z.le_gt_cases (Z.of_nat n) (l - Z.of_nat (length h))).
      * rewrite u64_sub_small by (unfold is_u64 in *; lia). lia.
      * rewrite u64_sub_underflow by (unfold is_u64 in *; lia). unfold is_u64 in *. lia.
    + intros Hroom. rewrite u64_sub_small by (unfold is_u64 in *; lia). split; [f_equal; lia|lia].
    + intros Hno. rewrite u64_sub_underflow by (unfold is_u64 in *; lia). unfold two64, maxInt64 in *. lia.
Qed.

Lemma List_cases s :
  ready s ->
  (exists st, stack s = 0 :: st /\ wrap Stream_List s = (Err EOL, s)) \/
  (exists n h x, head_at s KList n h x) \/
  ((forall n h x, ~ head_at s KList n h x) /\ exists e s', wrap Stream_List s = (Err e, s') /\ e <> EOL).
Proof.
  intros Hs. unfold wrap, Stream_List, mbind, StM_bind.
  destruct (Kind_cases s Hs) as [(st & Est & E)|[(k & n & h & x & Hh & E)|[Hno (e & s' & E & He)]]]; rewrite E.
  - left. by exists st.
  - destruct (decide (k = KList)) as [->|Hk]; [by right; left; exists n, h, x|]. right; right. split.
    + intros n' h' x' Hh'. by destruct (head_at_unique s _ _ _ _ _ _ _ _ (proj1 Hs) Hh Hh') as (-> & _).
    + rewrite bool_decide_false by done. cbn. by eexists _, _.
  - right; right. split; [naive_solver|]. eexists _, _. split; [done|by apply wrap_not_EOL].
Qed.

(** Leaving a list, which both forms of the call do alike. *)
Definition list_end (m : StM Stream unit) : Prop := m = Stream_ListEnd \/ m = wrap Stream_ListEnd.

Lemma ListEnd_cases m s :
  list_end m -> ready s ->
  (exists st s', stack s = 0 :: st /\ m s = (Ok tt, s') /\ ready s' /\ r s' = r s /\ stack s' = st) \/
  ((forall st, stack s <> 0 :: st) /\ exists e, m s = (Err e, s) /\ e <> EOL).
Proof.
  intros Hm [[H1 H2 H3 H4] H5].
  destruct Hm as [-> | ->]; unfold wrap, Stream_ListEnd, mbind, StM_bind, getS, listLimit, putS;
    (destruct (stack s) as [|l st] eqn:Est; cbn; [right; split; [done|by eauto]|]);
    apply Forall_cons in H4 as [Hl Hst]; (destruct (Z.ltb_spec 0 l);
      [right; split; [intros st' [= ? ?]; lia|by eauto]|]);
    (assert (l = 0) as -> by (unfold is_u64 in Hl; lia)); left; exists st; eexists; rewrite Est;
    split_and!; try done; split; by split.
Qed.

Definition in_list {A} (lend : StM Stream unit) (m : StM Stream A) : StM Stream A :=
  _ ← wrap Stream_List; a ← m; _ ← lend; mret a.

Lemma in_list_run N {A} lend (m : StM Stream A) R s n h x :
  list_end lend -> parses N Rest m R -> ready s -> (length (r s) < S N)%nat -> head_at s KList n h x ->
  match in_list lend m s with
  | (Ok a, s') => ready s' /\ debt s <= debt s' /\ (length (r s') < length (r s))%nat /\
                  length (stack s') = length (stack s) /\
                  (debt s' <= 0 -> exists p, R a p /\ h = hdr 192 247 (length p) /\ moved (h ++ p) s s')
  | (Err e, s') => e <> EOL
  | (Panic _, _) => False
  end.
Proof.
  intros Hle Hm Hs HN Hh. destruct (List_enter s n h x Hs Hh) as (s2 & st & E & Hr2 & Est & Er & Hst & Hd & Hin & Hout).
  unfold in_list, mbind, StM_bind. unfold wrap at 1. rewrite E. pose proof (header_length _ _ _ _ (proj1 Hh)) as Hlh.
  assert (length (r s2) < N)%nat as HN2 by (rewrite Er, length_app in HN; lia).
  pose proof (p_total _ _ _ _ Hm s2 Hr2 HN2) as Ht. pose proof (p_sound _ _ _ _ Hm s2) as Hsnd.
  destruct (m s2) as [[a|e|p] s3]; [|intros ->; by destruct Ht|done].
  destruct Ht as (Hr3 & Hd3 & Hl3 & Hst3).
  destruct (ListEnd_cases lend s3 Hle Hr3) as [(st' & s4 & Est3 & E4 & Hr4 & Er4 & Est4)|[_ (e & E4 & He)]]; rewrite E4; [|done].
  assert (debt s4 = debt s3) as Hd4 by (unfold debt; rewrite Er4, Est4, Est3; cbn; lia).
  split_and!; [done|lia|rewrite Er, Er4, length_app; lia| |].
  - rewrite Est4. rewrite Est3, Est in Hst3. cbn in Hst3. lia.
  - intros Hle4. assert (~ ~ room s (length h + n)) as Hroom by (intros Hno; specialize (Hout Hno); lia).
    assert (room s (length h + n)) as Hr by (unfold room in *; destruct (stack s); [done|lia]). destruct (Hin Hr) as [-> _].
    destruct (Hsnd a s3 Hr2 HN2 eq_refl ltac:(lia)) as (p & HR & (_ & Er2 & _ & Es2)).
    rewrite Est3, Est in Es2. cbn in Es2. injection Es2 as Hz Est'. assert (n = length p) as -> by lia.
    exists p. split; [done|]. split; [by destruct Hh as [[-> _] _]|].
    split_and!; [done|by rewrite Er, Er2, Er4, app_assoc|by rewrite length_app|by rewrite Est4, Est', length_app].
Qed.

Lemma in_list_complete N {A} lend (m : StM Stream A) R s a p rest :
  list_end lend -> parses N Rest m R -> ready s -> (length (r s) < S N)%nat -> debt s <= 0 -> R a p ->
  r s = rlp_list p ++ rest -> room s (length (rlp_list p)) ->
  exists s', in_list lend m s = (Ok a, s') /\ moved (rlp_list p) s s'.
Proof.
  intros Hle Hm Hs HN Hd HR Er Hr. unfold rlp_list in *. set (h := hdr 192 247 (length p)) in *.
  rewrite <- app_assoc in Er. rewrite length_app in Hr.
  assert (head_at s KList (length p) h Byte.x00) as Hh.
  { split_and!; [done|eapply room_le; [exact Hr|lia]..|]. exists (p ++ rest). rewrite length_app. split; [done|lia]. }
  destruct (List_enter s _ _ _ Hs Hh) as (s2 & st & E & Hr2 & Est & Er2 & _ & _ & Hin & _). destruct (Hin Hr) as [-> Hd2].
  rewrite Er in Er2. apply app_inv_head in Er2. pose proof (header_length _ _ _ _ (proj1 Hh)) as Hlh.
  apply (f_equal length) in Er as El. rewrite !length_app in El.
  destruct (p_complete _ _ _ _ Hm s2 a p rest Hr2) as (s3 & E3 & Hmv); try done.
  { rewrite <- Er2, length_app. lia. } { by apply Hd2. } { unfold room. rewrite Est. lia. } { by eauto. }
  pose proof Hmv as (Hr3 & Er3 & _ & Es3). rewrite Est in Es3. cbn in Es3. rewrite Z.sub_diag in Es3.
  destruct (ListEnd_cases lend s3 Hle Hr3) as [(st' & s4 & Est3 & E4 & Hr4 & Er4 & Est4)|[Hno _]]; [|by destruct (Hno _ Es3)].
  exists s4. unfold in_list, mbind, StM_bind. unfold wrap at 1. rewrite E, E3, E4. split; [done|].
  rewrite Es3 in Est3. injection Est3 as <-.
  split_and!; [done|rewrite Er, Er4; rewrite <- Er2 in Er3; by rewrite Er3, app_assoc|by rewrite length_app|by rewrite Est4, length_app].
Qed.

Lemma reader_list N {A} lend (m : StM Stream A) R :
  list_end lend -> parses N Rest m R ->
  reader (S N) (in_list lend m) (fun a b => exists p, R a p /\ b = rlp_list p).
Proof.
  intros Hle Hm.
  assert (forall s, wrap Stream_List s = (Err EOL, s) -> in_list lend m s = (Err EOL, s)) as Heol
    by (intros s E; unfold in_list, mbind, StM_bind; by rewrite E).
  assert (forall s e s', wrap Stream_List s = (Err e, s') -> in_list lend m s = (Err e, s')) as Herr
    by (intros s e s' E; unfold in_list, mbind, StM_bind; by rewrite E).
  split; [split| | | |].
  - intros s Hs HN. destruct (List_cases s Hs) as [(st & Est & E)|[(n & h & x & Hh)|[_ (e & s' & E & He)]]].
    + rewrite (Heol _ E). eauto.
    + pose proof (in_list_run N lend m R s n h x Hle Hm Hs HN Hh) as H. destruct (in_list lend m s) as [[a|e|p] s']; [|done..].
      destruct H as (? & ? & ? & ? & _). split_and!; (done || lia).
    + by rewrite (Herr _ _ _ E).
  - intros s a s' Hs HN E Hd. destruct (List_cases s Hs) as [(st & Est & E')|[(n & h & x & Hh)|[_ (e & s1 & E' & He)]]].
    + by rewrite (Heol _ E') in E.
    + pose proof (in_list_run N lend m R s n h x Hle Hm Hs HN Hh) as H. rewrite E in H.
      destruct H as (_ & _ & _ & _ & H). destruct (H Hd) as (p & HR & Eh & Hmv). exists (h ++ p).
      split; [|done]. exists p. split; [done|]. by rewrite Eh.
    + by rewrite (Herr _ _ _ E') in E.
  - intros s a b rest Hs HN Hd (p & HR & ->) Er Hr _. by eapply in_list_complete.
  - intros s a s' Hs HN E. destruct (List_cases s Hs) as [(st & Est & E')|[(n & h & x & Hh)|[_ (e & s1 & E' & He)]]].
    + by rewrite (Heol _ E') in E.
    + pose proof (in_list_run N lend m R s n h x Hle Hm Hs HN Hh) as H. rewrite E in H. by destruct H as (_ & _ & H & _).
    + by rewrite (Herr _ _ _ E') in E.
  - intros a b (p & _ & ->). apply rlp_list_value.
  - intros s st Hs _ Est. apply Heol. unfold wrap, Stream_List, mbind, StM_bind. by rewrite (Kind_end s st).
  - intros s kn s1 _ _ E. unfold in_list, wrap, Stream_List, mbind, StM_bind. by rewrite (Kind_again _ _ _ E), E.
Qed.
