(* ===== verification/RlpDecoderSpec.v ===== *)
(** * Correctness of the decoders of Go types

    What encodings a Go type has, as a relation; that the decoder of the type
    accepts exactly those, without a panic and with enough fuel; that decoding
    inverts the encoder, and that without optional fields nothing but the
    encoder's output is accepted. *)

From S2P Require Import Prelude BigEndian Rlp RlpSpec RlpStream RlpStreamSpec.

(** ** Encodings by type *)

(** An item of the format as a value of the empty interface type. *)
Fixpoint iface (x : item) : rval :=
  match x with
  | Str b => RIface (Some (RBytes b))
  | Lst l => RIface (Some (RSlice (map iface l)))
  end.

(** The values of a type with their encodings.  A trailing optional field may be
    left out when it is zero; a pointer with a "nil" tag is nil when the value is
    the empty one of its kind. *)
Fixpoint encodes (t : rtype) (v : rval) (b : bytes) : Prop :=
  match t with
  | TRaw => v = RRaw b /\ is_value b
  | TUint bits => exists i, v = RUint i /\ 0 <= i < 256 ^ (bits / 8) /\ b = rlp_str (be_bytes i)
  | TBool => exists x, v = RBool x /\ b = rlp_str (if (x : bool) then [Byte.x01] else [])
  | TBigPtr => exists i, v = RBigPtr (Some i) /\ 0 <= i /\ b = rlp_str (be_bytes i)
  | TBig => exists i, v = RBig i /\ 0 <= i /\ b = rlp_str (be_bytes i)
  | TString => exists x, v = RString x /\ b = rlp_str x
  | TBytes => exists x, v = RBytes x /\ b = rlp_str x
  | TByteArray n => exists x, v = RByteArray x /\ length x = n /\ b = rlp_str x
  | TSlice t => exists l p, v = RSlice l /\ seq_rel (encodes t) l p /\ b = rlp_list p
  | TTail t => exists l, v = RTail l /\ seq_rel (encodes t) l b
  | TArray n t => exists l p, v = RSlice l /\ length l = n /\ seq_rel (encodes t) l p /\ b = rlp_list p
  | TStruct fields optional => exists vs os p q, v = RStruct vs os /\ fields_rel (map encodes fields) vs p /\
      optional_rel optional (map encodes optional) os q /\ b = rlp_list (p ++ q)
  | TPtr None t => exists w, v = RPtr (nil_encoding None t) (Some w) /\ encodes t w b
  | TPtr (Some k) t =>
      let enc := nil_encoding (Some k) t in
      (v = RPtr enc None /\ b = [enc]) \/
      exists w, v = RPtr enc (Some w) /\ encodes t w b /\ b <> [to_byte 128] /\ b <> [to_byte 192]
  | TIface => exists x, v = iface x /\ b = rlp x
  end.

(** A field with the "tail" tag is the last one. *)
Fixpoint tail_last (ts : list rtype) : bool :=
  match ts with
  | [] | [_] => true
  | t :: ts => negb (is_tail t) && tail_last ts
  end.

(** The types the package makes decoders for. *)
Fixpoint type_ok (t : rtype) : bool :=
  match t with
  | TUint bits => (8 <=? bits) && (bits <=? 64)
  | TSlice t | TTail t | TArray _ t => negb (is_tail t) && type_ok t
  | TPtr k t => negb (bool_decide (k = Some KByte)) && negb (is_tail t) && type_ok t
  | TStruct fields optional =>
      forallb type_ok fields && forallb type_ok optional && tail_last fields && tail_last optional &&
      match optional with [] => true | _ => forallb (fun t => negb (is_tail t)) fields end
  | _ => true
  end.

Section RtypeInd.
Context (P : rtype -> Prop).
Context (HRaw : P TRaw) (HUint : forall n, P (TUint n)) (HBool : P TBool) (HBigPtr : P TBigPtr) (HBig : P TBig).
Context (HString : P TString) (HBytes : P TBytes) (HByteArray : forall n, P (TByteArray n)).
Context (HSlice : forall t, P t -> P (TSlice t)) (HTail : forall t, P t -> P (TTail t)).
Context (HArray : forall n t, P t -> P (TArray n t)).
Context (HStruct : forall fs os, Forall P fs -> Forall P os -> P (TStruct fs os)).
Context (HPtr : forall k t, P t -> P (TPtr k t)) (HIface : P TIface).

Fixpoint rtype_nested_ind (t : rtype) : P t :=
  let all := fix all (l : list rtype) : Forall P l :=
    match l with
    | [] => List.Forall_nil P
    | x :: rest => List.Forall_cons P x rest (rtype_nested_ind x) (all rest)
    end in
  match t with
  | TRaw => HRaw | TUint n => HUint n | TBool => HBool | TBigPtr => HBigPtr | TBig => HBig
  | TString => HString | TBytes => HBytes | TByteArray n => HByteArray n
  | TSlice t => HSlice t (rtype_nested_ind t)
  | TTail t => HTail t (rtype_nested_ind t)
  | TArray n t => HArray n t (rtype_nested_ind t)
  | TStruct fs os => HStruct fs os (all fs) (all os)
  | TPtr k t => HPtr k t (rtype_nested_ind t)
  | TIface => HIface
  end.
End RtypeInd.

(** *** Each decoder reads the encodings of its type *)

Lemma uint_rel bits i b :
  8 <= bits ->
  string_rel (fun b => canonical b /\ Z.of_nat (length b) <= bits / 8) be_val i b <->
  0 <= i < 256 ^ (bits / 8) /\ b = rlp_str (be_bytes i).
Proof.
  intros Hb. assert (0 <= bits / 8) by (apply Z.div_pos; lia). split.
  - intros (x & -> & [Hc Hl] & ->). rewrite be_bytes_be_val by done. split; [|done]. split; [apply be_val_nonneg|].
    pose proof (be_val_lt_pow (Z.to_nat (bits / 8)) x ltac:(lia)) as H1. by rewrite Z2Nat.id in H1 by lia.
  - intros [Hi ->]. exists (be_bytes i). rewrite be_val_be_bytes by lia. split_and!; [done|apply be_bytes_canonical; lia| |done].
    pose proof (length_be_bytes_le (Z.to_nat (bits / 8)) i) as H1. rewrite Z2Nat.id in H1 by lia. specialize (H1 Hi). lia.
Qed.

Lemma reader_decodeUint N bits : 8 <= bits -> reader N (decodeUint bits) (encodes (TUint bits)).
Proof.
  intros Hb. eapply reader_iff, reader_map, reader_wrap, (reader_uint N bits Hb). intros v b. cbn.
  setoid_rewrite (uint_rel bits _ b Hb). naive_solver.
Qed.

Lemma reader_decodeBool N : reader N decodeBool (encodes TBool).
Proof.
  eapply reader_iff, reader_map, reader_wrap.
  2:{ eapply reader_ext, (reader_then N _ (fun num => if num =? 0 then Ok false else if num =? 1 then Ok true else
        Err "rlp: invalid boolean value"%string) _ (reader_uint N 8 ltac:(lia))).
      - intros s. unfold Stream_Bool, mbind, StM_bind. destruct (Stream_uint 8 s) as [[n|e|p] s']; [|done..].
        by destruct (n =? 0); [|destruct (n =? 1)].
      - intros n. by destruct (n =? 0); [|destruct (n =? 1)]. }
  intros v b. cbn. setoid_rewrite (uint_rel 8 _ b ltac:(lia)). split.
  - intros (x & -> & n & [Hn ->] & E). exists x. split; [done|].
    destruct (Z.eqb_spec n 0) as [->|]; [by injection E as <-|]. destruct (Z.eqb_spec n 1) as [->|]; [by injection E as <-|done].
  - intros (x & -> & ->). exists x. split; [done|]. exists (if x then 1 else 0). by destruct x.
Qed.

Lemma reader_decodeBigInt N :
  reader N decodeBigInt (fun i b => 0 <= i /\ b = rlp_str (be_bytes i)).
Proof.
  eapply reader_iff, reader_wrap.
  2:{ eapply reader_ext, (reader_then N _ (fun b => if match b with x :: _ => byte_val x =? 0 | [] => false end
        then Err ErrCanonInt else Ok (be_val b)) _ (reader_big_buffer N)).
      - intros s. unfold mbind, StM_bind. destruct (big_buffer s) as [[b|e|p] s']; [|done..].
        by destruct (match b with x :: _ => _ | [] => _ end).
      - intros b. by destruct (match b with x :: _ => _ | [] => _ end). }
  assert (forall b, (match b with x :: _ => byte_val x =? 0 | [] => false end) = false <-> canonical b) as Hcan.
  { intros [|x b]; [done|]. cbn. unfold canonical. cbn. rewrite Z.eqb_neq. split; [intros H [= ->]; by apply H|].
    intros H E. apply H. f_equal. by apply byte_val_inj. }
  intros i b. split.
  - intros (x & (y & -> & _ & ->) & E). destruct (match id y with z :: _ => _ | [] => _ end) eqn:Ez; [done|].
    injection E as <-. apply Hcan in Ez. cbn in *. split; [apply be_val_nonneg|by rewrite be_bytes_be_val].
  - intros [Hi ->]. exists (be_bytes i). split; [by exists (be_bytes i)|].
    rewrite (proj2 (Hcan (be_bytes i))) by (by apply be_bytes_canonical). by rewrite be_val_be_bytes.
Qed.

(** An empty list is not searched for elements. *)
Lemma decodeListSlice_eq N fuel (d : StM Stream rval) R s :
  (N <= fuel)%nat -> reader N d R -> ready s -> (length (r s) < S N)%nat ->
  in_list Stream_ListEnd (decodeSliceElems fuel d) s = decodeListSlice fuel d s.
Proof.
  intros HN Hd Hs Hl. unfold in_list, decodeListSlice. unfold mbind, StM_bind.
  destruct (List_cases s Hs) as [(st & _ & E)|[(n & h & x & Hh)|[_ (e & s' & E & _)]]]; [by rewrite E| |by rewrite E].
  destruct (List_enter s n h x Hs Hh) as (s2 & st & E & Hr2 & Est & Er & _). unfold wrap. rewrite E.
  destruct (Z.eqb_spec (Z.of_nat n) 0) as [E0|]; [|done]. rewrite E0 in Est.
  pose proof (header_length _ _ _ _ (proj1 Hh)). rewrite Er, length_app in Hl. destruct fuel as [|f]; [lia|].
  cbn [decodeSliceElems]. unfold mbind, StM_bind, catch.
  rewrite (rd_end _ _ _ Hd s2 st) by (done || lia). done.
Qed.

Lemma reader_ext_ready N {A} (m m' : StM Stream A) R :
  reader N m R -> (forall s, ready s -> (length (r s) < N)%nat -> m s = m' s) ->
  (forall s kn s1, Stream_Kind s = (Ok kn, s1) -> m' s1 = m' s) -> reader N m' R.
Proof.
  intros [[Ht Hs Hc] Hr Hn He Hp] E Hp'. split; [split| | | |]; try done; try (intros; by eapply Hp').
  - intros s H1 H2. rewrite <- E by done. by apply Ht.
  - intros s a s' H1 H2. rewrite <- E by done. by apply Hs.
  - intros s a b rest H1 H2. rewrite <- E by done. by apply Hc.
  - intros s a s' H1 H2. rewrite <- E by done. by apply Hr.
  - intros s st H1 H2. rewrite <- E by done. by apply He.
Qed.

Lemma reader_slice N fuel (d : StM Stream rval) R :
  (N <= fuel)%nat -> reader N d R ->
  reader (S N) (decodeListSlice fuel d) (fun l b => exists p, seq_rel R l p /\ b = rlp_list p).
Proof.
  intros HN Hd. eapply reader_ext_ready.
  - eapply (reader_list N Stream_ListEnd); [by left|by eapply parses_elems].
  - intros s Hs Hl. by eapply decodeListSlice_eq.
  - intros s kn s1 E. unfold decodeListSlice, wrap, Stream_List, mbind, StM_bind. by rewrite (Kind_again _ _ _ E), E.
Qed.

Lemma parses_array N n (d : StM Stream rval) R :
  reader N d R -> parses N Fields (array_elems n d) (fun l b => length l = n /\ seq_rel R l b).
Proof.
  intros Hd. induction n as [|n IH].
  - eapply parses_iff; [|apply parses_ret]. intros l b. split.
    + intros [-> ->]. split; [done|by exists []].
    + intros [Hl (bs & HF & ->)]. destruct l; [|done]. by inversion HF.
  - eapply parses_ext, parses_iff, (parses_bind N Fields (field (decodeError "input list has too few elements") d)
      (fun v => vs ← array_elems n d; mret (v :: vs))); [| |done|by eapply parses_field|intros v; by eapply (parses_map N Fields _ (cons v))].
    + intros s. cbn [array_elems]. unfold field, mbind, StM_bind, catch. by destruct (d s) as [[v|e|p] s1].
    + intros l b. split.
      * intros (v & b1 & b2 & -> & HR & vs & -> & Hl & (bs & HF & ->)). cbn. split; [congruence|]. exists (b1 :: bs).
        split; [by constructor|done].
      * intros [Hl (bs & HF & ->)]. destruct HF as [|v b1 vs bs HR HF]; [done|]. injection Hl as Hl.
        exists v, b1, (concat bs). split_and!; [done..|]. exists vs. split_and!; [done..|by exists bs].
Qed.

Lemma reader_array N n (d : StM Stream rval) R :
  reader N d R -> reader (S N) (decodeListArray n d) (fun l b => exists p, (length l = n /\ seq_rel R l p) /\ b = rlp_list p).
Proof.
  intros Hd. apply (reader_list N (wrap Stream_ListEnd) (array_elems n d)); [by right|].
  by apply parses_rest, parses_array.
Qed.

(** Optional fields next to their decoders. *)
Lemma zip_decoders (f : rtype -> StM Stream rval) ts : map (fun t => (t, f t)) ts = zip ts (map f ts).
Proof. induction ts as [|t ts IH]; cbn; [done|]. by rewrite IH. Qed.

Lemma reader_struct N md fs Rs ts os Qs :
  fields_ok N md fs Rs -> optional_ok N ts os Qs -> (ts = [] \/ md = Fields) ->
  reader (S N) (makeStructDecoder fs (zip ts os))
    (fun v b => exists p, (exists vs ows p1 p2, v = RStruct vs ows /\ fields_rel Rs vs p1 /\ optional_rel ts Qs ows p2 /\
                 p = p1 ++ p2) /\ b = rlp_list p).
Proof.
  intros Hf Ho Hmd.
  eapply reader_ext, (reader_list N (wrap Stream_ListEnd)
    (vs ← required_fields fs; ows ← optional_fields (zip ts os); mret (RStruct vs ows))); [|by right|].
  - intros s. unfold in_list, makeStructDecoder, mbind, StM_bind. destruct (wrap Stream_List s) as [[n|e|p] s1]; [|done..].
    destruct (required_fields fs s1) as [[vs|e|p] s2]; [|done..]. by destruct (optional_fields _ s2) as [[ows|e|p] s3].
  - destruct Hmd as [->| ->].
    + inversion Ho; subst. eapply parses_iff, parses_ext, (parses_map N Rest (required_fields fs) (fun vs => RStruct vs [])).
      3:{ destruct md; [by apply fields_ok_mode in Hf|by apply parses_rest, parses_required|by apply parses_required]. }
      2:{ intros s. unfold mbind, StM_bind. by destruct (required_fields fs s) as [[vs|e|p] s1]. }
      intros v b. cbn. split; [intros (vs & -> & H); exists vs, [], b, []; by rewrite app_nil_r|].
      intros (vs & ows & p1 & p2 & -> & H & [-> ->] & ->). rewrite app_nil_r. eauto.
    + eapply parses_iff, (parses_bind N Rest _ _ _ _ ltac:(done) (parses_required N Fields fs Rs Hf)).
      2:{ intros vs. eapply (parses_map N Rest _ (RStruct vs)), (parses_optional N ts os Qs Ho). }
      intros v b. cbn. naive_solver.
Qed.

(** The errors of the look at the kind are renamed. *)
Lemma reader_wrap_kind N {A} (f : Kind * Z -> StM Stream A) R :
  reader N (Stream_Kind ≫= f) R -> reader N (wrap Stream_Kind ≫= f) R.
Proof.
  assert (forall s, (wrap Stream_Kind ≫= f) s = (Stream_Kind ≫= f) s \/
    exists e s', (Stream_Kind ≫= f) s = (Err e, s') /\ (wrap Stream_Kind ≫= f) s = (Err (wrapStreamError e), s')) as H.
  { intros s. unfold wrap, mbind, StM_bind. destruct (Stream_Kind s) as [[kn|e|p] s']; [by left|right; by eauto|by left]. }
  intros [[Ht Hs Hc] Hr Hn He Hp]. split; [split| | | |]; try done.
  - intros s H1 H2. specialize (Ht s H1 H2). destruct (H s) as [->|(e & s' & E & ->)]; [done|]. rewrite E in Ht.
    intros Ew. by apply Ht, wrap_EOL.
  - intros s a s' H1 H2. destruct (H s) as [->|(e & s1 & E & ->)]; [by apply Hs|done].
  - intros s a b rest H1 H2 H3 H4 H5 H6 H7. destruct (Hc s a b rest H1 H2 H3 H4 H5 H6 H7) as (s' & E & Hm).
    destruct (H s) as [->|(e & s1 & E' & _)]; [by exists s'|congruence].
  - intros s a s' H1 H2. destruct (H s) as [->|(e & s1 & E & ->)]; [by apply Hr|done].
  - intros s st H1 H2 H3. specialize (He s st H1 H2 H3). destruct (H s) as [->|(e & s1 & E & ->)]; [done|].
    rewrite He in E. by injection E as <- <-.
  - intros s kn s1 _ _ E. unfold wrap, mbind, StM_bind. by rewrite (Kind_again _ _ _ E), E.
Qed.

(** The empty values. *)
Lemma header_empty k n h x :
  header k n h x -> Z.of_nat n < two64 ->
  (k <> KByte /\ n = 0%nat) <-> (h = [to_byte 128] \/ h = [to_byte 192]).
Proof.
  intros Hh Hn. split.
  - intros [Hk ->]. destruct k; [done|..]; destruct Hh as [-> _]; [by left|by right].
  - intros E. destruct (header_first _ _ _ _ Hh Hn) as (b0 & tl & -> & Hf).
    assert (tl = [] /\ (byte_val b0 = 128 \/ byte_val b0 = 192)) as [-> Hb] by (destruct E as [[= -> ->]|[= -> ->]]; naive_solver).
    destruct k; repeat match goal with H : _ \/ _ |- _ => destruct H end; destruct_and?; cbn in *; (split; [done|lia]) || lia.
Qed.

Lemma nil_encoding_header k t :
  k <> KByte -> header k 0 [nil_encoding (Some k) t] Byte.x00.
Proof. intros Hk. by destruct k. Qed.

(** A pointer with a "nil" tag, behind the look at the kind. *)
Definition nil_content (k : Kind) (t : rtype) (d : StM Stream rval) : Kind * Z -> StM Stream rval :=
  fun '(kind, size) =>
    if negb (bool_decide (kind = KByte)) && (size =? 0) then
      if negb (bool_decide (kind = k)) then pure (Err (decodeError "wrong kind of empty value"))
      else _ ← putS rearm; mret (RPtr (nil_encoding (Some k) t) None)
    else v ← d; mret (RPtr (nil_encoding (Some k) t) (Some v)).

Lemma empty_test k (n : nat) :
  negb (bool_decide (k = KByte)) && (Z.of_nat n =? 0) = true <-> k <> KByte /\ n = 0%nat.
Proof. rewrite andb_true_iff, negb_true_iff, bool_decide_eq_false, Z.eqb_eq. naive_solver lia. Qed.

Lemma nil_total N k t d s k0 n h x :
  k <> KByte -> reader N d (encodes t) -> ready s -> (length (r s) < N)%nat -> head_at s k0 n h x ->
  match nil_content k t d (k0, Z.of_nat n) (ahead s k0 n h x) with
  | (Ok a, s') => ready s' /\ debt s <= debt s' /\ (length (r s') < length (r s))%nat /\
                  length (stack s') = length (stack s) /\
                  (debt s' <= 0 -> exists b, encodes (TPtr (Some k) t) a b /\ moved b s s')
  | (Err e, _) => e <> EOL
  | (Panic _, _) => False
  end.
Proof.
  intros Hk Hd Hs HN Hh. unfold nil_content. pose proof (head_at_u64 _ _ _ _ _ (proj1 Hs) Hh) as Hn.
  destruct (negb _ && _) eqn:Ee.
  - apply empty_test in Ee as [Hk0 ->]. case_bool_decide as Ek; cbn; [subst k0|done].
    pose proof (moved_rearm s k h x Hs Hh) as Hm. destruct (moved_total _ _ _ Hm) as (? & ? & _ & ?).
    pose proof (header_length _ _ _ _ (proj1 Hh)). pose proof Hm as (_ & Er & _).
    split_and!; try done; [rewrite Er, length_app; lia|]. intros _. exists h. split; [|done]. left. split; [done|].
    destruct Hh as [Hh _]. destruct k; [done|..]; by destruct Hh as [-> _].
  - pose proof (ra_total _ _ _ (reader_runs_at _ _ _ (reader_map N d (fun v => RPtr (nil_encoding (Some k) t) (Some v)) _ Hd)) s k0 n h x Hs HN Hh) as Ht.
    cbn beta in Ht. destruct ((v ← d; _) _) as [[a|e|p] s']; [|done..].
    destruct Ht as (? & ? & ? & ? & Hsnd). split_and!; try done. intros Hd'.
    destruct (Hsnd Hd') as (b & (w & -> & HR) & Hm). exists b. split; [|done]. right. exists w. split_and!; try done.
    all: intros ->; assert (k0 <> KByte /\ n = 0%nat) as Hbad; [|apply empty_test in Hbad; congruence].
    all: apply (header_empty k0 n h x (proj1 Hh) Hn); destruct Hh as (Hh & _ & _ & rest & Er & _).
    all: destruct Hm as (_ & Er' & _); rewrite Er in Er'.
    + destruct (header_unique _ _ _ _ _ KString 0 [to_byte 128] Byte.x00 _ Hh ltac:(done) Hn ltac:(done) Er') as (_ & _ & -> & _). by left.
    + destruct (header_unique _ _ _ _ _ KList 0 [to_byte 192] Byte.x00 _ Hh ltac:(done) Hn ltac:(done) Er') as (_ & _ & -> & _). by right.
Qed.

Lemma nil_complete N k t d s k0 n h x v b rest :
  k <> KByte -> reader N d (encodes t) -> ready s -> (length (r s) < N)%nat -> head_at s k0 n h x -> debt s <= 0 ->
  encodes (TPtr (Some k) t) v b -> r s = b ++ rest -> room s (length b) ->
  exists s', nil_content k t d (k0, Z.of_nat n) (ahead s k0 n h x) = (Ok v, s') /\ moved b s s'.
Proof.
  intros Hk Hd Hs HN Hh Hd0 HR Er Hr. unfold nil_content. pose proof (head_at_u64 _ _ _ _ _ (proj1 Hs) Hh) as Hn.
  destruct HR as [[-> ->]|(w & -> & HR & Hb1 & Hb2)].
  - destruct (value_head s _ rest ltac:(exists k, 0%nat, [nil_encoding (Some k) t], Byte.x00, []; split_and!; [by apply nil_encoding_header|done..]) Er Hr)
      as (k' & n' & h' & x' & c & Hh' & Eb & Hc' & _).
    destruct (head_at_unique s _ _ _ _ _ _ _ _ (proj1 Hs) Hh Hh') as (<- & <- & <- & <-).
    assert (k0 = k /\ n = 0%nat) as [-> ->].
    { destruct (header_unique _ _ _ _ c k 0 [nil_encoding (Some k) t] Byte.x00 [] (proj1 Hh) (nil_encoding_header k t Hk) Hn ltac:(done)) as (-> & -> & _); [|done].
      by rewrite <- Eb, app_nil_r. }
    rewrite (proj2 (empty_test k 0%nat)) by done. rewrite bool_decide_true by done. cbn.
    eexists. split; [reflexivity|]. destruct c; [|done]. cbn in Eb. rewrite app_nil_r in Eb. subst h. by apply moved_rearm.
  - destruct (negb _ && _) eqn:Ee.
    + exfalso. apply empty_test in Ee. pose proof (proj1 (header_empty k0 n h x (proj1 Hh) Hn) Ee) as Eh.
      destruct (value_head s b rest (rd_value _ _ _ Hd _ _ HR) Er Hr) as (k' & n' & h' & x' & c & Hh' & -> & Hc' & _).
      destruct (head_at_unique s _ _ _ _ _ _ _ _ (proj1 Hs) Hh Hh') as (<- & <- & <- & <-).
      destruct Ee as [_ ->]. destruct c; [|done]. rewrite app_nil_r in *. naive_solver.
    + apply (ra_complete _ _ _ (reader_runs_at _ _ _ (reader_map N d (fun v => RPtr (nil_encoding (Some k) t) (Some v)) _ Hd)) s k0 n h x _ b rest Hs HN Hh Hd0);
        [by exists w|done|done].
Qed.

Lemma reader_nil_ptr N k t d :
  k <> KByte -> reader N d (encodes t) ->
  reader N (makeNilPtrDecoder k (nil_encoding (Some k) t) d) (encodes (TPtr (Some k) t)).
Proof.
  intros Hk Hd. apply (reader_wrap_kind N (nil_content k t d)), reader_dispatch.
  - split; [intros; by eapply nil_total|intros; by eapply nil_complete].
  - intros v b [[-> ->]|(w & _ & HR & _)]; [|by eapply rd_value].
    exists k, 0%nat, [nil_encoding (Some k) t], Byte.x00, []. split_and!; [by apply nil_encoding_header|done..].
Qed.

(** *** Any value *)

Lemma iface_list_rel l p :
  seq_rel (encodes TIface) l p <-> exists xs, l = map iface xs /\ p = concat (map rlp xs).
Proof.
  split.
  - intros (bs & HF & ->). induction HF as [|v b l bs (x & -> & ->) HF (xs & -> & E)]; [by exists []|].
    exists (x :: xs). split; [done|]. cbn. by rewrite E.
  - intros (xs & -> & ->). exists (map rlp xs). split; [|done]. induction xs as [|x xs IH]; constructor; [by exists x|done].
Qed.

Lemma rlp_value x : is_value (rlp x).
Proof. destruct x; [apply rlp_str_value|apply rlp_list_value]. Qed.

(** Strings and lists differ in their kind. *)
Lemma head_of_item s k n h x i rest :
  ready s -> head_at s k n h x -> r s = rlp i ++ rest -> room s (length (rlp i)) ->
  match i with Str _ => k <> KList | Lst _ => k = KList end.
Proof.
  intros Hs Hh Er Hr. pose proof (head_at_u64 _ _ _ _ _ (proj1 Hs) Hh) as Hn.
  pose proof (length_u64 s (proj1 Hs)) as [_ Hu]. rewrite Er, length_app in Hu.
  destruct Hh as (Hh & _ & _ & rest' & Er' & _). rewrite Er in Er'. destruct i as [b|l]; cbn [rlp] in *.
  - destruct (rlp_str_cases b) as [(y & -> & Hy & Eb)|[_ Eb]]; rewrite Eb in *.
    + by destruct (header_unique KByte 0 [y] y _ _ _ _ _ _ ltac:(done) Hh ltac:(done) Hn Er') as (<- & _).
    + rewrite <- app_assoc in Er'. rewrite length_app in Hu.
      by destruct (header_unique KString (length b) _ Byte.x00 _ _ _ _ _ _ (conj eq_refl eq_refl) Hh ltac:(lia) Hn Er') as (<- & _).
  - unfold rlp_list in *. rewrite <- app_assoc in Er'. rewrite length_app in Hu.
    by destruct (header_unique KList (length (concat (map rlp l))) _ Byte.x00 _ _ _ _ _ _ (conj eq_refl eq_refl) Hh ltac:(lia) Hn Er') as (<- & _).
Qed.

Lemma reader_iface fuel depth : (depth <= fuel)%nat -> reader depth (decodeInterface fuel depth) (encodes TIface).
Proof.
  induction depth as [|d IH]; intros Hle.
  { split; [split| | | |]; try (intros; lia). intros v b (x & -> & ->). apply rlp_value. }
  cbn [decodeInterface].
  pose proof (reader_map (S d) _ (fun l => RIface (Some (RSlice l))) _ (reader_slice d fuel _ _ ltac:(lia) (IH ltac:(lia)))) as Hl.
  pose proof (reader_map (S d) _ (fun b => RIface (Some (RBytes b))) _ (reader_Bytes (S d))) as Hb.
  apply reader_dispatch; [|intros v b (x & -> & ->); apply rlp_value]. split.
  - intros s k n h x Hs HN Hh. destruct (decide (k = KList)) as [->|Hk].
    + rewrite bool_decide_true by done. pose proof (ra_total _ _ _ (reader_runs_at _ _ _ Hl) s _ n h x Hs HN Hh) as Ht.
      cbn beta in Ht. destruct ((l ← decodeListSlice _ _; _) _) as [[a|e|p] s']; [|done..].
      destruct Ht as (? & ? & ? & ? & Hsnd). split_and!; try done. intros Hd.
      destruct (Hsnd Hd) as (b & (l & -> & p & Hp & ->) & Hm). apply iface_list_rel in Hp as (xs & -> & ->).
      eexists. split; [by exists (Lst xs)|done].
    + rewrite bool_decide_false by done. pose proof (ra_total _ _ _ (reader_runs_at _ _ _ Hb) s _ n h x Hs HN Hh) as Ht.
      cbn beta in Ht. destruct ((b ← Stream_Bytes; _) _) as [[a|e|p] s']; [|done..].
      destruct Ht as (? & ? & ? & ? & Hsnd). split_and!; try done. intros Hd.
      destruct (Hsnd Hd) as (b & (c & -> & y & -> & _ & ->) & Hm). exists (rlp_str y). split; [by exists (Str y)|done].
  - intros s k n h x v b rest Hs HN Hh Hd (i & -> & ->) Er Hr. pose proof (head_of_item _ _ _ _ _ _ _ Hs Hh Er Hr) as Hk.
    destruct i as [y|xs].
    + rewrite bool_decide_false by done. apply (ra_complete _ _ _ (reader_runs_at _ _ _ Hb) s k n h x _ (rlp (Str y)) rest Hs HN Hh Hd); [|done..].
      exists y. split; [done|]. by exists y.
    + rewrite bool_decide_true by done. apply (ra_complete _ _ _ (reader_runs_at _ _ _ Hl) s k n h x _ (rlp (Lst xs)) rest Hs HN Hh Hd); [|done..].
      exists (map iface xs). split; [done|]. eexists. split; [apply iface_list_rel; by exists xs|done].
Qed.

(** ** The decoder of every type *)

(** The parser a type needs. *)
Definition reads (fuel : nat) (t : rtype) : Prop :=
  if is_tail t then parses fuel Rest (decode fuel t) (encodes t) else reader fuel (decode fuel t) (encodes t).

Lemma fields_of_types fuel fs :
  Forall (reads fuel) fs -> tail_last fs = true ->
  exists md, fields_ok fuel md (map (decode fuel) fs) (map encodes fs) /\
    (forallb (fun t => negb (is_tail t)) fs = true -> md = Fields).
Proof.
  induction 1 as [|t fs Ht HF IH]; intros Hl; [by exists Fields; split; [constructor|]|]. unfold reads in Ht.
  destruct (is_tail t) eqn:Et.
  - destruct fs as [|t' fs]; [|cbn in Hl; by rewrite Et in Hl]. exists Rest. split; [by constructor|]. cbn. by rewrite Et.
  - destruct IH as (md & Hok & Hmd); [destruct fs; [done|cbn in Hl; by rewrite Et in Hl]|]. exists md.
    split; [by constructor|]. cbn. by rewrite Et.
Qed.

Lemma optional_of_types fuel os :
  Forall (reads fuel) os -> tail_last os = true -> optional_ok fuel os (map (decode fuel) os) (map encodes os).
Proof.
  induction 1 as [|t os Ht HF IH]; intros Hl; [constructor|]. unfold reads in Ht. destruct (is_tail t) eqn:Et.
  - destruct os as [|t' os]; [|cbn in Hl; by rewrite Et in Hl]. by constructor.
  - constructor; [done..|]. apply IH. destruct os; [done|]. cbn in Hl. by rewrite Et in Hl.
Qed.

Lemma reads_struct fuel fs os :
  Forall (reads fuel) fs -> Forall (reads fuel) os -> tail_last fs = true -> tail_last os = true ->
  match os with [] => true | _ => forallb (fun t => negb (is_tail t)) fs end = true -> reads fuel (TStruct fs os).
Proof.
  intros Hf Ho Hlf Hlo Hno. destruct (fields_of_types fuel fs Hf Hlf) as (md & Hfo & Hmd). unfold reads. cbn [is_tail decode].
  rewrite zip_decoders. apply (reader_le fuel (S fuel)); [lia|].
  eapply reader_iff, (reader_struct fuel md _ _ os _ _ Hfo (optional_of_types fuel os Ho Hlo)).
  - intros v b. cbn [encodes]. naive_solver.
  - destruct os; [by left|right; by apply Hmd].
Qed.

Lemma decode_reads fuel t : type_ok t = true -> reads fuel t.
Proof.
  induction t as [|bits| | | | | |n|t IH|t IH|n t IH|fs os IHf IHo|k t IH|] using rtype_nested_ind;
    cbn [type_ok]; intros Hok; repeat match goal with H : _ && _ = true |- _ => apply andb_true_iff in H as [? ?] end;
    try (match goal with H : negb (is_tail t) = true |- _ => apply negb_true_iff in H as Ht end;
         specialize (IH ltac:(done)); unfold reads in IH; rewrite Ht in IH); unfold reads; cbn [is_tail decode].
  - eapply reader_iff, reader_map, reader_Raw. cbn. naive_solver.
  - apply reader_decodeUint. lia.
  - apply reader_decodeBool.
  - eapply reader_iff, reader_map, reader_decodeBigInt. done.
  - eapply reader_iff, reader_map, reader_decodeBigInt. done.
  - eapply reader_iff, reader_map, reader_wrap, reader_Bytes. unfold string_rel, id. cbn. naive_solver.
  - eapply reader_iff, reader_map, reader_wrap, reader_Bytes. unfold string_rel, id. cbn. naive_solver.
  - eapply reader_iff, reader_map, reader_decodeByteArray. unfold string_rel, id. cbn. naive_solver.
  - apply (reader_le fuel (S fuel)); [lia|]. eapply reader_iff, reader_map, reader_slice, IH; [|lia]. cbn. naive_solver.
  - eapply parses_iff, parses_map, parses_elems, IH; [|lia]. done.
  - apply (reader_le fuel (S fuel)); [lia|]. eapply reader_iff, reader_map, reader_array, IH. cbn. naive_solver.
  - apply reads_struct; try done; rewrite Forall_forall in *; intros x Hx.
    + apply IHf; [done|]. eapply (proj1 (forallb_forall type_ok fs)); [done|by apply list_elem_of_In].
    + apply IHo; [done|]. eapply (proj1 (forallb_forall type_ok os)); [done|by apply list_elem_of_In].
  - destruct k as [k|]; cbn [makePtrDecoder].
    + apply reader_nil_ptr; [|done]. intros ->. by rewrite bool_decide_true in *.
    + eapply reader_iff, reader_map, IH. done.
  - by apply reader_iface.
Qed.

Lemma reset_ready b s0 :
  Z.of_nat (length b) <= maxInt64 ->
  let s := Reset true b (Z.of_nat (length b)) s0 in
  ready s /\ r s = b /\ stack s = [] /\ debt s <= 0.
Proof.
  intros Hb. cbn. split_and!; [|done..|unfold debt; cbn; lia].
  split; [|done]. split; cbn; [by rewrite orb_true_r|by destruct (0 <? _)|done|by constructor].
Qed.

(** From an empty stack to an empty stack nothing wrapped around. *)
Lemma debt_top s : stack s = [] -> debt s <= 0.
Proof. intros E. unfold debt. rewrite E. cbn. lia. Qed.

Lemma DecodeBytes_spec t b s0 :
  type_ok t = true -> is_tail t = false -> Z.of_nat (length b) <= maxInt64 ->
  (forall v, DecodeBytes t b s0 = Ok v <-> encodes t v b) /\ (forall p, DecodeBytes t b s0 <> Panic p).
Proof.
  intros Hok Ht Hb. destruct (reset_ready b s0 Hb) as (Hs & Er & Est & Hd). unfold DecodeBytes, Stream_Decode.
  set (s := Reset true b (Z.of_nat (length b)) s0) in *.
  pose proof (decode_reads (S (length (r s))) t Hok) as Hrd. unfold reads in Hrd. rewrite Ht in Hrd.
  destruct (rd_parses _ _ _ Hrd) as [Htot Hsnd Hc]. specialize (Htot s Hs ltac:(lia)). specialize (Hsnd s).
  split; [intros v; split|].
  - destruct (decode _ t s) as [[v'|e|p] s'] eqn:E; [|done..]. cbn. unfold ensure.
    destruct (Nat.eqb_spec (length (r s')) 0) as [E0|]; [|done]. intros [= ->].
    destruct Htot as (_ & _ & _ & Hst). rewrite Est in Hst. apply length_zero_iff_nil in Hst, E0.
    destruct (Hsnd v s' Hs ltac:(lia) eq_refl (debt_top s' Hst)) as (c & HR & (_ & Em & _)).
    rewrite Er, E0, app_nil_r in Em. by subst c.
  - intros HR. destruct (Hc s v b [] Hs ltac:(lia) Hd HR) as (s' & -> & (_ & Em & _)); [by rewrite app_nil_r| |done|].
    + unfold room. by rewrite Est.
    + rewrite Er in Em. cbn. replace (r s') with (@nil byte); [done|]. apply (app_inv_head b). by rewrite app_nil_r.
  - intros p. destruct (decode _ t s) as [[v|e|q] s']; [|done..]. cbn. by destruct (_ =? _)%nat.
Qed.

(** ** Decoding and the encoder *)

Lemma seq_outcome_app l1 l2 b1 b2 :
  seq_outcome l1 = Ok b1 -> seq_outcome l2 = Ok b2 -> seq_outcome (l1 ++ l2) = Ok (b1 ++ b2).
Proof.
  revert b1. induction l1 as [|m l1 IH]; intros b1 E1 E2; cbn in *; [by injection E1 as <-|].
  apply bind_Ok in E1 as (b & -> & E1). apply bind_Ok in E1 as (c & Ec & [= <-]). cbn.
  rewrite (IH c Ec E2). cbn. by rewrite app_assoc.
Qed.

Lemma seq_outcome_concat l bs :
  Forall2 (fun v b => rlp_val v = Ok b) l bs -> seq_outcome (map rlp_val l) = Ok (concat bs).
Proof. induction 1 as [|v b l bs Hv _ IH]; [done|]. cbn. by rewrite Hv, IH. Qed.

Lemma rlp_val_iface x : rlp_val (iface x) = Ok (rlp x).
Proof.
  induction x as [b|l IH] using item_nested_ind; [done|]. cbn.
  rewrite (seq_outcome_concat (map iface l) (map rlp l)); [done|].
  induction IH as [|x l Hx _ IHl]; constructor; done.
Qed.

(** No struct in the type has optional fields. *)
Fixpoint no_optional (t : rtype) : bool :=
  match t with
  | TSlice t | TTail t | TArray _ t | TPtr _ t => no_optional t
  | TStruct fields optional => forallb no_optional fields && bool_decide (optional = [])
  | _ => true
  end.

(** What is read is then what the encoder writes. *)
Definition reencodes (t : rtype) : Prop :=
  no_optional t = true -> forall v b, encodes t v b -> rlp_val v = Ok b.

Lemma reencodes_seq t l p :
  no_optional t = true -> reencodes t -> seq_rel (encodes t) l p -> seq_outcome (map rlp_val l) = Ok p.
Proof.
  intros Hn Ht (bs & HF & ->). apply seq_outcome_concat. eapply Forall2_impl; [exact HF|]. intros v b. by apply Ht.
Qed.

Lemma reencodes_fields fs vs p :
  Forall (fun t => no_optional t = true) fs -> Forall reencodes fs -> fields_rel (map encodes fs) vs p ->
  seq_outcome (map rlp_val vs) = Ok p.
Proof.
  intros Hn Hf. revert vs p. induction Hf as [|t fs Ht Hf IH]; intros [|v vs] p HR; cbn in HR; try done; [by subst p|].
  apply Forall_cons in Hn as [Hn1 Hn2]. destruct HR as (b1 & b2 & -> & H1 & H2). cbn.
  by rewrite (Ht Hn1 v b1 H1), (IH Hn2 vs b2 H2).
Qed.

Lemma encodes_rlp_val t : reencodes t.
Proof.
  induction t as [|bits| | | | | |n|t IH|t IH|n t IH|fs os IHf _|k t IH|] using rtype_nested_ind; intros Hn v b; cbn [encodes no_optional] in *.
  - by intros [-> _].
  - by intros (i & -> & _ & ->).
  - by intros (x & -> & ->).
  - intros (i & -> & Hi & ->). cbn. unfold rlp_big. by rewrite (proj2 (Z.ltb_ge i 0)).
  - intros (i & -> & Hi & ->). cbn. unfold rlp_big. by rewrite (proj2 (Z.ltb_ge i 0)).
  - by intros (x & -> & ->).
  - by intros (x & -> & ->).
  - by intros (x & -> & _ & ->).
  - intros (l & p & -> & Hl & ->). cbn. by rewrite (reencodes_seq t l p Hn IH Hl).
  - intros (l & -> & Hl). cbn. by rewrite (reencodes_seq t l b Hn IH Hl).
  - intros (l & p & -> & _ & Hl & ->). cbn. by rewrite (reencodes_seq t l p Hn IH Hl).
  - apply andb_true_iff in Hn as [Hn Ho]. apply bool_decide_eq_true in Ho as ->.
    intros (vs & os & p & q & -> & Hf & [-> ->] & ->). cbn. rewrite !app_nil_r.
    rewrite (reencodes_fields fs vs p); [done| |done|done]. apply Forall_forall. intros t Ht.
    by apply (proj1 (forallb_forall no_optional fs) Hn), list_elem_of_In.
  - destruct k as [k|]; [|intros (w & -> & HR); exact (IH Hn w b HR)].
    intros [[-> ->]|(w & -> & HR & _)]; [done|exact (IH Hn w b HR)].
  - intros (x & -> & ->). apply rlp_val_iface.
Qed.

Lemma uints_zero t : uints_ok (zero t).
Proof.
  induction t as [|bits| | | | | |n|t IH|t IH|n t IH|fs os IHf IHo|k t IH|] using rtype_nested_ind; try done; cbn.
  - induction n; cbn; [done|]. by split.
  - split; [by induction IHf|by induction IHo].
Qed.

Lemma uints_fields fs vs p :
  Forall (fun t => forall v b, encodes t v b -> uints_ok v) fs -> fields_rel (map encodes fs) vs p ->
  fold_right (fun x P => uints_ok x /\ P) True vs.
Proof.
  intros Hf. revert vs p. induction Hf as [|t fs Ht Hf IH]; intros [|v vs] p HR; cbn in HR |- *; try done.
  destruct HR as (b1 & b2 & -> & H1 & H2). split; [by eapply Ht|by eapply IH].
Qed.

Lemma uints_optional ts os p :
  Forall (fun t => forall v b, encodes t v b -> uints_ok v) ts -> optional_rel ts (map encodes ts) os p ->
  fold_right (fun x P => uints_ok x.2 /\ P) True os.
Proof.
  intros Hf. revert os p. induction Hf as [|t ts Ht Hf IH]; intros os p HR; cbn in HR; [by destruct HR as [-> _]|].
  destruct HR as [(_ & -> & _)|(v & os' & b1 & b2 & -> & _ & H1 & H2)]; cbn.
  - split; [apply uints_zero|]. clear. induction ts; cbn; [done|]. split; [apply uints_zero|done].
  - split; [by eapply Ht|by eapply IH].
Qed.

Lemma forall_types (P : rtype -> Prop) ts :
  Forall (fun t => type_ok t = true -> P t) ts -> forallb type_ok ts = true -> Forall P ts.
Proof.
  induction 1 as [|t ts Ht _ IH]; cbn; [done|]. intros [H1 H2]%andb_true_iff. constructor; [by apply Ht|by apply IH].
Qed.

(** Machine integers that were read are in range. *)
Lemma encodes_uints t : type_ok t = true -> forall v b, encodes t v b -> uints_ok v.
Proof.
  induction t as [|bits| | | | | |n|t IH|t IH|n t IH|fs os IHf IHo|k t IH|] using rtype_nested_ind; intros Hok v b; cbn [encodes type_ok] in *;
    repeat match goal with H : _ && _ = true |- _ => apply andb_true_iff in H as [? ?] end.
  - by intros [-> _].
  - intros (i & -> & Hi & ->). cbn. unfold is_u64. split; [lia|]. eapply Z.lt_le_trans; [apply Hi|].
    change two64 with (256 ^ 8). apply Z.pow_le_mono_r; [lia|]. apply Z.div_le_upper_bound; lia.
  - by intros (x & -> & ->).
  - by intros (i & -> & Hi & ->).
  - by intros (i & -> & Hi & ->).
  - by intros (x & -> & ->).
  - by intros (x & -> & ->).
  - by intros (x & -> & _ & ->).
  - intros (l & p & -> & (bs & HF & _) & _). cbn. induction HF; cbn; [done|]. split; [by eapply IH|done].
  - intros (l & -> & (bs & HF & _)). cbn. induction HF; cbn; [done|]. split; [by eapply IH|done].
  - intros (l & p & -> & _ & (bs & HF & _) & _). cbn. induction HF; cbn; [done|]. split; [by eapply IH|done].
  - intros (vs & ows & p & q & -> & Hf & Ho & _). cbn.
    split; [eapply uints_fields; [by apply (forall_types _ fs IHf)|exact Hf]|].
    eapply uints_optional; [by apply (forall_types _ os IHo)|exact Ho].
  - destruct k as [k|]; [|intros (w & -> & HR); cbn; by eapply IH].
    intros [[-> ->]|(w & -> & HR & _)]; cbn; [done|by eapply IH].
  - intros (x & -> & _). clear. induction x as [b|l IH] using item_nested_ind; [done|]. cbn.
    induction IH as [|x l Hx _ IHl]; cbn; [done|]. by split.
Qed.

(** *** Values of a type *)

(** Optional fields that are left out are zero; the others say truly whether they
    are. *)
Fixpoint optional_typed (ts : list rtype) (Ps : list (rval -> Prop)) (os : list (bool * rval)) : Prop :=
  match ts, Ps, os with
  | [], [], [] => True
  | t :: ts', P :: Ps, (z, v) :: os' =>
      (is_tail t = false /\ os = zeroFields ts) \/ (z = is_zero t v /\ P v /\ optional_typed ts' Ps os')
  | _, _, _ => False
  end.

(** The values of a type that have an encoding of their own: pointers are not nil,
    unless a tag gives nil the encoding of the empty value, which no other
    value has then. *)
Fixpoint typed (t : rtype) (v : rval) : Prop :=
  match t, v with
  | TRaw, RRaw b => is_value b
  | TUint bits, RUint i => 0 <= i < 256 ^ (bits / 8)
  | TBool, RBool _ => True
  | TBigPtr, RBigPtr (Some i) | TBig, RBig i => 0 <= i
  | TString, RString _ | TBytes, RBytes _ => True
  | TByteArray n, RByteArray b => length b = n
  | TSlice t, RSlice l | TTail t, RTail l => Forall (typed t) l
  | TArray n t, RSlice l => length l = n /\ Forall (typed t) l
  | TStruct fields optional, RStruct vs os =>
      Forall2 (fun P v => P v) (map typed fields) vs /\ optional_typed optional (map typed optional) os
  | TPtr None t, RPtr enc (Some v) => enc = nil_encoding None t /\ typed t v
  | TPtr (Some k) t, RPtr enc o =>
      enc = nil_encoding (Some k) t /\
      match o with
      | None => True
      | Some v => typed t v /\ rlp_val v <> Ok [to_byte 128] /\ rlp_val v <> Ok [to_byte 192]
      end
  | TIface, v => exists x, v = iface x
  | _, _ => False
  end.

Lemma optional_zero ts os :
  Forall (fun t => forall v, typed t v -> is_zero t v = true -> v = zero t) ts ->
  optional_typed ts (map typed ts) os -> forallb fst os = true -> os = zeroFields ts.
Proof.
  intros Hf. revert os. induction Hf as [|t ts Ht _ IH]; intros [|[z v] os] Ho Hz; cbn in Ho; try done.
  destruct Ho as [[_ ->]|(-> & Hv & Ho)]; [done|]. cbn in Hz. apply andb_true_iff in Hz as [Hz1 Hz2].
  rewrite (IH os Ho Hz2), (Ht v Hv Hz1). cbn. by rewrite <- (Ht v Hv Hz1), Hz1.
Qed.

(** A zero value is the zero value of its type. *)
Lemma typed_zero t v : typed t v -> is_zero t v = true -> v = zero t.
Proof.
  revert v. induction t as [|bits| | | | | |n|t IH|t IH|n t IH|fs os IHf IHo|k t IH|] using rtype_nested_ind; intros v Hv Hz.
  all: destruct v; cbn [typed is_zero zero] in *; try done.
  - by apply Z.eqb_eq in Hz as ->.
  - by destruct b.
  - by apply Z.eqb_eq in Hz as ->.
  - by apply bool_decide_eq_true in Hz as ->.
  - subst n. f_equal. induction b as [|x b IHb]; cbn in *; [done|]. apply andb_true_iff in Hz as [Hx Hb].
    apply Z.eqb_eq in Hx. rewrite <- (IHb Hb). f_equal. by apply byte_val_inj.
  - destruct Hv as [<- Hv]. f_equal. induction Hv as [|v l Hv _ IHl]; cbn in *; [done|]. apply andb_true_iff in Hz as [Hz1 Hz2].
    by rewrite (IH v Hv Hz1), <- (IHl Hz2).
  - destruct Hv as [Hf Ho]. apply andb_true_iff in Hz as [Hzf Hzo]. f_equal; [|by apply (optional_zero os optional IHo Ho)].
    clear Ho Hzo IHo. revert fields Hf Hzf. induction IHf as [|t fs Ht _ IHfs]; intros vs Hf Hz; inversion Hf; subst; [done|].
    apply andb_true_iff in Hz as [Hz1 Hz2]. cbn. f_equal; [by apply Ht|by apply IHfs].
  - destruct v; [by destruct k|]. destruct k; [by destruct Hv as [-> _]|done].
Qed.

(** *** The encoder writes encodings of the type *)

Definition writes (t : rtype) : Prop :=
  forall v, typed t v -> exists b, rlp_val v = Ok b /\ encodes t v b.

Lemma writes_seq t l :
  writes t -> Forall (typed t) l -> exists p, seq_outcome (map rlp_val l) = Ok p /\ seq_rel (encodes t) l p.
Proof.
  intros Ht. induction 1 as [|v l Hv _ (p & E & (bs & HF & ->))]; [exists []; split; [done|by exists []]|].
  destruct (Ht v Hv) as (b & Eb & HR). exists (b ++ concat bs). cbn. rewrite Eb, E. split; [done|].
  exists (b :: bs). split; [by constructor|done].
Qed.

Lemma writes_fields fs vs :
  Forall writes fs -> Forall2 (fun P v => P v) (map typed fs) vs ->
  exists p, seq_outcome (map rlp_val vs) = Ok p /\ fields_rel (map encodes fs) vs p.
Proof.
  intros Hf. revert vs. induction Hf as [|t fs Ht _ IH]; intros vs Hv; inversion Hv as [|P v Ps vs' Hv1 Hv2]; subst; [by exists []|].
  destruct (IH vs' Hv2) as (p & E & HR), (Ht v Hv1) as (b & Eb & HRb). exists (b ++ p). cbn. rewrite Eb, E. split; [done|]. eauto.
Qed.

Lemma drop_zero_tail_nil {A} (l : list (bool * A)) : drop_zero_tail l = [] <-> forallb fst l = true.
Proof.
  induction l as [|[z a] l IH]; cbn; [done|]. destruct (drop_zero_tail l) as [|x l'].
  - rewrite (proj1 IH eq_refl), andb_true_r. by destruct z.
  - split; [done|]. intros [_ H]%andb_true_iff. by apply IH in H.
Qed.

Lemma zeroFields_zero ts : forallb fst (zeroFields ts) = true.
Proof. by induction ts. Qed.

Abbreviation optional_bytes os :=
  (seq_outcome ((drop_zero_tail (map (fun p => (p.1, rlp_val p.2)) os)).*2)).

Lemma forallb_fst_map {A B} (f : A -> B) (os : list (bool * A)) :
  forallb fst (map (fun p => (p.1, f p.2)) os) = forallb fst os.
Proof. induction os as [|[z v] os IH]; cbn; [done|]. by rewrite IH. Qed.

Lemma writes_optional ts os :
  Forall writes ts -> optional_typed ts (map typed ts) os ->
  exists q, optional_bytes os = Ok q /\ optional_rel ts (map encodes ts) os q.
Proof.
  intros Hf. revert os. induction Hf as [|t ts Ht Hf IH]; intros [|[z v] os] Ho; cbn [map optional_typed] in Ho; try done; [by exists []|].
  destruct Ho as [[Htl E]|(-> & Hv & Ho)].
  { rewrite E. exists []. split; [|by left]. rewrite (proj2 (drop_zero_tail_nil _)); [done|].
    by rewrite forallb_fst_map, zeroFields_zero. }
  destruct (IH os Ho) as (q & Eq & HR), (Ht v Hv) as (b & Eb & HRb). cbn [map fst snd drop_zero_tail].
  destruct (drop_zero_tail (map _ os)) as [|x l] eqn:Ed.
  - destruct (is_zero t v) eqn:Ez.
    + exists []. split; [done|]. left. split; [by destruct t, v|split; [|done]].
      rewrite (typed_zero t v Hv Ez) at 1. cbn. f_equal. apply optional_zero; [|done|].
      * apply Forall_forall. intros t' _ v' Hv'. by apply typed_zero.
      * apply drop_zero_tail_nil in Ed. by rewrite forallb_fst_map in Ed.
    + cbn. rewrite Eb. exists b. cbn. rewrite app_nil_r. split; [done|]. right. cbn in Eq. injection Eq as <-.
      exists v, os, b, []. by rewrite Ez, app_nil_r.
  - exists (b ++ q). cbn in Eq |- *. rewrite Eb. cbn. cbn in Eq. rewrite Eq. split; [done|]. right. by exists v, os, b, q.
Qed.

Lemma typed_encodes t : writes t.
Proof.
  induction t as [|bits| | | | | |n|t IH|t IH|n t IH|fs os IHf IHo|k t IH|] using rtype_nested_ind; intros v Hv.
  all: destruct v; cbn [typed] in Hv; try done; try (by destruct k); cbn [encodes rlp_val].
  all: try (eexists; split; [done|]; by eauto 7).
  all: try (exfalso; destruct Hv as (x & Hx); by destruct x).
  - destruct i as [i|]; [|done]. exists (rlp_str (be_bytes i)). unfold rlp_big. rewrite (proj2 (Z.ltb_ge i 0)) by done. by eauto.
  - exists (rlp_str (be_bytes i)). unfold rlp_big. rewrite (proj2 (Z.ltb_ge i 0)) by done. by eauto.
  - destruct (writes_seq t l IH Hv) as (p & -> & HR). exists (rlp_list p). split; [done|]. by exists l, p.
  - destruct (writes_seq t l IH Hv) as (p & -> & HR). exists p. split; [done|]. by exists l.
  - destruct Hv as [Hl Hv]. destruct (writes_seq t l IH Hv) as (p & -> & HR). exists (rlp_list p). split; [done|]. by exists l, p.
  - destruct Hv as [Hf Ho].
    destruct (writes_fields fs fields IHf Hf) as (p & Ep & HRp), (writes_optional os optional IHo Ho) as (q & Eq & HRq).
    rewrite (seq_outcome_app _ _ p q Ep Eq). exists (rlp_list (p ++ q)). split; [done|]. by exists fields, optional, p, q.
  - destruct k as [k|].
    + destruct Hv as [-> Hv]. destruct v as [v|]; [|by eexists; split; [|left]]. destruct Hv as (Hv & H1 & H2).
      destruct (IH v Hv) as (b & Eb & HR). rewrite Eb in *. exists b. split; [done|]. right. exists v. split_and!; try done; congruence.
    + destruct v as [v|]; [|done]. destruct Hv as [-> Hv]. destruct (IH v Hv) as (b & Eb & HR). rewrite Eb. by eauto.
  - destruct Hv as (x & Ex). exists (rlp x). split; [|by exists x].
    change (rlp_val (RIface v) = Ok (rlp x)). by rewrite Ex, rlp_val_iface.
Qed.

(** ** The decoder inverts the encoder *)

(** The encoder at a value of a type. *)
Lemma EncodeToBytes_encodes t v b :
  type_ok t = true -> encodes t v b -> rlp_val v = Ok b -> Z.of_nat (length b) <= maxInt64 -> EncodeToBytes v = Ok b.
Proof.
  intros Hok HR Eb Hlen. rewrite <- Eb. apply EncodeToBytes_spec; [exact (encodes_uints t Hok v b HR)|].
  intros c Ec. rewrite Eb in Ec. injection Ec as <-. unfold two64, maxInt64 in *. lia.
Qed.

Lemma decode_encode t v s0 :
  type_ok t = true -> is_tail t = false -> typed t v ->
  (forall b, rlp_val v = Ok b -> Z.of_nat (length b) <= maxInt64) ->
  exists b, EncodeToBytes v = Ok b /\ DecodeBytes t b s0 = Ok v.
Proof.
  intros Hok Ht Hv Hlen. destruct (typed_encodes t v Hv) as (b & Eb & HR). specialize (Hlen b Eb). exists b. split.
  - by apply (EncodeToBytes_encodes t).
  - by apply (DecodeBytes_spec t b s0 Hok Ht Hlen).
Qed.

(** With a limit the kind of reader does not matter. *)
Lemma Reset_limit d b s0 s1 :
  (1 <= length b)%nat -> Reset d b (Z.of_nat (length b)) s0 = Reset true b (Z.of_nat (length b)) s1.
Proof. intros Hb. unfold Reset. by rewrite (proj2 (Z.ltb_lt 0 _)) by lia. Qed.

Lemma Stream_Decode_bytes d t b v s0 :
  (1 <= length b)%nat -> DecodeBytes t b s0 = Ok v -> (Stream_Decode t (NewStream d b (Z.of_nat (length b)))).1 = Ok v.
Proof.
  intros Hb. unfold NewStream, DecodeBytes. rewrite (Reset_limit d b new_Stream s0 Hb).
  destruct (Stream_Decode t _) as [[v'|e|p] s']; [|done..]. cbn. unfold ensure. by destruct (_ =? _)%nat.
Qed.

(** A limited stream reads an encoding off the front of its input. *)
Lemma Stream_Decode_front d t b v :
  type_ok t = true -> is_tail t = false -> (1 <= length b)%nat -> Z.of_nat (length b) <= maxInt64 ->
  (Stream_Decode t (NewStream d b (Z.of_nat (length b)))).1 = Ok v <-> exists c rest, b = c ++ rest /\ encodes t v c.
Proof.
  intros Hok Ht Hb Hl. unfold NewStream. rewrite (Reset_limit d b new_Stream new_Stream Hb).
  destruct (reset_ready b new_Stream Hl) as (Hs & Er & Est & Hd). unfold Stream_Decode.
  set (s := Reset true b _ _) in *.
  pose proof (decode_reads (S (length (r s))) t Hok) as Hrd. unfold reads in Hrd. rewrite Ht in Hrd.
  destruct (rd_parses _ _ _ Hrd) as [Htot Hsnd Hc]. specialize (Htot s Hs ltac:(lia)). specialize (Hsnd s). split.
  - destruct (decode _ t s) as [[v'|e|p] s'] eqn:E; [|done..]. cbn. intros [= ->].
    destruct Htot as (_ & _ & _ & Hst). rewrite Est in Hst. apply length_zero_iff_nil in Hst.
    destruct (Hsnd v s' Hs ltac:(lia) eq_refl (debt_top s' Hst)) as (c & HR & (_ & Em & _)).
    exists c, (r s'). by rewrite <- Er.
  - intros (c & rest & Eb & HR). rewrite <- Er in Eb.
    destruct (Hc s v c rest Hs ltac:(lia) Hd HR Eb) as (s' & -> & _); [|done..]. unfold room. by rewrite Est.
Qed.

Lemma Stream_Decode_no_panic d t b p :
  type_ok t = true -> is_tail t = false -> (1 <= length b)%nat -> Z.of_nat (length b) <= maxInt64 ->
  (Stream_Decode t (NewStream d b (Z.of_nat (length b)))).1 <> Panic p.
Proof.
  intros Hok Ht Hb Hl E. destruct (DecodeBytes_spec t b new_Stream Hok Ht Hl) as [_ H]. apply (H p).
  unfold DecodeBytes. unfold NewStream in E. rewrite (Reset_limit d b new_Stream new_Stream Hb) in E.
  destruct (Stream_Decode t _) as [[v'|e|p'] s']; [done..|]. by injection E as ->.
Qed.

(** C22. The stream decoder accepts exactly the encodings of its type: for every Go
    type the package supports and every input, decoding gives a value precisely
    when the input is an encoding of it, in whatever state the pooled stream is;
    it never panics, and the length of the input bounds its loops. *)
Theorem DecodeBytes_exact t b s0 :
  type_ok t = true -> is_tail t = false -> Z.of_nat (length b) <= maxInt64 ->
  (forall v, DecodeBytes t b s0 = Ok v <-> encodes t v b) /\ (forall p, DecodeBytes t b s0 <> Panic p).
Proof. apply DecodeBytes_spec. Qed.


(** Without optional fields the encoding of a value is unique: an input the
    decoder accepts is byte for byte what the encoder writes for the decoded
    value, so no two inputs give one value. *)
Theorem encode_inverts_decode t b v s0 :
  type_ok t = true -> is_tail t = false -> no_optional t = true -> Z.of_nat (length b) <= maxInt64 ->
  DecodeBytes t b s0 = Ok v -> EncodeToBytes v = Ok b.
Proof.
  intros Hok Ht Hn Hb Hd. apply (DecodeBytes_spec t b s0 Hok Ht Hb) in Hd.
  apply (EncodeToBytes_encodes t); try done. by apply (encodes_rlp_val t Hn v b Hd).
Qed.

(** ** Decoding evaluated *)

Module StreamExample.

(** A type with every feature, like the messages and headers of the protocol. *)
Definition sample_type : rtype :=
  TStruct [TUint 64; TByteArray 2; TPtr (Some KString) (TUint 8); TSlice (TStruct [TBytes; TBool] []); TIface] [TBigPtr; TUint 64].

Definition sample_value : rval :=
  RStruct [RUint 1000; RByteArray [Byte.x00; Byte.xff]; RPtr (to_byte 128) None;
           RSlice [RStruct [RBytes [Byte.x05]; RBool true] []]; iface (Lst [Str []; Lst []])]
          [(false, RBigPtr (Some (2 ^ 80))); (true, RUint 0)].

Definition sample_bytes' : bytes :=
  map to_byte [218; 130; 3; 232; 130; 0; 255; 128; 195; 194; 5; 1; 194; 128; 192; 139; 1; 0; 0; 0; 0; 0; 0; 0; 0; 0; 0].

(** A list whose inner list is longer than what is left of it. *)
Definition overlong : bytes := map to_byte [195; 195; 1; 2; 3].

(** The limit of the outer list wraps around when the inner list is entered, and
    the elements of the inner list are read from behind the outer one; the outer
    list never ends then, so the value is refused all the same. *)
Theorem list_limit_wraps :
  stack (decode 6 TIface (Reset true (overlong ++ [Byte.x04]) 6 new_Stream)).2 = [two64 - 3] /\
  is_ok (decode 6 TIface (Reset true (overlong ++ [Byte.x04]) 6 new_Stream)).1 = false.
Proof. vm_compute. done. Qed.

(** With optional fields two inputs give one value: a zero field may be there or
    not. *)
Theorem optional_zero_twice s0 :
  let t := TStruct [] [TUint 64] in
  DecodeBytes t [to_byte 192] s0 = Ok (RStruct [] [(true, RUint 0)]) /\
  DecodeBytes t [to_byte 193; to_byte 128] s0 = Ok (RStruct [] [(true, RUint 0)]).
Proof. split; reflexivity. Qed.

Lemma DecodeBytes_exact_witness :
  (DecodeBytes sample_type sample_bytes' new_Stream = Ok sample_value <-> encodes sample_type sample_value sample_bytes') /\
  DecodeBytes sample_type sample_bytes' new_Stream = Ok sample_value.
Proof.
  split; [|vm_compute; reflexivity]. apply (DecodeBytes_exact sample_type sample_bytes' new_Stream); [reflexivity..|]. vm_compute. discriminate.
Defined.


Lemma encode_inverts_decode_witness :
  EncodeToBytes (RSlice [RUint 1; RUint 200]) = Ok (map to_byte [195; 1; 129; 200]).
Proof.
  apply (encode_inverts_decode (TSlice (TUint 64)) _ _ new_Stream); [reflexivity..| |].
  - vm_compute. discriminate.
  - vm_compute. reflexivity.
Defined.
End StreamExample.
