(* ===== verification/EthTypes.v ===== *)
(** * Data of the Ethereum node

    Headers, the chain configuration the consensus code reads, and the fee and
    gas-limit rules of [consensus/misc]. *)

From S2P Require Import Prelude.

(** [common.Hash] and [common.Address] are byte arrays. *)
Abbreviation Hash := bytes.
Abbreviation Address := bytes.

Definition HashLength : nat := 32.
Definition AddressLength : nat := 20.
Definition zeroHash : Hash := replicate HashLength Byte.x00.
Definition zeroAddress : Address := replicate AddressLength Byte.x00.

(** The [big.Int] fields are pointers, so they may be nil.
    [geth:core/types/block.go:69-88] Header *)
Record Header := {
  ParentHash : Hash;
  UncleHash : Hash;
  Coinbase : Address;
  Root : Hash;
  TxHash : Hash;
  ReceiptHash : Hash;
  Bloom : bytes;
  Difficulty : option Z;
  Number : option Z;
  GasLimit : Z;
  GasUsed : Z;
  Time : Z;
  Extra : bytes;
  MixDigest : Hash;
  Nonce : bytes;
  BaseFee : option Z;
}.

#[export] Instance Header_eq_dec : EqDecision Header.
Proof. solve_decision. Defined.

(** [header.Number.Uint64()]. *)
Definition number_of (h : Header) : outcome Z :=
  n ← deref (Number h); mret (big_Uint64 n).

(** The chain id and the engine's own settings are read by other parts of the
    node.
    [geth:params/config.go:294-322] ChainConfig *)
Record ChainConfig := {
  HomesteadBlock : option Z;
  DAOForkBlock : option Z;
  DAOForkSupport : bool;
  EIP150Block : option Z;
  EIP150Hash : Hash;
  EIP155Block : option Z;
  EIP158Block : option Z;
  ByzantiumBlock : option Z;
  ConstantinopleBlock : option Z;
  PetersburgBlock : option Z;
  IstanbulBlock : option Z;
  MuirGlacierBlock : option Z;
  BerlinBlock : option Z;
  LondonBlock : option Z;
  CatalystBlock : option Z;
}.

(** A chain on which only London is scheduled. *)
Definition london_only (london : option Z) : ChainConfig := {|
  HomesteadBlock := None; DAOForkBlock := None; DAOForkSupport := false; EIP150Block := None; EIP150Hash := zeroHash; EIP155Block := None;
  EIP158Block := None; ByzantiumBlock := None; ConstantinopleBlock := None; PetersburgBlock := None;
  IstanbulBlock := None; MuirGlacierBlock := None; BerlinBlock := None; LondonBlock := london;
  CatalystBlock := None |}.

(** [geth:params/config.go:559-564] isForked *)
Definition isForked (s head : option Z) : bool :=
  match s, head with
  | Some s, Some head => s <=? head
  | _, _ => false
  end.

(** [geth:params/config.go:431-433] IsLondon *)
Definition IsLondon (c : ChainConfig) (num : option Z) : bool := isForked (LondonBlock c) num.

(** [geth:params/config.go] ChainConfig.IsEIP155 *)
Definition IsEIP155 (c : ChainConfig) (num : option Z) : bool := isForked (EIP155Block c) num.

(** [geth:params/config.go] ChainConfig.IsEIP158 *)
Definition IsEIP158 (c : ChainConfig) (num : option Z) : bool := isForked (EIP158Block c) num.

(** ** Receipts *)

(** A log as it is received: the fields that are encoded.
    [geth:core/types/log.go:31-38] Log *)
Record InLog := { il_Address : bytes; il_Topics : list Hash; il_Data : bytes }.

(** A receipt as it is received: the consensus fields.
    [geth:core/types/receipt.go:53-60] Receipt *)
Record InReceipt := {
  ir_Type : Z;
  ir_PostState : bytes;
  ir_Status : Z;
  ir_CumulativeGasUsed : Z;
  ir_Bloom : bytes;
  ir_Logs : list InLog;
}.

(** ** Gas limit and base fee *)

Definition GasLimitBoundDivisor : Z := 1024.
Definition MinGasLimit : Z := 5000.
Definition ElasticityMultiplier : Z := 2.
Definition BaseFeeChangeDenominator : Z := 8.
Definition InitialBaseFee : Z := 1000000000.

(** [geth:consensus/misc/gaslimit.go:28-42] VerifyGaslimit *)
Definition VerifyGaslimit (parentGasLimit headerGasLimit : Z) : outcome unit :=
  let diff := i64 (i64 parentGasLimit - i64 headerGasLimit) in
  let diff := if diff <? 0 then i64 (diff * -1) else diff in
  let limit := parentGasLimit / GasLimitBoundDivisor in
  _ ← ensure (negb (limit <=? u64 diff)) "invalid gas limit";
  ensure (negb (headerGasLimit <? MinGasLimit)) "invalid gas limit below 5000".

(** The limit of a block that moves from its parent's towards the desired one.
    [geth:core/block_validator.go] CalcGasLimit *)
Definition CalcGasLimit (parentGasLimit desiredLimit : Z) : Z :=
  let delta := parentGasLimit / GasLimitBoundDivisor -u 1 in
  let limit := parentGasLimit in
  let desiredLimit := if desiredLimit <? MinGasLimit then MinGasLimit else desiredLimit in
  if limit <? desiredLimit then
    let limit := parentGasLimit +u delta in
    if desiredLimit <? limit then desiredLimit else limit
  else if desiredLimit <? limit then
    let limit := parentGasLimit -u delta in
    if limit <? desiredLimit then desiredLimit else limit
  else limit.

(** [big.Int.Div] is Euclidean division; for the non-negative operands of the
    base fee it is [Z.div].  Division by zero panics.
    [geth:consensus/misc/eip1559.go:54-93] CalcBaseFee *)
Definition CalcBaseFee (config : ChainConfig) (parent : Header) : outcome Z :=
  if negb (IsLondon config (Number parent)) then mret InitialBaseFee
  else
    let parentGasTarget := GasLimit parent / ElasticityMultiplier in
    parentBaseFee ← deref (BaseFee parent);
    if GasUsed parent =? parentGasTarget then mret parentBaseFee
    else if parentGasTarget =? 0 then Panic "division by zero"
    else if parentGasTarget <? GasUsed parent then
      let gasUsedDelta := GasUsed parent - parentGasTarget in
      let y := parentBaseFee * gasUsedDelta / parentGasTarget in
      let baseFeeDelta := Z.max (y / BaseFeeChangeDenominator) 1 in
      mret (parentBaseFee + baseFeeDelta)
    else
      let gasUsedDelta := parentGasTarget - GasUsed parent in
      let y := parentBaseFee * gasUsedDelta / parentGasTarget in
      let baseFeeDelta := y / BaseFeeChangeDenominator in
      mret (Z.max (parentBaseFee - baseFeeDelta) 0).

(** [geth:consensus/misc/eip1559.go:32-52] VerifyEip1559Header *)
Definition VerifyEip1559Header (config : ChainConfig) (parent header : Header) : outcome unit :=
  let parentGasLimit :=
    if negb (IsLondon config (Number parent)) then u64 (GasLimit parent * ElasticityMultiplier)
    else GasLimit parent in
  _ ← VerifyGaslimit parentGasLimit (GasLimit header);
  baseFee ← ok_or (BaseFee header) "header is missing baseFee";
  expectedBaseFee ← CalcBaseFee config parent;
  ensure (baseFee =? expectedBaseFee) "invalid baseFee".

(** ** Properties *)

Lemma i64_abs_diff a b :
  0 <= a <= maxInt64 -> 0 <= b <= maxInt64 ->
  u64 (if i64 (i64 a - i64 b) <? 0 then i64 (i64 (i64 a - i64 b) * -1) else i64 (i64 a - i64 b))
  = Z.abs (a - b).
Proof.
  intros Ha Hb. rewrite (i64_small a), (i64_small b) by done.
  assert (i64 (a - b) = a - b) as ->.
  { destruct (Z.leb_spec 0 (a - b)); [apply i64_small; lia|].
    unfold i64. replace (a - b) with (a - b + two64 + (-1) * two64) by lia.
    rewrite Z.mod_add by discriminate.
    rewrite Z.mod_small by (unfold two64, maxInt64 in *; lia).
    destruct (Z.leb_spec (a - b + two64) maxInt64); unfold two64, maxInt64 in *; lia. }
  destruct (Z.ltb_spec (a - b) 0).
  - rewrite i64_small by lia. rewrite u64_id; [lia|]. unfold is_u64, two64, maxInt64 in *. lia.
  - rewrite u64_id; [lia|]. unfold is_u64, two64, maxInt64 in *. lia.
Qed.

(** The gas-limit rule: for limits within [int64] the check accepts exactly
    the headers whose gas limit is at least 5000 and differs from the parent's
    by less than a 1024th of it. *)
Theorem VerifyGaslimit_spec parentGasLimit headerGasLimit :
  0 <= parentGasLimit <= maxInt64 -> 0 <= headerGasLimit <= maxInt64 ->
  VerifyGaslimit parentGasLimit headerGasLimit = Ok tt <->
  Z.abs (parentGasLimit - headerGasLimit) < parentGasLimit / 1024 /\ 5000 <= headerGasLimit.
Proof.
  intros Hp Hh. unfold VerifyGaslimit. cbv zeta. rewrite bind_Ok.
  rewrite i64_abs_diff by done. unfold GasLimitBoundDivisor, MinGasLimit.
  split.
  - intros ([] & H1 & H2). rewrite ensure_Ok, negb_true_iff in H1, H2.
    apply Z.leb_gt in H1. apply Z.ltb_ge in H2. done.
  - intros [H1 H2]. exists tt. rewrite !ensure_Ok, !negb_true_iff, Z.leb_gt, Z.ltb_ge. done.
Qed.

(** The limit a miner computes stays within the bounds the verifier checks and
    within the range of an [int64], whatever limit it desires. *)
Lemma CalcGasLimit_range parent desired :
  5000 <= parent -> parent + parent / 1024 <= maxInt64 ->
  Z.abs (parent - CalcGasLimit parent desired) < parent / 1024 /\
  5000 <= CalcGasLimit parent desired <= maxInt64.
Proof.
  intros Hmin Hmax. unfold CalcGasLimit, GasLimitBoundDivisor, MinGasLimit. cbv zeta.
  assert (4 <= parent / 1024 <= parent) as Hd.
  { split; [apply Z.div_le_lower_bound; lia|]. apply Z.div_le_upper_bound; lia. }
  assert (two64 = 2 * maxInt64 + 2) as H64 by done.
  rewrite (u64_sub_small (parent / 1024) 1), u64_add_small, u64_sub_small by lia.
  destruct (Z.ltb_spec desired 5000); repeat case_match; lia.
Qed.

Lemma CalcGasLimit_verifies parent desired :
  5000 <= parent -> parent + parent / 1024 <= maxInt64 ->
  VerifyGaslimit parent (CalcGasLimit parent desired) = Ok tt.
Proof.
  intros Hmin Hmax. destruct (CalcGasLimit_range parent desired Hmin Hmax) as [H1 H2].
  assert (0 <= parent / 1024) by (apply Z.div_pos; lia).
  apply VerifyGaslimit_spec; lia.
Qed.

(** The base fee moves by at most an eighth and never below zero: it rises
    (by at least one) when the parent used more than its target, falls or stays
    when it used less, and is unchanged at the target; for a London parent with
    a base fee and a gas target the computation always succeeds. *)
Theorem CalcBaseFee_bounds config parent fee :
  IsLondon config (Number parent) = true ->
  BaseFee parent = Some fee -> 0 <= fee ->
  let target := GasLimit parent / 2 in
  0 < target -> 0 <= GasUsed parent <= 2 * target ->
  exists fee', CalcBaseFee config parent = Ok fee' /\ 0 <= fee' /\
    (GasUsed parent = target -> fee' = fee) /\
    (target < GasUsed parent -> fee < fee' <= fee + Z.max (fee / 8) 1) /\
    (GasUsed parent < target -> fee - fee / 8 <= fee' <= fee).
Proof.
  intros HL Hfee Hpos target Ht Hu. unfold CalcBaseFee. rewrite HL, Hfee. cbn [negb deref].
  unfold ElasticityMultiplier, BaseFeeChangeDenominator. fold target.
  assert (forall d, 0 <= d <= target -> 0 <= fee * d / target <= fee) as Hy.
  { intros d Hd. split; [apply Z.div_pos; nia|]. apply Z.div_le_upper_bound; nia. }
  simpl. destruct (Z.eqb_spec (GasUsed parent) target) as [E|E].
  { exists fee. split_and!; lia || done. }
  destruct (Z.eqb_spec target 0) as [|_]; [lia|].
  destruct (Z.ltb_spec target (GasUsed parent)) as [Hlt|Hge];
    (eexists; split; [reflexivity|]).
  - specialize (Hy (GasUsed parent - target) ltac:(lia)).
    assert (fee * (GasUsed parent - target) / target / 8 <= fee / 8)
      by (apply Z.div_le_mono; lia).
    split_and!; lia.
  - specialize (Hy (target - GasUsed parent) ltac:(lia)).
    assert (0 <= fee * (target - GasUsed parent) / target / 8 <= fee / 8)
      by (split; [apply Z.div_pos|apply Z.div_le_mono]; lia).
    pose proof (Z.div_le_upper_bound fee 8 fee).
    split_and!; lia.
Qed.

Definition example_header (gasLimit gasUsed : Z) : Header := {|
  ParentHash := zeroHash; UncleHash := zeroHash; Coinbase := zeroAddress; Root := zeroHash;
  TxHash := zeroHash; ReceiptHash := zeroHash; Bloom := []; Difficulty := Some 1;
  Number := Some 5; GasLimit := gasLimit; GasUsed := gasUsed; Time := 10; Extra := [];
  MixDigest := zeroHash; Nonce := replicate 8 Byte.x00; BaseFee := Some 1000000000 |}.

Definition example_config : ChainConfig :=
  london_only (Some 5).
