(* ===== verification/GoHeap.v ===== *)
(** * container/heap

    The binary heap of Go's standard library, on a slice: sifting an element
    down or up, [Init], [Fix], [Pop] and [Push].  An element comes before another when
    [less] says so; the heap keeps an element that no other comes before at
    index 0.  The transaction queue of the miner and the
    queue of the block fetcher are built on it. *)

From S2P Require Import Prelude.

(** ** Operations *)

Section Heap.
Context {A : Type} (less : A -> A -> bool).

(** [h.Swap(i, j)]; the heap only swaps indices within the slice. *)
Definition swap (i j : nat) (l : list A) : list A :=
  match l !! i, l !! j with
  | Some x, Some y => <[i := y]> (<[j := x]> l)
  | _, _ => l
  end.

(** [h.Less(i, j)]. *)
Definition less_at (l : list A) (i j : nat) : bool :=
  match l !! i, l !! j with
  | Some x, Some y => less x y
  | _, _ => false
  end.

(** The child of [i] that is to be compared with it. *)
Definition first_child (l : list A) (i n : nat) : nat :=
  if ((2 * i + 2 <? n) && less_at l (2 * i + 2) (2 * i + 1))%nat then (2 * i + 2)%nat else (2 * i + 1)%nat.

(** The loop of [down] on the first [n] elements; the index grows at every pass,
    so [n] passes are enough.  The index it stopped at comes with the slice. *)
Fixpoint down (fuel : nat) (l : list A) (i n : nat) : list A * nat :=
  match fuel with
  | O => (l, i)
  | S fuel =>
      if (n <=? 2 * i + 1)%nat then (l, i)
      else
        let j := first_child l i n in
        if less_at l j i then down fuel (swap i j l) j n else (l, i)
  end.

(** The loop of [up]; [(j - 1) / 2] is the parent. *)
Fixpoint up (fuel : nat) (l : list A) (j : nat) : list A :=
  match fuel with
  | O => l
  | S fuel =>
      let i := ((j - 1) / 2)%nat in
      if (i =? j)%nat || negb (less_at l j i) then l else up fuel (swap i j l) i
  end.

(** [for i := n/2 - 1; i >= 0; i-- { down(h, i, n) }]. *)
Fixpoint init_loop (k n : nat) (l : list A) : list A :=
  match k with
  | O => l
  | S k => init_loop k n (down n l k n).1
  end.

Definition Init (l : list A) : list A := init_loop (length l / 2) (length l) l.

Definition Fix (l : list A) (i : nat) : list A :=
  let '(l', k) := down (length l) l i (length l) in
  if (i <? k)%nat then l' else up (S i) l' i.

(** The element popped and the slice left; an empty slice is indexed at -1. *)
Definition heap_Pop (l : list A) : outcome (A * list A) :=
  match length l with
  | O => Panic "index out of range [-1]"
  | S n =>
      let l' := (down n (swap 0 n l) 0 n).1 in
      x ← index l' n;
      mret (x, take n l')
  end.

(** Appends an element and moves it up. *)
Definition heap_Push (l : list A) (x : A) : list A := up (S (length l)) (l ++ [x]) (length l).

End Heap.

(** ** Properties *)

Lemma insert_swaps {A} (l : list A) i x y : l !! i = Some x -> y :: l ≡ₚ x :: <[i := y]> l.
Proof.
  revert i. induction l as [|z l IH]; intros [|i] H; try done.
  - injection H as ->. apply Permutation_swap.
  - cbn in H |- *. etrans; [apply Permutation_swap|]. etrans; [|apply Permutation_swap].
    constructor. by apply IH.
Qed.

Lemma swap_Permutation {A} i j (l : list A) : swap i j l ≡ₚ l.
Proof.
  unfold swap. destruct (l !! i) as [x|] eqn:Ei; [|done]. destruct (l !! j) as [y|] eqn:Ej; [|done].
  destruct (decide (i = j)) as [->|Hne].
  { rewrite Ei in Ej. injection Ej as <-. by rewrite !list_insert_id by (by rewrite ?list_insert_id). }
  apply (Permutation_cons_inv (a := x)). rewrite (insert_swaps l j y x Ej).
  rewrite (insert_swaps (<[j := x]> l) i x y); [done|]. by rewrite list_lookup_insert_ne.
Qed.

Lemma length_swap {A} i j (l : list A) : length (swap i j l) = length l.
Proof. by rewrite swap_Permutation. Qed.

Lemma lookup_swap {A} i j k (l : list A) :
  (i < length l)%nat -> (j < length l)%nat ->
  swap i j l !! k = if decide (k = i) then l !! j else if decide (k = j) then l !! i else l !! k.
Proof.
  intros Hi Hj. unfold swap.
  destruct (lookup_lt_is_Some_2 l i Hi) as [x Ex], (lookup_lt_is_Some_2 l j Hj) as [y Ey].
  rewrite Ex, Ey. repeat case_decide; subst.
  - by rewrite list_lookup_insert_eq by (rewrite length_insert; lia).
  - by rewrite list_lookup_insert_ne, list_lookup_insert_eq by (done || lia).
  - by rewrite !list_lookup_insert_ne by done.
Qed.

(** [less] is a strict weak order: asymmetric, with a transitive complement. *)
Class StrictWeak {A} (less : A -> A -> bool) := {
  less_asym : forall x y, less x y = true -> less y x = false;
  not_less_trans : forall x y z, less y x = false -> less z y = false -> less z x = false;
}.

Section HeapOrder.
Context {A : Type} (less : A -> A -> bool) {SW : StrictWeak less}.

(** The element at [p] does not come after the one at [c]. *)
Definition ordered (l : list A) (p c : nat) : Prop := less_at less l c p = false.

Definition child (p c : nat) : Prop := (c = 2 * p + 1 \/ c = 2 * p + 2)%nat.

(** The subtrees from index [k] on are ordered, in the first [n] elements. *)
Definition heap_from (k n : nat) (l : list A) : Prop :=
  forall p c, (k <= p)%nat -> child p c -> (c < n)%nat -> ordered l p c.

(** The same with an element that may be too early at [i]. *)
Definition heap_but (k i n : nat) (l : list A) : Prop :=
  (forall p c, (k <= p)%nat -> p <> i -> child p c -> (c < n)%nat -> ordered l p c) /\
  (forall q c, (k <= q)%nat -> child q i -> child i c -> (c < n)%nat -> ordered l q c).

Lemma ordered_refl l i : ordered l i i.
Proof.
  unfold ordered, less_at. destruct (l !! i) as [x|]; [|done].
  destruct (less x x) eqn:E; [|done]. by rewrite (less_asym x x E) in E.
Qed.

Lemma ordered_trans l i j k : (j < length l)%nat -> ordered l i j -> ordered l j k -> ordered l i k.
Proof.
  unfold ordered, less_at. intros [y ->]%lookup_lt_is_Some_2.
  destruct (l !! i) as [x|]; [|by destruct (l !! k)]. destruct (l !! k) as [z|]; [|done].
  apply not_less_trans.
Qed.

Lemma first_child_spec l i n :
  (2 * i + 1 < n)%nat ->
  let j := first_child less l i n in
  child i j /\ (j < n)%nat /\ (forall c, child i c -> (c < n)%nat -> ordered l j c).
Proof.
  intros Hn j. subst j. unfold first_child.
  destruct ((2 * i + 2 <? n)%nat && less_at less l (2 * i + 2) (2 * i + 1)) eqn:E.
  - apply andb_prop in E as [E1%Nat.ltb_lt E2]. split_and!; [by right|lia|].
    intros c [->| ->] _; [|apply ordered_refl].
    unfold ordered, less_at in *. destruct (l !! _); [|done]. destruct (l !! _); [|done]. by apply less_asym.
  - split_and!; [by left|lia|]. intros c [->| ->] Hc; [apply ordered_refl|].
    apply andb_false_iff in E as [E%Nat.ltb_ge|E]; [lia|done].
Qed.

(** Swapping the hole with its first child moves the hole there. *)
Lemma heap_but_swap k i n l :
  (n <= length l)%nat -> (k <= i)%nat -> (2 * i + 1 < n)%nat -> heap_but k i n l ->
  let j := first_child less l i n in
  less_at less l j i = true -> heap_but k j n (swap i j l).
Proof.
  intros Hlen Hk Hn [H1 H2] j Hless.
  destruct (first_child_spec l i n Hn) as (Hc & Hj & Hmin). fold j in Hc, Hj, Hmin.
  assert (i < j)%nat as Hij by (destruct Hc; lia).
  assert (forall p, swap i j l !! p =
            if decide (p = i) then l !! j else if decide (p = j) then l !! i else l !! p) as Hs
    by (intros p; apply lookup_swap; lia).
  assert (ordered l i j -> False) as Hno by (unfold ordered; congruence).
  assert (forall c, child i c -> (c < n)%nat -> c <> j -> ordered (swap i j l) i c) as Hi.
  { intros c Hic Hcn Hne. unfold ordered, less_at. rewrite !Hs.
    rewrite (decide_True (P := i = i)) by done. rewrite (decide_False (P := c = i)) by (destruct Hic; lia).
    rewrite (decide_False (P := c = j)) by done. by apply Hmin. }
  assert (ordered (swap i j l) i j) as Hjj.
  { unfold ordered, less_at. rewrite !Hs, (decide_True (P := i = i)) by done.
    rewrite (decide_False (P := j = i)), (decide_True (P := j = j)) by (done || lia).
    unfold less_at in Hless. destruct (l !! j), (l !! i); try done. by apply less_asym. }
  split.
  - intros p c Hp Hpj Hpc Hcn. destruct (decide (p = i)) as [->|Hpi].
    { destruct (decide (c = j)) as [->|Hne]; [done|by apply Hi]. }
    unfold ordered, less_at. rewrite !Hs. rewrite (decide_False (P := p = i)), (decide_False (P := p = j)) by done.
    destruct (decide (c = i)) as [->|Hci].
    { by apply (H2 p j). }
    rewrite (decide_False (P := c = j)) by (destruct Hpc, Hc; lia). by apply (H1 p c).
  - intros q c Hq Hqj Hjc Hcn. assert (q = i) as -> by (destruct Hqj, Hc; lia).
    unfold ordered, less_at. rewrite !Hs, (decide_True (P := i = i)) by done.
    rewrite (decide_False (P := c = i)), (decide_False (P := c = j)) by (destruct Hjc; lia). apply (H1 j c); [lia|lia|done|done].
Qed.

Lemma heap_but_leaf k i n l : (n <= 2 * i + 1)%nat -> heap_but k i n l -> heap_from k n l.
Proof.
  intros Hn [H1 _] p c Hp Hpc Hc. destruct (decide (p = i)) as [->|Hne]; [destruct Hpc; lia|by apply H1].
Qed.

Lemma heap_but_done k i n l :
  (n <= length l)%nat -> (2 * i + 1 < n)%nat -> heap_but k i n l ->
  less_at less l (first_child less l i n) i = false -> heap_from k n l.
Proof.
  intros Hlen Hn [H1 _] Hno p c Hp Hpc Hc. destruct (decide (p = i)) as [->|Hne]; [|by apply H1].
  destruct (first_child_spec l i n Hn) as (_ & Hj & Hmin).
  apply (ordered_trans _ _ (first_child less l i n)); [lia|done|by apply Hmin].
Qed.

Lemma down_heap fuel k i n l :
  (n <= length l)%nat -> (k <= i)%nat -> (n <= fuel + i)%nat -> heap_but k i n l ->
  heap_from k n (down less fuel l i n).1.
Proof.
  revert i l. induction fuel as [|fuel IH]; intros i l Hlen Hk Hf H; cbn [down].
  { apply (heap_but_leaf k i); [lia|done]. }
  destruct (Nat.leb_spec n (2 * i + 1)) as [Hn|Hn]; [by apply (heap_but_leaf k i)|].
  destruct (less_at less l (first_child less l i n) i) eqn:E.
  - destruct (first_child_spec l i n Hn) as (Hc & Hj & _).
    apply IH; [by rewrite length_swap|destruct Hc; lia|destruct Hc; lia|by apply heap_but_swap].
  - by apply (heap_but_done k i).
Qed.

Lemma down_Permutation fuel i n l : (down less fuel l i n).1 ≡ₚ l.
Proof.
  revert i l. induction fuel as [|fuel IH]; intros i l; cbn; [done|].
  case_match; [done|]. case_match; [|done]. by rewrite IH, swap_Permutation.
Qed.

(** Elements from [n] on are not touched. *)
Lemma down_outside fuel i n l k :
  (n <= length l)%nat -> (n <= k)%nat -> (down less fuel l i n).1 !! k = l !! k.
Proof.
  intros Hlen Hk. revert i l Hlen. induction fuel as [|fuel IH]; intros i l Hlen; cbn [down]; [done|].
  destruct (Nat.leb_spec n (2 * i + 1)) as [Hn|Hn]; [done|]. case_match; [|done].
  destruct (first_child_spec l i n Hn) as (_ & Hj & _).
  rewrite IH by (by rewrite length_swap). rewrite lookup_swap by lia.
  by rewrite !decide_False by lia.
Qed.

Lemma Init_Permutation l : Init less l ≡ₚ l.
Proof.
  unfold Init. generalize (length l / 2)%nat as k. intros k. revert l.
  assert (forall n l, init_loop less k n l ≡ₚ l) as H; [|intros l; apply H].
  induction k as [|k IH]; intros n l; cbn; [done|]. by rewrite IH, down_Permutation.
Qed.

Lemma init_loop_heap k n l :
  length l = n -> heap_from k n l -> heap_from 0 n (init_loop less k n l).
Proof.
  revert l. induction k as [|k IH]; intros l Hn H; cbn; [done|].
  apply IH; [by rewrite down_Permutation|]. apply down_heap; [lia..|].
  split; [intros p c Hp Hne; apply H; lia|]. intros q c Hq Hqk _ _. destruct Hqk; lia.
Qed.

(** [Init] makes a heap of any slice. *)
Lemma Init_heap l : heap_from 0 (length l) (Init less l).
Proof.
  apply init_loop_heap; [done|]. intros p c Hp Hpc Hc. exfalso.
  assert (length l < 2 * (length l / 2) + 2)%nat by (pose proof (Nat.div_mod_eq (length l) 2);
    pose proof (Nat.mod_upper_bound (length l) 2); lia).
  destruct Hpc; lia.
Qed.

(** The first element of a heap comes before every other one. *)
Lemma heap_root n l i : (n <= length l)%nat -> heap_from 0 n l -> (i < n)%nat -> ordered l 0 i.
Proof.
  intros Hlen H. induction i as [i IH] using lt_wf_ind. intros Hi.
  destruct (decide (i = 0%nat)) as [->|Hne]; [apply ordered_refl|].
  pose proof (Nat.div_mod_eq (i - 1) 2). pose proof (Nat.mod_upper_bound (i - 1) 2).
  apply (ordered_trans _ _ ((i - 1) / 2)); [lia|apply IH; lia|].
  apply H; [lia|unfold child; lia|done].
Qed.

Lemma heap_head_best x l y : heap_from 0 (length (x :: l)) (x :: l) -> y ∈ x :: l -> less y x = false.
Proof.
  intros H Hy. apply list_elem_of_lookup in Hy as [i Hi].
  pose proof (heap_root _ _ i (le_n _) H (lookup_lt_Some _ _ _ Hi)) as Ho.
  unfold ordered, less_at in Ho. by rewrite Hi in Ho.
Qed.

(** Replacing the first element and fixing the heap there. *)
Lemma Fix_root_heap l x :
  heap_from 0 (length l) l -> heap_from 0 (length l) (Fix less (<[0%nat := x]> l) 0).
Proof.
  intros H. unfold Fix. rewrite length_insert.
  pose proof (down_heap (length l) 0 0 (length l) (<[0%nat := x]> l)) as Hd.
  destruct (down less (length l) (<[0%nat := x]> l) 0 (length l)) as [l' k]. cbn in Hd.
  assert (heap_from 0 (length l) l') as Hl'; [|by destruct (0 <? k)%nat].
  apply Hd; [by rewrite length_insert|lia|lia|]. split.
  - intros p c Hp Hne Hpc Hc. unfold ordered, less_at.
    rewrite !list_lookup_insert_ne by (destruct Hpc; lia). by apply (H p c).
  - intros q c Hq Hq0. destruct Hq0; lia.
Qed.

Lemma Fix_root_Permutation l : Fix less l 0 ≡ₚ l.
Proof.
  unfold Fix. pose proof (down_Permutation (length l) 0 (length l) l) as Hd.
  destruct (down less (length l) l 0 (length l)) as [l' k]. by destruct (0 <? k)%nat.
Qed.

(** [Pop] takes the first element out and leaves a heap of the others. *)
Lemma heap_Pop_spec x l :
  heap_from 0 (length (x :: l)) (x :: l) ->
  exists l', heap_Pop less (x :: l) = Ok (x, l') /\ l' ≡ₚ l /\ heap_from 0 (length l') l'.
Proof.
  intros H. unfold heap_Pop. cbn [length]. set (n := length l).
  set (s := swap 0 n (x :: l)). set (d := (down less n s 0 n).1).
  assert (length s = S n) as Hs by (unfold s; by rewrite length_swap).
  assert (d ≡ₚ x :: l) as Hp by (unfold d, s; by rewrite down_Permutation, swap_Permutation).
  assert (d !! n = Some x) as Hx.
  { unfold d. rewrite down_outside by lia. unfold s. rewrite lookup_swap by (cbn; lia).
    case_decide as E; [by rewrite E|by rewrite decide_True by done]. }
  exists (take n d). unfold index. rewrite Hx. split; [done|].
  assert (d = take n d ++ [x]) as Hd.
  { rewrite <- (take_drop n d) at 1. f_equal. rewrite (drop_S _ x n Hx), drop_ge; [done|].
    rewrite Hp. done. }
  split.
  - apply (Permutation_app_inv_r [x]). rewrite <- Hd, Hp. apply Permutation_cons_append.
  - assert (length (take n d) = n) as -> by (rewrite length_take, Hp; cbn; lia).
    intros p c Hp0 Hpc Hc. unfold ordered, less_at. rewrite !lookup_take_lt by (destruct Hpc; lia).
    apply (down_heap n 0 0 n s); [lia|lia|lia| |done|done|done].
    split; [|intros q c' _ Hq; destruct Hq; lia].
    intros p' c' _ Hne Hpc' Hc'. unfold ordered, less_at, s. rewrite !lookup_swap by (cbn; lia).
    rewrite !decide_False by (destruct Hpc'; lia). apply (H p' c'); [lia|done|cbn; lia].
Qed.

(** *** Push *)

Lemma up_Permutation fuel : forall l j, up less fuel l j ≡ₚ l.
Proof.
  induction fuel as [|fuel IH]; intros l j; cbn; [done|]. case_match; [done|]. by rewrite IH, swap_Permutation.
Qed.

Lemma heap_Push_Permutation l x : heap_Push less l x ≡ₚ x :: l.
Proof. unfold heap_Push. rewrite up_Permutation. symmetry. apply Permutation_cons_append. Qed.

(** A heap with an element at [j] that may be too late. *)
Definition heap_above (j : nat) (l : list A) : Prop :=
  (forall p c, child p c -> c <> j -> (c < length l)%nat -> ordered l p c) /\
  (forall q c, child q j -> child j c -> (c < length l)%nat -> ordered l q c).

Lemma child_parent p c : child p c <-> (c <> 0 /\ p = (c - 1) / 2)%nat.
Proof.
  unfold child. pose proof (Nat.div_mod_eq (c - 1) 2). pose proof (Nat.mod_upper_bound (c - 1) 2 ltac:(lia)). split; lia.
Qed.

Lemma heap_above_swap j l :
  (j < length l)%nat -> j <> 0%nat -> heap_above j l -> less_at less l j ((j - 1) / 2) = true ->
  heap_above ((j - 1) / 2) (swap ((j - 1) / 2) j l).
Proof.
  intros Hj Hne [H1 H2] Hless. set (i := ((j - 1) / 2)%nat) in *.
  assert (i < j)%nat as Hij by (unfold i; apply Nat.Div0.div_lt_upper_bound; lia).
  assert (child i j) as Hc by (by apply child_parent).
  assert (forall k, swap i j l !! k = if decide (k = i) then l !! j else if decide (k = j) then l !! i else l !! k) as Hs
    by (intros k; apply lookup_swap; lia).
  assert (forall p c, child p c -> (p < c)%nat) as Hlt by (unfold child; lia).
  assert (ordered l j i) as Hji.
  { unfold ordered, less_at in *. destruct (l !! j), (l !! i); try done. by apply less_asym. }
  split; rewrite length_swap.
  - intros p c Hpc Hci Hcl. pose proof (Hlt _ _ Hpc). unfold ordered, less_at. rewrite !Hs.
    destruct (decide (c = j)) as [->|Hcj].
    + apply child_parent in Hpc as [_ ->]. fold i. rewrite (decide_False (P := j = i)) by lia.
      rewrite !decide_True by done. exact Hji.
    + rewrite (decide_False (P := c = i)) by done. destruct (decide (p = i)) as [->|Hpi].
      * apply (ordered_trans _ _ i); [lia|done|]. by apply (H1 i c).
      * destruct (decide (p = j)) as [->|Hpj]; [by apply (H2 i c)|by apply (H1 p c)].
  - intros q c Hq Hic Hcl. pose proof (Hlt _ _ Hq). pose proof (Hlt _ _ Hic). unfold ordered, less_at. rewrite !Hs.
    rewrite (decide_False (P := q = i)), (decide_False (P := q = j)), (decide_False (P := c = i)) by lia.
    destruct (decide (c = j)) as [->|Hcj]; [apply (H1 q i); [done|lia|lia]|].
    apply (ordered_trans _ _ i); [lia|apply (H1 q i); [done|lia|lia]|by apply (H1 i c)].
Qed.

Lemma up_heap fuel : forall j l,
  (j < fuel)%nat -> (j < length l)%nat -> heap_above j l -> heap_from 0 (length l) (up less fuel l j).
Proof.
  induction fuel as [|fuel IH]; intros j l Hf Hj H; [lia|]. cbn [up]. cbv zeta.
  destruct (Nat.eqb_spec ((j - 1) / 2) j) as [E|E]; cbn [orb].
  - assert (j = 0%nat) as -> by (destruct j as [|j]; [done|]; pose proof (Nat.Div0.div_lt_upper_bound (S j - 1) 2 (S j)); lia).
    intros p c _ Hpc Hc. apply (proj1 H); [done|unfold child in Hpc; lia|done].
  - assert (j <> 0%nat) as Hne by (by intros ->).
    destruct (less_at less l j ((j - 1) / 2)) eqn:El; cbn [negb].
    + rewrite <- (length_swap ((j - 1) / 2) j l). apply IH; [|rewrite length_swap|by apply heap_above_swap].
      all: pose proof (Nat.Div0.div_lt_upper_bound (j - 1) 2 j ltac:(lia)); lia.
    + intros p c _ Hpc Hc. destruct (decide (c = j)) as [->|Hcj]; [|by apply (proj1 H)].
      apply child_parent in Hpc as [_ ->]. exact El.
Qed.

(** [Push] makes a heap of a heap and an element. *)
Lemma heap_Push_heap l x : heap_from 0 (length l) l -> heap_from 0 (length (heap_Push less l x)) (heap_Push less l x).
Proof.
  intros H. unfold heap_Push. replace (length (up _ _ _ _)) with (length (l ++ [x])) by (by rewrite up_Permutation).
  apply up_heap; [lia|rewrite length_app; cbn; lia|]. split.
  - intros p c Hpc Hne. rewrite length_app. cbn. intros Hc. unfold ordered, less_at.
    rewrite !lookup_app_l by (unfold child in Hpc; lia). apply (H p c); [lia|done|lia].
  - intros q c _ Hjc. rewrite length_app. cbn. unfold child in Hjc. lia.
Qed.

End HeapOrder.
