(* ===== verification/CliqueSnapshot.v ===== *)
(** * Clique voting snapshots

    consensus/clique/snapshot.go: the authorization state of the
    proof-of-authority engine (signers, recent signers, votes and their tally)
    and its evolution header by header.

    The Go maps are [gmap] and [gset]; the loops over them only ask whether some
    entry satisfies a condition or copy them, so their order does not matter.
    The signer of a header is a parameter [ecrecover] here: the signature cache
    only speeds it up (see Clique.v). *)

From S2P Require Import Prelude EthTypes.

(** ** Data *)

(** [geth:consensus/clique/snapshot.go:35-40] Vote *)
Record Vote := {
  v_Signer : Address;
  v_Block : Z;
  v_Address : Address;
  v_Authorize : bool;
}.

#[export] Instance Vote_eq_dec : EqDecision Vote.
Proof. solve_decision. Defined.

(** [geth:consensus/clique/snapshot.go:44-47] Tally *)
Record Tally := {
  t_Authorize : bool;
  t_Votes : Z;
}.

#[export] Instance Tally_eq_dec : EqDecision Tally.
Proof. solve_decision. Defined.

(** The engine configuration is a parameter of the operations.
    [geth:consensus/clique/snapshot.go:50-60] Snapshot *)
Record Snapshot := {
  s_Number : Z;
  s_Hash : Hash;
  Signers : gset Address;
  Recents : gmap Z Address;
  Votes : list Vote;
  s_Tally : gmap Address Tally;
}.

Record CliqueConfig := {
  Period : Z;
  Epoch : Z;
}.

Definition set_number n h (s : Snapshot) : Snapshot :=
  {| s_Number := n; s_Hash := h; Signers := Signers s; Recents := Recents s;
     Votes := Votes s; s_Tally := s_Tally s |}.
Definition set_signers x (s : Snapshot) : Snapshot :=
  {| s_Number := s_Number s; s_Hash := s_Hash s; Signers := x; Recents := Recents s;
     Votes := Votes s; s_Tally := s_Tally s |}.
Definition set_recents x (s : Snapshot) : Snapshot :=
  {| s_Number := s_Number s; s_Hash := s_Hash s; Signers := Signers s; Recents := x;
     Votes := Votes s; s_Tally := s_Tally s |}.
Definition set_votes x (s : Snapshot) : Snapshot :=
  {| s_Number := s_Number s; s_Hash := s_Hash s; Signers := Signers s; Recents := Recents s;
     Votes := x; s_Tally := s_Tally s |}.
Definition set_tally x (s : Snapshot) : Snapshot :=
  {| s_Number := s_Number s; s_Hash := s_Hash s; Signers := Signers s; Recents := Recents s;
     Votes := Votes s; s_Tally := x |}.

Definition errInvalidVotingChain : error := "invalid voting chain".
Definition errUnauthorizedSigner : error := "unauthorized signer".
Definition errRecentlySigned : error := "recently signed".
Definition errInvalidVote : error := "vote nonce not 0x00..0 or 0xff..f".

Definition nonceAuthVote : bytes := replicate 8 Byte.xff.
Definition nonceDropVote : bytes := replicate 8 Byte.x00.

(** ** Operations *)

(** [geth:consensus/clique/snapshot.go:72-86] newSnapshot *)
Definition newSnapshot (number : Z) (hash : Hash) (signers : list Address) : Snapshot :=
  {| s_Number := number; s_Hash := hash;
     Signers := fold_left (fun acc a => {[a]} ∪ acc) signers ∅;
     Recents := ∅; Votes := []; s_Tally := ∅ |}.

(** A deep copy of the maps; values of the model are never shared.
    [geth:consensus/clique/snapshot.go:114-137] copy *)
Definition copy (s : Snapshot) : Snapshot :=
  {| s_Number := s_Number s; s_Hash := s_Hash s;
     Signers := set_fold (fun a acc => {[a]} ∪ acc) ∅ (Signers s);
     Recents := map_fold (fun b a acc => <[b := a]> acc) ∅ (Recents s);
     Votes := Votes s;
     s_Tally := map_fold (fun a t acc => <[a := t]> acc) ∅ (s_Tally s) |}.

(** [geth:consensus/clique/snapshot.go:141-144] validVote *)
Definition validVote (s : Snapshot) (address : Address) (authorize : bool) : bool :=
  let signer := bool_decide (address ∈ Signers s) in
  (signer && negb authorize) || (negb signer && authorize).

(** [geth:consensus/clique/snapshot.go:147-160] cast *)
Definition cast (s : Snapshot) (address : Address) (authorize : bool) : bool * Snapshot :=
  if negb (validVote s address authorize) then (false, s)
  else
    match s_Tally s !! address with
    | Some old =>
        (true, set_tally (<[address := {| t_Authorize := t_Authorize old;
                                           t_Votes := t_Votes old + 1 |}]> (s_Tally s)) s)
    | None =>
        (true, set_tally (<[address := {| t_Authorize := authorize;
                                           t_Votes := 1 |}]> (s_Tally s)) s)
    end.

(** [geth:consensus/clique/snapshot.go:163-181] uncast *)
Definition uncast (s : Snapshot) (address : Address) (authorize : bool) : bool * Snapshot :=
  match s_Tally s !! address with
  | None => (false, s)
  | Some tally =>
      if negb (Bool.eqb (t_Authorize tally) authorize) then (false, s)
      else if 1 <? t_Votes tally then
        (true, set_tally (<[address := {| t_Authorize := t_Authorize tally;
                                           t_Votes := t_Votes tally - 1 |}]> (s_Tally s)) s)
      else (true, set_tally (delete address (s_Tally s)) s)
  end.

(** [uint64(len(snap.Signers)/2 + 1)]. *)
Definition signers_limit (s : Snapshot) : Z := Z.of_nat (size (Signers s)) / 2 + 1.

(** [for _, recent := range snap.Recents { if recent == signer ... }]. *)
Definition recently_signed (s : Snapshot) (signer : Address) : bool :=
  bool_decide (signer ∈ (map_to_list (Recents s)).*2).

(** Discard the first vote of [signer] on [address].
    [geth:consensus/clique/snapshot.go:233-242] apply *)
Fixpoint discard_vote (signer address : Address) (before after : list Vote) (s : Snapshot) : Snapshot :=
  match after with
  | [] => s
  | vote :: rest =>
      if bool_decide (v_Signer vote = signer /\ v_Address vote = address) then
        set_votes (before ++ rest) (uncast s (v_Address vote) (v_Authorize vote)).2
      else discard_vote signer address (before ++ [vote]) rest s
  end.

(** Discard every vote the deauthorized signer cast.
    [geth:consensus/clique/snapshot.go:272-283] apply *)
Fixpoint discard_votes_of (signer : Address) (kept todo : list Vote) (s : Snapshot) : Snapshot :=
  match todo with
  | [] => set_votes kept s
  | vote :: rest =>
      if bool_decide (v_Signer vote = signer) then
        discard_votes_of signer kept rest (uncast s (v_Address vote) (v_Authorize vote)).2
      else discard_votes_of signer (kept ++ [vote]) rest s
  end.

(** Discard every vote about the just changed account.
    [geth:consensus/clique/snapshot.go:285-291] apply *)
Fixpoint discard_votes_on (address : Address) (votes : list Vote) : list Vote :=
  match votes with
  | [] => []
  | vote :: rest =>
      if bool_decide (v_Address vote = address) then discard_votes_on address rest
      else vote :: discard_votes_on address rest
  end.

(** [delete(snap.Recents, number-limit)] when [number >= limit]. *)
Definition shift_recents (number : Z) (s : Snapshot) : Snapshot :=
  let limit := signers_limit s in
  if limit <=? number then set_recents (delete (number -u limit) (Recents s)) s else s.

(** The change of the signer list when the vote on [coinbase] has passed.
    [geth:consensus/clique/snapshot.go:261-293] apply *)
Definition settle_vote (number : Z) (coinbase : Address) (s : Snapshot) : Snapshot :=
  match s_Tally s !! coinbase with
  | Some tally =>
      if Z.of_nat (size (Signers s)) / 2 <? t_Votes tally then
        let s :=
          if t_Authorize tally then set_signers ({[coinbase]} ∪ Signers s) s
          else
            let s := set_signers (Signers s ∖ {[coinbase]}) s in
            let s := shift_recents number s in
            discard_votes_of coinbase [] (Votes s) s in
        let s := set_votes (discard_votes_on coinbase (Votes s)) s in
        set_tally (delete coinbase (s_Tally s)) s
      else s
  | None => s
  end.

(** The vote a nonce stands for.
    [geth:consensus/clique/snapshot.go:244-252] apply *)
Definition nonce_vote (nonce : bytes) : outcome bool :=
  if bool_decide (nonce = nonceAuthVote) then mret true
  else if bool_decide (nonce = nonceDropVote) then mret false
  else Err errInvalidVote.

(** Tally up the new vote from the signer.
    [geth:consensus/clique/snapshot.go:253-260] apply *)
Definition record_vote (signer a : Address) (number : Z) (auth : bool) (s : Snapshot) : Snapshot :=
  let '(ok, s') := cast s a auth in
  if ok then
    set_votes (Votes s' ++ [{| v_Signer := signer; v_Block := number;
                               v_Address := a; v_Authorize := auth |}]) s'
  else s'.

Section Apply.
Context (ecrecover : Header -> outcome Address) (header_hash : Header -> Hash).
Context (config : CliqueConfig).

(** Remove any votes on checkpoint blocks.
    [geth:consensus/clique/snapshot.go:209-213] apply *)
Definition epoch_reset (number : Z) (snap : Snapshot) : Snapshot :=
  if number mod Epoch config =? 0 then set_tally ∅ (set_votes [] snap) else snap.

(** One pass of the loop over the headers.
    [geth:consensus/clique/snapshot.go:206-299] apply *)
Definition apply_header (snap : Snapshot) (header : Header) : outcome Snapshot :=
  number ← number_of header;
  if Epoch config =? 0 then Panic "integer divide by zero"
  else
    let snap := epoch_reset number snap in
    let snap := shift_recents number snap in
    signer ← ecrecover header;
    _ ← ensure (bool_decide (signer ∈ Signers snap)) errUnauthorizedSigner;
    _ ← ensure (negb (recently_signed snap signer)) errRecentlySigned;
    let snap := set_recents (<[number := signer]> (Recents snap)) snap in
    let snap := discard_vote signer (Coinbase header) [] (Votes snap) snap in
    authorize ← nonce_vote (Nonce header);
    let snap := record_vote signer (Coinbase header) number authorize snap in
    mret (settle_vote number (Coinbase header) snap).

Fixpoint apply_headers (snap : Snapshot) (headers : list Header) : outcome Snapshot :=
  match headers with
  | [] => mret snap
  | h :: rest => snap' ← apply_header snap h; apply_headers snap' rest
  end.

(** The sanity check: consecutive numbers.
    [geth:consensus/clique/snapshot.go:191-195] apply *)
Fixpoint check_contiguous (headers : list Header) : outcome unit :=
  match headers with
  | h :: ((h' :: _) as rest) =>
      n' ← number_of h';
      n ← number_of h;
      if n' =? n +u 1 then check_contiguous rest else Err errInvalidVotingChain
  | _ => mret tt
  end.

(** [geth:consensus/clique/snapshot.go:185-307] apply *)
Definition apply (s : Snapshot) (headers : list Header) : outcome Snapshot :=
  match headers with
  | [] => mret s
  | h0 :: _ =>
      _ ← check_contiguous headers;
      n0 ← number_of h0;
      _ ← ensure (n0 =? s_Number s +u 1) errInvalidVotingChain;
      snap ← apply_headers (copy s) headers;
      let hash := match last headers with Some h => header_hash h | None => s_Hash snap end in
      mret (set_number (s_Number snap +u Z.of_nat (length headers)) hash snap)
  end.

End Apply.

(** Ascending byte-wise order, [bytes.Compare(a, b) <= 0].
    [geth:consensus/clique/snapshot.go:63-67] signersAscending *)
Fixpoint bytes_le (a b : bytes) : bool :=
  match a, b with
  | [], _ => true
  | _ :: _, [] => false
  | x :: a', y :: b' =>
      if byte_val x <? byte_val y then true
      else if byte_val y <? byte_val x then false
      else bytes_le a' b'
  end.

Definition addr_le (a b : Address) : Prop := bytes_le a b = true.
#[export] Instance addr_le_dec : RelDecision addr_le.
Proof. intros a b. unfold addr_le. solve_decision. Defined.

(** [geth:consensus/clique/snapshot.go:310-317] signers *)
Definition signers (s : Snapshot) : list Address :=
  merge_sort addr_le (elements (Signers s)).

Fixpoint offset_of (signer : Address) (l : list Address) : nat :=
  match l with
  | [] => 0
  | a :: rest => if bool_decide (a = signer) then 0 else S (offset_of signer rest)
  end.

(** [geth:consensus/clique/snapshot.go:320-326] inturn *)
Definition inturn (s : Snapshot) (number : Z) (signer : Address) : outcome bool :=
  let l := signers s in
  let n := Z.of_nat (length l) in
  if n =? 0 then Panic "integer divide by zero"
  else mret (number mod n =? Z.of_nat (offset_of signer l)).

(** ** The voting invariant *)

Definition votes_on (a : Address) (vs : list Vote) : list Vote :=
  filter (fun v => v_Address v = a) vs.

(** The direction a vote on [a] must have: adding an outsider, dropping a signer. *)
Definition direction (sg : gset Address) (a : Address) : bool := negb (bool_decide (a ∈ sg)).

(** The tally of [n] votes on [a]. *)
Definition mk_tally (sg : gset Address) (a : Address) (n : nat) : option Tally :=
  match n with
  | O => None
  | S _ => Some {| t_Authorize := direction sg a; t_Votes := Z.of_nat n |}
  end.

(** The cached tally counts the votes. *)
Definition tally_ok (sg : gset Address) (vs : list Vote) (T : gmap Address Tally) : Prop :=
  forall a, T !! a = mk_tally sg a (length (votes_on a vs)).

Definition votes_valid (sg : gset Address) (vs : list Vote) : Prop :=
  Forall (fun v => v_Authorize v = direction sg (v_Address v)) vs.

(** Votes are by signers, one per signer and account, in the meaningful
    direction, and the tally counts them. *)
Record snap_inv (s : Snapshot) : Prop := {
  inv_voters : Forall (fun v => v_Signer v ∈ Signers s) (Votes s);
  inv_unique : NoDup ((fun v => (v_Signer v, v_Address v)) <$> Votes s);
  inv_valid : votes_valid (Signers s) (Votes s);
  inv_tally : tally_ok (Signers s) (Votes s) (s_Tally s);
}.

Lemma copy_id s : copy s = s.
Proof.
  destruct s as [n h sg rc vs ty]. unfold copy. cbn. f_equal.
  - apply (set_fold_ind_L (fun acc X => acc = X)); [done|]. intros a X r _ ->. done.
  - apply (map_fold_weak_ind (fun acc m => acc = m)); [done|]. intros a x m r _ ->. done.
  - apply (map_fold_weak_ind (fun acc m => acc = m)); [done|]. intros a x m r _ ->. done.
Qed.

Lemma uncast_spec sg n s a auth :
  s_Tally s !! a = mk_tally sg a (S n) -> auth = direction sg a ->
  exists T, (uncast s a auth).2 = set_tally T s /\
    T !! a = mk_tally sg a n /\ (forall b, b <> a -> T !! b = s_Tally s !! b).
Proof.
  intros HT ->. unfold uncast. rewrite HT. cbn [mk_tally t_Authorize t_Votes].
  rewrite Bool.eqb_reflx. cbn [negb]. destruct (Z.ltb_spec 1 (Z.of_nat (S n))).
  - eexists. split; [done|]. split.
    + rewrite lookup_insert_eq. destruct n; [lia|]. cbn. do 2 f_equal. lia.
    + intros b Hb. by rewrite lookup_insert_ne.
  - eexists. split; [done|]. split.
    + rewrite lookup_delete_eq. by destruct n; [|lia].
    + intros b Hb. by rewrite lookup_delete_ne.
Qed.

Lemma cast_spec sg n s a auth :
  Signers s = sg -> s_Tally s !! a = mk_tally sg a n -> auth = direction sg a ->
  exists T, cast s a auth = (true, set_tally T s) /\
    T !! a = mk_tally sg a (S n) /\ (forall b, b <> a -> T !! b = s_Tally s !! b).
Proof.
  intros <- HT ->. unfold cast.
  assert (validVote s a (direction (Signers s) a) = true) as ->.
  { unfold validVote, direction. by destruct (bool_decide _). }
  cbn [negb]. rewrite HT. destruct n; cbn [mk_tally]; eexists; (split; [done|]).
  - split; [by rewrite lookup_insert_eq|]. intros b Hb. by rewrite lookup_insert_ne.
  - split; [rewrite lookup_insert_eq; cbn; do 2 f_equal; lia|].
    intros b Hb. by rewrite lookup_insert_ne.
Qed.

Lemma cast_invalid s a auth :
  auth <> direction (Signers s) a -> cast s a auth = (false, s).
Proof.
  intros H. unfold cast, validVote. unfold direction in H.
  by destruct (bool_decide _), auth.
Qed.

(** Removing one vote from the list and uncasting it keeps the tally exact. *)
Lemma tally_ok_remove sg l1 v l2 s :
  tally_ok sg (l1 ++ v :: l2) (s_Tally s) -> v_Authorize v = direction sg (v_Address v) ->
  exists T, (uncast s (v_Address v) (v_Authorize v)).2 = set_tally T s /\
    tally_ok sg (l1 ++ l2) T.
Proof.
  intros HT Hv.
  assert (forall a, length (votes_on a (l1 ++ v :: l2)) =
    (length (votes_on a (l1 ++ l2)) + if decide (v_Address v = a) then 1 else 0)%nat) as Hlen.
  { intros a. unfold votes_on. rewrite !filter_app, filter_cons, !length_app.
    case_decide; simpl; lia. }
  destruct (uncast_spec sg (length (votes_on (v_Address v) (l1 ++ l2))) s (v_Address v) (v_Authorize v))
    as (T & E & Ha & Hb); [|done|].
  { rewrite HT, Hlen, decide_True by done. f_equal. lia. }
  exists T. split; [done|]. intros b. destruct (decide (b = v_Address v)) as [->|Hne]; [done|].
  rewrite Hb, HT, Hlen by done. rewrite decide_False by done. f_equal. lia.
Qed.

Lemma discard_vote_cases signer address before after s :
  (Forall (fun v => ~ (v_Signer v = signer /\ v_Address v = address)) after /\
   discard_vote signer address before after s = s) \/
  (exists l1 v l2, after = l1 ++ v :: l2 /\ v_Signer v = signer /\ v_Address v = address /\
   discard_vote signer address before after s =
     set_votes (before ++ l1 ++ l2) (uncast s (v_Address v) (v_Authorize v)).2).
Proof.
  revert before. induction after as [|v after IH]; intros before; simpl; [by left; split|].
  case_bool_decide as Hv.
  - right. exists [], v, after. naive_solver.
  - destruct (IH (before ++ [v])) as [[Hf ->]|(l1 & w & l2 & -> & Hs & Ha & ->)].
    + left. split; [by constructor|done].
    + right. exists (v :: l1), w, l2. split_and!; [done..|]. by rewrite <- app_assoc.
Qed.

Lemma discard_votes_of_spec sg signer kept todo s :
  votes_valid sg todo -> tally_ok sg (kept ++ todo) (s_Tally s) ->
  exists T,
    discard_votes_of signer kept todo s =
      set_votes (kept ++ filter (fun v => v_Signer v <> signer) todo) (set_tally T s) /\
    tally_ok sg (kept ++ filter (fun v => v_Signer v <> signer) todo) T.
Proof.
  revert kept s. induction todo as [|v todo IH]; intros kept s Hval HT; simpl.
  { exists (s_Tally s). rewrite filter_nil, app_nil_r in *. split; [by destruct s|done]. }
  apply Forall_cons in Hval as [Hv Hval]. case_bool_decide as Hs.
  - destruct (tally_ok_remove sg kept v todo s HT Hv) as (T & -> & HT').
    destruct (IH kept (set_tally T s)) as (T2 & -> & HT2); [done..|].
    exists T2. rewrite filter_cons_False by (intros Hn; contradiction). done.
  - rewrite filter_cons_True by done.
    destruct (IH (kept ++ [v]) s) as (T & E & HT'); [done|by rewrite <- app_assoc|].
    rewrite <- app_assoc in E, HT'. by exists T.
Qed.

Lemma discard_votes_on_filter a vs :
  discard_votes_on a vs = filter (fun v => v_Address v <> a) vs.
Proof.
  induction vs as [|v vs IH]; simpl; [done|]. case_bool_decide as Hv.
  - rewrite filter_cons_False by (intros Hn; contradiction). done.
  - rewrite filter_cons_True by done. by f_equal.
Qed.

(** *** Each step keeps the invariant *)

Lemma snap_inv_recents x s : snap_inv s -> snap_inv (set_recents x s).
Proof. intros [? ? ? ?]. by split. Qed.

Lemma snap_inv_number n h s : snap_inv s -> snap_inv (set_number n h s).
Proof. intros [? ? ? ?]. by split. Qed.

Lemma snap_inv_shift n s : snap_inv s -> snap_inv (shift_recents n s).
Proof. intros ?. unfold shift_recents. case_match; [by apply snap_inv_recents|done]. Qed.

Lemma snap_inv_reset s : snap_inv (set_tally ∅ (set_votes [] s)).
Proof. split; cbn; [constructor..|]. intros a. by rewrite lookup_empty. Qed.

Lemma newSnapshot_inv n h l : snap_inv (newSnapshot n h l).
Proof. split; cbn; [constructor..|]. intros a. by rewrite lookup_empty. Qed.

(** After discarding, the signer has no vote left on the account. *)
Lemma discard_vote_inv signer address s :
  snap_inv s ->
  let s' := discard_vote signer address [] (Votes s) s in
  snap_inv s' /\ Signers s' = Signers s /\ Recents s' = Recents s /\ s_Number s' = s_Number s /\
  Forall (fun v => v ∈ Votes s) (Votes s') /\
  Forall (fun v => ~ (v_Signer v = signer /\ v_Address v = address)) (Votes s').
Proof.
  intros [Hvo Hun Hva Hta] s'.
  destruct (discard_vote_cases signer address [] (Votes s) s)
    as [[Hf E]|(l1 & v & l2 & El & Hs & Ha & E)]; subst s'; rewrite E.
  { split_and!; try done. by apply Forall_forall. }
  rewrite El in *. rewrite Forall_app, Forall_cons in Hvo.
  pose proof Hva as Hva'. unfold votes_valid in Hva'. rewrite Forall_app, Forall_cons in Hva'.
  destruct Hva' as (Hva1 & Hv & Hva2).
  destruct (tally_ok_remove _ _ _ _ _ Hta Hv) as (T & -> & HT).
  rewrite fmap_app, fmap_cons in Hun.
  rewrite NoDup_app, NoDup_cons in Hun. destruct Hun as (Hn1 & Hdis & Hnv & Hn2).
  split_and!; cbn; try done.
  - split; cbn; [apply Forall_app; tauto| |apply Forall_app; tauto|done].
    rewrite fmap_app. apply NoDup_app. split_and!; [done| |done].
    intros x Hx Hx'. apply (Hdis x Hx). by right.
  - apply Forall_app. split; apply Forall_forall; intros w Hw; rewrite elem_of_app; [by left|].
    right. by right.
  - assert (forall w, w ∈ l1 \/ w ∈ l2 -> ~ (v_Signer w = signer /\ v_Address w = address)) as Hw.
    { intros w Hw [Hws Hwa].
      assert ((v_Signer w, v_Address w) = (v_Signer v, v_Address v)) as Ew by congruence.
      destruct Hw as [Hw|Hw].
      - apply (Hdis (v_Signer v, v_Address v)); [|by left].
        rewrite <- Ew. by apply (list_elem_of_fmap_2 (fun v => (v_Signer v, v_Address v))).
      - apply Hnv. rewrite <- Ew.
        by apply (list_elem_of_fmap_2 (fun v => (v_Signer v, v_Address v))). }
    apply Forall_app. split; apply Forall_forall; eauto.
Qed.

Lemma NoDup_fmap_filter {A B} (f : A -> B) (P : A -> Prop) `{!forall x, Decision (P x)} l :
  NoDup (f <$> l) -> NoDup (f <$> filter P l).
Proof.
  induction l as [|x l IH]; [done|]. rewrite fmap_cons, NoDup_cons. intros [Hx Hl].
  rewrite filter_cons. case_decide; [|by apply IH]. rewrite fmap_cons, NoDup_cons.
  split; [|by apply IH]. intros (y & Hy & Hin)%list_elem_of_fmap.
  apply list_elem_of_filter in Hin as [_ Hin]. apply Hx. rewrite Hy.
  by apply list_elem_of_fmap_2.
Qed.

(** Changing the authorization of [a] alone and dropping everything about [a]
    keeps the invariant. *)
Lemma snap_inv_change sg' a (P : Vote -> Prop) `{!forall v, Decision (P v)} T s s' :
  snap_inv s ->
  (forall b, b <> a -> b ∈ sg' <-> b ∈ Signers s) ->
  (forall v, v ∈ Votes s -> P v -> v_Signer v ∈ sg') ->
  tally_ok (Signers s) (filter P (Votes s)) T ->
  Signers s' = sg' -> Votes s' = discard_votes_on a (filter P (Votes s)) ->
  s_Tally s' = delete a T -> snap_inv s'.
Proof.
  intros [Hvo Hun Hva Hta] Hsg Hvoters HT E1 E2 E3. rewrite discard_votes_on_filter in E2.
  assert (forall b, b <> a -> direction sg' b = direction (Signers s) b) as Hdir.
  { intros b Hb. unfold direction. f_equal. apply bool_decide_ext. by apply Hsg. }
  split; rewrite ?E1, ?E2, ?E3.
  - apply Forall_forall. intros v [_ [HP Hv]%list_elem_of_filter]%list_elem_of_filter.
    by apply Hvoters.
  - by do 2 apply NoDup_fmap_filter.
  - apply Forall_forall. intros v [Hne [HP Hv]%list_elem_of_filter]%list_elem_of_filter.
    rewrite Hdir by done. by apply (proj1 (Forall_forall _ _) Hva).
  - intros b. destruct (decide (b = a)) as [->|Hb].
    + rewrite lookup_delete_eq. unfold votes_on.
      assert (filter (fun v => v_Address v = a)
                (filter (fun v => v_Address v <> a) (filter P (Votes s))) = []) as ->; [|done].
      apply elem_of_nil_inv. intros v [Hv [Hne _]%list_elem_of_filter]%list_elem_of_filter. done.
    + rewrite lookup_delete_ne, HT by done. unfold votes_on.
      assert (mk_tally sg' b = mk_tally (Signers s) b) as ->.
      { unfold mk_tally. by rewrite Hdir. }
      do 2 f_equal. symmetry. apply list_filter_filter_l. intros v <-. done.
Qed.

(** Adding an outsider or dropping a signer. *)
Definition toggle (a : Address) (sg : gset Address) : gset Address :=
  if bool_decide (a ∈ sg) then sg ∖ {[a]} else {[a]} ∪ sg.

Lemma filter_ext_in {A} (P Q : A -> Prop) `{!forall x, Decision (P x)} `{!forall x, Decision (Q x)} (l : list A) :
  (forall x, x ∈ l -> P x <-> Q x) -> filter P l = filter Q l.
Proof.
  induction l as [|x l IH]; intros Hl; [done|].
  assert (P x <-> Q x) as Hx by (apply Hl; by left).
  rewrite !filter_cons, IH by (intros; apply Hl; by right).
  by destruct (decide (P x)), (decide (Q x)); try tauto.
Qed.

(** The outcome of counting the votes on [a]: with a strict majority the
    authorization of [a] is toggled and the votes on it, or by an ousted [a],
    are gone; otherwise nothing changes. *)
Lemma settle_vote_cases number a s :
  snap_inv s ->
  let s' := settle_vote number a s in
  let sg' := toggle a (Signers s) in
  if Z.of_nat (size (Signers s)) <? 2 * Z.of_nat (length (votes_on a (Votes s))) then
    snap_inv s' /\ Signers s' = sg' /\ s_Number s' = s_Number s /\
    Recents s' = (if bool_decide (a ∈ Signers s)
                  then Recents (shift_recents number (set_signers sg' s)) else Recents s) /\
    Votes s' = filter (fun v => v_Address v <> a) (filter (fun v => v_Signer v ∈ sg') (Votes s))
  else s' = s.
Proof.
  intros Hinv. pose proof Hinv as [Hvo Hun Hva Hta]. unfold settle_vote, toggle. cbv zeta.
  rewrite (Hta a). rewrite Forall_forall in Hvo.
  destruct (length (votes_on a (Votes s))) as [|n]; cbn [mk_tally t_Votes t_Authorize].
  { by destruct (Z.ltb_spec (Z.of_nat (size (Signers s))) (2 * Z.of_nat 0)); [lia|]. }
  assert ((Z.of_nat (size (Signers s)) / 2 <? Z.of_nat (S n)) =
          (Z.of_nat (size (Signers s)) <? 2 * Z.of_nat (S n))) as ->.
  { apply eq_true_iff_eq. rewrite !Z.ltb_lt. split; intros H.
    - apply Z.lt_le_trans with (2 * (Z.of_nat (size (Signers s)) / 2 + 1)); [|lia].
      pose proof (Z.mod_pos_bound (Z.of_nat (size (Signers s))) 2).
      pose proof (Z.div_mod (Z.of_nat (size (Signers s))) 2). lia.
    - apply Z.div_lt_upper_bound; lia. }
  case_match; [|done]. unfold direction. case_bool_decide as Ha; cbn [negb].
  - set (s1 := shift_recents number _).
    assert (Votes s1 = Votes s /\ s_Tally s1 = s_Tally s /\ Signers s1 = Signers s ∖ {[a]} /\
            s_Number s1 = s_Number s) as (EV & ET & ES & EN)
      by (subst s1; unfold shift_recents; by case_match).
    destruct (discard_votes_of_spec (Signers s) a [] (Votes s1) s1) as (T & -> & HT);
      [by rewrite EV | by rewrite EV, ET |]. rewrite app_nil_l, EV in *.
    assert (filter (fun v => v_Signer v ∈ Signers s ∖ {[a]}) (Votes s)
            = filter (fun v => v_Signer v <> a) (Votes s)) as Ef.
    { apply filter_ext_in. intros v Hv. specialize (Hvo v Hv). set_solver. }
    split_and!; cbn; try done; [|by rewrite discard_votes_on_filter, Ef].
    eapply (snap_inv_change (Signers s ∖ {[a]}) a (fun v => v_Signer v <> a) T s); cbn; try done.
    + set_solver.
    + intros v Hv Hne. specialize (Hvo v Hv). set_solver.
  - assert (filter (fun v => v_Signer v ∈ {[a]} ∪ Signers s) (Votes s) = Votes s) as Ef.
    { apply filter_all. intros v Hv. specialize (Hvo v Hv). set_solver. }
    split_and!; cbn; try done; [|by rewrite discard_votes_on_filter, Ef].
    eapply (snap_inv_change ({[a]} ∪ Signers s) a (fun v => v_Signer v ∈ {[a]} ∪ Signers s)
              (s_Tally s) s); cbn; try done; rewrite ?Ef; try done.
    set_solver.
Qed.

Lemma settle_vote_inv number a s : snap_inv s -> snap_inv (settle_vote number a s).
Proof.
  intros Hinv. pose proof (settle_vote_cases number a s Hinv) as H. cbv zeta in H.
  case_match; [tauto|by rewrite H].
Qed.

(** Casting a vote the signer does not have yet. *)
Lemma record_vote_cases signer a number auth s :
  snap_inv s -> signer ∈ Signers s ->
  Forall (fun v => ~ (v_Signer v = signer /\ v_Address v = a)) (Votes s) ->
  let s' := record_vote signer a number auth s in
  snap_inv s' /\ Signers s' = Signers s /\ Recents s' = Recents s /\ s_Number s' = s_Number s /\
  Votes s' = if Bool.eqb auth (direction (Signers s) a)
             then Votes s ++ [{| v_Signer := signer; v_Block := number;
                                 v_Address := a; v_Authorize := auth |}]
             else Votes s.
Proof.
  intros Hinv Hs Hno s'. pose proof Hinv as [Hvo Hun Hva Hta]. subst s'. unfold record_vote.
  destruct (Bool.eqb auth (direction (Signers s) a)) eqn:E.
  2:{ rewrite cast_invalid; [done|]. intros ->. by rewrite Bool.eqb_reflx in E. }
  apply Bool.eqb_prop in E.
  destruct (cast_spec (Signers s) _ s a auth eq_refl (Hta a) E) as (T & -> & Ha & Hb).
  split_and!; try done. split; cbn.
  - apply Forall_app. split; [done|]. by constructor.
  - rewrite fmap_app. apply NoDup_app. split_and!; [done| |apply NoDup_singleton].
    intros x (v & -> & Hv)%list_elem_of_fmap Hx. apply list_elem_of_singleton in Hx.
    rewrite Forall_forall in Hno. apply (Hno v Hv). by injection Hx.
  - apply Forall_app. split; [done|]. by constructor.
  - intros b. unfold votes_on. rewrite filter_app, length_app, filter_cons, filter_nil. cbn.
    destruct (decide (a = b)) as [->|Hne].
    + rewrite Ha. f_equal. cbn. unfold votes_on. lia.
    + rewrite Hb, Hta by done. f_equal. cbn. unfold votes_on. lia.
Qed.

(** ** The governance contract

    What the vote lists and tallies implement: a set of ballots (who voted on
    which account) over the set of signers, in which every signer has at most
    one ballot per account, and an account changes sides when more than half of
    the signers have a ballot on it. *)

Definition Ballots := gset (Address * Address).

Definition ballot (v : Vote) : Address * Address := (v_Signer v, v_Address v).

Definition ballots_on (a : Address) (B : Ballots) : Ballots := filter (fun p => p.2 = a) B.

Definition gov_step (signer a : Address) (auth : bool) (g : gset Address * Ballots) :
    gset Address * Ballots :=
  let '(sg, B) := g in
  let B := B ∖ {[(signer, a)]} in
  let B := if Bool.eqb auth (direction sg a) then {[(signer, a)]} ∪ B else B in
  if Z.of_nat (size sg) <? 2 * Z.of_nat (size (ballots_on a B)) then
    let sg' := toggle a sg in
    (sg', filter (fun p => p.1 ∈ sg' /\ p.2 <> a) B)
  else (sg, B).

Definition governance (s : Snapshot) : gset Address * Ballots :=
  (Signers s, list_to_set (ballot <$> Votes s)).

Lemma elem_of_ballots p vs :
  p ∈ (list_to_set (ballot <$> vs) : Ballots) <-> exists v, v ∈ vs /\ ballot v = p.
Proof. rewrite elem_of_list_to_set, list_elem_of_fmap. naive_solver. Qed.

Lemma ballots_snoc (X : Ballots) p : X ∪ ({[p]} ∪ ∅) = {[p]} ∪ X.
Proof. set_solver. Qed.

Lemma elem_of_recast (b : bool) (p q : Address * Address) (B : Ballots) :
  p ∈ (if b then {[q]} ∪ B ∖ {[q]} else B ∖ {[q]}) -> p = q \/ p ∈ B.
Proof. destruct b; set_solver. Qed.

Lemma toggle_ne a b sg : b <> a -> b ∈ toggle a sg <-> b ∈ sg.
Proof. intros Hne. unfold toggle. case_bool_decide; set_solver. Qed.

(** One ballot per vote, so counting votes counts ballots. *)
Lemma size_ballots_on a vs :
  NoDup (ballot <$> vs) ->
  size (ballots_on a (list_to_set (ballot <$> vs))) = length (votes_on a vs).
Proof.
  intros Hnd. rewrite <- (length_fmap ballot (votes_on a vs)).
  rewrite <- (size_list_to_set (C := Ballots)) by (by apply NoDup_fmap_filter).
  f_equal. apply set_eq. intros p. unfold ballots_on, votes_on.
  rewrite elem_of_filter, !elem_of_ballots.
  setoid_rewrite list_elem_of_filter. naive_solver.
Qed.

Lemma settle_vote_governance number a s :
  snap_inv s ->
  governance (settle_vote number a s) =
    let '(sg, B) := governance s in
    if Z.of_nat (size sg) <? 2 * Z.of_nat (size (ballots_on a B)) then
      (toggle a sg, filter (fun p => p.1 ∈ toggle a sg /\ p.2 <> a) B)
    else (sg, B).
Proof.
  intros Hinv. pose proof (settle_vote_cases number a s Hinv) as H. cbv zeta in H.
  cbn [governance]. unfold governance at 1. rewrite size_ballots_on by apply Hinv.
  case_match; [|by rewrite H].
  destruct H as (_ & -> & _ & _ & ->). f_equal. apply set_eq. intros p.
  rewrite elem_of_filter, !elem_of_ballots. repeat setoid_rewrite list_elem_of_filter. naive_solver.
Qed.

Lemma discard_vote_governance signer a s :
  snap_inv s ->
  (governance (discard_vote signer a [] (Votes s) s)).2 = (governance s).2 ∖ {[(signer, a)]}.
Proof.
  intros Hinv. destruct (discard_vote_cases signer a [] (Votes s) s)
    as [[Hf ->]|(l1 & v & l2 & El & Hs & Ha & E)].
  - cbn. apply set_eq. intros p. rewrite elem_of_difference, elem_of_singleton, elem_of_ballots.
    rewrite Forall_forall in Hf. unfold ballot. split; [|tauto].
    intros (v & Hv & <-). split; [eauto|]. intros [= ? ?]. by apply (Hf v Hv).
  - pose proof (inv_unique s Hinv) as Hun. rewrite El in *. rewrite E. clear E. cbn.
    rewrite fmap_app, fmap_cons in Hun. rewrite El.
    rewrite fmap_app, fmap_app, fmap_cons, !list_to_set_app_L, list_to_set_cons.
    assert (ballot v = (signer, a)) as Hb by (unfold ballot; congruence). rewrite Hb.
    fold ballot in Hun. change (v_Signer v, v_Address v) with (ballot v) in Hun. rewrite Hb in Hun.
    apply NoDup_app in Hun as (_ & Hd & [Hn _]%NoDup_cons).
    assert ((signer, a) ∉ ballot <$> l1) as Hn1 by (intros Hin; apply (Hd _ Hin); by left).
    apply set_eq. intros p. rewrite elem_of_difference, !elem_of_union, !elem_of_singleton.
    rewrite !elem_of_list_to_set.
    destruct (decide (p = (signer, a))) as [->|]; naive_solver.
Qed.

Section ApplyProperties.
Context (ecrecover : Header -> outcome Address) (header_hash : Header -> Hash).
Context (config : CliqueConfig).

Implicit Types s : Snapshot.

Abbreviation apply_header := (apply_header ecrecover config).
Abbreviation apply_headers := (apply_headers ecrecover config).
Abbreviation apply := (apply ecrecover header_hash config).

(** The ballots an epoch transition leaves. *)
Definition gov_epoch (number : Z) (g : gset Address * Ballots) : gset Address * Ballots :=
  if number mod Epoch config =? 0 then (g.1, ∅) else g.

Lemma epoch_reset_facts number s :
  snap_inv s ->
  let s' := epoch_reset config number s in
  snap_inv s' /\ Signers s' = Signers s /\ Recents s' = Recents s /\ s_Number s' = s_Number s /\
  governance s' = gov_epoch number (governance s).
Proof.
  intros Hinv. cbv zeta. unfold epoch_reset, gov_epoch. case_match; [|done].
  split_and!; try done. apply snap_inv_reset.
Qed.

Lemma shift_recents_facts number s :
  snap_inv s ->
  let s' := shift_recents number s in
  snap_inv s' /\ Signers s' = Signers s /\ s_Number s' = s_Number s /\ governance s' = governance s /\
  Votes s' = Votes s.
Proof.
  intros Hinv. cbv zeta. split; [by apply snap_inv_shift|].
  unfold shift_recents. by case_match.
Qed.

(** Everything a successful pass of the loop has checked and done. *)
Lemma apply_header_cases s h s' :
  snap_inv s -> apply_header s h = Ok s' ->
  exists number signer auth s2,
    number_of h = Ok number /\ ecrecover h = Ok signer /\ nonce_vote (Nonce h) = Ok auth /\
    Epoch config <> 0 /\
    signer ∈ Signers s /\
    let rc := Recents (shift_recents number s) in
    signer ∉ (map_to_list rc).*2 /\
    snap_inv s2 /\ Signers s2 = Signers s /\ s_Number s2 = s_Number s /\
    Recents s2 = <[number := signer]> rc /\
    s' = settle_vote number (Coinbase h) s2 /\
    snap_inv s' /\
    governance s' = gov_step signer (Coinbase h) auth (gov_epoch number (governance s)).
Proof.
  intros Hinv H. unfold CliqueSnapshot.apply_header in H. inv_ok.
  destruct (Z.eqb_spec (Epoch config) 0) as [|Hep]; [done|]. inv_ok.
  rename v into number, v0 into signer, v3 into auth.
  pose proof (epoch_reset_facts number s Hinv) as He. cbv zeta in He.
  set (s0 := epoch_reset config number s) in *. destruct He as (Hi0 & Hs0 & Hr0 & Hn0 & Hg0).
  pose proof (shift_recents_facts number s0 Hi0) as Hsh. cbv zeta in Hsh.
  assert (Recents (shift_recents number s) = Recents (shift_recents number s0)) as Erc.
  { unfold shift_recents, signers_limit. rewrite Hs0. by case_match; cbn; rewrite Hr0. }
  set (s1 := shift_recents number s0) in *. destruct Hsh as (Hi1 & Hs1 & Hn1 & Hg1 & Hv1).
  set (s1' := set_recents _ s1) in *.
  assert (snap_inv s1') as Hi1' by (by apply snap_inv_recents).
  pose proof (discard_vote_inv signer (Coinbase h) s1' Hi1') as Hd. cbv zeta in Hd.
  pose proof (discard_vote_governance signer (Coinbase h) s1' Hi1') as Hgd.
  set (sd := discard_vote signer (Coinbase h) [] (Votes s1') s1') in *.
  change (Votes s1) with (Votes s1') in *. fold sd.
  destruct Hd as (Hid & Hsd & Hrd & Hnd & _ & Hno).
  apply bool_decide_eq_true in E1.
  assert (Signers s1' = Signers s) as Es1 by (unfold s1'; cbn; congruence).
  assert (s_Number s1' = s_Number s) as En1 by (unfold s1'; cbn; congruence).
  assert (Signers sd = Signers s) as Esd by congruence.
  destruct (record_vote_cases signer (Coinbase h) number auth sd Hid) as (Hi2 & Hs2 & Hr2 & Hn2 & Hv2);
    [rewrite Esd; by rewrite <- Hs0, <- Hs1 | done |].
  set (s2 := record_vote _ _ _ _ sd) in *.
  exists number, signer, auth, s2. cbv zeta. split_and!; try done; try (by apply settle_vote_inv); try congruence.
  - rewrite Erc. unfold recently_signed in E2. rewrite negb_true_iff, bool_decide_eq_false in E2. done.
  - rewrite Hr2, Hrd, Erc. done.
  - rewrite settle_vote_governance by done. rewrite <- Hg0, <- Hg1.
    unfold gov_step, governance. rewrite Hs2, Hsd, Hv2.
    assert (list_to_set (ballot <$> Votes sd) =
            (list_to_set (ballot <$> Votes s1) ∖ {[(signer, Coinbase h)]} : Ballots)) as EB by apply Hgd.
    change (Signers s1') with (Signers s1). rewrite Esd. replace (Signers s1) with (Signers s) by congruence.
    destruct (Bool.eqb auth (direction (Signers s) (Coinbase h))); [|by rewrite EB].
    rewrite fmap_app, list_to_set_app_L, EB. cbn. by rewrite ballots_snoc.
Qed.

(** C2. Refinement of the governance contract: on a well-formed snapshot every
    header the code applies moves the signer set and the votes exactly as the
    abstract voting rule says: the sealer must be a signer, its previous ballot
    on the account is withdrawn, a meaningful new one is counted, and with more
    than half of the signers behind it the account is added or dropped together
    with the ballots that no longer mean anything. *)
Theorem apply_header_refines_governance s h s' :
  snap_inv s -> apply_header s h = Ok s' ->
  exists number signer auth,
    number_of h = Ok number /\ ecrecover h = Ok signer /\ nonce_vote (Nonce h) = Ok auth /\
    signer ∈ Signers s /\
    governance s' = gov_step signer (Coinbase h) auth (gov_epoch number (governance s)).
Proof.
  intros Hinv H. destruct (apply_header_cases s h s' Hinv H)
    as (n & sg & au & s2 & Hn & Hs & Ha & _ & Hin & _ & _ & _ & _ & _ & _ & _ & Hg).
  by exists n, sg, au.
Qed.

Lemma apply_header_inv s h s' : snap_inv s -> apply_header s h = Ok s' -> snap_inv s'.
Proof.
  intros Hinv H. by destruct (apply_header_cases s h s' Hinv H)
    as (n & sg & au & s2 & _ & _ & _ & _ & _ & _ & _ & _ & _ & _ & _ & Hi & _).
Qed.

Lemma apply_headers_inv hs s s' : snap_inv s -> apply_headers s hs = Ok s' -> snap_inv s'.
Proof.
  revert s. induction hs as [|h hs IH]; intros s Hinv H; simpl in H; inv_ok; [done|].
  apply (IH v); [|done]. by apply (apply_header_inv s h).
Qed.

Lemma apply_Ok s hs s' :
  apply s hs = Ok s' <->
  (hs = [] /\ s' = s) \/
  (exists h0 hl snap, head hs = Some h0 /\ last hs = Some hl /\ check_contiguous hs = Ok tt /\
     number_of h0 = Ok (s_Number s +u 1) /\ apply_headers s hs = Ok snap /\
     s' = set_number (s_Number snap +u Z.of_nat (length hs)) (header_hash hl) snap).
Proof.
  unfold CliqueSnapshot.apply. destruct hs as [|h0 hs].
  { split; [intros [= ->]; by left|]. by intros [[_ ->]|(? & ? & ? & ? & _)]. }
  destruct (last (h0 :: hs)) as [hl|] eqn:El; [|by apply last_None in El].
  rewrite copy_id. split.
  - intros H. inv_ok. apply Z.eqb_eq in E1 as ->. right. destruct v.
    exists h0, hl, v2. split_and!; done.
  - intros [[? _]|(h0' & hl' & snap & [= <-] & [= <-] & Hc & Hn & Ha & ->)]; [done|].
    rewrite Hc, Hn. cbn [mbind outcome_bind]. rewrite Z.eqb_refl.
    cbn [mbind outcome_bind ensure]. by rewrite Ha.
Qed.

(** The voting invariant is kept by every successful run: all votes are by
    current signers, no signer has two votes on one account, every vote asks for
    a change (adding an outsider or dropping a signer), and the cached tally of
    each account is exactly the number of votes on it. *)
Theorem apply_preserves_votes s hs s' :
  snap_inv s -> apply s hs = Ok s' -> snap_inv s'.
Proof.
  intros Hinv [[_ ->]|(h0 & hl & snap & _ & _ & _ & _ & Ha & ->)]%apply_Ok; [done|].
  apply snap_inv_number. by eapply apply_headers_inv.
Qed.

Lemma ballots_on_majority (sg : gset Address) a (B : Ballots) :
  (forall p, p ∈ B -> p.1 ∈ sg) ->
  exists voters : gset Address,
    voters ⊆ sg /\ size voters = size (ballots_on a B) /\
    (forall x, x ∈ voters <-> (x, a) ∈ B).
Proof.
  intros HB. set (l := fst <$> elements (ballots_on a B)).
  assert (forall x, x ∈ l <-> (x, a) ∈ B) as Hx.
  { intros x. unfold l. rewrite list_elem_of_fmap. setoid_rewrite elem_of_elements.
    unfold ballots_on. setoid_rewrite elem_of_filter. split.
    - intros ([y b] & -> & Hb & Hin). simpl in *. by subst.
    - intros Hin. by exists (x, a). }
  exists (list_to_set l). split_and!.
  - intros x Hin%elem_of_list_to_set%Hx. by apply (HB (x, a)).
  - rewrite size_list_to_set; [unfold l; by rewrite length_fmap|].
    apply NoDup_fmap_2_strong; [|apply NoDup_elements]. intros [x b] [y c].
    rewrite !elem_of_elements. unfold ballots_on. rewrite !elem_of_filter. naive_solver.
  - intros x. by rewrite elem_of_list_to_set.
Qed.

(** Only a majority changes the signer set: if applying a header makes any
    account gain or lose its authorization, it is the account the header votes
    on, and there is a set of signers, more than half of all, each of which has
    a standing vote on it or sealed this very header. *)
Theorem signer_change_needs_majority s h s' a :
  snap_inv s -> apply_header s h = Ok s' ->
  bool_decide (a ∈ Signers s') <> bool_decide (a ∈ Signers s) ->
  a = Coinbase h /\
  exists voters : gset Address,
    voters ⊆ Signers s /\ (size (Signers s) < 2 * size voters)%nat /\
    forall x, x ∈ voters -> ecrecover h = Ok x \/ (x, a) ∈ (governance s).2.
Proof.
  intros Hinv H Hch. destruct (apply_header_cases s h s' Hinv H)
    as (n & sg & au & s2 & Hn & Hs & Ha & _ & Hin & _ & _ & _ & _ & _ & _ & _ & Hg).
  set (B := (governance s).2). pose proof (inv_voters s Hinv) as Hvo.
  assert (forall p, p ∈ B -> p.1 ∈ Signers s) as HB.
  { intros p (v & Hv & <-)%elem_of_ballots. rewrite Forall_forall in Hvo. by apply Hvo. }
  assert (exists B0, gov_epoch n (governance s) = (Signers s, B0) /\ B0 ⊆ B) as (B0 & Ee & HB0).
  { unfold gov_epoch. case_match; eexists; (split; [reflexivity|]); [apply empty_subseteq|done]. }
  rewrite Ee in Hg. unfold gov_step in Hg. set (B1 := if Bool.eqb au _ then _ else _) in Hg.
  assert (forall p, p ∈ B1 -> p = (sg, Coinbase h) \/ p ∈ B) as HB1.
  { intros p Hp%elem_of_recast. destruct Hp; auto. }
  destruct (Z.ltb_spec (Z.of_nat (size (Signers s)))
              (2 * Z.of_nat (size (ballots_on (Coinbase h) B1)))) as [Hlt|];
    apply (f_equal fst) in Hg; cbn in Hg; [|by rewrite Hg in Hch].
  assert (a = Coinbase h) as ->.
  { destruct (decide (a = Coinbase h)) as [|Hne]; [done|]. exfalso. apply Hch. rewrite Hg.
    apply bool_decide_ext. by apply toggle_ne. }
  split; [done|].
  destruct (ballots_on_majority (Signers s) (Coinbase h) B1) as (V & HV & Hsz & HVx).
  { intros p [->|Hp]%HB1; [done|by apply HB]. }
  exists V. split_and!; [done|lia|]. intros x Hx%HVx%HB1. destruct Hx as [[= ->]|Hx]; auto.
Qed.
End ApplyProperties.
