(* ===== verification/CliqueRotation.v ===== *)
(** * Clique: runs of headers and the rotation of signers

    Properties of consensus/clique/snapshot.go over whole runs of headers: runs
    compose, the list of recent signers is a sliding window over the last
    blocks, a signer cannot seal again before the window has passed over its
    block, some signer is always free to seal, and exactly one signer is in
    turn. *)

From S2P Require Import Prelude EthTypes CliqueSnapshot.

(** ** Numbering *)

(** The [i]-th header has number [n + 1 + i], as [uint64]. *)
Definition numbered (n : Z) (hs : list Header) : Prop :=
  forall i h, hs !! i = Some h -> number_of h = Ok (n +u (Z.of_nat i + 1)).

Lemma number_of_range h n : number_of h = Ok n -> is_u64 n.
Proof. unfold number_of. intros H. inv_ok. apply big_Uint64_range. Qed.

Lemma numbered_nil n : numbered n [].
Proof. intros i h. by rewrite lookup_nil. Qed.

Lemma u64_add_add n a b : (n +u a) +u b = n +u (a + b).
Proof. unfold u64. rewrite Zplus_mod_idemp_l. f_equal. lia. Qed.

Lemma numbered_cons n h hs :
  numbered n (h :: hs) <-> number_of h = Ok (n +u 1) /\ numbered (n +u 1) hs.
Proof.
  split.
  - intros H. split; [by apply (H 0%nat)|]. intros i h' Hi. rewrite u64_add_add.
    replace (1 + (Z.of_nat i + 1)) with (Z.of_nat (S i) + 1) by lia. by apply H.
  - intros [H1 H2] [|i] h' Hi; [by injection Hi as <-|].
    specialize (H2 i h' Hi). rewrite u64_add_add in H2. rewrite H2. do 2 f_equal. lia.
Qed.

Lemma numbered_app n hs hs' :
  numbered n (hs ++ hs') <-> numbered n hs /\ numbered (n +u Z.of_nat (length hs)) hs'.
Proof.
  revert n. induction hs as [|h hs IH]; intros n; cbn [app length].
  - split.
    + intros H. split; [apply numbered_nil|]. intros i h Hi. rewrite u64_add_add, Z.add_0_l. by apply H.
    + intros [_ H] i h Hi. specialize (H i h Hi). rewrite u64_add_add in H. exact H.
  - rewrite !numbered_cons, IH, u64_add_add.
    replace (1 + Z.of_nat (length hs)) with (Z.of_nat (S (length hs))) by lia. tauto.
Qed.

(** The sanity checks of [apply] are exactly the numbering. *)
Lemma check_contiguous_numbered n h hs :
  number_of h = Ok (n +u 1) ->
  check_contiguous (h :: hs) = Ok tt <-> numbered n (h :: hs).
Proof.
  revert n h. induction hs as [|h' hs IH]; intros n h Hn.
  { rewrite numbered_cons. split; [|done]. split; [done|apply numbered_nil]. }
  rewrite numbered_cons. cbn [check_contiguous]. rewrite Hn. split.
  - intros H. apply bind_Ok in H as (n' & En' & H). cbn in H.
    destruct (Z.eqb_spec n' ((n +u 1) +u 1)) as [->|]; [|done].
    split; [done|]. by apply IH.
  - intros [_ H]. pose proof H as [Hn' _]%numbered_cons.
    apply bind_Ok. exists ((n +u 1) +u 1). split; [done|].
    cbn. rewrite Z.eqb_refl. exact (proj2 (IH _ _ Hn') H).
Qed.

(** ** Applying headers does not look at the snapshot's own number *)

Section Runs.
Context (ecrecover : Header -> outcome Address) (header_hash : Header -> Hash).
Context (config : CliqueConfig).

Implicit Types s : Snapshot.

Abbreviation apply_header := (apply_header ecrecover config).
Abbreviation apply_headers := (apply_headers ecrecover config).
Abbreviation apply := (apply ecrecover header_hash config).

Lemma shift_recents_number n m x s :
  shift_recents n (set_number m x s) = set_number m x (shift_recents n s).
Proof. unfold shift_recents, signers_limit. cbn. by case_match. Qed.

Lemma uncast_number m x a b s :
  (uncast (set_number m x s) a b).2 = set_number m x (uncast s a b).2.
Proof. unfold uncast. cbn. by repeat case_match. Qed.

Lemma discard_vote_number m x sg a l l' s :
  discard_vote sg a l l' (set_number m x s) = set_number m x (discard_vote sg a l l' s).
Proof.
  revert l. induction l' as [|v l' IH]; intros l; cbn; [done|].
  rewrite uncast_number. case_match; [done|apply IH].
Qed.

Lemma discard_votes_of_number m x a l l' s :
  discard_votes_of a l l' (set_number m x s) = set_number m x (discard_votes_of a l l' s).
Proof.
  revert l s. induction l' as [|v l' IH]; intros l s; cbn; [done|].
  rewrite uncast_number. case_match; apply IH.
Qed.

Lemma record_vote_number m x sg a n au s :
  record_vote sg a n au (set_number m x s) = set_number m x (record_vote sg a n au s).
Proof. unfold record_vote, cast, validVote. cbn. by repeat case_match; simplify_eq. Qed.

Lemma settle_vote_number m x n a s :
  settle_vote n a (set_number m x s) = set_number m x (settle_vote n a s).
Proof.
  unfold settle_vote. change (s_Tally (set_number m x s)) with (s_Tally s).
  change (Signers (set_number m x s)) with (Signers s). destruct (s_Tally s !! a); [|done].
  case_match; [|done]. case_match; [done|].
  change (set_signers ?y (set_number m x s)) with (set_number m x (set_signers y s)).
  rewrite shift_recents_number.
  change (Votes (set_number m x ?y)) with (Votes y). by rewrite discard_votes_of_number.
Qed.

Lemma apply_header_number m x s h :
  apply_header (set_number m x s) h = set_number m x <$> apply_header s h.
Proof.
  unfold CliqueSnapshot.apply_header. destruct (number_of h) as [n| |]; cbn; [|done..].
  case_match; [done|].
  assert (epoch_reset config n (set_number m x s) = set_number m x (epoch_reset config n s)) as ->
    by (unfold epoch_reset; by case_match).
  rewrite shift_recents_number. set (s1 := shift_recents n _).
  destruct (ecrecover h) as [sg| |]; cbn; [|done..].
  destruct (bool_decide (sg ∈ Signers s1)); cbn; [|done].
  change (recently_signed (set_number m x s1) sg) with (recently_signed s1 sg).
  destruct (recently_signed s1 sg); cbn; [done|].
  change (set_recents ?y (set_number m x s1)) with (set_number m x (set_recents y s1)).
  rewrite discard_vote_number. destruct (nonce_vote (Nonce h)); cbn; [|done..].
  by rewrite record_vote_number, settle_vote_number.
Qed.

Lemma apply_headers_number m x s hs :
  apply_headers (set_number m x s) hs = set_number m x <$> apply_headers s hs.
Proof.
  revert s. induction hs as [|h hs IH]; intros s; cbn; [done|].
  rewrite apply_header_number. destruct (apply_header s h); cbn; [apply IH|done..].
Qed.

Lemma apply_headers_app s hs hs' :
  apply_headers s (hs ++ hs') = s1 ← apply_headers s hs; apply_headers s1 hs'.
Proof.
  revert s. induction hs as [|h hs IH]; intros s; cbn; [done|].
  destruct (apply_header s h); cbn; [apply IH|done..].
Qed.

Lemma apply_header_keeps_number s h s' :
  apply_header s h = Ok s' -> s_Number s' = s_Number s /\ s_Hash s' = s_Hash s.
Proof.
  intros H. pose proof (apply_header_number (s_Number s) (s_Hash s) s h) as E.
  replace (set_number (s_Number s) (s_Hash s) s) with s in E by (by destruct s).
  rewrite H in E. injection E as E. rewrite E at 1 2. done.
Qed.

Lemma apply_headers_keeps_number hs s s' :
  apply_headers s hs = Ok s' -> s_Number s' = s_Number s.
Proof.
  revert s. induction hs as [|h hs IH]; intros s H; cbn in H; inv_ok; [done|].
  rewrite (IH v) by done. by eapply apply_header_keeps_number.
Qed.

Lemma apply_numbered s hs s' :
  apply s hs = Ok s' <->
  (hs = [] /\ s' = s) \/
  (exists hl snap, last hs = Some hl /\ numbered (s_Number s) hs /\ apply_headers s hs = Ok snap /\
     s' = set_number (s_Number s +u Z.of_nat (length hs)) (header_hash hl) snap).
Proof.
  rewrite apply_Ok. split.
  - intros [?|(h0 & hl & snap & Hh & Hl & Hc & Hn & Ha & ->)]; [by left|]. right.
    exists hl, snap. destruct hs as [|h hs]; [done|]. injection Hh as <-.
    split_and!; [done| |done|]; [by apply check_contiguous_numbered|].
    by rewrite (apply_headers_keeps_number _ _ _ Ha).
  - intros [?|(hl & snap & Hl & Hn & Ha & ->)]; [by left|]. right.
    destruct hs as [|h hs]; [done|]. pose proof Hn as [Hn0 _]%numbered_cons.
    exists h, hl, snap. split_and!; [done..| |done|done|].
    + by apply (check_contiguous_numbered (s_Number s)).
    + by rewrite (apply_headers_keeps_number _ _ _ Ha).
Qed.

Lemma apply_split s hs hs' s' :
  apply s (hs ++ hs') = Ok s' <->
  exists s1, apply s hs = Ok s1 /\ apply s1 hs' = Ok s'.
Proof.
  destruct hs as [|h hs].
  { split; [intros H; exists s; by split|]. by intros (s1 & [= <-] & H). }
  set (l := h :: hs). assert (exists hl, last l = Some hl) as [hl Hl].
  { destruct (last l) eqn:El; [eauto|]. by apply last_None in El. }
  destruct (decide (hs' = [])) as [->|Hne].
  { rewrite app_nil_r. split; [intros H; exists s'; by split|]. by intros (s1 & H & [= <-]). }
  destruct (last hs') as [hl'|] eqn:Hl'; [|by apply last_None in Hl'].
  assert (last (l ++ hs') = Some hl') as Hla by (by rewrite last_app, Hl').
  split.
  - intros [[? _]|(x & snap & Ex & [Hn1 Hn2]%numbered_app & Ha & ->)]%apply_numbered; [done|].
    rewrite Hla in Ex. injection Ex as <-. rewrite apply_headers_app in Ha. inv_ok.
    exists (set_number (s_Number s +u Z.of_nat (length l)) (header_hash hl) v).
    split; apply apply_numbered; right; eexists _, _; (split; [done|]); (split; [done|]).
    + done.
    + rewrite apply_headers_number, Ha. split; [done|]. cbn.
      rewrite u64_add_add, length_app. unfold set_number. cbn. do 2 f_equal. lia.
  - intros (s1 & H1 & H2). apply apply_numbered in H1, H2.
    destruct H1 as [[? _]|(x & snap1 & Ex & Hn1 & Ha1 & ->)]; [done|].
    destruct H2 as [[? _]|(y & snap2 & Ey & Hn2 & Ha2 & ->)]; [done|].
    simplify_eq. rewrite apply_headers_number in Ha2.
    destruct (apply_headers snap1 hs') as [snap| |] eqn:E2; try done. injection Ha2 as <-.
    apply apply_numbered. right. exists hl', snap.
    rewrite numbered_app, apply_headers_app, Ha1. split_and!; try done.
    cbn. rewrite u64_add_add, length_app. unfold set_number. cbn. do 2 f_equal. lia.
Qed.

(** Runs compose: applying a list of headers at once gives the snapshot that
    applying its two parts one after the other gives, and fails exactly when one
    of the parts fails; a snapshot stored at any point of a chain can be resumed
    from. *)
Theorem apply_app s hs hs' s' :
  apply s (hs ++ hs') = Ok s' <->
  exists s1, apply s hs = Ok s1 /\ apply s1 hs' = Ok s'.
Proof. apply apply_split. Qed.

(** ** The window of recent signers *)

(** After block [n], the recent signers are those of blocks within the last
    [len(Signers)/2 + 1] ones. *)
Definition recents_window (n : Z) (s : Snapshot) : Prop :=
  forall k a, Recents s !! k = Some a -> 0 <= k /\ n - signers_limit s < k <= n.

Lemma signers_limit_pos s : 1 <= signers_limit s.
Proof. unfold signers_limit. pose proof (Z.div_pos (Z.of_nat (size (Signers s))) 2). lia. Qed.

Lemma signers_limit_toggle a s s' :
  Signers s' = toggle a (Signers s) ->
  if bool_decide (a ∈ Signers s)
  then signers_limit s - 1 <= signers_limit s' <= signers_limit s
  else signers_limit s <= signers_limit s' <= signers_limit s + 1.
Proof.
  intros E. unfold signers_limit. rewrite E. unfold toggle. case_bool_decide as Ha.
  - rewrite size_difference by (by apply singleton_subseteq_l). rewrite size_singleton.
    assert (size (Signers s) <> 0)%nat as Hz by (rewrite size_non_empty_iff; set_solver).
    pose proof (Z.div_le_mono (Z.of_nat (size (Signers s) - 1)) (Z.of_nat (size (Signers s))) 2).
    pose proof (Z.div_le_mono (Z.of_nat (size (Signers s)) - 2) (Z.of_nat (size (Signers s) - 1)) 2).
    pose proof (Z.div_add (Z.of_nat (size (Signers s)) - 2) 1 2).
    replace (Z.of_nat (size (Signers s)) - 2 + 1 * 2) with (Z.of_nat (size (Signers s))) in * by lia.
    lia.
  - rewrite size_union by set_solver. rewrite size_singleton.
    pose proof (Z.div_le_mono (Z.of_nat (size (Signers s))) (Z.of_nat (1 + size (Signers s))) 2).
    pose proof (Z.div_le_mono (Z.of_nat (1 + size (Signers s))) (Z.of_nat (size (Signers s)) + 1 * 2) 2).
    pose proof (Z.div_add (Z.of_nat (size (Signers s))) 1 2).
    lia.
Qed.

(** Shifting deletes one key, the one leaving the window. *)
Lemma shift_recents_lookup n s k :
  is_u64 n ->
  Recents (shift_recents n s) !! k =
    if bool_decide (k = n - signers_limit s /\ 0 <= k) then None else Recents s !! k.
Proof.
  intros Hn. pose proof (signers_limit_pos s). unfold is_u64 in Hn. unfold shift_recents.
  destruct (Z.leb_spec (signers_limit s) n); cbn.
  - rewrite u64_sub_small by (unfold is_u64 in *; lia).
    case_bool_decide as E; [destruct E as [-> _]; by rewrite lookup_delete_eq|].
    rewrite lookup_delete_ne; [done|]. intros <-. apply E. lia.
  - rewrite bool_decide_false by lia. done.
Qed.

(** Applying block [n + 1] records its signer and drops what leaves the smaller
    of the windows before and after the vote count. *)
Lemma apply_header_recents n s h s' :
  snap_inv s -> recents_window n s -> 0 <= n -> number_of h = Ok (n + 1) ->
  apply_header s h = Ok s' ->
  exists signer, ecrecover h = Ok signer /\
    signers_limit s - 1 <= signers_limit s' /\
    forall k, Recents s' !! k =
      if bool_decide (n + 1 - Z.min (signers_limit s) (signers_limit s') < k)
      then (<[n + 1 := signer]> (Recents s)) !! k else None.
Proof.
  intros Hinv Hw Hn0 Hn H. pose proof (number_of_range _ _ Hn) as Hu.
  pose proof (signers_limit_pos s) as Hl1. pose proof (signers_limit_pos s') as Hl2.
  destruct (apply_header_cases ecrecover config s h s' Hinv H)
    as (n' & sg & au & s2 & Hn' & Hs & _ & _ & _ & _ & Hi2 & Hs2 & _ & Hr2 & E' & _).
  rewrite Hn in Hn'. injection Hn' as <-.
  assert (signers_limit s2 = signers_limit s) as El2 by (unfold signers_limit; by rewrite Hs2).
  assert (forall k, Recents s2 !! k =
    if bool_decide (n + 1 - signers_limit s < k) then (<[n + 1 := sg]> (Recents s)) !! k else None) as Hk2.
  { intros k. rewrite Hr2. destruct (decide (k = n + 1)) as [->|Hne].
    - rewrite !lookup_insert_eq. by rewrite bool_decide_true by lia.
    - rewrite !lookup_insert_ne, shift_recents_lookup by done.
      destruct (Recents s !! k) eqn:Ek; [|by repeat case_bool_decide].
      apply Hw in Ek. repeat case_bool_decide; (done || lia). }
  exists sg. split; [done|].
  pose proof (settle_vote_cases (n + 1) (Coinbase h) s2 Hi2) as Hc. cbv zeta in Hc.
  rewrite <- E' in Hc. case_match.
  2:{ subst s'. rewrite Hc, El2 in *. split; [lia|]. intros k.
      by rewrite Hk2, Z.min_id. }
  destruct Hc as (_ & Esg & _ & Er & _). pose proof (signers_limit_toggle _ _ _ Esg) as Ht.
  rewrite El2 in Ht. rewrite Er. case_bool_decide.
  - split; [lia|]. intros k. rewrite shift_recents_lookup by done.
    assert (signers_limit (set_signers (toggle (Coinbase h) (Signers s2)) s2) = signers_limit s') as ->
      by (unfold signers_limit; cbn; by rewrite Esg).
    cbn [Recents set_signers]. rewrite Hk2, Z.min_r by lia.
    destruct (decide (k = n + 1)) as [->|Hne];
      [rewrite lookup_insert_eq; repeat case_bool_decide; (done || lia)|].
    rewrite lookup_insert_ne by done.
    destruct (Recents s !! k) eqn:Ek; [apply Hw in Ek|]; repeat case_bool_decide; (done || lia).
  - split; [lia|]. intros k. by rewrite Hk2, Z.min_l by lia.
Qed.

Lemma recents_window_step n s h s' :
  snap_inv s -> recents_window n s -> 0 <= n -> number_of h = Ok (n + 1) ->
  apply_header s h = Ok s' -> recents_window (n + 1) s'.
Proof.
  intros Hinv Hw Hn0 Hn H.
  destruct (apply_header_recents n s h s' Hinv Hw Hn0 Hn H) as (sg & _ & Hl & Hr).
  intros k a Hk. rewrite Hr in Hk. case_bool_decide as Hlt; [|done].
  destruct (decide (k = n + 1)) as [->|Hne]; [lia|].
  rewrite lookup_insert_ne in Hk by done. apply Hw in Hk. lia.
Qed.


Lemma numbered_small n h hs :
  0 <= n -> n + Z.of_nat (length (h :: hs)) < two64 -> numbered n (h :: hs) ->
  number_of h = Ok (n + 1) /\ numbered (n + 1) hs.
Proof.
  intros Hn Hlt [H1 H2]%numbered_cons. cbn [length] in Hlt.
  rewrite u64_add_small in H1, H2 by lia. done.
Qed.

Lemma apply_headers_window hs n s s' :
  snap_inv s -> recents_window n s -> 0 <= n -> n + Z.of_nat (length hs) < two64 ->
  numbered n hs -> apply_headers s hs = Ok s' ->
  recents_window (n + Z.of_nat (length hs)) s'.
Proof.
  revert n s. induction hs as [|h hs IH]; intros n s Hinv Hw Hn Hlt Hnum H.
  { injection H as <-. by rewrite Z.add_0_r. }
  destruct (numbered_small n h hs Hn Hlt Hnum) as [Hh Hhs]. cbn in H. inv_ok.
  cbn [length] in *. replace (n + Z.of_nat (S (length hs))) with (n + 1 + Z.of_nat (length hs)) by lia.
  apply (IH (n + 1) v); try done; try lia.
  - by apply (apply_header_inv ecrecover config s h).
  - by apply (recents_window_step n s h).
Qed.

(** The recent-signers list is a sliding window: from a snapshot at block [n]
    whose recent signers all lie within the last [len(Signers)/2 + 1] blocks,
    every run ends in one with the same property, however the votes change the
    size of the signer set on the way. *)
Theorem apply_keeps_recents_window s hs s' :
  snap_inv s -> recents_window (s_Number s) s -> 0 <= s_Number s ->
  s_Number s + Z.of_nat (length hs) < two64 ->
  apply s hs = Ok s' ->
  s_Number s' = s_Number s + Z.of_nat (length hs) /\ recents_window (s_Number s') s'.
Proof.
  intros Hinv Hw Hn Hlt [[-> ->]|(hl & snap & _ & Hnum & Ha & ->)]%apply_numbered; cbn.
  { by rewrite Z.add_0_r. }
  rewrite u64_add_small by lia. split; [done|].
  exact (apply_headers_window hs (s_Number s) s snap Hinv Hw Hn Hlt Hnum Ha).
Qed.

(** The limits along a run. *)
Definition run_limits (m : Z) (s : Snapshot) (hs : list Header) : Prop :=
  forall i si, (i <= length hs)%nat -> apply_headers s (take i hs) = Ok si -> m <= signers_limit si.

Lemma run_limits_cons m s h hs s1 :
  run_limits m s (h :: hs) -> apply_header s h = Ok s1 ->
  m <= signers_limit s /\ run_limits m s1 hs.
Proof.
  intros H Hs. split; [by apply (H 0%nat); [lia|]|].
  intros i si Hi Ha. apply (H (S i)); [cbn; lia|]. cbn. by rewrite Hs.
Qed.

(** A recent signer stays recorded until the window has passed over its block. *)
Lemma apply_headers_recent_stays hs m n s s' k a :
  snap_inv s -> recents_window n s -> 0 <= n -> n + Z.of_nat (length hs) < two64 ->
  numbered n hs -> apply_headers s hs = Ok s' ->
  run_limits m s hs -> Recents s !! k = Some a -> n + Z.of_nat (length hs) < k + m ->
  Recents s' !! k = Some a.
Proof.
  revert n s. induction hs as [|h hs IH]; intros n s Hinv Hw Hn Hlt Hnum H Hm Hk Hkm.
  { by injection H as <-. }
  destruct (numbered_small n h hs Hn Hlt Hnum) as [Hh Hhs]. cbn in H. inv_ok.
  cbn [length] in *. destruct (run_limits_cons m s h hs v Hm E) as [Hm0 Hm1].
  pose proof (Hm1 0%nat v ltac:(lia) eq_refl) as Hm2.
  apply (IH (n + 1) v); try done; try lia.
  - by apply (apply_header_inv ecrecover config s h).
  - by apply (recents_window_step n s h).
  - destruct (apply_header_recents n s h v Hinv Hw Hn Hh E) as (sg & _ & _ & ->).
    pose proof (Hw k a Hk). rewrite bool_decide_true by lia. by rewrite lookup_insert_ne by lia.
Qed.

(** Within an accepted run a recorded signer seals again only after [m] blocks. *)
Lemma recent_signer_waits hs m n s s' k a j hj :
  snap_inv s -> recents_window n s -> 0 <= n -> n + Z.of_nat (length hs) < two64 ->
  numbered n hs -> apply_headers s hs = Ok s' -> run_limits m s hs ->
  Recents s !! k = Some a -> hs !! j = Some hj -> ecrecover hj = Ok a ->
  k + m <= n + Z.of_nat j + 1.
Proof.
  intros Hinv Hw Hn Hlt Hnum Ha Hm Hk Hj Hrj.
  destruct (Z.leb_spec (k + m) (n + Z.of_nat j + 1)) as [|Hclose]; [done|exfalso].
  pose proof (take_drop_middle hs j hj Hj) as Esplit. apply lookup_lt_Some in Hj as Hjl.
  assert (length (take j hs) = j) as Hlen by (apply length_take_le; lia).
  rewrite <- Esplit in Ha, Hnum. rewrite apply_headers_app in Ha.
  apply bind_Ok in Ha as (sj & Hsj & Ha). cbn in Ha. inv_ok.
  apply numbered_app in Hnum as [Hn1 [Hn2 _]%numbered_cons]. rewrite Hlen in Hn2.
  rewrite (u64_add_small n), u64_add_small in Hn2 by lia.
  assert (Recents sj !! k = Some a) as Hrecj.
  { apply (apply_headers_recent_stays (take j hs) m n s sj); try done; try lia.
    intros i si Hi Hsi. apply (Hm i); [lia|]. by rewrite take_take, Nat.min_l in Hsi by lia. }
  assert (snap_inv sj) as Hij by (by apply (apply_headers_inv ecrecover config (take j hs) s)).
  destruct (apply_header_cases ecrecover config sj hj _ Hij E)
    as (nj & sg & au & s2 & Hnj & Hsgj & _ & _ & _ & Hnot & _).
  rewrite Hn2 in Hnj. injection Hnj as <-. rewrite Hrj in Hsgj. injection Hsgj as <-.
  apply Hnot. apply list_elem_of_fmap. exists (k, a). split; [done|].
  apply elem_of_map_to_list. rewrite shift_recents_lookup by (by eapply number_of_range).
  assert (m <= signers_limit sj) by (apply (Hm j); [lia|done]).
  rewrite bool_decide_false by lia. done.
Qed.

(** C35. Rotation: along any accepted run in which the signer set never gets
    smaller than [m], two blocks sealed by the same signer are at least
    [m/2 + 1] blocks apart. *)
Theorem apply_spaces_signers s hs s' m i j hi hj a :
  snap_inv s -> recents_window (s_Number s) s -> 0 <= s_Number s ->
  s_Number s + Z.of_nat (length hs) < two64 ->
  apply s hs = Ok s' ->
  (forall k sk, (k <= length hs)%nat -> apply_headers s (take k hs) = Ok sk ->
     (m <= size (Signers sk))%nat) ->
  (i < j)%nat -> hs !! i = Some hi -> hs !! j = Some hj ->
  ecrecover hi = Ok a -> ecrecover hj = Ok a ->
  (m / 2 + 1 <= j - i)%nat.
Proof.
  intros Hinv Hw Hn Hlt Happ Hm Hij Hi Hj Hri Hrj.
  apply apply_numbered in Happ as [[-> _]|(hl & snap & _ & Hnum & Ha & _)]; [by rewrite lookup_nil in Hi|].
  clear s'. set (n := s_Number s) in *. clearbody n.
  assert (run_limits (Z.of_nat (m / 2) + 1) s hs) as Hm'.
  { intros k sk Hk Hsk. specialize (Hm k sk Hk Hsk). unfold signers_limit.
    rewrite Nat2Z.inj_div. pose proof (Z.div_le_mono (Z.of_nat m) (Z.of_nat (size (Signers sk))) 2).
    lia. }
  clear Hm. revert i j n s Hinv Hw Hn Hlt Hij Hi Hj Hnum Ha Hm'.
  induction hs as [|h hs IH]; intros i j n s Hinv Hw Hn Hlt Hij Hi Hj Hnum Ha Hm'; [done|].
  destruct (numbered_small n h hs Hn Hlt Hnum) as [Hh Hhs]. cbn in Ha. inv_ok. cbn [length] in *.
  assert (snap_inv v) as Hiv by (by apply (apply_header_inv ecrecover config s h)).
  assert (recents_window (n + 1) v) as Hwv by (by apply (recents_window_step n s h)).
  destruct (run_limits_cons _ s h hs v Hm' E) as [Hm0 Hm1].
  destruct j as [|j]; [lia|]. cbn in Hj. destruct i as [|i].
  2:{ cbn in Hi. specialize (IH i j (n + 1) v). apply IH; (done || lia). }
  injection Hi as ->.
  destruct (apply_header_recents n s hi v Hinv Hw Hn Hh E) as (sg & Hsg & _ & Hr).
  rewrite Hri in Hsg. injection Hsg as <-.
  assert (Recents v !! (n + 1) = Some a) as Hrec.
  { rewrite Hr. pose proof (signers_limit_pos s). pose proof (signers_limit_pos v).
    rewrite bool_decide_true by lia. by rewrite lookup_insert_eq. }
  assert (n + 1 + (Z.of_nat (m / 2) + 1) <= n + 1 + Z.of_nat j + 1); [|lia].
  apply (recent_signer_waits hs _ (n + 1) v snap _ a j hj); (done || lia).
Qed.

(** ** Somebody can always seal *)

Lemma size_values_le (m : gmap Z Address) :
  (size (list_to_set ((map_to_list m).*2) : gset Address) <= size m)%nat.
Proof.
  rewrite <- length_map_to_list, <- (length_fmap snd).
  induction ((map_to_list m).*2) as [|x l IH]; cbn; [by rewrite size_empty|].
  pose proof (size_union_alt {[x]} (list_to_set l : gset Address)) as E. rewrite E.
  rewrite size_singleton.
  assert (size ((list_to_set l : gset Address) ∖ {[x]}) <= size (list_to_set l : gset Address))%nat
    by (apply subseteq_size; set_solver). lia.
Qed.

Lemma size_window (m : gmap Z Address) lo hi :
  (forall k a, m !! k = Some a -> lo < k <= hi) -> Z.of_nat (size m) <= Z.max 0 (hi - lo).
Proof.
  intros Hm. rewrite <- (size_dom (D := gset Z)).
  assert (dom m ⊆ (list_to_set (seqZ (lo + 1) (hi - lo)) : gset Z)) as Hsub.
  { intros k [a Ha]%elem_of_dom. apply Hm in Ha. apply elem_of_list_to_set, elem_of_seqZ. lia. }
  apply subseteq_size in Hsub. rewrite size_list_to_set in Hsub by apply NoDup_seqZ.
  rewrite length_seqZ in Hsub. lia.
Qed.

Lemma apply_header_accepts n s h a :
  snap_inv s -> Epoch config <> 0 -> number_of h = Ok n -> ecrecover h = Ok a ->
  a ∈ Signers s -> a ∉ (map_to_list (Recents (shift_recents n s))).*2 ->
  Nonce h = nonceAuthVote \/ Nonce h = nonceDropVote ->
  exists s', apply_header s h = Ok s'.
Proof.
  intros Hinv Hep Hh Hr Ha Hfree Hnonce.
  assert (exists au, nonce_vote (Nonce h) = Ok au) as [au Hau].
  { unfold nonce_vote. destruct Hnonce as [-> | ->]; eexists; reflexivity. }
  unfold CliqueSnapshot.apply_header. rewrite Hh. cbn [mbind outcome_bind].
  destruct (Z.eqb_spec (Epoch config) 0) as [|_]; [done|]. rewrite Hr. cbn [mbind outcome_bind].
  pose proof (epoch_reset_facts config n s Hinv) as (_ & Es & Er & _).
  set (s0 := epoch_reset config n s) in *.
  assert (Signers (shift_recents n s0) = Signers s) as -> by (unfold shift_recents; by case_match).
  rewrite bool_decide_true by done. cbn [mbind outcome_bind ensure].
  assert (recently_signed (shift_recents n s0) a = false) as ->.
  { unfold recently_signed. apply bool_decide_eq_false. revert Hfree.
    unfold shift_recents, signers_limit. rewrite Es. case_match; cbn; by rewrite Er. }
  cbn [mbind outcome_bind ensure negb]. rewrite Hau. cbn. eauto.
Qed.

(** C36. Liveness of sealing: whatever was applied before, as long as there is a
    signer at all, some authorized signer is not locked out, and any next header
    it seals with a proper vote nonce is accepted. *)
Theorem some_signer_can_seal s :
  snap_inv s -> recents_window (s_Number s) s -> 0 <= s_Number s -> s_Number s + 1 < two64 ->
  Signers s <> ∅ -> Epoch config <> 0 ->
  exists a, a ∈ Signers s /\
    forall h, number_of h = Ok (s_Number s + 1) -> ecrecover h = Ok a ->
      Nonce h = nonceAuthVote \/ Nonce h = nonceDropVote ->
      exists s', apply s [h] = Ok s'.
Proof.
  intros Hinv Hw Hn Hlt Hne Hep. set (n := s_Number s + 1).
  assert (is_u64 n) as Hu by (unfold is_u64; lia).
  set (rc := Recents (shift_recents n s)).
  assert (Z.of_nat (size rc) <= Z.max 0 (signers_limit s - 1)) as Hsz.
  { replace (signers_limit s - 1) with (n - 1 - (n - signers_limit s)) by lia.
    apply size_window. intros k a Hk. unfold rc in Hk.
    rewrite shift_recents_lookup in Hk by done. case_bool_decide as Hd; [done|].
    apply Hw in Hk. lia. }
  assert (exists a, a ∈ Signers s /\ a ∉ (map_to_list rc).*2) as (a & Ha & Hfree).
  { destruct (decide (set_Exists (fun a => a ∉ (map_to_list rc).*2) (Signers s))) as [?|Hsub]; [done|].
    exfalso. assert (Signers s ⊆ list_to_set ((map_to_list rc).*2)) as Hin.
    { intros x Hx. apply elem_of_list_to_set.
      destruct (decide (x ∈ (map_to_list rc).*2)); [done|]. destruct Hsub. by exists x. }
    apply subseteq_size in Hin. pose proof (size_values_le rc).
    assert (size (Signers s) <> 0)%nat by (by rewrite size_non_empty_iff, leibniz_equiv_iff).
    unfold signers_limit in Hsz. pose proof (Z.div_lt (Z.of_nat (size (Signers s))) 2). lia. }
  exists a. split; [done|]. intros h Hh Hr Hnonce.
  destruct (apply_header_accepts n s h a) as [s1 Hs1]; try done.
  eexists. apply apply_numbered. right. exists h, s1. split_and!; [done| |cbn; by rewrite Hs1|done].
  apply numbered_cons. split; [|apply numbered_nil]. by rewrite u64_add_small by lia.
Qed.

End Runs.

(** ** Turns *)

#[export] Instance addr_le_total : Total addr_le.
Proof.
  unfold addr_le. intros a. induction a as [|x a IH]; intros [|y b]; cbn; auto.
  destruct (Z.ltb_spec (byte_val x) (byte_val y)); [by left|].
  destruct (Z.ltb_spec (byte_val y) (byte_val x)); [by right|]. apply IH.
Qed.

#[export] Instance addr_le_trans : Transitive addr_le.
Proof.
  unfold addr_le. intros a. induction a as [|x a IH]; intros [|y b] [|z c]; cbn; try done.
  intros H1 H2. destruct (Z.ltb_spec (byte_val x) (byte_val y)), (Z.ltb_spec (byte_val y) (byte_val z)),
    (Z.ltb_spec (byte_val x) (byte_val z)); try done; try lia;
  destruct (Z.ltb_spec (byte_val y) (byte_val x)), (Z.ltb_spec (byte_val z) (byte_val y)),
    (Z.ltb_spec (byte_val z) (byte_val x)); try done; try lia. by apply (IH b c).
Qed.

(** [signers] lists every authorized signer exactly once, in ascending order
    of the address bytes. *)
Lemma signers_sorted s :
  StronglySorted addr_le (signers s) /\ NoDup (signers s) /\
  (forall a, a ∈ signers s <-> a ∈ Signers s).
Proof.
  unfold signers. pose proof (merge_sort_Permutation addr_le (elements (Signers s))) as Hp.
  split_and!.
  - apply StronglySorted_merge_sort; apply _.
  - rewrite Hp. apply NoDup_elements.
  - intros a. rewrite Hp. apply elem_of_elements.
Qed.

Lemma offset_of_lookup l i a : NoDup l -> l !! i = Some a -> offset_of a l = i.
Proof.
  revert i. induction l as [|x l IH]; intros i Hnd Hi; [done|]. apply NoDup_cons in Hnd as [Hx Hnd].
  cbn. destruct i as [|i]; cbn in Hi; [injection Hi as ->; by rewrite bool_decide_true|].
  rewrite bool_decide_false; [by rewrite (IH i)|]. intros ->. apply Hx. by eapply list_elem_of_lookup_2.
Qed.

Lemma offset_of_lt l a : (offset_of a l < length l)%nat -> l !! offset_of a l = Some a.
Proof.
  induction l as [|x l IH]; cbn; [lia|]. case_bool_decide as E; [by subst|].
  intros H. apply IH. lia.
Qed.

(** Turns: as long as there are signers, at every height exactly one account
    is in turn, and it is a signer. *)
Theorem inturn_unique s number :
  Signers s <> ∅ -> 0 <= number ->
  exists a, a ∈ Signers s /\ inturn s number a = Ok true /\
    forall b, inturn s number b = Ok true -> b = a.
Proof.
  intros Hne Hn. unfold inturn. set (l := signers s).
  assert (NoDup l /\ (forall a, a ∈ l <-> a ∈ Signers s)) as [Hnd Hel].
  { unfold l, signers. split; [|intros a]; rewrite merge_sort_Permutation;
      [apply NoDup_elements | apply elem_of_elements]. }
  assert (0 < length l)%nat as Hlen.
  { destruct l as [|x l'] eqn:El; [|cbn; lia]. exfalso. apply Hne. apply set_eq. intros a.
    rewrite <- Hel, elem_of_empty. by rewrite elem_of_nil. }
  destruct (Z.eqb_spec (Z.of_nat (length l)) 0); [lia|].
  pose proof (Z.mod_pos_bound number (Z.of_nat (length l)) ltac:(lia)) as Hm.
  destruct (lookup_lt_is_Some_2 l (Z.to_nat (number mod Z.of_nat (length l)))) as [a Ha]; [lia|].
  exists a. split_and!.
  - apply Hel. by eapply list_elem_of_lookup_2.
  - rewrite (offset_of_lookup l _ a Hnd Ha). rewrite Z2Nat.id by lia. by rewrite Z.eqb_refl.
  - intros b [= Hb%Z.eqb_eq].
    assert (l !! offset_of b l = Some b) as Hl by (apply offset_of_lt; lia).
    rewrite Hb, Nat2Z.id in Ha. congruence.
Qed.

(** ** A concrete chain

    Three signers seal blocks 1 to 4 in rotation; the second and third vote for
    a fourth account, which the third vote-carrying block admits. *)

Module CliqueExample.

Definition account (n : Z) : Address := replicate AddressLength (to_byte n).

Definition vote_header (number : Z) (sealer coinbase : Address) (nonce : bytes) : Header := {|
  ParentHash := zeroHash; UncleHash := zeroHash; Coinbase := coinbase; Root := zeroHash;
  TxHash := zeroHash; ReceiptHash := zeroHash; Bloom := []; Difficulty := Some 1;
  Number := Some number; GasLimit := 8000000; GasUsed := 0; Time := 10 * number; Extra := sealer;
  MixDigest := zeroHash; Nonce := nonce; BaseFee := None |}.

(** The sealer is read off the extra-data. *)
Definition sealer_of (h : Header) : outcome Address := mret (Extra h).
Definition hash_of (h : Header) : Hash := Extra h ++ Coinbase h.
Definition config : CliqueConfig := {| Period := 15; Epoch := 30000 |}.

Definition genesis : Snapshot := newSnapshot 0 zeroHash [account 1; account 2; account 3].

Definition chain : list Header :=
  [vote_header 1 (account 1) zeroAddress nonceDropVote;
   vote_header 2 (account 2) (account 9) nonceAuthVote;
   vote_header 3 (account 3) (account 9) nonceAuthVote;
   vote_header 4 (account 1) zeroAddress nonceDropVote].

Definition before_admission : Snapshot :=
  match apply_headers sealer_of config genesis (take 2 chain) with Ok s => s | _ => genesis end.

Example chain_admits_account_9 :
  (s ← apply sealer_of hash_of config genesis chain; mret (bool_decide (account 9 ∈ Signers s)))
  = Ok true.
Proof. vm_compute. reflexivity. Qed.

Lemma before_admission_inv : snap_inv before_admission.
Proof.
  unfold before_admission. destruct (apply_headers _ _ _ _) as [s| |] eqn:E;
    [|apply newSnapshot_inv..].
  eapply apply_headers_inv; [apply newSnapshot_inv | exact E].
Qed.

Lemma genesis_window : recents_window 0 genesis.
Proof. intros k a Hk. cbn in Hk. by rewrite lookup_empty in Hk. Qed.

Lemma apply_header_refines_governance_witness :
  exists s', apply_header sealer_of config before_admission
               (vote_header 3 (account 3) (account 9) nonceAuthVote) = Ok s' /\
  exists number signer auth,
    number_of (vote_header 3 (account 3) (account 9) nonceAuthVote) = Ok number /\
    sealer_of (vote_header 3 (account 3) (account 9) nonceAuthVote) = Ok signer /\
    nonce_vote nonceAuthVote = Ok auth /\
    signer ∈ Signers before_admission /\
    governance s' = gov_step signer (account 9) auth (gov_epoch config number (governance before_admission)).
Proof.
  destruct (is_ok_ex (apply_header sealer_of config before_admission
    (vote_header 3 (account 3) (account 9) nonceAuthVote))) as [s' E]; [vm_compute; reflexivity|].
  exists s'. split; [exact E|].
  exact (apply_header_refines_governance _ _ _ _ _ before_admission_inv E).
Defined.

Lemma apply_preserves_votes_witness :
  exists s', apply sealer_of hash_of config genesis chain = Ok s' /\ snap_inv s'.
Proof.
  destruct (is_ok_ex (apply sealer_of hash_of config genesis chain)) as [s' E];
    [vm_compute; reflexivity|].
  exists s'. split; [exact E|].
  exact (apply_preserves_votes _ _ _ _ _ _ (newSnapshot_inv _ _ _) E).
Defined.

Lemma signer_change_needs_majority_witness :
  exists s', apply_header sealer_of config before_admission
               (vote_header 3 (account 3) (account 9) nonceAuthVote) = Ok s' /\
  exists voters : gset Address,
    voters ⊆ Signers before_admission /\ (size (Signers before_admission) < 2 * size voters)%nat /\
    forall x, x ∈ voters -> sealer_of (vote_header 3 (account 3) (account 9) nonceAuthVote) = Ok x \/
      (x, account 9) ∈ (governance before_admission).2.
Proof.
  assert (match apply_header sealer_of config before_admission
                  (vote_header 3 (account 3) (account 9) nonceAuthVote) with
          | Ok s' => bool_decide (account 9 ∈ Signers s') && negb (bool_decide (account 9 ∈ Signers before_admission))
          | _ => false end = true) as H by (vm_compute; reflexivity).
  destruct (apply_header _ _ _ _) as [s'| |] eqn:E; [|discriminate H..].
  apply andb_true_iff in H as [H1 H2]. apply negb_true_iff in H2.
  exists s'. split; [reflexivity|].
  eapply (signer_change_needs_majority _ _ _ _ _ (account 9) before_admission_inv E).
  rewrite H1, H2. discriminate.
Defined.

Lemma apply_keeps_recents_window_witness :
  exists s', apply sealer_of hash_of config genesis chain = Ok s' /\
    s_Number s' = 0 + 4 /\ recents_window (s_Number s') s'.
Proof.
  destruct (is_ok_ex (apply sealer_of hash_of config genesis chain)) as [s' E];
    [vm_compute; reflexivity|].
  exists s'. split; [exact E|].
  apply (apply_keeps_recents_window sealer_of hash_of config genesis chain s');
    [apply newSnapshot_inv | exact genesis_window | cbn; lia | cbn; unfold two64; lia | exact E].
Defined.

Definition prefix_sizes_ok (m : nat) : bool :=
  forallb (fun k => match apply_headers sealer_of config genesis (take k chain) with
                    | Ok sk => (m <=? size (Signers sk))%nat
                    | _ => true end) (seq 0 5).

Lemma prefix_sizes k sk :
  (k <= 4)%nat -> apply_headers sealer_of config genesis (take k chain) = Ok sk ->
  (3 <= size (Signers sk))%nat.
Proof.
  intros Hk E. assert (prefix_sizes_ok 3 = true) as H by (vm_compute; reflexivity).
  unfold prefix_sizes_ok in H. rewrite forallb_forall in H.
  specialize (H k). rewrite E in H. apply Nat.leb_le. apply H. apply in_seq. lia.
Qed.

Lemma apply_spaces_signers_witness :
  exists s', apply sealer_of hash_of config genesis chain = Ok s' /\ (3 / 2 + 1 <= 3 - 0)%nat.
Proof.
  destruct (is_ok_ex (apply sealer_of hash_of config genesis chain)) as [s' E];
    [vm_compute; reflexivity|].
  exists s'. split; [exact E|].
  apply (apply_spaces_signers sealer_of hash_of config genesis chain s' 3 0 3
           (vote_header 1 (account 1) zeroAddress nonceDropVote)
           (vote_header 4 (account 1) zeroAddress nonceDropVote) (account 1));
    [apply newSnapshot_inv | exact genesis_window | cbn; lia | cbn; unfold two64; lia | exact E
    | exact prefix_sizes | lia | reflexivity..].
Defined.

Lemma some_signer_can_seal_witness :
  exists a, a ∈ Signers genesis /\
    forall h, number_of h = Ok 1 -> sealer_of h = Ok a ->
      Nonce h = nonceAuthVote \/ Nonce h = nonceDropVote ->
      exists s', apply sealer_of hash_of config genesis [h] = Ok s'.
Proof.
  apply (some_signer_can_seal sealer_of hash_of config genesis);
    [apply newSnapshot_inv | exact genesis_window | cbn; lia | cbn; unfold two64; lia
    | | discriminate].
  intros H. assert (bool_decide (account 1 ∈ Signers genesis) = true) as H1 by (vm_compute; reflexivity).
  rewrite H in H1. discriminate H1.
Defined.

(** A single signer can vote itself out; nobody is left to seal, and asking for
    the turn at the next height divides by zero. *)
Example last_signer_leaves :
  (s ← apply sealer_of hash_of config (newSnapshot 0 zeroHash [account 1])
         [vote_header 1 (account 1) (account 1) nonceDropVote];
   inturn s 2 (account 1)) = Panic "integer divide by zero".
Proof. vm_compute. reflexivity. Qed.

End CliqueExample.
