(* ===== verification/Clique.v ===== *)
(** * The Clique engine

    consensus/clique/clique.go and api.go: recovering signers with a cache,
    retrieving voting snapshots from caches, disk and headers, verifying,
    preparing and sealing headers.

    Outside the model, as parameters: the hash and the public-key recovery
    ([EthCrypto]), the LRU caches, the key-value database and the JSON of
    snapshots ([CliqueEnv]), with what the engine relies on in [CliqueEnvOk]. *)

From S2P Require Import Prelude Rlp EthTypes CliqueSnapshot.

(** ** Parameters *)

Class EthCrypto := {
  Keccak256 : bytes -> bytes;
  Ecrecover : bytes -> bytes -> outcome bytes;
}.

(** [lru.ARCCache] keyed by hash, [ethdb.Database], and [encoding/json] on
    snapshots. *)
Class CliqueEnv := {
  arc : Type -> Type;
  arc_new : forall V, arc V;
  arc_Get : forall {V}, arc V -> Hash -> option V * arc V;
  arc_Add : forall {V}, arc V -> Hash -> V -> arc V;
  kv : Type;
  kv_Get : kv -> bytes -> outcome bytes;
  kv_Put : kv -> bytes -> bytes -> outcome kv;
  json_Marshal : Snapshot -> outcome bytes;
  json_Unmarshal : bytes -> outcome Snapshot;
}.

(** A cache only returns what was added under the key, a failed or successful
    write leaves other keys alone, and JSON reads back what it wrote. *)
Class CliqueEnvOk (Env : CliqueEnv) := {
  arc_contents : forall {V}, arc V -> gmap Hash V;
  arc_new_empty : forall V, arc_contents (arc_new V) = ∅;
  arc_Get_contents : forall V (c : arc V) k, (arc_Get c k).1 = arc_contents c !! k;
  arc_Get_keeps : forall V (c : arc V) k, arc_contents (arc_Get c k).2 = arc_contents c;
  arc_Add_contents : forall V (c : arc V) k v k' v',
    arc_contents (arc_Add c k v) !! k' = Some v' ->
    (k' = k /\ v' = v) \/ arc_contents c !! k' = Some v';
  kv_Get_Put : forall d k v d' k',
    kv_Put d k v = Ok d' -> kv_Get d' k' = if decide (k' = k) then Ok v else kv_Get d k';
  json_roundtrip : forall s b s',
    json_Marshal s = Ok b -> json_Unmarshal b = Ok s' -> s' = s;
}.

(** What the engine reads of the block chain. *)
Record ChainHeaderReader := {
  Config : ChainConfig;
  CurrentHeader : option Header;
  GetHeader : Hash -> Z -> option Header;
  GetHeaderByNumber : Z -> option Header;
  GetHeaderByHash : Hash -> option Header;
}.

(** ** Constants *)

Definition checkpointInterval : Z := 1024.
Definition epochLength : Z := 30000.
Definition extraVanity : nat := 32.
Definition extraSeal : nat := 65.
Definition diffInTurn : Z := 2.
Definition diffNoTurn : Z := 1.
Definition FullImmutabilityThreshold : Z := 90000.

Definition errUnknownBlock : error := "unknown block".
Definition errInvalidCheckpointBeneficiary : error := "beneficiary in checkpoint block non-zero".
Definition errInvalidCheckpointVote : error := "vote nonce in checkpoint block non-zero".
Definition errMissingVanity : error := "extra-data 32 byte vanity prefix missing".
Definition errMissingSignature : error := "extra-data 65 byte signature suffix missing".
Definition errExtraSigners : error := "non-checkpoint block contains extra signer list".
Definition errInvalidCheckpointSigners : error := "invalid signer list on checkpoint block".
Definition errMismatchingCheckpointSigners : error := "mismatching signer list on checkpoint block".
Definition errInvalidMixDigest : error := "non-zero mix digest".
Definition errInvalidUncleHash : error := "non empty uncle hash".
Definition errInvalidDifficulty : error := "invalid difficulty".
Definition errWrongDifficulty : error := "wrong difficulty".
Definition errInvalidTimestamp : error := "invalid timestamp".
Definition ErrUnknownAncestor : error := "unknown ancestor".
Definition ErrFutureBlock : error := "block in the future".

Section Clique.
Context {Crypto : EthCrypto} {Env : CliqueEnv}.

(** ** Hashes *)

(** The header as the reflection-driven encoder sees it. *)
Definition header_rval (h : Header) : rval :=
  RStruct
    [RByteArray (ParentHash h); RByteArray (UncleHash h); RByteArray (Coinbase h);
     RByteArray (Root h); RByteArray (TxHash h); RByteArray (ReceiptHash h); RByteArray (Bloom h);
     RBigPtr (Difficulty h); RBigPtr (Number h); RUint (GasLimit h); RUint (GasUsed h);
     RUint (Time h); RBytes (Extra h); RByteArray (MixDigest h); RByteArray (Nonce h)]
    [(match BaseFee h with None => true | Some _ => false end, RBigPtr (BaseFee h))].

(** The encoder's error is dropped: what was not written is not hashed.
    [geth:core/types/hashing.go] rlpHash *)
Definition rlpHash (x : rval) : Hash :=
  Keccak256 (match Encode x with Ok b => b | _ => [] end).

(** [geth:core/types/block.go] Header.Hash *)
Definition header_hash (h : Header) : Hash := rlpHash (header_rval h).

(** [types.CalcUncleHash(nil)]: the hash of an empty list. *)
Definition uncleHash : Hash := rlpHash (RSlice []).

(** The fields the seal signs.
    [geth:consensus/clique/clique.go:731-750] encodeSigHeader *)
Definition sig_enc (h : Header) : list rval :=
  [RByteArray (ParentHash h); RByteArray (UncleHash h); RByteArray (Coinbase h);
   RByteArray (Root h); RByteArray (TxHash h); RByteArray (ReceiptHash h);
   RByteArray (Bloom h); RBigPtr (Difficulty h); RBigPtr (Number h);
   RUint (GasLimit h); RUint (GasUsed h); RUint (Time h);
   RBytes (take (length (Extra h) - extraSeal) (Extra h));
   RByteArray (MixDigest h); RByteArray (Nonce h)] ++
  match BaseFee h with
  | Some _ => [RBigPtr (BaseFee h)]
  | None => []
  end.

(** [geth:consensus/clique/clique.go] encodeSigHeader *)
Definition encodeSigHeader (h : Header) : outcome bytes :=
  if (length (Extra h) <? extraSeal)%nat then Panic "slice bounds out of range"
  else or_panic "can't encode" (Encode (RSlice ((fun x => RIface (Some x)) <$> sig_enc h))).

(** [geth:consensus/clique/clique.go] SealHash *)
Definition SealHash (h : Header) : outcome Hash :=
  b ← encodeSigHeader h; mret (Keccak256 b).

(** [geth:consensus/clique/clique.go] CliqueRLP *)
Definition CliqueRLP (h : Header) : outcome bytes := encodeSigHeader h.

(** ** The engine *)

(** [geth:consensus/clique/clique.go] Clique *)
Record Clique := {
  c_config : CliqueConfig;
  c_db : kv;
  c_recents : arc Snapshot;
  c_signatures : arc Address;
  proposals : gmap Address bool;
  c_signer : Address;
  signFn : Address -> bytes -> outcome bytes;
  fakeDiff : bool;
}.

Definition with_db x (c : Clique) : Clique :=
  {| c_config := c_config c; c_db := x; c_recents := c_recents c; c_signatures := c_signatures c;
     proposals := proposals c; c_signer := c_signer c; signFn := signFn c; fakeDiff := fakeDiff c |}.
Definition with_recents x (c : Clique) : Clique :=
  {| c_config := c_config c; c_db := c_db c; c_recents := x; c_signatures := c_signatures c;
     proposals := proposals c; c_signer := c_signer c; signFn := signFn c; fakeDiff := fakeDiff c |}.
Definition with_signatures x (c : Clique) : Clique :=
  {| c_config := c_config c; c_db := c_db c; c_recents := c_recents c; c_signatures := x;
     proposals := proposals c; c_signer := c_signer c; signFn := signFn c; fakeDiff := fakeDiff c |}.
Definition with_proposals x (c : Clique) : Clique :=
  {| c_config := c_config c; c_db := c_db c; c_recents := c_recents c; c_signatures := c_signatures c;
     proposals := x; c_signer := c_signer c; signFn := signFn c; fakeDiff := fakeDiff c |}.

(** [signFn] is nil until [Authorize]: calling it panics.
    [geth:consensus/clique/clique.go] New *)
Definition New (config : CliqueConfig) (d : kv) : Clique :=
  let conf := if Epoch config =? 0 then {| Period := Period config; Epoch := epochLength |} else config in
  {| c_config := conf; c_db := d; c_recents := arc_new Snapshot; c_signatures := arc_new Address;
     proposals := ∅; c_signer := zeroAddress;
     signFn := fun _ _ => Panic "invalid memory address or nil pointer dereference";
     fakeDiff := false |}.

(** [geth:consensus/clique/clique.go] Clique.Authorize *)
Definition Authorize (signer : Address) (f : Address -> bytes -> outcome bytes) (c : Clique) : Clique :=
  {| c_config := c_config c; c_db := c_db c; c_recents := c_recents c; c_signatures := c_signatures c;
     proposals := proposals c; c_signer := signer; signFn := f; fakeDiff := fakeDiff c |}.

(** [geth:consensus/clique/api.go] API.Propose *)
Definition Propose (address : Address) (auth : bool) (c : Clique) : Clique :=
  with_proposals (<[address := auth]> (proposals c)) c.

(** [geth:consensus/clique/api.go] API.Discard *)
Definition Discard (address : Address) (c : Clique) : Clique :=
  with_proposals (delete address (proposals c)) c.

(** [geth:consensus/clique/api.go] API.Proposals *)
Definition Proposals (c : Clique) : gmap Address bool :=
  map_fold (fun a x acc => <[a := x]> acc) ∅ (proposals c).

(** The address a header's seal recovers to, without any cache.
    [geth:consensus/clique/clique.go:152-165] ecrecover *)
Definition recover (h : Header) : outcome Address :=
  if (length (Extra h) <? extraSeal)%nat then Err errMissingSignature
  else
    let signature := drop (length (Extra h) - extraSeal) (Extra h) in
    sh ← SealHash h;
    pubkey ← Ecrecover sh signature;
    if (length pubkey <? 1)%nat then Panic "slice bounds out of range"
    else mret (resize AddressLength Byte.x00 (drop 12 (Keccak256 (drop 1 pubkey)))).

(** [geth:consensus/clique/clique.go] ecrecover *)
Definition ecrecover (h : Header) : StM Clique Address := fun c =>
  let hash := header_hash h in
  match arc_Get (c_signatures c) hash with
  | (Some address, sigs) => (Ok address, with_signatures sigs c)
  | (None, sigs) =>
      let c := with_signatures sigs c in
      match recover h with
      | Ok signer => (Ok signer, with_signatures (arc_Add (c_signatures c) hash signer) c)
      | r => (r, c)
      end
  end.

(** [geth:consensus/clique/clique.go] Clique.Author *)
Definition Author (h : Header) : StM Clique Address := ecrecover h.

(** ** Snapshots of the chain *)

Definition snapshot_key (hash : Hash) : bytes := [Byte.x63; Byte.x6c; Byte.x69; Byte.x71; Byte.x75; Byte.x65; Byte.x2d] ++ hash.

(** [geth:consensus/clique/snapshot.go] loadSnapshot *)
Definition loadSnapshot (d : kv) (hash : Hash) : outcome Snapshot :=
  blob ← kv_Get d (snapshot_key hash);
  json_Unmarshal blob.

(** [geth:consensus/clique/snapshot.go] Snapshot.store *)
Definition store (s : Snapshot) : StM Clique unit := fun c =>
  match json_Marshal s with
  | Ok blob =>
      match kv_Put (c_db c) (snapshot_key (s_Hash s)) blob with
      | Ok d => (Ok tt, with_db d c)
      | Err e => (Err e, c)
      | Panic p => (Panic p, c)
      end
  | Err e => (Err e, c)
  | Panic p => (Panic p, c)
  end.

(** The pass of [Snapshot.apply] over one header, with the signer from the
    shared signature cache.  (A header the pass panics on before it asks for the
    signer ends the program, so the order does not show.) *)
Definition apply_header_c (snap : Snapshot) (h : Header) : StM Clique Snapshot := fun c =>
  let '(signer, c') := ecrecover h c in
  (apply_header (fun _ => signer) (c_config c) snap h, c').

Fixpoint apply_headers_c (snap : Snapshot) (headers : list Header) : StM Clique Snapshot :=
  match headers with
  | [] => mret snap
  | h :: rest => snap' ← apply_header_c snap h; apply_headers_c snap' rest
  end.

(** [Snapshot.apply] within the engine.
    [geth:consensus/clique/snapshot.go] Snapshot.apply *)
Definition apply_c (s : Snapshot) (headers : list Header) : StM Clique Snapshot :=
  match headers with
  | [] => mret s
  | h0 :: _ =>
      _ ← pure (check_contiguous headers);
      n0 ← pure (number_of h0);
      _ ← pure (ensure (n0 =? s_Number s +u 1) errInvalidVotingChain);
      snap ← apply_headers_c (copy s) headers;
      let hash := match last headers with Some h => header_hash h | None => s_Hash snap end in
      mret (set_number (s_Number snap +u Z.of_nat (length headers)) hash snap)
  end.

(** The signers listed in a checkpoint header: [len] chunks of address length
    from the vanity on; [copy] of a short tail leaves zeroes. *)
Definition checkpoint_signers (extra : bytes) : outcome (list Address) :=
  let n := Z.quot (Z.of_nat (length extra) - Z.of_nat extraVanity - Z.of_nat extraSeal)
                  (Z.of_nat AddressLength) in
  if n <? 0 then Panic "makeslice: len out of range"
  else
    mret ((fun i => resize AddressLength Byte.x00 (drop (extraVanity + i * AddressLength) extra))
            <$> seq 0 (Z.to_nat n)).

(** [number % c.config.Epoch]. *)
Definition mod_epoch (number : Z) (c : Clique) : outcome Z :=
  if Epoch (c_config c) =? 0 then Panic "integer divide by zero"
  else mret (number mod Epoch (c_config c)).

(** Whether a header may be trusted as a starting point.
    [geth:consensus/clique/clique.go:391-395] Clique.snapshot *)
Definition trusted_start (chain : ChainHeaderReader) (number : Z) (collected : nat) (c : Clique) : outcome bool :=
  if number =? 0 then mret true
  else
    m ← mod_epoch number c;
    mret ((m =? 0) &&
          ((FullImmutabilityThreshold <? Z.of_nat collected) ||
           match GetHeaderByNumber chain (number -u 1) with None => true | Some _ => false end)).

(** The next header back: the last explicit parent, or the chain's.
    [geth:consensus/clique/clique.go:412-427] Clique.snapshot *)
Definition previous_header (chain : ChainHeaderReader) (number : Z) (hash : Hash) (parents : list Header) :
    outcome (Header * list Header) :=
  match last parents with
  | Some header =>
      if negb (bool_decide (header_hash header = hash)) then Err ErrUnknownAncestor
      else
        n ← number_of header;
        if negb (n =? number) then Err ErrUnknownAncestor
        else mret (header, removelast parents)
  | None =>
      header ← ok_or (GetHeader chain hash number) ErrUnknownAncestor;
      mret (header, [])
  end.

(** The snapshot of a trusted starting point, stored to disk at once.
    [geth:consensus/clique/clique.go:396-410] Clique.snapshot *)
Definition checkpoint_snapshot (number : Z) (checkpoint : Header) : StM Clique Snapshot :=
  signers ← pure (checkpoint_signers (Extra checkpoint));
  let snap := newSnapshot number (header_hash checkpoint) signers in
  _ ← store snap;
  mret snap.

(** [geth:consensus/clique/clique.go:376-388] Clique.snapshot *)
Definition cached_snapshot (number : Z) (hash : Hash) : StM Clique (option Snapshot) := fun c =>
  match arc_Get (c_recents c) hash with
  | (Some s, r) => (Ok (Some s), with_recents r c)
  | (None, r) =>
      let c := with_recents r c in
      if number mod checkpointInterval =? 0 then
        match loadSnapshot (c_db c) hash with
        | Ok s => (Ok (Some s), c)
        | Err _ => (Ok None, c)
        | Panic p => (Panic p, c)
        end
      else (Ok None, c)
  end.

(** The loop back to the nearest known snapshot, collecting headers.
    [geth:consensus/clique/clique.go:376-428] Clique.snapshot *)
Fixpoint find_snapshot (fuel : nat) (chain : ChainHeaderReader) (number : Z) (hash : Hash)
    (parents headers : list Header) : StM Clique (Snapshot * list Header) :=
  match fuel with
  | O => pure (Panic "out of fuel")
  | S fuel =>
      found ← cached_snapshot number hash;
      match found with
      | Some s => mret (s, headers)
      | None =>
          start ← askS (trusted_start chain number (length headers));
          match (if (start : bool) then GetHeaderByNumber chain number else None) with
          | Some checkpoint =>
              s ← checkpoint_snapshot number checkpoint;
              mret (s, headers)
          | None =>
              '(header, parents) ← pure (previous_header chain number hash parents);
              find_snapshot fuel chain (number -u 1) (ParentHash header) parents (headers ++ [header])
          end
      end
  end.

(** The block number bounds the passes of the loop.
    [geth:consensus/clique/clique.go] Clique.snapshot *)
Definition snapshot (chain : ChainHeaderReader) (number : Z) (hash : Hash) (parents : list Header) :
    StM Clique Snapshot :=
  '(snap, headers) ← find_snapshot (S (Z.to_nat number)) chain number hash parents [];
  snap ← apply_c snap (reverse headers);
  _ ← putS (fun c => with_recents (arc_Add (c_recents c) (s_Hash snap) snap) c);
  _ ← (if (s_Number snap mod checkpointInterval =? 0) && negb (bool_decide (headers = []))
       then store snap else mret tt);
  mret snap.

(** ** Verification *)

(** [geth:consensus/misc/forks.go] VerifyForkHashes *)
Definition VerifyForkHashes (config : ChainConfig) (h : Header) (uncle : bool) : outcome unit :=
  if uncle then mret tt
  else
    match EIP150Block config, Number h with
    | Some b, Some n =>
        if (b =? n) && negb (bool_decide (EIP150Hash config = zeroHash)) &&
           negb (bool_decide (EIP150Hash config = header_hash h))
        then Err "homestead gas reprice fork" else mret tt
    | Some _, None => Panic "invalid memory address or nil pointer dereference"
    | None, _ => mret tt
    end.

(** A recorded signer still blocks sealing at [number].
    [geth:consensus/clique/clique.go:483-490] Clique.verifySeal *)
Definition verify_recents (snap : Snapshot) (number : Z) (signer : Address) : bool :=
  negb (existsb (fun p => bool_decide (p.2 = signer) && (number -u signers_limit snap <? p.1))
          (map_to_list (Recents snap))).

(** [geth:consensus/clique/clique.go] Clique.verifySeal *)
Definition verifySeal (chain : ChainHeaderReader) (h : Header) (parents : list Header) : StM Clique unit :=
  number ← pure (number_of h);
  if number =? 0 then pure (Err errUnknownBlock)
  else
    snap ← snapshot chain (number -u 1) (ParentHash h) parents;
    signer ← ecrecover h;
    _ ← pure (ensure (bool_decide (signer ∈ Signers snap)) errUnauthorizedSigner);
    _ ← pure (ensure (verify_recents snap number signer) errRecentlySigned);
    fake ← getS fakeDiff;
    if (fake : bool) then mret tt
    else
      inturn ← pure (inturn snap number signer);
      d ← pure (deref (Difficulty h));
      pure (ensure (d =? if (inturn : bool) then diffInTurn else diffNoTurn) errWrongDifficulty).

(** The signer list as it stands in a checkpoint's extra-data. *)
Definition signers_bytes (snap : Snapshot) : bytes := concat (signers snap).

(** [geth:consensus/clique/clique.go] Clique.verifyCascadingFields *)
Definition verifyCascadingFields (chain : ChainHeaderReader) (h : Header) (parents : list Header) :
    StM Clique unit :=
  number ← pure (number_of h);
  if number =? 0 then mret tt
  else
    let parent := match last parents with
                  | Some p => Some p
                  | None => GetHeader chain (ParentHash h) (number -u 1)
                  end in
    parent ← pure (ok_or parent ErrUnknownAncestor);
    pn ← pure (number_of parent);
    _ ← pure (ensure ((pn =? number -u 1) && bool_decide (header_hash parent = ParentHash h)) ErrUnknownAncestor);
    period ← getS (fun c => Period (c_config c));
    _ ← pure (ensure (negb (Time h <? Time parent +u period)) errInvalidTimestamp);
    _ ← pure (ensure (negb (GasLimit h <? GasUsed h)) "invalid gasUsed");
    _ ← (if negb (IsLondon (Config chain) (Number h)) then
           _ ← pure (ensure (match BaseFee h with None => true | Some _ => false end)
                       "invalid baseFee before fork");
           pure (VerifyGaslimit (GasLimit parent) (GasLimit h))
         else pure (VerifyEip1559Header (Config chain) parent h));
    snap ← snapshot chain (number -u 1) (ParentHash h) parents;
    m ← askS (mod_epoch number);
    _ ← pure (if m =? 0 then
                let suffix := (length (Extra h) - extraSeal)%nat in
                ensure (bool_decide (take (suffix - extraVanity) (drop extraVanity (Extra h)) = signers_bytes snap))
                  errMismatchingCheckpointSigners
              else mret tt);
    verifySeal chain h parents.

(** [now] is [time.Now().Unix()] as an unsigned integer.
    [geth:consensus/clique/clique.go] Clique.verifyHeader *)
Definition verifyHeader (now : Z) (chain : ChainHeaderReader) (h : Header) (parents : list Header) :
    StM Clique unit :=
  _ ← pure (ok_or (Number h) errUnknownBlock);
  number ← pure (number_of h);
  _ ← pure (ensure (negb (now <? Time h)) ErrFutureBlock);
  m ← askS (mod_epoch number);
  let checkpoint := m =? 0 in
  let nsigners := Z.of_nat (length (Extra h)) - Z.of_nat extraVanity - Z.of_nat extraSeal in
  _ ← pure (ensure (negb (checkpoint && negb (bool_decide (Coinbase h = zeroAddress))))
              errInvalidCheckpointBeneficiary);
  _ ← pure (ensure (bool_decide (Nonce h = nonceAuthVote) || bool_decide (Nonce h = nonceDropVote))
              errInvalidVote);
  _ ← pure (ensure (negb (checkpoint && negb (bool_decide (Nonce h = nonceDropVote))))
              errInvalidCheckpointVote);
  _ ← pure (ensure (extraVanity <=? length (Extra h))%nat errMissingVanity);
  _ ← pure (ensure (extraVanity + extraSeal <=? length (Extra h))%nat errMissingSignature);
  _ ← pure (ensure (checkpoint || (nsigners =? 0)) errExtraSigners);
  _ ← pure (ensure (negb checkpoint || (nsigners mod Z.of_nat AddressLength =? 0)) errInvalidCheckpointSigners);
  _ ← pure (ensure (bool_decide (MixDigest h = zeroHash)) errInvalidMixDigest);
  _ ← pure (ensure (bool_decide (UncleHash h = uncleHash)) errInvalidUncleHash);
  _ ← pure (ensure (negb (0 <? number) ||
                    match Difficulty h with
                    | Some d => (d =? diffInTurn) || (d =? diffNoTurn)
                    | None => false
                    end) errInvalidDifficulty);
  _ ← pure (ensure (negb (maxInt64 <? GasLimit h)) "invalid gasLimit");
  _ ← pure (VerifyForkHashes (Config chain) h false);
  verifyCascadingFields chain h parents.

(** [geth:consensus/clique/clique.go] Clique.VerifyHeader *)
Definition VerifyHeader (now : Z) (chain : ChainHeaderReader) (h : Header) : StM Clique unit :=
  verifyHeader now chain h [].

(** The results in the order of the headers; each header has the ones before it
    in the batch as parents.  (An abort only ends the sequence early.)
    [geth:consensus/clique/clique.go] Clique.VerifyHeaders *)
Fixpoint VerifyHeaders (now : Z) (chain : ChainHeaderReader) (before headers : list Header) (c : Clique) :
    list (outcome unit) * Clique :=
  match headers with
  | [] => ([], c)
  | h :: rest =>
      let '(r, c) := verifyHeader now chain h before c in
      let '(rs, c) := VerifyHeaders now chain (before ++ [h]) rest c in
      (r :: rs, c)
  end.

(** ** Building blocks *)

(** [geth:consensus/clique/clique.go] calcDifficulty *)
Definition calcDifficulty (snap : Snapshot) (signer : Address) : outcome Z :=
  b ← inturn snap (s_Number snap +u 1) signer;
  mret (if (b : bool) then diffInTurn else diffNoTurn).

(** An error becomes a nil difficulty.
    [geth:consensus/clique/clique.go] Clique.CalcDifficulty *)
Definition CalcDifficulty (chain : ChainHeaderReader) (parent : Header) : StM Clique (option Z) := fun c =>
  match number_of parent with
  | Ok n =>
      match snapshot chain n (header_hash parent) [] c with
      | (Ok snap, c) => (d ← calcDifficulty snap (c_signer c); mret (Some d), c)
      | (Err _, c) => (Ok None, c)
      | (Panic p, c) => (Panic p, c)
      end
  | Err e => (Err e, c)
  | Panic p => (Panic p, c)
  end.

(** The header after the assignments of [Prepare]. *)
Definition prepared (h : Header) (coinbase : Address) (nonce extra : bytes) (d time : Z) : Header := {|
  ParentHash := ParentHash h; UncleHash := UncleHash h; Coinbase := coinbase; Root := Root h;
  TxHash := TxHash h; ReceiptHash := ReceiptHash h; Bloom := Bloom h; Difficulty := Some d;
  Number := Number h; GasLimit := GasLimit h; GasUsed := GasUsed h; Time := time; Extra := extra;
  MixDigest := zeroHash; Nonce := nonce; BaseFee := BaseFee h |}.

(** Map iteration order and [rand.Intn] only select which of the meaningful
    proposals is voted on: [pick] is the index drawn.
    [geth:consensus/clique/clique.go:517-537] Clique.Prepare *)
Definition prepare_vote (pick : nat) (snap : Snapshot) (props : gmap Address bool) : outcome (Address * bytes) :=
  let addresses := filter (fun p => validVote snap p.1 p.2 = true) (map_to_list props) in
  match addresses with
  | [] => mret (zeroAddress, nonceDropVote)
  | _ =>
      p ← index addresses pick;
      mret (p.1, if (p.2 : bool) then nonceAuthVote else nonceDropVote)
  end.

(** [geth:consensus/clique/clique.go:541-556] Clique.Prepare *)
Definition prepare_extra (extra : bytes) (checkpoint : bool) (snap : Snapshot) : bytes :=
  let extra := if (length extra <? extraVanity)%nat
               then extra ++ replicate (extraVanity - length extra) Byte.x00 else extra in
  let extra := take extraVanity extra in
  let extra := if checkpoint then extra ++ concat (signers snap) else extra in
  extra ++ replicate extraSeal Byte.x00.

(** Returns the header as [Prepare] leaves it.
    [geth:consensus/clique/clique.go] Clique.Prepare *)
Definition Prepare (now : Z) (pick : nat) (chain : ChainHeaderReader) (h : Header) : StM Clique Header :=
  number ← pure (number_of h);
  snap ← snapshot chain (number -u 1) (ParentHash h) [];
  m ← askS (mod_epoch number);
  props ← getS proposals;
  vote ← pure (if negb (m =? 0) then prepare_vote pick snap props else mret (zeroAddress, replicate 8 Byte.x00));
  signer ← getS c_signer;
  d ← pure (calcDifficulty snap signer);
  let extra := prepare_extra (Extra h) (m =? 0) snap in
  parent ← pure (ok_or (GetHeader chain (ParentHash h) (number -u 1)) ErrUnknownAncestor);
  period ← getS (fun c => Period (c_config c));
  let time := Time parent +u period in
  let time := if time <? now then now else time in
  mret (prepared h vote.1 vote.2 extra d time).

Definition set_extra (e : bytes) (h : Header) : Header := {|
  ParentHash := ParentHash h; UncleHash := UncleHash h; Coinbase := Coinbase h; Root := Root h;
  TxHash := TxHash h; ReceiptHash := ReceiptHash h; Bloom := Bloom h; Difficulty := Difficulty h;
  Number := Number h; GasLimit := GasLimit h; GasUsed := GasUsed h; Time := Time h; Extra := e;
  MixDigest := MixDigest h; Nonce := Nonce h; BaseFee := BaseFee h |}.

(** [copy(header.Extra[len-extraSeal:], sighash)]. *)
Definition put_seal (extra sighash : bytes) : outcome bytes :=
  if (length extra <? extraSeal)%nat then Panic "slice bounds out of range"
  else
    let n := (length extra - extraSeal)%nat in
    let s := take extraSeal sighash in
    mret (take n extra ++ s ++ drop (n + length s) extra).

(** A recorded signer makes the sealer wait.
    [geth:consensus/clique/clique.go:627-634] Clique.Seal *)
Definition seal_recents (snap : Snapshot) (number : Z) (signer : Address) : bool :=
  negb (existsb (fun p => bool_decide (p.2 = signer) &&
                          ((number <? signers_limit snap) || (number -u signers_limit snap <? p.1)))
          (map_to_list (Recents snap))).

(** The sealed header handed to the miner after the delay; [None] when sealing
    is paused or has to wait.  The delay and its random wiggle only affect when
    the block is handed over.
    [geth:consensus/clique/clique.go] Clique.Seal *)
Definition Seal (chain : ChainHeaderReader) (h : Header) (txs : nat) : StM Clique (option Header) :=
  number ← pure (number_of h);
  if number =? 0 then pure (Err errUnknownBlock)
  else
    period ← getS (fun c => Period (c_config c));
    if (period =? 0) && (txs =? 0)%nat then mret None
    else
      signer ← getS c_signer;
      sign ← getS signFn;
      snap ← snapshot chain (number -u 1) (ParentHash h) [];
      _ ← pure (ensure (bool_decide (signer ∈ Signers snap)) errUnauthorizedSigner);
      if negb (seal_recents snap number signer) then mret None
      else
        _ ← pure (deref (Difficulty h));
        rlp ← pure (CliqueRLP h);
        sighash ← pure (sign signer rlp);
        extra ← pure (put_seal (Extra h) sighash);
        mret (Some (set_extra extra h)).

(** [geth:consensus/clique/clique.go] Clique.VerifyUncles *)
Definition VerifyUncles (uncles : list Header) : outcome unit :=
  ensure (bool_decide (uncles = [])) "uncles not allowed".

(** [root] is the state root computed by the state database.
    [geth:consensus/clique/clique.go] Clique.Finalize *)
Definition Finalize (root : Hash) (h : Header) : Header := {|
  ParentHash := ParentHash h; UncleHash := uncleHash; Coinbase := Coinbase h; Root := root;
  TxHash := TxHash h; ReceiptHash := ReceiptHash h; Bloom := Bloom h; Difficulty := Difficulty h;
  Number := Number h; GasLimit := GasLimit h; GasUsed := GasUsed h; Time := Time h; Extra := Extra h;
  MixDigest := MixDigest h; Nonce := Nonce h; BaseFee := BaseFee h |}.

(** ** The RPC interface *)

(** [None] asks for the latest block.
    [geth:consensus/clique/api.go] API.GetSnapshot *)
Definition GetSnapshot (chain : ChainHeaderReader) (number : option Z) : StM Clique Snapshot :=
  let header := match number with
                | None => CurrentHeader chain
                | Some n => GetHeaderByNumber chain (u64 n)
                end in
  h ← pure (ok_or header errUnknownBlock);
  n ← pure (number_of h);
  snapshot chain n (header_hash h) [].

(** [geth:consensus/clique/api.go] API.GetSnapshotAtHash *)
Definition GetSnapshotAtHash (chain : ChainHeaderReader) (hash : Hash) : StM Clique Snapshot :=
  h ← pure (ok_or (GetHeaderByHash chain hash) errUnknownBlock);
  n ← pure (number_of h);
  snapshot chain n (header_hash h) [].

(** [geth:consensus/clique/api.go] API.GetSigners *)
Definition GetSigners (chain : ChainHeaderReader) (number : option Z) : StM Clique (list Address) :=
  snap ← GetSnapshot chain number; mret (signers snap).

(** [geth:consensus/clique/api.go] API.GetSignersAtHash *)
Definition GetSignersAtHash (chain : ChainHeaderReader) (hash : Hash) : StM Clique (list Address) :=
  snap ← GetSnapshotAtHash chain hash; mret (signers snap).

End Clique.
