(* ===== verification/CliqueSeal.v ===== *)
(** * What a Clique seal signs

    The bytes [CliqueRLP] hands to the signer determine every field of the
    header except the seal itself (consensus/clique/clique.go,
    [encodeSigHeader]); a nil big integer is signed as zero. *)

From S2P Require Import Prelude BigEndian Rlp RlpSpec EthTypes CliqueSnapshot Clique.

(** The fields under the seal, nil integers read as zero. *)
Definition signed_part (h : Header) :
    list bytes * (Z * Z * Z * Z * Z) * option Z :=
  ([ParentHash h; UncleHash h; Coinbase h; Root h; TxHash h; ReceiptHash h; Bloom h;
    take (length (Extra h) - extraSeal) (Extra h); MixDigest h; Nonce h],
   (default 0 (Difficulty h), default 0 (Number h), GasLimit h, GasUsed h, Time h),
   BaseFee h).

(** The strings of the encoded list. *)
Definition big_bytes (p : option Z) : bytes := be_bytes (default 0 p).

Definition sig_strings (h : Header) : list bytes :=
  [ParentHash h; UncleHash h; Coinbase h; Root h; TxHash h; ReceiptHash h; Bloom h;
   big_bytes (Difficulty h); big_bytes (Number h);
   be_bytes (GasLimit h); be_bytes (GasUsed h); be_bytes (Time h);
   take (length (Extra h) - extraSeal) (Extra h); MixDigest h; Nonce h] ++
  match BaseFee h with
  | Some _ => [big_bytes (BaseFee h)]
  | None => []
  end.

(** Machine integers in range, and an encoding that fits an address space. *)
Definition encodable (h : Header) : Prop :=
  is_u64 (GasLimit h) /\ is_u64 (GasUsed h) /\ is_u64 (Time h) /\
  Z.of_nat (length (rlp (Lst (Str <$> sig_strings h)))) < two64.

Definition nonneg (p : option Z) : Prop := 0 <= default 0 p.

Lemma rlp_val_big p b : rlp_val (RBigPtr p) = Ok b -> nonneg p /\ b = rlp_str (big_bytes p).
Proof.
  destruct p as [i|]; cbn; [|by intros [= <-]]. unfold rlp_big, nonneg, big_bytes. cbn.
  destruct (Z.ltb_spec i 0); [done|]. by intros [= <-].
Qed.

Definition encodes (v : rval) (s : bytes) : Prop := forall b, rlp_val v = Ok b -> b = rlp_str s.

Lemma encodes_seq vs ss p :
  Forall2 encodes vs ss ->
  seq_outcome (map rlp_val ((fun x => RIface (Some x)) <$> vs)) = Ok p ->
  p = concat (map rlp (Str <$> ss)) /\ Forall (fun v => exists b, rlp_val v = Ok b) vs.
Proof.
  intros H. revert p. induction H as [|v s vs ss Hv _ IH]; intros p Hp.
  { by injection Hp as <-. }
  cbn in Hp. apply bind_Ok in Hp as (b & Hb & Hp). apply bind_Ok in Hp as (c & Hc & [= <-]).
  destruct (IH c Hc) as [-> Hall]. rewrite (Hv b Hb). split; [done|]. constructor; eauto.
Qed.

Lemma encodes_sig h : Forall2 encodes (sig_enc h) (sig_strings h).
Proof.
  assert (forall p, encodes (RBigPtr p) (big_bytes p)) as Hbig.
  { intros p b Hb. by apply rlp_val_big in Hb as [_ ->]. }
  assert (forall b, encodes (RByteArray b) b) as Harr by (by intros b c [= <-]).
  assert (forall i, encodes (RUint i) (be_bytes i)) as Hint by (by intros b c [= <-]).
  apply Forall2_app; [repeat constructor; try done; by intros c [= <-]|].
  destruct (BaseFee h); by repeat constructor.
Qed.

Lemma uints_ok_sig h :
  encodable h -> uints_ok (RSlice ((fun x => RIface (Some x)) <$> sig_enc h)).
Proof.
  intros (H1 & H2 & H3 & _). cbn. split_and!; try done. by destruct (BaseFee h).
Qed.

Lemma CliqueRLP_Ok `{EthCrypto} h b :
  encodable h -> CliqueRLP h = Ok b ->
  b = rlp (Lst (Str <$> sig_strings h)) /\
  nonneg (Difficulty h) /\ nonneg (Number h) /\ nonneg (BaseFee h).
Proof.
  intros He Hb. unfold CliqueRLP, encodeSigHeader in Hb. case_match; [done|].
  apply or_panic_Ok in Hb. set (v := RSlice _) in Hb.
  assert (forall c, rlp_val v = Ok c ->
    c = rlp (Lst (Str <$> sig_strings h)) /\ Forall (fun v => exists b, rlp_val v = Ok b) (sig_enc h)) as Hv.
  { intros c Hc. unfold v in Hc. cbn [rlp_val] in Hc. apply bind_Ok in Hc as (p & Hp & [= <-]).
    destruct (encodes_seq _ _ p (encodes_sig h) Hp) as [-> Hall]. done. }
  destruct (EncodeToBytes_spec v (uints_ok_sig h He)) as [_ E].
  { intros c Hc. apply Hv in Hc as [-> _]. apply He. }
  rewrite E in Hb. apply Hv in Hb as [-> Hall]. split; [done|].
  assert (forall p, RBigPtr p ∈ sig_enc h -> nonneg p) as Hn.
  { intros p Hp. rewrite Forall_forall in Hall. destruct (Hall _ Hp) as [c Hc].
    by apply rlp_val_big in Hc as [? _]. }
  split_and!.
  - apply Hn. unfold sig_enc. set_solver.
  - apply Hn. unfold sig_enc. set_solver.
  - destruct (BaseFee h) as [f|] eqn:Ef; [|done]. rewrite <- Ef. apply Hn. unfold sig_enc.
    rewrite Ef. apply elem_of_app. right. by left.
Qed.

Lemma big_bytes_inj p q : nonneg p -> nonneg q -> big_bytes p = big_bytes q -> default 0 p = default 0 q.
Proof.
  unfold nonneg, big_bytes. intros Hp Hq E. apply (f_equal be_val) in E.
  by rewrite !be_val_be_bytes in E.
Qed.

Lemma be_bytes_inj a b : is_u64 a -> is_u64 b -> be_bytes a = be_bytes b -> a = b.
Proof.
  intros [Ha _] [Hb _] E. apply (f_equal be_val) in E. by rewrite !be_val_be_bytes in E.
Qed.

(** The seal covers the header: two headers with the same bytes to sign agree
    on every field except the seal at the end of the extra-data (with nil
    difficulties and numbers counting as zero), so a seal is valid for exactly
    one header body. *)
Theorem seal_covers_header `{EthCrypto} h h' b :
  encodable h -> encodable h' -> CliqueRLP h = Ok b -> CliqueRLP h' = Ok b ->
  signed_part h = signed_part h'.
Proof.
  intros He He' Hb Hb'.
  destruct (CliqueRLP_Ok h b He Hb) as (E & Hd & Hn & Hf).
  destruct (CliqueRLP_Ok h' b He' Hb') as (E' & Hd' & Hn' & Hf').
  assert (sig_strings h = sig_strings h') as Es.
  { assert (Inj (=) (=) Str) by (by intros ?? [= ->]).
    assert (Inj (=) (=) Lst) by (by intros ?? [= ->]).
    apply (inj (fmap Str)), (inj Lst).
    eapply (rlp_prefix_free _ _ [] []); rewrite !app_nil_r; [congruence|apply He]. }
  destruct He as (? & ? & ? & _), He' as (? & ? & ? & _).
  unfold sig_strings in Es. cbn [app] in Es.
  injection Es as P1 P2 P3 P4 P5 P6 P7 E1 E2 E3 E4 E5 E6 P8 P9 E7.
  apply big_bytes_inj in E1, E2; [|done..]. apply be_bytes_inj in E3, E4, E5; [|done..].
  unfold signed_part. rewrite P1, P2, P3, P4, P5, P6, P7, P8, P9, E1, E2, E3, E4, E5, E6. f_equal.
  destruct (BaseFee h) as [f|], (BaseFee h') as [f'|]; try done.
  injection E7 as E7. apply big_bytes_inj in E7; [|done..]. cbn in E7. by subst.
Qed.
