(* ===== verification/CliqueEngine.v ===== *)
(** * Correctness of the Clique engine

    The signature cache is transparent, the snapshots the engine retrieves are
    the replay of the chain from a trusted starting point however they were
    cached, and a verified header is one the voting rules accept. *)

From S2P Require Import Prelude Rlp EthTypes CliqueSnapshot CliqueRotation Clique.

Section Engine.
Context {Crypto : EthCrypto} {Env : CliqueEnv} {EnvOk : CliqueEnvOk Env}.

(** The headers in play, among which the header hash has no collision. *)
Context (known : Header -> Prop).
Hypothesis known_inj :
  forall h h', known h -> known h' -> header_hash h = header_hash h' -> h = h'.

Context (config : CliqueConfig) (chain : ChainHeaderReader).

(** The chain returns the header with the hash and number it is asked for. *)
Hypothesis GetHeader_ok : forall hash number h,
  GetHeader chain hash number = Some h ->
  known h /\ header_hash h = hash /\ number_of h = Ok number.

Hypothesis GetHeaderByNumber_ok : forall number h,
  GetHeaderByNumber chain number = Some h -> known h /\ number_of h = Ok number.

(** Block numbers do not reach the last 64-bit value. *)
Hypothesis known_small : forall h n, known h -> number_of h = Ok n -> n + 1 < two64.

(** Headers linked by their parent hashes, from block [k] to block [k']. *)
Fixpoint linked (k : Hash) (hs : list Header) (k' : Hash) : Prop :=
  match hs with
  | [] => k = k'
  | h :: rest => ParentHash h = k /\ known h /\ linked (header_hash h) rest k'
  end.

(** More known headers than may be reorganised follow height [n]. *)
Definition immutable (n : Z) : Prop :=
  exists h m hs top, number_of h = Ok m /\ n = m -u 1 /\ linked (ParentHash h) (h :: hs) top /\
    FullImmutabilityThreshold < Z.of_nat (length (h :: hs)).

(** A height at which the chain's own header is trusted without replaying what
    came before: the genesis, or an epoch checkpoint whose parent the chain does
    not have or on which more headers than may be reorganised are piled up. *)
Definition trusted_height (n : Z) : Prop :=
  n = 0 \/
  (n mod Epoch config = 0 /\ (GetHeaderByNumber chain (n -u 1) = None \/ immutable n)).

(** ** The signature cache *)

Definition sig_ok (c : Clique) : Prop :=
  forall h a, known h -> arc_contents (c_signatures c) !! header_hash h = Some a -> recover h = Ok a.

Lemma ecrecover_spec h c :
  sig_ok c -> known h ->
  (ecrecover h c).1 = recover h /\ sig_ok (ecrecover h c).2 /\
  exists sigs, (ecrecover h c).2 = with_signatures sigs c.
Proof.
  intros Hc Hk. unfold ecrecover.
  pose proof (arc_Get_contents _ (c_signatures c) (header_hash h)) as Hget.
  pose proof (arc_Get_keeps _ (c_signatures c) (header_hash h)) as Hkeep.
  destruct (arc_Get (c_signatures c) (header_hash h)) as [[a|] sigs]; cbn in *.
  - split; [symmetry; by apply Hc|]. split; [|by exists sigs].
    intros h' a' Hk' Ha'. cbn in Ha'. rewrite Hkeep in Ha'. by apply Hc.
  - destruct (recover h) as [a| |] eqn:Er; cbn.
    + split; [done|]. split; [|by eexists]. intros h' a' Hk' Ha'. cbn in Ha'.
      apply arc_Add_contents in Ha' as [[Eh ->]|Ha'].
      * by rewrite (known_inj h' h Hk' Hk Eh).
      * rewrite Hkeep in Ha'. by apply Hc.
    + split; [done|]. split; [|by eexists].
      intros h' a' Hk' Ha'. cbn in Ha'. rewrite Hkeep in Ha'. by apply Hc.
    + split; [done|]. split; [|by eexists].
      intros h' a' Hk' Ha'. cbn in Ha'. rewrite Hkeep in Ha'. by apply Hc.
Qed.

(** The signature cache is transparent: as long as it only holds recovered
    signers of headers whose hashes do not collide, looking a signer up gives
    exactly what recovering it from the seal gives, errors included, and the
    cache stays that way. *)
Theorem ecrecover_transparent h c :
  sig_ok c -> known h -> (ecrecover h c).1 = recover h /\ sig_ok (ecrecover h c).2.
Proof. intros Hc Hk. destruct (ecrecover_spec h c Hc Hk) as (H1 & H2 & _). done. Qed.

(** ** Snapshots along the chain *)

(** [s] is the voting state at a trusted height: the signers its header lists. *)
Definition anchored (n : Z) (s : Snapshot) : Prop :=
  exists ck sg, GetHeaderByNumber chain n = Some ck /\ trusted_height n /\
    checkpoint_signers (Extra ck) = Ok sg /\ s = newSnapshot n (header_hash ck) sg.

(** [snap_of hash s]: [s] is the voting state after the header with this hash,
    replayed from a trusted height.  The engine finds the header of a trusted
    height by its number: a header that follows that height on another branch is
    replayed on top of the signers of the chain's own header too. *)
Inductive snap_of : Hash -> Snapshot -> Prop :=
| snap_start n s :
    anchored n s -> snap_of (s_Hash s) s
| snap_step h s s' :
    snap_of (ParentHash h) s -> known h ->
    apply recover header_hash config s [h] = Ok s' ->
    snap_of (header_hash h) s'
| snap_branch h n s s' :
    anchored n s -> known h ->
    apply recover header_hash config s [h] = Ok s' ->
    snap_of (header_hash h) s'.

(** The voting state the engine uses for the block with this number and hash. *)
Definition snap_at (number : Z) (hash : Hash) (s : Snapshot) : Prop := snap_of hash s \/ anchored number s.

Lemma snap_at_of number hash s : snap_at number hash s -> exists k, snap_of k s.
Proof. intros [H|H]; eexists; [exact H|by eapply snap_start]. Qed.

Lemma snap_apply number h s s' :
  snap_at number (ParentHash h) s -> known h -> apply recover header_hash config s [h] = Ok s' ->
  snap_of (header_hash h) s'.
Proof. intros [H|H] Hk Ha; [by eapply snap_step|by eapply snap_branch]. Qed.

Lemma snap_of_hash k s : snap_of k s -> s_Hash s = k.
Proof.
  intros [|h s0 s' _ _ Ha|h n s0 s' _ _ Ha]; [done|..];
    (apply apply_numbered in Ha as [[? _]|(hl & snap & Hl & _ & _ & ->)]; [done|]; by injection Hl as <-).
Qed.

Lemma apply_keeps_inv s h s' :
  snap_inv s -> apply recover header_hash config s [h] = Ok s' -> snap_inv s'.
Proof.
  intros Hs Ha. apply apply_numbered in Ha as [[? _]|(hl & snap & _ & _ & Ha & ->)]; [done|].
  apply snap_inv_number. by eapply apply_headers_inv.
Qed.

Lemma anchored_inv n s : anchored n s -> snap_inv s.
Proof. intros (ck & sg & _ & _ & _ & ->). apply newSnapshot_inv. Qed.

Lemma snap_of_inv k s : snap_of k s -> snap_inv s.
Proof.
  induction 1 as [n s Hs|h s s' _ IH _ Ha|h n s s' Hs _ Ha];
    eauto using anchored_inv, apply_keeps_inv.
Qed.

Lemma apply_cons s h hs s' :
  apply recover header_hash config s (h :: hs) = Ok s' <->
  exists s1, apply recover header_hash config s [h] = Ok s1 /\ apply recover header_hash config s1 hs = Ok s'.
Proof. exact (apply_split recover header_hash config s [h] hs s'). Qed.

Lemma snap_of_replay k hs k' s s' :
  snap_of k s -> linked k hs k' -> apply recover header_hash config s hs = Ok s' -> snap_of k' s'.
Proof.
  revert k s. induction hs as [|h hs IH]; intros k s Hs Hl Ha; cbn in Hl.
  - subst. by injection Ha as <-.
  - destruct Hl as (<- & Hk & Hl). apply apply_cons in Ha as (s1 & H1 & H2).
    eapply (IH (header_hash h)); [|exact Hl|exact H2]. by eapply snap_step.
Qed.

(** Replaying on top of a trusted height. *)
Lemma anchored_replay n k h hs k' s s' :
  anchored n s -> linked k (h :: hs) k' -> apply recover header_hash config s (h :: hs) = Ok s' -> snap_of k' s'.
Proof.
  intros Hs (_ & Hk & Hl) Ha. apply apply_cons in Ha as (s1 & H1 & H2).
  eapply snap_of_replay; [|exact Hl|exact H2]. by eapply snap_branch.
Qed.

(** ** The engine's state *)

Record clique_ok (c : Clique) : Prop := {
  ok_config : c_config c = config;
  ok_sigs : sig_ok c;
  ok_recents : forall k s, arc_contents (c_recents c) !! k = Some s -> snap_of k s;
  ok_db : forall k s, loadSnapshot (c_db c) k = Ok s -> snap_of k s;
}.

Lemma clique_ok_signatures c sigs :
  clique_ok c -> sig_ok (with_signatures sigs c) -> clique_ok (with_signatures sigs c).
Proof. intros [? ? ? ?] Hs. by split. Qed.

Lemma ecrecover_keeps h : known h -> keeps clique_ok (ecrecover h) (fun a => recover h = Ok a).
Proof.
  intros Hk c Hc. destruct (ecrecover_spec h c (ok_sigs c Hc) Hk) as (E & Hs & sigs & E2).
  rewrite E. split; [|done]. rewrite E2 in *. by apply clique_ok_signatures.
Qed.

Lemma store_keeps s : snap_of (s_Hash s) s -> keeps clique_ok (store s) (fun _ => True).
Proof.
  intros Hs c Hc. split; [|done]. unfold store.
  destruct (json_Marshal s) as [blob| |] eqn:Em; [|done..].
  destruct (kv_Put _ _ _) as [d| |] eqn:Ep; [|done..]. cbn.
  destruct Hc as [H1 H2 H3 H4]. split; cbn; [done|done|done|].
  intros k s' Hl. unfold loadSnapshot in Hl. apply bind_Ok in Hl as (b & Hg & Hu).
  rewrite (kv_Get_Put _ _ _ _ _ Ep) in Hg. case_decide as Ek.
  - injection Hg as <-. rewrite (json_roundtrip _ _ _ Em Hu). unfold snapshot_key in Ek.
    apply (inj (app _)) in Ek as ->. done.
  - apply H4. unfold loadSnapshot. by rewrite Hg.
Qed.

(** The cached loop is the pure one. *)
Lemma apply_headers_c_keeps hs s :
  Forall known hs ->
  keeps clique_ok (apply_headers_c s hs) (fun s' => apply_headers recover config s hs = Ok s').
Proof.
  revert s. induction hs as [|h hs IH]; intros s Hks; [by apply keeps_ret|].
  apply Forall_cons in Hks as [Hk Hks]. cbn [apply_headers_c].
  eapply (keeps_bind _ _ _ (fun s1 => apply_header recover config s h = Ok s1)).
  - intros c Hc. unfold apply_header_c.
    destruct (ecrecover_keeps h Hk c Hc) as [Hc' _].
    destruct (ecrecover_spec h c (ok_sigs c Hc) Hk) as (E & _).
    destruct (ecrecover h c) as [r c']. cbn in *. subst r. split; [done|].
    intros s1. rewrite (ok_config c Hc). unfold apply_header. done.
  - intros s1 Hs1. eapply keeps_weaken; [by apply IH|]. intros s2 Hs2. cbn. by rewrite Hs1.
Qed.

Lemma apply_c_keeps hs s :
  Forall known hs ->
  keeps clique_ok (apply_c s hs) (fun s' => apply recover header_hash config s hs = Ok s').
Proof.
  intros Hks. destruct hs as [|h0 hs]; [by apply keeps_ret|]. unfold apply_c, apply.
  eapply keeps_bind; [apply keeps_pure; intros ? E; exact E|]. intros ? ->.
  eapply keeps_bind; [apply keeps_pure; intros ? E; exact E|]. intros ? ->.
  eapply keeps_bind; [apply keeps_pure; intros ? E; exact E|]. intros ? E.
  cbn [mbind outcome_bind]. rewrite E. cbn [mbind outcome_bind].
  eapply keeps_bind; [by apply apply_headers_c_keeps|]. intros s1 Hs1. apply keeps_ret.
  rewrite Hs1. done.
Qed.

Lemma cached_snapshot_keeps number hash :
  keeps clique_ok (cached_snapshot number hash) (fun o => forall s, o = Some s -> snap_of hash s).
Proof.
  intros c Hc. unfold cached_snapshot.
  pose proof (arc_Get_contents _ (c_recents c) hash) as Hget.
  pose proof (arc_Get_keeps _ (c_recents c) hash) as Hkeep.
  destruct (arc_Get (c_recents c) hash) as [o r]; cbn in *.
  assert (clique_ok (with_recents r c)) as Hc'.
  { destruct Hc as [H1 H2 H3 H4]. split; cbn; [done|done| |done]. by rewrite Hkeep. }
  destruct o as [s|].
  - split; [done|]. intros a [= <-] s' [= <-]. by apply (ok_recents c Hc).
  - case_match; [|split; [done|]; by intros a [= <-]].
    destruct (loadSnapshot _ _) as [s| |] eqn:El; cbn; (split; [done|]); [| |done].
    + intros a [= <-] s' [= <-]. by apply (ok_db c Hc).
    + by intros a [= <-].
Qed.

Lemma linked_snoc k hs h k' :
  linked k hs (ParentHash h) -> known h -> header_hash h = k' -> linked k (hs ++ [h]) k'.
Proof.
  revert k. induction hs as [|x hs IH]; intros k Hl Hk E; cbn in *; [by subst|].
  destruct Hl as (? & ? & Hl). split_and!; [done|done|]. by apply IH.
Qed.

Lemma linked_known k hs k' : linked k hs k' -> Forall known hs.
Proof.
  revert k. induction hs as [|h hs IH]; intros k Hl; [done|]. destruct Hl as (_ & Hk & Hl).
  constructor; [done|]. by eapply IH.
Qed.

Lemma previous_header_Ok number hash parents h parents' :
  Forall known parents -> previous_header chain number hash parents = Ok (h, parents') ->
  known h /\ header_hash h = hash /\ number_of h = Ok number /\ Forall known parents'.
Proof.
  intros Hks H. unfold previous_header in H. destruct (last parents) as [p|] eqn:El.
  - apply last_Some in El as [l ->]. rewrite removelast_last in H. apply Forall_app in Hks as [Hl Hp].
    apply Forall_cons in Hp as [Hp _]. case_bool_decide as Eh; [|done]. cbn [negb] in H.
    apply bind_Ok in H as (n & Hn & H). destruct (Z.eqb_spec n number) as [->|]; [|done].
    injection H as <- <-. by split_and!.
  - apply bind_Ok in H as (h' & Hg%ok_or_Ok & H). injection H as <- <-.
    apply GetHeader_ok in Hg as (? & ? & ?). by split_and!.
Qed.

(** What has been collected on the way back to the block with this number and
    hash: linked known headers on top of it. *)
Definition collected (number : Z) (hash : Hash) (headers : list Header) : Prop :=
  headers = [] \/
  exists h m hs top, reverse headers = h :: hs /\ number_of h = Ok m /\ number = m -u 1 /\ ParentHash h = hash /\
    linked hash (h :: hs) top.

Lemma collected_next number hash headers h :
  collected number hash headers -> known h -> header_hash h = hash -> number_of h = Ok number ->
  collected (number -u 1) (ParentHash h) (headers ++ [h]).
Proof.
  intros Hc Hk <- Hn. right. destruct Hc as [->|(h' & m & hs & top & E & _ & _ & Hp & Hl)].
  - exists h, number, [], (header_hash h). by split_and!.
  - exists h, number, (h' :: hs), top. rewrite reverse_app, reverse_singleton, E.
    do 4 (split; [done|]). by split.
Qed.

Lemma collected_immutable number hash headers :
  collected number hash headers -> FullImmutabilityThreshold < Z.of_nat (length headers) -> immutable number.
Proof.
  intros [->|(h & m & hs & top & E & Hm & Hn & Hp & Hl)] Hlen; [by cbn in Hlen|].
  exists h, m, hs, top. rewrite Hp. do 3 (split; [done|]).
  by rewrite <- E, length_reverse.
Qed.

Lemma trusted_start_height number hash headers c :
  clique_ok c -> collected number hash headers ->
  trusted_start chain number (length headers) c = Ok true -> trusted_height number.
Proof.
  intros Hc Hcol H. unfold trusted_start in H. destruct (Z.eqb_spec number 0); [by left|].
  apply bind_Ok in H as (m & Hm & H). unfold mod_epoch in Hm. rewrite (ok_config c Hc) in Hm.
  destruct (Epoch config =? 0); [done|]. injection Hm as <-. injection H as H.
  apply andb_true_iff in H as [H1 H2]. right. split; [by apply Z.eqb_eq|].
  apply orb_true_iff in H2 as [H2|H2]; [right|left; by case_match].
  eapply collected_immutable; [exact Hcol|]. by apply Z.ltb_lt.
Qed.

Lemma checkpoint_snapshot_keeps number ck :
  GetHeaderByNumber chain number = Some ck -> trusted_height number ->
  keeps clique_ok (checkpoint_snapshot number ck) (anchored number).
Proof.
  intros Hg Hh. unfold checkpoint_snapshot.
  eapply keeps_bind; [apply keeps_pure; intros sg E; exact E|]. intros sg Esg.
  assert (anchored number (newSnapshot number (header_hash ck) sg)) as Ha by (by exists ck, sg).
  eapply keeps_bind; [by eapply store_keeps, snap_start|]. intros _ _. by apply keeps_ret.
Qed.

(** What the walk back ends with: the headers that are still to be replayed, and
    a cached state or a trusted height below them. *)
Definition found (number : Z) (hash : Hash) (new : list Header) (s : Snapshot) : Prop :=
  exists k, linked k (reverse new) hash /\ (snap_of k s \/ exists n, anchored n s /\ (new = [] -> n = number)).

Lemma find_snapshot_keeps fuel number hash parents headers :
  Forall known parents -> collected number hash headers ->
  keeps clique_ok (find_snapshot fuel chain number hash parents headers)
    (fun r => exists new, r.2 = headers ++ new /\ found number hash new r.1).
Proof.
  revert number hash parents headers.
  induction fuel as [|fuel IH]; intros number hash parents headers Hks Hcol; [by apply keeps_pure|].
  cbn [find_snapshot]. eapply keeps_bind; [apply cached_snapshot_keeps|]. intros [s|] Hs.
  { apply keeps_ret. exists []. rewrite app_nil_r. split; [done|]. exists hash. split; [done|]. left. by apply Hs. }
  eapply (keeps_bind _ _ _ (fun b : bool => b = true -> trusted_height number)).
  { apply keeps_ask. intros c b Hc Hb ->. by eapply trusted_start_height. }
  intros b Hb. destruct (if b then GetHeaderByNumber chain number else None) as [ck|] eqn:Eck.
  - destruct b; [|done]. specialize (Hb eq_refl).
    eapply keeps_bind; [by apply checkpoint_snapshot_keeps|]. intros s Hsnap. apply keeps_ret.
    exists []. rewrite app_nil_r. split; [done|]. exists hash. split; [done|]. right. by exists number.
  - eapply keeps_bind; [apply keeps_pure; intros r E; exact E|]. intros [h parents'] E.
    destruct (previous_header_Ok _ _ _ _ _ Hks E) as (Hk & Eh & En & Hks').
    eapply keeps_weaken; [apply IH; [done|by eapply collected_next]|].
    intros [s hs] (new & E1 & k & Hl & Hsnap). cbn in *. exists (h :: new). rewrite E1, <- app_assoc.
    split; [done|]. exists k. rewrite reverse_cons. split; [by apply linked_snoc|].
    destruct Hsnap as [?|(n & ? & _)]; [by left|right; by exists n].
Qed.

Lemma snapshot_keeps number hash parents :
  Forall known parents ->
  keeps clique_ok (snapshot chain number hash parents) (snap_at number hash).
Proof.
  intros Hks. unfold snapshot.
  eapply keeps_bind; [by apply find_snapshot_keeps; [|left]|].
  intros [s hs] (new & E1 & k & Hl & Hs). cbn in E1. subst hs. cbn [fst] in Hs.
  eapply keeps_bind; [apply apply_c_keeps; by eapply linked_known|]. intros s' Hs'.
  assert (snap_at number hash s') as Hsn.
  { destruct Hs as [Hs|(n & Hs & Hn)]; [left; by eapply snap_of_replay|].
    destruct (reverse new) as [|h hs] eqn:E; [|left; by eapply anchored_replay].
    right. injection Hs' as <-. apply (f_equal reverse) in E. rewrite reverse_involutive in E.
    by rewrite <- (Hn E). }
  assert (snap_of (s_Hash s') s') as Hsn'.
  { destruct Hsn as [H|H]; [by rewrite (snap_of_hash hash s' H)|by eapply snap_start]. }
  eapply (keeps_bind _ _ _ (fun _ => True)).
  { intros c Hc. split; [|done]. destruct Hc as [H1 H2 H3 H4]. split; cbn; [done|done| |done].
    intros k0 s0 [[-> ->]|Hadd]%arc_Add_contents; [done|by apply H3]. }
  intros _ _. eapply (keeps_bind _ _ _ (fun _ => True)).
  { case_match; [by apply store_keeps|by apply keeps_ret]. }
  intros _ _. by apply keeps_ret.
Qed.

(** C10. Snapshots are the replay of the chain: whatever mix of in-memory
    snapshots, disk checkpoints, explicit parents and headers of the chain the
    engine assembles the snapshot of a block from, it is the voting state obtained
    by applying every header up to that block, one after the other along their
    parent hashes, on top of the signers listed by the chain's own header at a
    trusted height; or, if nothing was applied, those signers at the block's own
    height.  A height is trusted only if it is the genesis, or an epoch checkpoint
    whose parent the chain does not have or that more known linked headers follow
    than may be reorganised.  Forks are allowed anywhere; no header need be on the
    canonical chain.  Errors leave the engine's caches and database with that
    property too.  (Assumed: no two headers in play have the same hash, and the
    chain returns headers with the hash and number it was asked for.) *)
Theorem snapshot_sound number hash parents c :
  clique_ok c -> Forall known parents ->
  let '(r, c') := snapshot chain number hash parents c in
  clique_ok c' /\
  forall s, r = Ok s ->
    snap_inv s /\
    ((snap_of hash s /\ s_Hash s = hash) \/
     (trusted_height number /\ exists ck sg, GetHeaderByNumber chain number = Some ck /\
        checkpoint_signers (Extra ck) = Ok sg /\ s = newSnapshot number (header_hash ck) sg)).
Proof.
  intros Hc Hks. pose proof (snapshot_keeps number hash parents Hks c Hc) as [H1 H2].
  destruct (snapshot chain number hash parents c) as [r c']. split; [done|].
  intros s ->. specialize (H2 s eq_refl). destruct (snap_at_of _ _ _ H2) as [k Hk].
  split; [by eapply snap_of_inv|]. destruct H2 as [H2|(ck & sg & ? & ? & ? & ->)].
  - left. split; [done|by apply snap_of_hash].
  - right. split; [done|]. by exists ck, sg.
Qed.

(** ** The loop back terminates *)

Lemma find_snapshot_fuel fuel extra number hash parents headers c :
  is_Some (GetHeaderByNumber chain 0) -> 0 <= number < two64 -> (Z.to_nat number < fuel)%nat ->
  find_snapshot (fuel + extra) chain number hash parents headers c =
  find_snapshot fuel chain number hash parents headers c.
Proof.
  intros [g Hg]. revert number hash parents headers c.
  induction fuel as [|fuel IH]; intros number hash parents headers c Hn Hf; [lia|].
  cbn [Nat.add find_snapshot]. apply StM_bind_ext. intros found c1 _.
  destruct found as [s|]; [done|]. apply StM_bind_ext. intros b c2 Hb.
  destruct (Z.eqb_spec number 0) as [->|Hz].
  - apply askS_Ok in Hb as [[= <-] _]. by rewrite Hg.
  - destruct (if b then GetHeaderByNumber chain number else None) as [ck|]; [done|].
    apply StM_bind_ext. intros [h ps] c3 _. rewrite u64_sub_small by lia. apply IH; lia.
Qed.

(** C37. Retrieving a snapshot terminates: on a chain that has a genesis block the
    walk back from block [number] needs at most [number + 1] passes, so the
    bound used is never the reason for an outcome. *)
Theorem snapshot_terminates extra number hash parents c :
  is_Some (GetHeaderByNumber chain 0) -> is_u64 number ->
  find_snapshot (S (Z.to_nat number) + extra) chain number hash parents [] c =
  find_snapshot (S (Z.to_nat number)) chain number hash parents [] c.
Proof. intros Hg Hn. apply find_snapshot_fuel; [done|exact Hn|lia]. Qed.

(** ** Numbers and windows of the chain's snapshots *)

Lemma snap_of_number k s :
  snap_of k s -> exists h, known h /\ header_hash h = k /\ number_of h = Ok (s_Number s).
Proof.
  intros [n s0 (ck & sg & Hg & _ & _ & ->)|h s0 s' _ Hk Ha|h n s0 s' _ Hk Ha].
  1: { destruct (GetHeaderByNumber_ok n ck Hg) as [Hk Hn]. by exists ck. }
  all: exists h; (split_and!; [done|done|]);
    apply apply_numbered in Ha as [[? _]|(hl & snap & _ & Hnum & _ & ->)]; [done|];
    by apply numbered_cons in Hnum as [Hn _].
Qed.

Lemma snap_of_number_range k s : snap_of k s -> 0 <= s_Number s /\ s_Number s + 1 < two64.
Proof.
  intros (h & Hk & _ & Hn)%snap_of_number. split; [|by eapply known_small].
  by apply number_of_range in Hn as [? _].
Qed.

Lemma anchored_window n s : anchored n s -> recents_window (s_Number s) s.
Proof. intros (ck & sg & _ & _ & _ & ->) i a Hi. cbn in Hi. by rewrite lookup_empty in Hi. Qed.

Lemma apply_window k s h s' :
  snap_of k s -> recents_window (s_Number s) s -> apply recover header_hash config s [h] = Ok s' ->
  recents_window (s_Number s') s'.
Proof.
  intros Hs Hw Ha. apply apply_numbered in Ha as [[? _]|(hl & snap & _ & Hnum & Ha & ->)]; [done|].
  destruct (snap_of_number_range _ _ Hs) as [H0 H1]. cbn [length] in *.
  cbn [s_Number set_number]. rewrite u64_add_small by lia.
  exact (apply_headers_window recover config [h] (s_Number s) s snap
           (snap_of_inv _ _ Hs) Hw H0 H1 Hnum Ha).
Qed.

Lemma snap_of_window k s : snap_of k s -> recents_window (s_Number s) s.
Proof.
  induction 1 as [n s Hs|h s s' Hs IH _ Ha|h n s s' Hs _ Ha]; [by eapply anchored_window|..].
  - by eapply apply_window.
  - eapply (apply_window (s_Hash s)); [by eapply snap_start|by eapply anchored_window|done].
Qed.

(** ** The recent-signer checks of verification, sealing and voting *)

Definition free_to_seal (snap : Snapshot) (number : Z) (signer : Address) : Prop :=
  signer ∉ (map_to_list (Recents (shift_recents number snap))).*2.

Lemma free_to_seal_alt snap number signer :
  is_u64 number ->
  free_to_seal snap number signer <->
  forall k, Recents snap !! k = Some signer -> k = number - signers_limit snap /\ 0 <= k.
Proof.
  intros Hn. unfold free_to_seal. rewrite list_elem_of_fmap. split.
  - intros Hno k Hk. destruct (decide (k = number - signers_limit snap /\ 0 <= k)) as [|Hne]; [done|].
    destruct Hno. exists (k, signer). split; [done|]. apply elem_of_map_to_list.
    rewrite shift_recents_lookup by done. by rewrite bool_decide_false.
  - intros Hall ([k a] & -> & Hk%elem_of_map_to_list). cbn in Hall.
    rewrite shift_recents_lookup in Hk by done. case_bool_decide as Hd; [done|]. by apply Hd, Hall.
Qed.

Lemma existsb_recents (f : Z -> bool) (m : gmap Z Address) signer :
  existsb (fun p => bool_decide (p.2 = signer) && f p.1) (map_to_list m) = false <->
  forall k, m !! k = Some signer -> f k = false.
Proof.
  rewrite <- not_true_iff_false, existsb_exists. split.
  - intros Hno k Hk. destruct (f k) eqn:E; [|done]. destruct Hno. exists (k, signer).
    split; [by apply list_elem_of_In, elem_of_map_to_list|]. cbn. by rewrite bool_decide_true, E.
  - intros Hall ([k a] & Hin & H). apply list_elem_of_In, elem_of_map_to_list in Hin.
    apply andb_true_iff in H as [Ha Hf]. apply bool_decide_eq_true in Ha. cbn in *. subst a.
    by rewrite Hall in Hf.
Qed.

Lemma verify_recents_free snap number signer :
  is_u64 number -> recents_window (number - 1) snap -> signers_limit snap <= number ->
  verify_recents snap number signer = true <-> free_to_seal snap number signer.
Proof.
  intros Hn Hw Hl. rewrite free_to_seal_alt by done. unfold verify_recents.
  rewrite negb_true_iff, (existsb_recents (fun k => number -u signers_limit snap <? k)).
  pose proof (signers_limit_pos snap). unfold is_u64 in Hn. rewrite u64_sub_small by lia.
  split; intros H' k Hk; specialize (H' k Hk); pose proof (Hw k signer Hk); lia.
Qed.

Lemma seal_recents_free snap number signer :
  is_u64 number -> recents_window (number - 1) snap ->
  seal_recents snap number signer = true <-> free_to_seal snap number signer.
Proof.
  intros Hn Hw. rewrite free_to_seal_alt by done. unfold seal_recents.
  rewrite negb_true_iff,
    (existsb_recents (fun k => (number <? signers_limit snap) || (number -u signers_limit snap <? k))).
  pose proof (signers_limit_pos snap). unfold is_u64 in Hn.
  destruct (Z.ltb_spec number (signers_limit snap)) as [Hlt|Hge]; cbn [orb].
  - split; intros H' k Hk; specialize (H' k Hk); [done|]. lia.
  - rewrite u64_sub_small by lia.
    split; intros H' k Hk; specialize (H' k Hk); pose proof (Hw k signer Hk); lia.
Qed.

(** The two early checks against the voting rule: the sealer's own check
    ([Seal]) lets it sign exactly when the voting state will accept its block,
    at every height; the verifier's check ([verifySeal]) does so from the height
    at which a full window of blocks exists. *)
Theorem recent_checks_agree k snap number signer :
  snap_of k snap -> number = s_Number snap + 1 ->
  (seal_recents snap number signer = true <-> free_to_seal snap number signer) /\
  (signers_limit snap <= number ->
   verify_recents snap number signer = true <-> free_to_seal snap number signer).
Proof.
  intros Hs ->. destruct (snap_of_number_range k snap Hs) as [H0 H1].
  assert (is_u64 (s_Number snap + 1)) as Hu by (unfold is_u64; lia).
  assert (recents_window (s_Number snap + 1 - 1) snap) as Hw.
  { replace (s_Number snap + 1 - 1) with (s_Number snap) by lia. by eapply snap_of_window. }
  split; [by apply seal_recents_free|]. intros Hl. by apply verify_recents_free.
Qed.

(** ** Verified headers *)

(** What [verifySeal] has established about a header above the genesis. *)
Record sealed_by (h : Header) (number : Z) (snap : Snapshot) (signer : Address) : Prop := {
  sb_number : number_of h = Ok number;
  sb_positive : number <> 0;
  sb_snap : snap_at (number -u 1) (ParentHash h) snap;
  sb_signer : recover h = Ok signer;
  sb_authorized : signer ∈ Signers snap;
  sb_recents : verify_recents snap number signer = true;
}.

Lemma keeps_ensure b e : keeps clique_ok (pure (ensure b e)) (fun _ => b = true).
Proof. apply keeps_pure. intros u H'. by apply ensure_Ok in H'. Qed.

Lemma verifySeal_keeps h parents :
  known h -> Forall known parents ->
  keeps clique_ok (verifySeal chain h parents) (fun _ => exists number snap signer, sealed_by h number snap signer).
Proof.
  intros Hk Hks. unfold verifySeal.
  eapply keeps_bind; [apply keeps_pure; intros n E; exact E|]. intros number Hn.
  destruct (Z.eqb_spec number 0) as [|Hz]; [by apply keeps_pure|].
  eapply keeps_bind; [by apply snapshot_keeps|]. intros snap Hs.
  eapply keeps_bind; [by apply ecrecover_keeps|]. intros signer Hr.
  eapply keeps_bind; [apply keeps_ensure|]. intros _ Ha%bool_decide_eq_true.
  eapply keeps_bind; [apply keeps_ensure|]. intros ? Hv. cbn in Hv.
  assert (exists number snap signer, sealed_by h number snap signer) as Hres
    by (exists number, snap, signer; by split).
  eapply (keeps_bind _ _ _ (fun _ => True)); [by apply keeps_get|]. intros [] _; [by apply keeps_ret|].
  eapply (keeps_bind _ _ _ (fun _ => True)); [by apply keeps_pure|]. intros b _.
  eapply (keeps_bind _ _ _ (fun _ => True)); [by apply keeps_pure|]. intros d _.
  eapply keeps_weaken; [apply keeps_ensure|done].
Qed.

Lemma verifyCascadingFields_keeps h parents :
  known h -> Forall known parents ->
  keeps clique_ok (verifyCascadingFields chain h parents)
    (fun _ => number_of h = Ok 0 \/
       exists parent number snap signer,
         known parent /\ header_hash parent = ParentHash h /\ number_of parent = Ok (number -u 1) /\
         sealed_by h number snap signer).
Proof.
  intros Hk Hks. unfold verifyCascadingFields.
  eapply keeps_bind; [apply keeps_pure; intros n E; exact E|]. intros number Hn.
  destruct (Z.eqb_spec number 0) as [->|Hz]; [apply keeps_ret; by left|].
  eapply (keeps_bind _ _ _ known).
  { apply keeps_pure. intros p Hp%ok_or_Ok. destruct (last parents) as [q|] eqn:El.
    - injection Hp as ->. apply last_Some in El as [l ->]. apply Forall_app in Hks as [_ Hq].
      by apply Forall_cons in Hq as [? _].
    - by apply GetHeader_ok in Hp as (? & _ & _). }
  intros parent Hpk.
  eapply keeps_bind; [apply keeps_pure; intros n E; exact E|]. intros pn Hpn.
  eapply keeps_bind; [apply keeps_ensure|].
  intros _ [->%Z.eqb_eq Hph%bool_decide_eq_true]%andb_true_iff.
  eapply (keeps_bind _ _ _ (fun _ => True)); [by apply keeps_get|]. intros period _.
  eapply (keeps_bind _ _ _ (fun _ => True)); [by apply keeps_pure|]. intros _ _.
  eapply (keeps_bind _ _ _ (fun _ => True)); [by apply keeps_pure|]. intros _ _.
  eapply (keeps_bind _ _ _ (fun _ => True)).
  { case_match; [|by apply keeps_pure].
    eapply (keeps_bind _ _ _ (fun _ => True)); [by apply keeps_pure|]. intros _ _. by apply keeps_pure. }
  intros _ _.
  eapply keeps_bind; [by apply snapshot_keeps|]. intros snap0 _.
  eapply (keeps_bind _ _ _ (fun _ => True)); [by apply keeps_ask|]. intros m _.
  eapply (keeps_bind _ _ _ (fun _ => True)); [by apply keeps_pure|]. intros _ _.
  eapply keeps_weaken; [by apply verifySeal_keeps|].
  intros _ (number' & snap & signer & Hsb). right. exists parent, number', snap, signer.
  pose proof (sb_number _ _ _ _ Hsb) as Hn'. rewrite Hn in Hn'. injection Hn' as <-. done.
Qed.

Lemma verifyHeader_keeps now h parents :
  known h -> Forall known parents ->
  keeps clique_ok (verifyHeader now chain h parents)
    (fun _ => (Nonce h = nonceAuthVote \/ Nonce h = nonceDropVote) /\ Time h <= now /\
       (number_of h = Ok 0 \/
        exists parent number snap signer,
          known parent /\ header_hash parent = ParentHash h /\ number_of parent = Ok (number -u 1) /\
          sealed_by h number snap signer)).
Proof.
  intros Hk Hks. unfold verifyHeader.
  eapply (keeps_bind _ _ _ (fun _ => True)); [by apply keeps_pure|]. intros ? _.
  eapply (keeps_bind _ _ _ (fun _ => True)); [by apply keeps_pure|]. intros ? _.
  eapply keeps_bind; [apply keeps_ensure|]. intros _ Hfut%negb_true_iff%Z.ltb_ge.
  eapply (keeps_bind _ _ _ (fun _ => True)); [by apply keeps_ask|]. intros m _.
  eapply (keeps_bind _ _ _ (fun _ => True)); [by apply keeps_pure|]. intros _ _.
  eapply keeps_bind; [apply keeps_ensure|]. intros ? Hnonce. cbv beta in Hnonce.
  do 10 (eapply (keeps_bind _ _ _ (fun _ => True)); [by apply keeps_pure|]; intros _ _).
  eapply keeps_weaken; [by apply verifyCascadingFields_keeps|]. intros ? Hres. cbv beta in Hres.
  split_and!; [|done|done]. apply orb_true_iff in Hnonce as [H'|H']; apply bool_decide_eq_true in H'; auto.
Qed.

Lemma verified_snapshot_number h parent number snap :
  known parent -> header_hash parent = ParentHash h -> number_of parent = Ok (number -u 1) ->
  is_u64 number -> number <> 0 -> snap_at (number -u 1) (ParentHash h) snap -> number = s_Number snap + 1.
Proof.
  intros Hk Eh Hn Hu Hz Hs. unfold is_u64 in Hu. rewrite u64_sub_small in * by lia.
  destruct Hs as [Hs|(ck & sg & _ & _ & _ & ->)]; [|cbn; lia].
  destruct (snap_of_number _ _ Hs) as (p & Hp & Ep & Hpn).
  rewrite (known_inj p parent Hp Hk) in Hpn by congruence. rewrite Hn in Hpn. injection Hpn as Hpn. lia.
Qed.

(** C12. What verification guarantees: a header above the genesis that passes
    [verifyHeader] was sealed by a signer authorized in the voting state of its
    parent, is not from the future, and, from the height at which a full window
    of blocks exists, is accepted by the voting rules, so that the chain can go
    on from it.  The voting state of the parent is the one [snapshot] retrieves:
    the replay of the parent's ancestors from a trusted height (genesis, or an
    epoch checkpoint without a known parent or below the immutability threshold),
    or the signers of the chain's own header if the parent's height is itself
    trusted; the parent may be on any branch.  (Assumed: no two headers in play
    have the same hash, the chain returns headers with the hash and number it was
    asked for, and numbers stay below the last 64-bit value.) *)
Theorem verifyHeader_sound now h parents number c :
  clique_ok c -> known h -> Forall known parents -> number_of h = Ok number -> number <> 0 ->
  (verifyHeader now chain h parents c).1 = Ok tt ->
  Time h <= now /\
  exists snap signer,
    snap_at (number - 1) (ParentHash h) snap /\ recover h = Ok signer /\ signer ∈ Signers snap /\
    (Epoch config <> 0 -> signers_limit snap <= number ->
     exists s', apply recover header_hash config snap [h] = Ok s' /\ snap_of (header_hash h) s').
Proof.
  intros Hc Hk Hks Hn Hz Hok.
  destruct (verifyHeader_keeps now h parents Hk Hks c Hc) as [_ H].
  specialize (H tt Hok) as (Hnonce & Ht & [H0|(parent & n & snap & signer & Hpk & Eh & Hpn & Hsb)]).
  { rewrite Hn in H0. injection H0 as ->. done. }
  split; [done|]. destruct Hsb as [Hn' _ Hs Hr Ha Hv]. rewrite Hn in Hn'. injection Hn' as <-.
  pose proof (number_of_range _ _ Hn) as Hu.
  assert (number = s_Number snap + 1) as Enum by (by eapply verified_snapshot_number).
  exists snap, signer. split_and!; [|done..|].
  { unfold is_u64 in Hu. by rewrite u64_sub_small in Hs by lia. }
  intros Hep Hl. destruct (snap_at_of _ _ _ Hs) as [k Hk'].
  destruct (snap_of_number_range _ _ Hk') as [H0 H1]. pose proof (snap_of_inv _ _ Hk') as Hinv.
  assert (free_to_seal snap number signer) as Hfree.
  { apply verify_recents_free; [done| |done|done].
    replace (number - 1) with (s_Number snap) by lia. by eapply snap_of_window. }
  destruct (apply_header_accepts recover config number snap h signer) as [s1 Hs1]; try done.
  eexists. assert (apply recover header_hash config snap [h] = Ok
    (set_number (s_Number snap +u Z.of_nat 1) (header_hash h) s1)) as Happ.
  { apply apply_numbered. right. exists h, s1. split_and!; [done| |cbn; by rewrite Hs1|done].
    apply numbered_cons. split; [|apply numbered_nil]. rewrite u64_add_small by lia. by rewrite <- Enum. }
  split; [exact Happ|]. by eapply snap_apply.
Qed.

End Engine.
