(* ===== verification/CliqueMining.v ===== *)
(** * Blocks an honest signer seals

    From the engine's side of block production: a header prepared on top of the
    chain and sealed by a signer that is authorized and not blocked passes
    [verifyHeader] on every node that agrees on the voting state of the parent.
    Miner.v and MinerSpec.v build on it. *)

From S2P Require Import Prelude Rlp EthTypes CliqueSnapshot CliqueRotation Clique CliqueEngine.

(** An entry that was just added to a cache is found. *)
Class CacheHits {Env : CliqueEnv} (EnvOk : CliqueEnvOk Env) := {
  arc_Add_hit : forall V (c : arc V) k v, arc_contents (arc_Add c k v) !! k = Some v;
}.

(** The private key behind a signing function: what it signs for an address
    recovers to that address. *)
Definition signs_for `{EthCrypto} (a : Address) (sign : Address -> bytes -> outcome bytes) : Prop :=
  forall m s, sign a m = Ok s ->
    length s = extraSeal /\
    exists pubkey, Ecrecover (Keccak256 m) s = Ok pubkey /\ (1 <= length pubkey)%nat /\
      resize AddressLength Byte.x00 (drop 12 (Keccak256 (drop 1 pubkey))) = a.

(** The rules for the gas limit and the base fee of a block. *)
Definition gas_rules (config : ChainConfig) (parent h : Header) : Prop :=
  GasUsed h <= GasLimit h /\ GasLimit h <= maxInt64 /\
  if IsLondon config (Number h) then VerifyEip1559Header config parent h = Ok tt
  else BaseFee h = None /\ VerifyGaslimit (GasLimit parent) (GasLimit h) = Ok tt.

Section Mining.
Context {Crypto : EthCrypto} {Env : CliqueEnv} {EnvOk : CliqueEnvOk Env} {Hits : CacheHits EnvOk}.
Context (config : CliqueConfig) (chain : ChainHeaderReader).

(** ** Snapshots that are in memory *)

(** The engine has the snapshot of the block in its cache. *)
Definition settled (k : Hash) (snap : Snapshot) (c : Clique) : Prop :=
  arc_contents (c_recents c) !! k = Some snap.

(** What the operations on the engine leave alone. *)
Definition same_signer (c c' : Clique) : Prop :=
  c_config c' = c_config c /\ c_signer c' = c_signer c /\ signFn c' = signFn c /\
  fakeDiff c' = fakeDiff c /\ proposals c' = proposals c.

#[global] Instance same_signer_refl : Reflexive same_signer.
Proof. by intros c. Qed.

#[global] Instance same_signer_trans : Transitive same_signer.
Proof. intros a b c (?&?&?&?&?) (?&?&?&?&?). split_and!; congruence. Qed.

Lemma settled_snapshot n k snap c :
  settled k snap c -> s_Hash snap = k ->
  exists c', snapshot chain n k [] c = (Ok snap, c') /\ settled k snap c' /\ same_signer c c' /\
    c_signatures c' = c_signatures c.
Proof.
  intros Hs Hk. unfold snapshot. cbn [find_snapshot].
  pose proof (arc_Get_contents _ (c_recents c) k) as Hget. rewrite Hs in Hget.
  assert (cached_snapshot n k c = (Ok (Some snap), with_recents (arc_Get (c_recents c) k).2 c)) as Hc.
  { unfold cached_snapshot. by destruct (arc_Get (c_recents c) k) as [[s|] r]; cbn in Hget; simplify_eq. }
  unfold mbind at 1, StM_bind at 1. unfold mbind at 1, StM_bind at 1. rewrite Hc. cbn.
  rewrite (StM_run (mret snap) _ _ snap _ eq_refl), (StM_run (putS _) _ _ tt _ eq_refl).
  rewrite andb_false_r. cbn. eexists. split; [done|]. split; [|done].
  unfold settled. cbn. rewrite Hk. apply arc_Add_hit.
Qed.

Lemma same_signer_store s c : same_signer c (store s c).2.
Proof. unfold store. repeat case_match; done. Qed.

Lemma recents_store s c : c_recents (store s c).2 = c_recents c.
Proof. unfold store. repeat case_match; done. Qed.

(** Retrieving a snapshot does not touch the signer's settings. *)
Lemma same_signer_ecrecover h c0 : keeps (same_signer c0) (ecrecover h) (fun _ => True).
Proof.
  intros c Hc. split; [|done]. etrans; [exact Hc|]. unfold ecrecover. repeat case_match; done.
Qed.

Lemma same_signer_apply_headers hs snap c0 : keeps (same_signer c0) (apply_headers_c snap hs) (fun _ => True).
Proof.
  revert snap. induction hs as [|h hs IH]; intros snap; cbn; [by apply keeps_ret|].
  eapply (keeps_bind _ _ _ (fun _ => True)); [|intros s _; apply IH].
  intros c Hc. split; [|done]. unfold apply_header_c. pose proof (same_signer_ecrecover h c0 c Hc) as [H _].
  by destruct (ecrecover h c).
Qed.

Lemma same_signer_find fuel n k ps hs c0 :
  keeps (same_signer c0) (find_snapshot fuel chain n k ps hs) (fun _ => True).
Proof.
  revert n k ps hs. induction fuel as [|fuel IH]; intros n k ps hs; cbn; [by apply keeps_pure|].
  eapply (keeps_bind _ _ _ (fun _ => True)).
  { intros c Hc. split; [|done]. etrans; [exact Hc|]. unfold cached_snapshot. repeat case_match; done. }
  intros [s|] _; [by apply keeps_ret|]. eapply (keeps_bind _ _ _ (fun _ => True)); [by apply keeps_ask|].
  intros st _. destruct (if (st : bool) then GetHeaderByNumber chain n else None) as [ck|].
  - eapply (keeps_bind _ _ _ (fun _ => True)); [|intros s _; by apply keeps_ret].
    eapply (keeps_bind _ _ _ (fun _ => True)); [by apply keeps_pure|]. intros sg _.
    eapply (keeps_bind _ _ _ (fun _ => True)); [|intros; by apply keeps_ret].
    intros c Hc. split; [|done]. etrans; [exact Hc|]. apply same_signer_store.
  - eapply (keeps_bind _ _ _ (fun _ => True)); [by apply keeps_pure|]. intros [h ps'] _. apply IH.
Qed.

Lemma same_signer_snapshot n k ps c : same_signer c (snapshot chain n k ps c).2.
Proof.
  assert (keeps (same_signer c) (snapshot chain n k ps) (fun _ => True)) as H; [|by apply H].
  eapply (keeps_bind _ _ _ (fun _ => True)); [apply same_signer_find|]. intros [s hs] _.
  eapply (keeps_bind _ _ _ (fun _ => True)).
  { unfold apply_c. destruct (reverse hs) as [|h hs']; [by apply keeps_ret|].
    do 3 (eapply (keeps_bind _ _ _ (fun _ => True)); [by apply keeps_pure|]; intros ? _).
    eapply (keeps_bind _ _ _ (fun _ => True)); [apply same_signer_apply_headers|]. intros; by apply keeps_ret. }
  intros s' _. eapply (keeps_bind _ _ _ (fun _ => True)); [intros c1 Hc1; by split|]. intros _ _.
  eapply (keeps_bind _ _ _ (fun _ => True)); [|intros; by apply keeps_ret].
  case_match; [|by apply keeps_ret]. intros c1 Hc1. split; [|done]. etrans; [exact Hc1|]. apply same_signer_store.
Qed.

(** A snapshot that was just computed is in the cache. *)
Lemma snapshot_settles n k parents snap c c' :
  snapshot chain n k parents c = (Ok snap, c') -> s_Hash snap = k -> settled k snap c'.
Proof.
  unfold snapshot. intros H <-.
  apply StM_bind_Ok in H as ([s hs] & c1 & _ & H). apply StM_bind_Ok in H as (s' & c2 & _ & H).
  apply StM_bind_Ok in H as (u & c3 & H3 & H). unfold putS in H3. simplify_eq.
  apply StM_bind_Ok in H as (u & c4 & H4 & H). injection H as -> ->.
  unfold settled. case_match.
  - pose proof (recents_store snap (with_recents (arc_Add (c_recents c2) (s_Hash snap) snap) c2)) as Hr.
    rewrite H4 in Hr. cbn in Hr. rewrite Hr. apply arc_Add_hit.
  - injection H4 as _ <-. cbn. apply arc_Add_hit.
Qed.

(** ** Headers that fit on the chain *)

(** A header prepared for block [n] on top of [parent] by [signer]. *)
Record fits (snap : Snapshot) (signer : Address) (parent : Header) (n : Z) (h : Header) : Prop := {
  fit_parent : ParentHash h = header_hash parent;
  fit_number : Number h = Some n;
  fit_vote : (Nonce h = nonceAuthVote \/ Nonce h = nonceDropVote) /\
             (n mod Epoch config = 0 -> Coinbase h = zeroAddress /\ Nonce h = nonceDropVote);
  fit_extra : exists vanity seal : bytes, length vanity = extraVanity /\ length seal = extraSeal /\
    Extra h = vanity ++ (if n mod Epoch config =? 0 then signers_bytes snap else []) ++ seal;
  fit_digest : MixDigest h = zeroHash;
  fit_uncles : UncleHash h = uncleHash;
  fit_difficulty : exists b, inturn snap n signer = Ok b /\
    Difficulty h = Some (if b then diffInTurn else diffNoTurn);
  fit_gas : gas_rules (Config chain) parent h;
  fit_time : Time parent +u Period config <= Time h;
}.

Lemma length_signers_bytes snap :
  Forall (fun a : Address => length a = AddressLength) (signers snap) ->
  Z.of_nat (length (signers_bytes snap)) mod Z.of_nat AddressLength = 0.
Proof.
  intros H. unfold signers_bytes. assert (length (concat (signers snap)) = AddressLength * length (signers snap))%nat as ->.
  { induction H as [|a l Ha _ IH]; [done|]. cbn [concat length]. rewrite length_app, Ha, IH. lia. }
  rewrite Nat2Z.inj_mul, Z.mul_comm. by apply Z.mod_mul.
Qed.

(** The sizes of the parts of the extra-data of a header that fits. *)
Lemma fit_extra_parts snap signer parent n h :
  fits snap signer parent n h ->
  let mid := if n mod Epoch config =? 0 then signers_bytes snap else [] in
  (length (Extra h) = extraVanity + length mid + extraSeal)%nat /\
  take (length (Extra h) - extraSeal - extraVanity) (drop extraVanity (Extra h)) = mid.
Proof.
  intros F mid. destruct (fit_extra _ _ _ _ _ F) as (v & s & Hv & Hs & E). fold mid in E. rewrite E.
  rewrite !length_app, Hv, Hs. split; [lia|].
  rewrite drop_app_length' by done. rewrite take_app_length'; [done|lia].
Qed.

(** The checks of [verifySeal] on a sealed header. *)
Lemma verifySeal_run snap signer n h c c1 :
  number_of h = Ok n -> n <> 0 ->
  snapshot chain (n -u 1) (ParentHash h) [] c = (Ok snap, c1) ->
  (ecrecover h c1).1 = Ok signer -> signer ∈ Signers snap -> verify_recents snap n signer = true ->
  (exists b, inturn snap n signer = Ok b /\ Difficulty h = Some (if b then diffInTurn else diffNoTurn)) ->
  (verifySeal chain h [] c).1 = Ok tt.
Proof.
  intros Hn Hz Hsnap Hrec Hin Hv (b & Hb & Hd). unfold verifySeal.
  rewrite (StM_run_pure _ _ _ n) by done. destruct (Z.eqb_spec n 0) as [|_]; [done|].
  rewrite (StM_run _ _ _ _ _ Hsnap).
  destruct (ecrecover h c1) as [r c2] eqn:Er. cbn in Hrec. subst r. rewrite (StM_run _ _ _ _ _ Er).
  rewrite StM_run_ensure by (by apply bool_decide_eq_true). rewrite StM_run_ensure by done.
  rewrite (StM_run (getS _) _ _ _ _ eq_refl). destruct (fakeDiff c2); [done|].
  rewrite (StM_run_pure _ _ _ b) by done. rewrite (StM_run_pure (deref _) _ _ (if b then diffInTurn else diffNoTurn)) by (by rewrite Hd).
  cbn. by destruct b.
Qed.

(** The checks against the parent and the voting state. *)
Lemma verifyCascadingFields_run snap signer parent n h c c1 c2 :
  fits snap signer parent n h -> 0 < n < two64 -> Epoch config <> 0 ->
  GetHeader chain (header_hash parent) (n - 1) = Some parent -> number_of parent = Ok (n - 1) ->
  c_config c = config -> c_config c1 = config ->
  snapshot chain (n -u 1) (ParentHash h) [] c = (Ok snap, c1) ->
  snapshot chain (n -u 1) (ParentHash h) [] c1 = (Ok snap, c2) ->
  (ecrecover h c2).1 = Ok signer -> signer ∈ Signers snap -> verify_recents snap n signer = true ->
  (verifyCascadingFields chain h [] c).1 = Ok tt.
Proof.
  intros F Hn He Hget Hpn Hc Hc1 Hs Hs2 Hrec Hin Hv. pose proof (fit_extra_parts _ _ _ _ _ F) as [_ Hmid].
  destruct F as [Hp Hnum _ _ _ _ Hd (Hgu & Hgl & Hgas) Ht].
  assert (number_of h = Ok n) as Hnh.
  { unfold number_of. rewrite Hnum. cbn. by rewrite big_Uint64_id by (unfold is_u64; lia). }
  assert (n -u 1 = n - 1) as Hsub by (apply u64_sub_small; lia).
  unfold verifyCascadingFields. rewrite (StM_run_pure _ _ _ n) by done.
  destruct (Z.eqb_spec n 0) as [|_]; [lia|]. cbv zeta. cbn [last].
  rewrite (StM_run_pure _ _ _ parent) by (by rewrite Hsub, Hp, Hget).
  rewrite (StM_run_pure _ _ _ (n - 1)) by done.
  rewrite StM_run_ensure by (rewrite Hsub, Z.eqb_refl; by apply bool_decide_eq_true).
  rewrite (StM_run (getS _) _ _ _ _ eq_refl). rewrite Hc.
  rewrite StM_run_ensure by (apply negb_true_iff, Z.ltb_ge; lia).
  rewrite StM_run_ensure by (apply negb_true_iff, Z.ltb_ge; lia).
  rewrite (StM_run _ _ _ tt c).
  2:{ destruct (IsLondon (Config chain) (Number h)); cbn [negb].
      - unfold pure. by rewrite Hgas.
      - destruct Hgas as [-> Hg]. rewrite StM_run_ensure by done. unfold pure. by rewrite Hg. }
  rewrite (StM_run _ _ _ _ _ Hs).
  rewrite (StM_run (askS _) _ _ (n mod Epoch config) c1).
  2:{ unfold askS, mod_epoch. rewrite Hc1. by destruct (Z.eqb_spec (Epoch config) 0). }
  rewrite (StM_run_pure _ _ _ tt).
  - apply (verifySeal_run snap signer n h c1 c2); [done|lia|done..].
  - destruct (Z.eqb_spec (n mod Epoch config) 0) as [Em|Em]; [|done].
    rewrite Hmid. rewrite bool_decide_eq_true_2; done.
Qed.

(** All the checks of [verifyHeader]. *)
Lemma verifyHeader_run now snap signer parent n h c c1 c2 :
  fits snap signer parent n h -> 0 < n < two64 -> Epoch config <> 0 ->
  Forall (fun a : Address => length a = AddressLength) (signers snap) ->
  GetHeader chain (header_hash parent) (n - 1) = Some parent -> number_of parent = Ok (n - 1) ->
  c_config c = config -> c_config c1 = config ->
  snapshot chain (n -u 1) (ParentHash h) [] c = (Ok snap, c1) ->
  snapshot chain (n -u 1) (ParentHash h) [] c1 = (Ok snap, c2) ->
  (ecrecover h c2).1 = Ok signer -> signer ∈ Signers snap -> verify_recents snap n signer = true ->
  Time h <= now -> VerifyForkHashes (Config chain) h false = Ok tt ->
  (verifyHeader now chain h [] c).1 = Ok tt.
Proof.
  intros F Hn He Haddr Hget Hpn Hc Hc1 Hs Hs2 Hrec Hin Hv Hnow Hfork.
  pose proof (fit_extra_parts _ _ _ _ _ F) as [Hlen _]. cbv zeta in Hlen.
  set (mid := if n mod Epoch config =? 0 then signers_bytes snap else []) in *.
  pose proof F as [_ Hnum [Hnonce Hck] _ Hmix Hunc (b & _ & Hd) (_ & Hgl & _) _].
  assert (number_of h = Ok n) as Hnh.
  { unfold number_of. rewrite Hnum. cbn. by rewrite big_Uint64_id by (unfold is_u64; lia). }
  assert (Z.of_nat (length (Extra h)) - Z.of_nat extraVanity - Z.of_nat extraSeal = Z.of_nat (length mid)) as Hmid by lia.
  unfold verifyHeader. rewrite (StM_run_pure _ _ _ n) by (by rewrite Hnum).
  rewrite (StM_run_pure _ _ _ n) by done.
  rewrite StM_run_ensure by (apply negb_true_iff, Z.ltb_ge; lia).
  rewrite (StM_run (askS _) _ _ (n mod Epoch config) c).
  2:{ unfold askS, mod_epoch. rewrite Hc. by destruct (Z.eqb_spec (Epoch config) 0). }
  cbv zeta. rewrite Hmid.
  assert (n mod Epoch config =? 0 = true -> Coinbase h = zeroAddress /\ Nonce h = nonceDropVote) as Hck'
    by (intros E%Z.eqb_eq; by apply Hck).
  rewrite StM_run_ensure.
  2:{ destruct (n mod Epoch config =? 0); [|done]. by rewrite bool_decide_eq_true_2 by (by apply Hck'). }
  rewrite StM_run_ensure by (apply orb_true_iff; rewrite !bool_decide_eq_true; done).
  rewrite StM_run_ensure.
  2:{ destruct (n mod Epoch config =? 0); [|done]. by rewrite bool_decide_eq_true_2 by (by apply Hck'). }
  rewrite StM_run_ensure by (apply Nat.leb_le; lia).
  rewrite StM_run_ensure by (apply Nat.leb_le; lia).
  rewrite StM_run_ensure by (unfold mid; by destruct (n mod Epoch config =? 0)).
  rewrite StM_run_ensure.
  2:{ unfold mid. destruct (n mod Epoch config =? 0); [|done]. by apply Z.eqb_eq, length_signers_bytes. }
  rewrite StM_run_ensure by (by apply bool_decide_eq_true).
  rewrite StM_run_ensure by (by apply bool_decide_eq_true).
  rewrite StM_run_ensure by (rewrite Hd; by destruct b, (0 <? n)).
  rewrite StM_run_ensure by (apply negb_true_iff, Z.ltb_ge; lia).
  rewrite (StM_run_pure _ _ _ tt) by done.
  by apply (verifyCascadingFields_run snap signer parent n h c c1 c2).
Qed.

(** ** Sealing *)

Lemma seal_recents_verify snap n signer :
  seal_recents snap n signer = true -> verify_recents snap n signer = true.
Proof.
  unfold seal_recents, verify_recents. rewrite !negb_true_iff. intros H.
  apply not_true_is_false. intros (p & Hp & Hb)%existsb_exists. apply not_true_iff_false in H. apply H.
  apply existsb_exists. exists p. split; [done|]. apply andb_prop in Hb as [-> ->]. by rewrite orb_true_r.
Qed.

(** What a call of [Seal] that hands out a block went through. *)
Lemma Seal_Ok h txs h' n c c' :
  Seal chain h txs c = (Ok (Some h'), c') -> number_of h = Ok n ->
  exists snap c1 rlp sig extra,
    n <> 0 /\ snapshot chain (n -u 1) (ParentHash h) [] c = (Ok snap, c1) /\
    c_signer c ∈ Signers snap /\ seal_recents snap n (c_signer c) = true /\
    CliqueRLP h = Ok rlp /\ signFn c (c_signer c) rlp = Ok sig /\
    put_seal (Extra h) sig = Ok extra /\ h' = set_extra extra h.
Proof.
  intros H Hn. unfold Seal in H. rewrite (StM_run_pure _ _ _ n) in H by done.
  destruct (Z.eqb_spec n 0) as [|Hz]; [done|]. rewrite (StM_run (getS _) _ _ _ _ eq_refl) in H.
  case_match; [done|]. do 2 rewrite (StM_run (getS _) _ _ _ _ eq_refl) in H.
  apply StM_bind_Ok in H as (snap & c1 & Hs & H). apply StM_bind_Ok in H as (u & c2 & [Ha ->]%pure_Ok & H).
  apply ensure_Ok, bool_decide_eq_true in Ha.
  destruct (seal_recents snap n (c_signer c)) eqn:Er; cbn [negb] in H; [|done].
  apply StM_bind_Ok in H as (d & c3 & [Hd ->]%pure_Ok & H).
  apply StM_bind_Ok in H as (rlp & c4 & [Hr ->]%pure_Ok & H).
  apply StM_bind_Ok in H as (sig & c5 & [Hsig ->]%pure_Ok & H).
  apply StM_bind_Ok in H as (extra & c6 & [He ->]%pure_Ok & H). injection H as <- <-.
  by exists snap, c1, rlp, sig, extra.
Qed.

(** A full seal replaces the last 65 bytes of the extra-data. *)
Lemma put_seal_full extra sig extra' :
  put_seal extra sig = Ok extra' -> length sig = extraSeal ->
  (extraSeal <= length extra)%nat /\ extra' = take (length extra - extraSeal) extra ++ sig.
Proof.
  unfold put_seal. destruct (Nat.ltb_spec (length extra) extraSeal) as [|Hl]; [done|]. intros [= <-] Hs.
  split; [done|]. rewrite (take_ge sig) by lia. f_equal. rewrite drop_ge by lia. apply app_nil_r.
Qed.

(** The seal is not part of what is signed, so it recovers to the signer. *)
Lemma sealed_recovers h rlp sig extra signer sign :
  CliqueRLP h = Ok rlp -> signs_for signer sign -> sign signer rlp = Ok sig -> put_seal (Extra h) sig = Ok extra ->
  recover (set_extra extra h) = Ok signer.
Proof.
  intros Hrlp Hsf Hsig He. destruct (Hsf _ _ Hsig) as (Hls & pub & Hpub & Hlp & Haddr).
  destruct (put_seal_full _ _ _ He Hls) as [Hle ->].
  set (body := take (length (Extra h) - extraSeal) (Extra h)) in *.
  assert (length (body ++ sig) = length (Extra h)) as Hlen
    by (unfold body; rewrite length_app, length_take, Hls; lia).
  assert (length body = length (Extra h) - extraSeal)%nat as Hb by (unfold body; rewrite length_take; lia).
  assert (CliqueRLP (set_extra (body ++ sig) h) = Ok rlp) as Hrlp'.
  { rewrite <- Hrlp. unfold CliqueRLP, encodeSigHeader, sig_enc. cbn [Extra set_extra]. rewrite Hlen.
    rewrite take_app_length' by lia. by fold body. }
  unfold recover. cbn [Extra set_extra]. rewrite Hlen. destruct (Nat.ltb_spec (length (Extra h)) extraSeal); [lia|].
  rewrite drop_app_length' by lia. unfold SealHash. unfold CliqueRLP in Hrlp'. rewrite Hrlp'. cbn [mbind outcome_bind mret outcome_ret].
  rewrite Hpub. cbn [mbind outcome_bind]. destruct (Nat.ltb_spec (length pub) 1); [lia|]. by rewrite Haddr.
Qed.

Lemma sealed_fits snap signer parent n h sig extra :
  fits snap signer parent n h -> length sig = extraSeal -> put_seal (Extra h) sig = Ok extra ->
  fits snap signer parent n (set_extra extra h).
Proof.
  intros F Hls He. destruct (put_seal_full _ _ _ He Hls) as [Hle ->].
  destruct F as [? ? ? (v & s & Hv & Hs & Hx) ? ? ? ? ?]. split; try done.
  exists v, sig. split; [done|]. split; [done|]. cbn [Extra set_extra]. rewrite Hx.
  rewrite (assoc_L (++) v), length_app, Hs. rewrite take_app_length' by lia. by rewrite <- (assoc_L (++) v).
Qed.

(** ** Preparing *)

Lemma prepare_vote_nonce pick snap props vote :
  prepare_vote pick snap props = Ok vote -> vote.2 = nonceAuthVote \/ vote.2 = nonceDropVote.
Proof.
  unfold prepare_vote. case_match; [intros [= <-]; by right|].
  intros Hv. inv_ok. destruct v as [a []]; cbn; auto.
Qed.

(** [Prepare] makes a header fit, once [Finalize] has set the uncle hash. *)
Lemma Prepare_fits now pick h h1 parent n snap c c1 c2 :
  0 < n < two64 -> c_config c = config -> Number h = Some n -> ParentHash h = header_hash parent ->
  GetHeader chain (header_hash parent) (n - 1) = Some parent -> gas_rules (Config chain) parent h ->
  snapshot chain (n -u 1) (ParentHash h) [] c = (Ok snap, c1) -> s_Number snap = n - 1 ->
  Prepare now pick chain h c = (Ok h1, c2) ->
  c2 = c1 /\ GasUsed h1 = GasUsed h /\ forall root, fits snap (c_signer c) parent n (Finalize root h1).
Proof.
  intros Hn Hc Hnum Hp Hget Hgas Hs Hsn H.
  pose proof (same_signer_snapshot (n -u 1) (ParentHash h) [] c) as Hsame. rewrite Hs in Hsame. cbn in Hsame.
  destruct Hsame as (Hc1 & Hsig & _ & _ & Hprops). unfold Prepare in H.
  assert (number_of h = Ok n) as Hnh.
  { unfold number_of. rewrite Hnum. cbn. by rewrite big_Uint64_id by (unfold is_u64; lia). }
  assert (n -u 1 = n - 1) as Hsub by (apply u64_sub_small; lia).
  rewrite (StM_run_pure _ _ _ n) in H by done. rewrite (StM_run _ _ _ _ _ Hs) in H.
  apply StM_bind_Ok in H as (m & c3 & [Hm ->]%askS_Ok & H). rewrite (StM_run (getS _) _ _ _ _ eq_refl) in H.
  apply StM_bind_Ok in H as (vote & c4 & [Hvote ->]%pure_Ok & H). rewrite (StM_run (getS _) _ _ _ _ eq_refl) in H.
  apply StM_bind_Ok in H as (d & c5 & [Hd ->]%pure_Ok & H). cbv zeta in H.
  rewrite (StM_run_pure _ _ _ parent) in H by (by rewrite Hp, Hsub, Hget).
  rewrite (StM_run (getS _) _ _ _ _ eq_refl) in H. injection H as <- <-. split; [done|]. split; [done|]. intros root.
  assert (m = n mod Epoch config) as ->.
  { unfold mod_epoch in Hm. rewrite Hc1, Hc in Hm. destruct (Epoch config =? 0); [discriminate Hm|]. by injection Hm as <-. }
  split; cbn; try done.
  - destruct (Z.eqb_spec (n mod Epoch config) 0) as [E|E]; cbn in Hvote.
    + injection Hvote as <-. split; [by right|]. done.
    + split; [by eapply prepare_vote_nonce|done].
  - unfold prepare_extra. set (e0 := if (length (Extra h) <? extraVanity)%nat then _ else _).
    assert (extraVanity <= length e0)%nat as He0.
    { unfold e0. destruct (Nat.ltb_spec (length (Extra h)) extraVanity); [|lia].
      rewrite length_app, length_replicate. lia. }
    exists (take extraVanity e0), (replicate extraSeal Byte.x00).
    split; [rewrite length_take; lia|]. split; [by rewrite length_replicate|].
    destruct (n mod Epoch config =? 0); [by rewrite <- (assoc_L (++))|done].
  - unfold calcDifficulty in Hd. rewrite Hsn, u64_add_small in Hd by lia. inv_ok.
    exists v. rewrite <- Hsig. replace (n - 1 + 1) with n in E by lia. done.
  - rewrite Hc1, Hc. destruct (Z.ltb_spec (Time parent +u Period config) now); lia.
Qed.

End Mining.
