(* ===== verification/CliqueExamples.v ===== *)
(** * A concrete Clique chain

    Instances of the engine's parameters and a three-block chain, on which the
    engine's theorems are applied and its checks evaluated. *)

From S2P Require Import Prelude Rlp EthTypes CliqueSnapshot CliqueRotation Clique CliqueSeal CliqueEngine.

(** ** Instances

    Hashing is the identity (no collisions), a seal is its own public key, a
    cache never evicts, the database is a map, and snapshots are serialized
    through their [Countable] encoding. *)

#[export] Instance Vote_countable : Countable Vote.
Proof.
  refine (inj_countable' (fun v => (v_Signer v, v_Block v, v_Address v, v_Authorize v))
            (fun '(s, b, a, u) => {| v_Signer := s; v_Block := b; v_Address := a; v_Authorize := u |}) _).
  by intros [].
Defined.

#[export] Instance Tally_countable : Countable Tally.
Proof.
  refine (inj_countable' (fun t => (t_Authorize t, t_Votes t))
            (fun '(a, v) => {| t_Authorize := a; t_Votes := v |}) _).
  by intros [].
Defined.

#[export] Instance Snapshot_eq_dec : EqDecision Snapshot.
Proof. solve_decision. Defined.

#[export] Instance Snapshot_countable : Countable Snapshot.
Proof.
  refine (inj_countable' (fun s => (s_Number s, s_Hash s, Signers s, Recents s, Votes s, s_Tally s))
            (fun '(n, h, sg, r, v, t) => {| s_Number := n; s_Hash := h; Signers := sg; Recents := r;
                                            Votes := v; s_Tally := t |}) _).
  by intros [].
Defined.

Definition id_crypto : EthCrypto := {|
  Keccak256 b := b;
  Ecrecover _ signature := Ok signature;
|}.

(** One byte per bit. *)
Fixpoint bits_of (p : positive) : bytes :=
  match p with
  | xH => []
  | xO q => Byte.x00 :: bits_of q
  | xI q => Byte.x01 :: bits_of q
  end.

Fixpoint of_bits (b : bytes) : positive :=
  match b with
  | [] => xH
  | Byte.x00 :: rest => xO (of_bits rest)
  | _ :: rest => xI (of_bits rest)
  end.

Lemma of_bits_of p : of_bits (bits_of p) = p.
Proof. induction p as [p IH|p IH|]; cbn; rewrite ?IH; done. Qed.

Definition map_env : CliqueEnv := {|
  arc V := gmap Hash V;
  arc_new V := ∅;
  arc_Get V c k := (c !! k, c);
  arc_Add V c k v := <[k := v]> c;
  kv := gmap bytes bytes;
  kv_Get d k := ok_or (d !! k) "not found";
  kv_Put d k v := Ok (<[k := v]> d);
  json_Marshal s := Ok (bits_of (countable.encode s));
  json_Unmarshal b := ok_or (countable.decode (of_bits b)) "invalid JSON";
|}.

Lemma map_env_ok : CliqueEnvOk map_env.
Proof.
  refine (Build_CliqueEnvOk map_env (fun V (c : gmap Hash V) => c) _ _ _ _ _ _); try done; cbn.
  - intros V c k v k' v'. destruct (decide (k' = k)) as [->|Hne].
    + rewrite lookup_insert_eq. intros [= <-]. by left.
    + rewrite lookup_insert_ne by done. by right.
  - intros d k v d' k' [= <-]. case_decide as E.
    + subst. by rewrite lookup_insert_eq.
    + by rewrite lookup_insert_ne.
  - intros s b s' [= <-] H. rewrite of_bits_of, decode_encode in H. by injection H as <-.
Defined.

#[local] Existing Instance id_crypto.
#[local] Existing Instance map_env.

Module EngineExample.
Import CliqueExample.

(** A seal that recovers to [a]: byte 0 is the prefix of a public key, the
    address is what follows the first 12 bytes of the rest. *)
Definition seal_of (a : Address) : bytes :=
  replicate 13 Byte.x00 ++ a ++ replicate 32 Byte.x00.

Definition block (number : Z) (parent : Hash) (signers : bytes) (sealer : Address) : Header := {|
  ParentHash := parent; UncleHash := uncleHash; Coinbase := zeroAddress; Root := zeroHash;
  TxHash := zeroHash; ReceiptHash := zeroHash; Bloom := []; Difficulty := Some 1;
  Number := Some number; GasLimit := 8000000; GasUsed := 0; Time := 15 * number;
  Extra := replicate 32 Byte.x00 ++ signers ++ seal_of sealer;
  MixDigest := zeroHash; Nonce := nonceDropVote; BaseFee := None |}.

Definition block0 : Header := block 0 zeroHash (account 1 ++ account 2 ++ account 3) zeroAddress.
Definition block1 : Header := block 1 (header_hash block0) [] (account 1).
Definition block2 : Header := block 2 (header_hash block1) [] (account 2).

Definition blocks : list Header := [block0; block1; block2].
Definition in_play (h : Header) : Prop := h ∈ blocks.

Definition by_number (n : Z) : option Header :=
  List.find (fun h => bool_decide (number_of h = Ok n)) blocks.
Definition by_hash (k : Hash) : option Header :=
  List.find (fun h => bool_decide (header_hash h = k)) blocks.

Definition reader : ChainHeaderReader := {|
  Config := london_only None;
  CurrentHeader := Some block2;
  GetHeader k n := h ← by_hash k; if bool_decide (number_of h = Ok n) then Some h else None;
  GetHeaderByNumber := by_number;
  GetHeaderByHash := by_hash;
|}.

Definition engine : Clique := New config (∅ : @kv map_env).

Example block2_verifies : (verifyHeader 100 reader block2 [] engine).1 = Ok tt.
Proof. vm_compute. reflexivity. Qed.

Lemma inj_on_three {A B} (f : A -> B) (a b c h h' : A) :
  f a <> f b -> f a <> f c -> f b <> f c -> h ∈ [a; b; c] -> h' ∈ [a; b; c] -> f h = f h' -> h = h'.
Proof.
  intros H1 H2 H3. rewrite !elem_of_cons, !elem_of_nil.
  intros Hh Hh' E. destruct_or! Hh; destruct_or! Hh'; subst; done || congruence.
Qed.

(** Case analysis on a block in play. *)
Ltac block_cases H :=
  unfold in_play, blocks in H; rewrite !elem_of_cons, elem_of_nil in H; destruct_or! H; subst.

Definition hashes_differ : bool :=
  bool_decide (header_hash block0 <> header_hash block1) &&
  bool_decide (header_hash block0 <> header_hash block2) &&
  bool_decide (header_hash block1 <> header_hash block2).

Lemma in_play_inj h h' : in_play h -> in_play h' -> header_hash h = header_hash h' -> h = h'.
Proof.
  intros Hh Hh' E. assert (hashes_differ = true) as Hd by (vm_compute; reflexivity).
  unfold hashes_differ in Hd. rewrite !andb_true_iff, !bool_decide_eq_true in Hd.
  destruct Hd as [[H1 H2] H3]. exact (inj_on_three header_hash _ _ _ h h' H1 H2 H3 Hh Hh' E).
Qed.

Lemma find_in_play f h : List.find f blocks = Some h -> in_play h /\ f h = true.
Proof. intros H. apply List.find_some in H as [H1 H2]. split; [by apply list_elem_of_In|done]. Qed.

Lemma reader_GetHeader hash number h :
  GetHeader reader hash number = Some h ->
  in_play h /\ header_hash h = hash /\ number_of h = Ok number.
Proof.
  cbn [GetHeader reader]. intros H. apply bind_Some in H as (x & Hx & H).
  case_bool_decide as Hn; [|done]. injection H as <-.
  apply find_in_play in Hx as [Hp Hh%bool_decide_eq_true]. done.
Qed.

Lemma reader_GetHeaderByNumber number h :
  GetHeaderByNumber reader number = Some h -> in_play h /\ number_of h = Ok number.
Proof. intros H. apply find_in_play in H as [Hp Hn%bool_decide_eq_true]. done. Qed.

Lemma number_in_play h n :
  in_play h -> number_of h = Ok n ->
  (h = block0 /\ n = 0) \/ (h = block1 /\ n = 1) \/ (h = block2 /\ n = 2).
Proof. intros Hh Hn. block_cases Hh; injection Hn as <-; auto. Qed.

Lemma in_play_small h n : in_play h -> number_of h = Ok n -> n + 1 < two64.
Proof. intros Hh Hn. destruct (number_in_play h n Hh Hn) as [[_ ->]|[[_ ->]|[_ ->]]]; done. Qed.

Lemma engine_ok : clique_ok (EnvOk := map_env_ok) in_play config reader engine.
Proof.
  split.
  - done.
  - intros h a _ H. cbn [c_signatures engine New] in H. by rewrite arc_new_empty, lookup_empty in H.
  - intros k s H. cbn [c_recents engine New] in H. by rewrite arc_new_empty, lookup_empty in H.
  - intros k s H. unfold loadSnapshot in H. cbn in H. by rewrite lookup_empty in H.
Qed.

Lemma in_play_block2 : in_play block2.
Proof. unfold in_play, blocks. by do 2 right; left. Qed.

Lemma snapshot_sound_witness :
  let '(r, c') := snapshot reader 1 (header_hash block1) [] engine in
  clique_ok (EnvOk := map_env_ok) in_play config reader c' /\
  forall s, r = Ok s ->
    snap_inv s /\
    ((snap_of in_play config reader (header_hash block1) s /\ s_Hash s = header_hash block1) \/
     (trusted_height in_play config reader 1 /\ exists ck sg, GetHeaderByNumber reader 1 = Some ck /\
        checkpoint_signers (Extra ck) = Ok sg /\ s = newSnapshot 1 (header_hash ck) sg)).
Proof.
  apply (snapshot_sound (EnvOk := map_env_ok) in_play in_play_inj config reader
           reader_GetHeader 1 (header_hash block1) [] engine);
    [exact engine_ok | constructor].
Defined.

Lemma snapshot_terminates_witness :
  find_snapshot (2 + 5) reader 1 (header_hash block1) [] [] engine =
  find_snapshot 2 reader 1 (header_hash block1) [] [] engine.
Proof.
  apply (snapshot_terminates reader 5 1 (header_hash block1) [] engine);
    [by eexists; vm_compute | unfold is_u64, two64; lia].
Defined.

Definition start_signers : list Address :=
  match checkpoint_signers (Extra block0) with Ok l => l | _ => [] end.

Lemma genesis_snapshot :
  snap_of in_play config reader (header_hash block0) (newSnapshot 0 (header_hash block0) start_signers).
Proof.
  apply (snap_start in_play config reader 0 (newSnapshot 0 (header_hash block0) start_signers)). exists block0, start_signers.
  split; [vm_compute; reflexivity|]. split; [by left|]. split; [vm_compute; reflexivity|done].
Qed.

Lemma recent_checks_agree_witness :
  let snap := newSnapshot 0 (header_hash block0) start_signers in
  (seal_recents snap 1 (account 1) = true <-> free_to_seal snap 1 (account 1)) /\
  (signers_limit snap <= 1 ->
   verify_recents snap 1 (account 1) = true <-> free_to_seal snap 1 (account 1)).
Proof.
  apply (recent_checks_agree in_play config reader reader_GetHeaderByNumber in_play_small
           (header_hash block0)); [exact genesis_snapshot | reflexivity].
Defined.

Lemma verifyHeader_sound_witness :
  Time block2 <= 100 /\
  exists snap signer,
    snap_at in_play config reader 1 (ParentHash block2) snap /\ recover block2 = Ok signer /\
    signer ∈ Signers snap /\
    (Epoch config <> 0 -> signers_limit snap <= 2 ->
     exists s', apply recover header_hash config snap [block2] = Ok s' /\
                snap_of in_play config reader (header_hash block2) s').
Proof.
  apply (verifyHeader_sound (EnvOk := map_env_ok) in_play in_play_inj config reader
           reader_GetHeader reader_GetHeaderByNumber in_play_small
           100 block2 [] 2 engine);
    [exact engine_ok | exact in_play_block2 | constructor | reflexivity | discriminate
    | exact block2_verifies].
Defined.

(** A second header body that differs from [block1] only in the seal. *)
Lemma seal_covers_header_witness :
  exists b, CliqueRLP block1 = Ok b /\
    signed_part block1 = signed_part (block 1 (header_hash block0) [] (account 7)).
Proof.
  destruct (is_ok_ex (CliqueRLP block1)) as [b E]; [vm_compute; reflexivity|].
  exists b. split; [exact E|].
  apply (seal_covers_header block1 (block 1 (header_hash block0) [] (account 7)) b);
    [| |exact E|rewrite <- E; vm_compute; reflexivity].
  - split_and!; [unfold is_u64; cbn; unfold two64; lia..|]. vm_compute. reflexivity.
  - split_and!; [unfold is_u64; cbn; unfold two64; lia..|]. vm_compute. reflexivity.
Defined.

Definition four_signers : Snapshot :=
  newSnapshot 0 zeroHash [account 1; account 2; account 3; account 4].

(** The voting state after [account 1] sealed block 1. *)
Definition after_block1 : Snapshot :=
  match apply sealer_of hash_of config four_signers
          [vote_header 1 (account 1) zeroAddress nonceDropVote] with
  | Ok s => s
  | _ => four_signers
  end.

(** A window that has not filled up yet: with four signers, block 2 sealed by
    the sealer of block 1 passes the verifier's recent-signer check, because
    [number - limit] wraps around, while the voting rules reject the block and
    the sealer's own check refuses to sign it. *)
Theorem early_double_seal :
  s_Number after_block1 = 1 /\
  verify_recents after_block1 2 (account 1) = true /\
  seal_recents after_block1 2 (account 1) = false /\
  apply sealer_of hash_of config after_block1
    [vote_header 2 (account 1) zeroAddress nonceDropVote] = Err errRecentlySigned.
Proof. split_and!; vm_compute; reflexivity. Qed.

End EngineExample.
