(* ===== verification/CliqueApi.v ===== *)
(** * Status and signer queries of Clique

    consensus/clique/api.go: [Status], which counts who sealed the last blocks,
    and [GetSigner].  The other calls of the interface are in Clique.v. *)

From S2P Require Import Prelude Rlp EthTypes CliqueSnapshot CliqueRotation Clique CliqueEngine CliqueExamples.

(** ** Operations *)

(** The percentage is a floating-point division; its operands are kept.
    [geth:consensus/clique/api.go] status *)
Record status := {
  InturnPercent : Z * Z;
  SigningStatus : gmap Address Z;
  NumBlocks : Z;
}.

(** A number, a hash, or neither.
    [geth:consensus/clique/api.go:182-185] blockNumberOrHashOrRLP *)
Record blockNumberOrHashOrRLP := {
  BlockNumberOrHash : option (option Z * option Hash);
  RLP : bytes;
}.

Section Api.
Context {Crypto : EthCrypto} {Env : CliqueEnv}.

Definition count_sealer (a : Address) (m : gmap Address Z) : gmap Address Z :=
  <[a := default 0 (m !! a) + 1]> m.

(** The loop over the blocks [n], [n+1], ... before [stop].
    [geth:consensus/clique/api.go:160-174] API.Status *)
Fixpoint status_loop (fuel : nat) (chain : ChainHeaderReader) (n stop : Z) (optimals : Z) (signs : gmap Address Z) :
    StM Clique (Z * gmap Address Z) :=
  match fuel with
  | O => mret (optimals, signs)
  | S fuel =>
      if negb (n <? stop) then mret (optimals, signs)
      else
        h ← pure (ok_or (GetHeaderByNumber chain n) "missing block");
        d ← pure (deref (Difficulty h));
        sealer ← Author h;
        status_loop fuel chain (n +u 1) stop (if d =? diffInTurn then optimals + 1 else optimals)
          (count_sealer sealer signs)
  end.

(** The first block counted and the number of blocks.
    [geth:consensus/clique/api.go:147-155] API.Status *)
Definition status_window (stop : Z) : Z * Z :=
  if stop <? 64 then (1, stop -u 1) else (stop -u 64, 64).

(** [geth:consensus/clique/api.go] API.Status *)
Definition Status (chain : ChainHeaderReader) : StM Clique status :=
  header ← pure (deref (CurrentHeader chain));
  stop ← pure (number_of header);
  snap ← snapshot chain stop (header_hash header) [];
  let '(start, numBlocks) := status_window stop in
  '(optimals, signs) ← status_loop (Z.to_nat (stop - start)) chain start stop 0
                         (fold_left (fun m a => <[a := 0]> m) (signers snap) ∅);
  mret {| InturnPercent := (100 * optimals, numBlocks); SigningStatus := signs; NumBlocks := numBlocks |}.

(** [Author] of a header that may be nil. *)
Definition author_of (h : option Header) : StM Clique Address :=
  h ← pure (deref h); Author h.

(** [decode_block] and [decode_header] are [rlp.DecodeBytes] at the types of
    blocks, of which the header is used, and headers.
    [geth:consensus/clique/api.go] API.GetSigner *)
Definition GetSigner (decode_block decode_header : bytes -> outcome Header) (chain : ChainHeaderReader)
    (q : blockNumberOrHashOrRLP) : StM Clique Address :=
  match RLP q with
  | [] =>
      author_of match BlockNumberOrHash q with
                | None => CurrentHeader chain
                | Some (_, Some hash) => GetHeaderByHash chain hash
                | Some (Some number, None) => GetHeaderByNumber chain (u64 number)
                | Some (None, None) => None
                end
  | blob =>
      match decode_block blob with
      | Ok h => Author h
      | Err _ => h ← pure (decode_header blob); Author h
      | Panic p => pure (Panic p)
      end
  end.
End Api.

(** ** What [Status] counts *)

Section Counts.
Context {Crypto : EthCrypto} {Env : CliqueEnv} {EnvOk : CliqueEnvOk Env}.
Context (known : Header -> Prop).
Hypothesis known_inj : forall h h', known h -> known h' -> header_hash h = header_hash h' -> h = h'.
Context (config : CliqueConfig) (chain : ChainHeaderReader).
Hypothesis GetHeader_ok : forall hash number h,
  GetHeader chain hash number = Some h -> known h /\ header_hash h = hash /\ number_of h = Ok number.
Hypothesis GetHeaderByNumber_ok : forall number h,
  GetHeaderByNumber chain number = Some h -> known h /\ number_of h = Ok number.

(** The blocks of the window with their sealers. *)
Definition sealed_window (start : Z) (l : list (Header * Address)) : Prop :=
  forall i h a, l !! i = Some (h, a) ->
    GetHeaderByNumber chain (start + Z.of_nat i) = Some h /\ recover h = Ok a.

Definition in_turn (p : Header * Address) : bool := bool_decide (Difficulty p.1 = Some diffInTurn).
Definition sealed_count (a : Address) (l : list (Header * Address)) : Z :=
  Z.of_nat (length (filter (fun p => p.2 = a) l)).

Lemma status_loop_counts fuel n stop opt signs :
  (0 <= n)%Z -> stop < two64 -> Z.of_nat fuel = Z.max 0 (stop - n) ->
  keeps (clique_ok known config chain) (status_loop fuel chain n stop opt signs)
    (fun r => exists l, length l = fuel /\ sealed_window n l /\
       r.1 = opt + Z.of_nat (length (filter (fun p => in_turn p = true) l)) /\
       forall a, default 0 (r.2 !! a) = default 0 (signs !! a) + sealed_count a l).
Proof.
  revert n opt signs. induction fuel as [|fuel IH]; intros n opt signs H0 Hs Hf; cbn.
  { apply keeps_ret. exists []. split_and!; [done|intros i h a Hi; done|cbn; lia|]. intros a. unfold sealed_count. cbn. lia. }
  destruct (Z.ltb_spec n stop) as [Hn|Hn]; [|lia]. cbn [negb].
  eapply keeps_bind; [apply keeps_pure; intros h E; exact E|]. intros h Eh. apply ok_or_Ok in Eh.
  destruct (GetHeaderByNumber_ok n h Eh) as [Hk _].
  eapply keeps_bind; [apply keeps_pure; intros d E; exact E|]. intros d Ed. apply deref_Ok in Ed.
  eapply keeps_bind; [by apply ecrecover_keeps|]. intros a Ha.
  eapply keeps_weaken; [apply IH; rewrite ?u64_add_small; lia|].
  intros [opt' signs'] (l & Hl & Hw & Ho & Hc). exists ((h, a) :: l). cbn [fst snd] in *.
  rewrite u64_add_small in Hw by lia.
  split_and!.
  - cbn. by rewrite Hl.
  - intros [|i] h' a' Hi; [injection Hi as <- <-; by rewrite Z.add_0_r|].
    replace (n + Z.of_nat (S i)) with (n + 1 + Z.of_nat i) by lia. by apply (Hw i).
  - assert (in_turn (h, a) = (d =? diffInTurn)) as Ht.
    { unfold in_turn. cbn [fst]. rewrite Ed. destruct (Z.eqb_spec d diffInTurn); case_bool_decide; congruence. }
    rewrite Ho, filter_cons, Ht. destruct (d =? diffInTurn); cbn [decide];
      [rewrite decide_True by done|rewrite decide_False by done]; cbn [length]; lia.
  - intros b. rewrite Hc. unfold sealed_count, count_sealer. rewrite filter_cons. cbn [snd].
    destruct (decide (a = b)) as [->|Hne]; [rewrite lookup_insert_eq; cbn [default length]|rewrite lookup_insert_ne by done];
      cbn; lia.
Qed.

Lemma zero_signs l a : default 0 (fold_left (fun (m : gmap Address Z) a => <[a := 0]> m) l ∅ !! a) = 0.
Proof.
  assert (forall m : gmap Address Z, default 0 (m !! a) = 0 ->
    default 0 (fold_left (fun (m : gmap Address Z) a => <[a := 0]> m) l m !! a) = 0) as H; [|by apply H].
  induction l as [|b l IH]; intros m Hm; [done|]. cbn. apply IH.
  destruct (decide (a = b)) as [->|Hne]; [by rewrite lookup_insert_eq|by rewrite lookup_insert_ne].
Qed.

Lemma status_window_range stop :
  2 <= stop < two64 ->
  let '(start, count) := status_window stop in
  0 < count <= 64 /\ 0 <= start /\ stop - start = count /\ count = if stop <? 64 then stop - 1 else 64.
Proof.
  intros Hs. unfold status_window. destruct (Z.ltb_spec stop 64); rewrite u64_sub_small by lia; cbv beta iota; lia.
Qed.

(** [Status] counts the blocks before the head: with a chain of at least two
    blocks, a status covers the last 64 blocks below the head, or all of them
    but the genesis when the head is below block 64; every signer is counted with the blocks
    of the window its seal recovers to, and the percentage is that of the blocks
    with the in-turn difficulty. *)
Theorem Status_counts header stop c st c' :
  clique_ok known config chain c -> CurrentHeader chain = Some header -> number_of header = Ok stop ->
  2 <= stop ->
  Status chain c = (Ok st, c') ->
  NumBlocks st = (if stop <? 64 then stop - 1 else 64) /\
  exists l, length l = Z.to_nat (NumBlocks st) /\ sealed_window (stop - NumBlocks st) l /\
    InturnPercent st = (100 * Z.of_nat (length (filter (fun p => in_turn p = true) l)), NumBlocks st) /\
    forall a, default 0 (SigningStatus st !! a) = sealed_count a l.
Proof.
  intros Hc Hh Hn Hs H. unfold Status in H. pose proof (number_of_range _ _ Hn) as Hr. unfold is_u64 in Hr.
  rewrite Hh in H. rewrite (StM_run_pure (deref (Some header)) _ _ header eq_refl) in H.
  rewrite (StM_run_pure _ _ _ stop) in H by done.
  apply StM_bind_Ok in H as (snap & c1 & Hsnap & H).
  pose proof (snapshot_keeps known known_inj config chain GetHeader_ok stop (header_hash header) []
                (Forall_nil_2 _) c Hc) as [Hc1 _].
  rewrite Hsnap in Hc1. cbn in Hc1. pose proof (status_window_range stop) as Hw.
  destruct (status_window stop) as [start count]. destruct Hw as (Hw1 & Hw2 & Hw3 & Hw4); [lia|].
  apply StM_bind_Ok in H as ([opt signs] & c2 & Hl & H). injection H as <- <-. cbn.
  destruct (status_loop_counts (Z.to_nat (stop - start)) start stop 0
    (fold_left (fun m a => <[a := 0]> m) (signers snap) ∅)) with (s := c1) as [_ Hcount]; [lia|lia|lia|done|].
  rewrite Hl in Hcount. destruct (Hcount _ eq_refl) as (l & Hlen & Hwin & Ho & Hsig). cbn in Ho, Hsig.
  split; [done|]. exists l. split_and!.
  - rewrite Hlen. f_equal. lia.
  - by replace (stop - count) with start by lia.
  - by rewrite Ho.
  - intros a. rewrite Hsig, zero_signs. lia.
Qed.

(** On block 64 the window starts with the genesis block, which nobody sealed:
    the query fails. *)
Theorem Status_block_64 header genesis e c :
  clique_ok known config chain c -> CurrentHeader chain = Some header -> number_of header = Ok 64 ->
  GetHeaderByNumber chain 0 = Some genesis -> recover genesis = Err e ->
  forall st, (Status chain c).1 <> Ok st.
Proof.
  intros Hc Hh Hn Hg He st Hst. destruct (Status chain c) as [r c'] eqn:E. cbn in Hst. subst r.
  destruct (Status_counts header 64 c st c' Hc Hh Hn ltac:(lia) E) as (Hnum & l & Hl & Hw & _).
  cbn in Hnum. rewrite Hnum in Hl, Hw. destruct l as [|[h a] l]; [done|].
  destruct (Hw 0%nat h a eq_refl) as [Hh0 Ha]. change (64 - 64 + Z.of_nat 0) with 0 in Hh0. rewrite Hg in Hh0. injection Hh0 as <-. congruence.
Qed.
End Counts.

(** ** Short chains and unknown blocks *)

Module ApiExample.
Import CliqueExample EngineExample.
#[local] Existing Instance id_crypto.
#[local] Existing Instance map_env.

(** A chain with only the genesis, and one with one block on top. *)
Definition young (head : Header) : ChainHeaderReader := {|
  Config := Config reader; CurrentHeader := Some head; GetHeader := GetHeader reader;
  GetHeaderByNumber := GetHeaderByNumber reader; GetHeaderByHash := GetHeaderByHash reader |}.

Definition percent_and_blocks (chain : ChainHeaderReader) : outcome (Z * Z * Z) :=
  match (Status chain engine).1 with
  | Ok st => Ok (InturnPercent st, NumBlocks st)
  | Err e => Err e
  | Panic p => Panic p
  end.

(** On the genesis block the number of blocks wraps around, and on block 1 the
    percentage is a division of zero by zero. *)
Theorem Status_short_chain :
  percent_and_blocks (young block0) = Ok (0, two64 - 1, two64 - 1) /\
  percent_and_blocks (young block1) = Ok (0, 0, 0).
Proof. split; vm_compute; reflexivity. Qed.

(** Asking for the signer of a block the node does not have panics, where the
    other queries return an error. *)
Theorem GetSigner_unknown_block dec_block dec_header :
  (GetSigner dec_block dec_header reader {| BlockNumberOrHash := Some (Some 7, None); RLP := [] |} engine).1 =
    Panic "invalid memory address or nil pointer dereference" /\
  (GetSigners reader (Some 7) engine).1 = Err errUnknownBlock.
Proof. split; vm_compute; reflexivity. Qed.

(** On block 2 the window is block 1, which the first signer sealed. *)
Definition counts : outcome (Z * list Z) :=
  match (Status reader engine).1 with
  | Ok st => Ok (NumBlocks st, List.map (fun a => default (-1) (SigningStatus st !! a)) [account 1; account 2; account 3])
  | Err e => Err e
  | Panic p => Panic p
  end.

Example block2_status : counts = Ok (1, [1; 0; 0]).
Proof. vm_compute. reflexivity. Qed.
End ApiExample.
