(* ===== verification/ForkId.v ===== *)
(** * Fork identifiers

    core/forkid/forkid.go: the checksum of a node's past forks that peers
    exchange in the handshake (EIP-2124), and the filter that decides from it
    whether the two chains are compatible. *)

From S2P Require Import Prelude EthTypes.
From Stdlib Require Import Permutation.

(** ** CRC-32

    [hash/crc32] with the IEEE polynomial, bit by bit. *)

Definition crc_poly : Z := 3988292384.
Definition ones32 : Z := 4294967295.

Definition crc_bit (c : Z) : Z :=
  if Z.testbit c 0 then Z.lxor (Z.shiftr c 1) crc_poly else Z.shiftr c 1.

Definition crc_byte (c : Z) (b : byte) : Z := Nat.iter 8 crc_bit (Z.lxor c (byte_val b)).

(** [crc32.Update(crc, crc32.IEEETable, p)]. *)
Definition crc32_Update (crc : Z) (p : bytes) : Z :=
  Z.lxor (fold_left crc_byte p (Z.lxor crc ones32)) ones32.

Definition crc32_ChecksumIEEE (p : bytes) : Z := crc32_Update 0 p.

(** [binary.BigEndian.PutUint64] and [PutUint32]. *)
Definition put_be (n : nat) (v : Z) : bytes :=
  (fun k : nat => to_byte (Z.shiftr v (8 * Z.of_nat (n - 1 - k)))) <$> seq 0 n.

(** ** Forks of a chain *)

(** [geth:core/forkid/forkid.go] ID *)
Record ID := { id_Hash : bytes; id_Next : Z }.

(** [geth:core/forkid/forkid.go] checksumUpdate *)
Definition checksumUpdate (hash fork : Z) : Z := crc32_Update hash (put_be 8 fork).

(** [geth:core/forkid/forkid.go] checksumToBytes *)
Definition checksumToBytes (hash : Z) : bytes := put_be 4 hash.

(** The fields of [params.ChainConfig] of type [*big.Int] whose name ends in Block,
    in order of declaration.
    [geth:core/forkid/forkid.go:216-235] gatherForks *)
Definition fork_rules (c : ChainConfig) : list (option Z) :=
  [HomesteadBlock c; DAOForkBlock c; EIP150Block c; EIP155Block c; EIP158Block c; ByzantiumBlock c;
   ConstantinopleBlock c; PetersburgBlock c; IstanbulBlock c; MuirGlacierBlock c; BerlinBlock c; LondonBlock c;
   CatalystBlock c].

(** One pass of the inner loop: [forks[i]] against the elements after it.
    [geth:core/forkid/forkid.go:238-242] gatherForks *)
Fixpoint sort_pass (x : Z) (l : list Z) : Z * list Z :=
  match l with
  | [] => (x, [])
  | y :: rest =>
      if y <? x then let '(m, rest') := sort_pass y rest in (m, x :: rest')
      else let '(m, rest') := sort_pass x rest in (m, y :: rest')
  end.

(** The outer loop; [n] counts the positions left.
    [geth:core/forkid/forkid.go:236-243] gatherForks *)
Fixpoint sort_forks (n : nat) (l : list Z) : list Z :=
  match n, l with
  | S n', x :: rest => let '(m, rest') := sort_pass x rest in m :: sort_forks n' rest'
  | _, _ => l
  end.

(** [geth:core/forkid/forkid.go:244-250] gatherForks *)
Fixpoint dedup_from (prev : Z) (l : list Z) : list Z :=
  match l with
  | [] => []
  | y :: rest => if y =? prev then dedup_from prev rest else y :: dedup_from y rest
  end.

Definition dedup_forks (l : list Z) : list Z :=
  match l with
  | [] => []
  | x :: rest => x :: dedup_from x rest
  end.

(** [geth:core/forkid/forkid.go] gatherForks *)
Definition gatherForks (c : ChainConfig) : list Z :=
  let forks : list Z := omap (fun rule : option Z => big_Uint64 <$> rule) (fork_rules c) in
  let forks := dedup_forks (sort_forks (length forks) forks) in
  match forks with
  | 0 :: rest => rest
  | _ => forks
  end.

(** ** Identifiers *)

(** The loop of [NewID].
    [geth:core/forkid/forkid.go:73-83] NewID *)
Fixpoint NewID_loop (head hash : Z) (forks : list Z) {struct forks} : Z * Z :=
  match forks with
  | [] => (hash, 0)
  | fork :: rest =>
      if fork <=? head then NewID_loop head (checksumUpdate hash fork) rest
      else (hash, fork)
  end.

(** [geth:core/forkid/forkid.go] NewID *)
Definition NewID (config : ChainConfig) (genesis : Hash) (head : Z) : ID :=
  let '(hash, next) := NewID_loop head (crc32_ChecksumIEEE genesis) (gatherForks config) in
  {| id_Hash := checksumToBytes hash; id_Next := next |}.

(** ** The filter *)

Definition ErrRemoteStale : error := "remote needs update".
Definition ErrLocalIncompatibleOrStale : error := "local incompatible or needs update".
Definition MaxUint64 : Z := 18446744073709551615.

(** The checksums after the genesis block and after every fork.
    [geth:core/forkid/forkid.go:123-128] newFilter *)
Fixpoint fork_sums (hash : Z) (forks : list Z) {struct forks} : list bytes :=
  checksumToBytes hash ::
  match forks with
  | [] => []
  | fork :: rest => fork_sums (checksumUpdate hash fork) rest
  end.

(** [for j := 0; j < i; j++], rule 2: the first match decides.
    [geth:core/forkid/forkid.go:172-182] newFilter *)
Fixpoint subset_check (id : ID) (sums : list bytes) (forks : list Z) : option (outcome unit) :=
  match sums, forks with
  | s :: sums', f :: forks' =>
      if bool_decide (s = id_Hash id) then Some (ensure (f =? id_Next id) ErrRemoteStale)
      else subset_check id sums' forks'
  | _, _ => None
  end.

(** The closure; [i] is the index of the first fork of [l].
    [geth:core/forkid/forkid.go:134-196] newFilter *)
Fixpoint filter_loop (id : ID) (head : Z) (forks : list Z) (sums : list bytes) (i : nat) (l : list Z) :
    outcome unit :=
  match l with
  | [] => mret tt
  | fork :: rest =>
      if fork <=? head then filter_loop id head forks sums (S i) rest
      else
        s ← index sums i;
        if bool_decide (s = id_Hash id) then
          ensure (negb ((0 <? id_Next id) && (id_Next id <=? head))) ErrLocalIncompatibleOrStale
        else
          match subset_check id (take i sums) (take i forks) with
          | Some r => r
          | None =>
              ensure (existsb (fun s => bool_decide (s = id_Hash id)) (drop (S i) sums))
                ErrLocalIncompatibleOrStale
          end
  end.

(** [geth:core/forkid/forkid.go] newFilter *)
Definition newFilter (config : ChainConfig) (genesis : Hash) (head : Z) (id : ID) : outcome unit :=
  let forks := gatherForks config in
  let sums := fork_sums (crc32_ChecksumIEEE genesis) forks in
  let forks := forks ++ [MaxUint64] in
  filter_loop id head forks sums 0 forks.

(** [geth:core/forkid/forkid.go] NewStaticFilter *)
Definition NewStaticFilter (config : ChainConfig) (genesis : Hash) (id : ID) : outcome unit :=
  newFilter config genesis 0 id.

(** ** The chain of an identifier *)

(** What the two functions read of a chain. *)
Record Blockchain := { bc_Config : ChainConfig; bc_GenesisHash : Hash; bc_CurrentHeader : Header }.

(** [geth:core/forkid/forkid.go] NewIDWithChain *)
Definition NewIDWithChain (chain : Blockchain) : outcome ID :=
  n ← number_of (bc_CurrentHeader chain);
  mret (NewID (bc_Config chain) (bc_GenesisHash chain) n).

(** [geth:core/forkid/forkid.go] NewFilter *)
Definition NewFilter (chain : Blockchain) (id : ID) : outcome unit :=
  n ← number_of (bc_CurrentHeader chain);
  newFilter (bc_Config chain) (bc_GenesisHash chain) n id.

(** ** The forks are an increasing list *)

Lemma sort_pass_spec x l m l' :
  sort_pass x l = (m, l') -> Permutation (x :: l) (m :: l') /\ Forall (fun y => m <= y) l' /\ length l' = length l.
Proof.
  revert x m l'. induction l as [|y l IH]; intros x m l'; cbn; [by intros [= <- <-]|].
  destruct (Z.ltb_spec y x) as [Hlt|Hge].
  - destruct (sort_pass y l) as [m0 l0] eqn:E. intros [= <- <-]. destruct (IH _ _ _ E) as (HP & HF & HL).
    split_and!; [|constructor; [|done]|cbn; lia].
    + rewrite HP. apply Permutation_swap.
    + assert (y ∈ m0 :: l0) as Hy by (rewrite <- HP; left). apply elem_of_cons in Hy as [->|Hy]; [lia|].
      rewrite Forall_forall in HF. specialize (HF _ Hy). lia.
  - destruct (sort_pass x l) as [m0 l0] eqn:E. intros [= <- <-]. destruct (IH _ _ _ E) as (HP & HF & HL).
    split_and!; [|constructor; [|done]|cbn; lia].
    + rewrite Permutation_swap, HP. apply Permutation_swap.
    + assert (x ∈ m0 :: l0) as Hx by (rewrite <- HP; left). apply elem_of_cons in Hx as [->|Hx]; [lia|].
      rewrite Forall_forall in HF. specialize (HF _ Hx). lia.
Qed.

Lemma sort_forks_spec n l : length l = n -> Permutation l (sort_forks n l) /\ StronglySorted Z.le (sort_forks n l).
Proof.
  revert l. induction n as [|n IH]; intros [|x l] Hn; try done; [split; constructor|]. cbn.
  destruct (sort_pass x l) as [m l'] eqn:E. destruct (sort_pass_spec _ _ _ _ E) as (HP & HF & HL).
  destruct (IH l') as [HP' HS]; [cbn in Hn; lia|]. split; [by rewrite HP, HP' at 1|].
  constructor; [done|]. by rewrite <- HP'.
Qed.

Lemma dedup_from_spec prev l :
  StronglySorted Z.le (prev :: l) ->
  StronglySorted Z.lt (prev :: dedup_from prev l) /\ forall x, x ∈ prev :: dedup_from prev l <-> x ∈ prev :: l.
Proof.
  revert prev. induction l as [|y l IH]; intros prev HS; [split; [by repeat constructor|done]|].
  apply StronglySorted_inv in HS as [HS HF]. inversion HF as [|? ? Hy HF']; subst. cbn.
  destruct (Z.eqb_spec y prev) as [->|Hne].
  - destruct (IH prev HS) as [H1 H2]. split; [done|]. intros x. rewrite H2. rewrite !elem_of_cons. tauto.
  - destruct (IH y HS) as [H1 H2]. split.
    + constructor; [done|]. apply Forall_forall. intros x Hx. rewrite H2 in Hx.
      apply StronglySorted_inv in HS as [_ HF2]. rewrite Forall_forall in HF2.
      apply elem_of_cons in Hx as [->|Hx]; [lia|]. specialize (HF2 _ Hx). lia.
    + intros x. rewrite elem_of_cons, H2, !elem_of_cons. tauto.
Qed.

Lemma dedup_forks_spec l :
  StronglySorted Z.le l -> StronglySorted Z.lt (dedup_forks l) /\ forall x, x ∈ dedup_forks l <-> x ∈ l.
Proof. destruct l as [|x l]; [by split; [constructor|]|]. apply dedup_from_spec. Qed.

(** The scheduled forks after genesis, each once and in increasing order. *)
Lemma gatherForks_spec c :
  StronglySorted Z.lt (gatherForks c) /\
  forall x, x ∈ gatherForks c <-> x <> 0 /\ exists r, Some r ∈ fork_rules c /\ x = big_Uint64 r.
Proof.
  unfold gatherForks. set (fs := omap (fun rule : option Z => big_Uint64 <$> rule) (fork_rules c) : list Z).
  destruct (sort_forks_spec (length fs) fs eq_refl) as [HP HS].
  destruct (dedup_forks_spec _ HS) as [HD HE].
  assert (forall x, x ∈ dedup_forks (sort_forks (length fs) fs) <-> exists r, Some r ∈ fork_rules c /\ x = big_Uint64 r) as Hin.
  { intros x. rewrite HE, <- HP. unfold fs. rewrite list_elem_of_omap.
    split; [intros ([r|] & Hr & [= <-]); by exists r|]. intros (r & Hr & ->). by exists (Some r). }
  assert (forall x, x ∈ dedup_forks (sort_forks (length fs) fs) -> 0 <= x) as Hpos.
  { intros x Hx. apply Hin in Hx as (r & _ & ->). apply u64_range. }
  clearbody fs. destruct (dedup_forks (sort_forks (length fs) fs)) as [|x l]; [split; [done|]|].
  { intros x. rewrite <- Hin. set_solver. }
  apply StronglySorted_inv in HD as [HD HF]. rewrite Forall_forall in HF.
  assert (forall y, y ∈ l -> y <> 0) as Hnz.
  { intros y Hy. specialize (HF y Hy). specialize (Hpos x ltac:(left)). lia. }
  destruct (decide (x = 0)) as [->|Hx].
  - split; [done|]. intros y. rewrite <- Hin, elem_of_cons. naive_solver.
  - destruct x as [|x|x]; [done|..]; (split; [by constructor; [|apply Forall_forall]|]); intros y; rewrite <- Hin;
      (split; [|tauto]); intros Hy; (split; [|done]); apply elem_of_cons in Hy as [->|Hy]; auto.
Qed.

(** ** Identifiers and checksums *)

#[local] Opaque checksumUpdate checksumToBytes crc32_ChecksumIEEE.

(** How many forks a head has passed. *)
Definition passed (head : Z) (forks : list Z) : nat := length (filter (fun f => f <= head) forks).

Lemma passed_le head fs : (passed head fs <= length fs)%nat.
Proof. apply length_filter. Qed.

Lemma passed_none head f fs : StronglySorted Z.lt (f :: fs) -> head < f -> passed head (f :: fs) = 0%nat.
Proof.
  intros HS Hf. apply StronglySorted_inv in HS as [_ HF]. unfold passed.
  rewrite filter_cons_False by lia. induction HF as [|y fs Hy _ IH]; [done|].
  by rewrite filter_cons_False by lia.
Qed.

Lemma passed_cons head f fs : f <= head -> passed head (f :: fs) = S (passed head fs).
Proof. intros H. unfold passed. by rewrite filter_cons_True. Qed.

(** The next fork lies ahead. *)
Lemma passed_next head fs f : StronglySorted Z.lt fs -> fs !! passed head fs = Some f -> head < f.
Proof.
  induction fs as [|g fs IH]; intros HS; [done|]. destruct (decide (g <= head)) as [Hg|Hg].
  - rewrite passed_cons by done. intros H. apply IH; [by apply StronglySorted_inv in HS as [? _]|exact H].
  - rewrite passed_none by (done || lia). intros [= ->]. lia.
Qed.

(** The checksum of the first [j] forks. *)
Definition history_sum (genesis : Hash) (forks : list Z) (j : nat) : bytes :=
  checksumToBytes (fold_left checksumUpdate (take j forks) (crc32_ChecksumIEEE genesis)).

Lemma fold_left_take_S {A B} (u : A -> B -> A) k f fs h :
  fold_left u (take (S k) (f :: fs)) h = fold_left u (take k fs) (u h f).
Proof. done. Qed.

Lemma lookup_cons_S {A} (x : A) l k : (x :: l) !! S k = l !! k.
Proof. done. Qed.

Lemma NewID_loop_cons head h f fs :
  NewID_loop head h (f :: fs) = if f <=? head then NewID_loop head (checksumUpdate h f) fs else (h, f).
Proof. done. Qed.

Lemma NewID_loop_eq head h fs :
  StronglySorted Z.lt fs ->
  NewID_loop head h fs = (fold_left checksumUpdate (take (passed head fs) fs) h, default 0 (fs !! passed head fs)).
Proof.
  revert h. induction fs as [|f fs IH]; intros h HS; [done|]. rewrite NewID_loop_cons.
  destruct (Z.leb_spec f head).
  - rewrite passed_cons by done. rewrite fold_left_take_S, lookup_cons_S. apply IH. by apply StronglySorted_inv in HS as [? _].
  - by rewrite passed_none.
Qed.

Lemma fork_sums_length h fs : length (fork_sums h fs) = S (length fs).
Proof. revert h. induction fs as [|f fs IH]; intros h; cbn; [done|]. by rewrite IH. Qed.

Lemma fork_sums_cons h f fs : fork_sums h (f :: fs) = checksumToBytes h :: fork_sums (checksumUpdate h f) fs.
Proof. done. Qed.

Lemma fork_sums_lookup h fs j :
  (j <= length fs)%nat -> fork_sums h fs !! j = Some (checksumToBytes (fold_left checksumUpdate (take j fs) h)).
Proof.
  revert h fs. induction j as [|j IH]; intros h fs Hj; [by destruct fs|].
  destruct fs as [|f fs]; [cbn in Hj; lia|]. rewrite fork_sums_cons, lookup_cons_S, fold_left_take_S. apply IH. cbn in Hj. lia.
Qed.

Lemma NewID_eq c g head :
  let fs := gatherForks c in
  NewID c g head = {| id_Hash := history_sum g fs (passed head fs); id_Next := default 0 (fs !! passed head fs) |}.
Proof. intros fs. unfold NewID. rewrite NewID_loop_eq by apply gatherForks_spec. done. Qed.

(** ** The decision of the filter *)

(** The branch taken at the first fork that is not passed. *)
Definition decide_at (id : ID) (head : Z) (forks : list Z) (sums : list bytes) (i : nat) : outcome unit :=
  s ← index sums i;
  if bool_decide (s = id_Hash id) then
    ensure (negb ((0 <? id_Next id) && (id_Next id <=? head))) ErrLocalIncompatibleOrStale
  else
    match subset_check id (take i sums) (take i forks) with
    | Some r => r
    | None => ensure (existsb (fun s => bool_decide (s = id_Hash id)) (drop (S i) sums)) ErrLocalIncompatibleOrStale
    end.

Lemma filter_loop_eq id head forks sums i l :
  StronglySorted Z.lt l -> head < MaxUint64 ->
  filter_loop id head forks sums i (l ++ [MaxUint64]) = decide_at id head forks sums (i + passed head l).
Proof.
  revert i. induction l as [|f l IH]; intros i HS Hh; cbn [app filter_loop].
  - rewrite (proj2 (Z.leb_gt _ _)) by done. by rewrite Nat.add_0_r.
  - destruct (Z.leb_spec f head).
    + rewrite IH; [|by apply StronglySorted_inv in HS as [? _]|done]. rewrite passed_cons by done. f_equal. lia.
    + by rewrite passed_none, Nat.add_0_r.
Qed.

Lemma subset_check_none id ss ff : id_Hash id ∉ ss -> subset_check id ss ff = None.
Proof.
  revert ff. induction ss as [|s ss IH]; intros ff H; [done|]. destruct ff as [|f ff]; [done|]. cbn.
  rewrite bool_decide_false by set_solver. apply IH. set_solver.
Qed.

Lemma subset_check_some id ss ff j f :
  NoDup ss -> ss !! j = Some (id_Hash id) -> ff !! j = Some f ->
  subset_check id ss ff = Some (ensure (f =? id_Next id) ErrRemoteStale).
Proof.
  revert ss ff. induction j as [|j IH]; intros [|s ss] [|g ff] HN Hs Hf; try done; cbn in *.
  - injection Hs as ->. injection Hf as ->. by rewrite bool_decide_true.
  - apply NoDup_cons in HN as [Hn HN]. rewrite bool_decide_false; [by apply IH|].
    intros ->. apply Hn; by eapply list_elem_of_lookup_2.
Qed.

(** The rules of EIP-2124, with [k] forks passed: a checksum equal to ours is
    accepted unless the announced fork is behind us; one of our past must
    announce the fork that followed; one of our future is accepted; any other is
    rejected. *)
Definition eip2124 (fs : list Z) (sums : list bytes) (head : Z) (id : ID) : outcome unit :=
  let k := passed head fs in
  match list_find (fun s => s = id_Hash id) sums with
  | None => Err ErrLocalIncompatibleOrStale
  | Some (j, _) =>
      if bool_decide (j = k) then
        ensure (negb ((0 <? id_Next id) && (id_Next id <=? head))) ErrLocalIncompatibleOrStale
      else if bool_decide (j < k)%nat then ensure (bool_decide (fs !! j = Some (id_Next id))) ErrRemoteStale
      else mret tt
  end.

Lemma decide_at_eq id head fs sums :
  length sums = S (length fs) -> NoDup sums ->
  decide_at id head (fs ++ [MaxUint64]) sums (passed head fs) = eip2124 fs sums head id.
Proof.
  intros HL HN. unfold decide_at, eip2124. set (k := passed head fs).
  assert (k <= length fs)%nat as Hk by apply passed_le. clearbody k.
  destruct (lookup_lt_is_Some_2 sums k) as [s Hs]; [lia|]. rewrite (proj2 (index_Ok _ _ _) Hs). cbn.
  destruct (list_find _ sums) as [[j s']|] eqn:Hf.
  - apply list_find_Some in Hf as (Hj & Hs' & _). subst s'.
    assert (j < length sums)%nat as Hjl by (by eapply lookup_lt_Some).
    destruct (decide (j = k)) as [->|Hjk].
    { rewrite Hs in Hj. injection Hj as ->. by rewrite !bool_decide_true by done. }
    rewrite (bool_decide_false (j = k)) by done. rewrite bool_decide_false
      by (intros ->; apply Hjk; eapply NoDup_lookup; eauto).
    destruct (decide (j < k)%nat) as [Hlt|Hge].
    + destruct (lookup_lt_is_Some_2 fs j) as [f Ef]; [lia|].
      erewrite subset_check_some; [| |by rewrite lookup_take_lt| by rewrite lookup_take_lt, lookup_app_l by lia].
      * rewrite (bool_decide_true (j < k)%nat), Ef by done.
        destruct (Z.eqb_spec f (id_Next id)) as [->|Hne]; [by rewrite bool_decide_true|].
        rewrite bool_decide_false; [done|]. by intros [= ->].
      * rewrite <- (take_drop k sums) in HN. by apply NoDup_app in HN as [? _].
    + rewrite (bool_decide_false (j < k)%nat) by done.
      rewrite subset_check_none.
      * rewrite (proj2 (existsb_exists _ _)); [done|]. exists (id_Hash id). rewrite bool_decide_true by done.
        split; [|done]. apply list_elem_of_In, (list_elem_of_lookup_2 _ (j - S k)). rewrite lookup_drop.
        by replace (S k + (j - S k))%nat with j by lia.
      * intros (i & Hi)%list_elem_of_lookup. apply lookup_take_Some in Hi as [Hi Hik].
        assert (i = j) by (eapply NoDup_lookup; eauto). lia.
  - apply list_find_None in Hf. rewrite Forall_forall in Hf. rewrite bool_decide_false
      by (apply Hf; by eapply list_elem_of_lookup_2).
    rewrite subset_check_none; [|intros H; by apply (Hf (id_Hash id)); [eapply elem_of_take in H as (? & ? & ?); by eapply list_elem_of_lookup_2|]].
    destruct (existsb _ _) eqn:E; [|done]. apply existsb_exists in E as (x & Hx & Hxe).
    apply bool_decide_eq_true in Hxe. destruct (Hf x); [|done]. apply list_elem_of_In in Hx.
    apply list_elem_of_lookup in Hx as [i Hi]. rewrite lookup_drop in Hi.
    by eapply list_elem_of_lookup_2.
Qed.

Lemma newFilter_eq c g head id :
  let fs := gatherForks c in let sums := fork_sums (crc32_ChecksumIEEE g) fs in
  head < MaxUint64 -> NoDup sums -> newFilter c g head id = eip2124 fs sums head id.
Proof.
  intros fs sums Hh HN. unfold newFilter. rewrite filter_loop_eq; [|apply gatherForks_spec|done].
  apply decide_at_eq; [apply fork_sums_length|done].
Qed.

(** C8. The filter decides by the rules of EIP-2124, for any announced identifier and
    any head below the last uint64:
    the forks it works with are the scheduled non-genesis forks in increasing
    order without repetition, and as long as their checksums do not collide
    the loop over forks, subset check and superset check give exactly the
    decision, error value included, of comparing positions in the fork
    history. *)
Theorem newFilter_decides_eip2124 c g head id :
  let fs := gatherForks c in let sums := fork_sums (crc32_ChecksumIEEE g) fs in
  head < MaxUint64 -> NoDup sums ->
  newFilter c g head id = eip2124 fs sums head id /\
  (forall j, (j <= length fs)%nat -> sums !! j = Some (history_sum g fs j)) /\
  StronglySorted Z.lt fs /\ forall x, x ∈ fs <-> x <> 0 /\ exists r, Some r ∈ fork_rules c /\ x = big_Uint64 r.
Proof.
  intros fs sums Hh HN. split; [by apply newFilter_eq|]. split; [intros; by apply fork_sums_lookup|].
  apply gatherForks_spec.
Qed.

(** Nodes of one chain never refuse each other over the fork identifier: the
    identifier announced at any head is accepted at any other. *)
Lemma NewID_accepted c g head head' :
  let fs := gatherForks c in
  head < MaxUint64 -> NoDup (fork_sums (crc32_ChecksumIEEE g) fs) ->
  newFilter c g head (NewID c g head') = Ok tt.
Proof.
  intros fs Hh HN. rewrite newFilter_eq by done. rewrite NewID_eq. fold fs. unfold eip2124. cbn [id_Hash id_Next].
  set (sums := fork_sums _ _) in *. set (k' := passed head' fs).
  assert (sums !! k' = Some (history_sum g fs k')) as Hk' by apply fork_sums_lookup, passed_le.
  assert (list_find (fun s => s = history_sum g fs k') sums = Some (k', history_sum g fs k')) as ->.
  { apply list_find_Some. split_and!; [done..|]. intros j y Hj Hlt ->.
    assert (j = k') by (eapply NoDup_lookup; eauto). lia. }
  case_bool_decide as E1.
  - rewrite E1. destruct (fs !! passed head fs) as [f|] eqn:Ef; [|done]. cbn [default from_option id].
    assert (head < f); [|by rewrite (proj2 (Z.leb_gt f head)), andb_false_r].
    eapply passed_next; [apply gatherForks_spec|exact Ef].
  - case_bool_decide as E2; [|done]. destruct (lookup_lt_is_Some_2 fs k') as [f Ef].
    { pose proof (passed_le head fs). lia. }
    rewrite Ef. by rewrite bool_decide_true.
Qed.

(** ** Mainnet *)

#[local] Transparent checksumUpdate checksumToBytes crc32_ChecksumIEEE.

Module MainnetExample.
(** [params.MainnetChainConfig] and [params.MainnetGenesisHash]. *)
Definition mainnet : ChainConfig := {|
  HomesteadBlock := Some 1150000; DAOForkBlock := Some 1920000; DAOForkSupport := true; EIP150Block := Some 2463000; EIP150Hash := zeroHash;
  EIP155Block := Some 2675000; EIP158Block := Some 2675000; ByzantiumBlock := Some 4370000;
  ConstantinopleBlock := Some 7280000; PetersburgBlock := Some 7280000; IstanbulBlock := Some 9069000;
  MuirGlacierBlock := Some 9200000; BerlinBlock := Some 12244000; LondonBlock := Some 12965000;
  CatalystBlock := None |}.

Definition mainnetGenesis : Hash :=
  put_be 32 96295644508963302359223866841007920022480890644992946816264522587871600414627.

(** The first identifiers listed in forkid_test.go. *)
Example mainnet_ids :
  (fun head => (be_val (id_Hash (NewID mainnet mainnetGenesis head)), id_Next (NewID mainnet mainnetGenesis head)))
    <$> [0; 1149999; 1150000; 1920000; 2463000; 2675000; 4370000; 7280000] =
  [(4234472452, 1150000); (4234472452, 1150000); (2546123596, 1920000); (2446457160, 2463000);
   (2053429779, 2675000); (1054694160, 4370000); (2685125412, 7280000); (1720561839, 9069000)].
Proof. vm_compute. reflexivity. Qed.

Lemma mainnet_nodup : NoDup (fork_sums (crc32_ChecksumIEEE mainnetGenesis) (gatherForks mainnet)).
Proof. apply (bool_decide_eq_true _). vm_compute. reflexivity. Qed.

Lemma newFilter_decides_eip2124_witness :
  newFilter mainnet mainnetGenesis 7987396 {| id_Hash := put_be 4 1720561839; id_Next := 7987396 |} =
  eip2124 (gatherForks mainnet) (fork_sums (crc32_ChecksumIEEE mainnetGenesis) (gatherForks mainnet)) 7987396
    {| id_Hash := put_be 4 1720561839; id_Next := 7987396 |}.
Proof.
  apply (newFilter_decides_eip2124 mainnet mainnetGenesis 7987396
           {| id_Hash := put_be 4 1720561839; id_Next := 7987396 |}); [reflexivity|apply mainnet_nodup].
Defined.

End MainnetExample.
