(* ===== verification/GethFuzzer.v ===== *)
(** * The Ethereum peer and its fuzzers

    eth/protocols/eth: the peer's bookkeeping of known blocks and transactions
    and its send methods, which keep every message as a seed (peer.go), the
    message fuzzer (MessageFuzz.go) and the transaction fuzzer
    (TransactionFuzz.go).

    Headers, transactions and blocks are shared with the rest of the node
    through pointers: they live in a heap, and messages hold locations.  A
    packet itself is only reachable through the seed slices, so those hold the
    packets.  The fifteen seed slices of the [Peer] struct are one map keyed by
    message code.  What was written to the connection is a trace, with the
    pointers resolved at the time of sending.  Sleeping, logging and the file
    with iteration counts are left out. *)

From Stdlib Require Import String.
From S2P Require Import Prelude Randomness EthTypes.

(** ** Messages *)

Abbreviation loc := positive.

Definition StatusMsg : Z := 0.
Definition NewBlockHashesMsg : Z := 1.
Definition TransactionsMsg : Z := 2.
Definition GetBlockHeadersMsg : Z := 3.
Definition BlockHeadersMsg : Z := 4.
Definition GetBlockBodiesMsg : Z := 5.
Definition BlockBodiesMsg : Z := 6.
Definition NewBlockMsg : Z := 7.
Definition NewPooledTransactionHashesMsg : Z := 8.
Definition GetPooledTransactionsMsg : Z := 9.
Definition PooledTransactionsMsg : Z := 10.
Definition GetNodeDataMsg : Z := 13.
Definition NodeDataMsg : Z := 14.
Definition GetReceiptsMsg : Z := 15.
Definition ReceiptsMsg : Z := 16.

(** [geth:eth/protocols/eth/protocol.go] HashOrNumber *)
Record HashOrNumber := { on_Hash : Hash; on_Number : Z }.

(** The packet types of the protocol; the ones over eth/66 carry a request id
    (the methods between the type declarations are separate definitions).
    [geth:eth/protocols/eth/protocol.go:86-317] Packet *)
Inductive Packet :=
| StatusPacket (ProtocolVersion NetworkID TD : Z) (Head Genesis : Hash) (ForkHash : bytes) (ForkNext : Z)
| NewBlockHashesPacket (entries : list (Hash * Z))
| TransactionsPacket (txs : list loc)
| GetBlockHeadersPacket66 (RequestId : Z) (Origin : HashOrNumber) (Amount Skip : Z) (Reverse : bool)
| BlockHeadersPacket66 (RequestId : Z) (headers : list loc)
| GetBlockBodiesPacket66 (RequestId : Z) (hashes : list Hash)
| BlockBodiesRLPPacket66 (RequestId : Z) (bodies : list bytes)
| NewBlockPacket (Block : loc) (TD : Z)
| NewPooledTransactionHashesPacket (hashes : list Hash)
| GetPooledTransactionsPacket66 (RequestId : Z) (hashes : list Hash)
| PooledTransactionsRLPPacket66 (RequestId : Z) (txs : list bytes)
| GetNodeDataPacket66 (RequestId : Z) (hashes : list Hash)
| NodeDataPacket66 (RequestId : Z) (data : list bytes)
| GetReceiptsPacket66 (RequestId : Z) (hashes : list Hash)
| ReceiptsRLPPacket66 (RequestId : Z) (receipts : list bytes).

(** [geth:eth/protocols/eth/protocol.go:319-363] Kind *)
Definition Kind (m : Packet) : Z :=
  match m with
  | StatusPacket _ _ _ _ _ _ _ => StatusMsg
  | NewBlockHashesPacket _ => NewBlockHashesMsg
  | TransactionsPacket _ => TransactionsMsg
  | GetBlockHeadersPacket66 _ _ _ _ _ => GetBlockHeadersMsg
  | BlockHeadersPacket66 _ _ => BlockHeadersMsg
  | GetBlockBodiesPacket66 _ _ => GetBlockBodiesMsg
  | BlockBodiesRLPPacket66 _ _ => BlockBodiesMsg
  | NewBlockPacket _ _ => NewBlockMsg
  | NewPooledTransactionHashesPacket _ => NewPooledTransactionHashesMsg
  | GetPooledTransactionsPacket66 _ _ => GetPooledTransactionsMsg
  | PooledTransactionsRLPPacket66 _ _ => PooledTransactionsMsg
  | GetNodeDataPacket66 _ _ => GetNodeDataMsg
  | NodeDataPacket66 _ _ => NodeDataMsg
  | GetReceiptsPacket66 _ _ => GetReceiptsMsg
  | ReceiptsRLPPacket66 _ _ => ReceiptsMsg
  end.

(** ** Shared objects *)

(** The three transaction types; [GasPrice] is the fee cap of a dynamic-fee
    transaction, which alone has a tip cap of its own. *)
Inductive TxType := LegacyTx | AccessListTx | DynamicFeeTx.

(** The hash is cached in the transaction when it is first asked for.
    [geth:core/types/transaction.go] Transaction *)
Record Transaction := {
  tx_type : TxType;
  tx_Nonce : Z;
  tx_GasPrice : Z;
  tx_GasTipCap : Z;
  tx_Gas : Z;
  tx_Value : Z;
  tx_Data : bytes;
  tx_hash : Hash;
}.

(** [geth:core/types/block.go] Block *)
Record Block := {
  b_header : Header;
  b_hash : Hash;
  b_ReceivedAt : Z;
}.

Record Heap := {
  headers : gmap loc Header;
  txs : gmap loc Transaction;
  blocks : gmap loc Block;
}.

Definition set_headers x (h : Heap) : Heap := {| headers := x; txs := txs h; blocks := blocks h |}.
Definition set_txs x (h : Heap) : Heap := {| headers := headers h; txs := x; blocks := blocks h |}.
Definition set_blocks x (h : Heap) : Heap := {| headers := headers h; txs := txs h; blocks := x |}.

(** A message on the wire: the packet and the objects it points to, as they were
    when it was sent. *)
Record Msg := {
  Code : Z;
  packet : Packet;
  m_headers : list Header;
  m_txs : list Transaction;
  m_blocks : list Block;
}.

Definition maxKnownTxs : Z := 32768.
Definition maxKnownBlocks : Z := 1024.
Definition maxQueuedBlocks : nat := 4.
Definition maxQueuedBlockAnns : nat := 4.

(** The setters of [*types.Header] fields the fuzzer writes through. *)
Definition fuzzed_header (h : Header) (bloom : bytes) (d n : option Z) (gl gu tm : Z) (nonce : bytes) : Header := {|
  ParentHash := ParentHash h; UncleHash := UncleHash h; Coinbase := Coinbase h; Root := Root h;
  TxHash := TxHash h; ReceiptHash := ReceiptHash h; Bloom := bloom; Difficulty := d; Number := n;
  GasLimit := gl; GasUsed := gu; Time := tm; Extra := Extra h; MixDigest := MixDigest h;
  Nonce := nonce; BaseFee := BaseFee h |}.

Section Peer.
Context {Rnd : Randomness}.
(** [mapset.Set.Pop]: the element an arbitrary map iteration yields first. *)
Context (pop_choice : gset Hash -> option Hash).

(** [geth:eth/protocols/eth/peer.go] Peer *)
Record Peer := {
  rng : RNG;
  heap : Heap;
  head : Hash;
  td : Z;
  knownBlocks : gset Hash;
  knownTxs : gset Hash;
  queuedBlocks : list (loc * Z);
  queuedBlockAnns : list loc;
  txBroadcast : list (list Hash);
  txAnnounce : list (list Hash);
  seeds : gmap Z (list Packet);
  wire : list Msg;
  fuzzcount : Z;
}.

Definition set_rng x (p : Peer) : Peer :=
  {| rng := x; heap := heap p; head := head p; td := td p; knownBlocks := knownBlocks p; knownTxs := knownTxs p;
     queuedBlocks := queuedBlocks p; queuedBlockAnns := queuedBlockAnns p; txBroadcast := txBroadcast p;
     txAnnounce := txAnnounce p; seeds := seeds p; wire := wire p; fuzzcount := fuzzcount p |}.
Definition set_heap x (p : Peer) : Peer :=
  {| rng := rng p; heap := x; head := head p; td := td p; knownBlocks := knownBlocks p; knownTxs := knownTxs p;
     queuedBlocks := queuedBlocks p; queuedBlockAnns := queuedBlockAnns p; txBroadcast := txBroadcast p;
     txAnnounce := txAnnounce p; seeds := seeds p; wire := wire p; fuzzcount := fuzzcount p |}.
Definition set_head x y (p : Peer) : Peer :=
  {| rng := rng p; heap := heap p; head := x; td := y; knownBlocks := knownBlocks p; knownTxs := knownTxs p;
     queuedBlocks := queuedBlocks p; queuedBlockAnns := queuedBlockAnns p; txBroadcast := txBroadcast p;
     txAnnounce := txAnnounce p; seeds := seeds p; wire := wire p; fuzzcount := fuzzcount p |}.
Definition set_known b t (p : Peer) : Peer :=
  {| rng := rng p; heap := heap p; head := head p; td := td p; knownBlocks := b; knownTxs := t;
     queuedBlocks := queuedBlocks p; queuedBlockAnns := queuedBlockAnns p; txBroadcast := txBroadcast p;
     txAnnounce := txAnnounce p; seeds := seeds p; wire := wire p; fuzzcount := fuzzcount p |}.
Definition set_queues qb qa tb ta (p : Peer) : Peer :=
  {| rng := rng p; heap := heap p; head := head p; td := td p; knownBlocks := knownBlocks p; knownTxs := knownTxs p;
     queuedBlocks := qb; queuedBlockAnns := qa; txBroadcast := tb;
     txAnnounce := ta; seeds := seeds p; wire := wire p; fuzzcount := fuzzcount p |}.
Definition set_seeds x (p : Peer) : Peer :=
  {| rng := rng p; heap := heap p; head := head p; td := td p; knownBlocks := knownBlocks p; knownTxs := knownTxs p;
     queuedBlocks := queuedBlocks p; queuedBlockAnns := queuedBlockAnns p; txBroadcast := txBroadcast p;
     txAnnounce := txAnnounce p; seeds := x; wire := wire p; fuzzcount := fuzzcount p |}.
Definition set_wire x (p : Peer) : Peer :=
  {| rng := rng p; heap := heap p; head := head p; td := td p; knownBlocks := knownBlocks p; knownTxs := knownTxs p;
     queuedBlocks := queuedBlocks p; queuedBlockAnns := queuedBlockAnns p; txBroadcast := txBroadcast p;
     txAnnounce := txAnnounce p; seeds := seeds p; wire := x; fuzzcount := fuzzcount p |}.
Definition set_count x (p : Peer) : Peer :=
  {| rng := rng p; heap := heap p; head := head p; td := td p; knownBlocks := knownBlocks p; knownTxs := knownTxs p;
     queuedBlocks := queuedBlocks p; queuedBlockAnns := queuedBlockAnns p; txBroadcast := txBroadcast p;
     txAnnounce := txAnnounce p; seeds := seeds p; wire := wire p; fuzzcount := x |}.

Definition pool (code : Z) (p : Peer) : list Packet := default [] (seeds p !! code).

(** [p.XMsgs = append(p.XMsgs, msg)]. *)
Definition record_seed (m : Packet) (p : Peer) : Peer :=
  set_seeds (<[Kind m := pool (Kind m) p ++ [m]]> (seeds p)) p.

Definition draw {A} (f : RNG -> A * RNG) : StM Peer A := fun p =>
  let '(a, r) := f (rng p) in (Ok a, set_rng r p).

(** ** Known blocks and transactions *)

(** [for set.Cardinality() > limit { set.Pop() }]; every pass removes an element,
    so the cardinality bounds the passes. *)
Fixpoint evict (fuel : nat) (limit : Z) (s : gset Hash) : gset Hash :=
  match fuel with
  | O => s
  | S f =>
      if limit <? Z.of_nat (size s) then
        match pop_choice s with
        | Some x => evict f limit (s ∖ {[x]})
        | None => s
        end
      else s
  end.

Definition make_room (limit : Z) (s : gset Hash) : gset Hash := evict (size s) limit s.

Definition add_all (l : list Hash) (s : gset Hash) : gset Hash :=
  fold_left (fun acc h => {[h]} ∪ acc) l s.

(** [for card > max(0, max-len(hashes)) { Pop }; for hash { Add }]. *)
Definition mark_many (maxKnown : Z) (l : list Hash) (s : gset Hash) : gset Hash :=
  add_all l (make_room (Z.max 0 (maxKnown - Z.of_nat (length l))) s).

(** [for card >= max { Pop }; Add]. *)
Definition mark_one (maxKnown : Z) (h : Hash) (s : gset Hash) : gset Hash :=
  {[h]} ∪ make_room (maxKnown - 1) s.

(** [geth:eth/protocols/eth/peer.go] Peer.KnownBlock *)
Definition KnownBlock (h : Hash) (p : Peer) : bool := bool_decide (h ∈ knownBlocks p).

(** [geth:eth/protocols/eth/peer.go] Peer.KnownTransaction *)
Definition KnownTransaction (h : Hash) (p : Peer) : bool := bool_decide (h ∈ knownTxs p).

(** [geth:eth/protocols/eth/peer.go] Peer.markBlock *)
Definition markBlock (h : Hash) (p : Peer) : Peer :=
  set_known (mark_one maxKnownBlocks h (knownBlocks p)) (knownTxs p) p.

(** [geth:eth/protocols/eth/peer.go] Peer.markTransaction *)
Definition markTransaction (h : Hash) (p : Peer) : Peer :=
  set_known (knownBlocks p) (mark_one maxKnownTxs h (knownTxs p)) p.

(** Several block or transaction hashes at once. *)
Definition markBlocks (l : list Hash) (p : Peer) : Peer :=
  set_known (mark_many maxKnownBlocks l (knownBlocks p)) (knownTxs p) p.
Definition markTransactions (l : list Hash) (p : Peer) : Peer :=
  set_known (knownBlocks p) (mark_many maxKnownTxs l (knownTxs p)) p.

(** [geth:eth/protocols/eth/peer.go] Peer.Head *)
Definition Head (p : Peer) : Hash * Z := (head p, td p).

(** [geth:eth/protocols/eth/peer.go] Peer.SetHead *)
Definition SetHead (hash : Hash) (t : Z) (p : Peer) : Peer := set_head hash t p.

(** ** Sending *)

Definition deref_all {A} (m : gmap loc A) (l : list loc) : outcome (list A) :=
  fold_right (fun x acc => a ← deref (m !! x); rest ← acc; mret (a :: rest)) (mret []) l.

Definition header_refs (m : Packet) : list loc :=
  match m with BlockHeadersPacket66 _ l => l | _ => [] end.
Definition tx_refs (m : Packet) : list loc :=
  match m with TransactionsPacket l => l | _ => [] end.
Definition block_refs (m : Packet) : list loc :=
  match m with NewBlockPacket b _ => [b] | _ => [] end.

(** [geth:eth/protocols/eth/protocol.go] HashOrNumber.EncodeRLP *)
Definition origin_encodable (o : HashOrNumber) : outcome unit :=
  if bool_decide (on_Hash o = zeroHash) then mret tt
  else ensure (on_Number o =? 0) "both origin hash and number provided".

(** The encoder refuses negative integers; a nil one is written as zero.
    [geth:rlp/encode.go:379-399] writeBigIntPtr *)
Definition bigint_encodable (o : option Z) : bool := match o with Some z => 0 <=? z | None => true end.

Definition header_encodable (h : Header) : bool :=
  bigint_encodable (Difficulty h) && bigint_encodable (Number h) && bigint_encodable (BaseFee h).

Definition tx_encodable (t : Transaction) : bool :=
  (0 <=? tx_GasPrice t) && (0 <=? tx_Value t) &&
  match tx_type t with DynamicFeeTx => 0 <=? tx_GasTipCap t | _ => true end.

(** Integers of the packet itself. *)
Definition packet_encodable (m : Packet) : bool :=
  match m with
  | StatusPacket _ _ t _ _ _ _ => 0 <=? t
  | NewBlockPacket _ t => 0 <=? t
  | _ => true
  end.

Definition encodable (m : Packet) (hs : list Header) (ts : list Transaction) (bs : list Block) : outcome unit :=
  _ ← match m with GetBlockHeadersPacket66 _ o _ _ _ => origin_encodable o | _ => mret tt end;
  ensure (packet_encodable m && forallb header_encodable hs && forallb tx_encodable ts &&
          forallb (fun b => header_encodable (b_header b)) bs) "rlp: cannot encode negative *big.Int".

(** The encoding follows the pointers; a message that cannot be encoded is not
    written.  Failures of the connection itself are not modelled.
    [geth:p2p/message.go] Send *)
Definition Send (code : Z) (m : Packet) : StM Peer unit :=
  hs ← askS (fun p => deref_all (headers (heap p)) (header_refs m));
  ts ← askS (fun p => deref_all (txs (heap p)) (tx_refs m));
  bs ← askS (fun p => deref_all (blocks (heap p)) (block_refs m));
  _ ← pure (encodable m hs ts bs);
  putS (fun p => set_wire (wire p ++ [{| Code := code; packet := m; m_headers := hs; m_txs := ts; m_blocks := bs |}]) p).

(** Keeping the message as a seed, then sending it. *)
Definition record_and_send (m : Packet) : StM Peer unit :=
  _ ← putS (record_seed m);
  Send (Kind m) m.

(** [geth:eth/protocols/eth/peer.go] Peer.SendTransactions *)
Definition SendTransactions (l : list loc) : StM Peer unit :=
  ts ← askS (fun p => deref_all (txs (heap p)) l);
  _ ← putS (markTransactions (tx_hash <$> ts));
  record_and_send (TransactionsPacket l).

(** [geth:eth/protocols/eth/peer.go] Peer.sendPooledTransactionHashes *)
Definition sendPooledTransactionHashes (hashes : list Hash) : StM Peer unit :=
  _ ← putS (markTransactions hashes);
  record_and_send (NewPooledTransactionHashesPacket hashes).

(** [geth:eth/protocols/eth/peer.go] Peer.ReplyPooledTransactionsRLP *)
Definition ReplyPooledTransactionsRLP (id : Z) (hashes : list Hash) (l : list bytes) : StM Peer unit :=
  _ ← putS (markTransactions hashes);
  record_and_send (PooledTransactionsRLPPacket66 id l).

(** [numbers[i]] panics when there are fewer numbers than hashes.
    [geth:eth/protocols/eth/peer.go] Peer.SendNewBlockHashes *)
Definition SendNewBlockHashes (hashes : list Hash) (numbers : list Z) : StM Peer unit :=
  _ ← putS (markBlocks hashes);
  if (length numbers <? length hashes)%nat then pure (Panic "index out of range")
  else record_and_send (NewBlockHashesPacket (zip hashes numbers)).

(** [geth:eth/protocols/eth/peer.go] Peer.SendNewBlock *)
Definition SendNewBlock (b : loc) (t : Z) : StM Peer unit :=
  blk ← askS (fun p => deref (blocks (heap p) !! b));
  _ ← putS (markBlock (b_hash blk));
  record_and_send (NewBlockPacket b t).

(** A full queue drops the block.
    [geth:eth/protocols/eth/peer.go] Peer.AsyncSendNewBlock *)
Definition AsyncSendNewBlock (b : loc) (t : Z) : StM Peer unit :=
  q ← getS queuedBlocks;
  if (length q <? maxQueuedBlocks)%nat then
    _ ← putS (fun p => set_queues (queuedBlocks p ++ [(b, t)]) (queuedBlockAnns p) (txBroadcast p) (txAnnounce p) p);
    blk ← askS (fun p => deref (blocks (heap p) !! b));
    putS (markBlock (b_hash blk))
  else mret tt.

(** [geth:eth/protocols/eth/peer.go] Peer.AsyncSendNewBlockHash *)
Definition AsyncSendNewBlockHash (b : loc) : StM Peer unit :=
  q ← getS queuedBlockAnns;
  if (length q <? maxQueuedBlockAnns)%nat then
    _ ← putS (fun p => set_queues (queuedBlocks p) (queuedBlockAnns p ++ [b]) (txBroadcast p) (txAnnounce p) p);
    blk ← askS (fun p => deref (blocks (heap p) !! b));
    putS (markBlock (b_hash blk))
  else mret tt.

(** The channel is unbuffered: the hashes are handed to the broadcaster, or
    dropped when the peer terminates.
    [geth:eth/protocols/eth/peer.go] Peer.AsyncSendTransactions *)
Definition AsyncSendTransactions (terminated : bool) (hashes : list Hash) (p : Peer) : Peer :=
  if terminated then p
  else markTransactions hashes
         (set_queues (queuedBlocks p) (queuedBlockAnns p) (txBroadcast p ++ [hashes]) (txAnnounce p) p).

(** [geth:eth/protocols/eth/peer.go] Peer.AsyncSendPooledTransactionHashes *)
Definition AsyncSendPooledTransactionHashes (terminated : bool) (hashes : list Hash) (p : Peer) : Peer :=
  if terminated then p
  else markTransactions hashes
         (set_queues (queuedBlocks p) (queuedBlockAnns p) (txBroadcast p) (txAnnounce p ++ [hashes]) p).

(** [geth:eth/protocols/eth/peer.go] Peer.ReplyBlockHeaders *)
Definition ReplyBlockHeaders (id : Z) (l : list loc) : StM Peer unit :=
  record_and_send (BlockHeadersPacket66 id l).

(** [geth:eth/protocols/eth/peer.go] Peer.ReplyBlockBodiesRLP *)
Definition ReplyBlockBodiesRLP (id : Z) (bodies : list bytes) : StM Peer unit :=
  record_and_send (BlockBodiesRLPPacket66 id bodies).

(** [geth:eth/protocols/eth/peer.go] Peer.ReplyNodeData *)
Definition ReplyNodeData (id : Z) (data : list bytes) : StM Peer unit :=
  record_and_send (NodeDataPacket66 id data).

(** [geth:eth/protocols/eth/peer.go] Peer.ReplyReceiptsRLP *)
Definition ReplyReceiptsRLP (id : Z) (receipts : list bytes) : StM Peer unit :=
  record_and_send (ReceiptsRLPPacket66 id receipts).

(** [geth:eth/protocols/eth/peer.go] Peer.RequestOneHeader *)
Definition RequestOneHeader (hash : Hash) : StM Peer unit :=
  id ← draw rand_Uint64;
  record_and_send (GetBlockHeadersPacket66 id {| on_Hash := hash; on_Number := 0 |} 1 0 false).

(** [geth:eth/protocols/eth/peer.go] Peer.RequestHeadersByHash *)
Definition RequestHeadersByHash (origin : Hash) (amount skip : Z) (reverse : bool) : StM Peer unit :=
  id ← draw rand_Uint64;
  record_and_send (GetBlockHeadersPacket66 id {| on_Hash := origin; on_Number := 0 |} (u64 amount) (u64 skip) reverse).

(** [geth:eth/protocols/eth/peer.go] Peer.RequestHeadersByNumber *)
Definition RequestHeadersByNumber (origin amount skip : Z) (reverse : bool) : StM Peer unit :=
  id ← draw rand_Uint64;
  record_and_send (GetBlockHeadersPacket66 id {| on_Hash := zeroHash; on_Number := origin |} (u64 amount) (u64 skip) reverse).

(** [geth:eth/protocols/eth/peer.go] Peer.RequestBodies *)
Definition RequestBodies (hashes : list Hash) : StM Peer unit :=
  id ← draw rand_Uint64; record_and_send (GetBlockBodiesPacket66 id hashes).

(** [geth:eth/protocols/eth/peer.go] Peer.RequestNodeData *)
Definition RequestNodeData (hashes : list Hash) : StM Peer unit :=
  id ← draw rand_Uint64; record_and_send (GetNodeDataPacket66 id hashes).

(** [geth:eth/protocols/eth/peer.go] Peer.RequestReceipts *)
Definition RequestReceipts (hashes : list Hash) : StM Peer unit :=
  id ← draw rand_Uint64; record_and_send (GetReceiptsPacket66 id hashes).

(** [geth:eth/protocols/eth/peer.go] Peer.RequestTxs *)
Definition RequestTxs (hashes : list Hash) : StM Peer unit :=
  id ← draw rand_Uint64; record_and_send (GetPooledTransactionsPacket66 id hashes).

(** ** Mutators *)

(** [f.Fuzz(m.Difficulty)] through a nil pointer does nothing. *)
Definition fuzz_big_ptr (o : option Z) : StM Peer (option Z) :=
  match o with
  | Some z => z' ← draw (fuzz_bigint z); mret (Some z')
  | None => mret None
  end.

(** [for _, m := range l { f.Fuzz(&m) }]: the loop variable is a copy, so the
    elements stay. *)
Fixpoint fuzz_copies (l : list bytes) : StM Peer unit :=
  match l with
  | [] => mret tt
  | m :: rest => _ ← draw (fuzz_bytes m); fuzz_copies rest
  end.

(** Fuzzing a pointer variable makes it point to a new object (or nil); the
    variable is the function's own parameter.
    [geth:eth/protocols/eth/MessageFuzz.go] MutateNewBlockHashesMsg *)
Definition MutateNewBlockHashesMsg (m : Packet) : StM Peer Packet :=
  _ ← draw (fuzz_uint64 0); mret m.

(** [Block.Header()] is a copy of the header.
    [geth:eth/protocols/eth/MessageFuzz.go] MutateNewBlockMsg *)
Definition MutateNewBlockMsg (b : loc) (t : Z) : StM Peer Packet :=
  t' ← draw (fuzz_bigint t);
  blk ← askS (fun p => deref (blocks (heap p) !! b));
  _ ← draw (fuzz_uint64 (GasLimit (b_header blk)));
  r ← draw (fuzz_time (b_ReceivedAt blk));
  _ ← putS (fun p => set_heap (set_blocks
        (<[b := {| b_header := b_header blk; b_hash := b_hash blk; b_ReceivedAt := r |}]> (blocks (heap p)))
        (heap p)) p);
  mret (NewBlockPacket b t').

(** The fields behind the pointers the accessors return: the data is fuzzed on a
    copy, [GetValue] returns a copy, and the cached hash is not recomputed.
    [geth:eth/protocols/eth/MessageFuzz.go:307-322] MutateTransactionsMsg *)
Definition mutate_tx (t : Transaction) : StM Peer Transaction :=
  _ ← draw (fuzz_string (String.string_of_list_byte (tx_Data t)));
  gas ← draw (fuzz_uint64 (tx_Gas t));
  price ← draw (fuzz_bigint (tx_GasPrice t));
  tip ← draw (fuzz_bigint (match tx_type t with DynamicFeeTx => tx_GasTipCap t | _ => price end));
  let price := match tx_type t with DynamicFeeTx => price | _ => tip end in
  cap ← draw (fuzz_bigint price);
  _ ← draw (fuzz_bigint (tx_Value t));
  nonce ← draw (fuzz_uint64 (tx_Nonce t));
  mret {| tx_type := tx_type t; tx_Nonce := nonce; tx_GasPrice := cap;
          tx_GasTipCap := match tx_type t with DynamicFeeTx => tip | _ => tx_GasTipCap t end;
          tx_Gas := gas; tx_Value := tx_Value t; tx_Data := tx_Data t; tx_hash := tx_hash t |}.

Fixpoint mutate_txs (l : list loc) : StM Peer unit :=
  match l with
  | [] => mret tt
  | x :: rest =>
      t ← askS (fun p => deref (txs (heap p) !! x));
      t' ← mutate_tx t;
      _ ← putS (fun p => set_heap (set_txs (<[x := t']> (txs (heap p))) (heap p)) p);
      mutate_txs rest
  end.

(** [geth:eth/protocols/eth/MessageFuzz.go] MutateTransactionsMsg *)
Definition MutateTransactionsMsg (l : list loc) : StM Peer Packet :=
  _ ← mutate_txs l; mret (TransactionsPacket l).

(** [geth:eth/protocols/eth/MessageFuzz.go] MutateNewPooledTransactionHashesMsg *)
Definition MutateNewPooledTransactionHashesMsg (m : Packet) : StM Peer Packet := mret m.

(** [geth:eth/protocols/eth/MessageFuzz.go] MutateGetBlockHeaderMsg *)
Definition MutateGetBlockHeaderMsg (id : Z) (o : HashOrNumber) (amount skip : Z) (reverse : bool) :
    StM Peer Packet :=
  h ← draw (fuzz_array (on_Hash o));
  n ← draw (fuzz_uint64 (on_Number o));
  amount' ← draw (fuzz_uint64 amount);
  skip' ← draw (fuzz_uint64 skip);
  reverse' ← draw (fuzz_bool reverse);
  mret (GetBlockHeadersPacket66 id {| on_Hash := h; on_Number := n |} amount' skip' reverse').

(** [geth:eth/protocols/eth/MessageFuzz.go:342-352] MutateBlockHeadersMsg *)
Definition mutate_header (h : Header) : StM Peer Header :=
  bloom ← draw (fuzz_array (Bloom h));
  d ← fuzz_big_ptr (Difficulty h);
  n ← fuzz_big_ptr (Number h);
  gl ← draw (fuzz_uint64 (GasLimit h));
  gu ← draw (fuzz_uint64 (GasUsed h));
  tm ← draw (fuzz_uint64 (Time h));
  nonce ← draw (fuzz_array (Nonce h));
  mret (fuzzed_header h bloom d n gl gu tm nonce).

Fixpoint mutate_headers (l : list loc) : StM Peer unit :=
  match l with
  | [] => mret tt
  | x :: rest =>
      h ← askS (fun p => deref (headers (heap p) !! x));
      h' ← mutate_header h;
      _ ← putS (fun p => set_heap (set_headers (<[x := h']> (headers (heap p))) (heap p)) p);
      mutate_headers rest
  end.

(** [geth:eth/protocols/eth/MessageFuzz.go] MutateBlockHeadersMsg *)
Definition MutateBlockHeadersMsg (id : Z) (l : list loc) : StM Peer Packet :=
  id' ← draw (fuzz_uint64 id);
  _ ← mutate_headers l;
  mret (BlockHeadersPacket66 id' l).

(** The queries by hash: only the request id is fuzzed.
    [geth:eth/protocols/eth/MessageFuzz.go] MutateGetBlockBodiesMsg *)
Definition MutateGetBlockBodiesMsg (id : Z) (hashes : list Hash) : StM Peer Packet :=
  id' ← draw (fuzz_uint64 id); mret (GetBlockBodiesPacket66 id' hashes).

(** [geth:eth/protocols/eth/MessageFuzz.go] MutateBlockBodiesMsg *)
Definition MutateBlockBodiesMsg (id : Z) (bodies : list bytes) : StM Peer Packet :=
  id' ← draw (fuzz_uint64 id); _ ← fuzz_copies bodies; mret (BlockBodiesRLPPacket66 id' bodies).

(** [geth:eth/protocols/eth/MessageFuzz.go] MutateGetNodeDataMsg *)
Definition MutateGetNodeDataMsg (id : Z) (hashes : list Hash) : StM Peer Packet :=
  id' ← draw (fuzz_uint64 id); mret (GetNodeDataPacket66 id' hashes).

(** [geth:eth/protocols/eth/MessageFuzz.go] MutateNodeDataMsg *)
Definition MutateNodeDataMsg (id : Z) (data : list bytes) : StM Peer Packet :=
  id' ← draw (fuzz_uint64 id); _ ← fuzz_copies data; mret (NodeDataPacket66 id' data).

(** [geth:eth/protocols/eth/MessageFuzz.go] MutateGetReceiptsMsg *)
Definition MutateGetReceiptsMsg (id : Z) (hashes : list Hash) : StM Peer Packet :=
  id' ← draw (fuzz_uint64 id); mret (GetReceiptsPacket66 id' hashes).

(** [geth:eth/protocols/eth/MessageFuzz.go] MutateReceiptsMsg *)
Definition MutateReceiptsMsg (id : Z) (receipts : list bytes) : StM Peer Packet :=
  id' ← draw (fuzz_uint64 id); _ ← fuzz_copies receipts; mret (ReceiptsRLPPacket66 id' receipts).

(** [geth:eth/protocols/eth/MessageFuzz.go] MutateGetPooledTransactionsMsg *)
Definition MutateGetPooledTransactionsMsg (id : Z) (hashes : list Hash) : StM Peer Packet :=
  id' ← draw (fuzz_uint64 id); mret (GetPooledTransactionsPacket66 id' hashes).

(** [geth:eth/protocols/eth/MessageFuzz.go] MutatePooledTransactionsMsg *)
Definition MutatePooledTransactionsMsg (id : Z) (l : list bytes) : StM Peer Packet :=
  id' ← draw (fuzz_uint64 id); _ ← fuzz_copies l; mret (PooledTransactionsRLPPacket66 id' l).

(** [geth:eth/protocols/eth/MessageFuzz.go] MutateStatusMsg *)
Definition MutateStatusMsg (v net t : Z) (hd gen : Hash) (fh : bytes) (fn : Z) : StM Peer Packet :=
  fh' ← draw (fuzz_array fh);
  fn' ← draw (fuzz_uint64 fn);
  net' ← draw (fuzz_uint64 net);
  v' ← draw (fuzz_uint32 v);
  t' ← draw (fuzz_bigint t);
  mret (StatusPacket v' net' t' hd gen fh' fn').

(** The mutator each seed's type selects. *)
Definition mutate (m : Packet) : StM Peer Packet :=
  match m with
  | StatusPacket v net t hd gen fh fn => MutateStatusMsg v net t hd gen fh fn
  | NewBlockHashesPacket _ => MutateNewBlockHashesMsg m
  | TransactionsPacket l => MutateTransactionsMsg l
  | GetBlockHeadersPacket66 id o a s r => MutateGetBlockHeaderMsg id o a s r
  | BlockHeadersPacket66 id l => MutateBlockHeadersMsg id l
  | GetBlockBodiesPacket66 id l => MutateGetBlockBodiesMsg id l
  | BlockBodiesRLPPacket66 id l => MutateBlockBodiesMsg id l
  | NewBlockPacket b t => MutateNewBlockMsg b t
  | NewPooledTransactionHashesPacket _ => MutateNewPooledTransactionHashesMsg m
  | GetPooledTransactionsPacket66 id l => MutateGetPooledTransactionsMsg id l
  | PooledTransactionsRLPPacket66 id l => MutatePooledTransactionsMsg id l
  | GetNodeDataPacket66 id l => MutateGetNodeDataMsg id l
  | NodeDataPacket66 id l => MutateNodeDataMsg id l
  | GetReceiptsPacket66 id l => MutateGetReceiptsMsg id l
  | ReceiptsRLPPacket66 id l => MutateReceiptsMsg id l
  end.

(** ** The message fuzzer *)

(** An ignored error result. *)
Definition ignore_err (m : StM Peer unit) : StM Peer unit := fun p =>
  match m p with
  | (Err _, p') => (Ok tt, p')
  | r => r
  end.

(** The common shape of the fuzzing functions: pick a seed of the type, mutate
    it in place, send it and ignore whether that worked.
    [geth:eth/protocols/eth/MessageFuzz.go:120-129] getNewBlockHashesMsgFuzzed *)
Definition fuzz_seed (code : Z) : StM Peer unit :=
  l ← getS (pool code);
  match l with
  | [] => mret tt
  | _ =>
      i ← draw (rand_Intn (Z.of_nat (length l)));
      msg ← pure (index l (Z.to_nat i));
      msg' ← mutate msg;
      _ ← putS (fun p => set_seeds (<[code := <[Z.to_nat i := msg']> l]> (seeds p)) p);
      ignore_err (Send code msg')
  end.

(** [geth:eth/protocols/eth/MessageFuzz.go] getNewBlockHashesMsgFuzzed *)
Definition getNewBlockHashesMsgFuzzed : StM Peer unit := fuzz_seed NewBlockHashesMsg.
(** [geth:eth/protocols/eth/MessageFuzz.go] getNewBlockMsgFuzzed *)
Definition getNewBlockMsgFuzzed : StM Peer unit := fuzz_seed NewBlockMsg.
(** [geth:eth/protocols/eth/MessageFuzz.go] getTransactionsMsgFuzzed *)
Definition getTransactionsMsgFuzzed : StM Peer unit := fuzz_seed TransactionsMsg.
(** [geth:eth/protocols/eth/MessageFuzz.go] getNewPooledTransactionHashesMsgFuzzed *)
Definition getNewPooledTransactionHashesMsgFuzzed : StM Peer unit := fuzz_seed NewPooledTransactionHashesMsg.
(** [geth:eth/protocols/eth/MessageFuzz.go] getBlockHeadersMsgFuzzed *)
Definition getBlockHeadersMsgFuzzed : StM Peer unit := fuzz_seed BlockHeadersMsg.
(** [geth:eth/protocols/eth/MessageFuzz.go] getGetBlockHeadersMsgFuzzed *)
Definition getGetBlockHeadersMsgFuzzed : StM Peer unit := fuzz_seed GetBlockHeadersMsg.
(** [geth:eth/protocols/eth/MessageFuzz.go] getGetBlockBodiesMsgFuzzed *)
Definition getGetBlockBodiesMsgFuzzed : StM Peer unit := fuzz_seed GetBlockBodiesMsg.
(** [geth:eth/protocols/eth/MessageFuzz.go] getBlockBodiesMsgFuzzed *)
Definition getBlockBodiesMsgFuzzed : StM Peer unit := fuzz_seed BlockBodiesMsg.
(** [geth:eth/protocols/eth/MessageFuzz.go] getGetNodeDataMsgFuzzed *)
Definition getGetNodeDataMsgFuzzed : StM Peer unit := fuzz_seed GetNodeDataMsg.
(** [geth:eth/protocols/eth/MessageFuzz.go] getNodeDataMsgFuzzed *)
Definition getNodeDataMsgFuzzed : StM Peer unit := fuzz_seed NodeDataMsg.
(** [geth:eth/protocols/eth/MessageFuzz.go] getGetReceiptsMsgFuzzed *)
Definition getGetReceiptsMsgFuzzed : StM Peer unit := fuzz_seed GetReceiptsMsg.
(** [geth:eth/protocols/eth/MessageFuzz.go] getReceiptsMsgFuzzed *)
Definition getReceiptsMsgFuzzed : StM Peer unit := fuzz_seed ReceiptsMsg.
(** [geth:eth/protocols/eth/MessageFuzz.go] getGetPooledTransactionsMsgFuzzed *)
Definition getGetPooledTransactionsMsgFuzzed : StM Peer unit := fuzz_seed GetPooledTransactionsMsg.
(** [geth:eth/protocols/eth/MessageFuzz.go] getPooledTransactionsMsgFuzzed *)
Definition getPooledTransactionsMsgFuzzed : StM Peer unit := fuzz_seed PooledTransactionsMsg.
(** Not in the table of fuzzers.
    [geth:eth/protocols/eth/MessageFuzz.go] getStatusMsgFuzzed *)
Definition getStatusMsgFuzzed : StM Peer unit := fuzz_seed StatusMsg.

(** [geth:eth/protocols/eth/MessageFuzz.go:19-34] fuzzers *)
Definition fuzzers (code : Z) : option (StM Peer unit) :=
  if code =? NewBlockHashesMsg then Some getNewBlockHashesMsgFuzzed
  else if code =? NewBlockMsg then Some getNewBlockMsgFuzzed
  else if code =? TransactionsMsg then Some getTransactionsMsgFuzzed
  else if code =? NewPooledTransactionHashesMsg then Some getNewPooledTransactionHashesMsgFuzzed
  else if code =? GetBlockHeadersMsg then Some getGetBlockHeadersMsgFuzzed
  else if code =? BlockHeadersMsg then Some getBlockHeadersMsgFuzzed
  else if code =? GetBlockBodiesMsg then Some getGetBlockBodiesMsgFuzzed
  else if code =? BlockBodiesMsg then Some getBlockBodiesMsgFuzzed
  else if code =? GetNodeDataMsg then Some getGetNodeDataMsgFuzzed
  else if code =? NodeDataMsg then Some getNodeDataMsgFuzzed
  else if code =? GetReceiptsMsg then Some getGetReceiptsMsgFuzzed
  else if code =? ReceiptsMsg then Some getReceiptsMsgFuzzed
  else if code =? GetPooledTransactionsMsg then Some getGetPooledTransactionsMsgFuzzed
  else if code =? PooledTransactionsMsg then Some getPooledTransactionsMsgFuzzed
  else None.

(** [now] is [time.Now().Unix()].
    [geth:eth/protocols/eth/MessageFuzz.go] getNextType *)
Definition getNextType (now : Z) : StM Peer Z :=
  _ ← putS (fun p => set_rng (rand_SeedAt now (rng p)) p);
  n ← draw (rand_Intn 15);
  mret (u64 (n + 1)).

(** One pass of the endless loop.
    [geth:eth/protocols/eth/MessageFuzz.go:98-108] Peer.FuzzMessages *)
Definition fuzz_pass (now : Z) : StM Peer unit :=
  code ← getNextType now;
  match fuzzers code with
  | Some fuzzing => _ ← fuzzing; putS (fun p => set_count (fuzzcount p + 1) p)
  | None => mret tt
  end.

(** The passes made at the given times.
    [geth:eth/protocols/eth/MessageFuzz.go] Peer.FuzzMessages *)
Fixpoint FuzzMessages (times : list Z) : StM Peer unit :=
  match times with
  | [] => mret tt
  | now :: rest => _ ← fuzz_pass now; FuzzMessages rest
  end.

(** ** The transaction fuzzer *)

(** [geth:eth/protocols/eth/TransactionFuzz.go] MutateTransactions *)
Definition MutateTransactions (l : list loc) : StM Peer Packet :=
  _ ← mutate_txs l; mret (TransactionsPacket l).

(** [geth:eth/protocols/eth/TransactionFuzz.go] TransactionsMsgFuzzed *)
Definition TransactionsMsgFuzzed : StM Peer unit := fuzz_seed TransactionsMsg.

(** [n] passes of the endless loop.
    [geth:eth/protocols/eth/TransactionFuzz.go] Peer.FuzzTransactions *)
Fixpoint FuzzTransactions (n : nat) : StM Peer unit :=
  match n with
  | O => mret tt
  | S n' => _ ← TransactionsMsgFuzzed; FuzzTransactions n'
  end.

End Peer.
