(* ===== verification/GethFuzzerSpec.v ===== *)
(** * What the Ethereum fuzzers do

    Properties of eth/protocols/eth/MessageFuzz.go and peer.go: the fuzzing loop
    cannot crash a well-formed peer, what a pass can send, which mutations never
    reach the wire and which reach the node's own objects, and the bounds of the
    known-hash sets. *)

From S2P Require Import Prelude Randomness EthTypes GethFuzzer.

(** ** Known hashes stay bounded *)

Lemma size_add_all l s : (size (add_all l s) <= size s + length l)%nat.
Proof.
  revert s. induction l as [|h l IH]; intros s; cbn; [lia|].
  specialize (IH ({[h]} ∪ s)). unfold add_all in IH.
  assert (size ({[h]} ∪ s) <= 1 + size s)%nat; [|lia].
  rewrite size_union_alt, size_singleton. apply Nat.add_le_mono_l, subseteq_size. set_solver.
Qed.

Lemma elem_of_add_all l s x : x ∈ add_all l s <-> x ∈ l \/ x ∈ s.
Proof.
  revert s. induction l as [|h l IH]; intros s; cbn; [set_solver|].
  unfold add_all in IH. rewrite IH. set_solver.
Qed.

Section Known.
Context (pop_choice : gset Hash -> option Hash).

(** [Pop] removes an element as long as there is one. *)
Context (pop_ok : forall s, s <> ∅ -> exists x, pop_choice s = Some x /\ x ∈ s).

Lemma evict_size fuel limit s :
  0 <= limit -> (size s <= fuel)%nat -> Z.of_nat (size (evict pop_choice fuel limit s)) <= limit.
Proof.
  revert s. induction fuel as [|fuel IH]; intros s Hl Hf; cbn [evict]; [lia|].
  destruct (Z.ltb_spec limit (Z.of_nat (size s))) as [Hlt|]; [|done].
  assert (s <> ∅) as Hne by (intros ->; rewrite size_empty in Hlt; lia).
  destruct (pop_ok s Hne) as (x & -> & Hx). apply IH; [done|].
  rewrite size_difference by set_solver. rewrite size_singleton. lia.
Qed.

Lemma make_room_size limit s : 0 <= limit -> Z.of_nat (size (make_room pop_choice limit s)) <= limit.
Proof. intros Hl. by apply evict_size. Qed.
End Known.

(** ** Well-formed peers *)

Section Fuzzer.
Context {Rnd : Randomness} {RndOk : RandomnessOk}.

(** Every pointer in a packet points to an object. *)
Definition refs_ok (hp : Heap) (m : Packet) : Prop :=
  (forall x, x ∈ header_refs m -> is_Some (headers hp !! x)) /\
  (forall x, x ∈ tx_refs m -> is_Some (txs hp !! x)) /\
  (forall x, x ∈ block_refs m -> is_Some (blocks hp !! x)).

(** Seeds are filed under their own message code and point to objects. *)
Definition peer_ok (p : Peer) : Prop :=
  forall code m, m ∈ pool code p -> Kind m = code /\ refs_ok (heap p) m.

(** What a mutation keeps of an object: of a header everything but seven fields,
    of a transaction its type, value, data and cached hash, of a block its header
    and hash. *)
Definition header_kept (h h' : Header) : Prop :=
  h' = fuzzed_header h (Bloom h') (Difficulty h') (Number h') (GasLimit h') (GasUsed h') (Time h') (Nonce h').
Definition tx_kept (t t' : Transaction) : Prop :=
  tx_type t' = tx_type t /\ tx_Value t' = tx_Value t /\ tx_Data t' = tx_Data t /\ tx_hash t' = tx_hash t.
Definition block_kept (b b' : Block) : Prop := b_header b' = b_header b /\ b_hash b' = b_hash b.

#[global] Instance header_kept_pre : PreOrder header_kept.
Proof. split; [by intros []|]. intros h h1 h2 H1 H2. unfold header_kept in *. rewrite H2. rewrite H1. done. Qed.
#[global] Instance tx_kept_pre : PreOrder tx_kept.
Proof. split; [by intros []|]. unfold tx_kept. intros h h1 h2 H1 H2. intuition congruence. Qed.
#[global] Instance block_kept_pre : PreOrder block_kept.
Proof. split; [by intros []|]. unfold block_kept. intros h h1 h2 H1 H2. intuition congruence. Qed.

(** One kind of object: those in [l] are related by [K], the others unchanged. *)
Definition objects_frame {A} (K : relation A) (l : list loc) (o o' : gmap loc A) : Prop :=
  forall x, if bool_decide (x ∈ l) then option_Forall2 K (o !! x) (o' !! x) else o' !! x = o !! x.

(** The objects a mutation of [m] may change, and how. *)
Record heap_frame (m : Packet) (hp hp' : Heap) : Prop := {
  hf_headers : objects_frame header_kept (header_refs m) (headers hp) (headers hp');
  hf_txs : objects_frame tx_kept (tx_refs m) (txs hp) (txs hp');
  hf_blocks : objects_frame block_kept (block_refs m) (blocks hp) (blocks hp');
}.

Lemma objects_frame_refl {A} (K : relation A) `{!Reflexive K} l o : objects_frame K l o o.
Proof. intros x. case_bool_decide; [|done]. by destruct (o !! x); constructor. Qed.

Lemma objects_frame_trans {A} (K : relation A) `{!Transitive K} l o1 o2 o3 :
  objects_frame K l o1 o2 -> objects_frame K l o2 o3 -> objects_frame K l o1 o3.
Proof.
  intros H1 H2 x. specialize (H1 x). specialize (H2 x). case_bool_decide; [|by rewrite H2].
  destruct H1; inversion H2; subst; constructor; by etrans.
Qed.

Lemma objects_frame_insert {A} (K : relation A) `{!Reflexive K} l o x a b :
  x ∈ l -> o !! x = Some a -> K a b -> objects_frame K l o (<[x := b]> o).
Proof.
  intros Hx Ha Hab y. destruct (decide (y = x)) as [->|Hne].
  - rewrite bool_decide_true, Ha, lookup_insert_eq by done. by constructor.
  - rewrite lookup_insert_ne by done. by apply (objects_frame_refl K l o).
Qed.

Lemma objects_frame_dom {A} (K : relation A) l o o' x :
  objects_frame K l o o' -> is_Some (o !! x) -> is_Some (o' !! x).
Proof.
  intros H [a Ha]. specialize (H x). case_bool_decide; [|by rewrite H].
  rewrite Ha in H. inversion H; subst. by eexists.
Qed.

Lemma heap_frame_refl m hp : heap_frame m hp hp.
Proof. split; apply objects_frame_refl; apply _. Qed.

Lemma heap_frame_trans m x y z : heap_frame m x y -> heap_frame m y z -> heap_frame m x z.
Proof. intros [A1 A2 A3] [B1 B2 B3]. split; eapply objects_frame_trans; eauto; apply _. Qed.

Lemma refs_ok_frame m m' hp hp' : heap_frame m hp hp' -> refs_ok hp m' -> refs_ok hp' m'.
Proof. intros [H1 H2 H3] (R1 & R2 & R3). split_and!; intros; eapply objects_frame_dom; eauto. Qed.

(** The state a mutation leaves: a new generator state and a new heap. *)
Definition mutated (p : Peer) (r : RNG) (hp : Heap) : Peer := set_heap hp (set_rng r p).

Lemma draw_step {A B} (f : RNG -> A * RNG) (k : A -> StM Peer B) p r hp :
  exists r', (draw f ≫= k) (mutated p r hp) = k (f r).1 (mutated p r' hp).
Proof. unfold mbind, StM_bind, draw. cbn. destruct (f r) as [a r']. by exists r'. Qed.

Lemma mutated_id p : mutated p (rng p) (heap p) = p.
Proof. by destruct p. Qed.

(** A computation that only draws and writes the heap within [R]. *)
Definition mutates {A} (c : StM Peer A) (pre : Heap -> Prop) (R : Heap -> Heap -> Prop) (Q : A -> Prop) : Prop :=
  forall p r hp, pre hp -> exists a r' hp', c (mutated p r hp) = (Ok a, mutated p r' hp') /\ R hp hp' /\ Q a.

Lemma mutates_ret {A} (a : A) pre (R : Heap -> Heap -> Prop) Q :
  (forall hp, pre hp -> R hp hp) -> Q a -> mutates (mret a) pre R Q.
Proof. intros HR HQ p r hp Hp. exists a, r, hp. auto. Qed.

Lemma mutates_draw {A B} (f : RNG -> A * RNG) (k : A -> StM Peer B) pre R Q :
  (forall a, mutates (k a) pre R Q) -> mutates (draw f ≫= k) pre R Q.
Proof. intros H p r hp Hp. destruct (draw_step f k p r hp) as [r' ->]. by apply H. Qed.

Lemma mutates_big_ptr {B} o (k : option Z -> StM Peer B) pre R Q :
  (forall a, mutates (k a) pre R Q) -> mutates (fuzz_big_ptr o ≫= k) pre R Q.
Proof.
  intros H p r hp Hp. unfold fuzz_big_ptr. destruct o as [z|].
  - unfold mbind at 1, StM_bind at 1.
    destruct (draw_step (fuzz_bigint z) (fun z' => mret (Some z')) p r hp) as [r' ->]. by apply H.
  - by apply H.
Qed.

Lemma mutates_copies {B} l (k : unit -> StM Peer B) pre R Q :
  mutates (k tt) pre R Q -> mutates (fuzz_copies l ≫= k) pre R Q.
Proof.
  intros H. assert (forall p r hp, exists r', fuzz_copies l (mutated p r hp) = (Ok tt, mutated p r' hp)) as Hc.
  { induction l as [|m l IH]; intros p r hp; [by exists r|]. cbn [fuzz_copies].
    destruct (draw_step (fuzz_bytes m) (fun _ => fuzz_copies l) p r hp) as [r' ->]. apply IH. }
  intros p r hp Hp. destruct (Hc p r hp) as [r' E]. unfold mbind, StM_bind. rewrite E. by apply H.
Qed.

Lemma mutates_bind {A B} (c : StM Peer A) (k : A -> StM Peer B) pre R Q Q' :
  (forall x y z, R x y -> R y z -> R x z) -> (forall x y, R x y -> pre x -> pre y) ->
  mutates c pre R Q -> (forall a, Q a -> mutates (k a) pre R Q') -> mutates (c ≫= k) pre R Q'.
Proof.
  intros Htr Hpre Hc Hk p r hp Hp. destruct (Hc p r hp Hp) as (a & r1 & hp1 & E & HR & HQ).
  destruct (Hk a HQ p r1 hp1 (Hpre _ _ HR Hp)) as (b & r2 & hp2 & E2 & HR2 & HQ2).
  exists b, r2, hp2. unfold mbind, StM_bind. rewrite E. eauto.
Qed.

(** The object [x] points to is read, a new version [Q] of it computed and
    written back. *)
Lemma mutates_object {A B C} (sel : Heap -> gmap loc A) (upd : gmap loc A -> Heap -> Heap) (K : relation A) x
    (calc : A -> StM Peer C) (g : A -> C -> A) (k : unit -> StM Peer B) m Q :
  (forall hp, refs_ok hp m -> is_Some (sel hp !! x)) ->
  (forall a, mutates (calc a) (fun _ => True) eq (fun c => K a (g a c))) ->
  (forall hp a b, sel hp !! x = Some a -> K a b -> heap_frame m hp (upd (<[x := b]> (sel hp)) hp)) ->
  mutates (k tt) (fun hp => refs_ok hp m) (heap_frame m) Q ->
  mutates (a ← askS (fun p => deref (sel (heap p) !! x));
           c ← calc a;
           _ ← putS (fun p => set_heap (upd (<[x := g a c]> (sel (heap p))) (heap p)) p);
           k tt) (fun hp => refs_ok hp m) (heap_frame m) Q.
Proof.
  intros Hx Hcalc Hf Hk p r hp Hp. destruct (Hx hp Hp) as [a Ha].
  destruct (Hcalc a p r hp I) as (c & r1 & hp1 & E & <- & HK).
  pose proof (Hf hp a (g a c) Ha HK) as Hfr.
  destruct (Hk p r1 _ (refs_ok_frame _ _ _ _ Hfr Hp)) as (b & r2 & hp2 & E2 & HR & HQ).
  exists b, r2, hp2. split; [|by split; [eapply heap_frame_trans|]].
  unfold mbind at 1, StM_bind at 1, askS. cbn. rewrite Ha. cbn [deref].
  unfold mbind at 1, StM_bind at 1. rewrite E. unfold mbind, StM_bind, putS. cbn. exact E2.
Qed.

(** Pure calculations. *)
Lemma calc_header h : mutates (mutate_header h) (fun _ => True) eq (header_kept h).
Proof.
  unfold mutate_header. repeat first [apply mutates_draw; intros ?|apply mutates_big_ptr; intros ?].
  by apply mutates_ret.
Qed.

Lemma calc_tx t : mutates (mutate_tx t) (fun _ => True) eq (tx_kept t).
Proof. unfold mutate_tx. repeat (apply mutates_draw; intros ?). by apply mutates_ret. Qed.

Lemma mutate_headers_ok m l :
  l ⊆ header_refs m -> mutates (mutate_headers l) (fun hp => refs_ok hp m) (heap_frame m) (fun _ => True).
Proof.
  induction l as [|x l IH]; intros Hl; cbn [mutate_headers].
  { apply mutates_ret; [intros; apply heap_frame_refl|done]. }
  eapply (mutates_object headers set_headers header_kept x mutate_header (fun _ c => c)
            (fun _ => mutate_headers l)).
  - intros hp (H & _). apply H, Hl. left.
  - apply calc_header.
  - intros hp a b Ha HK. split; cbn; try (apply objects_frame_refl; apply _).
    eapply objects_frame_insert; eauto; [apply _|]. apply Hl. left.
  - apply IH. intros y Hy. apply Hl. by right.
Qed.

Lemma mutate_txs_ok m l :
  l ⊆ tx_refs m -> mutates (mutate_txs l) (fun hp => refs_ok hp m) (heap_frame m) (fun _ => True).
Proof.
  induction l as [|x l IH]; intros Hl; cbn [mutate_txs].
  { apply mutates_ret; [intros; apply heap_frame_refl|done]. }
  eapply (mutates_object txs set_txs tx_kept x mutate_tx (fun _ c => c) (fun _ => mutate_txs l)).
  - intros hp (_ & H & _). apply H, Hl. left.
  - apply calc_tx.
  - intros hp a b Ha HK. split; cbn; try (apply objects_frame_refl; apply _).
    eapply objects_frame_insert; eauto; [apply _|]. apply Hl. left.
  - apply IH. intros y Hy. apply Hl. by right.
Qed.

(** What a mutation can change in a packet: all of it in a few cases, in most
    only the request id. *)
Definition mutation_of (m m' : Packet) : Prop :=
  match m with
  | StatusPacket _ _ _ hd gen _ _ => exists v net t fh fn, m' = StatusPacket v net t hd gen fh fn
  | NewBlockHashesPacket _ | TransactionsPacket _ | NewPooledTransactionHashesPacket _ => m' = m
  | GetBlockHeadersPacket66 id _ _ _ _ => exists o a s r, m' = GetBlockHeadersPacket66 id o a s r
  | BlockHeadersPacket66 _ l => exists id, m' = BlockHeadersPacket66 id l
  | GetBlockBodiesPacket66 _ l => exists id, m' = GetBlockBodiesPacket66 id l
  | BlockBodiesRLPPacket66 _ l => exists id, m' = BlockBodiesRLPPacket66 id l
  | NewBlockPacket b _ => exists t, m' = NewBlockPacket b t
  | GetPooledTransactionsPacket66 _ l => exists id, m' = GetPooledTransactionsPacket66 id l
  | PooledTransactionsRLPPacket66 _ l => exists id, m' = PooledTransactionsRLPPacket66 id l
  | GetNodeDataPacket66 _ l => exists id, m' = GetNodeDataPacket66 id l
  | NodeDataPacket66 _ l => exists id, m' = NodeDataPacket66 id l
  | GetReceiptsPacket66 _ l => exists id, m' = GetReceiptsPacket66 id l
  | ReceiptsRLPPacket66 _ l => exists id, m' = ReceiptsRLPPacket66 id l
  end.

Lemma mutation_of_shape m m' : mutation_of m m' ->
  Kind m' = Kind m /\ header_refs m' = header_refs m /\ tx_refs m' = tx_refs m /\ block_refs m' = block_refs m.
Proof. destruct m; cbn; naive_solver. Qed.

Lemma mutation_of_refs m m' hp : mutation_of m m' -> refs_ok hp m -> refs_ok hp m'.
Proof. intros H. destruct (mutation_of_shape _ _ H) as (_ & E1 & E2 & E3). unfold refs_ok. by rewrite E1, E2, E3. Qed.

Lemma mutate_block_ok b t :
  mutates (MutateNewBlockMsg b t) (fun hp => refs_ok hp (NewBlockPacket b t)) (heap_frame (NewBlockPacket b t))
    (mutation_of (NewBlockPacket b t)).
Proof.
  unfold MutateNewBlockMsg. apply mutates_draw. intros t' p r hp Hp.
  destruct Hp as (_ & _ & Hb). destruct (Hb b) as [blk Hblk]; [left|].
  unfold mbind at 1, StM_bind at 1, askS. cbn. rewrite Hblk. cbn [deref].
  destruct (draw_step (fuzz_uint64 (GasLimit (b_header blk))) (fun _ => r ← draw (fuzz_time (b_ReceivedAt blk));
     _ ← putS (fun p => set_heap (set_blocks
        (<[b := {| b_header := b_header blk; b_hash := b_hash blk; b_ReceivedAt := r |}]> (blocks (heap p)))
        (heap p)) p);
     mret (NewBlockPacket b t')) p r hp) as [r1 ->].
  unfold mbind at 1, StM_bind at 1, draw. cbn. destruct (fuzz_time (b_ReceivedAt blk) r1) as [rt r2]. cbn.
  eexists _, r2, _. split; [reflexivity|]. split; [|by exists t'].
  split; cbn; try (apply objects_frame_refl; apply _).
  eapply objects_frame_insert; eauto; [apply _|left|done].
Qed.

Lemma mutate_ok m :
  mutates (mutate m) (fun hp => refs_ok hp m) (heap_frame m) (mutation_of m).
Proof.
  assert (forall m m', mutation_of m m' ->
            mutates (mret m' : StM Peer Packet) (fun hp => refs_ok hp m) (heap_frame m) (mutation_of m)) as Hret'
    by (intros; apply mutates_ret; [intros; apply heap_frame_refl|done]).
  destruct m; cbn [mutate];
    try by (unfold MutateStatusMsg, MutateNewBlockHashesMsg, MutateGetBlockHeaderMsg, MutateNewPooledTransactionHashesMsg,
              MutateGetBlockBodiesMsg, MutateBlockBodiesMsg, MutateGetPooledTransactionsMsg, MutatePooledTransactionsMsg,
              MutateGetNodeDataMsg, MutateNodeDataMsg, MutateGetReceiptsMsg, MutateReceiptsMsg;
            repeat first [apply mutates_draw; intros ?|apply mutates_copies]; apply Hret'; cbn; eauto 10).
  - (* transactions *)
    unfold MutateTransactionsMsg. eapply mutates_bind; [exact (heap_frame_trans _)| |by apply mutate_txs_ok|].
    + intros x y H. exact (refs_ok_frame _ _ _ _ H).
    + intros _ _. by apply Hret'.
  - (* headers *)
    unfold MutateBlockHeadersMsg. apply mutates_draw. intros id.
    eapply mutates_bind; [exact (heap_frame_trans _)| |by apply mutate_headers_ok|].
    + intros x y H. exact (refs_ok_frame _ _ _ _ H).
    + intros _ _. apply Hret'. by exists id.
  - apply mutate_block_ok.
Qed.

(** ** Mutations, by the draws *)

Definition drawn_big (o : option Z) (r : RNG) : option Z * RNG :=
  match o with
  | Some z => let '(z', r') := fuzz_bigint z r in (Some z', r')
  | None => (None, r)
  end.

(** A header gets a new bloom filter, difficulty, number, gas limit, gas use, time
    and nonce. *)
Definition drawn_header (h : Header) (r : RNG) : Header * RNG :=
  let '(bloom, r1) := fuzz_array (Bloom h) r in
  let '(d, r2) := drawn_big (Difficulty h) r1 in
  let '(n, r3) := drawn_big (Number h) r2 in
  let '(gl, r4) := fuzz_uint64 (GasLimit h) r3 in
  let '(gu, r5) := fuzz_uint64 (GasUsed h) r4 in
  let '(tm, r6) := fuzz_uint64 (Time h) r5 in
  let '(nonce, r7) := fuzz_array (Nonce h) r6 in
  (fuzzed_header h bloom d n gl gu tm nonce, r7).

(** A transaction gets a new gas limit, prices and nonce.  The one price of a
    transaction without a fee market is drawn three times in a row; draws for the
    data and the value are spent on copies. *)
Definition drawn_tx (t : Transaction) (r : RNG) : Transaction * RNG :=
  let r0 := (fuzz_string (String.string_of_list_byte (tx_Data t)) r).2 in
  let '(gas, r1) := fuzz_uint64 (tx_Gas t) r0 in
  let '(price, r2) := fuzz_bigint (tx_GasPrice t) r1 in
  match tx_type t with
  | DynamicFeeTx =>
      let '(tip, r3) := fuzz_bigint (tx_GasTipCap t) r2 in
      let '(cap, r4) := fuzz_bigint price r3 in
      let '(nonce, r5) := fuzz_uint64 (tx_Nonce t) (fuzz_bigint (tx_Value t) r4).2 in
      ({| tx_type := tx_type t; tx_Nonce := nonce; tx_GasPrice := cap; tx_GasTipCap := tip;
          tx_Gas := gas; tx_Value := tx_Value t; tx_Data := tx_Data t; tx_hash := tx_hash t |}, r5)
  | _ =>
      let '(price2, r3) := fuzz_bigint price r2 in
      let '(price3, r4) := fuzz_bigint price2 r3 in
      let '(nonce, r5) := fuzz_uint64 (tx_Nonce t) (fuzz_bigint (tx_Value t) r4).2 in
      ({| tx_type := tx_type t; tx_Nonce := nonce; tx_GasPrice := price3; tx_GasTipCap := tx_GasTipCap t;
          tx_Gas := gas; tx_Value := tx_Value t; tx_Data := tx_Data t; tx_hash := tx_hash t |}, r5)
  end.

(** The objects at [l], each replaced in turn. *)
Fixpoint drawn_each {A} (f : A -> RNG -> A * RNG) (l : list loc) (o : gmap loc A) (r : RNG) :
    gmap loc A * RNG :=
  match l with
  | [] => (o, r)
  | x :: l' =>
      match o !! x with
      | Some a => let '(a', r') := f a r in drawn_each f l' (<[x := a']> o) r'
      | None => (o, r)
      end
  end.

(** Draws for copies of byte strings are spent. *)
Definition spend (l : list bytes) (r : RNG) : RNG := fold_left (fun r m => (fuzz_bytes m r).2) l r.

(** The packet, the heap and the generator after the mutation of [m]. *)
Definition drawn_packet (m : Packet) (hp : Heap) (r : RNG) : Packet * Heap * RNG :=
  match m with
  | StatusPacket v net t hd gen fh fn =>
      let '(fh', r1) := fuzz_array fh r in
      let '(fn', r2) := fuzz_uint64 fn r1 in
      let '(net', r3) := fuzz_uint64 net r2 in
      let '(v', r4) := fuzz_uint32 v r3 in
      let '(t', r5) := fuzz_bigint t r4 in
      (StatusPacket v' net' t' hd gen fh' fn', hp, r5)
  | NewBlockHashesPacket _ => (m, hp, (fuzz_uint64 0 r).2)
  | NewPooledTransactionHashesPacket _ => (m, hp, r)
  | TransactionsPacket l => let '(o, r1) := drawn_each drawn_tx l (txs hp) r in (m, set_txs o hp, r1)
  | GetBlockHeadersPacket66 id o a s b =>
      let '(h', r1) := fuzz_array (on_Hash o) r in
      let '(n', r2) := fuzz_uint64 (on_Number o) r1 in
      let '(a', r3) := fuzz_uint64 a r2 in
      let '(s', r4) := fuzz_uint64 s r3 in
      let '(b', r5) := fuzz_bool b r4 in
      (GetBlockHeadersPacket66 id {| on_Hash := h'; on_Number := n' |} a' s' b', hp, r5)
  | BlockHeadersPacket66 id l =>
      let '(id', r1) := fuzz_uint64 id r in
      let '(o, r2) := drawn_each drawn_header l (headers hp) r1 in
      (BlockHeadersPacket66 id' l, set_headers o hp, r2)
  | NewBlockPacket b t =>
      let '(t', r1) := fuzz_bigint t r in
      match blocks hp !! b with
      | None => (m, hp, r)
      | Some blk =>
          let r2 := (fuzz_uint64 (GasLimit (b_header blk)) r1).2 in
          let '(at', r3) := fuzz_time (b_ReceivedAt blk) r2 in
          (NewBlockPacket b t',
           set_blocks (<[b := {| b_header := b_header blk; b_hash := b_hash blk; b_ReceivedAt := at' |}]>
                         (blocks hp)) hp, r3)
      end
  | GetBlockBodiesPacket66 id l =>
      let '(id', r1) := fuzz_uint64 id r in (GetBlockBodiesPacket66 id' l, hp, r1)
  | GetPooledTransactionsPacket66 id l =>
      let '(id', r1) := fuzz_uint64 id r in (GetPooledTransactionsPacket66 id' l, hp, r1)
  | GetNodeDataPacket66 id l =>
      let '(id', r1) := fuzz_uint64 id r in (GetNodeDataPacket66 id' l, hp, r1)
  | GetReceiptsPacket66 id l =>
      let '(id', r1) := fuzz_uint64 id r in (GetReceiptsPacket66 id' l, hp, r1)
  | BlockBodiesRLPPacket66 id l =>
      let '(id', r1) := fuzz_uint64 id r in (BlockBodiesRLPPacket66 id' l, hp, spend l r1)
  | PooledTransactionsRLPPacket66 id l =>
      let '(id', r1) := fuzz_uint64 id r in (PooledTransactionsRLPPacket66 id' l, hp, spend l r1)
  | NodeDataPacket66 id l =>
      let '(id', r1) := fuzz_uint64 id r in (NodeDataPacket66 id' l, hp, spend l r1)
  | ReceiptsRLPPacket66 id l =>
      let '(id', r1) := fuzz_uint64 id r in (ReceiptsRLPPacket66 id' l, hp, spend l r1)
  end.

(** Symbolic execution of the mutators. *)
Lemma draw_eq {A} (f : RNG -> A * RNG) p r hp :
  draw f (mutated p r hp) = (Ok (f r).1, mutated p (f r).2 hp).
Proof. unfold draw, mutated. cbn. by destruct (f r). Qed.

Ltac run_draws :=
  unfold mbind, StM_bind;
  repeat first
    [ rewrite draw_eq | progress cbn beta iota zeta delta [fst snd]
    | match goal with
      | |- context [let '(_, _) := ?e in _] =>
          lazymatch e with context [let '(_, _) := _ in _] => fail | _ => destruct e as [? ?] end
      end ].

Lemma fuzz_big_ptr_eq o p r hp :
  fuzz_big_ptr o (mutated p r hp) = (Ok (drawn_big o r).1, mutated p (drawn_big o r).2 hp).
Proof. destruct o as [z|]; [|done]. unfold fuzz_big_ptr, drawn_big. by run_draws. Qed.

Lemma mutate_header_eq h p r hp :
  mutate_header h (mutated p r hp) = (Ok (drawn_header h r).1, mutated p (drawn_header h r).2 hp).
Proof.
  unfold mutate_header, drawn_header, mbind, StM_bind.
  repeat first [rewrite draw_eq | rewrite fuzz_big_ptr_eq | progress cbn beta iota zeta delta [fst snd]].
  by run_draws.
Qed.

Lemma mutate_tx_eq t p r hp :
  mutate_tx t (mutated p r hp) = (Ok (drawn_tx t r).1, mutated p (drawn_tx t r).2 hp).
Proof. unfold mutate_tx, drawn_tx. destruct (tx_type t) eqn:E; by run_draws. Qed.

Lemma fuzz_copies_eq l p r hp :
  fuzz_copies l (mutated p r hp) = (Ok tt, mutated p (spend l r) hp).
Proof.
  revert r. induction l as [|m l IH]; intros r; [done|]. cbn [fuzz_copies spend fold_left].
  unfold mbind, StM_bind. rewrite draw_eq. apply IH.
Qed.

Lemma mutate_txs_eq l p r hp :
  (forall x, x ∈ l -> is_Some (txs hp !! x)) ->
  mutate_txs l (mutated p r hp) =
    (Ok tt, mutated p (drawn_each drawn_tx l (txs hp) r).2 (set_txs (drawn_each drawn_tx l (txs hp) r).1 hp)).
Proof.
  revert r hp. induction l as [|x l IH]; intros r hp Hl; cbn [mutate_txs drawn_each].
  { by destruct hp. }
  destruct (Hl x) as [t Ht]; [left|]. unfold mbind, StM_bind, askS. cbn. rewrite Ht. cbn [deref].
  rewrite mutate_tx_eq. destruct (drawn_tx t r) as [t' r']. cbn [fst snd]. unfold putS.
  change (set_heap _ (mutated p r' hp)) with (mutated p r' (set_txs (<[x := t']> (txs hp)) hp)).
  rewrite IH; [done|]. intros y Hy. cbn. rewrite lookup_insert_is_Some'. right. apply Hl. by right.
Qed.

Lemma mutate_headers_eq l p r hp :
  (forall x, x ∈ l -> is_Some (headers hp !! x)) ->
  mutate_headers l (mutated p r hp) =
    (Ok tt, mutated p (drawn_each drawn_header l (headers hp) r).2
              (set_headers (drawn_each drawn_header l (headers hp) r).1 hp)).
Proof.
  revert r hp. induction l as [|x l IH]; intros r hp Hl; cbn [mutate_headers drawn_each].
  { by destruct hp. }
  destruct (Hl x) as [t Ht]; [left|]. unfold mbind, StM_bind, askS. cbn. rewrite Ht. cbn [deref].
  rewrite mutate_header_eq. destruct (drawn_header t r) as [t' r']. cbn [fst snd]. unfold putS.
  change (set_heap _ (mutated p r' hp)) with (mutated p r' (set_headers (<[x := t']> (headers hp)) hp)).
  rewrite IH; [done|]. intros y Hy. cbn. rewrite lookup_insert_is_Some'. right. apply Hl. by right.
Qed.

(** The mutator of a packet computes what the draws say. *)
Lemma mutate_eq m p r hp :
  refs_ok hp m ->
  mutate m (mutated p r hp) =
    (let '(m', hp', r') := drawn_packet m hp r in (Ok m', mutated p r' hp')).
Proof.
  intros (H1 & H2 & H3).
  destruct m; cbn [mutate drawn_packet];
    unfold MutateStatusMsg, MutateNewBlockHashesMsg, MutateGetBlockHeaderMsg, MutateNewPooledTransactionHashesMsg,
      MutateGetBlockBodiesMsg, MutateBlockBodiesMsg, MutateGetPooledTransactionsMsg, MutatePooledTransactionsMsg,
      MutateGetNodeDataMsg, MutateNodeDataMsg, MutateGetReceiptsMsg, MutateReceiptsMsg, MutateTransactionsMsg,
      MutateBlockHeadersMsg, MutateNewBlockMsg;
    try (unfold mbind, StM_bind; repeat first [rewrite draw_eq | rewrite fuzz_copies_eq
           | progress cbn beta iota zeta delta [fst snd]]; by run_draws).
  - unfold mbind, StM_bind. rewrite mutate_txs_eq by done. by destruct (drawn_each _ _ _ _).
  - unfold mbind, StM_bind. rewrite draw_eq. destruct (fuzz_uint64 _ _) as [id' r1]. cbn [fst snd].
    rewrite mutate_headers_eq by done. by destruct (drawn_each _ _ _ _).
  - destruct (H3 Block) as [blk Hb]; [left|]. unfold mbind, StM_bind. rewrite draw_eq, Hb.
    destruct (fuzz_bigint _ _) as [t' r1]. cbn [fst snd]. unfold askS. cbn. rewrite Hb. cbn [deref].
    rewrite draw_eq. cbn [fst snd]. rewrite draw_eq. by destruct (fuzz_time _ _).
Qed.

(** ** A pass of the fuzzer *)

(** What sending [m] writes in a heap: one message with the objects resolved, or
    nothing when it cannot be encoded. *)
Definition sent (hp : Heap) (code : Z) (m : Packet) : list Msg :=
  match deref_all (headers hp) (header_refs m), deref_all (txs hp) (tx_refs m),
        deref_all (blocks hp) (block_refs m) with
  | Ok hs, Ok ts, Ok bs =>
      if is_ok (encodable m hs ts bs)
      then [{| Code := code; packet := m; m_headers := hs; m_txs := ts; m_blocks := bs |}] else []
  | _, _, _ => []
  end.

Lemma deref_all_ok {A} (o : gmap loc A) l :
  (forall x, x ∈ l -> is_Some (o !! x)) -> exists r, deref_all o l = Ok r.
Proof.
  induction l as [|x l IH]; intros H; cbn; [by eexists|].
  destruct (H x) as [a Ha]; [left|]. rewrite Ha. destruct IH as [r Hr]; [intros; apply H; by right|].
  unfold deref_all in Hr. rewrite Hr. by eexists.
Qed.

Lemma deref_all_length {A} (o : gmap loc A) l r : deref_all o l = Ok r -> length r = length l.
Proof.
  revert r. induction l as [|x l IH]; intros r; cbn; [by intros [= <-]|].
  fold (deref_all o l). destruct (o !! x); [|done]. cbn. destruct (deref_all o l) as [r'| |]; try done.
  intros [= <-]. cbn. by rewrite (IH r').
Qed.

Lemma encodable_no_panic m hs ts bs e : encodable m hs ts bs <> Panic e.
Proof.
  unfold encodable, origin_encodable, ensure. destruct m; cbn; repeat case_match; done.
Qed.

(** Sending writes the message, or fails with an error and writes nothing. *)
Lemma Send_eq code m p :
  refs_ok (heap p) m ->
  exists o, Send code m p = (o, set_wire (wire p ++ sent (heap p) code m) p) /\ (forall e, o <> Panic e) /\
    (is_ok o = true <-> sent (heap p) code m <> []).
Proof.
  intros (H1 & H2 & H3). unfold Send, sent, mbind, StM_bind, askS, pure, putS.
  destruct (deref_all_ok _ _ H1) as [hs ->], (deref_all_ok _ _ H2) as [ts ->], (deref_all_ok _ _ H3) as [bs ->].
  pose proof (encodable_no_panic m hs ts bs) as Hn.
  destruct (encodable m hs ts bs) as [[]|e|e]; cbn; [by eexists| |by destruct (Hn e)].
  rewrite app_nil_r. eexists. by split; [destruct p|].
Qed.

Lemma ignore_err_Send code m p :
  refs_ok (heap p) m ->
  ignore_err (Send code m) p = (Ok tt, set_wire (wire p ++ sent (heap p) code m) p).
Proof.
  intros H. unfold ignore_err. destruct (Send_eq code m p H) as ([[]|e|e] & -> & Hn & _); [done..|by destruct (Hn e)].
Qed.

(** The peer after a seed was replaced and sent. *)
Definition fuzzed (code : Z) (i : nat) (m' : Packet) (r : RNG) (hp : Heap) (p : Peer) : Peer :=
  set_wire (wire p ++ sent hp code m')
    (set_seeds (<[code := <[i := m']> (pool code p)]> (seeds p)) (mutated p r hp)).

Lemma pool_fuzzed code i m' r hp p c :
  pool c (fuzzed code i m' r hp p) = if bool_decide (c = code) then <[i := m']> (pool code p) else pool c p.
Proof.
  unfold pool, fuzzed, mutated. cbn. case_bool_decide as E; [subst; by rewrite lookup_insert_eq|].
  by rewrite lookup_insert_ne.
Qed.

Lemma peer_ok_fuzzed code i m m' r hp p :
  peer_ok p -> pool code p !! i = Some m -> mutation_of m m' -> heap_frame m (heap p) hp ->
  peer_ok (fuzzed code i m' r hp p).
Proof.
  intros Hok Hm Hmut Hfr c x. rewrite pool_fuzzed. cbn [heap fuzzed mutated set_wire set_seeds set_heap].
  assert (forall c y, y ∈ pool c p -> Kind y = c /\ refs_ok hp y) as Hold.
  { intros c' y Hy. destruct (Hok _ _ Hy) as [? Hr]. split; [done|]. exact (refs_ok_frame _ _ _ _ Hfr Hr). }
  case_bool_decide as E; [|by apply Hold]. subst c. intros Hx.
  apply list_elem_of_lookup in Hx as [j Hj]. apply list_lookup_insert_Some in Hj as [(-> & <- & _)|(_ & Hj)].
  - destruct (Hold code m) as [Hk Hr]; [by eapply list_elem_of_lookup_2|].
    split; [|exact (mutation_of_refs _ _ _ Hmut Hr)]. by destruct (mutation_of_shape _ _ Hmut) as [-> _].
  - apply Hold. by eapply list_elem_of_lookup_2.
Qed.

(** The index of the seed that is drawn. *)
Definition drawn_index (l : list Packet) (r : RNG) : nat := Z.to_nat (rand_Intn (Z.of_nat (length l)) r).1.

Lemma drawn_index_lt l r : l <> [] -> (drawn_index l r < length l)%nat.
Proof.
  intros Hl. unfold drawn_index. destruct l; [done|].
  pose proof (rand_Intn_range (Z.of_nat (length (p :: l))) r ltac:(cbn; lia)). cbn in *. lia.
Qed.

Lemma fuzz_seed_effect code p :
  peer_ok p -> pool code p <> [] ->
  exists m m' r hp, pool code p !! drawn_index (pool code p) (rng p) = Some m /\ mutation_of m m' /\
    heap_frame m (heap p) hp /\
    drawn_packet m (heap p) (rand_Intn (Z.of_nat (length (pool code p))) (rng p)).2 = (m', hp, r) /\
    fuzz_seed code p = (Ok tt, fuzzed code (drawn_index (pool code p) (rng p)) m' r hp p).
Proof.
  intros Hok Hne. pose proof (drawn_index_lt _ (rng p) Hne) as Hi.
  destruct (lookup_lt_is_Some_2 _ _ Hi) as [m Hm].
  destruct (Hok code m) as [_ Hr]; [by eapply list_elem_of_lookup_2|].
  unfold fuzz_seed. unfold mbind at 1, StM_bind at 1, getS. destruct (pool code p) as [|m0 l] eqn:El; [done|].
  unfold drawn_index in *. unfold mbind at 1, StM_bind at 1, draw.
  destruct (rand_Intn (Z.of_nat (length (m0 :: l))) (rng p)) as [z r0]. cbn [fst] in *.
  unfold mbind at 1, StM_bind at 1, pure. rewrite (proj2 (index_Ok _ _ _) Hm).
  destruct (mutate_ok m p r0 (heap p) Hr) as (m' & r1 & hp & E & Hfr & Hmut).
  exists m, m', r1, hp. split_and!; try done.
  { rewrite mutate_eq in E by done. cbn [snd]. destruct (drawn_packet m (heap p) r0) as [[m2 hp2] r2].
    injection E as -> Hr2 Hh. by rewrite <- Hh, <- Hr2. }
  unfold mbind at 1, StM_bind at 1.
  replace (set_rng r0 p) with (mutated p r0 (heap p)) by (by destruct p).
  rewrite E. unfold mbind, StM_bind, putS.
  rewrite ignore_err_Send; [|exact (mutation_of_refs _ _ _ Hmut (refs_ok_frame _ _ _ _ Hfr Hr))].
  unfold fuzzed. by rewrite El.
Qed.

Lemma fuzz_seed_empty code p : pool code p = [] -> fuzz_seed code p = (Ok tt, p).
Proof. intros E. unfold fuzz_seed, mbind, StM_bind, getS. by rewrite E. Qed.

(** The table sends every type to the fuzzer of that type. *)
Lemma fuzzers_spec code f : fuzzers code = Some f -> f = fuzz_seed code /\ code <> 11 /\ code <> 12.
Proof.
  unfold fuzzers. repeat (case_match; [intros [= <-]; rewrite ?Z.eqb_eq in *; by subst|]). done.
Qed.

(** The type a pass at time [now] draws. *)
Definition drawn_code (now : Z) (r : RNG) : Z := (rand_Intn 15 (rand_SeedAt now r)).1 + 1.

Lemma drawn_code_range now r : 1 <= drawn_code now r <= 15.
Proof. unfold drawn_code. pose proof (rand_Intn_range 15 (rand_SeedAt now r)). lia. Qed.

Lemma getNextType_eq now p :
  getNextType now p = (Ok (drawn_code now (rng p)), set_rng (rand_Intn 15 (rand_SeedAt now (rng p))).2 p).
Proof.
  unfold getNextType, mbind, StM_bind, putS, draw. cbn. pose proof (drawn_code_range now (rng p)) as H.
  unfold drawn_code in *. destruct (rand_Intn 15 _) as [z r]. cbn in *. unfold mret, StM_ret.
  by rewrite u64_id by (unfold is_u64, two64; lia).
Qed.

(** The seed a pass at time [now] draws. *)
Definition drawn_seed (now : Z) (p : Peer) : nat :=
  drawn_index (pool (drawn_code now (rng p)) p) (rand_Intn 15 (rand_SeedAt now (rng p))).2.

(** The generator after the type was drawn. *)
Abbreviation after_type now p := (rand_Intn 15 (rand_SeedAt now (rng p))).2.

Lemma fuzzers_none code : 1 <= code <= 15 -> fuzzers code = None <-> code = 11 \/ code = 12.
Proof.
  unfold fuzzers, NewBlockHashesMsg, NewBlockMsg, TransactionsMsg, NewPooledTransactionHashesMsg, GetBlockHeadersMsg,
    BlockHeadersMsg, GetBlockBodiesMsg, BlockBodiesMsg, GetNodeDataMsg, NodeDataMsg, GetReceiptsMsg, ReceiptsMsg,
    GetPooledTransactionsMsg, PooledTransactionsMsg.
  intros Hc. repeat (match goal with |- context [code =? ?k] => destruct (Z.eqb_spec code k) end;
    [split; [done|lia]|]). split; [lia|done].
Qed.

(** A pass by the type that was drawn. *)
Lemma fuzz_pass_run now p :
  peer_ok p ->
  let code := drawn_code now (rng p) in
  let i := drawn_seed now p in
  if decide (code = 11 \/ code = 12) then fuzz_pass now p = (Ok tt, set_rng (after_type now p) p)
  else if decide (pool code p = []) then
    fuzz_pass now p = (Ok tt, set_count (fuzzcount p + 1) (set_rng (after_type now p) p))
  else exists m m' r hp, pool code p !! i = Some m /\ mutation_of m m' /\ heap_frame m (heap p) hp /\
    drawn_packet m (heap p) (rand_Intn (Z.of_nat (length (pool code p))) (after_type now p)).2 = (m', hp, r) /\
    fuzz_pass now p = (Ok tt, set_count (fuzzcount p + 1) (fuzzed code i m' r hp p)).
Proof.
  intros Hok code i. subst i. unfold drawn_seed. fold code.
  unfold fuzz_pass, mbind, StM_bind. rewrite getNextType_eq. fold code.
  set (r1 := (rand_Intn 15 _).2).
  pose proof (fuzzers_none code (drawn_code_range now (rng p))) as Hn.
  destruct (fuzzers code) as [f|] eqn:Ef.
  2: { rewrite decide_True by (by apply Hn). done. }
  rewrite decide_False by (intros H; by apply Hn in H).
  apply fuzzers_spec in Ef as (-> & H11 & H12).
  assert (peer_ok (set_rng r1 p)) as Hok1 by (intros c m Hm; by apply Hok).
  case_decide as E; [by rewrite fuzz_seed_empty|].
  destruct (fuzz_seed_effect code (set_rng r1 p) Hok1 E) as (m & m' & r & hp & Hm & Hmut & Hfr & Hd & Eq).
  exists m, m', r, hp. rewrite Eq. by split_and!.
Qed.

Lemma fuzz_pass_cases now p :
  peer_ok p ->
  let code := drawn_code now (rng p) in let i := drawn_seed now p in
  (exists r c, fuzz_pass now p = (Ok tt, set_count c (set_rng r p))) \/
  exists m m' r hp, code <> 11 /\ code <> 12 /\ pool code p !! i = Some m /\ mutation_of m m' /\
    heap_frame m (heap p) hp /\
    fuzz_pass now p = (Ok tt, set_count (fuzzcount p + 1) (fuzzed code i m' r hp p)).
Proof.
  intros Hok code i. pose proof (fuzz_pass_run now p Hok) as H. fold code i in H. cbv zeta in H.
  case_decide; [left; rewrite H; exists (after_type now p), (fuzzcount p); by destruct p|].
  case_decide; [left; eauto|]. right. naive_solver.
Qed.

(** C5. A pass of the message fuzzer, as a function of its draws, on a well-formed
    peer.  It never panics and leaves the peer well-formed.  The generator is
    seeded with the time and draws a type from 1 to 15.  For the types 11 and 12,
    which have no fuzzer, nothing happens; if the pool of the type is empty only
    the counter grows; otherwise the next draw picks a position in the pool, the
    seed there is replaced by its drawn mutation (every fuzzed field is the next
    draw, the others are kept; only objects the seed points to change), exactly
    that mutation, with those objects as they now are, is written to the peer
    unless it cannot be encoded, and the counter grows. *)
Theorem fuzz_pass_effect now p :
  peer_ok p ->
  exists q, fuzz_pass now p = (Ok tt, q) /\ peer_ok q /\
    let '(n, r1) := rand_Intn 15 (rand_SeedAt now (rng p)) in
    let code := n + 1 in
    (code = 11 \/ code = 12 -> q = set_rng r1 p) /\
    (code <> 11 -> code <> 12 -> pool code p = [] -> q = set_count (fuzzcount p + 1) (set_rng r1 p)) /\
    (code <> 11 -> code <> 12 -> pool code p <> [] ->
       let '(i, r2) := rand_Intn (Z.of_nat (length (pool code p))) r1 in
       exists m, pool code p !! Z.to_nat i = Some m /\
       let '(m', hp, r3) := drawn_packet m (heap p) r2 in
       mutation_of m m' /\ heap_frame m (heap p) hp /\
       q = set_count (fuzzcount p + 1)
             (set_wire (wire p ++ sent hp code m')
               (set_seeds (<[code := <[Z.to_nat i := m']> (pool code p)]> (seeds p))
                 (set_heap hp (set_rng r3 p))))).
Proof.
  intros Hok. pose proof (fuzz_pass_run now p Hok) as H. cbv zeta in H.
  unfold drawn_seed, drawn_index, drawn_code in H.
  destruct (rand_Intn 15 _) as [n r1]. cbn [fst snd] in H.
  case_decide as Hc; [|case_decide as He].
  - exists (set_rng r1 p). split_and!; [done|intros c x Hx; by apply Hok|naive_solver..].
  - exists (set_count (fuzzcount p + 1) (set_rng r1 p)).
    split_and!; [done|intros c x Hx; by apply Hok|naive_solver..].
  - destruct H as (m & m' & r & hp & Hm & Hmut & Hfr & Hd & E). eexists. split; [exact E|].
    split; [exact (peer_ok_fuzzed _ _ _ _ r _ _ Hok Hm Hmut Hfr)|].
    split_and!; [naive_solver..|]. intros _ _ _.
    destruct (rand_Intn _ r1) as [i r2]. cbn [fst snd] in *. exists m. split; [done|].
    rewrite Hd. by split_and!.
Qed.

(** Message types the fuzzing loop can send. *)
Definition fuzzable : list Z := [1; 2; 3; 4; 5; 6; 7; 8; 9; 10; 13; 14; 15].

(** What any number of passes does. *)
Record loop_effect (n : nat) (p q : Peer) : Prop := {
  le_ok : peer_ok q;
  le_wire : exists new, wire q = wire p ++ new /\ (length new <= n)%nat /\
    Forall (fun m => Code m = Kind (packet m) /\ Code m ∈ fuzzable) new;
  le_pools : forall c, length (pool c q) = length (pool c p);
  le_unfuzzed : forall c, c ∉ fuzzable -> pool c q = pool c p;
  le_known : knownBlocks q = knownBlocks p /\ knownTxs q = knownTxs p;
  le_queues : queuedBlocks q = queuedBlocks p /\ queuedBlockAnns q = queuedBlockAnns p;
  le_channels : txBroadcast q = txBroadcast p /\ txAnnounce q = txAnnounce p;
  le_objects : forall m, refs_ok (heap p) m -> refs_ok (heap q) m;
}.

Lemma sent_spec hp code m : Forall (fun x => Code x = code /\ packet x = m) (sent hp code m).
Proof. unfold sent. repeat case_match; repeat constructor. Qed.

Lemma sent_length hp code m : (length (sent hp code m) <= 1)%nat.
Proof. unfold sent. repeat case_match; cbn; lia. Qed.

Lemma drawn_fuzzable now r :
  drawn_code now r <> 11 -> drawn_code now r <> 12 -> drawn_code now r ∈ fuzzable.
Proof.
  pose proof (drawn_code_range now r). intros. unfold fuzzable. rewrite !elem_of_cons. lia.
Qed.

Lemma loop_effect_pass now p :
  peer_ok p -> exists q, fuzz_pass now p = (Ok tt, q) /\ loop_effect 1 p q.
Proof.
  intros Hok. destruct (fuzz_pass_cases now p Hok) as
    [(r & c & E)|(m & m' & r & hp & H11 & H12 & Hm & Hmut & Hfr & E)]; eexists; (split; [exact E|]).
  - split; try done. exists []. rewrite app_nil_r. repeat split; [cbn; lia|constructor].
  - pose proof (drawn_fuzzable _ _ H11 H12) as Hin. split; try done.
    + exact (peer_ok_fuzzed _ _ _ _ r _ _ Hok Hm Hmut Hfr).
    + eexists. split; [reflexivity|]. split; [apply sent_length|].
      eapply Forall_impl; [apply sent_spec|]. intros x [-> ->]. split; [|done].
      destruct (mutation_of_shape _ _ Hmut) as [-> _].
      by destruct (Hok _ _ (list_elem_of_lookup_2 _ _ _ Hm)).
    + intros c. change (pool c (set_count ?n ?q)) with (pool c q). rewrite pool_fuzzed.
      case_bool_decide; [subst; apply length_insert|done].
    + intros c Hc. change (pool c (set_count ?n ?q)) with (pool c q). rewrite pool_fuzzed.
      case_bool_decide; [by subst|done].
    + intros x Hx. exact (refs_ok_frame _ _ _ _ Hfr Hx).
Qed.

Lemma loop_effect_trans n k p q r : loop_effect n p q -> loop_effect k q r -> loop_effect (n + k) p r.
Proof.
  intros [_ (w1 & E1 & L1 & F1) A1 B1 [C1 D1] [G1 H1] [K1 M1] O1] [Hok (w2 & E2 & L2 & F2) A2 B2 [C2 D2] [G2 H2] [K2 M2] O2].
  split; try (split; congruence); [done|..].
  - exists (w1 ++ w2). rewrite E2, E1, length_app, app_assoc. split_and!; [done|lia|by apply Forall_app].
  - intros c. by rewrite A2, A1.
  - intros c Hc. by rewrite B2, B1.
  - intros m Hm. by apply O2, O1.
Qed.

Lemma FuzzMessages_effect times p :
  peer_ok p -> exists q, FuzzMessages times p = (Ok tt, q) /\ loop_effect (length times) p q.
Proof.
  revert p. induction times as [|now times IH]; intros p Hok; cbn [FuzzMessages length].
  - exists p. split; [done|]. split; try done. exists []. rewrite app_nil_r. repeat split; constructor.
  - destruct (loop_effect_pass now p Hok) as (q1 & E1 & H1). destruct (IH q1) as (q2 & E2 & H2); [apply H1|].
    exists q2. unfold mbind, StM_bind. rewrite E1. split; [exact E2|]. exact (loop_effect_trans 1 _ _ _ _ H1 H2).
Qed.

(** The fuzzing loop is safe however long it runs: it never panics, the peer
    stays well-formed and its pools keep their sizes, it writes at most one
    message per pass, each under the code of its own type, and it only sends the
    thirteen types below 16 with a fuzzer, so receipts, although they have one,
    are never fuzzed. *)
Theorem FuzzMessages_safe times p :
  peer_ok p -> exists q, FuzzMessages times p = (Ok tt, q) /\ loop_effect (length times) p q.
Proof. apply FuzzMessages_effect. Qed.

(** ** Reseeding *)

Lemma drawn_code_const now r r' : drawn_code now r = drawn_code now r'.
Proof. unfold drawn_code. f_equal. apply rand_SeedAt_Intn. Qed.

(** Everything but one seed and the objects it points to is kept. *)
Definition only_seed_changed (code : Z) (i : nat) (p q : Peer) : Prop :=
  peer_ok q /\ length (pool code q) = length (pool code p) /\
  (forall c j, c <> code \/ j <> i -> pool c q !! j = pool c p !! j) /\
  match pool code p !! i with
  | Some m => exists m', pool code q !! i = Some m' /\ (header_refs m', tx_refs m', block_refs m') =
                (header_refs m, tx_refs m, block_refs m) /\ heap_frame m (heap p) (heap q)
  | None => heap q = heap p
  end.

Lemma only_seed_changed_pass now p :
  peer_ok p -> exists q, fuzz_pass now p = (Ok tt, q) /\
    only_seed_changed (drawn_code now (rng p)) (drawn_seed now p) p q.
Proof.
  intros Hok. destruct (fuzz_pass_cases now p Hok) as
    [(r & c & E)|(m & m' & r & hp & _ & _ & Hm & Hmut & Hfr & E)]; eexists; (split; [exact E|]).
  - split; [intros c' x Hx; by apply Hok|]. split_and!; [done..|].
    change (pool ?c (set_count _ (set_rng _ p))) with (pool c p). case_match; [|done].
    eexists. split_and!; [done..|apply heap_frame_refl].
  - pose proof (peer_ok_fuzzed _ _ _ _ r _ _ Hok Hm Hmut Hfr) as Hok'.
    pose proof (pool_fuzzed (drawn_code now (rng p)) (drawn_seed now p) m' r hp p) as Hq.
    split; [exact Hok'|]. unfold pool in Hq |- *. cbn [seeds set_count]. split; [|split].
    + rewrite Hq, bool_decide_true by done. apply length_insert.
    + intros c j Hcj. rewrite Hq. case_bool_decide as Ec; [|done]. subst c.
      rewrite list_lookup_insert_ne; [done|]. naive_solver.
    + unfold pool in Hm. rewrite Hm, Hq, bool_decide_true by done. exists m'.
      rewrite list_lookup_insert_eq by (by eapply lookup_lt_Some).
      destruct (mutation_of_shape _ _ Hmut) as (_ & -> & -> & ->). by split_and!.
Qed.

Lemma heap_frame_refs m m' x y :
  (header_refs m', tx_refs m', block_refs m') = (header_refs m, tx_refs m, block_refs m) ->
  heap_frame m' x y -> heap_frame m x y.
Proof. intros [= E1 E2 E3] [H1 H2 H3]. split; [by rewrite <- E1|by rewrite <- E2|by rewrite <- E3]. Qed.

Lemma only_seed_changed_trans code i p q r :
  only_seed_changed code i p q -> only_seed_changed code i q r -> only_seed_changed code i p r.
Proof.
  intros (_ & L1 & P1 & H1) (Hok & L2 & P2 & H2). split; [done|]. split; [congruence|]. split.
  - intros c j Hcj. by rewrite P2, P1.
  - destruct (pool code p !! i) as [m|] eqn:Em.
    + destruct H1 as (m1 & E1 & R1 & F1). rewrite E1 in H2. destruct H2 as (m2 & E2 & R2 & F2).
      exists m2. split_and!; [done|congruence|]. eapply heap_frame_trans; [done|]. exact (heap_frame_refs _ _ _ _ R1 F2).
    + assert (pool code q !! i = None) as E by (rewrite lookup_ge_None in Em |- *; lia).
      rewrite E in H2. congruence.
Qed.

(** Reseeding the generator with the time in seconds makes every pass of the
    same second work on one and the same seed: whatever happens in between,
    the other seeds of all pools and the objects that seed does not point to
    stay as they were. *)
Theorem one_seed_per_second now n p :
  peer_ok p -> exists q, FuzzMessages (replicate n now) p = (Ok tt, q) /\
    only_seed_changed (drawn_code now (rng p)) (drawn_seed now p) p q.
Proof.
  revert p. induction n as [|n IH]; intros p Hok; cbn [replicate FuzzMessages].
  - exists p. split; [done|]. split_and!; try done. case_match; [|done]. eexists. by split_and!; [..|apply heap_frame_refl].
  - destruct (only_seed_changed_pass now p Hok) as (q1 & E1 & H1).
    destruct (IH q1) as (q2 & E2 & H2); [apply H1|]. exists q2. unfold mbind, StM_bind. rewrite E1. split; [exact E2|].
    eapply only_seed_changed_trans; [exact H1|].
    assert (drawn_code now (rng q1) = drawn_code now (rng p)) as Ec by apply drawn_code_const.
    assert (drawn_seed now q1 = drawn_seed now p) as Ei.
    { unfold drawn_seed, drawn_index. rewrite Ec. destruct H1 as (_ & -> & _). f_equal. apply rand_SeedAt_Intn2. }
    by rewrite <- Ec, <- Ei.
Qed.
End Fuzzer.
