(* ===== verification/GethPeerSpec.v ===== *)
(** * What the Ethereum peer keeps

    The operations of eth/protocols/eth/peer.go, interleaved with the fuzzers, as
    one transition system: its invariant, and that every message sent normally
    becomes a seed as it was sent. *)

From S2P Require Import Prelude Randomness EthTypes GethFuzzer GethFuzzerSpec.

Section PeerOps.
Context {Rnd : Randomness} {RndOk : RandomnessOk}.
Context (pop_choice : gset Hash -> option Hash).
Context (pop_ok : forall s, s <> ∅ -> exists x, pop_choice s = Some x /\ x ∈ s).

(** ** Operations *)

(** The calls of the peer's methods, and the passes of the two fuzzers. *)
Inductive PeerOp :=
| OpSetHead (h : Hash) (t : Z)
| OpMarkBlock (h : Hash)
| OpMarkTransaction (h : Hash)
| OpSendTransactions (l : list loc)
| OpAsyncSendTransactions (terminated : bool) (hashes : list Hash)
| OpSendPooledTransactionHashes (hashes : list Hash)
| OpAsyncSendPooledTransactionHashes (terminated : bool) (hashes : list Hash)
| OpReplyPooledTransactions (id : Z) (hashes : list Hash) (l : list bytes)
| OpSendNewBlockHashes (hashes : list Hash) (numbers : list Z)
| OpAsyncSendNewBlockHash (b : loc)
| OpSendNewBlock (b : loc) (t : Z)
| OpAsyncSendNewBlock (b : loc) (t : Z)
| OpReplyBlockHeaders (id : Z) (l : list loc)
| OpReplyBlockBodies (id : Z) (l : list bytes)
| OpReplyNodeData (id : Z) (l : list bytes)
| OpReplyReceipts (id : Z) (l : list bytes)
| OpRequestOneHeader (h : Hash)
| OpRequestHeadersByHash (h : Hash) (amount skip : Z) (reverse : bool)
| OpRequestHeadersByNumber (n amount skip : Z) (reverse : bool)
| OpRequestBodies (hashes : list Hash)
| OpRequestNodeData (hashes : list Hash)
| OpRequestReceipts (hashes : list Hash)
| OpRequestTxs (hashes : list Hash)
| OpFuzzMessages (times : list Z)
| OpFuzzTransactions (n : nat).

Definition run_op (o : PeerOp) : StM Peer unit :=
  match o with
  | OpSetHead h t => putS (SetHead h t)
  | OpMarkBlock h => putS (markBlock pop_choice h)
  | OpMarkTransaction h => putS (markTransaction pop_choice h)
  | OpSendTransactions l => SendTransactions pop_choice l
  | OpAsyncSendTransactions t l => putS (AsyncSendTransactions pop_choice t l)
  | OpSendPooledTransactionHashes l => sendPooledTransactionHashes pop_choice l
  | OpAsyncSendPooledTransactionHashes t l => putS (AsyncSendPooledTransactionHashes pop_choice t l)
  | OpReplyPooledTransactions id h l => ReplyPooledTransactionsRLP pop_choice id h l
  | OpSendNewBlockHashes h n => SendNewBlockHashes pop_choice h n
  | OpAsyncSendNewBlockHash b => AsyncSendNewBlockHash pop_choice b
  | OpSendNewBlock b t => SendNewBlock pop_choice b t
  | OpAsyncSendNewBlock b t => AsyncSendNewBlock pop_choice b t
  | OpReplyBlockHeaders id l => ReplyBlockHeaders id l
  | OpReplyBlockBodies id l => ReplyBlockBodiesRLP id l
  | OpReplyNodeData id l => ReplyNodeData id l
  | OpReplyReceipts id l => ReplyReceiptsRLP id l
  | OpRequestOneHeader h => RequestOneHeader h
  | OpRequestHeadersByHash h a s r => RequestHeadersByHash h a s r
  | OpRequestHeadersByNumber n a s r => RequestHeadersByNumber n a s r
  | OpRequestBodies l => RequestBodies l
  | OpRequestNodeData l => RequestNodeData l
  | OpRequestReceipts l => RequestReceipts l
  | OpRequestTxs l => RequestTxs l
  | OpFuzzMessages times => FuzzMessages times
  | OpFuzzTransactions n => FuzzTransactions n
  end.

(** What callers guarantee: pointers are to objects, batches fit the known sets,
    and there is a number for every block hash. *)
Definition op_ok (hp : Heap) (o : PeerOp) : Prop :=
  match o with
  | OpSendTransactions l => (forall x, x ∈ l -> is_Some (txs hp !! x)) /\ Z.of_nat (length l) <= maxKnownTxs
  | OpAsyncSendTransactions _ l | OpSendPooledTransactionHashes l | OpAsyncSendPooledTransactionHashes _ l
  | OpReplyPooledTransactions _ l _ => Z.of_nat (length l) <= maxKnownTxs
  | OpSendNewBlockHashes l n => Z.of_nat (length l) <= maxKnownBlocks /\ (length l <= length n)%nat
  | OpAsyncSendNewBlockHash b | OpSendNewBlock b _ | OpAsyncSendNewBlock b _ => is_Some (blocks hp !! b)
  | OpReplyBlockHeaders _ l => forall x, x ∈ l -> is_Some (headers hp !! x)
  | _ => True
  end.

(** ** Invariant *)

Record peer_inv (p : Peer) : Prop := {
  pi_ok : peer_ok p;
  pi_blocks : Z.of_nat (size (knownBlocks p)) <= maxKnownBlocks;
  pi_txs : Z.of_nat (size (knownTxs p)) <= maxKnownTxs;
  pi_queue : (length (queuedBlocks p) <= maxQueuedBlocks)%nat;
  pi_anns : (length (queuedBlockAnns p) <= maxQueuedBlockAnns)%nat;
}.

(** A run that keeps the invariant and does not panic. *)
Definition safe_run {A} (c : StM Peer A) (p : Peer) : Prop :=
  peer_inv (c p).2 /\ forall e, (c p).1 <> Panic e.

Lemma size_insert_le (h : Hash) (s : gset Hash) : (size ({[h]} ∪ s) <= S (size s))%nat.
Proof.
  rewrite size_union_alt, size_singleton. apply le_n_S, subseteq_size. set_solver.
Qed.

Lemma mark_one_bound maxKnown h s :
  0 < maxKnown -> Z.of_nat (size (mark_one pop_choice maxKnown h s)) <= maxKnown.
Proof.
  intros Hm. unfold mark_one. pose proof (make_room_size pop_choice pop_ok (maxKnown - 1) s ltac:(lia)).
  pose proof (size_insert_le h (make_room pop_choice (maxKnown - 1) s)). lia.
Qed.

Lemma mark_many_bound maxKnown l s :
  0 < maxKnown -> Z.of_nat (length l) <= maxKnown ->
  Z.of_nat (size (mark_many pop_choice maxKnown l s)) <= maxKnown.
Proof.
  intros Hm Hl. unfold mark_many. set (lim := Z.max 0 _).
  pose proof (make_room_size pop_choice pop_ok lim s ltac:(lia)).
  pose proof (size_add_all l (make_room pop_choice lim s)). lia.
Qed.

Lemma inv_markBlock h p : peer_inv p -> peer_inv (markBlock pop_choice h p).
Proof. intros [? ? ? ? ?]. split; try done. by apply mark_one_bound. Qed.

Lemma inv_markTransaction h p : peer_inv p -> peer_inv (markTransaction pop_choice h p).
Proof. intros [? ? ? ? ?]. split; try done. by apply mark_one_bound. Qed.

Lemma inv_markBlocks l p :
  Z.of_nat (length l) <= maxKnownBlocks -> peer_inv p -> peer_inv (markBlocks pop_choice l p).
Proof. intros Hl [? ? ? ? ?]. split; try done. by apply mark_many_bound. Qed.

Lemma inv_markTransactions l p :
  Z.of_nat (length l) <= maxKnownTxs -> peer_inv p -> peer_inv (markTransactions pop_choice l p).
Proof. intros Hl [? ? ? ? ?]. split; try done. by apply mark_many_bound. Qed.

Lemma inv_set_rng r p : peer_inv p -> peer_inv (set_rng r p).
Proof. by intros []. Qed.

(** ** Recording and sending *)

Lemma pool_record_seed m p c :
  pool c (record_seed m p) = if bool_decide (c = Kind m) then pool c p ++ [m] else pool c p.
Proof.
  unfold pool at 1, record_seed. cbn. case_bool_decide as E; [subst; by rewrite lookup_insert_eq|].
  by rewrite lookup_insert_ne.
Qed.

Lemma inv_record_seed m p : refs_ok (heap p) m -> peer_inv p -> peer_inv (record_seed m p).
Proof.
  intros Hm [Hok ? ? ? ?]. split; try done. intros c x. rewrite pool_record_seed.
  case_bool_decide as E; [|apply Hok]. rewrite elem_of_app, list_elem_of_singleton.
  intros [H| ->]; [by apply Hok|done].
Qed.

Lemma record_and_send_eq m p :
  refs_ok (heap p) m ->
  exists o, record_and_send m p = (o, set_wire (wire p ++ sent (heap p) (Kind m) m) (record_seed m p)) /\
    (forall e, o <> Panic e) /\ (is_ok o = true <-> sent (heap p) (Kind m) m <> []).
Proof. intros H. exact (Send_eq (Kind m) m (record_seed m p) H). Qed.

Lemma safe_record_and_send m p : refs_ok (heap p) m -> peer_inv p -> safe_run (record_and_send m) p.
Proof.
  intros Hm Hp. destruct (record_and_send_eq m p Hm) as (o & E & Hn & _). unfold safe_run. rewrite E.
  split; [|done]. by destruct (inv_record_seed m p Hm Hp).
Qed.

(** ** Every operation *)

Lemma safe_put f p : peer_inv (f p) -> safe_run (putS f) p.
Proof. by split. Qed.

Lemma safe_put_bind {A} f (k : unit -> StM Peer A) p : safe_run (k tt) (f p) -> safe_run (putS f ≫= k) p.
Proof. done. Qed.

Lemma safe_draw_bind {A B} (f : RNG -> A * RNG) (k : A -> StM Peer B) p :
  peer_inv p -> (forall a r, peer_inv (set_rng r p) -> safe_run (k a) (set_rng r p)) -> safe_run (draw f ≫= k) p.
Proof.
  intros Hp H. unfold safe_run, mbind, StM_bind, draw. destruct (f (rng p)) as [a r].
  by apply (H a r), inv_set_rng.
Qed.

Lemma no_refs hp m : header_refs m = [] -> tx_refs m = [] -> block_refs m = [] -> refs_ok hp m.
Proof. intros E1 E2 E3. unfold refs_ok. rewrite E1, E2, E3. split_and!; intros x Hx; by apply elem_of_nil in Hx. Qed.

Lemma safe_SendTransactions l p :
  op_ok (heap p) (OpSendTransactions l) -> peer_inv p -> safe_run (SendTransactions pop_choice l) p.
Proof.
  intros [Hr Hl] Hp. unfold safe_run, SendTransactions, mbind, StM_bind, askS.
  destruct (deref_all_ok _ _ Hr) as [ts E]. rewrite E. cbn [putS].
  apply safe_record_and_send; [by split_and!; intros x Hx; [apply elem_of_nil in Hx|apply Hr|apply elem_of_nil in Hx]|].
  apply inv_markTransactions; [|done]. rewrite length_fmap, (deref_all_length _ _ _ E). done.
Qed.

Lemma safe_SendNewBlock b t p :
  is_Some (blocks (heap p) !! b) -> peer_inv p -> safe_run (SendNewBlock pop_choice b t) p.
Proof.
  intros [blk Hb] Hp. unfold safe_run, SendNewBlock, mbind, StM_bind, askS. rewrite Hb. cbn [putS deref].
  apply safe_record_and_send; [|by apply inv_markBlock].
  split_and!; intros x Hx; [by apply elem_of_nil in Hx..|]. apply list_elem_of_singleton in Hx as ->. by exists blk.
Qed.

(** Queueing a block: only if there is room. *)
Lemma inv_queue_block x p :
  (length (queuedBlocks p) < maxQueuedBlocks)%nat -> peer_inv p ->
  peer_inv (set_queues (queuedBlocks p ++ [x]) (queuedBlockAnns p) (txBroadcast p) (txAnnounce p) p).
Proof. intros Hq [? ? ? ? ?]. split; try done. cbn. rewrite length_app. cbn. lia. Qed.

Lemma inv_queue_ann x p :
  (length (queuedBlockAnns p) < maxQueuedBlockAnns)%nat -> peer_inv p ->
  peer_inv (set_queues (queuedBlocks p) (queuedBlockAnns p ++ [x]) (txBroadcast p) (txAnnounce p) p).
Proof. intros Hq [? ? ? ? ?]. split; try done. cbn. rewrite length_app. cbn. lia. Qed.

Lemma safe_AsyncSendNewBlock b t p :
  is_Some (blocks (heap p) !! b) -> peer_inv p -> safe_run (AsyncSendNewBlock pop_choice b t) p.
Proof.
  intros [blk Hb] Hp. unfold safe_run, AsyncSendNewBlock, mbind, StM_bind, getS, askS, putS.
  destruct (Nat.ltb_spec (length (queuedBlocks p)) maxQueuedBlocks); [|by split].
  cbn [heap set_queues]. rewrite Hb. cbn [deref]. split; [|done]. by apply inv_markBlock, inv_queue_block.
Qed.

Lemma safe_AsyncSendNewBlockHash b p :
  is_Some (blocks (heap p) !! b) -> peer_inv p -> safe_run (AsyncSendNewBlockHash pop_choice b) p.
Proof.
  intros [blk Hb] Hp. unfold safe_run, AsyncSendNewBlockHash, mbind, StM_bind, getS, askS, putS.
  destruct (Nat.ltb_spec (length (queuedBlockAnns p)) maxQueuedBlockAnns); [|by split].
  cbn [heap set_queues]. rewrite Hb. cbn [deref]. split; [|done]. by apply inv_markBlock, inv_queue_ann.
Qed.

Lemma safe_FuzzMessages times p : peer_inv p -> safe_run (FuzzMessages times) p.
Proof.
  intros [Hok ? ? ? ?]. destruct (FuzzMessages_effect times p Hok) as (q & E & [Hq _ _ _ [Eb Et] [E1 E2] _ _]).
  unfold safe_run. rewrite E. split; [|done]. split; cbn; [done|by rewrite ?Eb, ?Et, ?E1, ?E2..].
Qed.

Lemma safe_FuzzTransactions n p : peer_inv p -> safe_run (FuzzTransactions n) p.
Proof.
  revert p. induction n as [|n IH]; intros p Hp; [by split|]. cbn [FuzzTransactions]. unfold TransactionsMsgFuzzed.
  unfold safe_run, mbind, StM_bind. destruct (decide (pool TransactionsMsg p = [])) as [E|Hne].
  - rewrite fuzz_seed_empty by done. by apply IH.
  - destruct (fuzz_seed_effect TransactionsMsg p (pi_ok _ Hp) Hne) as (m & m' & r & hp & Hm & Hmut & Hfr & _ & ->).
    apply IH. destruct Hp. split; try done. by eapply peer_ok_fuzzed.
Qed.

Lemma safe_op o p : op_ok (heap p) o -> peer_inv p -> safe_run (run_op o) p.
Proof.
  intros Ho Hp.
  destruct o; cbn [run_op op_ok] in *;
    try (apply safe_put; first [by destruct Hp|by apply inv_markBlock|by apply inv_markTransaction]);
    try (apply safe_draw_bind; [done|]; intros; apply safe_record_and_send; [by apply no_refs|done]);
    try (apply safe_record_and_send; [by apply no_refs|done]).
  - by apply safe_SendTransactions.
  - apply safe_put. unfold AsyncSendTransactions. destruct terminated; [done|].
    apply inv_markTransactions; [done|]. by destruct Hp.
  - apply safe_put_bind, safe_record_and_send; [by apply no_refs|by apply inv_markTransactions].
  - apply safe_put. unfold AsyncSendPooledTransactionHashes. destruct terminated; [done|].
    apply inv_markTransactions; [done|]. by destruct Hp.
  - apply safe_put_bind, safe_record_and_send; [by apply no_refs|by apply inv_markTransactions].
  - apply safe_put_bind. destruct Ho as [Ho1 Ho2]. rewrite (proj2 (Nat.ltb_ge _ _) Ho2).
    apply safe_record_and_send; [by apply no_refs|by apply inv_markBlocks].
  - by apply safe_AsyncSendNewBlockHash.
  - by apply safe_SendNewBlock.
  - by apply safe_AsyncSendNewBlock.
  - apply safe_record_and_send; [|done].
    split_and!; intros x Hx; [by apply Ho|by apply elem_of_nil in Hx..].
  - by apply safe_FuzzMessages.
  - by apply safe_FuzzTransactions.
Qed.

(** Sequences of operations, each as its caller must make it. *)
Inductive peer_steps : Peer -> Peer -> Prop :=
| ps_refl p : peer_steps p p
| ps_step p q o : op_ok (heap p) o -> peer_steps ((run_op o p).2) q -> peer_steps p q.

(** Whatever a peer does, in any order and mixed with the fuzzers, no
    operation panics; the known blocks and transactions stay below their
    maxima, the queues within their capacity, and every seed is filed under its
    own message code and points to objects that exist. *)
Theorem peer_operations_safe p q o :
  peer_inv p -> peer_steps p q -> op_ok (heap q) o ->
  peer_inv q /\ peer_inv (run_op o q).2 /\ forall e, (run_op o q).1 <> Panic e.
Proof.
  intros Hp Hs Ho. assert (peer_inv q) as Hq.
  { clear Ho. induction Hs as [|p q o' Hop Hs IH]; [done|]. apply IH. by apply (safe_op o' p). }
  split; [done|]. by apply safe_op.
Qed.

(** ** Seeds are what was sent *)

Definition is_fuzz (o : PeerOp) : bool :=
  match o with OpFuzzMessages _ | OpFuzzTransactions _ => true | _ => false end.

(** At most one message was written, and it became the last seed of its type. *)
Definition seed_sent (p q : Peer) : Prop :=
  heap q = heap p /\
  ((wire q = wire p) \/
   exists m, wire q = wire p ++ [m] /\ Code m = Kind (packet m) /\
     pool (Code m) q = pool (Code m) p ++ [packet m] /\ sent (heap p) (Code m) (packet m) = [m]).

Lemma sent_cases hp code m :
  sent hp code m = [] \/ exists x, sent hp code m = [x] /\ Code x = code /\ packet x = m.
Proof. unfold sent. repeat case_match; eauto. Qed.

Lemma seed_sent_record p p' m :
  refs_ok (heap p) m -> heap p' = heap p -> wire p' = wire p -> seeds p' = seeds p ->
  seed_sent p (record_and_send m p').2.
Proof.
  intros Hr Eh Ew Es. rewrite <- Eh in Hr. destruct (record_and_send_eq m p' Hr) as (o & -> & _ & _). cbn.
  split; [done|]. rewrite Eh in *. destruct (sent_cases (heap p) (Kind m) m) as [E|(x & E & Ec & Ep)].
  - left. by rewrite E, app_nil_r.
  - right. exists x. rewrite Ec, Ep, E, Ew. split_and!; try done.
    change (pool (Kind m) (record_seed m p') = pool (Kind m) p ++ [m]).
    rewrite pool_record_seed, bool_decide_true by done. unfold pool. by rewrite Es.
Qed.

Lemma seed_sent_quiet p q : heap q = heap p -> wire q = wire p -> seed_sent p q.
Proof. by split; [|left]. Qed.

Lemma seed_sent_draw {A} (f : RNG -> A * RNG) (mk : A -> Packet) p :
  (forall a, refs_ok (heap p) (mk a)) -> seed_sent p ((a ← draw f; record_and_send (mk a)) p).2.
Proof.
  intros H. unfold mbind, StM_bind, draw. destruct (f (rng p)) as [a r]. by apply seed_sent_record.
Qed.

Lemma seed_sent_op o p :
  op_ok (heap p) o -> is_fuzz o = false -> seed_sent p (run_op o p).2.
Proof.
  intros Ho Hf. destruct o; cbn [run_op op_ok is_fuzz] in *; try done;
    try by apply seed_sent_quiet.
  all: try (apply seed_sent_draw; intros; by apply no_refs).
  all: try (apply seed_sent_record; [by apply no_refs|done..]).
  - destruct Ho as [Hr _]. unfold SendTransactions, mbind, StM_bind, askS.
    destruct (deref_all_ok _ _ Hr) as [ts ->]. apply seed_sent_record; try done.
    split_and!; intros x Hx; [by apply elem_of_nil in Hx|by apply Hr|by apply elem_of_nil in Hx].
  - apply seed_sent_quiet; by destruct terminated.
  - apply seed_sent_quiet; by destruct terminated.
  - destruct Ho as [_ Ho]. unfold SendNewBlockHashes, mbind, StM_bind, putS.
    rewrite (proj2 (Nat.ltb_ge _ _) Ho). apply seed_sent_record; [by apply no_refs|done..].
  - destruct Ho as [blk Hb]. unfold AsyncSendNewBlockHash, mbind, StM_bind, getS, askS, putS.
    case_match; [|by apply seed_sent_quiet]. cbn [heap set_queues]. rewrite Hb. by apply seed_sent_quiet.
  - destruct Ho as [blk Hb]. unfold SendNewBlock, mbind, StM_bind, askS, putS. rewrite Hb.
    apply seed_sent_record; try done.
    split_and!; intros x Hx; [by apply elem_of_nil in Hx..|]. apply list_elem_of_singleton in Hx as ->. by exists blk.
  - destruct Ho as [blk Hb]. unfold AsyncSendNewBlock, mbind, StM_bind, getS, askS, putS.
    case_match; [|by apply seed_sent_quiet]. cbn [heap set_queues]. rewrite Hb. by apply seed_sent_quiet.
  - apply seed_sent_record; try done. split_and!; intros x Hx; [by apply Ho|by apply elem_of_nil in Hx..].
Qed.

(** Outside the fuzzers, an operation writes at most one message, the one the
    caller asked for with its objects as they are, appends exactly that
    message to the seeds of its type, and changes no header, transaction or
    block of the node. *)
Theorem sent_messages_become_seeds o p :
  op_ok (heap p) o -> is_fuzz o = false -> seed_sent p (run_op o p).2.
Proof. apply seed_sent_op. Qed.
End PeerOps.

(** A request for headers is dropped exactly when its origin has both a hash and a
    number; the fuzzer draws both. *)
Lemma header_request_dropped hp c id o a s r :
  sent hp c (GetBlockHeadersPacket66 id o a s r) = [] <-> on_Hash o <> zeroHash /\ on_Number o <> 0.
Proof.
  unfold sent. cbn. unfold encodable, origin_encodable, ensure. case_bool_decide; cbn; [naive_solver|].
  destruct (Z.eqb_spec (on_Number o) 0); cbn; naive_solver.
Qed.

(** ** A peer that runs *)

Module PeerExample.
Import StreamRandom.

Definition pop (s : gset Hash) : option Hash := hd_error (elements s).

Lemma pop_some s : s <> ∅ -> exists x, pop s = Some x /\ x ∈ s.
Proof.
  intros Hs. unfold pop. destruct (elements s) as [|x l] eqn:E; [by apply elements_empty_inv in E; apply leibniz_equiv in E|].
  exists x. split; [done|]. apply elem_of_elements. rewrite E. left.
Qed.

Definition h1 : Hash := [to_byte 1].
Definition hdr : Header := {|
  ParentHash := h1; UncleHash := h1; Coinbase := []; Root := h1; TxHash := h1; ReceiptHash := h1;
  Bloom := [to_byte 0]; Difficulty := Some 2; Number := Some 7; GasLimit := 8000000; GasUsed := 0; Time := 1000;
  Extra := []; MixDigest := h1; Nonce := [to_byte 0]; BaseFee := None |}.
Definition tx1 : Transaction := {|
  tx_type := LegacyTx; tx_Nonce := 1; tx_GasPrice := 9; tx_GasTipCap := 0; tx_Gas := 21000; tx_Value := 5;
  tx_Data := []; tx_hash := h1 |}.

Definition heap0 : Heap := {|
  headers := {[ 1%positive := hdr ]}; txs := {[ 1%positive := tx1 ]};
  blocks := {[ 1%positive := {| b_header := hdr; b_hash := h1; b_ReceivedAt := 0 |} ]} |}.
Definition p0 : Peer := {|
  rng := [5]; heap := heap0; head := h1; td := 0; knownBlocks := ∅; knownTxs := ∅; queuedBlocks := [];
  queuedBlockAnns := []; txBroadcast := []; txAnnounce := []; seeds := ∅; wire := []; fuzzcount := 0 |}.

(** After answering a request for headers. *)
Definition p1 : Peer := (run_op pop (OpReplyBlockHeaders 7 [1%positive]) p0).2.

Lemma p0_inv : peer_inv p0.
Proof. split; try done; [|by cbn; lia..]. intros c m Hm. by apply elem_of_nil in Hm. Qed.

Lemma headers_exist : op_ok (heap p0) (OpReplyBlockHeaders 7 [1%positive]).
Proof. intros x Hx. apply list_elem_of_singleton in Hx as ->. by exists hdr. Qed.

Lemma p1_ok : peer_ok p1.
Proof. apply (safe_op pop pop_some); [apply headers_exist|apply p0_inv]. Qed.

(** Header seeds are the node's own objects: after a peer answered a request for
    headers with a header of its chain, one pass of the fuzzer overwrites the
    gas limit of that header in the node itself, and the message it sends
    holds the overwritten header. *)
Theorem fuzzing_overwrites_node_header :
  (GasLimit <$> headers (heap p1) !! 1%positive) = Some 8000000 /\
  (GasLimit <$> headers (heap (fuzz_pass 3 p1).2) !! 1%positive) = Some 3 /\
  (Some <$> (m_headers <$> wire (fuzz_pass 3 p1).2) !! 1%nat ≫= fun l => l !! 0%nat) =
    Some (headers (heap (fuzz_pass 3 p1).2) !! 1%positive).
Proof. split_and!; vm_compute; reflexivity. Qed.

(** At second 3 the type is 4, and the one header answer is mutated: all its
    draws are 3. *)
Lemma fuzz_pass_effect_witness :
  exists q hp, fuzz_pass 3 p1 = (Ok tt, q) /\ peer_ok q /\
    heap_frame (BlockHeadersPacket66 7 [1%positive]) (heap p1) hp /\
    wire q = wire p1 ++ sent hp BlockHeadersMsg (BlockHeadersPacket66 3 [1%positive]) /\
    pool BlockHeadersMsg q = [BlockHeadersPacket66 3 [1%positive]].
Proof.
  destruct (fuzz_pass_effect 3 p1 p1_ok) as (q & E & Hq & H). exists q.
  destruct H as (_ & _ & H). destruct (H ltac:(done) ltac:(done) ltac:(done)) as (m & Hm & H').
  injection Hm as <-. destruct H' as (_ & Hfr & Eq). eexists. split_and!; [exact E|exact Hq|exact Hfr|..].
  - by rewrite Eq.
  - by rewrite Eq.
Defined.

Lemma FuzzMessages_safe_witness : exists q, FuzzMessages [3; 4; 3] p1 = (Ok tt, q) /\ peer_ok q.
Proof. destruct (FuzzMessages_safe [3; 4; 3] p1 p1_ok) as (q & E & Hq). exists q. by split; [|apply Hq]. Defined.

Lemma one_seed_per_second_witness :
  exists q, FuzzMessages (replicate 4 3) p1 = (Ok tt, q) /\ only_seed_changed 4 0 p1 q.
Proof. exact (one_seed_per_second 3 4 p1 p1_ok). Defined.

Lemma peer_operations_safe_witness :
  peer_inv (run_op pop (OpFuzzMessages [3; 4]) p1).2 /\ forall e, (run_op pop (OpFuzzMessages [3; 4]) p1).1 <> Panic e.
Proof.
  apply (peer_operations_safe pop pop_some p0 p1 (OpFuzzMessages [3; 4]) p0_inv); [|done].
  eapply ps_step; [apply headers_exist|apply ps_refl].
Defined.

Lemma sent_messages_become_seeds_witness : seed_sent p0 p1.
Proof. apply (sent_messages_become_seeds pop (OpReplyBlockHeaders 7 [1%positive]) p0); [apply headers_exist|reflexivity]. Defined.
End PeerExample.
