(* ===== verification/TxByPrice.v ===== *)
(** * Transactions by price and nonce

    core/types/transaction.go: the queue the miner takes transactions from.  It
    keeps the next transaction of every account in a heap by the fee the miner
    earns, and the rest of each account's transactions in the order of their
    nonces.  Operations first; then the abstract queue, one list of transactions
    per account, and the proof that the heap implements it. *)

From S2P Require Import Prelude EthTypes GoHeap Randomness GethFuzzer.

(** ** Operations *)

(** A transaction and the time it was first seen. *)
Record Tx := { inner : Transaction; tx_time : Z }.

(** Only a dynamic-fee transaction has a tip cap apart from its price.
    [geth:core/types/transaction.go:295-295] Transaction.GasTipCap *)
Definition GasTipCap (tx : Tx) : Z :=
  match tx_type (inner tx) with
  | DynamicFeeTx => tx_GasTipCap (inner tx)
  | _ => tx_GasPrice (inner tx)
  end.

(** [geth:core/types/transaction.go:298-298] Transaction.GasFeeCap *)
Definition GasFeeCap (tx : Tx) : Z := tx_GasPrice (inner tx).

Definition ErrGasFeeCapTooLow : error := "fee cap less than base fee".

(** The tip, and the error next to it when it is negative.
    [geth:core/types/transaction.go] Transaction.EffectiveGasTip *)
Definition EffectiveGasTip (tx : Tx) (baseFee : option Z) : Z * option error :=
  match baseFee with
  | None => (GasTipCap tx, None)
  | Some baseFee =>
      let gasFeeCap := GasFeeCap tx in
      (Z.min (GasTipCap tx) (gasFeeCap - baseFee),
       if gasFeeCap <? baseFee then Some ErrGasFeeCapTooLow else None)
  end.

(** [geth:core/types/transaction.go] TxWithMinerFee *)
Record TxWithMinerFee := { wtx : Tx; minerFee : Z }.

(** [geth:core/types/transaction.go] NewTxWithMinerFee *)
Definition NewTxWithMinerFee (tx : Tx) (baseFee : option Z) : outcome TxWithMinerFee :=
  match EffectiveGasTip tx baseFee with
  | (_, Some e) => Err e
  | (fee, None) => mret {| wtx := tx; minerFee := fee |}
  end.

(** [geth:core/types/transaction.go] TxByPriceAndTime.Less *)
Definition Less (x y : TxWithMinerFee) : bool :=
  if minerFee x =? minerFee y then tx_time (wtx x) <? tx_time (wtx y) else minerFee y <? minerFee x.

(** [geth:core/types/transaction.go] TransactionsByPriceAndNonce *)
Record TransactionsByPriceAndNonce := {
  t_txs : gmap Address (list Tx);
  heads : list TxWithMinerFee;
  t_baseFee : option Z;
}.

(** The abstract queue: a list of transactions per account. *)
Abbreviation Queue := (gmap Address (list Tx)).

Section Queue.
(** [types.Sender] with the signer of the block, the zero address when the
    signature is invalid. *)
Context (Sender : Tx -> Address).

(** The loop over the accounts, in the order the map is iterated in.
    [geth:core/types/transaction.go:540-550] NewTransactionsByPriceAndNonce *)
Fixpoint heads_loop (entries : list (Address * list Tx)) (baseFee : option Z)
    (heads : list TxWithMinerFee) (txs : gmap Address (list Tx)) :
    outcome (list TxWithMinerFee * gmap Address (list Tx)) :=
  match entries with
  | [] => mret (heads, txs)
  | (from, accTxs) :: rest =>
      first ← index accTxs 0;
      match NewTxWithMinerFee first baseFee with
      | Ok wrapped =>
          if bool_decide (Sender first = from)
          then heads_loop rest baseFee (heads ++ [wrapped]) (<[from := drop 1 accTxs]> txs)
          else heads_loop rest baseFee heads (delete from txs)
      | _ => heads_loop rest baseFee heads (delete from txs)
      end
  end.

(** The map is given by its entries in the order of the iteration.
    [geth:core/types/transaction.go] NewTransactionsByPriceAndNonce *)
Definition NewTransactionsByPriceAndNonce (entries : list (Address * list Tx)) (baseFee : option Z) :
    outcome TransactionsByPriceAndNonce :=
  '(heads, txs) ← heads_loop entries baseFee [] (list_to_map entries);
  mret {| t_txs := txs; heads := Init Less heads; t_baseFee := baseFee |}.

(** [geth:core/types/transaction.go] TransactionsByPriceAndNonce.Peek *)
Definition Peek (t : TransactionsByPriceAndNonce) : option Tx := wtx <$> heads t !! 0%nat.

(** [geth:core/types/transaction.go] TransactionsByPriceAndNonce.Pop *)
Definition Pop (t : TransactionsByPriceAndNonce) : outcome TransactionsByPriceAndNonce :=
  '(_, hs) ← heap_Pop Less (heads t);
  mret {| t_txs := t_txs t; heads := hs; t_baseFee := t_baseFee t |}.

(** [geth:core/types/transaction.go] TransactionsByPriceAndNonce.Shift *)
Definition Shift (t : TransactionsByPriceAndNonce) : outcome TransactionsByPriceAndNonce :=
  first ← index (heads t) 0;
  let acc := Sender (wtx first) in
  match t_txs t !! acc with
  | Some (next :: rest) =>
      match NewTxWithMinerFee next (t_baseFee t) with
      | Ok wrapped =>
          mret {| t_txs := <[acc := rest]> (t_txs t);
                  heads := Fix Less (<[0%nat := wrapped]> (heads t)) 0; t_baseFee := t_baseFee t |}
      | _ => Pop t
      end
  | _ => Pop t
  end.

(** What a client does with the transaction it was shown. *)
Inductive act := AShift | APop.

Definition perform (a : act) (t : TransactionsByPriceAndNonce) : outcome TransactionsByPriceAndNonce :=
  match a with
  | AShift => Shift t
  | APop => Pop t
  end.

(** A client that looks at a transaction and then shifts or pops it, until the
    queue is empty; the transactions it was shown. *)
Fixpoint serve (acts : list act) (t : TransactionsByPriceAndNonce) :
    outcome (list Tx * TransactionsByPriceAndNonce) :=
  match acts, Peek t with
  | a :: acts, Some tx =>
      t ← perform a t;
      '(outs, t) ← serve acts t;
      mret (tx :: outs, t)
  | _, _ => mret ([], t)
  end.

(** ** The abstract queue *)

Definition fee (baseFee : option Z) (tx : Tx) : Z := (EffectiveGasTip tx baseFee).1.
Definition payable (baseFee : option Z) (tx : Tx) : bool :=
  match (EffectiveGasTip tx baseFee).2 with None => true | Some _ => false end.

(** The miner earns more with [x], or as much and saw it first. *)
Definition preferred (baseFee : option Z) (x y : Tx) : Prop :=
  fee baseFee y < fee baseFee x \/ (fee baseFee y = fee baseFee x /\ tx_time x < tx_time y).

(** The next transaction of account [a] is one no other account's next one is
    preferred to. *)
Definition best (baseFee : option Z) (q : Queue) (a : Address) (tx : Tx) : Prop :=
  (exists rest, q !! a = Some (tx :: rest)) /\
  forall b y rest, q !! b = Some (y :: rest) -> ~ preferred baseFee y tx.

(** The account goes on with its next transaction, if that one pays the base
    fee; or it is dropped. *)
Definition after (baseFee : option Z) (a : act) (acc : Address) (q : Queue) : Queue :=
  match a, q !! acc with
  | AShift, Some (_ :: next :: rest) =>
      if payable baseFee next then <[acc := next :: rest]> q else delete acc q
  | _, _ => delete acc q
  end.

(** The account's first transaction is its own and pays the base fee. *)
Definition admitted (baseFee : option Z) (e : Address * list Tx) : bool :=
  match e.2 with
  | tx :: _ => bool_decide (Sender tx = e.1) && payable baseFee tx
  | [] => false
  end.

Definition start (entries : list (Address * list Tx)) (baseFee : option Z) : Queue :=
  list_to_map (filter (fun e => admitted baseFee e = true) entries).

(** The transactions shown for a list of actions, best first. *)
Inductive served (baseFee : option Z) : Queue -> list act -> list Tx -> Queue -> Prop :=
| served_nil q : served baseFee q [] [] q
| served_empty acts : served baseFee ∅ acts [] ∅
| served_cons q a acts acc tx outs q' :
    best baseFee q acc tx -> served baseFee (after baseFee a acc q) acts outs q' ->
    served baseFee q (a :: acts) (tx :: outs) q'.

End Queue.

(** ** The heap implements the queue *)

#[export] Instance Less_StrictWeak : StrictWeak Less.
Proof.
  split; unfold Less; intros *.
  - destruct (Z.eqb_spec (minerFee x) (minerFee y)), (Z.eqb_spec (minerFee y) (minerFee x)); lia.
  - destruct (Z.eqb_spec (minerFee y) (minerFee x)), (Z.eqb_spec (minerFee z) (minerFee y)),
      (Z.eqb_spec (minerFee z) (minerFee x)); lia.
Qed.

Lemma NewTxWithMinerFee_Ok tx bf w :
  NewTxWithMinerFee tx bf = Ok w <-> payable bf tx = true /\ w = {| wtx := tx; minerFee := fee bf tx |}.
Proof.
  unfold NewTxWithMinerFee, payable, fee. destruct (EffectiveGasTip tx bf) as [f [e|]]; cbn; [naive_solver|].
  split; [by intros [= <-]|by intros [_ ->]].
Qed.

Lemma Less_preferred bf x y :
  Less {| wtx := x; minerFee := fee bf x |} {| wtx := y; minerFee := fee bf y |} = false ->
  ~ preferred bf x y.
Proof. unfold Less, preferred; cbn. destruct (Z.eqb_spec (fee bf x) (fee bf y)); lia. Qed.

Lemma Forall2_elem_of_l {A B} (P : A -> B -> Prop) l k x :
  Forall2 P l k -> x ∈ l -> exists y, y ∈ k /\ P x y.
Proof.
  intros H [i Hi]%list_elem_of_lookup. destruct (Forall2_lookup_l _ _ _ _ _ H Hi) as (y & Hy & HP).
  exists y. split; [by eapply list_elem_of_lookup_2|done].
Qed.

Lemma Forall2_elem_of_r {A B} (P : A -> B -> Prop) l k y :
  Forall2 P l k -> y ∈ k -> exists x, x ∈ l /\ P x y.
Proof. intros H%Forall2_flip. apply (Forall2_elem_of_l _ _ _ _ H). Qed.

Lemma NoDup_fst_inj {A} (l : list (Address * A)) k x y :
  NoDup l.*1 -> (k, x) ∈ l -> (k, y) ∈ l -> x = y.
Proof.
  intros Hnd Hx Hy. apply (elem_of_list_to_map_1 (M := gmap Address)) in Hx, Hy; [|done..]. congruence.
Qed.

Section Refinement.
Context (Sender : Tx -> Address).

(** The heads are a heap with one transaction per account, the first of the
    account's list in the queue; the map holds the rest. *)
Record represents (t : TransactionsByPriceAndNonce) (q : Queue) : Prop := {
  rep_heap : heap_from Less 0 (length (heads t)) (heads t);
  rep_wrapped w : w ∈ heads t -> NewTxWithMinerFee (wtx w) (t_baseFee t) = Ok w;
  rep_senders : NoDup ((fun w => Sender (wtx w)) <$> heads t);
  rep_queue w : w ∈ heads t ->
    q !! Sender (wtx w) = Some (wtx w :: default [] (t_txs t !! Sender (wtx w)));
  rep_dom a l : q !! a = Some l -> exists w, w ∈ heads t /\ Sender (wtx w) = a;
  rep_rest a l : q !! a = Some l -> Forall (fun tx => Sender tx = a) l;
}.

Lemma represents_Peek t q :
  represents t q ->
  match Peek t with
  | Some tx => best (t_baseFee t) q (Sender tx) tx
  | None => q = ∅
  end.
Proof.
  intros R. unfold Peek. destruct (heads t) as [|w hs] eqn:E; cbn.
  - apply map_empty. intros a. destruct (q !! a) as [l|] eqn:Ea; [|done].
    apply (rep_dom t q R) in Ea as (w & Hw & _). rewrite E in Hw. by apply elem_of_nil in Hw.
  - assert (w ∈ heads t) as Hw by (rewrite E; by left). split.
    { eexists. by apply (rep_queue t q R). }
    intros b y rest Hb. destruct (rep_dom t q R _ _ Hb) as (w' & Hw' & <-).
    rewrite (rep_queue t q R w' Hw') in Hb. injection Hb as <- _.
    pose proof (rep_heap t q R) as Hh. pose proof Hw' as Hin. rewrite E in Hh, Hin.
    pose proof (heap_head_best Less _ _ _ Hh Hin) as Hl.
    destruct (proj1 (NewTxWithMinerFee_Ok _ _ _) (rep_wrapped t q R w Hw)) as [_ Ew].
    destruct (proj1 (NewTxWithMinerFee_Ok _ _ _) (rep_wrapped t q R w' Hw')) as [_ Ew'].
    rewrite Ew, Ew' in Hl. by apply Less_preferred.
Qed.

(** The other accounts keep their heads when one account leaves the heap. *)
Lemma represents_Pop t q tx :
  represents t q -> Peek t = Some tx ->
  exists t', Pop t = Ok t' /\ t_baseFee t' = t_baseFee t /\ represents t' (delete (Sender tx) q).
Proof.
  intros R. unfold Peek, Pop. destruct (heads t) as [|w hs] eqn:E; [done|]. intros [= <-].
  pose proof (rep_heap t q R) as Hh. rewrite E in Hh.
  destruct (heap_Pop_spec Less w hs Hh) as (hs' & -> & Hp & Hheap).
  assert (forall x, x ∈ hs' -> x ∈ heads t) as Hin by (intros x; rewrite Hp, E; by right).
  pose proof (rep_senders t q R) as Hnd. rewrite E, fmap_cons in Hnd. apply NoDup_cons in Hnd as [Hnew Hnd].
  eexists. split; [done|]. split; [done|]. split; cbn.
  - done.
  - intros x Hx. by apply (rep_wrapped t q R), Hin.
  - by rewrite Hp.
  - intros x Hx. rewrite lookup_delete_ne; [by apply (rep_queue t q R), Hin|].
    intros Ha. apply Hnew. rewrite Ha. rewrite Hp in Hx. by apply (list_elem_of_fmap_2 (fun w => Sender (wtx w))).
  - intros a l [Ha Hl]%lookup_delete_Some. destruct (rep_dom t q R _ _ Hl) as (x & Hx & Hs).
    exists x. split; [|done]. rewrite Hp. rewrite E in Hx. apply elem_of_cons in Hx as [->|Hx]; [by subst|done].
  - intros a l [_ Hl]%lookup_delete_Some. by apply (rep_rest t q R).
Qed.

Lemma represents_Shift t q tx :
  represents t q -> Peek t = Some tx ->
  exists t', Shift Sender t = Ok t' /\ t_baseFee t' = t_baseFee t /\
    represents t' (after (t_baseFee t) AShift (Sender tx) q).
Proof.
  intros R Hpeek. pose proof (represents_Pop t q tx R Hpeek) as Hpop.
  unfold Shift, after, index. unfold Peek in Hpeek. destruct (heads t) as [|w hs] eqn:E; [done|].
  injection Hpeek as <-. assert (w ∈ heads t) as Hw by (rewrite E; by left). cbn.
  pose proof (rep_queue t q R w Hw) as Hq. rewrite Hq.
  destruct (t_txs t !! Sender (wtx w)) as [[|next rest]|] eqn:Et; cbn; try done.
  destruct (NewTxWithMinerFee next (t_baseFee t)) as [w'|e|p] eqn:Ew.
  2-3: destruct (payable (t_baseFee t) next) eqn:Ep; [|done];
    by rewrite (proj2 (NewTxWithMinerFee_Ok _ _ _) (conj Ep eq_refl)) in Ew.
  pose proof Ew as [-> Hw']%NewTxWithMinerFee_Ok.
  assert (wtx w' = next) as Hn by (by rewrite Hw').
  assert (Sender next = Sender (wtx w)) as Hs.
  { pose proof (rep_rest t q R _ _ Hq) as Hr. rewrite ?Et in Hr. cbn in Hr.
    apply Forall_cons in Hr as [_ Hr]. by apply Forall_cons in Hr as [? _]. }
  set (hs' := Fix Less (w' :: hs) 0).
  assert (hs' ≡ₚ w' :: hs) as Hp by apply Fix_root_Permutation.
  pose proof (rep_senders t q R) as Hnd. rewrite E, fmap_cons in Hnd. apply NoDup_cons in Hnd as [Hnew Hnd].
  assert (forall x, x ∈ hs -> Sender (wtx x) <> Sender (wtx w)) as Hother.
  { intros x Hx Ha. apply Hnew. rewrite <- Ha. by apply (list_elem_of_fmap_2 (fun w => Sender (wtx w))). }
  eexists. split; [done|]. split; [done|]. split; cbn.
  - fold hs'. rewrite (Permutation_length Hp). cbn [length]. pose proof (rep_heap t q R) as Hh. rewrite E in Hh.
    exact (Fix_root_heap Less (w :: hs) w' Hh).
  - intros x Hx. fold hs' in Hx. rewrite Hp in Hx. apply elem_of_cons in Hx as [->|Hx]; [by rewrite Hn|].
    apply (rep_wrapped t q R). rewrite E. by right.
  - fold hs'. rewrite Hp, fmap_cons, Hn, Hs. by constructor.
  - intros x Hx. fold hs' in Hx. rewrite Hp in Hx. apply elem_of_cons in Hx as [->|Hx].
    + rewrite Hn, Hs, !lookup_insert_eq. done.
    + rewrite !lookup_insert_ne by (symmetry; by apply Hother). apply (rep_queue t q R). rewrite E. by right.
  - intros a l Ha. fold hs'. destruct (decide (a = Sender (wtx w))) as [->|Hne].
    + exists w'. rewrite Hp, Hn. split; [by left|done].
    + rewrite lookup_insert_ne in Ha by done. destruct (rep_dom t q R _ _ Ha) as (x & Hx & Hxs).
      exists x. split; [|done]. rewrite Hp. rewrite E in Hx. apply elem_of_cons in Hx as [->|Hx]; [by subst|by right].
  - intros a l Ha. destruct (decide (a = Sender (wtx w))) as [->|Hne].
    + rewrite lookup_insert_eq in Ha. injection Ha as <-. pose proof (rep_rest t q R _ _ Hq) as Hr.
      rewrite ?Et in Hr. by apply Forall_cons in Hr as [_ Hr].
    + rewrite lookup_insert_ne in Ha by done. by apply (rep_rest t q R).
Qed.

Lemma represents_perform t q a tx :
  represents t q -> Peek t = Some tx ->
  exists t', perform Sender a t = Ok t' /\ t_baseFee t' = t_baseFee t /\
    represents t' (after (t_baseFee t) a (Sender tx) q).
Proof. destruct a; [apply represents_Shift|apply represents_Pop]. Qed.

(** Any sequence of actions goes through, and shows what the queue would. *)
Lemma represents_serve acts t q :
  represents t q ->
  exists outs t' q', serve Sender acts t = Ok (outs, t') /\ t_baseFee t' = t_baseFee t /\
    served (t_baseFee t) q acts outs q' /\ represents t' q'.
Proof.
  revert t q. induction acts as [|a acts IH]; intros t q R; cbn.
  { exists [], t, q. split_and!; try done. constructor. }
  pose proof (represents_Peek t q R) as Hp. destruct (Peek t) as [tx|] eqn:E.
  - destruct (represents_perform t q a tx R E) as (t1 & -> & Hb1 & R1).
    destruct (IH t1 _ R1) as (outs & t2 & q2 & Hs & Hb2 & Hd & R2). cbn. rewrite Hs.
    exists (tx :: outs), t2, q2. rewrite Hb1 in Hd, Hb2. split_and!; try done. by econstructor.
  - subst q. exists [], t, ∅. split_and!; try done. constructor.
Qed.

(** The head made of an admitted entry. *)
Definition head_of (baseFee : option Z) (w : TxWithMinerFee) (e : Address * list Tx) : Prop :=
  exists tx rest, e.2 = tx :: rest /\ wtx w = tx /\ NewTxWithMinerFee tx baseFee = Ok w /\ Sender tx = e.1.

Lemma admitted_head bf a tx rest :
  if admitted Sender bf (a, tx :: rest)
  then exists w, NewTxWithMinerFee tx bf = Ok w /\ wtx w = tx /\ Sender tx = a
  else forall w, NewTxWithMinerFee tx bf = Ok w -> Sender tx <> a.
Proof.
  unfold admitted. cbn. case_bool_decide as Hs; cbn; [|done]. destruct (payable bf tx) eqn:Ep.
  - eexists. split; [by apply NewTxWithMinerFee_Ok|done].
  - intros w [Hp _]%NewTxWithMinerFee_Ok. congruence.
Qed.

Lemma heads_loop_spec entries bf hs txs :
  NoDup entries.*1 -> Forall (fun e => e.2 <> []) entries ->
  let adm := filter (fun e => admitted Sender bf e = true) entries in
  exists hs' txs', heads_loop Sender entries bf hs txs = Ok (hs ++ hs', txs') /\
    Forall2 (head_of bf) hs' adm /\
    (forall e, e ∈ adm -> txs' !! e.1 = Some (drop 1 e.2)) /\
    (forall a, a ∉ entries.*1 -> txs' !! a = txs !! a).
Proof.
  revert hs txs. induction entries as [|[a l] entries IH]; intros hs txs Hnd Hne; cbn zeta.
  { exists [], txs. rewrite app_nil_r. split_and!; [done|constructor|intros e []%elem_of_nil|done]. }
  apply NoDup_cons in Hnd as [Hnew Hnd]. apply Forall_cons in Hne as [Hl Hne].
  destruct l as [|tx rest]; [done|]. cbn [heads_loop]. unfold index. cbn [lookup list_lookup mbind outcome_bind].
  pose proof (admitted_head bf a tx rest) as Ha. rewrite filter_cons.
  destruct (admitted Sender bf (a, tx :: rest)) eqn:E; cbn [decide].
  - rewrite decide_True by done. destruct Ha as (w & Hw & Ht & Hs). rewrite Hw, bool_decide_true by done.
    destruct (IH (hs ++ [w]) (<[a := drop 1 (tx :: rest)]> txs) Hnd Hne) as (hs' & txs' & -> & Hh & Hin & Hout).
    exists (w :: hs'), txs'. rewrite <- (assoc_L (++)). split_and!; [done| | |].
    + constructor; [|done]. by exists tx, rest.
    + intros e [->|He]%elem_of_cons; [|by apply Hin]. cbn [fst snd]. by rewrite Hout, lookup_insert_eq.
    + intros b Hb. cbn in Hb. apply not_elem_of_cons in Hb as [Hb Hb']. by rewrite Hout, lookup_insert_ne.
  - rewrite decide_False by congruence.
    assert (match NewTxWithMinerFee tx bf with
            | Ok wrapped =>
                if bool_decide (Sender tx = a)
                then heads_loop Sender entries bf (hs ++ [wrapped]) (<[a := drop 1 (tx :: rest)]> txs)
                else heads_loop Sender entries bf hs (delete a txs)
            | _ => heads_loop Sender entries bf hs (delete a txs)
            end = heads_loop Sender entries bf hs (delete a txs)) as ->.
    { destruct (NewTxWithMinerFee tx bf) as [w| |] eqn:Ew; [|done..]. by rewrite bool_decide_false by (by apply (Ha w)). }
    destruct (IH hs (delete a txs) Hnd Hne) as (hs' & txs' & -> & Hh & Hin & Hout).
    exists hs', txs'. split_and!; [done..|].
    intros b Hb. cbn in Hb. apply not_elem_of_cons in Hb as [Hb Hb']. by rewrite Hout, lookup_delete_ne.
Qed.

(** The entries of a map from accounts to their own transactions. *)
Definition by_account (entries : list (Address * list Tx)) : Prop :=
  NoDup entries.*1 /\
  Forall (fun e => e.2 <> [] /\ Forall (fun tx => Sender tx = e.1) e.2) entries.

Lemma NoDup_filter_fst (P : Address * list Tx -> Prop) `{!forall e, Decision (P e)} entries :
  NoDup entries.*1 -> NoDup (filter P entries).*1.
Proof. intros Hnd. by eapply sublist_NoDup, fmap_sublist, sublist_filter. Qed.

Lemma represents_New entries bf :
  by_account entries ->
  exists t, NewTransactionsByPriceAndNonce Sender entries bf = Ok t /\ t_baseFee t = bf /\
    represents t (start Sender entries bf).
Proof.
  intros [Hnd Hown]. unfold NewTransactionsByPriceAndNonce.
  destruct (heads_loop_spec entries bf [] (list_to_map entries) Hnd) as (hs & txs & -> & Hh & Hin & _).
  { eapply Forall_impl; [exact Hown|]. by intros e [? _]. }
  eexists. split; [done|]. split; [done|]. unfold start.
  set (adm := filter _ entries) in *.
  assert (NoDup adm.*1) as Hadm by (by apply NoDup_filter_fst).
  assert ((fun w => Sender (wtx w)) <$> hs = adm.*1) as Hkeys.
  { clear -Hh. induction Hh as [|w e hs adm (tx & rest & _ & Ht & _ & Hs) _ IH]; [done|].
    rewrite !fmap_cons, <- IH. by rewrite Ht, Hs. }
  assert (Init Less hs ≡ₚ hs) as Hp by apply Init_Permutation.
  assert (forall w, w ∈ Init Less hs -> exists e, e ∈ adm /\ head_of bf w e) as Hof.
  { intros w Hw. rewrite Hp in Hw. by apply (Forall2_elem_of_l _ _ _ _ Hh). }
  assert (forall a l, (list_to_map adm : Queue) !! a = Some l -> (a, l) ∈ adm) as Hel
    by (intros a l; apply elem_of_list_to_map_2).
  split; cbn [heads t_baseFee t_txs app].
  - rewrite (Permutation_length Hp). apply Init_heap, _.
  - intros w (e & _ & tx & rest & _ & Ht & Hw & _)%Hof. by rewrite Ht.
  - by rewrite Hp, Hkeys.
  - intros w ([a l] & He & tx & rest & Hl & Hw & _ & Hs)%Hof. cbn in Hl, Hs. subst l.
    pose proof (Hin _ He) as Ht. cbn in Ht. rewrite Hw, Hs, Ht. by apply elem_of_list_to_map_1.
  - intros a l Ha%Hel. destruct (Forall2_elem_of_r _ _ _ _ Hh Ha) as (w & Hw & tx & rest & _ & Ht & _ & Hs).
    exists w. rewrite Hp. split; [done|by rewrite Ht].
  - intros a l Ha%Hel. apply list_elem_of_filter in Ha as [_ Ha].
    rewrite Forall_forall in Hown. by destruct (Hown _ Ha).
Qed.

(** What the queue has left of an account. *)
Definition avail (q : Queue) (a : Address) : list Tx := default [] (q !! a).

Definition owned (q : Queue) : Prop := forall a, Forall (fun tx => Sender tx = a) (avail q a).

Lemma avail_after bf act acc q tx rest a :
  q !! acc = Some (tx :: rest) ->
  if decide (a = acc) then avail (after bf act acc q) a `prefix_of` rest
  else avail (after bf act acc q) a = avail q a.
Proof.
  intros Hr. unfold avail, after. rewrite Hr. case_decide as Ha; [subst a|];
    destruct act, rest as [|next rest]; try case_match;
    rewrite ?lookup_delete_eq, ?lookup_insert_eq, ?lookup_delete_ne, ?lookup_insert_ne by congruence;
    done || apply prefix_nil.
Qed.

(** The transactions shown of an account are the first ones of its list. *)
Lemma served_prefix bf q acts outs q' a :
  served bf q acts outs q' -> owned q -> filter (fun tx => Sender tx = a) outs `prefix_of` avail q a.
Proof.
  intros H. induction H as [q|acts|q act acts acc tx outs q' [[rest Hr] _] _ IH]; intros Hown.
  1-2: apply prefix_nil.
  assert (Forall (fun tx => Sender tx = acc) (tx :: rest)) as [Hs Hrest]%Forall_cons
    by (pose proof (Hown acc) as Ha; unfold avail in Ha; by rewrite Hr in Ha).
  assert (owned (after bf act acc q)) as Hown'.
  { intros b. pose proof (avail_after bf act acc q tx rest b Hr) as Hb. case_decide as E.
    - subst b. destruct Hb as [l Hl]. rewrite Hl in Hrest. by apply Forall_app in Hrest as [? _].
    - rewrite Hb. apply Hown. }
  pose proof (avail_after bf act acc q tx rest a Hr) as Ha. rewrite filter_cons. case_decide as E.
  - subst a. rewrite decide_True by done. unfold avail at 1. rewrite Hr. apply prefix_cons.
    etrans; [by apply IH|done].
  - rewrite decide_False by congruence. rewrite <- Ha. by apply IH.
Qed.

(** A client that has something to do for every transaction empties the queue. *)
Lemma served_length bf q acts outs q' :
  served bf q acts outs q' -> (length outs < length acts)%nat -> q' = ∅.
Proof. induction 1; cbn; [lia|done|]. intros. apply IHserved. lia. Qed.

(** C39. The transaction queue serves by price and nonce: built from the pending
    transactions of the accounts, in whatever order the map is iterated, it
    carries out any sequence of shifts and pops without a panic and shows what
    the abstract queue would: each time the next transaction of an account that
    earns the miner the most (the one seen first when they earn the same), with
    the transactions of one account in the order of its list and none left out;
    it stops early only when there is nothing left. *)
Theorem queue_serves entries bf acts :
  by_account entries ->
  exists t0 outs t q,
    NewTransactionsByPriceAndNonce Sender entries bf = Ok t0 /\
    serve Sender acts t0 = Ok (outs, t) /\
    served bf (start Sender entries bf) acts outs q /\
    (forall a l, (a, l) ∈ entries -> filter (fun tx => Sender tx = a) outs `prefix_of` l) /\
    ((length outs < length acts)%nat -> q = ∅ /\ Peek t = None).
Proof.
  intros He. destruct (represents_New entries bf He) as (t0 & Hnew & Hbf & R0).
  destruct (represents_serve acts t0 _ R0) as (outs & t & q & Hserve & Hbf' & Hserved & R).
  rewrite Hbf in Hserved. exists t0, outs, t, q. split_and!; [done..| |].
  - intros a l Hl. pose proof (served_prefix bf _ _ _ _ a Hserved) as Hp.
    assert (avail (start Sender entries bf) a `prefix_of` l) as Ha.
    { unfold avail, start. destruct (list_to_map _ !! a) as [l'|] eqn:E; [|apply prefix_nil].
      apply elem_of_list_to_map_2, list_elem_of_filter in E as [_ E]. cbn.
      destruct He as [Hnd _]. by rewrite (NoDup_fst_inj entries a l l' Hnd Hl E). }
    etrans; [apply Hp|done]. intros b. unfold avail.
    destruct (start Sender entries bf !! b) as [lb|] eqn:E; [|constructor]. by apply (rep_rest _ _ R0).
  - intros Hlt. pose proof (served_length _ _ _ _ _ Hserved Hlt) as ->. split; [done|].
    pose proof (represents_Peek t ∅ R) as Hp. destruct (Peek t) as [tx|]; [|done].
    destruct Hp as [[rest Hr] _]. by rewrite lookup_empty in Hr.
Qed.

End Refinement.

(** Two accounts whose transactions name their sender in the data. *)
Module QueueExample.

Definition alice : Address := replicate 20 Byte.x0a.
Definition bob : Address := replicate 20 Byte.x0b.
Definition sender (tx : Tx) : Address := tx_Data (inner tx).

Definition tx (from : Address) (nonce price time : Z) : Tx := {|
  inner := {| tx_type := LegacyTx; tx_Nonce := nonce; tx_GasPrice := price; tx_GasTipCap := 0; tx_Gas := 21000;
              tx_Value := 0; tx_Data := from; tx_hash := [] |};
  tx_time := time |}.

Definition pending : list (Address * list Tx) :=
  [(alice, [tx alice 0 10 1; tx alice 1 90 2]); (bob, [tx bob 7 50 5; tx bob 8 5 6])].

(** Bob pays more than Alice's next transaction, which is worth having for the
    one behind it only; Bob's last one does not pay the base fee. *)
Definition shown : outcome (list (Z * Z)) :=
  t ← NewTransactionsByPriceAndNonce sender pending (Some 6);
  r ← serve sender (replicate 9 AShift) t;
  mret (List.map (fun tx => (tx_Nonce (inner tx), tx_GasPrice (inner tx))) r.1).

Example pending_order : shown = Ok [(7, 50); (0, 10); (1, 90)].
Proof. vm_compute. reflexivity. Qed.

Lemma pending_by_account : by_account sender pending.
Proof.
  split; [apply (bool_decide_unpack _); vm_compute; done|].
  repeat constructor; done.
Qed.

Lemma queue_serves_witness :
  exists t0 outs t q,
    NewTransactionsByPriceAndNonce sender pending (Some 6) = Ok t0 /\
    serve sender (replicate 9 AShift) t0 = Ok (outs, t) /\
    served (Some 6) (start sender pending (Some 6)) (replicate 9 AShift) outs q /\
    (forall a l, (a, l) ∈ pending -> filter (fun tx => sender tx = a) outs `prefix_of` l) /\
    ((length outs < length (replicate 9 AShift))%nat -> q = ∅ /\ Peek t = None).
Proof. apply (queue_serves sender pending (Some 6) (replicate 9 AShift)). exact pending_by_account. Defined.

End QueueExample.
