(* ===== verification/Miner.v ===== *)
(** * The block producer

    miner/worker.go with the assembly of blocks in core/types/block.go and
    consensus/clique/clique.go: building a header on the head of the chain,
    filling the block with transactions and uncles, handing it to the engine as
    a sealing task, and writing the sealed block to the chain.

    Outside the model, as parameters: the state database and the execution of
    transactions ([MinerEnv], with what the worker relies on in [MinerEnvOk]),
    the trie that hashes lists ([TrieHasher]), and the chain.  The feeds of logs,
    the hooks of tests, metrics and logging are left out. *)

From S2P Require Import Prelude Rlp EthTypes CliqueSnapshot Clique Randomness GethFuzzer GoHeap TxByPrice.

(** ** Receipts and blocks *)

Record Log := { l_body : bytes; l_BlockHash : Hash }.

(** The consensus fields the worker does not look at are one byte string.
    [geth:core/types/receipt.go] Receipt *)
Record Receipt := {
  r_body : bytes;
  r_GasUsed : Z;
  r_Logs : list Log;
  r_BlockHash : Hash;
  r_BlockNumber : option Z;
  r_TransactionIndex : Z;
}.

(** A block with its body.
    [geth:core/types/block.go] Block *)
Record FullBlock := { header : Header; transactions : list Tx; uncles : list Header }.

(** ** Parameters *)

(** [TrieHasher]: a trie that is reset, updated and hashed. *)
Class TrieHasher := {
  trie : Type;
  trie_Reset : trie;
  trie_Update : trie -> bytes -> bytes -> trie;
  trie_Hash : trie -> Hash;
}.

(** The state database; [ApplyTransaction] works on the gas pool and the state,
    [SenderAt] is [types.Sender] with the signer of a block number. *)
Class MinerEnv := {
  StateDB : Type;
  IntermediateRoot : bool -> StateDB -> Hash * StateDB;
  ApplyDAOHardFork : StateDB -> StateDB;
  state_Prepare : Hash -> Z -> StateDB -> StateDB;
  ApplyTransaction : Address -> Header -> Tx -> Z * StateDB -> outcome Receipt * (Z * StateDB);
  SenderAt : option Z -> Tx -> Address;
  Protected : Tx -> bool;
  encode_transaction : Tx -> bytes;
  encode_receipt : Receipt -> bytes;
  CreateBloom : list Receipt -> bytes;
}.

(** A receipt with the position of its transaction in the block.
    [geth:miner/worker.go:625-639] worker.resultLoop *)
Definition locate (hash : Hash) (number : option Z) (i : nat) (r : Receipt) : Receipt := {|
  r_body := r_body r; r_GasUsed := r_GasUsed r;
  r_Logs := (fun l => {| l_body := l_body l; l_BlockHash := hash |}) <$> r_Logs r;
  r_BlockHash := hash; r_BlockNumber := number; r_TransactionIndex := Z.of_nat i |}.

(** A transaction that is applied takes the gas its receipt names out of the
    pool; one that fails puts no gas into it.  (The gas that was bought is
    missing after some failures.)  The encoding of a receipt leaves out its
    position and that of its logs. *)
Class MinerEnvOk (ME : MinerEnv) := {
  apply_gas : forall coinbase h tx gp s r gp' s',
    0 <= gp -> ApplyTransaction coinbase h tx (gp, s) = (Ok r, (gp', s')) ->
    0 <= r_GasUsed r /\ 0 <= gp' /\ gp' + r_GasUsed r = gp;
  fail_gas : forall coinbase h tx gp s e gp' s',
    0 <= gp -> ApplyTransaction coinbase h tx (gp, s) = (Err e, (gp', s')) -> 0 <= gp' <= gp;
  encode_consensus : forall r r',
    r_body r = r_body r' -> r_GasUsed r = r_GasUsed r' -> l_body <$> r_Logs r = l_body <$> r_Logs r' ->
    encode_receipt r = encode_receipt r';
}.

(** ** Blocks *)

(** 56e81f17..., the root of an empty trie. *)
Definition EmptyRootHash : Hash := to_byte <$>
  [0x56; 0xe8; 0x1f; 0x17; 0x1b; 0xcc; 0x55; 0xa6; 0xff; 0x83; 0x45; 0xe6; 0x92; 0xc0; 0xf8; 0x6e;
   0x5b; 0x48; 0xe0; 0x1b; 0x99; 0x6c; 0xad; 0xc0; 0x01; 0x62; 0x2f; 0xb5; 0xe3; 0x63; 0xb4; 0x21].

(** [geth:params/dao.go:28-28] DAOForkBlockExtra *)
Definition DAOForkBlockExtra : bytes := to_byte <$>
  [0x64; 0x61; 0x6f; 0x2d; 0x68; 0x61; 0x72; 0x64; 0x2d; 0x66; 0x6f; 0x72; 0x6b].

Definition DAOForkExtraRange : Z := 10.
Definition TxGas : Z := 21000.
Definition staleThreshold : Z := 7.
Definition resultQueueSize : nat := 10.
Definition miningLogAtDepth : Z := 7.

(** The indices of a list in the order their keys are inserted.
    [geth:core/types/hashing.go:96-111] DeriveSha *)
Definition derive_order (n : nat) : list nat :=
  seq 1 (n `min` 128 - 1) ++ (if (0 <? n)%nat then [0%nat] else []) ++ seq 128 (n - 128).

Section Blocks.
Context {Crypto : EthCrypto} {TH : TrieHasher}.

(** [geth:core/types/hashing.go] DeriveSha *)
Definition DeriveSha {A} (encode : A -> bytes) (l : list A) : Hash :=
  trie_Hash (fold_left (fun t i =>
    match l !! i with
    | Some x => trie_Update t (AppendUint64 [] (Z.of_nat i)) (encode x)
    | None => t
    end) (derive_order (length l)) trie_Reset).

(** A nil difficulty or number becomes zero.
    [geth:core/types/block.go] CopyHeader *)
Definition CopyHeader (h : Header) : Header := {|
  ParentHash := ParentHash h; UncleHash := UncleHash h; Coinbase := Coinbase h; Root := Root h;
  TxHash := TxHash h; ReceiptHash := ReceiptHash h; Bloom := Bloom h;
  Difficulty := Some (default 0 (Difficulty h)); Number := Some (default 0 (Number h));
  GasLimit := GasLimit h; GasUsed := GasUsed h; Time := Time h; Extra := Extra h;
  MixDigest := MixDigest h; Nonce := Nonce h; BaseFee := BaseFee h |}.

(** [geth:core/types/block.go] CalcUncleHash *)
Definition CalcUncleHash (uncles : list Header) : Hash :=
  match uncles with
  | [] => uncleHash
  | _ => rlpHash (RSlice (header_rval <$> uncles))
  end.

(** The header with the fields derived from the body. *)
Definition with_body (h : Header) (txHash receiptHash bloom uncleHash : bytes) : Header := {|
  ParentHash := ParentHash h; UncleHash := uncleHash; Coinbase := Coinbase h; Root := Root h;
  TxHash := txHash; ReceiptHash := receiptHash; Bloom := bloom;
  Difficulty := Difficulty h; Number := Number h;
  GasLimit := GasLimit h; GasUsed := GasUsed h; Time := Time h; Extra := Extra h;
  MixDigest := MixDigest h; Nonce := Nonce h; BaseFee := BaseFee h |}.

Context {ME : MinerEnv}.

(** [geth:core/types/block.go] NewBlock *)
Definition NewBlock (h : Header) (txs : list Tx) (uncles : list Header) (receipts : list Receipt) : FullBlock :=
  let h := CopyHeader h in
  let txHash := match txs with [] => EmptyRootHash | _ => DeriveSha encode_transaction txs end in
  let '(receiptHash, bloom) :=
    match receipts with
    | [] => (EmptyRootHash, Bloom h)
    | _ => (DeriveSha encode_receipt receipts, CreateBloom receipts)
    end in
  {| header := with_body h txHash receiptHash bloom (CalcUncleHash uncles);
     transactions := txs; uncles := CopyHeader <$> uncles |}.

(** [geth:core/types/block.go] Block.WithSeal *)
Definition WithSeal (b : FullBlock) (h : Header) : FullBlock :=
  {| header := h; transactions := transactions b; uncles := uncles b |}.

(** [block.NumberU64()] and [block.Hash()]. *)
Definition NumberU64 (b : FullBlock) : outcome Z := number_of (header b).
Definition block_Hash (b : FullBlock) : Hash := header_hash (header b).

(** The block, and what the call leaves in the header and the state it was
    given; Clique drops the uncles.
    [geth:consensus/clique/clique.go] Clique.FinalizeAndAssemble *)
Definition FinalizeAndAssemble (config : ChainConfig) (h : Header) (s : StateDB) (txs : list Tx)
    (receipts : list Receipt) : FullBlock * Header * StateDB :=
  let '(root, s) := IntermediateRoot (IsEIP158 config (Number h)) s in
  let h := Finalize root h in
  (NewBlock h txs [] receipts, h, s).

End Blocks.

(** ** Unconfirmed blocks *)

(** What the chain says of a block mined some time ago. *)
Inductive fate := Unknown | Canonical | Uncle | Lost.

(** What the worker reads of the chain: the headers the engine reads, blocks,
    the head, the last blocks before a hash, and the states. *)
Record Blockchain `{MinerEnv} := {
  reader : ChainHeaderReader;
  GetBlockByNumber : Z -> option FullBlock;
  CurrentBlock : FullBlock;
  GetBlocksFromHash : Hash -> nat -> list FullBlock;
  StateAt : Hash -> outcome StateDB;
  HasBlock : Hash -> Z -> bool;
}.

Section Unconfirmed.
Context {Crypto : EthCrypto} {ME : MinerEnv} (chain : Blockchain) (depth : Z).

(** The ring is the list from its first element on.
    [geth:miner/unconfirmed.go:51-56] unconfirmedBlocks *)
Definition unconfirmedBlocks : Type := list (Z * Hash).

(** Whether one of the blocks from [number] on has the block as an uncle.
    [geth:miner/unconfirmed.go:110-120] unconfirmedBlocks.Shift *)
Fixpoint included (passes : nat) (number index height : Z) (hash : Hash) : bool :=
  match passes with
  | O => false
  | S passes =>
      if (number <? index +u depth) && (number <=? height) then
        match GetBlockByNumber chain number with
        | Some b => existsb (fun u => bool_decide (header_hash u = hash)) (uncles b)
        | None => false
        end || included passes (number +u 1) index height hash
      else false
  end.

(** [geth:miner/unconfirmed.go:101-126] unconfirmedBlocks.Shift *)
Definition fate_of (index height : Z) (hash : Hash) : fate :=
  match GetHeaderByNumber (reader chain) index with
  | None => Unknown
  | Some h =>
      if bool_decide (header_hash h = hash) then Canonical
      else if included (Z.to_nat depth) index index height hash then Uncle else Lost
  end.

(** The blocks dropped with what was logged of each, and the blocks left.
    [geth:miner/unconfirmed.go] unconfirmedBlocks.Shift *)
Fixpoint unconfirmed_Shift (height : Z) (set : unconfirmedBlocks) : list (Z * Hash * fate) * unconfirmedBlocks :=
  match set with
  | [] => ([], [])
  | (index, hash) :: rest =>
      if height <? index +u depth then ([], set)
      else
        let '(reports, rest) := unconfirmed_Shift height rest in
        ((index, hash, fate_of index height hash) :: reports, rest)
  end.

(** [geth:miner/unconfirmed.go] unconfirmedBlocks.Insert *)
Definition unconfirmed_Insert (index : Z) (hash : Hash) (set : unconfirmedBlocks) :
    list (Z * Hash * fate) * unconfirmedBlocks :=
  let '(reports, set) := unconfirmed_Shift index set in
  (reports, set ++ [(index, hash)]).

End Unconfirmed.

(** ** The worker *)

(** [geth:miner/worker.go] environment *)
Record environment `{MinerEnv} := {
  e_state : StateDB;
  ancestors : gset Hash;
  family : gset Hash;
  e_uncles : gset Hash;
  tcount : Z;
  gasPool : option Z;
  e_header : Header;
  e_txs : list Tx;
  e_receipts : list Receipt;
}.

(** The time of creation is only logged.
    [geth:miner/worker.go] task *)
Record task `{MinerEnv} := { t_receipts : list Receipt; t_state : StateDB; t_block : FullBlock }.

(** The adjustment of the resubmission interval: up, with the gas used of a
    limit, or down.
    [geth:miner/worker.go] intervalAdjust *)
Inductive intervalAdjust := AdjustUp (used limit : Z) | AdjustDown.

Definition commitInterruptNone : Z := 0.
Definition commitInterruptNewHead : Z := 1.
Definition commitInterruptResubmit : Z := 2.

(** The engine is Clique; [w_tasks] and [w_adjusts] are what was sent to the
    channels [taskCh] and [resubmitAdjustCh].
    [geth:miner/worker.go] worker *)
Record worker `{CliqueEnv} `{MinerEnv} := {
  w_config : ChainConfig;
  engine : Clique;
  GasCeil : Z;
  w_coinbase : Address;
  w_extra : bytes;
  w_running : bool;
  w_noempty : bool;
  w_newTxs : Z;
  current : option environment;
  localUncles : gmap Hash FullBlock;
  remoteUncles : gmap Hash FullBlock;
  unconfirmed : list (Z * Hash);
  snapshotBlock : option FullBlock;
  snapshotReceipts : list Receipt;
  snapshotState : option StateDB;
  w_tasks : list task;
  w_adjusts : list intervalAdjust;
}.

(** Choices of the run time during one call: the order maps and sets are
    iterated in, and the draw of [Prepare]. *)
Record Choices := {
  iter : forall {A}, gmap Hash A -> list (Hash * A);
  iter_set : gset Hash -> list Hash;
  pick : nat;
}.

Section Worker.
Context {Crypto : EthCrypto} {TH : TrieHasher} {Env : CliqueEnv} {ME : MinerEnv}.

Definition set_e_state x0 (e : environment) : environment := {|
  e_state := x0; ancestors := ancestors e; family := family e; e_uncles := e_uncles e; tcount :=
  tcount e; gasPool := gasPool e; e_header := e_header e; e_txs := e_txs e; e_receipts := e_receipts e |}.
Definition set_e_uncles x0 (e : environment) : environment := {|
  e_state := e_state e; ancestors := ancestors e; family := family e; e_uncles := x0; tcount := tcount
  e; gasPool := gasPool e; e_header := e_header e; e_txs := e_txs e; e_receipts := e_receipts e |}.
Definition set_gasPool x0 (e : environment) : environment := {|
  e_state := e_state e; ancestors := ancestors e; family := family e; e_uncles := e_uncles e; tcount
  := tcount e; gasPool := x0; e_header := e_header e; e_txs := e_txs e; e_receipts := e_receipts e |}.
Definition set_e_header x0 (e : environment) : environment := {|
  e_state := e_state e; ancestors := ancestors e; family := family e; e_uncles := e_uncles e; tcount
  := tcount e; gasPool := gasPool e; e_header := x0; e_txs := e_txs e; e_receipts := e_receipts e |}.
Definition set_tcount x0 (e : environment) : environment := {|
  e_state := e_state e; ancestors := ancestors e; family := family e; e_uncles := e_uncles e; tcount
  := x0; gasPool := gasPool e; e_header := e_header e; e_txs := e_txs e; e_receipts := e_receipts e |}.
Definition set_engine x0 (w : worker) : worker := {|
  w_config := w_config w; engine := x0; GasCeil := GasCeil w; w_coinbase := w_coinbase w; w_extra :=
  w_extra w; w_running := w_running w; w_noempty := w_noempty w; w_newTxs := w_newTxs w; current :=
  current w; localUncles := localUncles w; remoteUncles := remoteUncles w; unconfirmed := unconfirmed
  w; snapshotBlock := snapshotBlock w; snapshotReceipts := snapshotReceipts w; snapshotState :=
  snapshotState w; w_tasks := w_tasks w; w_adjusts := w_adjusts w |}.
Definition set_current x0 (w : worker) : worker := {|
  w_config := w_config w; engine := engine w; GasCeil := GasCeil w; w_coinbase := w_coinbase w;
  w_extra := w_extra w; w_running := w_running w; w_noempty := w_noempty w; w_newTxs := w_newTxs w;
  current := x0; localUncles := localUncles w; remoteUncles := remoteUncles w; unconfirmed :=
  unconfirmed w; snapshotBlock := snapshotBlock w; snapshotReceipts := snapshotReceipts w;
  snapshotState := snapshotState w; w_tasks := w_tasks w; w_adjusts := w_adjusts w |}.
Definition set_side x0 x1 (w : worker) : worker := {|
  w_config := w_config w; engine := engine w; GasCeil := GasCeil w; w_coinbase := w_coinbase w;
  w_extra := w_extra w; w_running := w_running w; w_noempty := w_noempty w; w_newTxs := w_newTxs w;
  current := current w; localUncles := x0; remoteUncles := x1; unconfirmed := unconfirmed w;
  snapshotBlock := snapshotBlock w; snapshotReceipts := snapshotReceipts w; snapshotState :=
  snapshotState w; w_tasks := w_tasks w; w_adjusts := w_adjusts w |}.
Definition set_unconfirmed x0 (w : worker) : worker := {|
  w_config := w_config w; engine := engine w; GasCeil := GasCeil w; w_coinbase := w_coinbase w;
  w_extra := w_extra w; w_running := w_running w; w_noempty := w_noempty w; w_newTxs := w_newTxs w;
  current := current w; localUncles := localUncles w; remoteUncles := remoteUncles w; unconfirmed :=
  x0; snapshotBlock := snapshotBlock w; snapshotReceipts := snapshotReceipts w; snapshotState :=
  snapshotState w; w_tasks := w_tasks w; w_adjusts := w_adjusts w |}.
Definition set_snapshot x0 x1 x2 (w : worker) : worker := {|
  w_config := w_config w; engine := engine w; GasCeil := GasCeil w; w_coinbase := w_coinbase w;
  w_extra := w_extra w; w_running := w_running w; w_noempty := w_noempty w; w_newTxs := w_newTxs w;
  current := current w; localUncles := localUncles w; remoteUncles := remoteUncles w; unconfirmed :=
  unconfirmed w; snapshotBlock := x0; snapshotReceipts := x1; snapshotState := x2; w_tasks := w_tasks
  w; w_adjusts := w_adjusts w |}.
Definition set_tasks x0 (w : worker) : worker := {|
  w_config := w_config w; engine := engine w; GasCeil := GasCeil w; w_coinbase := w_coinbase w;
  w_extra := w_extra w; w_running := w_running w; w_noempty := w_noempty w; w_newTxs := w_newTxs w;
  current := current w; localUncles := localUncles w; remoteUncles := remoteUncles w; unconfirmed :=
  unconfirmed w; snapshotBlock := snapshotBlock w; snapshotReceipts := snapshotReceipts w;
  snapshotState := snapshotState w; w_tasks := x0; w_adjusts := w_adjusts w |}.
Definition set_adjusts x0 (w : worker) : worker := {|
  w_config := w_config w; engine := engine w; GasCeil := GasCeil w; w_coinbase := w_coinbase w;
  w_extra := w_extra w; w_running := w_running w; w_noempty := w_noempty w; w_newTxs := w_newTxs w;
  current := current w; localUncles := localUncles w; remoteUncles := remoteUncles w; unconfirmed :=
  unconfirmed w; snapshotBlock := snapshotBlock w; snapshotReceipts := snapshotReceipts w;
  snapshotState := snapshotState w; w_tasks := w_tasks w; w_adjusts := x0 |}.
Definition set_newTxs x0 (w : worker) : worker := {|
  w_config := w_config w; engine := engine w; GasCeil := GasCeil w; w_coinbase := w_coinbase w;
  w_extra := w_extra w; w_running := w_running w; w_noempty := w_noempty w; w_newTxs := x0; current :=
  current w; localUncles := localUncles w; remoteUncles := remoteUncles w; unconfirmed := unconfirmed
  w; snapshotBlock := snapshotBlock w; snapshotReceipts := snapshotReceipts w; snapshotState :=
  snapshotState w; w_tasks := w_tasks w; w_adjusts := w_adjusts w |}.
Definition set_running x0 (w : worker) : worker := {|
  w_config := w_config w; engine := engine w; GasCeil := GasCeil w; w_coinbase := w_coinbase w;
  w_extra := w_extra w; w_running := x0; w_noempty := w_noempty w; w_newTxs := w_newTxs w; current :=
  current w; localUncles := localUncles w; remoteUncles := remoteUncles w; unconfirmed := unconfirmed
  w; snapshotBlock := snapshotBlock w; snapshotReceipts := snapshotReceipts w; snapshotState :=
  snapshotState w; w_tasks := w_tasks w; w_adjusts := w_adjusts w |}.
Definition set_settings x0 x1 x2 x3 (w : worker) : worker := {|
  w_config := w_config w; engine := engine w; GasCeil := x0; w_coinbase := x1; w_extra := x2;
  w_running := w_running w; w_noempty := x3; w_newTxs := w_newTxs w; current := current w; localUncles
  := localUncles w; remoteUncles := remoteUncles w; unconfirmed := unconfirmed w; snapshotBlock :=
  snapshotBlock w; snapshotReceipts := snapshotReceipts w; snapshotState := snapshotState w; w_tasks
  := w_tasks w; w_adjusts := w_adjusts w |}.

(** A call of the engine. *)
Definition engine_do {A} (m : StM Clique A) : StM worker A := fun w =>
  let '(r, c) := m (engine w) in (r, set_engine c w).

(** A change of the current environment, which the callers have checked. *)
Definition env_do {A} (f : environment -> outcome A * environment) : StM worker A := fun w =>
  match current w with
  | Some e => let '(r, e) := f e in (r, set_current (Some e) w)
  | None => (Panic "invalid memory address or nil pointer dereference", w)
  end.

Definition with_env {A} (f : environment -> outcome A) : StM worker A := env_do (fun e => (f e, e)).

(** *** Settings *)

(** [geth:miner/worker.go] worker.setEtherbase *)
Definition setEtherbase (addr : Address) (w : worker) : worker :=
  set_settings (GasCeil w) addr (w_extra w) (w_noempty w) w.
(** [geth:miner/worker.go] worker.setGasCeil *)
Definition setGasCeil (ceil : Z) (w : worker) : worker :=
  set_settings ceil (w_coinbase w) (w_extra w) (w_noempty w) w.
(** [geth:miner/worker.go] worker.setExtra *)
Definition setExtra (extra : bytes) (w : worker) : worker :=
  set_settings (GasCeil w) (w_coinbase w) extra (w_noempty w) w.
(** [geth:miner/worker.go] worker.disablePreseal *)
Definition disablePreseal (w : worker) : worker :=
  set_settings (GasCeil w) (w_coinbase w) (w_extra w) true w.
(** [geth:miner/worker.go] worker.enablePreseal *)
Definition enablePreseal (w : worker) : worker :=
  set_settings (GasCeil w) (w_coinbase w) (w_extra w) false w.
(** The signal on [startCh] starts a call of [commitNewWork].
    [geth:miner/worker.go] worker.start *)
Definition worker_start (w : worker) : worker := set_running true w.
(** [geth:miner/worker.go] worker.stop *)
Definition worker_stop (w : worker) : worker := set_running false w.

(** *** Environments and uncles *)

(** [geth:miner/worker.go] worker.makeCurrent *)
Definition makeCurrent (chain : Blockchain) (parent : FullBlock) (h : Header) : StM worker unit :=
  s ← pure (StateAt chain (Root (header parent)));
  let blocks := GetBlocksFromHash chain (block_Hash parent) 7 in
  let anc := list_to_set (block_Hash <$> blocks) in
  putS (set_current (Some {|
    e_state := s; ancestors := anc;
    family := anc ∪ list_to_set (header_hash <$> (blocks ≫= uncles));
    e_uncles := ∅; tcount := 0; gasPool := None; e_header := h; e_txs := []; e_receipts := [] |})).

(** [geth:miner/worker.go] worker.commitUncle *)
Definition commitUncle (uncle : Header) (e : environment) : outcome unit * environment :=
  let hash := header_hash uncle in
  if bool_decide (hash ∈ e_uncles e) then (Err "uncle not unique", e)
  else if bool_decide (ParentHash (e_header e) = ParentHash uncle) then (Err "uncle is sibling", e)
  else if bool_decide (ParentHash uncle ∉ ancestors e) then (Err "uncle's parent unknown", e)
  else if bool_decide (hash ∈ family e) then (Err "uncle already included", e)
  else (Ok tt, set_e_uncles ({[hash]} ∪ e_uncles e) e).

(** The headers of the uncles of the environment, in the order of the set.
    [geth:miner/worker.go:725-739] worker.updateSnapshot *)
Definition uncle_headers (ch : Choices) (w : worker) (e : environment) : list Header :=
  omap (fun hash => match localUncles w !! hash with
                    | Some b => Some (CopyHeader (header b))
                    | None => (fun b => CopyHeader (header b)) <$> remoteUncles w !! hash
                    end) (iter_set ch (e_uncles e)).

(** [geth:miner/worker.go] worker.updateSnapshot *)
Definition updateSnapshot (ch : Choices) : StM worker unit := fun w =>
  match current w with
  | None => (Panic "invalid memory address or nil pointer dereference", w)
  | Some e =>
      let b := NewBlock (e_header e) (e_txs e) (uncle_headers ch w e) (e_receipts e) in
      (Ok tt, set_snapshot (Some b) (e_receipts e) (Some (e_state e)) w)
  end.

(** *** Transactions *)

Definition ErrGasLimitReached : error := "gas limit reached".
Definition ErrNonceTooLow : error := "nonce too low".
Definition ErrNonceTooHigh : error := "nonce too high".
Definition ErrTxTypeNotSupported : error := "transaction type not supported".

(** The header after a transaction used gas. *)
Definition add_gas_used (g : Z) (h : Header) : Header := {|
  ParentHash := ParentHash h; UncleHash := UncleHash h; Coinbase := Coinbase h; Root := Root h;
  TxHash := TxHash h; ReceiptHash := ReceiptHash h; Bloom := Bloom h; Difficulty := Difficulty h;
  Number := Number h; GasLimit := GasLimit h; GasUsed := GasUsed h +u g; Time := Time h; Extra := Extra h;
  MixDigest := MixDigest h; Nonce := Nonce h; BaseFee := BaseFee h |}.

(** [applyTransaction] adds the gas of the receipt to the header's; a failed
    transaction leaves the state as it was at the snapshot, but not the pool.
    [geth:miner/worker.go] worker.commitTransaction *)
Definition commitTransaction (tx : Tx) (coinbase : Address) (e : environment) : outcome unit * environment :=
  let gp := default 0 (gasPool e) in
  match ApplyTransaction coinbase (e_header e) tx (gp, e_state e) with
  | (Ok r, (gp', s)) =>
      (Ok tt, {| e_state := s; ancestors := ancestors e; family := family e; e_uncles := e_uncles e;
                 tcount := tcount e; gasPool := Some gp';
                 e_header := add_gas_used (r_GasUsed r) (e_header e);
                 e_txs := e_txs e ++ [tx]; e_receipts := e_receipts e ++ [r] |})
  | (Err err, (gp', _)) => (Err err, set_gasPool (Some gp') e)
  | (Panic p, _) => (Panic p, e)
  end.

(** What becomes of the queue after a transaction was tried.
    [geth:miner/worker.go:827-859] worker.commitTransactions *)
Definition next_act (r : outcome unit) : act :=
  match r with
  | Err e =>
      if bool_decide (e = ErrGasLimitReached) then APop
      else if bool_decide (e = ErrNonceTooLow) then AShift
      else if bool_decide (e = ErrNonceTooHigh) then APop
      else if bool_decide (e = ErrTxTypeNotSupported) then APop
      else AShift
  | _ => AShift
  end.

(** One transaction of the loop.
    [geth:miner/worker.go:810-859] worker.commitTransactions *)
Definition try_transaction (config : ChainConfig) (tx : Tx) (coinbase : Address) (e : environment) :
    outcome act * environment :=
  if Protected tx && negb (IsEIP155 config (Number (e_header e))) then (Ok APop, e)
  else
    let e := set_e_state (state_Prepare (tx_hash (inner tx)) (tcount e) (e_state e)) e in
    match commitTransaction tx coinbase e with
    | (Ok _, e) => (Ok AShift, set_tcount (tcount e + 1) e)
    | (Err err, e) => (Ok (next_act (Err err)), e)
    | (Panic p, e) => (Panic p, e)
    end.

(** Whether the loop was interrupted, and by what. *)
Inductive ending := Finished | Interrupted (signal : Z).

(** The loop; [interrupt] gives the value the interrupt has in each pass (the
    code writes it at most once, so the reads of one pass agree from the first
    signal on).  Every pass shifts or pops the queue, so the number of queued transactions bounds the passes.
    [geth:miner/worker.go:779-860] worker.commitTransactions *)
Fixpoint transaction_loop (fuel : nat) (config : ChainConfig) (coinbase : Address) (interrupt : option (nat -> Z))
    (pass : nat) (q : TransactionsByPriceAndNonce) (e : environment) : outcome ending * environment :=
  match fuel with
  | O => (Panic "out of fuel", e)
  | S fuel =>
      let signal := match interrupt with Some f => f pass | None => commitInterruptNone end in
      if negb (signal =? commitInterruptNone) then (Ok (Interrupted signal), e)
      else if default 0 (gasPool e) <? TxGas then (Ok Finished, e)
      else
        match Peek q with
        | None => (Ok Finished, e)
        | Some tx =>
            match try_transaction config tx coinbase e with
            | (Ok a, e) =>
                match perform (SenderAt (Number (e_header e))) a q with
                | Ok q => transaction_loop fuel config coinbase interrupt (S pass) q e
                | Err err => (Err err, e)
                | Panic p => (Panic p, e)
                end
            | (Err err, e) => (Err err, e)
            | (Panic p, e) => (Panic p, e)
            end
        end
  end.

(** The transactions a queue still holds. *)
Definition queued (q : TransactionsByPriceAndNonce) : nat :=
  length (heads q) + map_fold (fun _ l n => length l + n)%nat 0%nat (t_txs q).

(** [true] asks the caller to discard the work.
    [geth:miner/worker.go] worker.commitTransactions *)
Definition commitTransactions (q : TransactionsByPriceAndNonce) (coinbase : Address)
    (interrupt : option (nat -> Z)) : StM worker bool := fun w =>
  match current w with
  | None => (Ok true, w)
  | Some e =>
      let limit := GasLimit (e_header e) in
      let e := match gasPool e with None => set_gasPool (Some limit) e | Some _ => e end in
      match transaction_loop (S (queued q)) (w_config w) coinbase interrupt 0 q e with
      | (Ok (Interrupted signal), e) =>
          let w := set_current (Some e) w in
          let w := if signal =? commitInterruptResubmit
                   then set_adjusts (w_adjusts w ++ [AdjustUp (limit -u default 0 (gasPool e)) limit]) w else w in
          (Ok (signal =? commitInterruptNewHead), w)
      | (Ok Finished, e) =>
          let w := set_current (Some e) w in
          let w := match interrupt with
                   | Some _ => set_adjusts (w_adjusts w ++ [AdjustDown]) w
                   | None => w
                   end in
          (Ok false, w)
      | (Err err, e) => (Err err, set_current (Some e) w)
      | (Panic p, e) => (Panic p, set_current (Some e) w)
      end
  end.

(** *** Sealing tasks *)

(** The code copies the receipts and the state, so that later changes do not
    reach the task; [Finalize] does change the current header.
    [geth:miner/worker.go] worker.commit *)
Definition commit (ch : Choices) (chain : Blockchain) (update : bool) : StM worker unit := fun w =>
  match current w with
  | None => (Panic "invalid memory address or nil pointer dereference", w)
  | Some e =>
      let '(b, h, s) := FinalizeAndAssemble (Config (reader chain)) (e_header e) (e_state e) (e_txs e) (e_receipts e) in
      let w := set_current (Some (set_e_header h e)) w in
      (number ← (if w_running w then
                   number ← pure (NumberU64 b);
                   putS (fun w => set_unconfirmed
                           (unconfirmed_Shift chain miningLogAtDepth (number -u 1) (unconfirmed w)).2
                           (set_tasks (w_tasks w ++ [{| t_receipts := e_receipts e; t_state := s; t_block := b |}]) w))
                 else mret tt);
       if update then updateSnapshot ch else mret tt) w
  end.

(** The base fee and the gas limit of the block with the given number.
    [geth:miner/worker.go:900-911] worker.commitNewWork *)
Definition new_limits (config : ChainConfig) (ceil : Z) (p : Header) (number : option Z) : outcome (option Z * Z) :=
  let limit := CalcGasLimit (GasLimit p) ceil in
  if IsLondon config number then
    fee ← CalcBaseFee config (CopyHeader p);
    mret (Some fee, if IsLondon config (Number p) then limit
                    else CalcGasLimit (u64 (GasLimit p * ElasticityMultiplier)) ceil)
  else mret (None, limit).

(** [geth:miner/worker.go:891-911] worker.commitNewWork *)
Definition new_header (config : ChainConfig) (ceil : Z) (extra : bytes) (timestamp : Z) (parent : FullBlock) :
    outcome Header :=
  let p := header parent in
  let timestamp := if u64 timestamp <=? Time p then i64 (Time p +u 1) else timestamp in
  num ← deref (Number p);
  limits ← new_limits config ceil p (Some (num + 1));
  mret {|
    ParentHash := block_Hash parent; UncleHash := zeroHash; Coinbase := zeroAddress; Root := zeroHash;
    TxHash := zeroHash; ReceiptHash := zeroHash; Bloom := replicate 256 Byte.x00; Difficulty := None;
    Number := Some (num + 1); GasLimit := limits.2; GasUsed := 0; Time := u64 timestamp; Extra := extra;
    MixDigest := zeroHash; Nonce := replicate 8 Byte.x00; BaseFee := limits.1 |}.

Definition set_coinbase (a : Address) (h : Header) : Header := {|
  ParentHash := ParentHash h; UncleHash := UncleHash h; Coinbase := a; Root := Root h;
  TxHash := TxHash h; ReceiptHash := ReceiptHash h; Bloom := Bloom h; Difficulty := Difficulty h;
  Number := Number h; GasLimit := GasLimit h; GasUsed := GasUsed h; Time := Time h; Extra := Extra h;
  MixDigest := MixDigest h; Nonce := Nonce h; BaseFee := BaseFee h |}.

(** [geth:miner/worker.go:924-936] worker.commitNewWork *)
Definition dao_extra (config : ChainConfig) (h : Header) : outcome Header :=
  match DAOForkBlock config with
  | None => mret h
  | Some dao =>
      number ← deref (Number h);
      if (dao <=? number) && (number <? dao + DAOForkExtraRange) then
        if DAOForkSupport config then mret (set_extra DAOForkBlockExtra h)
        else if bool_decide (Extra h = DAOForkBlockExtra) then mret (set_extra [] h) else mret h
      else mret h
  end.

(** Uncles at most seven blocks old are kept.
    [geth:miner/worker.go:951-956] worker.commitNewWork *)
Fixpoint drop_stale (number : Z) (blocks : list (Hash * FullBlock)) (m : gmap Hash FullBlock) :
    outcome (gmap Hash FullBlock) :=
  match blocks with
  | [] => mret m
  | (hash, b) :: rest =>
      n ← NumberU64 b;
      drop_stale number rest (if n +u staleThreshold <=? number then delete hash m else m)
  end.

(** Commits uncles until there are two; the number of those there are.
    [geth:miner/worker.go:957-968] worker.commitNewWork *)
Fixpoint commit_uncles (n : nat) (blocks : list (Hash * FullBlock)) (e : environment) : nat * environment :=
  match blocks with
  | [] => (n, e)
  | (_, b) :: rest =>
      if (n =? 2)%nat then (n, e)
      else
        match commitUncle (CopyHeader (header b)) e with
        | (Ok _, e) => commit_uncles (S n) rest e
        | (_, e) => commit_uncles n rest e
        end
  end.

(** [geth:miner/worker.go:948-971] worker.commitNewWork *)
Definition accumulate_uncles (ch : Choices) : StM worker unit :=
  number ← with_env (fun e => number_of (e_header e));
  locals ← askS (fun w => drop_stale number (iter ch (localUncles w)) (localUncles w));
  _ ← putS (fun w => set_side locals (remoteUncles w) w);
  n ← env_do (fun e => let '(n, e) := commit_uncles 0 (iter ch locals) e in (Ok n, e));
  remotes ← askS (fun w => drop_stale number (iter ch (remoteUncles w)) (remoteUncles w));
  _ ← putS (fun w => set_side (localUncles w) remotes w);
  env_do (fun e => let '(_, e) := commit_uncles n (iter ch remotes) e in (Ok tt, e)).

(** The transactions of the pool, by account. *)
Abbreviation Pool := (gmap Address (list Tx)).

(** The accounts that are local, and the others.
    [geth:miner/worker.go:992-999] worker.commitNewWork *)
Definition split_locals (locals : list Address) (pending : Pool) : Pool * Pool :=
  fold_left (fun '(l, r) account =>
    match r !! account with
    | Some (tx :: txs) => (<[account := tx :: txs]> l, delete account r)
    | _ => (l, r)
    end) locals (∅, pending).

(** Fills the block from a pool of transactions, if there are any.
    [geth:miner/worker.go:1000-1011] worker.commitNewWork *)
Definition fill_from (ch : Choices) (txs : Pool) (interrupt : option (nat -> Z)) : StM worker bool :=
  if bool_decide (txs = ∅) then mret false
  else
    h ← with_env (fun e => Ok (e_header e));
    q ← pure (NewTransactionsByPriceAndNonce (SenderAt (Number h)) (iter ch txs) (BaseFee h));
    coinbase ← getS w_coinbase;
    commitTransactions q coinbase interrupt.

(** The header of the new block and the environment to fill it in; [now] is the
    clock [Prepare] reads.
    [geth:miner/worker.go:886-947] worker.commitNewWork *)
Definition begin_work (ch : Choices) (now : Z) (chain : Blockchain) (timestamp : Z) : StM worker unit :=
  let parent := CurrentBlock chain in
  config ← getS w_config;
  ceil ← getS GasCeil;
  extra ← getS w_extra;
  h ← pure (new_header config ceil extra timestamp parent);
  running ← getS w_running;
  coinbase ← getS w_coinbase;
  h ← pure (if (running : bool) then
              _ ← ensure (negb (bool_decide (coinbase = zeroAddress))) "Refusing to mine without etherbase";
              mret (set_coinbase coinbase h)
            else mret h);
  h ← engine_do (Prepare now (pick ch) (reader chain) h);
  h ← pure (dao_extra config h);
  _ ← makeCurrent chain parent h;
  env_do (fun e =>
    (Ok tt, if DAOForkSupport config && bool_decide (DAOForkBlock config <> None) &&
               bool_decide (DAOForkBlock config = Number h)
            then set_e_state (ApplyDAOHardFork (e_state e)) e else e)).

(** The sealing tasks: an empty block in advance, and the full block.
    [geth:miner/worker.go:948-1013] worker.commitNewWork *)
Definition fill_block (ch : Choices) (chain : Blockchain) (pending : outcome Pool) (locals : list Address)
    (interrupt : option (bool -> nat -> Z)) (noempty : bool) : StM worker unit :=
  _ ← accumulate_uncles ch;
  w_empty ← getS w_noempty;
  _ ← (if negb noempty && negb w_empty then commit ch chain false else mret tt);
  pending ← pure pending;
  if bool_decide (pending = ∅) && negb w_empty then updateSnapshot ch
  else
    let '(localTxs, remoteTxs) := split_locals locals pending in
    discard ← fill_from ch localTxs ((fun f => f false) <$> interrupt);
    if (discard : bool) then mret tt
    else
      discard ← fill_from ch remoteTxs ((fun f => f true) <$> interrupt);
      if (discard : bool) then mret tt else commit ch chain true.

(** [interrupt] holds the values of the interrupt during the two transaction
    loops.  Errors of the engine and of the state are logged and end the call.
    [geth:miner/worker.go] worker.commitNewWork *)
Definition commitNewWork (ch : Choices) (now : Z) (chain : Blockchain) (pending : outcome Pool) (locals : list Address)
    (interrupt : option (bool -> nat -> Z)) (noempty : bool) (timestamp : Z) : StM worker unit :=
  _ ← begin_work ch now chain timestamp;
  fill_block ch chain pending locals interrupt noempty.

(** *** Events of the main loop *)

(** The side block goes to the local or the remote candidates for uncles; a
    block that is being mined with less than two uncles is extended.
    [geth:miner/worker.go:458-495] worker.mainLoop *)
Definition on_side_block (ch : Choices) (chain : Blockchain) (isLocalBlock : FullBlock -> bool) (b : FullBlock) :
    StM worker unit := fun w =>
  let hash := block_Hash b in
  if bool_decide (is_Some (localUncles w !! hash)) || bool_decide (is_Some (remoteUncles w !! hash)) then (Ok tt, w)
  else
    let w := if isLocalBlock b then set_side (<[hash := b]> (localUncles w)) (remoteUncles w) w
             else set_side (localUncles w) (<[hash := b]> (remoteUncles w)) w in
    match current w with
    | Some e =>
        if w_running w && (size (e_uncles e) <? 2)%nat then
          match commitUncle (CopyHeader (header b)) e with
          | (Ok _, e) => commit ch chain true (set_current (Some e) w)
          | (_, e) => (Ok tt, set_current (Some e) w)
          end
        else (Ok tt, w)
    | None => (Ok tt, w)
    end.

(** Groups transactions by sender, in the order they come in. *)
Definition by_sender (Sender : Tx -> Address) (txs : list Tx) : Pool :=
  fold_left (fun m tx => <[Sender tx := default [] (m !! Sender tx) ++ [tx]]> m) txs ∅.

(** New transactions go into the pending block of a node that does not mine;
    a Clique chain without a period starts work at once.
    [geth:miner/worker.go:497-533] worker.mainLoop *)
Definition on_transactions (ch : Choices) (now : Z) (chain : Blockchain) (pending : outcome Pool) (locals : list Address)
    (txs : list Tx) : StM worker unit := fun w =>
  let count := putS (fun w => set_newTxs (w_newTxs w + Z.of_nat (length txs)) w) in
  match current w with
  | Some e =>
      if negb (w_running w) then
        if match gasPool e with Some gp => gp <? TxGas | None => false end then (Ok tt, w)
        else
          (q ← pure (NewTransactionsByPriceAndNonce (SenderAt (Number (e_header e)))
                       (iter ch (by_sender (SenderAt (Number (e_header e))) txs)) (BaseFee (e_header e)));
           _ ← commitTransactions q (w_coinbase w) None;
           t ← with_env (fun e => Ok (tcount e));
           _ ← (if t =? tcount e then mret tt else updateSnapshot ch);
           count) w
      else
        (_ ← (if Period (c_config (engine w)) =? 0
              then commitNewWork ch now chain pending locals None true now else mret tt);
         count) w
  | None =>
      (_ ← (if Period (c_config (engine w)) =? 0
            then commitNewWork ch now chain pending locals None true now else mret tt);
       count) w
  end.

(** *** Sealing and results *)

(** The loops that seal tasks and write sealed blocks: the seal hash of the last
    task, the blocks that wait for their slot, the channel of results, the
    tasks by seal hash, and the blocks written with their receipts.
    [geth:miner/worker.go:550-562] worker.taskLoop *)
Record sealing := {
  prev : Hash;
  jobs : list FullBlock;
  resultCh : list FullBlock;
  pendingTasks : gmap Hash task;
  written : list (FullBlock * list Receipt);
}.

(** Seals a task unless it repeats the last one.  The error of [Seal] is only
    logged.  The job before is told to stop; it may have fired by then.
    [geth:miner/worker.go:565-587] worker.taskLoop *)
Definition on_task (chain : Blockchain) (t : task) (s : sealing) : StM worker sealing := fun w =>
  let h := CopyHeader (header (t_block t)) in
  match SealHash h with
  | Ok sealHash =>
      if bool_decide (sealHash = prev s) then (Ok s, w)
      else
        let s := {| prev := sealHash; jobs := jobs s; resultCh := resultCh s;
                    pendingTasks := <[sealHash := t]> (pendingTasks s); written := written s |} in
        let '(r, c) := Seal (reader chain) h (length (transactions (t_block t))) (engine w) in
        let w := set_engine c w in
        match r with
        | Ok (Some sealed) =>
            (Ok {| prev := prev s; jobs := jobs s ++ [WithSeal (t_block t) sealed]; resultCh := resultCh s;
                   pendingTasks := pendingTasks s; written := written s |}, w)
        | Panic p => (Panic p, w)
        | _ => (Ok s, w)
        end
  | Err e => (Err e, w)
  | Panic p => (Panic p, w)
  end.

(** Writes a sealed block, unless the chain has it or its task is gone; [stored]
    is what [WriteBlockWithState] returns.
    [geth:miner/worker.go:600-653] worker.resultLoop *)
Definition on_result (chain : Blockchain) (stored : bool) (b : FullBlock) (s : sealing) : StM worker sealing :=
  number ← pure (NumberU64 b);
  if HasBlock chain (block_Hash b) number then mret s
  else
    sealhash ← pure (SealHash (CopyHeader (header b)));
    match pendingTasks s !! sealhash with
    | None => mret s
    | Some t =>
        let receipts := imap (locate (block_Hash b) (Number (header b))) (t_receipts t) in
        let t := {| t_receipts := receipts; t_state := t_state t; t_block := t_block t |} in
        let s := {| prev := prev s; jobs := jobs s; resultCh := resultCh s;
                    pendingTasks := <[sealhash := t]> (pendingTasks s);
                    written := if stored then written s ++ [(b, receipts)] else written s |} in
        _ ← (if stored then
               putS (fun w => set_unconfirmed
                       (unconfirmed_Insert chain miningLogAtDepth number (block_Hash b) (unconfirmed w)).2 w)
             else mret tt);
        mret s
    end.

(** The blocks of tasks have a number. *)
Definition stale (number : Z) (t : task) : bool :=
  big_Uint64 (default 0 (Number (header (t_block t)))) +u staleThreshold <=? number.

(** [geth:miner/worker.go:376-385] worker.newWorkLoop *)
Definition clearPending (number : Z) (s : sealing) : sealing := {|
  prev := prev s; jobs := jobs s; resultCh := resultCh s;
  pendingTasks := filter (fun p => stale number p.2 = false) (pendingTasks s);
  written := written s |}.

(** The calls of the miner's interface that change the worker's settings. *)
Inductive setting :=
| SEtherbase (addr : Address) | SGasCeil (ceil : Z) | SExtra (extra : bytes) | SPreseal (enabled : bool) | SRun (on : bool).

Definition apply_setting (o : setting) (w : worker) : worker :=
  match o with
  | SEtherbase addr => setEtherbase addr w
  | SGasCeil ceil => setGasCeil ceil w
  | SExtra extra => setExtra extra w
  | SPreseal true => enablePreseal w
  | SPreseal false => disablePreseal w
  | SRun true => worker_start w
  | SRun false => worker_stop w
  end.

(** The steps of the worker's goroutines, one call at a time.  A job whose timer
    fires hands its block over if the channel has room, and a job may be stopped
    before that. *)
Inductive step : worker * sealing -> worker * sealing -> Prop :=
| step_work ch now chain pending locals intr noempty timestamp w s r w' :
    commitNewWork ch now chain pending locals intr noempty timestamp w = (r, w') ->
    (forall p, r <> Panic p) -> step (w, s) (w', s)
| step_side ch chain local b w s r w' :
    on_side_block ch chain local b w = (r, w') -> (forall p, r <> Panic p) -> step (w, s) (w', s)
| step_txs ch now chain pending locals txs w s r w' :
    on_transactions ch now chain pending locals txs w = (r, w') -> (forall p, r <> Panic p) -> step (w, s) (w', s)
| step_task chain t ts w s s' w' :
    w_tasks w = t :: ts -> on_task chain t s (set_tasks ts w) = (Ok s', w') -> step (w, s) (w', s')
| step_fire w s l b l' :
    jobs s = l ++ b :: l' ->
    step (w, s) (w, {| prev := prev s; jobs := l ++ l';
                       resultCh := if (length (resultCh s) <? resultQueueSize)%nat then resultCh s ++ [b] else resultCh s;
                       pendingTasks := pendingTasks s; written := written s |})
| step_stop w s l b l' :
    jobs s = l ++ b :: l' ->
    step (w, s) (w, {| prev := prev s; jobs := l ++ l'; resultCh := resultCh s;
                       pendingTasks := pendingTasks s; written := written s |})
| step_result chain stored b bs w s s' w' :
    resultCh s = b :: bs ->
    on_result chain stored b
      {| prev := prev s; jobs := jobs s; resultCh := bs; pendingTasks := pendingTasks s; written := written s |} w =
      (Ok s', w') ->
    step (w, s) (w', s')
| step_clear number w s : step (w, s) (w, clearPending number s)
| step_set o w s : step (w, s) (apply_setting o w, s).

(** ** The miner *)

(** The worker and the variables of [update]: whether mining was asked for,
    whether no synchronisation is going on, and whether the downloader is still
    listened to.
    [geth:miner/miner.go] Miner *)
Record Miner := {
  m_worker : worker;
  m_coinbase : Address;
  shouldStart : bool;
  canStart : bool;
  subscribed : bool;
  closed : bool;
}.

(** Events of the downloader and calls of [Start], [Stop] and [Close]. *)
Inductive miner_event :=
| StartEvent | FailedEvent | DoneEvent | EvStart (addr : Address) | EvStop | EvClose.

Definition set_miner (w : worker) (should can sub : bool) (m : Miner) : Miner := {|
  m_worker := w; m_coinbase := m_coinbase m; shouldStart := should; canStart := can; subscribed := sub;
  closed := closed m |}.

(** [geth:miner/miner.go] Miner.SetEtherbase *)
Definition SetEtherbase (addr : Address) (m : Miner) : Miner := {|
  m_worker := setEtherbase addr (m_worker m); m_coinbase := addr; shouldStart := shouldStart m;
  canStart := canStart m; subscribed := subscribed m; closed := closed m |}.

(** [geth:miner/miner.go] Miner.Mining *)
Definition Mining (m : Miner) : bool := w_running (m_worker m).

(** The end of a synchronisation, failed or done. *)
Definition resume (sub : bool) (m : Miner) : Miner :=
  if shouldStart m then
    let m := SetEtherbase (m_coinbase m) m in
    set_miner (worker_start (m_worker m)) (shouldStart m) true sub m
  else set_miner (m_worker m) (shouldStart m) true sub m.

(** One event of the loop.
    [geth:miner/miner.go] Miner.update *)
Definition update (ev : miner_event) (m : Miner) : Miner :=
  if closed m then m
  else
    match ev with
    | StartEvent =>
        if subscribed m
        then set_miner (worker_stop (m_worker m)) (shouldStart m || Mining m) false true m
        else m
    | FailedEvent => if subscribed m then resume true m else m
    | DoneEvent => if subscribed m then resume false m else m
    | EvStart addr =>
        let m := SetEtherbase addr m in
        set_miner (if canStart m then worker_start (m_worker m) else m_worker m) true (canStart m) (subscribed m) m
    | EvStop => set_miner (worker_stop (m_worker m)) false (canStart m) (subscribed m) m
    | EvClose =>
        {| m_worker := worker_stop (m_worker m); m_coinbase := m_coinbase m; shouldStart := shouldStart m;
           canStart := canStart m; subscribed := subscribed m; closed := true |}
    end.

Definition MaximumExtraDataSize : Z := 32.

(** [geth:miner/miner.go] Miner.SetExtra *)
Definition SetExtra (extra : bytes) (m : Miner) : outcome Miner :=
  if MaximumExtraDataSize <? Z.of_nat (length extra) then Err "extra exceeds max length"
  else mret (set_miner (setExtra extra (m_worker m)) (shouldStart m) (canStart m) (subscribed m) m).

(** [geth:miner/miner.go] New *)
Definition new_miner (w : worker) : Miner := {|
  m_worker := w; m_coinbase := zeroAddress; shouldStart := false; canStart := true; subscribed := true;
  closed := false |}.

End Worker.
