(* ===== verification/MinerSpec.v ===== *)
(** * Correctness of the block producer

    The transaction loop terminates and keeps within the gas limit; every
    sealing task is a block that fits on the head of the chain; and the block an
    authorized signer seals from a task passes [verifyHeader] on every node that
    agrees with it on the voting state. *)

From S2P Require Import Prelude Rlp EthTypes CliqueSnapshot CliqueRotation Clique CliqueEngine CliqueMining.
From S2P Require Import Randomness GethFuzzer GoHeap TxByPrice Miner.

(** ** The transaction loop terminates *)

Lemma length_heap_Pop {A} (less : A -> A -> bool) l x l' :
  heap_Pop less l = Ok (x, l') -> (S (length l') = length l)%nat.
Proof.
  unfold heap_Pop. destruct (length l) as [|n] eqn:E; [done|]. intros H. inv_ok.
  rewrite length_take. rewrite down_Permutation, swap_Permutation, E. lia.
Qed.

Lemma length_Fix {A} (less : A -> A -> bool) l : length (Fix less l 0) = length l.
Proof. by rewrite Fix_root_Permutation. Qed.

Section Loop.
Context {ME : MinerEnv}.

Lemma queued_Pop q q' : Pop q = Ok q' -> (queued q' < queued q)%nat.
Proof.
  unfold Pop. intros H. inv_ok. destruct v as [x hs]. injection H as <-.
  apply length_heap_Pop in E. unfold queued. cbn. lia.
Qed.

(** Moving an account's next transaction to the heads leaves one less. *)
Lemma rest_total_insert (m : gmap Address (list Tx)) a tx l :
  m !! a = Some (tx :: l) ->
  map_fold (fun _ l n => length l + n)%nat 0%nat m =
  S (map_fold (fun _ l n => length l + n)%nat 0%nat (<[a := l]> m)).
Proof.
  intros H. rewrite <- (insert_delete_id m a (tx :: l)) at 1 by done. rewrite <- (insert_delete_eq m a l).
  rewrite !map_fold_insert_L by (try apply lookup_delete_eq; intros; lia). done.
Qed.

Lemma queued_Shift Sender q q' : Shift Sender q = Ok q' -> (queued q' < queued q)%nat.
Proof.
  unfold Shift. intros H. inv_ok. destruct (t_txs q !! Sender (wtx v)) as [[|next rest]|] eqn:Et;
    [by apply queued_Pop| |by apply queued_Pop].
  destruct (NewTxWithMinerFee next (t_baseFee q)) as [w| |]; [|by apply queued_Pop..].
  injection H as <-. unfold queued. cbn [heads t_txs]. rewrite length_Fix, length_insert.
  rewrite (rest_total_insert _ _ _ _ Et). lia.
Qed.

Lemma queued_perform Sender a q q' : perform Sender a q = Ok q' -> (queued q' < queued q)%nat.
Proof. destruct a; [apply queued_Shift|apply queued_Pop]. Qed.

(** The fuel the worker starts the loop with is enough: more changes nothing. *)
Lemma transaction_loop_fuel fuel extra config coinbase intr pass q e :
  (queued q < fuel)%nat ->
  transaction_loop (fuel + extra) config coinbase intr pass q e =
  transaction_loop fuel config coinbase intr pass q e.
Proof.
  revert pass q e. induction fuel as [|fuel IH]; intros pass q e Hq; [lia|]. cbn.
  destruct (negb _); [done|]. destruct (_ <? TxGas); [done|]. destruct (Peek q) as [tx|]; [|done].
  destruct (try_transaction config tx coinbase e) as [[a| |] e']; [|done..].
  destruct (perform _ a q) as [q'| |] eqn:Ep; [|done..]. apply IH. apply queued_perform in Ep. lia.
Qed.
End Loop.

(** ** Blocks within the gas limit that fit on the chain *)

Section Mining.
Context {Crypto : EthCrypto} {TH : TrieHasher} {Env : CliqueEnv} {ME : MinerEnv} {MEOk : MinerEnvOk ME}.
Context {EnvOk : CliqueEnvOk Env} {Hits : CacheHits EnvOk}.
Context (config : CliqueConfig) (chain : Blockchain) (snap : Snapshot) (signer : Address) (n : Z).

Let parent : Header := header (CurrentBlock chain).

(** The header of the environment fits on the head of the chain, and the gas
    used and the gas in the pool stay within the limit. *)
Record env_ok (e : environment) : Prop := {
  eo_fits : forall root, fits config (reader chain) snap signer parent n (Finalize root (e_header e));
  eo_gas : 0 <= GasUsed (e_header e) /\
           match gasPool e with
           | Some gp => 0 <= gp /\ GasUsed (e_header e) + gp <= GasLimit (e_header e)
           | None => GasUsed (e_header e) = 0
           end;
}.

(** A task is a block that fits, without uncles, whose header commits to its
    transactions and receipts. *)
Record task_ok (t : task) : Prop := {
  to_fits : fits config (reader chain) snap signer parent n (header (t_block t));
  to_uncles : uncles (t_block t) = [];
  to_txs : TxHash (header (t_block t)) =
    match transactions (t_block t) with [] => EmptyRootHash | txs => DeriveSha encode_transaction txs end;
  to_receipts : ReceiptHash (header (t_block t)) =
    match t_receipts t with [] => EmptyRootHash | rs => DeriveSha encode_receipt rs end;
}.

Lemma NewBlock_fits h txs receipts :
  fits config (reader chain) snap signer parent n h -> UncleHash h = uncleHash ->
  fits config (reader chain) snap signer parent n (header (NewBlock h txs [] receipts)).
Proof.
  intros [H1 H2 H3 H4 H5 H6 (b & Hb & Hd) H8 H9] _.
  unfold NewBlock. destruct receipts; cbn [header with_body]; (split; cbn; try done;
    [by rewrite H2|exists b; by rewrite Hd|unfold gas_rules in *; cbn; by rewrite H2 in *]).
Qed.

Lemma gas_rules_used cfg p h g :
  gas_rules cfg p h -> 0 <= GasUsed h -> 0 <= g -> GasUsed h + g <= GasLimit h -> gas_rules cfg p (add_gas_used g h).
Proof.
  intros (H1 & H2 & H3) H0 Hg Hle. split; [|split]; [|done|].
  - cbn. rewrite u64_add_small; [done|lia|lia|]. assert (maxInt64 < two64) by done. lia.
  - exact H3.
Qed.

Lemma env_ok_add_gas e g :
  env_ok e -> 0 <= g -> GasUsed (e_header e) + g <= GasLimit (e_header e) ->
  (forall root, fits config (reader chain) snap signer parent n (Finalize root (add_gas_used g (e_header e)))) /\
  GasUsed (add_gas_used g (e_header e)) = GasUsed (e_header e) + g.
Proof.
  intros [Hf [H0 _]] Hg Hle. split.
  - intros root. destruct (Hf root) as [H1 H2 H3 H4 H5 H6 H7 H8 H9]. split; try done.
    exact (gas_rules_used _ _ _ g H8 H0 Hg Hle).
  - destruct (Hf zeroHash) as [_ _ _ _ _ _ _ (_ & Hl & _) _]. cbn in Hl |- *.
    assert (maxInt64 < two64) by done. rewrite u64_add_small; lia.
Qed.

(** The transaction keeps to the gas in the pool. *)
Lemma commitTransaction_ok tx coinbase e :
  env_ok e -> gasPool e <> None ->
  env_ok (commitTransaction tx coinbase e).2 /\ gasPool (commitTransaction tx coinbase e).2 <> None.
Proof.
  intros He Hgp. destruct (gasPool e) as [gp|] eqn:Eg; [|done]. pose proof (eo_gas e He) as [H0 Hg].
  rewrite Eg in Hg. destruct Hg as [Hg0 Hg]. unfold commitTransaction. rewrite Eg.
  change (default 0 (Some gp)) with gp. cbv zeta.
  destruct (ApplyTransaction coinbase (e_header e) tx (gp, e_state e)) as [[r|err|p] [gp' s]] eqn:Ea;
    cbn [snd].
  - destruct (apply_gas _ _ _ _ _ _ _ _ Hg0 Ea) as (Hr & Hgp' & Hsum). split; [|done].
    destruct (env_ok_add_gas e (r_GasUsed r) He Hr) as [Hf Hu]; [lia|].
    split; cbn; [done|]. cbn in Hu. rewrite Hu. lia.
  - pose proof (fail_gas _ _ _ _ _ _ _ _ Hg0 Ea) as Hgp'. split; [|done].
    split; cbn; [apply (eo_fits e He)|lia].
  - rewrite Eg. done.
Qed.

Lemma try_transaction_ok cfg tx coinbase e :
  env_ok e -> gasPool e <> None ->
  env_ok (try_transaction cfg tx coinbase e).2 /\ gasPool (try_transaction cfg tx coinbase e).2 <> None.
Proof.
  intros He Hgp. unfold try_transaction. case_match; [done|].
  set (e1 := set_e_state _ e). assert (env_ok e1) as He1 by (destruct He; by split).
  pose proof (commitTransaction_ok tx coinbase e1 He1 Hgp) as [Hok Hp].
  destruct (commitTransaction tx coinbase e1) as [[[]|err|p] e2]; cbn in *; [|done..].
  split; [destruct Hok; by split|done].
Qed.

Lemma transaction_loop_ok fuel cfg coinbase intr pass q e :
  env_ok e -> gasPool e <> None -> env_ok (transaction_loop fuel cfg coinbase intr pass q e).2.
Proof.
  revert pass q e. induction fuel as [|fuel IH]; intros pass q e He Hgp; cbn; [done|].
  destruct (negb _); [done|]. destruct (_ <? TxGas); [done|]. destruct (Peek q) as [tx|]; [|done].
  pose proof (try_transaction_ok cfg tx coinbase e He Hgp) as [Hok Hp].
  destruct (try_transaction cfg tx coinbase e) as [[a| |] e']; cbn in *; [|done..].
  destruct (perform _ a q); [by apply IH|done..].
Qed.

(** *** The calls of one round of work *)

(** The state of the worker during a round: the engine has the snapshot of the
    parent at hand, and the tasks of the round are sound. *)
Record round (w0 w : worker) : Prop := {
  rd_settled : settled (header_hash parent) snap (engine w);
  rd_signer : same_signer (engine w0) (engine w);
  rd_config : w_config w = w_config w0;
  rd_tasks : exists new, w_tasks w = w_tasks w0 ++ new /\ Forall task_ok new;
}.

Definition in_round (w0 w : worker) : Prop :=
  round w0 w /\ match current w with Some e => env_ok e | None => True end.

Lemma in_round_frame w0 w w' :
  in_round w0 w -> engine w' = engine w -> w_config w' = w_config w -> w_tasks w' = w_tasks w ->
  current w' = current w -> in_round w0 w'.
Proof.
  intros [[H1 H2 H3 H4] He] E1 E2 E3 E4. split; [split; [by rewrite E1|by rewrite E1|by rewrite E2|by rewrite E3]|].
  by rewrite E4.
Qed.

(** A change of the environment that keeps its header and pool in order. *)
Lemma in_round_env w0 w e :
  in_round w0 w -> env_ok e -> in_round w0 (set_current (Some e) w).
Proof. intros [[H1 H2 H3 H4] _] He. by split. Qed.

Lemma env_do_round {A} w0 (f : environment -> outcome A * environment) :
  (forall e, env_ok e -> env_ok (f e).2) -> keeps (in_round w0) (env_do f) (fun _ => True).
Proof.
  intros Hf w Hw. split; [|done]. unfold env_do. destruct (current w) as [e|] eqn:E; [|done].
  assert (env_ok e) as He by (destruct Hw as [_ Hw]; by rewrite E in Hw).
  specialize (Hf e He). destruct (f e) as [r e']. by apply in_round_env.
Qed.

Lemma put_round w0 (f : worker -> worker) :
  (forall w, engine (f w) = engine w /\ w_config (f w) = w_config w /\ w_tasks (f w) = w_tasks w /\
             current (f w) = current w) ->
  keeps (in_round w0) (putS f) (fun _ => True).
Proof.
  intros Hf w Hw. split; [|done]. destruct (Hf w) as (E1 & E2 & E3 & E4). by apply (in_round_frame w0 w).
Qed.

Lemma updateSnapshot_round w0 ch : keeps (in_round w0) (updateSnapshot ch) (fun _ => True).
Proof.
  intros w Hw. split; [|done]. unfold updateSnapshot. case_match; [|done]. by apply (in_round_frame w0 w).
Qed.

Lemma commitUncle_env u e : env_ok e -> env_ok (commitUncle u e).2.
Proof. intros He. unfold commitUncle. do 4 (case_bool_decide; [done|]). destruct He. by split. Qed.

Lemma commit_uncles_env k bs e : env_ok e -> env_ok (commit_uncles k bs e).2.
Proof.
  revert k e. induction bs as [|[h b] bs IH]; intros k e He; cbn; [done|]. case_match; [done|].
  pose proof (commitUncle_env (CopyHeader (header b)) e He) as H'.
  destruct (commitUncle (CopyHeader (header b)) e) as [[| |] e']; by apply IH.
Qed.

Lemma accumulate_uncles_round w0 ch : keeps (in_round w0) (accumulate_uncles ch) (fun _ => True).
Proof.
  unfold accumulate_uncles.
  eapply (keeps_bind _ _ _ (fun _ => True)); [by apply env_do_round|]. intros k _.
  eapply (keeps_bind _ _ _ (fun _ => True)); [by apply keeps_ask|]. intros ls _.
  eapply (keeps_bind _ _ _ (fun _ => True)); [by apply put_round|]. intros _ _.
  eapply (keeps_bind _ _ _ (fun _ => True)).
  { apply env_do_round. intros e He. pose proof (commit_uncles_env 0 (iter ch ls) e He). by case_match. }
  intros m _. eapply (keeps_bind _ _ _ (fun _ => True)); [by apply keeps_ask|]. intros rs _.
  eapply (keeps_bind _ _ _ (fun _ => True)); [by apply put_round|]. intros _ _.
  apply env_do_round. intros e He. pose proof (commit_uncles_env m (iter ch rs) e He). by case_match.
Qed.

Lemma commitTransactions_round w0 q coinbase intr :
  keeps (in_round w0) (commitTransactions q coinbase intr) (fun _ => True).
Proof.
  intros w Hw. split; [|done]. unfold commitTransactions. destruct (current w) as [e|] eqn:E; [|done].
  assert (env_ok e) as He by (destruct Hw as [_ Hw]; by rewrite E in Hw).
  set (e1 := match gasPool e with None => _ | Some _ => _ end).
  assert (env_ok e1 /\ gasPool e1 <> None) as [He1 Hg1].
  { unfold e1. destruct (gasPool e) as [gp|] eqn:Eg; [by rewrite Eg|]. split; [|done].
    destruct He as [Hf Hg]. rewrite Eg in Hg. split; [done|]. cbn.
    destruct (Hf zeroHash) as [_ _ _ _ _ _ _ (Hu & _ & _) _]. cbn in Hu. lia. }
  pose proof (transaction_loop_ok (S (queued q)) (w_config w) coinbase intr 0 q e1 He1 Hg1) as Hl.
  destruct (transaction_loop _ _ _ _ _ _ _) as [[[|sig]| |] e2]; cbn [snd] in Hl |- *.
  3-4: by apply in_round_env.
  all: apply (in_round_frame w0 (set_current (Some e2) w)); [by apply in_round_env|..]; by repeat case_match.
Qed.

Lemma fill_from_round w0 ch txs intr : keeps (in_round w0) (fill_from ch txs intr) (fun _ => True).
Proof.
  unfold fill_from. case_match; [by apply keeps_ret|].
  eapply (keeps_bind _ _ _ (fun _ => True)); [by apply env_do_round|]. intros h _.
  eapply (keeps_bind _ _ _ (fun _ => True)); [by apply keeps_pure|]. intros q _.
  eapply (keeps_bind _ _ _ (fun _ => True)); [by apply keeps_get|]. intros a _.
  apply commitTransactions_round.
Qed.

(** The task is sound, and the header stays in order for the next one. *)
Lemma commit_round w0 ch update : keeps (in_round w0) (commit ch chain update) (fun _ => True).
Proof.
  intros w Hw. split; [|done]. unfold commit. destruct (current w) as [e|] eqn:E; [|done].
  assert (env_ok e) as He by (destruct Hw as [_ Hw]; by rewrite E in Hw).
  unfold FinalizeAndAssemble. destruct (IntermediateRoot _ (e_state e)) as [root s].
  set (h := Finalize root (e_header e)). set (b := NewBlock h (e_txs e) [] (e_receipts e)).
  set (t := {| t_receipts := e_receipts e; t_state := s; t_block := b |}).
  assert (task_ok t) as Ht.
  { pose proof (NewBlock_fits h (e_txs e) (e_receipts e) (eo_fits e He root) eq_refl) as Hf.
    split; [exact Hf|..]; unfold t, b, NewBlock; cbn; by destruct (e_receipts e), (e_txs e). }
  assert (in_round w0 (set_current (Some (set_e_header h e)) w)) as Hw1.
  { apply in_round_env; [done|]. destruct He as [Hf Hg]. by split. }
  set (w1 := set_current _ w) in *.
  assert (keeps (in_round w0) (if update then updateSnapshot ch else mret tt) (fun _ => True)) as Hup
    by (destruct update; [apply updateSnapshot_round|by apply keeps_ret]).
  refine (proj1 (keeps_bind _ _ _ (fun _ => True) _ _ (fun _ _ => Hup) w1 Hw1)).
  destruct (w_running w1); [|by apply keeps_ret].
  eapply (keeps_bind _ _ _ (fun _ => True)); [by apply keeps_pure|]. intros k _ w2 [[H1 H2 H3 (new & H4 & H5)] H6].
  split; [|done]. split; [|done]. split; [done..|]. exists (new ++ [t]). cbn. rewrite H4, <- (assoc_L (++)).
  split; [done|]. apply Forall_app. split; [done|]. by constructor.
Qed.

Lemma fill_block_round w0 ch pending locals intr noempty :
  keeps (in_round w0) (fill_block ch chain pending locals intr noempty) (fun _ => True).
Proof.
  unfold fill_block.
  eapply (keeps_bind _ _ _ (fun _ => True)); [apply accumulate_uncles_round|]. intros _ _.
  eapply (keeps_bind _ _ _ (fun _ => True)); [by apply keeps_get|]. intros b _.
  eapply (keeps_bind _ _ _ (fun _ => True)); [case_match; [apply commit_round|by apply keeps_ret]|]. intros _ _.
  eapply (keeps_bind _ _ _ (fun _ => True)); [by apply keeps_pure|]. intros p _.
  case_match; [apply updateSnapshot_round|]. destruct (split_locals locals p) as [ls rs].
  eapply (keeps_bind _ _ _ (fun _ => True)); [apply fill_from_round|]. intros [] _; [by apply keeps_ret|].
  eapply (keeps_bind _ _ _ (fun _ => True)); [apply fill_from_round|]. intros [] _; [by apply keeps_ret|].
  apply commit_round.
Qed.

End Mining.

(** ** New work on the head of the chain *)

(** A limit that leaves room for doubling it and for the arithmetic on it. *)
Definition sane_limit (limit : Z) : Prop := 5000 <= limit <= 2 ^ 61.

Lemma CalcGasLimit_sane limit ceil :
  sane_limit limit ->
  (VerifyGaslimit limit (CalcGasLimit limit ceil) = Ok tt /\ 0 <= CalcGasLimit limit ceil <= maxInt64) /\
  (VerifyGaslimit (2 * limit) (CalcGasLimit (2 * limit) ceil) = Ok tt /\
   0 <= CalcGasLimit (2 * limit) ceil <= maxInt64).
Proof.
  intros Hl. unfold sane_limit in Hl.
  assert (forall x, 5000 <= x <= 2 ^ 62 ->
    VerifyGaslimit x (CalcGasLimit x ceil) = Ok tt /\ 0 <= CalcGasLimit x ceil <= maxInt64) as H.
  { intros x Hx. assert (x / 1024 <= 2 ^ 62 / 1024) by (apply Z.div_le_mono; lia).
    assert (2 ^ 62 + 2 ^ 62 / 1024 <= maxInt64) by (by vm_compute).
    pose proof (CalcGasLimit_range x ceil). split; [apply CalcGasLimit_verifies|]; lia. }
  split; apply H; lia.
Qed.

Lemma CalcBaseFee_copy cfg p k : Number p = Some k -> CalcBaseFee cfg (CopyHeader p) = CalcBaseFee cfg p.
Proof. intros H. unfold CalcBaseFee. cbn. by rewrite H. Qed.

(** The fee and the limit the worker chooses meet the rules. *)
Lemma new_limits_rules cfg ceil p n fee limit h :
  new_limits cfg ceil p (Some n) = Ok (fee, limit) -> Number p = Some (n - 1) -> sane_limit (GasLimit p) ->
  Number h = Some n -> GasLimit h = limit -> BaseFee h = fee -> GasUsed h = 0 -> gas_rules cfg p h.
Proof.
  intros E Hn Hl Hh Hgl Hbf Hu. destruct (CalcGasLimit_sane _ ceil Hl) as [[Hv1 Hr1] [Hv2 Hr2]].
  unfold new_limits in E. rewrite Hn in E. unfold gas_rules. rewrite Hh, Hu.
  destruct (IsLondon cfg (Some n)).
  - rewrite (CalcBaseFee_copy _ _ _ Hn) in E. inv_ok. unfold VerifyEip1559Header. rewrite Hn, Hgl, Hbf.
    assert (u64 (GasLimit p * ElasticityMultiplier) = 2 * GasLimit p) as ->.
    { unfold ElasticityMultiplier, sane_limit in *. rewrite u64_id; [lia|]. unfold is_u64, two64. lia. }
    destruct (IsLondon cfg (Some (n - 1))); cbn [negb]; (split_and!; [lia..|]); rewrite ?Hv1, ?Hv2;
      cbn; rewrite E0; cbn; by rewrite Z.eqb_refl.
  - injection E as <- <-. rewrite Hgl. split_and!; [lia|lia|done|done].
Qed.

Lemma new_header_rules `{EthCrypto} cfg ceil extra timestamp b h n :
  new_header cfg ceil extra timestamp b = Ok h -> Number (header b) = Some (n - 1) ->
  sane_limit (GasLimit (header b)) ->
  ParentHash h = header_hash (header b) /\ Number h = Some n /\ GasUsed h = 0 /\ gas_rules cfg (header b) h.
Proof.
  intros E Hn Hl. unfold new_header in E. rewrite Hn in E. cbv zeta in E. cbn [deref mbind outcome_bind] in E.
  apply bind_Ok in E as ([fee limit] & E & Hh). replace (n - 1 + 1) with n in * by lia.
  injection Hh as <-. split_and!; [done..|].
  by apply (new_limits_rules cfg ceil (header b) n fee limit).
Qed.

Section Verified.
Context {Crypto : EthCrypto} {TH : TrieHasher} {Env : CliqueEnv} {ME : MinerEnv} {MEOk : MinerEnvOk ME}.
Context {EnvOk : CliqueEnvOk Env} {Hits : CacheHits EnvOk}.

(** The headers in play and what the chain returns of them, as for the engine. *)
Context (known : Header -> Prop).
Hypothesis known_inj : forall h h', known h -> known h' -> header_hash h = header_hash h' -> h = h'.
Context (config : CliqueConfig) (chain : Blockchain).
Hypothesis GetHeader_ok : forall hash number h,
  GetHeader (reader chain) hash number = Some h -> known h /\ header_hash h = hash /\ number_of h = Ok number.
Hypothesis GetHeaderByNumber_ok : forall number h,
  GetHeaderByNumber (reader chain) number = Some h -> known h /\ number_of h = Ok number.
Hypothesis epoch_set : Epoch config <> 0.

Let rd : ChainHeaderReader := reader chain.
Let parent : Header := header (CurrentBlock chain).

(** The head of the chain, on which block [n] is to be built. *)
Record head_ok (n : Z) : Prop := {
  hd_number : Number parent = Some (n - 1);
  hd_range : 0 < n < two64;
  hd_stored : GetHeader rd (header_hash parent) (n - 1) = Some parent;
  hd_limit : sane_limit (GasLimit parent);
  hd_canonical : GetHeaderByNumber rd (n - 1) = Some parent;
  hd_no_dao : forall dao, DAOForkBlock (Config rd) = Some dao -> n < dao \/ dao + DAOForkExtraRange <= n;
}.

(** The engine's snapshot for the head. *)
Definition head_snapshot (n : Z) (c : Clique) : outcome Snapshot :=
  (snapshot rd (n - 1) (header_hash parent) [] c).1.

Lemma head_snapshot_of n c snap c' :
  head_ok n -> clique_ok known config rd c -> snapshot rd (n - 1) (header_hash parent) [] c = (Ok snap, c') ->
  clique_ok known config rd c' /\ s_Hash snap = header_hash parent /\ s_Number snap = n - 1.
Proof.
  intros H Hc Hs. destruct (GetHeader_ok _ _ _ (hd_stored n H)) as (Hk & _ & Hn).
  pose proof (snapshot_keeps known known_inj config rd GetHeader_ok
                (n - 1) (header_hash parent) [] (Forall_nil_2 _) c Hc) as [Hc' Hsnap].
  rewrite Hs in Hc', Hsnap. specialize (Hsnap snap eq_refl). split; [done|].
  destruct Hsnap as [Hsnap|(ck & sg & Hg & _ & _ & ->)].
  2: { rewrite (hd_canonical n H) in Hg. by injection Hg as <-. }
  split; [by eapply snap_of_hash|].
  destruct (snap_of_number known config rd GetHeaderByNumber_ok _ _ Hsnap) as (p & Hp & Ep & Hpn).
  rewrite (known_inj p parent Hp Hk Ep), Hn in Hpn. by injection Hpn.
Qed.

(** Outside the range of the DAO fork the extra data stay. *)
Lemma dao_extra_out n cfg h h' :
  dao_extra cfg h = Ok h' -> Number h = Some n ->
  (forall dao, DAOForkBlock cfg = Some dao -> n < dao \/ dao + DAOForkExtraRange <= n) -> h' = h.
Proof.
  unfold dao_extra. intros H Hn Hd. destruct (DAOForkBlock cfg) as [dao|]; [|by injection H as <-].
  rewrite Hn in H. cbn in H. destruct (Hd dao eq_refl);
    [destruct (Z.leb_spec dao n)|destruct (Z.ltb_spec n (dao + DAOForkExtraRange))]; try lia;
    rewrite ?andb_false_r in H; by injection H as <-.
Qed.

(** A call that fails before there is an environment leaves no task. *)
Lemma begin_work_tasks ch now timestamp ts :
  keeps (fun w => w_tasks w = ts) (begin_work ch now chain timestamp) (fun _ => True).
Proof.
  unfold begin_work.
  do 3 (eapply (keeps_bind _ _ _ (fun _ => True)); [by apply keeps_get|]; intros ? _).
  eapply (keeps_bind _ _ _ (fun _ => True)); [by apply keeps_pure|]. intros h _.
  do 2 (eapply (keeps_bind _ _ _ (fun _ => True)); [by apply keeps_get|]; intros ? _).
  eapply (keeps_bind _ _ _ (fun _ => True)); [by apply keeps_pure|]. intros h1 _.
  eapply (keeps_bind _ _ _ (fun _ => True)).
  { intros w Hw. split; [|done]. unfold engine_do. by destruct (Prepare _ _ _ _ (engine w)). }
  intros h2 _. eapply (keeps_bind _ _ _ (fun _ => True)); [by apply keeps_pure|]. intros h3 _.
  eapply (keeps_bind _ _ _ (fun _ => True)).
  { eapply (keeps_bind _ _ _ (fun _ => True)); [by apply keeps_pure|]. intros s _ w Hw. by split. }
  intros _ _ w Hw. split; [|done]. unfold env_do. destruct (current w); [|done]. done.
Qed.

Lemma gas_rules_coinbase cfg p h a : gas_rules cfg p h -> gas_rules cfg p (set_coinbase a h).
Proof. done. Qed.

(** A call that succeeds has prepared a header that fits on the head. *)
Lemma begin_work_round n ch now timestamp w w' :
  head_ok n -> clique_ok known config rd (engine w) -> w_config w = Config rd ->
  begin_work ch now chain timestamp w = (Ok tt, w') ->
  exists snap, head_snapshot n (engine w) = Ok snap /\ s_Hash snap = header_hash parent /\
    in_round config chain snap (c_signer (engine w)) n w w'.
Proof.
  intros Hh Hc Hcfg H. unfold begin_work in H. do 3 rewrite (StM_run (getS _) _ _ _ _ eq_refl) in H.
  apply StM_bind_Ok in H as (h & w1 & [Hnew ->]%pure_Ok & H).
  rewrite Hcfg in Hnew. apply (new_header_rules _ _ _ _ _ _ n) in Hnew as (Hp & Hn & Hu & Hg);
    [|apply (hd_number n Hh)|apply (hd_limit n Hh)].
  do 2 rewrite (StM_run (getS _) _ _ _ _ eq_refl) in H.
  apply StM_bind_Ok in H as (h1 & w1 & [Hcb ->]%pure_Ok & H).
  assert (ParentHash h1 = header_hash parent /\ Number h1 = Some n /\ GasUsed h1 = 0 /\
          gas_rules (Config rd) parent h1) as (Hp1 & Hn1 & Hu1 & Hg1).
  { destruct (w_running w); inv_ok; done. }
  clear Hcb Hp Hn Hu Hg h. apply StM_bind_Ok in H as (h2 & w2 & Hprep & H). unfold engine_do in Hprep.
  destruct (Prepare now (pick ch) rd h1 (engine w)) as [r c2] eqn:Ep. unfold rd in Ep. rewrite Ep in Hprep.
  injection Hprep as -> <-. fold rd in Ep.
  apply StM_bind_Ok in H as (h3 & w3 & [Hdao ->]%pure_Ok & H).
  pose proof (hd_range n Hh) as Hr.
  assert (n -u 1 = n - 1) as Hsub by (apply u64_sub_small; lia).
  assert (exists snap c1, snapshot rd (n -u 1) (ParentHash h1) [] (engine w) = (Ok snap, c1)) as (snap & c1 & Hs).
  { pose proof Ep as Ep'. unfold Prepare in Ep'. rewrite (StM_run_pure _ _ _ n) in Ep'.
    - apply StM_bind_Ok in Ep' as (snap & c1 & Hs & _). by exists snap, c1.
    - unfold number_of. rewrite Hn1. cbn. by rewrite big_Uint64_id by (unfold is_u64; lia). }
  pose proof Hs as Hs'. rewrite Hp1, Hsub in Hs'.
  destruct (head_snapshot_of n _ _ _ Hh Hc Hs') as (Hc1 & Hhash & Hnum).
  destruct (Prepare_fits config rd now (pick ch) h1 h2 parent n snap (engine w) c1 c2) as (-> & Hu2 & Hfits); try done.
  { apply (ok_config _ _ _ _ Hc). }
  { apply (hd_stored n Hh). }
  rewrite Hcfg in Hdao. apply (dao_extra_out n) in Hdao as ->;
    [|apply (fit_number _ _ _ _ _ _ _ (Hfits zeroHash))|apply (hd_no_dao n Hh)].
  exists snap. unfold head_snapshot. rewrite Hs'. split; [done|]. split; [done|].
  apply StM_bind_Ok in H as (u & w4 & Hmk & H). unfold makeCurrent in Hmk.
  apply StM_bind_Ok in Hmk as (s & w5 & [_ ->]%pure_Ok & Hmk). injection Hmk as _ <-.
  unfold env_do in H. cbn [current set_current] in H. injection H as <-.
  pose proof (same_signer_snapshot rd (n - 1) (header_hash parent) [] (engine w)) as Hsame.
  rewrite Hs' in Hsame. split.
  - split; cbn; [by apply (snapshot_settles rd (n - 1) _ [] snap (engine w))|done|done|].
    exists []. by rewrite app_nil_r.
  - cbn. destruct (_ && _ && _); (split; cbn; [exact Hfits|]); rewrite Hu2, Hu1; lia.
Qed.

(** The tasks of a call of [commitNewWork] fit on the head. *)
Lemma commitNewWork_round n ch now pending locals intr noempty timestamp w r w' :
  head_ok n -> clique_ok known config rd (engine w) -> w_config w = Config rd ->
  commitNewWork ch now chain pending locals intr noempty timestamp w = (r, w') ->
  w_tasks w' = w_tasks w \/
  exists snap, head_snapshot n (engine w) = Ok snap /\ s_Hash snap = header_hash parent /\
    round config chain snap (c_signer (engine w)) n w w'.
Proof.
  intros Hh Hc Hcfg H. unfold commitNewWork, mbind, StM_bind in H.
  destruct (begin_work_tasks ch now timestamp (w_tasks w) w eq_refl) as [Ht _].
  destruct (begin_work ch now chain timestamp w) as [[[]|e|p] w1] eqn:Eb; [|injection H as _ <-; by left..].
  right. destruct (begin_work_round n _ _ _ _ _ Hh Hc Hcfg Eb) as (snap & Hs & Hk & Hround).
  exists snap. split; [done|]. split; [done|].
  destruct (fill_block_round config chain snap _ n w ch pending locals intr noempty w1 Hround) as [[H1 _] _].
  by rewrite H in H1.
Qed.

Lemma fork_hash_ok h n cfg :
  Number h = Some n ->
  (EIP150Block cfg = Some n -> EIP150Hash cfg = zeroHash \/ EIP150Hash cfg = header_hash h) ->
  VerifyForkHashes cfg h false = Ok tt.
Proof.
  intros Hn Hf. unfold VerifyForkHashes. rewrite Hn. destruct (EIP150Block cfg) as [b|]; [|done].
  destruct (Z.eqb_spec b n) as [->|]; [|done]. destruct (Hf eq_refl) as [H|H]; rewrite (bool_decide_true _ H); cbn;
    by rewrite ?andb_false_r.
Qed.

(** The miner's side: sealing a block that fits gives a header that fits and
    recovers to the miner, which may seal at this height. *)
Lemma sealed_task n snap b h' c c' :
  0 < n < two64 -> fits config rd snap (c_signer c) parent n (header b) ->
  settled (header_hash parent) snap c -> s_Hash snap = header_hash parent -> signs_for (c_signer c) (signFn c) ->
  Seal rd (header b) (length (transactions b)) c = (Ok (Some h'), c') ->
  fits config rd snap (c_signer c) parent n h' /\ recover h' = Ok (c_signer c) /\
  c_signer c ∈ Signers snap /\ verify_recents snap n (c_signer c) = true.
Proof.
  intros Hr Hfits Hset Hhash Hsf Hseal.
  assert (number_of (header b) = Ok n) as Hn.
  { unfold number_of. rewrite (fit_number _ _ _ _ _ _ _ Hfits). cbn. by rewrite big_Uint64_id by (unfold is_u64; lia). }
  destruct (Seal_Ok rd _ _ _ n _ _ Hseal Hn)
    as (snap1 & c1 & rlp & sig & extra & _ & Hs1 & Hin & Hrec & Hrlp & Hsign & Hput & ->).
  destruct (settled_snapshot rd (n -u 1) _ _ _ Hset Hhash) as (c2 & Hs2 & _).
  rewrite (fit_parent _ _ _ _ _ _ _ Hfits), Hs2 in Hs1. injection Hs1 as <- <-.
  assert (length sig = extraSeal) as Hls by (by apply Hsf in Hsign as [? _]).
  split_and!; [by eapply sealed_fits|by eapply sealed_recovers|done|by apply seal_recents_verify].
Qed.

(** The verifier's side: a node with the same voting state accepts a header that
    fits and was sealed by a signer that may seal. *)
Lemma agreeing_node_verifies n snap signer h cv now' :
  head_ok n -> clique_ok known config rd cv -> known h -> head_snapshot n cv = Ok snap ->
  Forall (fun a : Address => length a = AddressLength) (signers snap) ->
  fits config rd snap signer parent n h -> recover h = Ok signer -> signer ∈ Signers snap ->
  verify_recents snap n signer = true ->
  (EIP150Block (Config rd) = Some n -> EIP150Hash (Config rd) = zeroHash \/ EIP150Hash (Config rd) = header_hash h) ->
  Time h <= now' ->
  (verifyHeader now' rd h [] cv).1 = Ok tt.
Proof.
  intros Hh Hcv Hk Hsv Haddr Hfits Hrecover Hin Hv Hfork Hnow. pose proof (hd_range n Hh) as Hr.
  assert (n -u 1 = n - 1) as Hsub by (apply u64_sub_small; lia).
  unfold head_snapshot in Hsv. destruct (snapshot rd (n - 1) (header_hash parent) [] cv) as [rv cv1] eqn:Ev.
  cbn in Hsv. subst rv. destruct (head_snapshot_of n cv snap cv1 Hh Hcv Ev) as (Hcv1 & Hhash & _).
  pose proof (snapshot_settles _ _ _ _ _ _ _ Ev Hhash) as Hsetv.
  destruct (settled_snapshot rd (n - 1) _ _ _ Hsetv Hhash) as (cv2 & Ev2 & _ & _ & Hsigs).
  assert ((ecrecover h cv2).1 = Ok signer) as Hec.
  { rewrite <- Hrecover. apply (ecrecover_spec known known_inj h cv2); [|done].
    intros x a Hx Ha. rewrite Hsigs in Ha. by apply (ok_sigs _ _ _ _ Hcv1). }
  destruct (GetHeader_ok _ _ _ (hd_stored n Hh)) as (_ & _ & Hpn).
  pose proof (fit_parent _ _ _ _ _ _ _ Hfits) as Hp.
  apply (verifyHeader_run config rd now' snap signer parent n h cv cv1 cv2); try done.
  - apply (hd_stored n Hh).
  - apply (ok_config _ _ _ _ Hcv).
  - apply (ok_config _ _ _ _ Hcv1).
  - by rewrite Hp, Hsub.
  - by rewrite Hp, Hsub.
  - apply (fork_hash_ok h n); [apply (fit_number _ _ _ _ _ _ _ Hfits)|done].
Qed.

(** C13. Mined blocks verify: whatever happens during a call of [commitNewWork]
    on the head of the chain (transactions that fail, interrupts, errors of the
    pool), when the miner's signing function signs for its address and sealing a
    task of the call yields a header, that header passes [verifyHeader] on every
    node that has the same voting state for the head, once its timestamp has
    come; the gas used is within the gas limit.  Conditions: the head is the
    chain's own header at its height, with a gas limit from 5000 to 2^61; the new
    block is outside the ten blocks of a DAO fork, and at the EIP-150 height only
    if no hash, or its own, is configured there; the epoch is not 0; the signers
    of the voting state have 20-byte addresses; an entry just added to a cache of
    the engine is found again; executing a transaction uses gas of the pool; and,
    as for the engine, no two headers in play have the same hash and the chain
    returns headers with the hash and number asked for. *)
Theorem mined_block_verifies n ch now pending locals intr noempty timestamp w r w' t h' c' cv snap now' :
  head_ok n -> clique_ok known config rd (engine w) -> w_config w = Config rd ->
  signs_for (c_signer (engine w)) (signFn (engine w)) ->
  commitNewWork ch now chain pending locals intr noempty timestamp w = (r, w') ->
  t ∈ drop (length (w_tasks w)) (w_tasks w') ->
  Seal rd (header (t_block t)) (length (transactions (t_block t))) (engine w') = (Ok (Some h'), c') ->
  head_snapshot n (engine w) = Ok snap -> head_snapshot n cv = Ok snap ->
  Forall (fun a : Address => length a = AddressLength) (signers snap) ->
  clique_ok known config rd cv -> known h' ->
  (EIP150Block (Config rd) = Some n -> EIP150Hash (Config rd) = zeroHash \/ EIP150Hash (Config rd) = header_hash h') ->
  Time h' <= now' ->
  (verifyHeader now' rd h' [] cv).1 = Ok tt /\ GasUsed h' <= GasLimit h'.
Proof.
  intros Hh Hc Hcfg Hsf Hw Ht Hseal Hsm Hsv Haddr Hcv Hk Hfork Hnow.
  destruct (commitNewWork_round n _ _ _ _ _ _ _ _ _ _ Hh Hc Hcfg Hw) as [E|(snap' & Hs & Hhash & Hround)].
  { rewrite E, drop_ge in Ht by lia. by apply elem_of_nil in Ht. }
  rewrite Hsm in Hs. injection Hs as <-. destruct Hround as [Hset (_ & Hsig & Hfn & _) _ (new & Htasks & Hok)].
  rewrite Htasks, drop_app_length in Ht. rewrite Forall_forall in Hok. destruct (Hok t Ht) as [Hfits _ _ _].
  rewrite <- Hsig, <- Hfn in *.
  destruct (sealed_task n snap _ _ _ _ (hd_range n Hh) Hfits Hset Hhash Hsf Hseal) as (Hf & Hrec & Hin & Hv).
  split; [by apply (agreeing_node_verifies n snap (c_signer (engine w')))|].
  by destruct (fit_gas _ _ _ _ _ _ _ Hf) as [? _].
Qed.

End Verified.

(** ** Starting and stopping *)

Section Update.
Context {Env : CliqueEnv} {ME : MinerEnv}.

(** Whether mining was last asked for, and whether a synchronisation is going
    on that the miner still listens to. *)
Definition wanted (evs : list miner_event) : bool :=
  fold_left (fun b ev => match ev with EvStart _ => true | EvStop => false | _ => b end) evs false.

(** Whether the downloader is listened to, and whether it is at work. *)
Definition syncing (evs : list miner_event) : bool * bool :=
  fold_left (fun '(listening, busy) ev =>
    match ev with
    | StartEvent => (listening, busy || listening)
    | FailedEvent => (listening, busy && negb listening)
    | DoneEvent => (false, busy && negb listening)
    | _ => (listening, busy)
    end) evs (true, false).

Lemma fold_left_snoc {A B} (f : A -> B -> A) l x a : fold_left f (l ++ [x]) a = f (fold_left f l a) x.
Proof. by rewrite fold_left_app. Qed.

(** The node mines exactly when mining was last asked for and no first
    synchronisation is going on: a synchronisation interrupts mining, its end
    resumes it, and after one that was completed the downloader is no longer
    listened to. *)
Theorem mining_when_wanted w evs :
  w_running w = false -> EvClose ∉ evs ->
  let m := fold_left (fun m ev => update ev m) evs (new_miner w) in
  Mining m = wanted evs && negb (syncing evs).2 /\
  shouldStart m = wanted evs /\ canStart m = negb (syncing evs).2 /\ subscribed m = (syncing evs).1 /\ closed m = false.
Proof.
  intros Hw. induction evs as [|ev evs IH] using rev_ind; intros Hc; [done|].
  apply not_elem_of_app in Hc as [Hc Hev]. specialize (IH Hc). cbv zeta in IH |- *.
  unfold wanted, syncing. rewrite !fold_left_snoc. fold (wanted evs). fold (syncing evs).
  set (m := fold_left _ evs _) in *. destruct (syncing evs) as [listening busy]. cbn [fst snd] in *.
  destruct IH as (H1 & H2 & H3 & H4 & H5). unfold update. rewrite H5, H4.
  destruct ev; [..|by destruct Hev; left]; unfold resume, SetEtherbase, set_miner, Mining in *; cbn in *;
    rewrite ?H1, ?H2, ?H3, ?H4, ?H5; destruct (wanted evs), listening, busy; cbn in *; rewrite ?H1, ?H2, ?H3; try done.
Qed.
End Update.
