(* ===== verification/MinerResults.v ===== *)
(** * From sealing tasks to written blocks

    The goroutines of the worker as a transition system: whatever the
    interleaving of new work, sealing, timers, results and clean-up, a block the
    worker writes to the chain is one of its own blocks, and the receipts written
    with it are those its header commits to, located in that block. *)

From S2P Require Import Prelude Rlp EthTypes CliqueSnapshot Clique CliqueSeal CliqueMining.
From S2P Require Import Randomness GethFuzzer GoHeap TxByPrice Miner.
From Stdlib.Relations Require Import Relation_Operators Operators_Properties.

(** Walks through a call: binds, pure steps, reads and branches. *)
Ltac walk :=
  repeat first
    [ apply keeps_ret; done | apply keeps_pure; done | apply keeps_get; done | apply keeps_ask; done
    | eapply (keeps_bind _ _ _ (fun _ => True)); [|intros ? _]
    | match goal with |- keeps _ (if ?b then _ else _) _ => destruct b end ].

Section Results.
Context {Crypto : EthCrypto} {TH : TrieHasher} {Env : CliqueEnv} {ME : MinerEnv} {MEOk : MinerEnvOk ME}.

Definition tx_root (txs : list Tx) : Hash :=
  match txs with [] => EmptyRootHash | _ => DeriveSha encode_transaction txs end.
Definition receipt_root (rs : list Receipt) : Hash :=
  match rs with [] => EmptyRootHash | _ => DeriveSha encode_receipt rs end.

(** A block without uncles whose header commits to its transactions. *)
Definition own_block (b : FullBlock) : Prop :=
  uncles b = [] /\ TxHash (header b) = tx_root (transactions b) /\ CopyHeader (header b) = header b.

(** A task whose block also commits to the receipts. *)
Definition own_task (t : task) : Prop :=
  own_block (t_block t) /\ ReceiptHash (header (t_block t)) = receipt_root (t_receipts t).

(** *** Every task is the worker's own *)

Abbreviation own w := (Forall own_task (w_tasks w)).

Lemma env_do_own {A} (f : environment -> outcome A * environment) :
  keeps (fun w => own w) (env_do f) (fun _ => True).
Proof. intros w Hw. split; [|done]. unfold env_do. destruct (current w); [|done]. by case_match. Qed.

Lemma put_own (f : worker -> worker) :
  (forall w, w_tasks (f w) = w_tasks w) -> keeps (fun w => own w) (putS f) (fun _ => True).
Proof. intros Hf w Hw. split; [|done]. cbn. by rewrite Hf. Qed.

Lemma updateSnapshot_own ch : keeps (fun w => own w) (updateSnapshot ch) (fun _ => True).
Proof. intros w Hw. split; [|done]. unfold updateSnapshot. by destruct (current w). Qed.

Lemma commitTransactions_own q coinbase intr :
  keeps (fun w => own w) (commitTransactions q coinbase intr) (fun _ => True).
Proof.
  intros w Hw. split; [|done]. unfold commitTransactions. destruct (current w) as [e|]; [|done].
  destruct (transaction_loop _ _ _ _ _ _ _) as [[[|sig]| |] e2]; cbn; try done.
  - by destruct intr.
  - by destruct (sig =? commitInterruptResubmit).
Qed.

Lemma NewBlock_own h txs rs :
  own_block (NewBlock h txs [] rs) /\ ReceiptHash (header (NewBlock h txs [] rs)) = receipt_root rs.
Proof. unfold NewBlock, own_block, tx_root, receipt_root. by destruct txs, rs. Qed.

Lemma commit_own ch chain update : keeps (fun w => own w) (commit ch chain update) (fun _ => True).
Proof.
  intros w Hw. split; [|done]. unfold commit. destruct (current w) as [e|]; [|done].
  unfold FinalizeAndAssemble. destruct (IntermediateRoot _ (e_state e)) as [root s].
  set (w1 := set_current _ w). assert (own w1) as Hw1 by done.
  pose proof (NewBlock_own (Finalize root (e_header e)) (e_txs e) (e_receipts e)) as Hb.
  refine (proj1 (keeps_bind (fun w => own w) _ _ (fun _ => True) _ _ _ w1 Hw1)).
  - destruct (w_running w1); [|by apply keeps_ret].
    eapply (keeps_bind _ _ _ (fun _ => True)); [by apply keeps_pure|]. intros k _ w2 Hw2. split; [|done]. cbn.
    apply Forall_app. split; [done|]. by constructor.
  - intros _ _. destruct update; [apply updateSnapshot_own|by apply keeps_ret].
Qed.

Lemma commitNewWork_own ch now chain pending locals intr noempty timestamp :
  keeps (fun w => own w) (commitNewWork ch now chain pending locals intr noempty timestamp) (fun _ => True).
Proof.
  unfold commitNewWork, begin_work, fill_block, accumulate_uncles, makeCurrent, fill_from, with_env.
  walk; try apply env_do_own; try apply commit_own; try apply updateSnapshot_own; try (by apply put_own).
  - intros w Hw. split; [|done]. unfold engine_do. by destruct (Prepare _ _ _ _ (engine w)).
  - destruct (split_locals locals _) as [ls rs]. unfold fill_from, with_env.
    walk; try apply env_do_own; try apply commit_own; apply commitTransactions_own.
Qed.

Lemma on_side_block_own ch chain local b : keeps (fun w => own w) (on_side_block ch chain local b) (fun _ => True).
Proof.
  intros w Hw. split; [|done]. unfold on_side_block. destruct (_ || _); [done|].
  set (w1 := if local b then _ else _). assert (own w1) as Hw1 by (unfold w1; by destruct (local b)).
  destruct (current w1) as [e|]; [|done]. destruct (_ && _); [|done].
  destruct (commitUncle _ e) as [[u| |] e']; [|done..]. by apply commit_own.
Qed.

Lemma on_transactions_own ch now chain pending locals txs :
  keeps (fun w => own w) (on_transactions ch now chain pending locals txs) (fun _ => True).
Proof.
  assert (forall c : bool, keeps (fun w => own w)
    (_ ← (if c then commitNewWork ch now chain pending locals None true now else mret tt);
     putS (fun w => set_newTxs (w_newTxs w + Z.of_nat (length txs)) w)) (fun _ => True)) as Hwork.
  { intros c. eapply (keeps_bind _ _ _ (fun _ => True)); [|intros ? _; by apply put_own].
    destruct c; [apply commitNewWork_own|by apply keeps_ret]. }
  intros w Hw. split; [|done]. unfold on_transactions. destruct (current w) as [e|]; [|by apply Hwork].
  destruct (negb (w_running w)); [|by apply Hwork].
  destruct (match gasPool e with Some gp => gp <? TxGas | None => false end); [done|].
  match goal with |- own (?m w).2 => assert (keeps (fun w => own w) m (fun _ => True)) as H; [|by apply H] end.
  unfold with_env. walk; try apply env_do_own; try apply commitTransactions_own; try apply updateSnapshot_own;
    by apply put_own.
Qed.

(** *** The invariant of the loops *)

(** A receipt says that it is the one of transaction [i] of block [b], and so do
    its logs. *)
Definition located_in (b : FullBlock) (i : nat) (r : Receipt) : Prop :=
  r_BlockHash r = block_Hash b /\ r_BlockNumber r = Number (header b) /\ r_TransactionIndex r = Z.of_nat i /\
  Forall (fun l => l_BlockHash l = block_Hash b) (r_Logs r).

(** Two receipts that differ in their positions only. *)
Definition same_receipt (r r' : Receipt) : Prop :=
  r_body r = r_body r' /\ r_GasUsed r = r_GasUsed r' /\ l_body <$> r_Logs r = l_body <$> r_Logs r'.

(** What is known of a block that was written: it is the worker's own, its
    receipts are located in it and are those of a task, and they are the ones its
    header commits to, unless that task has another header with the same seal
    hash. *)
Definition written_ok (e : FullBlock * list Receipt) : Prop :=
  let '(b, rs) := e in
  own_block b /\
  (forall i r, rs !! i = Some r -> located_in b i r) /\
  exists t, own_task t /\ SealHash (header (t_block t)) = SealHash (header b) /\
    Forall2 same_receipt rs (t_receipts t) /\
    (signed_part (header (t_block t)) = signed_part (header b) -> ReceiptHash (header b) = receipt_root rs).

Record loops_ok (s : sealing) : Prop := {
  lo_jobs : Forall own_block (jobs s);
  lo_results : Forall own_block (resultCh s);
  lo_pending k t : pendingTasks s !! k = Some t -> own_task t /\ SealHash (header (t_block t)) = Ok k;
  lo_written : Forall written_ok (written s);
}.

Definition miner_ok (st : worker * sealing) : Prop := own st.1 /\ loops_ok st.2.

(** Sealing changes the extra-data only. *)
Lemma Seal_own chain b txs h' c c' :
  own_block b -> Seal chain (header b) txs c = (Ok (Some h'), c') -> own_block (WithSeal b h').
Proof.
  intros (Hu & Ht & Hc) H.
  assert (exists n, number_of (header b) = Ok n) as [n Hn].
  { unfold number_of. rewrite <- Hc. cbn. by eexists. }
  destruct (Seal_Ok chain _ _ _ n _ _ H Hn) as (snap & c1 & rlp & sig & extra & _ & _ & _ & _ & _ & _ & _ & ->).
  split_and!; [done|done|]. cbn. rewrite <- Hc. done.
Qed.

Lemma on_task_tasks chain t s w : w_tasks (on_task chain t s w).2 = w_tasks w.
Proof.
  unfold on_task. destruct (SealHash _) as [k| |]; [|done..]. case_bool_decide; [done|].
  destruct (Seal _ _ _ _) as [[[h|]| |] c]; done.
Qed.

Lemma on_task_ok chain t s w s' w' :
  own_task t -> own w -> loops_ok s -> on_task chain t s w = (Ok s', w') -> own w' /\ loops_ok s'.
Proof.
  intros Ht Hw Hs H. pose proof Ht as [Hb _]. pose proof Hb as (_ & _ & Hc).
  unfold on_task in H. rewrite Hc in H.
  destruct (SealHash (header (t_block t))) as [k| |] eqn:Ek; [|done..]. case_bool_decide; [by simplify_eq|].
  destruct (Seal _ _ _ (engine w)) as [r c] eqn:Es.
  assert (loops_ok {| prev := k; jobs := jobs s; resultCh := resultCh s;
                      pendingTasks := <[k := t]> (pendingTasks s); written := written s |}) as Hs1.
  { destruct Hs as [H1 H2 H3 H4]. split; cbn; try done.
    intros k' t' [[<- <-]|[_ Hk]]%lookup_insert_Some; [done|by apply H3]. }
  destruct r as [[sealed|]|e|p]; [|by simplify_eq..|done]. injection H as <- <-. split; [done|].
  destruct Hs1 as [H1 H2 H3 H4]. split; cbn; try done. apply Forall_app. split; [done|].
  constructor; [by eapply Seal_own|done].
Qed.

Lemma DeriveSha_encode {A} (enc : A -> bytes) (l l' : list A) :
  enc <$> l = enc <$> l' -> DeriveSha enc l = DeriveSha enc l'.
Proof.
  intros E. unfold DeriveSha. assert (length l = length l') as Hl by (by rewrite <- (length_fmap enc l), E, length_fmap).
  rewrite Hl. f_equal. generalize (derive_order (length l')) trie_Reset. intros idxs.
  induction idxs as [|i idxs IH]; intros t; [done|].
  cbn. rewrite IH. f_equal. apply (f_equal (fun m => m !! i)) in E. rewrite !list_lookup_fmap in E.
  destruct (l !! i), (l' !! i); cbn in E; congruence.
Qed.

Lemma receipt_root_same rs rs' : Forall2 same_receipt rs rs' -> receipt_root rs = receipt_root rs'.
Proof.
  intros H. assert (encode_receipt <$> rs = encode_receipt <$> rs') as E.
  { induction H as [|r r' l l' (H1 & H2 & H3) _ IH]; [done|]. cbn. by rewrite IH, (encode_consensus r r'). }
  unfold receipt_root. apply (DeriveSha_encode encode_receipt) in E. by destruct H.
Qed.

Lemma locate_same hash number i r : same_receipt (locate hash number i r) r.
Proof. split_and!; [done..|]. cbn. by rewrite <- list_fmap_compose. Qed.

Lemma locate_located b i r : located_in b i (locate (block_Hash b) (Number (header b)) i r).
Proof. split_and!; [done..|]. cbn. apply Forall_fmap. by apply Forall_true. Qed.

Lemma signed_receipts h h' : signed_part h = signed_part h' -> ReceiptHash h = ReceiptHash h'.
Proof. unfold signed_part. by intros [= _ _ _ _ _ ->]. Qed.

Lemma on_result_ok chain stored b s w s' w' :
  own_block b -> own w -> loops_ok s -> on_result chain stored b s w = (Ok s', w') -> own w' /\ loops_ok s'.
Proof.
  intros Hb Hw Hs H. pose proof Hb as (_ & _ & Hc). unfold on_result in H.
  apply StM_bind_Ok in H as (number & w1 & [Hn ->]%pure_Ok & H).
  destruct (HasBlock chain (block_Hash b) number); [by injection H as <- <-|].
  apply StM_bind_Ok in H as (k & w1 & [Hk ->]%pure_Ok & H). rewrite Hc in Hk.
  destruct (pendingTasks s !! k) as [t|] eqn:Et; [|by injection H as <- <-].
  apply StM_bind_Ok in H as (u & w1 & Hput & H). injection H as <- <-.
  assert (own w1) as Hw1 by (by destruct stored; injection Hput as _ <-).
  destruct Hs as [H1 H2 H3 H4]. destruct (H3 k t Et) as [[Htb Htr] Htk]. split; [done|].
  set (rs := imap (locate (block_Hash b) (Number (header b))) (t_receipts t)).
  assert (Forall2 same_receipt rs (t_receipts t)) as Hsame.
  { apply Forall2_same_length_lookup_2; [apply length_imap|]. intros i r r0 Hr Hr0. unfold rs in Hr.
    rewrite list_lookup_imap, Hr0 in Hr. injection Hr as <-. apply locate_same. }
  pose proof (receipt_root_same _ _ Hsame) as Hroot.
  split; cbn; [done|done| |].
  - intros k' t' [[<- <-]|[_ Hk']]%lookup_insert_Some; [|by apply H3]. split; [|done]. split; [done|]. cbn. congruence.
  - destruct stored; [|done]. apply Forall_app. split; [done|]. constructor; [|done]. split; [done|]. split.
    + intros i r Hi. unfold rs in Hi. rewrite list_lookup_imap in Hi.
      destruct (t_receipts t !! i) as [r0|]; [|done]. injection Hi as <-. apply locate_located.
    + exists t. split; [done|]. split; [congruence|]. split; [done|]. intros E%signed_receipts. congruence.
Qed.

Lemma step_miner_ok st st' : step st st' -> miner_ok st -> miner_ok st'.
Proof.
  intros H [Hw Hs]. destruct H as [ch now chain pending locals intr noempty timestamp w s r w' H _
    |ch chain local b w s r w' H _|ch now chain pending locals txs w s r w' H _
    |chain t ts w s s' w' Ets H|w s l b l' Ej|w s l b l' Ej|chain stored b bs w s s' w' Er H|number w s|o w s];
    cbn in Hw, Hs.
  - split; [|done]. destruct (commitNewWork_own ch now chain pending locals intr noempty timestamp w Hw) as [H' _].
    by rewrite H in H'.
  - split; [|done]. destruct (on_side_block_own ch chain local b w Hw) as [H' _]. by rewrite H in H'.
  - split; [|done]. destruct (on_transactions_own ch now chain pending locals txs w Hw) as [H' _]. by rewrite H in H'.
  - rewrite Ets in Hw. apply Forall_cons in Hw as [Ht Hw].
    by destruct (on_task_ok chain t s (set_tasks ts w) s' w' Ht Hw Hs H).
  - split; [done|]. destruct Hs as [H1 H2 H3 H4]. rewrite Ej in H1. apply Forall_app in H1 as [H1 H1'].
    apply Forall_cons in H1' as [Hb H1']. split; cbn; [by apply Forall_app| |done|done].
    case_match; [apply Forall_app; split; [done|by constructor]|done].
  - split; [done|]. destruct Hs as [H1 H2 H3 H4]. rewrite Ej in H1. apply Forall_app in H1 as [H1 H1'].
    apply Forall_cons in H1' as [Hb H1']. split; cbn; [by apply Forall_app|done|done|done].
  - destruct Hs as [H1 H2 H3 H4]. rewrite Er in H2. apply Forall_cons in H2 as [Hb H2].
    by apply (on_result_ok chain stored b _ w s' w' Hb Hw) in H.
  - split; [done|]. destruct Hs as [H1 H2 H3 H4]. split; cbn; try done.
    intros k t [Hk _]%map_lookup_filter_Some. by apply H3.
  - split; [|done]. by destruct o as [| | |[]|[]].
Qed.

(** The loops before any task. *)
Definition no_sealing : sealing := {|
  prev := zeroHash; jobs := []; resultCh := []; pendingTasks := ∅; written := [] |}.

(** C40. Written blocks are the worker's own: from a worker without tasks, after
    any interleaving of new work, side blocks, transactions, sealing, timers,
    results, clean-up and changes of settings, every block that was written to
    the chain has no uncles and a header that commits to its transactions; the
    receipt at every index carries the block's hash and number and that index,
    and its logs the block's hash; apart from these positions the receipts are
    those of a task of the worker with the block's seal hash, one for one; and
    they are the receipts the header commits to, unless two headers of the worker
    have the same seal hash.  (Assumed: the encoding of a receipt leaves out the
    positions.) *)
Theorem written_blocks_own w st b rs :
  w_tasks w = [] -> clos_refl_trans _ step (w, no_sealing) st -> (b, rs) ∈ written st.2 ->
  written_ok (b, rs).
Proof.
  intros Hw H Hin. assert (miner_ok st) as [_ Hs].
  { apply clos_rt_rt1n_iff in H. remember (w, no_sealing) as st0 eqn:E.
    assert (miner_ok st0) as H0.
    { rewrite E. split; cbn; [by rewrite Hw|]. by split; cbn. }
    clear E Hw. induction H as [|st1 st2 st3 H1 _ IH]; [done|]. apply IH; [done|]. by eapply step_miner_ok. }
  pose proof (lo_written _ Hs) as Hok. rewrite Forall_forall in Hok. by apply Hok.
Qed.

End Results.
