(* ===== verification/MinerExamples.v ===== *)
(** * A miner on a concrete chain

    The third block of the chain of CliqueExamples.v, mined with transactions
    of two accounts, on which the theorems of the block producer are applied. *)

From S2P Require Import Prelude Rlp EthTypes CliqueSnapshot CliqueRotation Clique CliqueEngine CliqueMining.
From S2P Require Import CliqueExamples Randomness GethFuzzer GoHeap TxByPrice Miner MinerSpec MinerResults.
From Stdlib.Relations Require Import Relation_Operators.

#[local] Existing Instance id_crypto.
#[local] Existing Instance map_env.
#[local] Existing Instance map_env_ok.

Module MinerExample.
Import CliqueExample EngineExample.

Lemma map_env_hits : CacheHits map_env_ok.
Proof. split. intros V c k v. apply lookup_insert_eq. Qed.
#[local] Existing Instance map_env_hits.

(** A trie that concatenates, and a state that counts the transactions, each of
    which uses 21000 gas. *)
Definition plain_trie : TrieHasher := {|
  trie := bytes; trie_Reset := []; trie_Update t k v := t ++ k ++ v; trie_Hash t := t |}.

Definition apply_flat (coinbase : Address) (h : Header) (tx : Tx) (s : Z * Z) : outcome Receipt * (Z * Z) :=
  if s.1 <? 21000 then (Err ErrGasLimitReached, s)
  else (Ok {| r_body := []; r_GasUsed := 21000; r_Logs := []; r_BlockHash := []; r_BlockNumber := None;
              r_TransactionIndex := s.2 |}, (s.1 - 21000, s.2 + 1)).

Definition flat_env : MinerEnv := {|
  StateDB := Z;
  IntermediateRoot _ s := (replicate 32 (to_byte s), s);
  ApplyDAOHardFork s := s;
  state_Prepare _ _ s := s;
  ApplyTransaction := apply_flat;
  SenderAt _ tx := QueueExample.sender tx;
  Protected _ := false;
  encode_transaction tx := tx_Data (inner tx);
  encode_receipt _ := [];
  CreateBloom _ := replicate 256 Byte.x00;
|}.

#[local] Existing Instance plain_trie.
#[local] Existing Instance flat_env.

Lemma flat_env_ok : MinerEnvOk flat_env.
Proof.
  split; [| |done]; intros coinbase h tx gp s r gp' s' Hgp; cbn; unfold apply_flat; cbn;
    destruct (Z.ltb_spec gp 21000); intros [= <- <- <-]; cbn; lia.
Qed.
#[local] Existing Instance flat_env_ok.

(** The head is block 2; the miner is the third signer. *)
Definition blockchain : Blockchain := {|
  Miner.reader := EngineExample.reader;
  GetBlockByNumber _ := None;
  CurrentBlock := {| header := block2; transactions := []; uncles := [] |};
  GetBlocksFromHash _ _ := [];
  StateAt _ := Ok 0;
  HasBlock _ _ := false;
|}.

Definition sign (a : Address) (m : bytes) : outcome bytes := Ok (seal_of a).

Definition miner : worker := {|
  w_config := Config EngineExample.reader; Miner.engine := Authorize (account 3) sign EngineExample.engine;
  GasCeil := 9000000; w_coinbase := account 3; w_extra := []; w_running := true; w_noempty := false; w_newTxs := 0;
  current := None; localUncles := ∅; remoteUncles := ∅; unconfirmed := [];
  snapshotBlock := None; snapshotReceipts := []; snapshotState := None; w_tasks := []; w_adjusts := [] |}.

Definition choices : Choices := {|
  iter A m := map_to_list m; iter_set s := elements s; pick := 0 |}.

Definition pool : gmap Address (list Tx) := list_to_map QueueExample.pending.

Definition worked : outcome unit * worker :=
  commitNewWork choices 100 blockchain (Ok pool) [] (Some (fun _ _ => 0)) false 90 miner.

(** An empty block in advance and the block with the four transactions. *)
Example two_tasks :
  worked.1 = Ok tt /\ length (w_tasks worked.2) = 2%nat /\
  ((fun t : task => length (transactions (t_block t))) <$> w_tasks worked.2) = [0; 4]%nat.
Proof. vm_compute. split_and!; reflexivity. Qed.

Definition value {A} (d : A) (r : outcome A) : A := match r with Ok a => a | _ => d end.

Lemma value_pair {A B} (d : A) (r : outcome A * B) : is_ok r.1 = true -> r = (Ok (value d r.1), r.2).
Proof. destruct r as [[a| |] b]; done. Qed.

Lemma is_ok_value {A} (d : A) (r : outcome A) : is_ok r = true -> r = Ok (value d r).
Proof. destruct r; done. Qed.

Definition is_some {A} (o : option A) : bool := if o is Some _ then true else false.

Lemma is_some_default {A} (d : A) (o : option A) : is_some o = true -> o = Some (default d o).
Proof. destruct o; done. Qed.

Lemma two_lookups {A} (d : A) (l : list A) :
  length l = 2%nat -> l = [default d (l !! 0%nat); default d (l !! 1%nat)].
Proof. destruct l as [|a [|b [|]]]; done. Qed.

Lemma one_lookup {A} (d : A) (l : list A) : length l = 1%nat -> l = [default d (l !! 0%nat)].
Proof. destruct l as [|a [|]]; done. Qed.

Definition no_task : task :=
  {| t_receipts := []; t_state := 0 : @StateDB flat_env; t_block := CurrentBlock blockchain |}.

Definition empty_task : task := default no_task (w_tasks worked.2 !! 0%nat).
Definition full_task : task := default no_task (w_tasks worked.2 !! 1%nat).

Lemma both_tasks : w_tasks worked.2 = [empty_task; full_task].
Proof. apply (two_lookups no_task (w_tasks worked.2)). exact (proj1 (proj2 two_tasks)). Qed.

Definition sealed : outcome (option Header) * Clique :=
  Seal EngineExample.reader (header (t_block full_task)) (length (transactions (t_block full_task))) (Miner.engine worked.2).

Definition block3 : Header := default block0 (value None sealed.1).

(** The headers of the chain and the new one. *)
Definition played (h : Header) : Prop := in_play h \/ h = block3.

Definition differs (k : Hash) (h : Header) : bool := negb (bool_decide (header_hash h = k)).

Lemma block3_differs : forallb (differs (header_hash block3)) blocks = true.
Proof. vm_cast_no_check (eq_refl true). Qed.

Lemma differs_neq k h : differs k h = true -> header_hash h <> k.
Proof. unfold differs. by rewrite negb_true_iff, bool_decide_eq_false. Qed.

Lemma block3_hash h : in_play h -> header_hash h <> header_hash block3.
Proof.
  intros Hh%list_elem_of_In. apply differs_neq. exact (proj1 (forallb_forall _ _) block3_differs h Hh).
Qed.

Lemma played_inj h h' : played h -> played h' -> header_hash h = header_hash h' -> h = h'.
Proof.
  intros [Hh| ->] [Hh'| ->] E; [exact (in_play_inj h h' Hh Hh' E)| | |reflexivity].
  - destruct (block3_hash h Hh E).
  - destruct (block3_hash h' Hh' (eq_sym E)).
Qed.

Lemma played_GetHeader hash number h :
  GetHeader EngineExample.reader hash number = Some h ->
  played h /\ header_hash h = hash /\ number_of h = Ok number.
Proof. intros (H1 & H2 & H3)%reader_GetHeader. split; [left; exact H1|]. split; assumption. Qed.

Lemma played_GetHeaderByNumber number h :
  GetHeaderByNumber EngineExample.reader number = Some h -> played h /\ number_of h = Ok number.
Proof. intros (H1 & H2)%reader_GetHeaderByNumber. split; [left; exact H1|exact H2]. Qed.

Lemma block3_number : number_of block3 = Ok 3.
Proof. vm_compute. reflexivity. Qed.

(** An engine without caches, the miner's or another node's. *)
Lemma fresh_engine_ok a f : clique_ok played config EngineExample.reader (Authorize a f EngineExample.engine).
Proof.
  split; [done|..]; cbn [c_signatures c_recents c_db Authorize EngineExample.engine New].
  - intros h x _ H. cbn in H. by rewrite lookup_empty in H.
  - intros k s H. cbn in H. by rewrite lookup_empty in H.
  - intros k s H. unfold loadSnapshot in H. cbn in H. by rewrite lookup_empty in H.
Qed.

Lemma block2_head : head_ok blockchain 3.
Proof.
  split; [done|unfold two64; lia|vm_compute; reflexivity|unfold sane_limit; cbn; lia|vm_compute; reflexivity|done].
Qed.

Lemma miner_signs : signs_for (account 3) sign.
Proof.
  intros m s [= <-]. split; [done|]. exists (seal_of (account 3)). split; [done|]. split; [cbn; lia|].
  vm_compute. reflexivity.
Qed.

Definition head_state : Snapshot :=
  match head_snapshot blockchain 3 (Miner.engine miner) with Ok s => s | _ => newSnapshot 0 [] [] end.

Lemma sealed_some : is_some (value None sealed.1) = true.
Proof. vm_cast_no_check (eq_refl true). Qed.

Lemma sealed_block3 : sealed = (Ok (Some block3), sealed.2).
Proof.
  assert (sealed = (Ok (value None sealed.1), sealed.2)) as H by (apply value_pair; vm_cast_no_check (eq_refl true)).
  exact (eq_trans H (f_equal (fun o => (Ok o, sealed.2)) (is_some_default block0 (value None sealed.1) sealed_some))).
Qed.

Lemma mined_block_verifies_witness :
  (verifyHeader 100 EngineExample.reader block3 [] EngineExample.engine).1 = Ok tt /\
  GasUsed block3 <= GasLimit block3.
Proof.
  apply (mined_block_verifies played played_inj config blockchain played_GetHeader played_GetHeaderByNumber
           ltac:(done) 3 choices 100 (Ok pool) [] (Some (fun _ _ => 0)) false 90 miner
           worked.1 worked.2 full_task block3 sealed.2 EngineExample.engine head_state 100).
  - exact block2_head.
  - exact (fresh_engine_ok (account 3) sign).
  - reflexivity.
  - exact miner_signs.
  - exact (surjective_pairing worked).
  - apply (list_elem_of_lookup_2 _ 1). exact (f_equal (fun l => l !! 1%nat) both_tasks).
  - exact sealed_block3.
  - vm_compute. reflexivity.
  - vm_compute. reflexivity.
  - apply (bool_decide_unpack _). vm_compute. done.
  - exact (fresh_engine_ok zeroAddress (signFn EngineExample.engine)).
  - right. reflexivity.
  - done.
  - vm_compute. discriminate.
Defined.

(** ** A run of the loops

    The two tasks are sealed, the timer of the second block fires, and the block
    is written. *)

Definition after_empty := on_task blockchain empty_task no_sealing (set_tasks [full_task] worked.2).
Definition s1 : sealing := value no_sealing after_empty.1.
Definition after_full := on_task blockchain full_task s1 (set_tasks [] after_empty.2).
Definition s2 : sealing := value s1 after_full.1.
Definition mined : FullBlock := default (CurrentBlock blockchain) (jobs s2 !! 1%nat).

Lemma two_jobs : length (jobs s2) = 2%nat /\ length (resultCh s2) = 0%nat.
Proof. split; vm_compute; reflexivity. Qed.

Definition s3 : sealing := {|
  prev := prev s2; jobs := take 1 (jobs s2) ++ drop 2 (jobs s2);
  resultCh := if (length (resultCh s2) <? resultQueueSize)%nat then resultCh s2 ++ [mined] else resultCh s2;
  pendingTasks := pendingTasks s2; written := written s2 |}.
Definition after_result :=
  on_result blockchain true mined
    {| prev := prev s3; jobs := jobs s3; resultCh := []; pendingTasks := pendingTasks s3; written := written s3 |}
    after_full.2.
Definition s4 : sealing := value s3 after_result.1.
Definition stored : FullBlock * list Receipt := default (mined, []) (written s4 !! 0%nat).

Lemma mined_job : jobs s2 = take 1 (jobs s2) ++ mined :: drop 2 (jobs s2).
Proof.
  symmetry. apply take_drop_middle, (is_some_default _ (jobs s2 !! 1%nat)).
  pose proof (proj1 two_jobs) as H. by destruct (jobs s2) as [|? [|]].
Qed.

Lemma mined_result : resultCh s3 = [mined].
Proof.
  unfold s3. cbn [resultCh]. pose proof (proj2 two_jobs) as ->%nil_length_inv. reflexivity.
Qed.

Lemma tasks_after_empty : w_tasks after_empty.2 = [full_task].
Proof. exact (on_task_tasks blockchain empty_task no_sealing (set_tasks [full_task] worked.2)). Qed.

Lemma mining_run : clos_refl_trans _ step (miner, no_sealing) (after_result.2, s4).
Proof.
  apply (rt_trans _ _ _ (worked.2, no_sealing)).
  { apply rt_step. refine (step_work _ _ _ _ _ _ _ _ _ _ _ _ (surjective_pairing worked) _).
    assert (worked.1 = Ok tt) as -> by (vm_compute; reflexivity). discriminate. }
  apply (rt_trans _ _ _ (after_empty.2, s1)).
  { apply rt_step. refine (step_task blockchain empty_task [full_task] _ _ _ _ both_tasks _).
    apply (value_pair no_sealing after_empty). vm_cast_no_check (eq_refl true). }
  apply (rt_trans _ _ _ (after_full.2, s2)).
  { apply rt_step. refine (step_task blockchain full_task [] _ _ _ _ tasks_after_empty _).
    apply (value_pair s1 after_full). vm_cast_no_check (eq_refl true). }
  apply (rt_trans _ _ _ (after_full.2, s3)).
  { apply rt_step. exact (step_fire after_full.2 s2 _ mined _ mined_job). }
  apply rt_step. refine (step_result blockchain true mined [] _ _ _ _ mined_result _).
  apply (value_pair s3 after_result). vm_cast_no_check (eq_refl true).
Qed.

Lemma stored_written : written s4 !! 0%nat = Some (stored.1, stored.2).
Proof.
  rewrite <- surjective_pairing. apply is_some_default. vm_cast_no_check (eq_refl true).
Qed.

Example four_receipts : length stored.2 = 4%nat /\ length (transactions stored.1) = 4%nat.
Proof. split; vm_compute; reflexivity. Qed.

Lemma written_blocks_own_witness : written_ok (stored.1, stored.2).
Proof.
  apply (written_blocks_own miner (after_result.2, s4) stored.1 stored.2).
  - reflexivity.
  - exact mining_run.
  - exact (list_elem_of_lookup_2 _ 0 _ stored_written).
Defined.

End MinerExample.
