(* ===== verification/EthHandlers.v ===== *)
(** * Answering Ethereum peers

    eth/protocols/eth/handlers.go and handler.go: the dispatch of a received
    message, the answers to data requests with their limits, and the delivery
    of responses and announcements to the node; with the retrieval of ancestors
    from core/headerchain.go and the sanity checks of propagated blocks.

    The interface [Backend] of the code is a class here: the database behind
    the header chain, the transaction pool and the state.  Headers are objects
    of the heap, since the answers hold the chain's own header objects.
    Decoding the payload is the class [Decoder]; metrics and logging are left
    out. *)

From S2P Require Import Prelude Randomness EthTypes GethFuzzer.

(** ** Interfaces *)

(** A block as it is received. *)
Record InBlock := { ib_header : Header; ib_uncles : list Header; ib_txs : list Transaction }.

(** The chain, the state and the pool the node serves from. *)
Class Backend := {
  (** The canonical hash at a height, zero when there is none. *)
  ReadCanonicalHash : Z -> Hash;
  (** The header with the hash at the number. *)
  GetHeader : Hash -> Z -> option loc;
  (** The number the hash is stored under. *)
  GetBlockNumber : Hash -> option Z;
  header_Hash : Header -> Hash;
  GetBodyRLP : Hash -> bytes;
  StateBloom : option (Hash -> bool);
  TrieNode : Hash -> outcome bytes;
  ContractCodeWithPrefix : Hash -> outcome bytes;
  (** The stored receipts, [None] when there are none, and their encoding. *)
  GetReceiptsByHash : Hash -> option (list bytes);
  encode_receipts : option (list bytes) -> outcome bytes;
  TxPool_Get : Hash -> option loc;
  encode_tx : Transaction -> outcome bytes;
  AcceptTxs : bool;
  EmptyRootHash : Hash;
  CalcUncleHash : list Header -> Hash;
  DeriveSha : list Transaction -> Hash;
}.

(** The data of a block of a response; the pointers may be nil.
    [geth:eth/protocols/eth/protocol.go:226-230] BlockBody *)
Record BlockBody := { bb_Transactions : list (option Transaction); bb_Uncles : list Header }.

(** A query for headers. *)
Record HeadersQuery := { q_Origin : HashOrNumber; q_Amount : Z; q_Skip : Z; q_Reverse : bool }.

(** [msg.Decode] at the type of every packet; the pointers of a decoded list of
    transactions may be nil. *)
Class Decoder := {
  Decode_NewBlockHashes : bytes -> outcome (list (Hash * Z));
  Decode_NewBlock : bytes -> outcome (InBlock * Z);
  Decode_Transactions : bytes -> outcome (list (option Transaction));
  Decode_Hashes : bytes -> outcome (list Hash);
  Decode_GetBlockHeaders : bytes -> outcome (Z * HeadersQuery);
  Decode_BlockHeaders : bytes -> outcome (Z * list Header);
  Decode_Hashes66 : bytes -> outcome (Z * list Hash);
  Decode_BlockBodies : bytes -> outcome (Z * list BlockBody);
  Decode_NodeData : bytes -> outcome (Z * list bytes);
  Decode_Receipts : bytes -> outcome (Z * list (list InReceipt));
  Decode_PooledTransactions : bytes -> outcome (Z * list (option Transaction));
}.

(** What the handlers hand to [backend.Handle]. *)
Inductive Delivery :=
| DNewBlockHashes (l : list (Hash * Z))
| DNewBlock (b : InBlock) (TD received : Z)
| DTransactions (l : list (option Transaction))
| DNewPooledTransactionHashes (l : list Hash)
| DBlockHeaders (l : list Header)
| DBlockBodies (l : list BlockBody)
| DNodeData (l : list bytes)
| DReceipts (l : list (list InReceipt))
| DPooledTransactions (l : list (option Transaction)).

(** A message of the connection. *)
Record InMsg := { in_Code : Z; in_Size : Z; in_Time : Z; in_Payload : bytes }.

Definition softResponseLimit : Z := 2097152.
Definition estHeaderSize : Z := 500.
Definition maxHeadersServe : nat := 1024.
Definition maxBodiesServe : nat := 1024.
Definition maxNodeDataServe : nat := 1024.
Definition maxReceiptsServe : nat := 1024.
Definition maxMessageSize : Z := 10485760.

Section Handlers.
Context {Rnd : Randomness} {Bk : Backend} {Dec : Decoder}.
Context (pop_choice : gset Hash -> option Hash).
Context (Handle : Delivery -> StM Peer unit).

(** ** The header chain *)

(** [geth:core/headerchain.go] HeaderChain.GetHeaderByHash *)
Definition GetHeaderByHash (hash : Hash) : option loc :=
  number ← GetBlockNumber hash; GetHeader hash number.

(** [geth:core/headerchain.go] HeaderChain.GetHeaderByNumber *)
Definition GetHeaderByNumber (number : Z) : option loc :=
  let hash := ReadCanonicalHash number in
  if bool_decide (hash = zeroHash) then None else GetHeader hash number.

(** The loop of [GetAncestor]; every pass but the last uses up one of the
    [maxNonCanonical] steps.
    [geth:core/headerchain.go:436-456] HeaderChain.GetAncestor *)
Fixpoint ancestor_loop (hp : Heap) (maxNonCanonical : nat) (hash : Hash) (number ancestor : Z) :
    outcome (Hash * Z * nat) :=
  if ancestor =? 0 then mret (hash, number, maxNonCanonical)
  else if bool_decide (ReadCanonicalHash number = hash) then
    mret (ReadCanonicalHash (number -u ancestor), number -u ancestor, maxNonCanonical)
  else
    match maxNonCanonical with
    | O => mret (zeroHash, 0, O)
    | S rem =>
        match GetHeader hash number with
        | None => mret (zeroHash, 0, rem)
        | Some x =>
            header ← deref (headers hp !! x);
            ancestor_loop hp rem (ParentHash header) (number -u 1) (ancestor -u 1)
        end
    end.

(** [geth:core/headerchain.go] HeaderChain.GetAncestor *)
Definition GetAncestor (hp : Heap) (hash : Hash) (number ancestor : Z) (maxNonCanonical : nat) :
    outcome (Hash * Z * nat) :=
  if number <? ancestor then mret (zeroHash, 0, maxNonCanonical)
  else if ancestor =? 1 then
    match GetHeader hash number with
    | Some x => header ← deref (headers hp !! x); mret (ParentHash header, number -u 1, maxNonCanonical)
    | None => mret (zeroHash, 0, maxNonCanonical)
    end
  else ancestor_loop hp maxNonCanonical hash number ancestor.

(** ** Headers *)

(** Where the walk stands: origin hash and number, whether the first header is
    still to come, and the non-canonical steps left. *)
Record Walk := { w_Hash : Hash; w_Number : Z; w_first : bool; w_left : nat }.

(** The header of this pass; in the first pass by hash its number is filled in.
    [geth:eth/protocols/eth/handlers.go:55-73] answerGetBlockHeadersQuery *)
Definition next_origin (hp : Heap) (hashMode : bool) (w : Walk) : outcome (option loc * Walk) :=
  if hashMode then
    if w_first w then
      match GetHeaderByHash (w_Hash w) with
      | Some x =>
          h ← deref (headers hp !! x);
          n ← number_of h;
          mret (Some x, {| w_Hash := w_Hash w; w_Number := n; w_first := false; w_left := w_left w |})
      | None => mret (None, {| w_Hash := w_Hash w; w_Number := w_Number w; w_first := false; w_left := w_left w |})
      end
    else mret (GetHeader (w_Hash w) (w_Number w), w)
  else mret (GetHeaderByNumber (w_Number w), w).

(** Advancing; [None] is [unknown = true].
    [geth:eth/protocols/eth/handlers.go:77-122] answerGetBlockHeadersQuery *)
Definition advance (hp : Heap) (hashMode reverse : bool) (skip : Z) (origin : loc) (w : Walk) :
    outcome (option Walk) :=
  let move h n rem := {| w_Hash := h; w_Number := n; w_first := w_first w; w_left := rem |} in
  match hashMode, reverse with
  | true, true =>
      let ancestor := skip +u 1 in
      if ancestor =? 0 then mret None
      else
        '(h, n, rem) ← GetAncestor hp (w_Hash w) (w_Number w) ancestor (w_left w);
        if bool_decide (h = zeroHash) then mret None else mret (Some (move h n rem))
  | true, false =>
      hdr ← deref (headers hp !! origin);
      current ← number_of hdr;
      let next := current +u skip +u 1 in
      if next <=? current then mret None
      else
        match GetHeaderByNumber next with
        | Some x =>
            header ← deref (headers hp !! x);
            let nextHash := header_Hash header in
            '(expOldHash, _, rem) ← GetAncestor hp nextHash next (skip +u 1) (w_left w);
            if bool_decide (expOldHash = w_Hash w) then mret (Some (move nextHash next rem)) else mret None
        | None => mret None
        end
  | false, true =>
      if skip +u 1 <=? w_Number w then mret (Some (move (w_Hash w) (w_Number w -u (skip +u 1)) (w_left w)))
      else mret None
  | false, false => mret (Some (move (w_Hash w) (w_Number w +u (skip +u 1)) (w_left w)))
  end.

(** The loop: [lookups] is what is left of the lookups, [found] the headers so far.
    The size of the answer is its number of headers times [estHeaderSize].
    [geth:eth/protocols/eth/handlers.go:53-124] answerGetBlockHeadersQuery *)
Fixpoint headers_loop (hp : Heap) (hashMode reverse : bool) (amount skip : Z) (lookups : nat) (w : Walk)
    (found : list loc) : outcome (list loc) :=
  match lookups with
  | O => mret found
  | S rem =>
      if (Z.of_nat (length found) <? i64 amount) &&
         (estHeaderSize * Z.of_nat (length found) <? softResponseLimit) &&
         (length found <? maxHeadersServe)%nat
      then
        '(o, w') ← next_origin hp hashMode w;
        match o with
        | None => mret found
        | Some x =>
            next ← advance hp hashMode reverse skip x w';
            match next with
            | None => mret (found ++ [x])
            | Some w'' => headers_loop hp hashMode reverse amount skip rem w'' (found ++ [x])
            end
        end
      else mret found
  end.

(** [geth:eth/protocols/eth/handlers.go] answerGetBlockHeadersQuery *)
Definition answerGetBlockHeadersQuery (hp : Heap) (q : HeadersQuery) : outcome (list loc) :=
  let hashMode := negb (bool_decide (on_Hash (q_Origin q) = zeroHash)) in
  headers_loop hp hashMode (q_Reverse q) (q_Amount q) (q_Skip q) (2 * maxHeadersServe)
    {| w_Hash := on_Hash (q_Origin q); w_Number := on_Number (q_Origin q); w_first := true; w_left := 100 |} [].

(** ** Bodies, state and receipts *)

Definition blen (b : bytes) : Z := Z.of_nat (length b).

(** The loops over the requested hashes: [lookups] and [size] as in the code, [get]
    what is found for a hash. *)
Fixpoint serve_loop (maxServe : nat) (get : Hash -> option bytes) (lookups : nat) (size : Z) (found : list bytes)
    (query : list Hash) : list bytes :=
  match query with
  | [] => found
  | hash :: rest =>
      if (softResponseLimit <=? size) || (maxServe <=? length found)%nat || (2 * maxServe <=? lookups)%nat then found
      else
        match get hash with
        | Some data => serve_loop maxServe get (S lookups) (size + blen data) (found ++ [data]) rest
        | None => serve_loop maxServe get (S lookups) size found rest
        end
  end.

Definition nonempty (b : bytes) : option bytes := if (0 <? length b)%nat then Some b else None.

(** [geth:eth/protocols/eth/handlers.go] answerGetBlockBodiesQuery *)
Definition answerGetBlockBodiesQuery (query : list Hash) : list bytes :=
  serve_loop maxBodiesServe (fun hash => nonempty (GetBodyRLP hash)) 0 0 [] query.

(** [geth:eth/protocols/eth/handlers.go:177-190] answerGetNodeDataQuery *)
Definition node_data (hash : Hash) : option bytes :=
  if match StateBloom with Some contains => negb (contains hash) | None => false end then None
  else
    match TrieNode hash with
    | Ok (b :: entry) => Some (b :: entry)
    | _ =>
        match ContractCodeWithPrefix hash with
        | Ok entry => nonempty entry
        | _ => None
        end
    end.

(** [geth:eth/protocols/eth/handlers.go] answerGetNodeDataQuery *)
Definition answerGetNodeDataQuery (query : list Hash) : list bytes :=
  serve_loop maxNodeDataServe node_data 0 0 [] query.

(** [geth:eth/protocols/eth/handlers.go:216-229] answerGetReceiptsQuery *)
Definition block_receipts (hp : Heap) (hash : Hash) : option bytes :=
  let results := GetReceiptsByHash hash in
  let encoded := match encode_receipts results with Ok b => Some b | _ => None end in
  match results with
  | Some _ => encoded
  | None =>
      x ← GetHeaderByHash hash;
      header ← headers hp !! x;
      if bool_decide (ReceiptHash header = EmptyRootHash) then encoded else None
  end.

(** [geth:eth/protocols/eth/handlers.go] answerGetReceiptsQuery *)
Definition answerGetReceiptsQuery (hp : Heap) (query : list Hash) : list bytes :=
  serve_loop maxReceiptsServe (block_receipts hp) 0 0 [] query.

(** [geth:eth/protocols/eth/handlers.go] answerGetPooledTransactions *)
Fixpoint pooled_loop (hp : Heap) (size : Z) (found : list (Hash * bytes)) (query : list Hash) : list (Hash * bytes) :=
  match query with
  | [] => found
  | hash :: rest =>
      if softResponseLimit <=? size then found
      else
        match x ← TxPool_Get hash; txs hp !! x with
        | Some tx =>
            match encode_tx tx with
            | Ok encoded => pooled_loop hp (size + blen encoded) (found ++ [(hash, encoded)]) rest
            | _ => pooled_loop hp size found rest
            end
        | None => pooled_loop hp size found rest
        end
  end.

(** [geth:eth/protocols/eth/handlers.go] answerGetPooledTransactions *)
Definition answerGetPooledTransactions (hp : Heap) (query : list Hash) : list Hash * list bytes :=
  let found := pooled_loop hp 0 [] query in (found.*1, found.*2).

(** ** Handlers *)

Definition errDecode : error := "invalid message".
Definition errMsgTooLarge : error := "message too long".
Definition errInvalidMsgCode : error := "invalid message code".

Definition decoding {A} (m : outcome A) : StM Peer A := pure (wrap errDecode m).

(** [geth:eth/protocols/eth/handlers.go] handleGetBlockHeaders66 *)
Definition handleGetBlockHeaders66 (msg : InMsg) : StM Peer unit :=
  '(id, query) ← decoding (Decode_GetBlockHeaders (in_Payload msg));
  response ← askS (fun p => answerGetBlockHeadersQuery (heap p) query);
  ReplyBlockHeaders id response.

(** [geth:eth/protocols/eth/handlers.go] handleGetBlockBodies66 *)
Definition handleGetBlockBodies66 (msg : InMsg) : StM Peer unit :=
  '(id, query) ← decoding (Decode_Hashes66 (in_Payload msg));
  ReplyBlockBodiesRLP id (answerGetBlockBodiesQuery query).

(** [geth:eth/protocols/eth/handlers.go] handleGetNodeData66 *)
Definition handleGetNodeData66 (msg : InMsg) : StM Peer unit :=
  '(id, query) ← decoding (Decode_Hashes66 (in_Payload msg));
  ReplyNodeData id (answerGetNodeDataQuery query).

(** [geth:eth/protocols/eth/handlers.go] handleGetReceipts66 *)
Definition handleGetReceipts66 (msg : InMsg) : StM Peer unit :=
  '(id, query) ← decoding (Decode_Hashes66 (in_Payload msg));
  response ← getS (fun p => answerGetReceiptsQuery (heap p) query);
  ReplyReceiptsRLP id response.

(** [geth:eth/protocols/eth/handlers.go] handleGetPooledTransactions66 *)
Definition handleGetPooledTransactions66 (msg : InMsg) : StM Peer unit :=
  '(id, query) ← decoding (Decode_Hashes66 (in_Payload msg));
  response ← getS (fun p => answerGetPooledTransactions (heap p) query);
  ReplyPooledTransactionsRLP pop_choice id response.1 response.2.

(** [for ... { peer.markBlock(hash) }] and the same for transactions. *)
Fixpoint markEachBlock (l : list Hash) : StM Peer unit :=
  match l with
  | [] => mret tt
  | h :: rest => _ ← putS (markBlock pop_choice h); markEachBlock rest
  end.
Fixpoint markEachTransaction (l : list Hash) : StM Peer unit :=
  match l with
  | [] => mret tt
  | h :: rest => _ ← putS (markTransaction pop_choice h); markEachTransaction rest
  end.

(** [geth:eth/protocols/eth/handlers.go] handleNewBlockhashes *)
Definition handleNewBlockhashes (msg : InMsg) : StM Peer unit :=
  ann ← decoding (Decode_NewBlockHashes (in_Payload msg));
  _ ← markEachBlock ann.*1;
  Handle (DNewBlockHashes ann).

Definition BitLen (z : Z) : Z := if z =? 0 then 0 else Z.log2 (Z.abs z) + 1.

Definition bitlen_ok (bound : Z) (o : option Z) : bool :=
  match o with Some z => BitLen z <=? bound | None => true end.

(** [geth:core/types/block.go] Header.SanityCheck *)
Definition Header_SanityCheck (h : Header) : outcome unit :=
  _ ← ensure (match Number h with Some n => (0 <=? n) && (n <? two64) | None => true end) "too large block number";
  _ ← ensure (bitlen_ok 80 (Difficulty h)) "too large block difficulty";
  _ ← ensure (Z.of_nat (length (Extra h)) <=? 102400) "too large block extradata";
  ensure (bitlen_ok 256 (BaseFee h)) "too large base fee".

(** [geth:eth/protocols/eth/protocol.go] NewBlockPacket.sanityCheck *)
Definition sanityCheck (b : InBlock) (TD : Z) : outcome unit :=
  _ ← Header_SanityCheck (ib_header b);
  ensure (BitLen TD <=? 100) "too large block TD".

(** [geth:eth/protocols/eth/handlers.go] handleNewBlock *)
Definition handleNewBlock (msg : InMsg) : StM Peer unit :=
  '(b, TD) ← decoding (Decode_NewBlock (in_Payload msg));
  _ ← pure (sanityCheck b TD);
  if negb (bool_decide (CalcUncleHash (ib_uncles b) = UncleHash (ib_header b))) then mret tt
  else if negb (bool_decide (DeriveSha (ib_txs b) = TxHash (ib_header b))) then mret tt
  else
    _ ← putS (markBlock pop_choice (header_Hash (ib_header b)));
    Handle (DNewBlock b TD (in_Time msg)).

(** [geth:eth/protocols/eth/handlers.go] handleBlockHeaders66 *)
Definition handleBlockHeaders66 (msg : InMsg) : StM Peer unit :=
  res ← decoding (Decode_BlockHeaders (in_Payload msg)); Handle (DBlockHeaders res.2).

(** [geth:eth/protocols/eth/handlers.go] handleBlockBodies66 *)
Definition handleBlockBodies66 (msg : InMsg) : StM Peer unit :=
  res ← decoding (Decode_BlockBodies (in_Payload msg)); Handle (DBlockBodies res.2).

(** [geth:eth/protocols/eth/handlers.go] handleNodeData66 *)
Definition handleNodeData66 (msg : InMsg) : StM Peer unit :=
  res ← decoding (Decode_NodeData (in_Payload msg)); Handle (DNodeData res.2).

(** [geth:eth/protocols/eth/handlers.go] handleReceipts66 *)
Definition handleReceipts66 (msg : InMsg) : StM Peer unit :=
  res ← decoding (Decode_Receipts (in_Payload msg)); Handle (DReceipts res.2).

(** [geth:eth/protocols/eth/handlers.go] handleNewPooledTransactionHashes *)
Definition handleNewPooledTransactionHashes (msg : InMsg) : StM Peer unit :=
  if negb AcceptTxs then mret tt
  else
    ann ← decoding (Decode_Hashes (in_Payload msg));
    _ ← markEachTransaction ann;
    Handle (DNewPooledTransactionHashes ann).

(** A nil transaction ends the loop with an error; those before it stay marked.
    [geth:eth/protocols/eth/handlers.go:383-389] handleTransactions *)
Fixpoint markReceived (l : list (option Transaction)) : StM Peer unit :=
  match l with
  | [] => mret tt
  | None :: _ => pure (Err errDecode)
  | Some tx :: rest => _ ← putS (markTransaction pop_choice (tx_hash tx)); markReceived rest
  end.

(** [geth:eth/protocols/eth/handlers.go] handleTransactions *)
Definition handleTransactions (msg : InMsg) : StM Peer unit :=
  if negb AcceptTxs then mret tt
  else
    l ← decoding (Decode_Transactions (in_Payload msg));
    _ ← markReceived l;
    Handle (DTransactions l).

(** [geth:eth/protocols/eth/handlers.go] handlePooledTransactions66 *)
Definition handlePooledTransactions66 (msg : InMsg) : StM Peer unit :=
  if negb AcceptTxs then mret tt
  else
    res ← decoding (Decode_PooledTransactions (in_Payload msg));
    _ ← markReceived res.2;
    Handle (DPooledTransactions res.2).

(** [geth:eth/protocols/eth/handler.go:174-189] eth66 *)
Definition eth66 (code : Z) : option (InMsg -> StM Peer unit) :=
  if code =? NewBlockHashesMsg then Some handleNewBlockhashes
  else if code =? NewBlockMsg then Some handleNewBlock
  else if code =? TransactionsMsg then Some handleTransactions
  else if code =? NewPooledTransactionHashesMsg then Some handleNewPooledTransactionHashes
  else if code =? GetBlockHeadersMsg then Some handleGetBlockHeaders66
  else if code =? BlockHeadersMsg then Some handleBlockHeaders66
  else if code =? GetBlockBodiesMsg then Some handleGetBlockBodies66
  else if code =? BlockBodiesMsg then Some handleBlockBodies66
  else if code =? GetNodeDataMsg then Some handleGetNodeData66
  else if code =? NodeDataMsg then Some handleNodeData66
  else if code =? GetReceiptsMsg then Some handleGetReceipts66
  else if code =? ReceiptsMsg then Some handleReceipts66
  else if code =? GetPooledTransactionsMsg then Some handleGetPooledTransactions66
  else if code =? PooledTransactionsMsg then Some handlePooledTransactions66
  else None.

(** [read] is what [ReadMsg] gave.
    [geth:eth/protocols/eth/handler.go] handleMessage *)
Definition handleMessage (read : outcome InMsg) : StM Peer unit :=
  msg ← pure read;
  _ ← pure (ensure (in_Size msg <=? maxMessageSize) errMsgTooLarge);
  match eth66 (in_Code msg) with
  | Some handler => handler msg
  | None => pure (Err errInvalidMsgCode)
  end.

(** The messages of the connection in turn, until one fails.
    [geth:eth/protocols/eth/handler.go] Handle *)
Fixpoint HandleAll (reads : list (outcome InMsg)) : StM Peer unit :=
  match reads with
  | [] => mret tt
  | r :: rest => _ ← handleMessage r; HandleAll rest
  end.
End Handlers.
