(* ===== verification/EthHandlersSpec.v ===== *)
(** * What a peer is answered

    Properties of eth/protocols/eth/handlers.go and handler.go: queries for
    headers by number are an arithmetic progression cut at the limits, every
    answer respects the limits on its size, and the loop over the messages of a
    peer handles them up to the first error, without a panic and keeping the
    peer's invariant, if what takes the deliveries does (EthServe.v: the node
    does). *)

From S2P Require Import Prelude Randomness EthTypes GethFuzzer GethFuzzerSpec GethPeerSpec EthHandlers.

(** ** Headers by number *)

Section Headers.
Context {Bk : Backend}.

(** The number after [n], if the walk goes on. *)
Definition next_number (reverse : bool) (skip n : Z) : option Z :=
  if reverse then if skip +u 1 <=? n then Some (n -u (skip +u 1)) else None
  else Some (n +u (skip +u 1)).

(** The headers found walking from [n], at most [count] of them. *)
Fixpoint headers_from (reverse : bool) (skip : Z) (count : nat) (n : Z) : list loc :=
  match count with
  | O => []
  | S c =>
      match GetHeaderByNumber n with
      | None => []
      | Some x => x :: match next_number reverse skip n with Some m => headers_from reverse skip c m | None => [] end
      end
  end.

(** The number of headers asked for and allowed. *)
Definition count_limit (amount : Z) : nat := Z.to_nat (Z.min (i64 amount) (Z.of_nat maxHeadersServe)).

Lemma loop_guard amount (found : list loc) :
  (length found <= maxHeadersServe)%nat ->
  ((Z.of_nat (length found) <? i64 amount) &&
   (estHeaderSize * Z.of_nat (length found) <? softResponseLimit) && (length found <? maxHeadersServe)%nat) =
  (length found <? count_limit amount)%nat.
Proof.
  intros Hl. unfold count_limit, maxHeadersServe, estHeaderSize, softResponseLimit in *.
  apply eq_true_iff_eq. rewrite !andb_true_iff, !Z.ltb_lt, !Nat.ltb_lt. lia.
Qed.

Lemma count_limit_le amount : (count_limit amount <= maxHeadersServe)%nat.
Proof. unfold count_limit. lia. Qed.

Lemma headers_loop_number hp reverse amount skip lookups w found :
  (length found <= maxHeadersServe)%nat -> (maxHeadersServe <= length found + lookups)%nat ->
  headers_loop hp false reverse amount skip lookups w found =
  Ok (found ++ headers_from reverse skip (count_limit amount - length found) (w_Number w)).
Proof.
  revert w found. induction lookups as [|k IH]; intros w found Hf Hk; cbn [headers_loop].
  - pose proof (count_limit_le amount). replace (count_limit amount - length found)%nat with 0%nat by lia.
    by rewrite app_nil_r.
  - rewrite loop_guard by done. destruct (Nat.ltb_spec (length found) (count_limit amount)) as [Hlt|Hge].
    2:{ replace (count_limit amount - length found)%nat with 0%nat by lia. by rewrite app_nil_r. }
    pose proof (count_limit_le amount).
    replace (count_limit amount - length found)%nat with (S (count_limit amount - S (length found))) by lia.
    cbn [next_origin headers_from mbind outcome_bind]. cbn.
    destruct (GetHeaderByNumber (w_Number w)) as [x|]; [|by rewrite app_nil_r].
    assert (length (found ++ [x]) = S (length found)) as El by (rewrite length_app; cbn; lia).
    destruct reverse; cbn [advance next_number].
    + case_match; cbn; [|done]. rewrite IH by (rewrite El; lia). rewrite El. cbn. by rewrite <- app_assoc.
    + cbn. rewrite IH by (rewrite El; lia). rewrite El. cbn. by rewrite <- app_assoc.
Qed.

Lemma headers_from_length reverse skip count n : (length (headers_from reverse skip count n) <= count)%nat.
Proof.
  revert n. induction count as [|c IH]; intros n; cbn; [lia|]. case_match; cbn; [|lia].
  case_match; cbn; [|lia]. specialize (IH z). lia.
Qed.

(** The [i]-th number of the walk. *)
Definition walk_number (reverse : bool) (skip n : Z) (i : nat) : Z :=
  if reverse then n - Z.of_nat i * (skip +u 1) else u64 (n + Z.of_nat i * (skip + 1)).

Lemma headers_from_lookup reverse skip count n i x :
  is_u64 n -> headers_from reverse skip count n !! i = Some x ->
  GetHeaderByNumber (walk_number reverse skip n i) = Some x /\ (reverse = true -> 0 <= walk_number reverse skip n i).
Proof.
  revert n i. induction count as [|c IH]; intros n i Hn; [done|]. cbn.
  destruct (GetHeaderByNumber n) as [y|] eqn:Ey; [|done].
  destruct i as [|i]; cbn.
  - intros [= <-]. unfold walk_number. destruct reverse; [rewrite Z.sub_0_r|rewrite Z.add_0_r, u64_id by done]; [|done].
    split; [done|]. intros _. apply Hn.
  - unfold next_number, walk_number. destruct reverse.
    + destruct (Z.leb_spec (skip +u 1) n) as [Hle|]; [|done]. pose proof (u64_range (skip + 1)) as Hr.
      rewrite u64_sub_small; [|done|destruct Hn, Hr; lia]. intros H.
      apply IH in H; [|destruct Hn, Hr; split; lia]. unfold walk_number in H.
      replace (n - Z.of_nat (S i) * (skip +u 1)) with (n - (skip +u 1) - Z.of_nat i * (skip +u 1)) by lia. done.
    + intros H. apply IH in H as [H _]; [|apply u64_range]. unfold walk_number in H. split; [|done].
      rewrite <- H. f_equal. unfold u64. rewrite Zplus_mod_idemp_l.
      rewrite <- Z.add_assoc, (Z.add_comm (_ mod _)), Z.add_assoc, Zplus_mod_idemp_r. f_equal. lia.
Qed.

(** The answer to a query by number. *)
Lemma answer_by_number hp q :
  on_Hash (q_Origin q) = zeroHash ->
  answerGetBlockHeadersQuery hp q =
  Ok (headers_from (q_Reverse q) (q_Skip q) (count_limit (q_Amount q)) (on_Number (q_Origin q))).
Proof.
  intros Hz. unfold answerGetBlockHeadersQuery. rewrite Hz, bool_decide_true by done. cbn [negb].
  rewrite headers_loop_number by (cbn [length]; lia). cbn [app length w_Number]. by rewrite Nat.sub_0_r.
Qed.

(** C9. A query for headers by number is answered by an arithmetic progression of
    canonical headers: the loop with its five stopping conditions returns
    exactly the headers at [origin], [origin ± (skip+1)], ... up to the first
    that is missing or would lie below genesis, and at most the requested
    amount and 1024 of them. *)
Theorem headers_by_number hp q :
  on_Hash (q_Origin q) = zeroHash -> is_u64 (on_Number (q_Origin q)) ->
  exists l, answerGetBlockHeadersQuery hp q = Ok l /\
    l = headers_from (q_Reverse q) (q_Skip q) (count_limit (q_Amount q)) (on_Number (q_Origin q)) /\
    (length l <= count_limit (q_Amount q))%nat /\
    forall i x, l !! i = Some x ->
      GetHeaderByNumber (walk_number (q_Reverse q) (q_Skip q) (on_Number (q_Origin q)) i) = Some x.
Proof.
  intros Hz Hn. rewrite answer_by_number by done. eexists. split; [reflexivity|]. split; [done|]. split; [apply headers_from_length|].
  intros i x Hx. by eapply headers_from_lookup.
Qed.
End Headers.

(** ** Every query is answered *)

Section Answers.
Context {Bk : Backend}.

(** The headers the chain hands out exist and have a number. *)
Definition chain_ok (hp : Heap) : Prop :=
  forall h n x, GetHeader h n = Some x -> exists hd k, headers hp !! x = Some hd /\ Number hd = Some k.

(** A header object of the chain. *)
Definition chain_header (x : loc) : Prop := exists h n, GetHeader h n = Some x.

Lemma chain_header_deref hp x :
  chain_ok hp -> chain_header x -> exists hd k, headers hp !! x = Some hd /\ number_of hd = Ok k.
Proof.
  intros Hc (h & n & Hx). destruct (Hc _ _ _ Hx) as (hd & k & E & Hk). exists hd. eexists.
  split; [done|]. unfold number_of. by rewrite Hk.
Qed.

Lemma GetHeaderByHash_chain h x : GetHeaderByHash h = Some x -> chain_header x.
Proof. unfold GetHeaderByHash. destruct (GetBlockNumber h) as [n|]; [|done]. intros Hx. by exists h, n. Qed.

Lemma GetHeaderByNumber_chain n x : GetHeaderByNumber n = Some x -> chain_header x.
Proof. unfold GetHeaderByNumber. case_bool_decide; [done|]. intros Hx. by eexists _, _. Qed.

Lemma ancestor_loop_ok hp k h n a : chain_ok hp -> exists r, ancestor_loop hp k h n a = Ok r.
Proof.
  intros Hc. revert h n a. induction k as [|k IH]; intros h n a; cbn; repeat (case_match; [by eexists|]); [by eexists|].
  destruct (GetHeader h n) as [x|] eqn:E; [|by eexists].
  destruct (chain_header_deref hp x Hc) as (hd & m & -> & _); [by eexists _, _|]. apply IH.
Qed.

Lemma GetAncestor_ok hp h n a k : chain_ok hp -> exists r, GetAncestor hp h n a k = Ok r.
Proof.
  intros Hc. unfold GetAncestor. case_match; [by eexists|]. case_match; [|by apply ancestor_loop_ok].
  destruct (GetHeader h n) as [x|] eqn:E; [|by eexists].
  destruct (chain_header_deref hp x Hc) as (hd & m & -> & _); [by eexists _, _|]. by eexists.
Qed.

Lemma next_origin_ok hp hm w :
  chain_ok hp -> exists o w', next_origin hp hm w = Ok (o, w') /\ forall x, o = Some x -> chain_header x.
Proof.
  intros Hc. unfold next_origin. destruct hm.
  - destruct (w_first w).
    + destruct (GetHeaderByHash (w_Hash w)) as [x|] eqn:E; [|by eexists _, _].
      apply GetHeaderByHash_chain in E. destruct (chain_header_deref hp x Hc E) as (hd & k & -> & Hk). cbn.
      rewrite Hk. eexists _, _. split; [reflexivity|]. by intros ? [= <-].
    + eexists _, _. split; [reflexivity|]. intros x Hx. by eexists _, _.
  - eexists _, _. split; [reflexivity|]. apply GetHeaderByNumber_chain.
Qed.

Lemma advance_ok hp hm rev skip x w : chain_ok hp -> chain_header x -> exists r, advance hp hm rev skip x w = Ok r.
Proof.
  intros Hc Hx. unfold advance. destruct hm, rev.
  - case_match; [by eexists|]. edestruct GetAncestor_ok as [[[h n] k] E]; [done|]. rewrite E. cbn.
    case_match; by eexists.
  - destruct (chain_header_deref hp x Hc Hx) as (hd & k & -> & Hk). cbn. rewrite Hk. cbn. case_match; [by eexists|].
    destruct (GetHeaderByNumber _) as [y|] eqn:E; [|by eexists]. apply GetHeaderByNumber_chain in E.
    destruct (chain_header_deref hp y Hc E) as (hd' & k' & -> & _). cbn.
    edestruct GetAncestor_ok as [[[h n] m] E']; [done|]. rewrite E'. cbn. case_match; by eexists.
  - case_match; by eexists.
  - by eexists.
Qed.

Lemma headers_loop_ok hp hm rev amount skip lookups w found :
  chain_ok hp -> Forall chain_header found -> (length found <= count_limit amount)%nat ->
  exists l, headers_loop hp hm rev amount skip lookups w found = Ok l /\ Forall chain_header l /\
    (length l <= count_limit amount)%nat.
Proof.
  intros Hc. pose proof (count_limit_le amount) as Hm. revert w found.
  induction lookups as [|k IH]; intros w found Hf Hl; cbn [headers_loop]; [by eexists|].
  rewrite loop_guard by lia. destruct (Nat.ltb_spec (length found) (count_limit amount)) as [Hlt|Hge]; [|by eexists].
  destruct (next_origin_ok hp hm w Hc) as (o & w' & -> & Ho). cbn.
  destruct o as [x|]; [|by eexists]. specialize (Ho x eq_refl).
  destruct (advance_ok hp hm rev skip x w' Hc Ho) as [r ->]. cbn.
  assert (Forall chain_header (found ++ [x])) as Hf' by (apply Forall_app; by repeat constructor).
  assert (length (found ++ [x]) <= count_limit amount)%nat as Hl' by (rewrite length_app; cbn; lia).
  destruct r as [w''|]; [by apply IH|by eexists].
Qed.

Lemma answer_headers_ok hp q :
  chain_ok hp -> exists l, answerGetBlockHeadersQuery hp q = Ok l /\ Forall chain_header l /\
    (length l <= count_limit (q_Amount q))%nat.
Proof. intros Hc. apply headers_loop_ok; [done|constructor|cbn; lia]. Qed.

(** ** Limits on the other answers *)

Definition total (l : list bytes) : Z := foldr (fun b acc => blen b + acc) 0 l.

Lemma total_app l k : total (l ++ k) = total l + total k.
Proof. induction l as [|b l IH]; cbn; [done|]. unfold total in *. cbn. lia. Qed.

(** The limits every list of answers keeps: all but the last item fit the soft
    limit, and there are at most [maxServe]. *)
Definition within_limits (maxServe : nat) (l : list bytes) : Prop :=
  (length l <= maxServe)%nat /\ forall init last, l = init ++ [last] -> total init < softResponseLimit.

Lemma serve_loop_spec maxServe get lookups found query :
  within_limits maxServe found ->
  exists n, serve_loop maxServe get lookups (total found) found query = found ++ omap get (take n query) /\
    within_limits maxServe (found ++ omap get (take n query)).
Proof.
  revert lookups found. induction query as [|h query IH]; intros lookups found Hf; cbn [serve_loop].
  { exists 0%nat. by rewrite app_nil_r. }
  destruct (_ || _ || _) eqn:Eg; [exists 0%nat; by rewrite app_nil_r|].
  apply orb_false_iff in Eg as [[Eg1 Eg2]%orb_false_iff Eg3].
  destruct (get h) as [d|] eqn:Eh.
  - assert (within_limits maxServe (found ++ [d])) as Hd.
    { split; [rewrite length_app; apply Nat.leb_gt in Eg2; cbn; lia|]. intros init last [-> _]%app_inj_tail. lia. }
    replace (total found + blen d) with (total (found ++ [d])) by (rewrite total_app; cbn; lia).
    destruct (IH (S lookups) _ Hd) as (n & E & Hw). exists (S n). rewrite E. cbn. rewrite Eh. by rewrite <- app_assoc in *.
  - destruct (IH (S lookups) _ Hf) as (n & E & Hw). exists (S n). cbn. by rewrite Eh.
Qed.

Lemma within_limits_nil maxServe : within_limits maxServe [].
Proof. split; [cbn; lia|]. by intros [|??] ? ?. Qed.

(** C38. Answers stay within the limits: whatever is asked for, the headers are at
    most the amount requested and 1024; bodies, state entries and receipts are
    what is found for a prefix of the requested hashes, in order, at most 1024
    of them and all but the last within the soft limit of two megabytes. *)
Theorem answers_within_limits hp q query :
  chain_ok hp ->
  (exists l, answerGetBlockHeadersQuery hp q = Ok l /\ Forall chain_header l /\
     (length l <= count_limit (q_Amount q))%nat /\ (length l <= maxHeadersServe)%nat) /\
  (exists n, answerGetBlockBodiesQuery query = omap (fun h => nonempty (GetBodyRLP h)) (take n query) /\
     within_limits maxBodiesServe (answerGetBlockBodiesQuery query)) /\
  (exists n, answerGetNodeDataQuery query = omap node_data (take n query) /\
     within_limits maxNodeDataServe (answerGetNodeDataQuery query)) /\
  (exists n, answerGetReceiptsQuery hp query = omap (block_receipts hp) (take n query) /\
     within_limits maxReceiptsServe (answerGetReceiptsQuery hp query)).
Proof.
  intros Hc. split.
  { destruct (answer_headers_ok hp q Hc) as (l & E & Hl & Hn). exists l. split_and!; try done.
    pose proof (count_limit_le (q_Amount q)). lia. }
  assert (forall m get, exists n, serve_loop m get 0 0 [] query = omap get (take n query) /\
            within_limits m (serve_loop m get 0 0 [] query)) as H.
  { intros m get. destruct (serve_loop_spec m get 0 [] query (within_limits_nil m)) as (n & E & Hw).
    exists n. cbn [total foldr] in E. rewrite E. by split. }
  split_and!; apply H.
Qed.
End Answers.

(** ** No message breaks the node *)

(** Decoding reports malformed input as an error, at least up to the size of a
    message. *)
Definition no_panic {A} (decode : bytes -> outcome A) : Prop :=
  forall b e, blen b <= maxMessageSize -> decode b <> Panic e.

Class DecoderOk `{!Decoder} : Prop := {
  NewBlockHashes_no_panic : no_panic Decode_NewBlockHashes;
  NewBlock_no_panic : no_panic Decode_NewBlock;
  Transactions_no_panic : no_panic Decode_Transactions;
  Hashes_no_panic : no_panic Decode_Hashes;
  GetBlockHeaders_no_panic : no_panic Decode_GetBlockHeaders;
  BlockHeaders_no_panic : no_panic Decode_BlockHeaders;
  Hashes66_no_panic : no_panic Decode_Hashes66;
  BlockBodies_no_panic : no_panic Decode_BlockBodies;
  NodeData_no_panic : no_panic Decode_NodeData;
  Receipts_no_panic : no_panic Decode_Receipts;
  PooledTransactions_no_panic : no_panic Decode_PooledTransactions;
}.

(** A decoded header has its numbers: the decoder fills in the pointers of a
    structure. *)
Definition numbered (h : Header) : Prop := is_Some (Number h) /\ is_Some (Difficulty h).

Definition body_filled (x : BlockBody) : Prop := Forall is_Some (bb_Transactions x) /\ Forall numbered (bb_Uncles x).

Class DecoderFills `{!Decoder} : Prop := {
  NewBlock_fills b blk t : Decode_NewBlock b = Ok (blk, t) -> numbered (ib_header blk);
  BlockHeaders_fills b id l : Decode_BlockHeaders b = Ok (id, l) -> Forall numbered l;
  BlockBodies_fills b id l : Decode_BlockBodies b = Ok (id, l) -> Forall body_filled l;
}.

(** What comes out of the decoders and the checks of the handlers: headers with
    numbers, and no nil transactions where the handlers look. *)
Definition delivery_ok (d : Delivery) : Prop :=
  match d with
  | DNewBlock b _ _ => numbered (ib_header b)
  | DBlockHeaders l => Forall numbered l
  | DBlockBodies l => Forall body_filled l
  | DTransactions l | DPooledTransactions l => Forall is_Some l
  | _ => True
  end.

(** What the connection delivers: a message with as many bytes as it announces, or
    an error. *)
Definition delivered (r : outcome InMsg) : Prop :=
  match r with
  | Ok msg => in_Size msg = blen (in_Payload msg)
  | Err _ => True
  | Panic _ => False
  end.

Section Messages.
Context {Rnd : Randomness} {RndOk : RandomnessOk} {Bk : Backend} {Dec : Decoder} {DecOk : DecoderOk} {DecFills : DecoderFills}.
Context (pop_choice : gset Hash -> option Hash).
Context (pop_ok : forall s, s <> ∅ -> exists x, pop_choice s = Some x /\ x ∈ s).
Context (Handle : Delivery -> StM Peer unit).

Definition node_inv (p : Peer) : Prop := peer_inv p /\ chain_ok (heap p).

Definition node_safe {A} (c : StM Peer A) (p : Peer) : Prop :=
  node_inv (c p).2 /\ forall e, (c p).1 <> Panic e.

(** What the node does with what it is handed keeps the invariant of the peer, and a
    transaction of the pool takes at least 64 bytes. *)
Context (Handle_safe : forall d p, delivery_ok d -> node_inv p -> node_safe (Handle d) p).
Context (tx_min : forall tx b, encode_tx tx = Ok b -> 64 <= blen b).

Lemma safe_ret {A} (a : A) p : node_inv p -> node_safe (mret a) p.
Proof. by split. Qed.

Lemma safe_err {A} e p : node_inv p -> node_safe (pure (Err e) : StM Peer A) p.
Proof. by split. Qed.

Lemma safe_decoding {A B} (m : outcome A) (k : A -> StM Peer B) p :
  node_inv p -> (forall e, m <> Panic e) -> (forall a, m = Ok a -> node_safe (k a) p) -> node_safe (decoding m ≫= k) p.
Proof.
  intros Hp Hm Hk. unfold node_safe, mbind, StM_bind, decoding, pure, wrap.
  destruct m as [a|e|e]; [by apply Hk|by split|by destruct (Hm e)].
Qed.

Lemma safe_pure {B} (m : outcome unit) (k : unit -> StM Peer B) p :
  node_inv p -> (forall e, m <> Panic e) -> node_safe (k tt) p -> node_safe (pure m ≫= k) p.
Proof.
  intros Hp Hm Hk. unfold node_safe, mbind, StM_bind, pure. destruct m as [[]|e|e]; [done|by split|by destruct (Hm e)].
Qed.

Lemma safe_put_then {B} f (k : unit -> StM Peer B) p : node_safe (k tt) (f p) -> node_safe (putS f ≫= k) p.
Proof. done. Qed.

Lemma safe_bind {A B} (c : StM Peer A) (k : A -> StM Peer B) p :
  node_safe c p -> (forall a q, c p = (Ok a, q) -> node_inv q -> node_safe (k a) q) -> node_safe (c ≫= k) p.
Proof.
  intros [H1 H2] Hk. unfold node_safe, mbind, StM_bind. destruct (c p) as [[a|e|e] q]; cbn in *;
    [by apply Hk|by split|by destruct (H2 e)].
Qed.

Lemma safe_reply o p : op_ok (heap p) o -> is_fuzz o = false -> node_inv p -> node_safe (run_op pop_choice o) p.
Proof.
  intros Ho Hf [Hp Hc]. destruct (safe_op pop_choice pop_ok o p Ho Hp) as [H1 H2]. split; [|done].
  split; [done|]. destruct (seed_sent_op pop_choice o p Ho Hf) as [-> _]. done.
Qed.

Lemma inv_mark_block h p : node_inv p -> node_inv (markBlock pop_choice h p).
Proof. intros [Hp Hc]. split; [by apply inv_markBlock|done]. Qed.

Lemma inv_mark_tx h p : node_inv p -> node_inv (markTransaction pop_choice h p).
Proof. intros [Hp Hc]. split; [by apply inv_markTransaction|done]. Qed.

Lemma safe_mark_blocks l p : node_inv p -> node_safe (markEachBlock pop_choice l) p.
Proof.
  revert p. induction l as [|h l IH]; intros p Hp; [by apply safe_ret|]. by apply safe_put_then, IH, inv_mark_block.
Qed.

Lemma safe_mark_txs l p : node_inv p -> node_safe (markEachTransaction pop_choice l) p.
Proof.
  revert p. induction l as [|h l IH]; intros p Hp; [by apply safe_ret|]. by apply safe_put_then, IH, inv_mark_tx.
Qed.

Lemma safe_mark_received l p : node_inv p -> node_safe (markReceived pop_choice l) p.
Proof.
  revert p. induction l as [|[tx|] l IH]; intros p Hp; [by apply safe_ret| |by apply safe_err].
  by apply safe_put_then, IH, inv_mark_tx.
Qed.

(** Only a list without nil is passed on. *)
Lemma mark_received_some l p q : markReceived pop_choice l p = (Ok tt, q) -> Forall is_Some l.
Proof.
  revert p. induction l as [|[tx|] l IH]; intros p E; [done| |done]. constructor; [by eexists|]. exact (IH _ E).
Qed.

(** The answer to a request for pooled transactions fits the known set. *)
Lemma pooled_loop_bound hp size found query :
  64 * Z.of_nat (length found) <= size -> 64 * Z.of_nat (length found) <= softResponseLimit ->
  64 * Z.of_nat (length (pooled_loop hp size found query)) <= softResponseLimit.
Proof.
  revert size found. induction query as [|h query IH]; intros size found Hs Hf; [done|]. cbn [pooled_loop].
  destruct (Z.leb_spec softResponseLimit size) as [|Hlt]; [done|].
  destruct (x ← TxPool_Get h; txs hp !! x) as [tx|]; [|by apply IH].
  destruct (encode_tx tx) as [b| |] eqn:E; [|by apply IH..]. apply tx_min in E.
  apply IH; rewrite length_app; cbn; unfold softResponseLimit in *; lia.
Qed.

Lemma sanityCheck_no_panic b t e : sanityCheck b t <> Panic e.
Proof. unfold sanityCheck, Header_SanityCheck, ensure. repeat case_match; done. Qed.

Lemma safe_GetBlockHeaders msg p : blen (in_Payload msg) <= maxMessageSize -> node_inv p -> node_safe (handleGetBlockHeaders66 msg) p.
Proof.
  intros Hb Hp. apply safe_decoding; [done|intros e; by apply GetBlockHeaders_no_panic|]. intros [id q] _.
  destruct (answer_headers_ok (heap p) q (proj2 Hp)) as (l & E & Hl & _).
  unfold node_safe, mbind, StM_bind, askS. rewrite E.
  apply (safe_reply (OpReplyBlockHeaders id l)); [|done..]. intros x Hx. rewrite Forall_forall in Hl.
  destruct (chain_header_deref (heap p) x (proj2 Hp) (Hl x Hx)) as (hd & k & -> & _). by eexists.
Qed.

Lemma safe_GetPooledTransactions msg p : blen (in_Payload msg) <= maxMessageSize -> node_inv p -> node_safe (handleGetPooledTransactions66 pop_choice msg) p.
Proof.
  intros Hb Hp. apply safe_decoding; [done|intros e; by apply Hashes66_no_panic|]. intros [id q] _.
  unfold node_safe, mbind, StM_bind, getS.
  apply (safe_reply (OpReplyPooledTransactions id (answerGetPooledTransactions (heap p) q).1
                       (answerGetPooledTransactions (heap p) q).2)); [|done..].
  cbn. pose proof (pooled_loop_bound (heap p) 0 [] q) as Hl. cbn in Hl. rewrite length_fmap.
  unfold maxKnownTxs, softResponseLimit in *. lia.
Qed.

Lemma safe_NewBlock msg p : blen (in_Payload msg) <= maxMessageSize -> node_inv p -> node_safe (handleNewBlock pop_choice Handle msg) p.
Proof.
  intros Hb Hp. apply safe_decoding; [done|intros e; by apply NewBlock_no_panic|]. intros [b t] Ed.
  apply safe_pure; [done|apply sanityCheck_no_panic|]. repeat (case_match; [by apply safe_ret|]).
  apply safe_put_then, Handle_safe; [by eapply NewBlock_fills|by apply inv_mark_block].
Qed.

(** A response is decoded and delivered. *)
Lemma safe_deliver {A} (m : outcome A) (d : A -> Delivery) p :
  node_inv p -> (forall e, m <> Panic e) -> (forall a, m = Ok a -> delivery_ok (d a)) ->
  node_safe (a ← decoding m; Handle (d a)) p.
Proof. intros Hp Hm Hd. apply safe_decoding; [done..|]. intros a Ha. by apply Handle_safe; [apply Hd|]. Qed.

(** Announcements are marked first, if transactions are wanted at all. *)
Lemma safe_marked {A} (accept : bool) (m : outcome A) (mark : A -> StM Peer unit) (d : A -> Delivery) p :
  node_inv p -> (forall e, m <> Panic e) -> (forall a q, node_inv q -> node_safe (mark a) q) ->
  (forall a q q', mark a q = (Ok tt, q') -> delivery_ok (d a)) ->
  node_safe (if negb accept then mret tt else a ← decoding m; _ ← mark a; Handle (d a)) p.
Proof.
  intros Hp Hm Hk Hd. destruct accept; [|by apply safe_ret]. apply safe_decoding; [done..|]. intros a _.
  apply safe_bind; [by apply Hk|]. intros [] q Hq Hi. apply Handle_safe; [by eapply Hd|done].
Qed.

Lemma safe_handler code h msg p :
  blen (in_Payload msg) <= maxMessageSize -> eth66 pop_choice Handle code = Some h -> node_inv p -> node_safe (h msg) p.
Proof.
  intros Hb E Hp. unfold eth66 in E.
  repeat (case_match; [injection E as <-; clear -Hb Hp pop_ok Handle_safe tx_min DecOk DecFills RndOk|]); [..|done].
  - apply (safe_marked true _ (fun a => markEachBlock pop_choice a.*1) DNewBlockHashes); [done|intros e; by apply NewBlockHashes_no_panic| |done].
    intros. by apply safe_mark_blocks.
  - by apply safe_NewBlock.
  - apply (safe_marked AcceptTxs _ (markReceived pop_choice) DTransactions); [done|intros e; by apply Transactions_no_panic| |].
    + intros. by apply safe_mark_received.
    + intros a q q'. apply mark_received_some.
  - apply (safe_marked AcceptTxs _ (markEachTransaction pop_choice) DNewPooledTransactionHashes);
      [done|intros e; by apply Hashes_no_panic| |done]. intros. by apply safe_mark_txs.
  - by apply safe_GetBlockHeaders.
  - apply safe_deliver; [done|intros e; by apply BlockHeaders_no_panic|]. intros [id l]. apply BlockHeaders_fills.
  - apply safe_decoding; [done|intros e; by apply Hashes66_no_panic|]. intros [id q] _.
    by apply (safe_reply (OpReplyBlockBodies id (answerGetBlockBodiesQuery q))).
  - apply safe_deliver; [done|intros e; by apply BlockBodies_no_panic|]. intros [id l]. apply BlockBodies_fills.
  - apply safe_decoding; [done|intros e; by apply Hashes66_no_panic|]. intros [id q] _.
    by apply (safe_reply (OpReplyNodeData id (answerGetNodeDataQuery q))).
  - apply safe_deliver; [done|intros e; by apply NodeData_no_panic|done].
  - apply safe_decoding; [done|intros e; by apply Hashes66_no_panic|]. intros [id q] _. unfold node_safe, mbind, StM_bind, getS.
    by apply (safe_reply (OpReplyReceipts id (answerGetReceiptsQuery (heap p) q))).
  - apply safe_deliver; [done|intros e; by apply Receipts_no_panic|done].
  - by apply safe_GetPooledTransactions.
  - apply (safe_marked AcceptTxs _ (fun a => markReceived pop_choice a.2) (fun a => DPooledTransactions a.2));
      [done|intros e; by apply PooledTransactions_no_panic| |].
    + intros. by apply safe_mark_received.
    + intros a q q'. apply mark_received_some.
Qed.

Lemma safe_handleMessage read p :
  node_inv p -> delivered read -> node_safe (handleMessage pop_choice Handle read) p.
Proof.
  intros Hp Hr. destruct read as [msg|e|e]; [|by split|done]. cbn in Hr.
  change (node_safe (pure (ensure (in_Size msg <=? maxMessageSize) errMsgTooLarge) ≫= fun _ =>
    match eth66 pop_choice Handle (in_Code msg) with Some handler => handler msg | None => pure (Err errInvalidMsgCode) end) p).
  destruct (Z.leb_spec (in_Size msg) maxMessageSize) as [Hb|Hb]; [|by split].
  apply safe_pure; [done..|]. destruct (eth66 pop_choice Handle (in_Code msg)) as [h|] eqn:E; [|by apply safe_err].
  eapply safe_handler; [by rewrite <- Hr|done..].
Qed.

(** Messages that were handled one after the other without an error. *)
Inductive handled : list (outcome InMsg) -> Peer -> Peer -> Prop :=
| handled_none p : handled [] p p
| handled_one r reads p p1 q :
    handleMessage pop_choice Handle r p = (Ok tt, p1) -> handled reads p1 q -> handled (r :: reads) p q.

(** The loop handles every message, or those before the first that fails; it ends
    with that error and nothing behind it is read. *)
Lemma HandleAll_until_error reads p :
  node_inv p -> Forall delivered reads ->
  node_inv (HandleAll pop_choice Handle reads p).2 /\
  exists pre rest p1, reads = pre ++ rest /\ handled pre p p1 /\
    ((rest = [] /\ HandleAll pop_choice Handle reads p = (Ok tt, p1)) \/
     exists r post e q, rest = r :: post /\ handleMessage pop_choice Handle r p1 = (Err e, q) /\
       HandleAll pop_choice Handle reads p = (Err e, q)).
Proof.
  intros Hp Hr. revert p Hp. induction Hr as [|r reads Hr _ IH]; intros p Hp.
  { split; [done|]. exists [], [], p. split_and!; [done|constructor|by left]. }
  cbn [HandleAll]. destruct (safe_handleMessage r p Hp Hr) as [Hi Hn].
  unfold mbind, StM_bind. destruct (handleMessage pop_choice Handle r p) as [[[]|e|e] p1] eqn:E; cbn in Hi, Hn.
  - destruct (IH p1 Hi) as (Hq & pre & rest & p2 & -> & Hh & Ho). split; [done|].
    exists (r :: pre), rest, p2. split_and!; [done|by econstructor|done].
  - split; [done|]. exists [], (r :: reads), p. split_and!; [done|constructor|]. right. by exists r, reads, e, p1.
  - by destruct (Hn e).
Qed.
End Messages.

(** ** A node that answers *)

Module HandlersExample.
Import StreamRandom PeerExample.

Definition hash_at (n : Z) : Hash := [to_byte (n + 1)].

(** Ten canonical blocks; the header of block n is at location n + 1. *)
#[local] Instance ten_blocks : Backend := {|
  ReadCanonicalHash n := if (0 <=? n) && (n <? 10) then hash_at n else zeroHash;
  GetHeader h n :=
    if (0 <=? n) && (n <? 10) && bool_decide (h = hash_at n) then Some (Z.to_pos (n + 1)) else None;
  GetBlockNumber h := match h with [b] => Some (byte_val b - 1) | _ => None end;
  header_Hash h := h1;
  GetBodyRLP h := h;
  StateBloom := None;
  TrieNode h := Err "not found";
  ContractCodeWithPrefix h := Ok h;
  GetReceiptsByHash h := None;
  encode_receipts _ := Ok [];
  TxPool_Get h := Some 1%positive;
  encode_tx tx := Ok (replicate 64 Byte.x00);
  AcceptTxs := true;
  EmptyRootHash := zeroHash;
  CalcUncleHash _ := h1;
  DeriveSha _ := h1;
|}.

(** Every payload is a request for three headers upwards from block 2, in steps of
    two, or malformed as anything else. *)
Definition query : HeadersQuery :=
  {| q_Origin := {| on_Hash := zeroHash; on_Number := 2 |}; q_Amount := 3; q_Skip := 1; q_Reverse := false |}.

#[local] Instance header_requests : Decoder := {|
  Decode_NewBlockHashes _ := Err "malformed";
  Decode_NewBlock _ := Err "malformed";
  Decode_Transactions _ := Err "malformed";
  Decode_Hashes _ := Err "malformed";
  Decode_GetBlockHeaders _ := Ok (7, query);
  Decode_BlockHeaders _ := Err "malformed";
  Decode_Hashes66 _ := Err "malformed";
  Decode_BlockBodies _ := Err "malformed";
  Decode_NodeData _ := Err "malformed";
  Decode_Receipts _ := Err "malformed";
  Decode_PooledTransactions _ := Err "malformed";
|}.

#[local] Instance header_requests_ok : DecoderOk.
Proof. by split. Qed.

#[local] Instance header_requests_fill : DecoderFills.
Proof. by split. Qed.

Definition header_n (n : Z) : Header := fuzzed_header hdr [] (Some 2) (Some n) 8000000 0 1000 [].

Definition chain_heap : Heap := {|
  headers := list_to_map ((fun n : nat => (Pos.of_succ_nat n, header_n (Z.of_nat n))) <$> seq 0 10);
  txs := {[ 1%positive := tx1 ]}; blocks := ∅ |}.
Definition p2 : Peer := set_heap chain_heap p0.

Lemma chain_heap_ok : chain_ok chain_heap.
Proof.
  intros h n x. cbn [GetHeader ten_blocks]. intros H.
  assert (0 <= n < 10) as Hn by (destruct (0 <=? n) eqn:E1, (n <? 10) eqn:E2; try done; lia).
  assert (x = Z.to_pos (n + 1)) as -> by (repeat case_match; by simplify_eq). clear H.
  rewrite <- (Z2Nat.id n) by lia. assert (Z.to_nat n < 10)%nat as Hk by lia. revert Hk. generalize (Z.to_nat n) as k.
  intros k Hk. do 10 (destruct k as [|k]; [eexists _, _; split; [vm_compute; reflexivity|reflexivity]|]). lia.
Qed.

Lemma p2_inv : node_inv p2.
Proof.
  split; [|apply chain_heap_ok]. destruct p0_inv. split; try done. intros c m Hm. by apply elem_of_nil in Hm.
Qed.

Definition drop_delivery (d : Delivery) : StM Peer unit := mret tt.

Lemma headers_by_number_witness :
  answerGetBlockHeadersQuery chain_heap query = Ok [3%positive; 5%positive; 7%positive].
Proof.
  destruct (headers_by_number chain_heap query eq_refl ltac:(unfold is_u64, two64; cbn; lia)) as (l & -> & -> & _).
  vm_compute. reflexivity.
Defined.

Lemma answers_within_limits_witness : within_limits maxBodiesServe (answerGetBlockBodiesQuery [h1; []; h1]).
Proof.
  destruct (answers_within_limits chain_heap query [h1; []; h1] chain_heap_ok) as (_ & (n & _ & H) & _). exact H.
Defined.

Definition request (code : Z) : outcome InMsg := Ok {| in_Code := code; in_Size := 0; in_Time := 0; in_Payload := [] |}.

(** Two requests are answered with the request's id; the unknown code ends it. *)
Example two_answers :
  (Kind ∘ packet <$> wire (HandleAll pop drop_delivery [request 3; request 3; request 99] p2).2) = [4; 4] /\
  (HandleAll pop drop_delivery [request 3; request 3; request 99] p2).1 = Err errInvalidMsgCode.
Proof. split; vm_compute; reflexivity. Qed.
End HandlersExample.
