(* ===== verification/EthHandshake.v ===== *)
(** * The Ethereum handshake

    eth/protocols/eth/handshake.go, with the call of it in eth/handler.go and the
    decoding of a message in p2p/message.go: two nodes exchange status messages
    and go on only if they are on the same network and chain.

    Sending and reading run as two goroutines that report on one channel: the
    order of their reports is an argument, and the handshake times out when the
    reports end before both have come.  A status is encoded and decoded as in
    Rlp.v and RlpStream.v, at the Go type of the packet. *)

From S2P Require Import Prelude BigEndian Rlp RlpSpec RlpStream RlpStreamSpec RlpDecoderSpec EthTypes ForkId.
From S2P Require Import Randomness GethFuzzer GethFuzzerSpec GethPeerSpec EthHandlers.

(** ** Status messages *)

(** The difficulty is a pointer.
    [geth:eth/protocols/eth/protocol.go:87-94] StatusPacket *)
Record Status := {
  ProtocolVersion : Z;
  NetworkID : Z;
  TD : option Z;
  st_Head : Hash;
  Genesis : Hash;
  ForkID : ID;
}.

(** The Go types of the packet and of the fork identifier in it. *)
Definition fork_type : rtype := TStruct [TByteArray 4; TUint 64] [].
Definition status_type : rtype :=
  TStruct [TUint 32; TUint 64; TBigPtr; TByteArray 32; TByteArray 32; fork_type] [].

(** [&StatusPacket{...}] as the encoder sees it. *)
Definition status_value (s : Status) : rval :=
  RPtr (nil_encoding None status_type)
    (Some (RStruct [RUint (ProtocolVersion s); RUint (NetworkID s); RBigPtr (TD s); RByteArray (st_Head s);
                    RByteArray (Genesis s); RStruct [RByteArray (id_Hash (ForkID s)); RUint (id_Next (ForkID s))] []] [])).

(** The packet a decoded value is. *)
Definition status_of_value (v : rval) : option Status :=
  match v with
  | RPtr _ (Some (RStruct [RUint ver; RUint net; RBigPtr t; RByteArray hd; RByteArray gen;
                           RStruct [RByteArray fh; RUint fn] []] [])) =>
      Some {| ProtocolVersion := ver; NetworkID := net; TD := t; st_Head := hd; Genesis := gen;
              ForkID := {| id_Hash := fh; id_Next := fn |} |}
  | _ => None
  end.

(** The packet on the wire; a nil difficulty is written as zero. *)
Definition status_packet (s : Status) : Packet :=
  StatusPacket (ProtocolVersion s) (NetworkID s) (default 0 (TD s)) (st_Head s) (Genesis s)
    (id_Hash (ForkID s)) (id_Next (ForkID s)).

(** ** Messages *)

Definition errInvalidMsg : error := "invalid message".

(** The payload of a message is a reader of its own kind, so its length is not
    discovered.
    [geth:p2p/message.go] Msg.Decode *)
Definition Msg_Decode (t : rtype) (msg : InMsg) : outcome rval :=
  match (Stream_Decode t (NewStream false (in_Payload msg) (in_Size msg))).1 with
  | Err _ => Err errInvalidMsg
  | res => res
  end.

(** What the other node reads of a value that was sent.
    [geth:p2p/message.go] Send *)
Definition transmit (code : Z) (now : Z) (v : rval) : outcome InMsg :=
  payload ← EncodeToBytes v;
  mret {| in_Code := code; in_Size := Z.of_nat (length payload) mod 4294967296; in_Time := now; in_Payload := payload |}.

(** ** The handshake *)

Definition errNoStatusMsg : error := "no status message".
Definition errProtocolVersionMismatch : error := "protocol version mismatch".
Definition errNetworkIDMismatch : error := "network ID mismatch".
Definition errGenesisMismatch : error := "genesis mismatch".
Definition errForkIDRejected : error := "fork ID rejected".
Definition DiscReadTimeout : error := "read timeout".

(** What the reading goroutine finds; [status] is decoded through a pointer to the
    pointer, which must not be nil.
    [geth:eth/protocols/eth/handshake.go] Peer.readStatus *)
Definition readStatus (version network : Z) (genesis : Hash) (forkFilter : ID -> outcome unit)
    (read : outcome InMsg) : outcome Status :=
  msg ← read;
  _ ← ensure (in_Code msg =? StatusMsg) errNoStatusMsg;
  _ ← ensure (in_Size msg <=? maxMessageSize) errMsgTooLarge;
  v ← Prelude.wrap errDecode (Msg_Decode (TPtr None status_type) msg);
  status ← deref (status_of_value v);
  _ ← ensure (NetworkID status =? network) errNetworkIDMismatch;
  _ ← ensure (ProtocolVersion status =? version) errProtocolVersionMismatch;
  _ ← ensure (bool_decide (Genesis status = genesis)) errGenesisMismatch;
  _ ← Prelude.wrap errForkIDRejected (forkFilter (ForkID status));
  mret status.

(** The reports of the two goroutines: the status was written, or the connection
    failed; a message was read. *)
Inductive Report := Sent (failure : option error) | Received.

Definition is_sent (e : Report) : bool := match e with Sent _ => true | Received => false end.

Section Handshake.
Context {Rnd : Randomness}.

(** [p2p.Send(p.rw, StatusMsg, ...)]: the status does not become a seed. *)
Definition send_status (own : Status) (failure : option error) : StM Peer unit :=
  match failure with
  | Some err => pure (Err err)
  | None => Send StatusMsg (status_packet own)
  end.

(** Receiving two reports.
    [geth:eth/protocols/eth/handshake.go:56-67] Peer.Handshake *)
Fixpoint await (n : nat) (own : Status) (read : outcome Status) (status : option Status) (reports : list Report) :
    StM Peer (option Status) :=
  match n with
  | O => mret status
  | S m =>
      match reports with
      | [] => pure (Err DiscReadTimeout)
      | Sent failure :: rest => _ ← send_status own failure; await m own read status rest
      | Received :: rest => st ← pure read; await m own read (Some st) rest
      end
  end.

(** [p.td.BitLen()]; the method panics at nil. *)
Definition td_BitLen (t : option Z) : outcome Z := t ← deref t; mret (BitLen t).

(** [version] is the field of the peer.
    [geth:eth/protocols/eth/handshake.go] Peer.Handshake *)
Definition Handshake (version network : Z) (td : option Z) (head genesis : Hash) (forkID : ID)
    (forkFilter : ID -> outcome unit) (read : outcome InMsg) (reports : list Report) : StM Peer unit :=
  let own := {| ProtocolVersion := version mod 4294967296; NetworkID := network; TD := td; st_Head := head;
                Genesis := genesis; ForkID := forkID |} in
  st ← await 2 own (readStatus version network genesis forkFilter read) None reports;
  status ← pure (deref st);
  _ ← putS (set_head (st_Head status) (default 0 (TD status)));
  tdlen ← pure (td_BitLen (TD status));
  pure (ensure (tdlen <=? 100) "too large total difficulty").

(** What the node reads of its chain for a handshake. *)
Record Chain := {
  ch_chain : Blockchain;
  ch_Hash : Header -> Hash;
  ch_GetTd : Hash -> Z -> option Z;
}.

(** The rest of the function is the node's registration of the peer.
    [geth:eth/handler.go:252-263] handler.runEthPeer *)
Definition runEthPeer_handshake (c : Chain) (version networkID : Z) (read : outcome InMsg) (reports : list Report) :
    StM Peer unit :=
  let genesis := bc_GenesisHash (ch_chain c) in
  let head := bc_CurrentHeader (ch_chain c) in
  let hash := ch_Hash c head in
  number ← pure (number_of head);
  let td := ch_GetTd c hash number in
  forkID ← pure (NewIDWithChain (ch_chain c));
  Handshake version networkID td hash genesis forkID (NewFilter (ch_chain c)) read reports.
End Handshake.

(** ** The bytes of a status *)

(** The fields are within their Go types, and there is a difficulty. *)
Record status_ok (s : Status) : Prop := {
  so_version : 0 <= ProtocolVersion s < 4294967296;
  so_network : is_u64 (NetworkID s);
  so_td : exists t, TD s = Some t /\ 0 <= t;
  so_head : length (st_Head s) = 32%nat;
  so_genesis : length (Genesis s) = 32%nat;
  so_hash : length (id_Hash (ForkID s)) = 4%nat;
  so_next : is_u64 (id_Next (ForkID s));
}.

Abbreviation packet_type := (TPtr None status_type).

Lemma status_typed s : status_ok s -> typed packet_type (status_value s).
Proof.
  intros [Hv Hn (t & Et & Ht) Hh Hg Hfh Hfn]. unfold is_u64, two64 in *. cbn. rewrite Et.
  split; [done|]. split; [|done]. repeat (constructor; try done); lia.
Qed.

Lemma status_of_status_value s : status_of_value (status_value s) = Some s.
Proof. by destruct s as [? ? ? ? ? []]. Qed.

(** The encodings of the packet's type are those of statuses within their types. *)
Lemma encodes_status v c :
  encodes packet_type v c <-> exists s, v = status_value s /\ status_ok s /\ rlp_val v = Ok c.
Proof.
  split.
  - intros H. pose proof (encodes_rlp_val packet_type eq_refl v c H) as Ec.
    cbn in H. destruct H as (w & -> & vs & os & p & q & -> & Hf & [-> ->] & ->).
    repeat (destruct vs as [|? vs]; [by naive_solver|]).
    destruct Hf as (b1 & ? & _ & (ver & -> & Hv & _) & b2 & ? & _ & (net & -> & Hn & _) & b3 & ? & _ & (t & -> & Ht & _) & Hf).
    destruct Hf as (b4 & ? & _ & (hd & -> & Hh & _) & b5 & ? & _ & (gen & -> & Hg & _) & b6 & ? & _ & Hk & Hf).
    destruct vs; [|done].
    destruct Hk as (ws & os & ? & ? & -> & Hk & [-> ->] & _).
    repeat (destruct ws as [|? ws]; [by naive_solver|]).
    destruct Hk as (b7 & ? & _ & (fh & -> & Hfh & _) & b8 & ? & _ & (fn & -> & Hfn & _) & Hk). destruct ws; [|done].
    exists {| ProtocolVersion := ver; NetworkID := net; TD := Some t; st_Head := hd; Genesis := gen;
              ForkID := {| id_Hash := fh; id_Next := fn |} |}.
    split_and!; [done| |done]. by split; cbn; eauto.
  - intros (s & -> & Hs & Hr). destruct (typed_encodes packet_type _ (status_typed s Hs)) as (b & Eb & HR).
    rewrite Hr in Eb. by injection Eb as ->.
Qed.

(** *** A status is short *)

Lemma hdr_at_most_9 small large n : Z.of_nat n < two64 -> (length (hdr small large n) <= 9)%nat.
Proof.
  intros Hn. unfold hdr. destruct (Z.of_nat n <? 56); [cbn; lia|]. cbn [length].
  pose proof (length_be_bytes_le 8 (Z.of_nat n)) as H. change (256 ^ Z.of_nat 8) with two64 in H. lia.
Qed.

Lemma rlp_str_short b : Z.of_nat (length b) < two64 -> (length (rlp_str b) <= 9 + length b)%nat.
Proof.
  intros Hb. pose proof (hdr_at_most_9 128 183 (length b) Hb). unfold rlp_str.
  destruct b as [|x [|y b]]; [rewrite length_app; lia| |rewrite length_app; lia].
  destruct (byte_val x <? 128); [cbn; lia|]. rewrite length_app. cbn [length] in *. lia.
Qed.

Lemma rlp_list_short b : Z.of_nat (length b) < two64 -> (length (rlp_list b) <= 9 + length b)%nat.
Proof. intros Hb. pose proof (hdr_at_most_9 192 247 (length b) Hb). unfold rlp_list. rewrite length_app. lia. Qed.

Lemma rlp_int_short i k : 0 <= i < 256 ^ Z.of_nat k -> (k <= 32)%nat -> (length (rlp_str (be_bytes i)) <= 41)%nat.
Proof.
  intros Hi Hk. pose proof (length_be_bytes_le k i Hi). pose proof (rlp_str_short (be_bytes i)). unfold two64 in *. lia.
Qed.

Lemma BitLen_small t : 0 <= t -> BitLen t <= 100 -> t < 256 ^ Z.of_nat 13.
Proof.
  intros Ht Hb. unfold BitLen in Hb. destruct (Z.eqb_spec t 0) as [->|]; [done|]. rewrite Z.abs_eq in Hb by done.
  assert (t < 2 ^ 100) by (apply Z.log2_lt_pow2; lia). assert (2 ^ 100 <= 256 ^ Z.of_nat 13) by (vm_compute; discriminate). lia.
Qed.

Lemma status_short s t :
  status_ok s -> TD s = Some t -> BitLen t <= 100 ->
  exists c, rlp_val (status_value s) = Ok c /\ Z.of_nat (length c) <= 512.
Proof.
  intros Hs Et Hbits. destruct (Hs) as [Hv Hn (t' & Et' & Ht) Hh Hg Hfh Hfn]. rewrite Et in Et'. injection Et' as <-.
  destruct (typed_encodes packet_type _ (status_typed s Hs)) as (c & Ec & _). exists c. split; [done|]. cbn in Ec.
  rewrite Et in Ec. unfold rlp_big in Ec. rewrite (proj2 (Z.ltb_ge t 0)) in Ec by done. cbn in Ec. injection Ec as <-.
  pose proof (rlp_int_short (ProtocolVersion s) 4 Hv ltac:(lia)).
  pose proof (rlp_int_short (NetworkID s) 8 Hn ltac:(lia)).
  pose proof (rlp_int_short t 13 ltac:(split; [done|by apply BitLen_small]) ltac:(lia)).
  pose proof (rlp_int_short (id_Next (ForkID s)) 8 Hfn ltac:(lia)).
  pose proof (rlp_str_short (st_Head s)). pose proof (rlp_str_short (Genesis s)). pose proof (rlp_str_short (id_Hash (ForkID s))).
  match goal with |- context [rlp_list (?a ++ ?b ++ ?c ++ ?d ++ ?e ++ rlp_list ?f ++ [])] =>
    pose proof (rlp_list_short f); pose proof (rlp_list_short (a ++ b ++ c ++ d ++ e ++ rlp_list f ++ [])) end.
  rewrite !length_app in *. cbn [length] in *. unfold two64 in *. lia.
Qed.

(** *** Reading a status *)

Lemma Msg_Decode_Ok t msg v :
  Msg_Decode t msg = Ok v <-> (Stream_Decode t (NewStream false (in_Payload msg) (in_Size msg))).1 = Ok v.
Proof. unfold Msg_Decode. by destruct (Stream_Decode _ _).1. Qed.

(** A message that begins with the encoding of a status; the reader of the payload
    delivers as many bytes as the message says. *)
Definition begins_with (msg : InMsg) (s : Status) : Prop :=
  status_ok s /\ exists c rest, rlp_val (status_value s) = Ok c /\ in_Payload msg = c ++ rest.

Lemma Msg_Decode_status msg v :
  in_Size msg = blen (in_Payload msg) -> in_Size msg <= maxMessageSize ->
  Msg_Decode packet_type msg = Ok v <-> exists s, v = status_value s /\ begins_with msg s.
Proof.
  intros Hn Hmax. rewrite Msg_Decode_Ok, Hn. unfold blen in *. destruct (in_Payload msg) as [|x b] eqn:Eb.
  - split; [done|]. intros (s & -> & Hs & c & rest & Hc & E). rewrite Eb in E. symmetry in E. apply app_nil in E as [-> _].
    assert (encodes packet_type (status_value s) []) as (w & _ & ? & ? & ? & ? & _ & _ & _ & H) by (apply encodes_status; eauto).
    pose proof (is_value_length _ (rlp_list_value (x1 ++ x2))) as Hl. rewrite <- H in Hl. cbn in Hl. lia.
  - rewrite <- Eb in *. rewrite Stream_Decode_front;
      [|done|done|rewrite Eb; cbn; lia|unfold maxMessageSize, maxInt64 in *; lia].
    unfold begins_with. setoid_rewrite encodes_status. naive_solver.
Qed.

(** What makes a status acceptable. *)
Definition acceptable (version network : Z) (genesis : Hash) (forkFilter : ID -> outcome unit) (s : Status) : Prop :=
  NetworkID s = network /\ ProtocolVersion s = version /\ Genesis s = genesis /\ forkFilter (ForkID s) = Ok tt.

Lemma readStatus_spec version network genesis forkFilter msg s :
  in_Size msg = blen (in_Payload msg) ->
  readStatus version network genesis forkFilter (Ok msg) = Ok s <->
  in_Code msg = StatusMsg /\ in_Size msg <= maxMessageSize /\ begins_with msg s /\
  acceptable version network genesis forkFilter s.
Proof.
  intros Hn. unfold readStatus, acceptable. split.
  - intros H. inv_ok. apply Z.eqb_eq in E0, E4, E5. apply Z.leb_le in E1. apply bool_decide_eq_true in E6.
    apply Msg_Decode_status in E2 as (s' & -> & Hb); [|done..]. rewrite status_of_status_value in E3. injection E3 as ->.
    destruct v7. by split_and!.
  - intros (Hc & Hm & Hb & H1 & H2 & H3 & H4). apply bind_Ok. exists msg. split; [done|].
    apply bind_Ok. exists tt. split; [by apply ensure_Ok, Z.eqb_eq|].
    apply bind_Ok. exists tt. split; [by apply ensure_Ok, Z.leb_le|].
    apply bind_Ok. exists (status_value s). split; [apply Prelude.wrap_Ok, Msg_Decode_status; by eauto|].
    apply bind_Ok. exists s. split; [by rewrite status_of_status_value|].
    apply bind_Ok. exists tt. split; [by apply ensure_Ok, Z.eqb_eq|].
    apply bind_Ok. exists tt. split; [by apply ensure_Ok, Z.eqb_eq|].
    apply bind_Ok. exists tt. split; [by apply ensure_Ok, bool_decide_eq_true|].
    apply bind_Ok. exists tt. split; [by apply Prelude.wrap_Ok|done].
Qed.

(** ** The handshake decides *)

Section HandshakeSpec.
Context {Rnd : Randomness}.

Definition status_msg (own : Status) : Msg :=
  {| Code := StatusMsg; packet := status_packet own; m_headers := []; m_txs := []; m_blocks := [] |}.

Lemma send_status_eq own p :
  exists o, send_status own None p = (o, if 0 <=? default 0 (TD own) then set_wire (wire p ++ [status_msg own]) p else p) /\
    (o = Ok tt <-> 0 <= default 0 (TD own)) /\ forall e, o <> Panic e.
Proof.
  unfold send_status, Send, mbind, StM_bind, askS, pure, putS. cbn. unfold encodable, ensure. cbn.
  destruct (Z.leb_spec 0 (default 0 (TD own))); cbn; eexists; (split_and!; [reflexivity|split; done || lia|done]).
Qed.

Lemma send_status_ok own p :
  0 <= default 0 (TD own) -> send_status own None p = (Ok tt, set_wire (wire p ++ [status_msg own]) p).
Proof.
  intros H. destruct (send_status_eq own p) as (o & -> & Ho & _). by rewrite (proj2 Ho H), (proj2 (Z.leb_le _ _) H).
Qed.

(** What the node announces of itself. *)
Definition own_status (version network : Z) (td : option Z) (head genesis : Hash) (forkID : ID) : Status :=
  {| ProtocolVersion := version mod 4294967296; NetworkID := network; TD := td; st_Head := head; Genesis := genesis;
     ForkID := forkID |}.

Lemma two_reports (l : list Report) :
  NoDup (is_sent <$> l) ->
  l = [] \/ (exists f, l = [Sent f]) \/ l = [Received] \/ (exists f, l = [Sent f; Received] \/ l = [Received; Sent f]).
Proof.
  destruct l as [|[f|] [|[g|] [|[h|] l]]]; cbn; try (intros H; rewrite !NoDup_cons in H; set_solver); eauto 10.
Qed.

Section Run.
Context (version network : Z) (td0 : option Z) (head0 genesis : Hash) (forkID : ID) (forkFilter : ID -> outcome unit).

Abbreviation own := (own_status version network td0 head0 genesis forkID).
Abbreviation run read reports := (Handshake version network td0 head0 genesis forkID forkFilter read reports).

(** The message is an acceptable status of difficulty [t], and everything else
    went well. *)
Record agrees_on (msg : InMsg) (reports : list Report) (s : Status) (t : Z) : Prop := {
  ao_code : in_Code msg = StatusMsg;
  ao_size : in_Size msg <= maxMessageSize;
  ao_begins : begins_with msg s;
  ao_accept : acceptable version network genesis forkFilter s;
  ao_td : TD s = Some t;
  ao_bits : BitLen t <= 100;
  ao_own : 0 <= default 0 td0;
  ao_reports : Permutation reports [Sent None; Received];
}.

Definition after (s : Status) (t : Z) (p : Peer) : Peer :=
  set_head (st_Head s) t (set_wire (wire p ++ [status_msg own]) p).

(** With a status from the reader, what the rest of the function does. *)
Lemma run_two reports s p :
  reports = [Sent None; Received] \/ reports = [Received; Sent None] ->
  forall m, readStatus version network genesis forkFilter m = Ok s -> 0 <= default 0 td0 ->
  run m reports p =
  (_ ← pure (td_BitLen (TD s)) ≫= (fun n => pure (ensure (n <=? 100) "too large total difficulty")); mret tt)
    (after s (default 0 (TD s)) p).
Proof.
  intros Hr m Hm Htd. unfold Handshake. fold (own_status version network td0 head0 genesis forkID). rewrite Hm.
  pose proof (send_status_ok own p Htd) as E. unfold after.
  destruct Hr as [-> | ->]; cbn [await]; unfold mbind, StM_bind; cbn [pure mret StM_ret]; rewrite E; cbn.
  all: unfold mret, StM_ret, pure, putS; destruct (td_BitLen (TD s)) as [n|e|e]; try done; cbn; by destruct (n <=? 100).
Qed.

Lemma handshake_accepts msg reports s t p :
  in_Size msg = blen (in_Payload msg) -> agrees_on msg reports s t -> run (Ok msg) reports p = (Ok tt, after s t p).
Proof.
  intros Hn [Hc Hs Hb Ha Ht Hbits Hown Hr].
  rewrite (run_two reports s p).
  - rewrite Ht. cbn. unfold mbind, StM_bind, pure. cbn. by rewrite (proj2 (Z.leb_le _ _) Hbits).
  - apply Permutation_length_2_inv. by symmetry.
  - by apply readStatus_spec.
  - done.
Qed.

Lemma handshake_only msg reports p :
  in_Size msg = blen (in_Payload msg) -> NoDup (is_sent <$> reports) ->
  (run (Ok msg) reports p).1 = Ok tt -> exists s t, agrees_on msg reports s t.
Proof.
  intros Hn HN Hrun.
  assert (exists s, readStatus version network genesis forkFilter (Ok msg) = Ok s /\ 0 <= default 0 td0 /\
                    (reports = [Sent None; Received] \/ reports = [Received; Sent None])) as (s & Hs & Htd & Hr).
  { revert Hrun. unfold Handshake. fold (own_status version network td0 head0 genesis forkID).
    destruct (send_status_eq own p) as (o & E & Ho & _). cbn in Ho.
    destruct (two_reports reports HN) as [->|[[f ->]|[->|[f [->| ->]]]]]; cbn [await]; [done|..].
    all: unfold mbind, StM_bind; cbn [pure].
    - destruct f; [done|]. rewrite E. by destruct o.
    - by destruct (readStatus _ _ _ _ _).
    - destruct f; [done|]. rewrite E. destruct o as [[]| |]; [|done..].
      destruct (readStatus _ _ _ _ _) as [s| |]; [|done..]. intros _. exists s. tauto.
    - destruct (readStatus _ _ _ _ _) as [s| |]; [|done..]. destruct f; [done|]. rewrite E.
      destruct o as [[]| |]; [|done..]. intros _. exists s. tauto. }
  rewrite (run_two reports s p Hr _ Hs Htd) in Hrun. apply readStatus_spec in Hs as (H1 & H2 & H3 & H4); [|done].
  pose proof (proj1 H3) as Hok. destruct (so_td _ Hok) as (t & Et & _). exists s, t. split; try done.
  - rewrite Et in Hrun. cbn in Hrun. unfold mbind, StM_bind, pure in Hrun. cbn in Hrun. destruct (Z.leb_spec (BitLen t) 100); [done|].
    done.
  - destruct Hr as [-> | ->]; [done|]. constructor.
Qed.

(** *** No panic *)

Lemma bind_no_panic {A B} (m : outcome A) (f : A -> outcome B) :
  (forall e, m <> Panic e) -> (forall a, m = Ok a -> forall e, f a <> Panic e) -> forall e, (m ≫= f) <> Panic e.
Proof. intros Hm Hf e. destruct m as [a|x|x]; cbn; [by apply Hf|done|by intros [= ->]; apply (Hm e)]. Qed.

Lemma Msg_Decode_no_panic msg e :
  in_Size msg = blen (in_Payload msg) -> in_Size msg <= maxMessageSize -> Msg_Decode packet_type msg <> Panic e.
Proof.
  intros Hn Hm. unfold Msg_Decode. rewrite Hn. unfold blen in *. destruct (in_Payload msg) as [|x b] eqn:Eb; [done|].
  rewrite <- Eb in *. pose proof (Stream_Decode_no_panic false packet_type (in_Payload msg) e eq_refl eq_refl) as H.
  destruct (Stream_Decode _ _).1 as [v|e'|e']; [done..|]. intros [= ->].
  apply H; [rewrite Eb; cbn; lia|unfold maxMessageSize, maxInt64 in *; lia|done].
Qed.

Lemma readStatus_no_panic msg e :
  (forall id x, forkFilter id <> Panic x) -> in_Size msg = blen (in_Payload msg) ->
  readStatus version network genesis forkFilter (Ok msg) <> Panic e.
Proof.
  intros Hf Hn. unfold readStatus. revert e. apply bind_no_panic; [done|]. intros m [= <-].
  apply bind_no_panic; [by unfold ensure; case_match|]. intros _ _.
  apply bind_no_panic; [by unfold ensure; case_match|]. intros [] Hm. apply ensure_Ok, Z.leb_le in Hm.
  apply bind_no_panic.
  { intros e. pose proof (Msg_Decode_no_panic msg e Hn Hm). destruct (Msg_Decode _ _); [done..|]. cbn. congruence. }
  intros v Hv. apply Prelude.wrap_Ok, Msg_Decode_status in Hv as (s & -> & _); [|done..]. rewrite status_of_status_value.
  apply bind_no_panic; [done|]. intros s' _.
  do 3 (apply bind_no_panic; [by unfold ensure; case_match|]; intros _ _).
  apply bind_no_panic; [|done]. intros e. pose proof (Hf (ForkID s') e). destruct (forkFilter _); [done..|]. cbn. congruence.
Qed.

Lemma handshake_no_panic msg reports p e :
  (forall id x, forkFilter id <> Panic x) -> in_Size msg = blen (in_Payload msg) -> NoDup (is_sent <$> reports) ->
  (run (Ok msg) reports p).1 <> Panic e.
Proof.
  intros Hf Hn HN. pose proof (fun e => readStatus_no_panic msg e Hf Hn) as Hrd.
  assert (forall s, readStatus version network genesis forkFilter (Ok msg) = Ok s -> exists t, TD s = Some t) as Htd.
  { intros s Hs. apply readStatus_spec in Hs as (_ & _ & [Hs _] & _); [|done]. destruct (so_td _ Hs) as (t & ? & _). by exists t. }
  unfold Handshake. fold (own_status version network td0 head0 genesis forkID).
  destruct (send_status_eq own p) as (o & E & Ho & Hno).
  destruct (two_reports reports HN) as [->|[[f ->]|[->|[f [->| ->]]]]]; cbn [await]; unfold mbind, StM_bind; cbn [pure]; try done.
  - destruct f; [done|]. rewrite E. destruct o; [done..|]. cbn. by intros [= ->]; apply (Hno e).
  - destruct (readStatus _ _ _ _ _) as [s|x|x]; [done..|]. cbn. intros [= ->]. by apply (Hrd e).
  - destruct f; [done|]. rewrite E. destruct o as [[]|x|x]; [|done|by cbn; intros [= ->]; apply (Hno e)].
    destruct (readStatus _ _ _ _ _) as [s|x|x]; [|done|cbn; intros [= ->]; by apply (Hrd e)].
    destruct (Htd s eq_refl) as [t Et]. cbn. rewrite Et. cbn. by destruct (BitLen t <=? 100).
  - destruct (readStatus _ _ _ _ _) as [s|x|x]; [|done|cbn; intros [= ->]; by apply (Hrd e)].
    destruct f; [done|]. rewrite E. destruct o as [[]|x|x]; [|done|by cbn; intros [= ->]; apply (Hno e)].
    destruct (Htd s eq_refl) as [t Et]. cbn. rewrite Et. cbn. by destruct (BitLen t <=? 100).
Qed.

(** C30. The handshake succeeds exactly when it should: whatever the connected node
    sent and in whichever order the two goroutines report, it returns without an
    error if and only if both reports came, the own status could be encoded and
    the message read begins with the RLP encoding of a status of the same
    network, version and genesis whose fork identifier the filter accepts and
    whose difficulty has at most 100 bits; head and difficulty of the peer are
    then those of the status, and the own status is what was written.  No
    message makes it panic. *)
Theorem handshake_decides msg reports p :
  in_Size msg = blen (in_Payload msg) -> NoDup (is_sent <$> reports) ->
  (forall s t, agrees_on msg reports s t -> run (Ok msg) reports p = (Ok tt, after s t p)) /\
  ((run (Ok msg) reports p).1 = Ok tt -> exists s t, agrees_on msg reports s t) /\
  ((forall id x, forkFilter id <> Panic x) -> forall e, (run (Ok msg) reports p).1 <> Panic e).
Proof.
  intros Hn HN. split_and!; [intros; by apply handshake_accepts|by apply handshake_only|].
  intros Hf e. by apply handshake_no_panic.
Qed.
End Run.
End HandshakeSpec.

(** ** Two nodes of one chain *)

Section TwoNodes.
Context {Rnd : Randomness}.

(** What a node announces of its chain, with the number of its head. *)
Definition announcement (c : Chain) (version network n : Z) : Status :=
  let hash := ch_Hash c (bc_CurrentHeader (ch_chain c)) in
  own_status version network (ch_GetTd c hash n) hash (bc_GenesisHash (ch_chain c))
    (NewID (bc_Config (ch_chain c)) (bc_GenesisHash (ch_chain c)) n).

(** A chain of the configuration and genesis block, at head number [n] with
    difficulty [t]. *)
Record on_chain (cfg : ChainConfig) (genesis : Hash) (c : Chain) (n t : Z) : Prop := {
  oc_config : bc_Config (ch_chain c) = cfg;
  oc_genesis : bc_GenesisHash (ch_chain c) = genesis;
  oc_number : number_of (bc_CurrentHeader (ch_chain c)) = Ok n;
  oc_below : n < MaxUint64;
  oc_hash : length (ch_Hash c (bc_CurrentHeader (ch_chain c))) = 32%nat;
  oc_td : ch_GetTd c (ch_Hash c (bc_CurrentHeader (ch_chain c))) n = Some t;
  oc_pos : 0 <= t;
  oc_bits : BitLen t <= 100;
}.

Lemma next_fork_u64 cfg genesis n : is_u64 (id_Next (NewID cfg genesis n)).
Proof.
  rewrite NewID_eq. cbn. destruct (gatherForks cfg !! _) as [f|] eqn:E; [|by split].
  apply list_elem_of_lookup_2, (proj2 (gatherForks_spec cfg)) in E as (_ & r & _ & ->). apply u64_range.
Qed.

Lemma fork_hash_length cfg genesis n : length (id_Hash (NewID cfg genesis n)) = 4%nat.
Proof. rewrite NewID_eq. done. Qed.

Lemma announcement_ok cfg genesis c n t version network :
  on_chain cfg genesis c n t -> 0 <= version < 4294967296 -> is_u64 network -> length genesis = 32%nat ->
  status_ok (announcement c version network n) /\ TD (announcement c version network n) = Some t.
Proof.
  intros [<- <- Hn Hb Hh Ht Hp Hbits] Hv Hnet Hg. split; [|done].
  split; cbn; [by rewrite Z.mod_small|done|by eauto|done..|apply fork_hash_length|apply next_fork_u64].
Qed.

Lemma runEthPeer_eq cfg genesis c n t version network read reports p :
  on_chain cfg genesis c n t ->
  runEthPeer_handshake c version network read reports p =
  Handshake version network (Some t) (ch_Hash c (bc_CurrentHeader (ch_chain c))) genesis (NewID cfg genesis n)
    (newFilter cfg genesis n) read reports p.
Proof.
  intros [<- <- Hn Hb Hh Ht Hp Hbits]. unfold runEthPeer_handshake, NewIDWithChain. rewrite Hn.
  unfold mbind at 1, StM_bind at 1. cbn [pure]. rewrite Ht. unfold mbind at 1, StM_bind at 1. cbn [pure mbind outcome_bind].
  cbn. unfold Handshake. f_equal. unfold NewFilter. rewrite Hn. done.
Qed.

Lemma transmit_status s t now :
  status_ok s -> TD s = Some t -> BitLen t <= 100 ->
  exists msg, transmit StatusMsg now (status_value s) = Ok msg /\
    in_Code msg = StatusMsg /\ in_Size msg = blen (in_Payload msg) /\ in_Size msg <= maxMessageSize /\ begins_with msg s.
Proof.
  intros Hs Et Hb. destruct (status_short s t Hs Et Hb) as (c & Ec & Hl).
  assert (EncodeToBytes (status_value s) = Ok c) as Eb.
  { apply (EncodeToBytes_encodes packet_type); [done| |done|unfold maxInt64; lia]. apply encodes_status. by exists s. }
  unfold transmit. rewrite Eb. eexists. split; [reflexivity|]. cbn. unfold blen, maxMessageSize.
  rewrite Z.mod_small by lia. split_and!; [done..|lia|]. split; [done|]. exists c, []. by rewrite app_nil_r.
Qed.

(** C23. Two nodes of one chain complete the handshake: whatever their heads, below
    the last uint64 and with a total difficulty of at most 100 bits, if both are
    on the configuration and genesis block and their fork checksums do not
    collide, the status one node encodes and sends is accepted by the other, in
    either order of sending and reading, and leaves it with the head and the
    difficulty of the first.  This composes the fork identifier, the encoder,
    the stream decoder and the checks of the handshake. *)
Theorem same_chain_handshake cfg genesis a b na nb ta tb version network now reports p :
  on_chain cfg genesis a na ta -> on_chain cfg genesis b nb tb -> length genesis = 32%nat ->
  NoDup (fork_sums (crc32_ChecksumIEEE genesis) (gatherForks cfg)) ->
  0 <= version < 4294967296 -> is_u64 network -> Permutation reports [Sent None; Received] ->
  exists msg, transmit StatusMsg now (status_value (announcement b version network nb)) = Ok msg /\
    runEthPeer_handshake a version network (Ok msg) reports p =
    (Ok tt, set_head (ch_Hash b (bc_CurrentHeader (ch_chain b))) tb
              (set_wire (wire p ++ [status_msg (announcement a version network na)]) p)).
Proof.
  intros Ha Hb Hg HN Hv Hnet Hr.
  destruct (announcement_ok cfg genesis b nb tb version network Hb Hv Hnet Hg) as [Hok Htd].
  destruct (transmit_status _ tb now Hok Htd (oc_bits _ _ _ _ _ Hb)) as (msg & E & Hc & Hn & Hm & Hbeg).
  exists msg. split; [done|]. rewrite (runEthPeer_eq cfg genesis a na ta) by done.
  rewrite (handshake_accepts version network (Some ta) _ genesis _ _ msg reports (announcement b version network nb) tb p Hn).
  - unfold after, announcement. destruct Ha as [<- <- _ _ _ -> _ _]. done.
  - destruct Hb as [<- Eg Hnb Hbb _ _ _ Hbits]. split; try done; [|apply Ha]. unfold acceptable, announcement.
    cbn. rewrite Eg, Z.mod_small by done. split_and!; try done. apply NewID_accepted; [apply Ha|done].
Qed.
End TwoNodes.

(** ** Two mainnet nodes *)

Module HandshakeExample.
Import StreamRandom ForkId.MainnetExample GethPeerSpec.PeerExample.

Definition at_block (n : Z) : Header := {|
  ParentHash := zeroHash; UncleHash := zeroHash; Coinbase := zeroAddress; Root := zeroHash; TxHash := zeroHash;
  ReceiptHash := zeroHash; Bloom := []; Difficulty := Some 1; Number := Some n; GasLimit := 8000000; GasUsed := 0;
  Time := 0; Extra := []; MixDigest := zeroHash; Nonce := []; BaseFee := None |}.

(** A node at block [n] of mainnet; every block has difficulty 2^40. *)
Definition node (n : Z) : Chain := {|
  ch_chain := {| bc_Config := mainnet; bc_GenesisHash := mainnetGenesis; bc_CurrentHeader := at_block n |};
  ch_Hash := fun h => put_be 32 (default 0 (Number h));
  ch_GetTd := fun _ n => Some (n * 2 ^ 40) |}.

Lemma node_on_chain n : 0 <= n < 1000000000 -> on_chain mainnet mainnetGenesis (node n) n (n * 2 ^ 40).
Proof.
  intros Hn. split; cbn; try done.
  - unfold number_of. cbn. rewrite big_Uint64_id by (unfold is_u64, two64; lia). done.
  - unfold MaxUint64. lia.
  - lia.
  - unfold BitLen. destruct (Z.eqb_spec (n * 2 ^ 40) 0); [done|]. rewrite Z.abs_eq by lia.
    assert (Z.log2 (n * 2 ^ 40) < 100); [|lia]. apply Z.log2_lt_pow2; [lia|].
    assert (1000000000 * 2 ^ 40 < 2 ^ 100) by (vm_compute; reflexivity). lia.
Qed.

Lemma same_chain_handshake_witness :
  exists msg, transmit StatusMsg 0 (status_value (announcement (node 9069000) 66 1 9069000)) = Ok msg /\
    (runEthPeer_handshake (node 4369999) 66 1 (Ok msg) [Received; Sent None] p0).1 = Ok tt.
Proof.
  destruct (same_chain_handshake mainnet mainnetGenesis (node 4369999) (node 9069000) 4369999 9069000 (4369999 * 2 ^ 40)
              (9069000 * 2 ^ 40) 66 1 0 [Received; Sent None] p0) as (msg & E & H).
  - apply node_on_chain. lia.
  - apply node_on_chain. lia.
  - reflexivity.
  - apply mainnet_nodup.
  - lia.
  - unfold is_u64, two64. lia.
  - constructor.
  - exists msg. rewrite H. by split.
Defined.

(** The status of a node at the genesis block, on the wire. *)
Definition genesis_msg : outcome InMsg := transmit StatusMsg 0 (status_value (announcement (node 0) 66 1 0)).
Definition genesis_payload : bytes := match genesis_msg with Ok m => in_Payload m | _ => [] end.
Definition status_in (payload : bytes) : InMsg :=
  {| in_Code := StatusMsg; in_Size := blen payload; in_Time := 0; in_Payload := payload |}.

Abbreviation shake payload :=
  (Handshake 66 1 (Some 5) (put_be 32 7) mainnetGenesis (NewID mainnet mainnetGenesis 7) (newFilter mainnet mainnetGenesis 7)
     (Ok (status_in payload)) [Sent None; Received] p0).

Lemma handshake_decides_witness :
  (shake genesis_payload).1 = Ok tt /\
  exists s t, agrees_on 66 1 (Some 5) mainnetGenesis (newFilter mainnet mainnetGenesis 7) (status_in genesis_payload)
    [Sent None; Received] s t.
Proof.
  assert ((shake genesis_payload).1 = Ok tt) as H by (vm_compute; reflexivity). split; [exact H|].
  refine (proj1 (proj2 (handshake_decides 66 1 (Some 5) (put_be 32 7) mainnetGenesis (NewID mainnet mainnetGenesis 7)
    (newFilter mainnet mainnetGenesis 7) (status_in genesis_payload) [Sent None; Received] p0 _ _)) H).
  - reflexivity.
  - apply (bool_decide_eq_true _). reflexivity.
Defined.

(** Bytes after the status are not looked at. *)
Example trailing_bytes_accepted : (shake (genesis_payload ++ [Byte.x01; Byte.x02])).1 = Ok tt.
Proof. vm_compute. reflexivity. Qed.
End HandshakeExample.
