(* ===== verification/EthWire.v ===== *)
(** * Messages as bytes

    The packets of eth/protocols/eth/protocol.go at their Go types: what the
    encoder writes for a packet a peer sends, what the handlers decode from a
    payload, with the two methods of [HashOrNumber], which travels as either of
    its fields.

    [wire_Decoder] implements the interface [Decoder] of the handlers for
    announcements, queries and headers; packets with blocks, transactions and
    receipts have decoders of their own (DecodeRLP methods) and stay the
    parameters they are. *)

From S2P Require Import Prelude Randomness BigEndian Rlp RlpSpec RlpStream RlpStreamSpec RlpDecoderSpec EthTypes.
From S2P Require Import GethFuzzer GethFuzzerSpec GethPeerSpec EthHandlers EthHandlersSpec EthHandshake.

(** ** Types *)

Definition hash_type : rtype := TByteArray 32.
Definition hashes_type : rtype := TSlice hash_type.

(** [geth:eth/protocols/eth/protocol.go:97-100] NewBlockHashesPacket *)
Definition announces_type : rtype := TSlice (TStruct [hash_type; TUint 64] []).

(** The queries by hash: [GetBlockBodiesPacket66], [GetNodeDataPacket66],
    [GetReceiptsPacket66], [GetPooledTransactionsPacket66].
    [geth:eth/protocols/eth/protocol.go:198-205] GetBlockBodiesPacket66 *)
Definition hashes66_type : rtype := TStruct [TUint 64; hashes_type] [].

(** [geth:core/types/block.go:69-88] Header *)
Definition header_type : rtype :=
  TStruct [hash_type; hash_type; TByteArray 20; hash_type; hash_type; hash_type; TByteArray 256; TBigPtr; TBigPtr;
           TUint 64; TUint 64; TUint 64; TBytes; hash_type; TByteArray 8] [TBigPtr].

(** [geth:eth/protocols/eth/protocol.go:169-176] BlockHeadersPacket66 *)
Definition headers66_type : rtype := TStruct [TUint 64; TSlice (TPtr None header_type)] [].

(** ** Values *)

Definition header_value (h : Header) : rval :=
  RStruct [RByteArray (ParentHash h); RByteArray (UncleHash h); RByteArray (Coinbase h); RByteArray (Root h);
           RByteArray (TxHash h); RByteArray (ReceiptHash h); RByteArray (Bloom h); RBigPtr (Difficulty h);
           RBigPtr (Number h); RUint (GasLimit h); RUint (GasUsed h); RUint (Time h); RBytes (Extra h);
           RByteArray (MixDigest h); RByteArray (Nonce h)]
          [(match BaseFee h with None => true | _ => false end, RBigPtr (BaseFee h))].

Definition header_of_value (v : rval) : option Header :=
  match v with
  | RStruct [RByteArray ph; RByteArray uh; RByteArray cb; RByteArray rt; RByteArray th; RByteArray rh; RByteArray bl;
             RBigPtr d; RBigPtr n; RUint gl; RUint gu; RUint tm; RBytes ex; RByteArray mx; RByteArray nc]
            [(_, RBigPtr bf)] =>
      Some {| ParentHash := ph; UncleHash := uh; Coinbase := cb; Root := rt; TxHash := th; ReceiptHash := rh;
              Bloom := bl; Difficulty := d; Number := n; GasLimit := gl; GasUsed := gu; Time := tm; Extra := ex;
              MixDigest := mx; Nonce := nc; BaseFee := bf |}
  | _ => None
  end.

(** [geth:eth/protocols/eth/protocol.go] HashOrNumber.EncodeRLP *)
Definition origin_value (o : HashOrNumber) : outcome rval :=
  if bool_decide (on_Hash o = zeroHash) then mret (RUint (on_Number o))
  else if negb (on_Number o =? 0) then Err "both origin hash and number provided"
  else mret (RByteArray (on_Hash o)).

Definition origin_of_value (v : rval) : option HashOrNumber :=
  match v with
  | RUint n => Some {| on_Hash := zeroHash; on_Number := n |}
  | RByteArray h => Some {| on_Hash := h; on_Number := 0 |}
  | _ => None
  end.

Definition query_enc : byte := to_byte 192.

(** [[]*types.Header]. *)
Definition headers_value (hs : list Header) : rval := RSlice (map (fun h => RPtr query_enc (Some (header_value h))) hs).

(** What the encoder writes for a packet; a pointer is written as what it points
    to, and the headers are those the message holds. *)
Definition packet_value (m : Msg) : option (outcome rval) :=
  match packet m with
  | NewBlockHashesPacket l => Some (Ok (RSlice (map (fun '(h, n) => RStruct [RByteArray h; RUint n] []) l)))
  | NewPooledTransactionHashesPacket l => Some (Ok (RSlice (map RByteArray l)))
  | GetBlockHeadersPacket66 id o a s r =>
      Some (ov ← origin_value o;
            mret (RStruct [RUint id; RPtr query_enc (Some (RStruct [ov; RUint a; RUint s; RBool r] []))] []))
  | BlockHeadersPacket66 id _ =>
      Some (Ok (RStruct [RUint id; headers_value (m_headers m)] []))
  | GetBlockBodiesPacket66 id l | GetNodeDataPacket66 id l | GetReceiptsPacket66 id l
  | GetPooledTransactionsPacket66 id l => Some (Ok (RStruct [RUint id; RSlice (map RByteArray l)] []))
  | _ => None
  end.

(** ** Decoding *)

(** A size of 32 is a hash, one of up to eight bytes a number.
    [geth:eth/protocols/eth/protocol.go] HashOrNumber.DecodeRLP *)
Definition decode_origin : StM Stream rval :=
  '(_, size) ← Stream_Kind;
  if size =? 32 then decode 0 hash_type
  else if size <=? 8 then decode 0 (TUint 64)
  else pure (Err "invalid input size for origin").

(** [geth:eth/protocols/eth/protocol.go:119-130] GetBlockHeadersPacket66 *)
Definition decode_query : StM Stream rval :=
  makeStructDecoder
    [decodeUint 64;
     makeSimplePtrDecoder query_enc (makeStructDecoder [decode_origin; decodeUint 64; decodeUint 64; decodeBool] [])] [].

(** [msg.Decode] of a payload of the length the message announces. *)
Definition decode_payload (d : nat -> StM Stream rval) (payload : bytes) : outcome rval :=
  (d (S (length payload)) (NewStream false payload (Z.of_nat (length payload)))).1.

(** A decoded value is of the type it was decoded at. *)
Definition as_type {A} (conv : rval -> option A) (v : outcome rval) : outcome A :=
  v ← v; ok_or (conv v) "reflect: wrong type".

Definition of_uint (v : rval) : option Z := match v with RUint n => Some n | _ => None end.
Definition of_hash (v : rval) : option Hash := match v with RByteArray h => Some h | _ => None end.

Definition of_slice {A} (conv : rval -> option A) (v : rval) : option (list A) :=
  match v with RSlice l => mapM conv l | _ => None end.

Definition of_announce (v : rval) : option (Hash * Z) :=
  match v with RStruct [RByteArray h; RUint n] [] => Some (h, n) | _ => None end.

(** A packet over eth/66: the request id and the rest. *)
Definition of_66 {A} (conv : rval -> option A) (v : rval) : option (Z * A) :=
  match v with RStruct [RUint id; x] [] => a ← conv x; Some (id, a) | _ => None end.

Definition of_ptr {A} (conv : rval -> option A) (v : rval) : option A :=
  match v with RPtr _ (Some x) => conv x | _ => None end.

Definition of_query (v : rval) : option HeadersQuery :=
  match v with
  | RStruct [ov; RUint a; RUint s; RBool r] [] =>
      o ← origin_of_value ov; Some {| q_Origin := o; q_Amount := a; q_Skip := s; q_Reverse := r |}
  | _ => None
  end.

(** The interface of the handlers. *)
Definition wire_Decoder (D : Decoder) : Decoder := {|
  Decode_NewBlockHashes b := as_type (of_slice of_announce) (decode_payload (fun n => decode n announces_type) b);
  Decode_NewBlock := @Decode_NewBlock D;
  Decode_Transactions := @Decode_Transactions D;
  Decode_Hashes b := as_type (of_slice of_hash) (decode_payload (fun n => decode n hashes_type) b);
  Decode_GetBlockHeaders b := as_type (of_66 (of_ptr of_query)) (decode_payload (fun _ => decode_query) b);
  Decode_BlockHeaders b := as_type (of_66 (of_slice (of_ptr header_of_value))) (decode_payload (fun n => decode n headers66_type) b);
  Decode_Hashes66 b := as_type (of_66 (of_slice of_hash)) (decode_payload (fun n => decode n hashes66_type) b);
  Decode_BlockBodies := @Decode_BlockBodies D;
  Decode_NodeData := @Decode_NodeData D;
  Decode_Receipts := @Decode_Receipts D;
  Decode_PooledTransactions := @Decode_PooledTransactions D;
|}.

(** ** The decoders as parsers *)

(** The size that is announced for a string. *)
Lemma str_head s k n h x y rest :
  ready s -> head_at s k n h x -> r s = rlp_str y ++ rest -> Z.of_nat (length y) < two64 ->
  (n <= length y)%nat /\ (length y <> 1%nat -> n = length y).
Proof.
  intros Hs Hh Er Hy. pose proof (head_at_u64 _ _ _ _ _ (proj1 Hs) Hh) as Hn. destruct Hh as (Hh & _ & _ & rest' & Er' & _).
  rewrite Er in Er'. symmetry in Er'.
  assert (rlp_str y = hdr 128 183 (length y) ++ y \/ exists z, y = [z] /\ byte_val z < 128 /\ rlp_str y = [z]) as [E|(z & -> & Hz & E)].
  { unfold rlp_str. destruct y as [|z [|z' y]]; [by left| |by left].
    destruct (Z.ltb_spec (byte_val z) 128); [right; by exists z|by left]. }
  - rewrite E, <- app_assoc in Er'. edestruct (header_unique k n h x rest' KString (length y) (hdr 128 183 (length y)) Byte.x00)
      as (_ & -> & _); eauto. by split.
  - rewrite E in Er'. edestruct (header_unique k n h x rest' KByte 0 [z] z) as (_ & -> & _); eauto; [by split|].
    cbn. split; [lia|done].
Qed.

(** A weaker relation. *)
Lemma ra_weaken {A} (R R' : A -> bytes -> Prop) s (res : outcome A * Stream) :
  (forall a b, R a b -> R' a b) ->
  match res with
  | (Ok a, s') => ready s' /\ debt s <= debt s' /\ (length (r s') < length (r s))%nat /\
                  length (stack s') = length (stack s) /\ (debt s' <= 0 -> exists b, R a b /\ moved b s s')
  | (Err e, _) => e <> EOL
  | (Panic _, _) => False
  end ->
  match res with
  | (Ok a, s') => ready s' /\ debt s <= debt s' /\ (length (r s') < length (r s))%nat /\
                  length (stack s') = length (stack s) /\ (debt s' <= 0 -> exists b, R' a b /\ moved b s s')
  | (Err e, _) => e <> EOL
  | (Panic _, _) => False
  end.
Proof.
  intros HR. destruct res as [[a|e|p] s']; try done. intros (H1 & H2 & H3 & H4 & H5). split_and!; try done.
  intros Hd. destruct (H5 Hd) as (b & Hb & Hm). eauto.
Qed.

Definition origin_rel (v : rval) (b : bytes) : Prop := encodes hash_type v b \/ encodes (TUint 64) v b.

Lemma reader_type N t : type_ok t = true -> is_tail t = false -> reader N (decode N t) (encodes t).
Proof. intros Hok Ht. pose proof (decode_reads N t Hok) as H. unfold reads in H. by rewrite Ht in H. Qed.

Lemma reader_origin N : reader N decode_origin origin_rel.
Proof.
  pose proof (reader_runs_at N _ _ (reader_type N hash_type eq_refl eq_refl)) as [Hht Hhc].
  pose proof (reader_runs_at N _ _ (reader_type N (TUint 64) eq_refl eq_refl)) as [Hnt Hnc].
  apply reader_dispatch; [split|].
  - intros s k n h x Hs HN Hh. specialize (Hht s k n h x Hs HN Hh). specialize (Hnt s k n h x Hs HN Hh). cbn beta in *.
    destruct (Z.of_nat n =? 32); [eapply ra_weaken, Hht; by left|].
    destruct (Z.of_nat n <=? 8); [eapply ra_weaken, Hnt; by right|done].
  - intros s k n h x a b rest Hs HN Hh Hd HR Er Hr. cbn beta. destruct HR as [HR|HR].
    + pose proof HR as (y & -> & Hy & ->). destruct (str_head s k n h x y rest Hs Hh Er) as [_ Hn]; [rewrite Hy; done|].
      rewrite (proj2 (Z.eqb_eq (Z.of_nat n) 32)) by (specialize (Hn ltac:(lia)); lia).
      by apply (Hhc s k n h x _ (rlp_str y) rest).
    + pose proof HR as (i & -> & Hi & ->).
      pose proof (length_be_bytes_le 8 i ltac:(split; [lia|exact (proj2 Hi)])) as Hl.
      destruct (str_head s k n h x (be_bytes i) rest Hs Hh Er) as [Hn _]; [unfold two64; lia|].
      rewrite (proj2 (Z.eqb_neq (Z.of_nat n) 32)) by lia. rewrite (proj2 (Z.leb_le (Z.of_nat n) 8)) by lia.
      by apply (Hnc s k n h x _ (rlp_str (be_bytes i)) rest).
  - intros a b [(y & _ & _ & ->)|(i & _ & _ & ->)]; apply rlp_str_value.
Qed.

(** A struct without optional fields. *)
Definition struct_rel (Rs : list rel) (v : rval) (b : bytes) : Prop :=
  exists vs p, v = RStruct vs [] /\ fields_rel Rs vs p /\ b = rlp_list p.

Lemma reader_record N ds Rs : Forall2 (reader N) ds Rs -> reader N (makeStructDecoder ds []) (struct_rel Rs).
Proof.
  intros HF. apply (reader_le N (S N)); [lia|]. assert (fields_ok N Fields ds Rs) as Hf by (by induction HF; constructor).
  eapply reader_iff, (reader_struct N Fields ds Rs [] [] [] Hf (oo_nil N)); [|by left].
  intros v b. unfold struct_rel. split.
  - intros (p & (vs & ows & p1 & p2 & -> & HR & [-> ->] & ->) & ->). rewrite app_nil_r. eauto.
  - intros (vs & p & -> & HR & ->). exists p. split; [|done]. exists vs, [], p, []. by rewrite app_nil_r.
Qed.

Definition query_rel : rval -> bytes -> Prop :=
  struct_rel [encodes (TUint 64);
    fun v b => exists w, v = RPtr query_enc (Some w) /\
      struct_rel [origin_rel; encodes (TUint 64); encodes (TUint 64); encodes TBool] w b].

Lemma reader_query N : reader N decode_query query_rel.
Proof.
  apply reader_record. constructor; [by apply reader_decodeUint|]. constructor; [|constructor].
  apply reader_map, reader_record. constructor; [apply reader_origin|]. do 2 (constructor; [by apply reader_decodeUint|]).
  constructor; [apply reader_decodeBool|constructor].
Qed.

(** *** Payloads *)

Section Payload.
Context (d : nat -> StM Stream rval) (R : rval -> bytes -> Prop) (Hd : forall N, reader N (d N) R).

Lemma decode_payload_complete b v : R v b -> Z.of_nat (length b) <= maxInt64 -> decode_payload d b = Ok v.
Proof.
  intros HR Hl. pose proof (is_value_length _ (rd_value _ _ _ (Hd 0) v b HR)) as Hb. unfold decode_payload, NewStream.
  rewrite (Reset_limit false b new_Stream new_Stream Hb). destruct (reset_ready b new_Stream Hl) as (Hs & Er & Est & Hdb).
  set (s := Reset true b _ _) in *.
  destruct (p_complete _ _ _ _ (rd_parses _ _ _ (Hd (S (length b)))) s v b []) as (s' & -> & _);
    [done|rewrite Er; lia|done|done|by rewrite app_nil_r|unfold room; by rewrite Est|done|done].
Qed.

Lemma decode_payload_no_panic :
  (exists e, decode_payload d [] = Err e) -> no_panic (decode_payload d).
Proof.
  intros [e0 H0] b e Hmax. destruct b as [|x b']; [congruence|]. set (b := x :: b') in *.
  assert (Z.of_nat (length b) <= maxInt64) as Hl by (unfold blen, maxMessageSize, maxInt64 in *; lia).
  assert (1 <= length b)%nat as Hb by (unfold b; cbn; lia). unfold decode_payload, NewStream.
  rewrite (Reset_limit false b new_Stream new_Stream Hb). destruct (reset_ready b new_Stream Hl) as (Hs & Er & Est & Hdb).
  set (s := Reset true b _ _) in *.
  pose proof (p_total _ _ _ _ (rd_parses _ _ _ (Hd (S (length b)))) s Hs ltac:(rewrite Er; lia)) as Ht.
  by destruct (d (S (length b)) s) as [[v|e'|p] s'].
Qed.
End Payload.

Lemma as_type_no_panic {A} (conv : rval -> option A) (d : bytes -> outcome rval) :
  no_panic d -> no_panic (fun b => as_type conv (d b)).
Proof.
  intros H b e Hb. specialize (H b e Hb). unfold as_type. destruct (d b) as [v|x|x]; cbn; [|done|congruence].
  unfold ok_or. by destruct (conv v).
Qed.

(** The decoder of the wire keeps the promise of the handlers' interface, if the
    remaining decoders do. *)
Lemma wire_no_panic D : @DecoderOk D -> @DecoderOk (wire_Decoder D).
Proof.
  intros HD.
  assert (forall t {A} (conv : rval -> option A), type_ok t = true -> is_tail t = false ->
            (exists e, decode_payload (fun n => decode n t) [] = Err e) ->
            no_panic (fun b => as_type conv (decode_payload (fun n => decode n t) b))) as Ht.
  { intros t A conv Hok Htl He. apply as_type_no_panic, (decode_payload_no_panic _ (encodes t)); [|done]. intros N. by apply reader_type. }
  split; try (by apply HD).
  - apply (Ht announces_type); [done..|by eexists].
  - apply (Ht hashes_type); [done..|by eexists].
  - apply (as_type_no_panic _ (decode_payload (fun _ => decode_query))), (decode_payload_no_panic _ query_rel); [apply reader_query|by eexists].
  - apply (Ht headers66_type); [done..|by eexists].
  - apply (Ht hashes66_type); [done..|by eexists].
Qed.

(** ** What is sent is what is read *)

(** The fields of a header within their Go types, with a difficulty and a number. *)
Record header_ok (h : Header) : Prop := {
  ho_hashes : Forall (fun x => length x = 32%nat) [ParentHash h; UncleHash h; Root h; TxHash h; ReceiptHash h; MixDigest h];
  ho_coinbase : length (Coinbase h) = 20%nat;
  ho_bloom : length (Bloom h) = 256%nat;
  ho_nonce : length (Nonce h) = 8%nat;
  ho_difficulty : exists d, Difficulty h = Some d /\ 0 <= d;
  ho_number : exists n, Number h = Some n /\ 0 <= n;
  ho_gas : is_u64 (GasLimit h) /\ is_u64 (GasUsed h) /\ is_u64 (Time h);
  ho_fee : forall f, BaseFee h = Some f -> 0 <= f;
}.

Definition hash_ok (h : Hash) : Prop := length h = 32%nat.

Definition msg_ok (m : Msg) : Prop :=
  match packet m with
  | NewBlockHashesPacket l => Forall (fun x => hash_ok x.1 /\ is_u64 x.2) l
  | NewPooledTransactionHashesPacket l => Forall hash_ok l
  | GetBlockHeadersPacket66 id o a s _ => is_u64 id /\ is_u64 a /\ is_u64 s /\ hash_ok (on_Hash o) /\ is_u64 (on_Number o)
  | BlockHeadersPacket66 id _ => is_u64 id /\ Forall header_ok (m_headers m)
  | GetBlockBodiesPacket66 id l | GetNodeDataPacket66 id l | GetReceiptsPacket66 id l
  | GetPooledTransactionsPacket66 id l => is_u64 id /\ Forall hash_ok l
  | _ => False
  end.

(** The handler of the packet decodes what was sent. *)
Definition reads_back (D : Decoder) (m : Msg) (payload : bytes) : Prop :=
  match packet m with
  | NewBlockHashesPacket l => Decode_NewBlockHashes payload = Ok l
  | NewPooledTransactionHashesPacket l => Decode_Hashes payload = Ok l
  | GetBlockHeadersPacket66 id o a s r =>
      Decode_GetBlockHeaders payload = Ok (id, {| q_Origin := o; q_Amount := a; q_Skip := s; q_Reverse := r |})
  | BlockHeadersPacket66 id _ => Decode_BlockHeaders payload = Ok (id, m_headers m)
  | GetBlockBodiesPacket66 id l | GetNodeDataPacket66 id l | GetReceiptsPacket66 id l
  | GetPooledTransactionsPacket66 id l => Decode_Hashes66 payload = Ok (id, l)
  | _ => False
  end.

Lemma of_slice_map {A} (f : A -> rval) (conv : rval -> option A) l :
  (forall x, x ∈ l -> conv (f x) = Some x) -> of_slice conv (RSlice (map f l)) = Some l.
Proof.
  intros H. apply mapM_Some_2. induction l as [|x l IH]; cbn; constructor; [apply H; left|]. apply IH. intros y Hy. apply H. by right.
Qed.

Lemma header_value_read h : header_of_value (header_value h) = Some h.
Proof. by destruct h. Qed.

Lemma header_typed h : header_ok h -> typed header_type (header_value h).
Proof.
  intros [Hh Hc Hb Hn (d & Ed & Hd) (n & En & Hn0) (Hg1 & Hg2 & Hg3) Hf].
  repeat match goal with H : Forall _ (_ :: _) |- _ => inversion H; subst; clear H end. unfold is_u64, two64 in *.
  unfold header_value, header_type. rewrite Ed, En. cbn. split; [repeat (constructor; try done; try lia)|].
  destruct (BaseFee h) as [f|] eqn:Ef; [right|by left]. split_and!; [done|by apply Hf|done].
Qed.

Lemma typed_roundtrip {A} t v (conv : rval -> option A) x :
  type_ok t = true -> is_tail t = false -> (forall b, rlp_val v = Ok b -> Z.of_nat (length b) <= maxInt64) ->
  typed t v -> conv v = Some x ->
  exists b, rlp_val v = Ok b /\ EncodeToBytes v = Ok b /\ as_type conv (decode_payload (fun n => decode n t) b) = Ok x.
Proof.
  intros Hok Ht Hl Hv Hc. destruct (typed_encodes t v Hv) as (b & Eb & HR). specialize (Hl b Eb).
  exists b. split_and!; [done|by apply (EncodeToBytes_encodes t)|]. unfold as_type.
  rewrite (decode_payload_complete _ (encodes t) (fun N => reader_type N t Hok Ht) b v HR Hl). cbn. by rewrite Hc.
Qed.

Lemma hashes_typed l : Forall hash_ok l -> Forall (typed hash_type) (map RByteArray l).
Proof. induction 1; cbn; by constructor. Qed.

(** A query for headers, with its origin as it travels. *)
Definition query_value (id : Z) (ov : rval) (a s : Z) (r : bool) : rval :=
  RStruct [RUint id; RPtr query_enc (Some (RStruct [ov; RUint a; RUint s; RBool r] []))] [].

Lemma encodes_u64 i : is_u64 i -> encodes (TUint 64) (RUint i) (rlp_str (be_bytes i)).
Proof. intros Hi. exists i. split; [done|]. by split. Qed.

Lemma origin_written o ov :
  origin_value o = Ok ov -> hash_ok (on_Hash o) -> is_u64 (on_Number o) ->
  origin_of_value ov = Some o /\ uints_ok ov /\ exists b, rlp_val ov = Ok b /\ origin_rel ov b.
Proof.
  destruct o as [h n]. unfold origin_value, hash_ok. cbn [on_Hash on_Number]. intros E Hh Hn. case_bool_decide as Hz.
  - injection E as <-. subst h. split_and!; [done|done|]. exists (rlp_str (be_bytes n)). split; [done|]. right. by apply encodes_u64.
  - destruct (Z.eqb_spec n 0) as [->|]; cbn in E; [|done]. injection E as <-. split_and!; [done|done|].
    exists (rlp_str h). split; [done|]. left. by exists h.
Qed.

Lemma query_roundtrip id o ov a s r :
  origin_value o = Ok ov -> is_u64 id -> is_u64 a -> is_u64 s -> hash_ok (on_Hash o) -> is_u64 (on_Number o) ->
  let v := query_value id ov a s r in
  (forall b, rlp_val v = Ok b -> Z.of_nat (length b) <= maxInt64) ->
  exists b, rlp_val v = Ok b /\ EncodeToBytes v = Ok b /\
    as_type (of_66 (of_ptr of_query)) (decode_payload (fun _ => decode_query) b) =
    Ok (id, {| q_Origin := o; q_Amount := a; q_Skip := s; q_Reverse := r |}).
Proof.
  intros Eo Hid Ha Hs Hh Hn v Hl. destruct (origin_written o ov Eo Hh Hn) as (Hov & Huo & bo & Ebo & HRo).
  assert (exists b, rlp_val v = Ok b /\ query_rel v b) as (b & Eb & HR).
  { cbn. rewrite Ebo. cbn. eexists. split; [reflexivity|].
    eexists _, _. split; [reflexivity|]. split; [|by rewrite ?app_nil_r]. eexists _, _.
    split; [reflexivity|]. split; [by apply encodes_u64|]. eexists _, []. split; [by rewrite !app_nil_r|]. split; [|done].
    eexists. split; [reflexivity|]. eexists _, _. split; [reflexivity|]. split; [|reflexivity].
    exists bo. eexists. split; [reflexivity|]. split; [done|]. eexists _, _. split; [reflexivity|].
    split; [by apply encodes_u64|]. eexists _, _. split; [reflexivity|].
    split; [by apply encodes_u64|]. eexists _, []. split; [by rewrite !app_nil_r|]. split; [by exists r|done]. }
  specialize (Hl b Eb). exists b. split_and!; [done| |].
  - rewrite <- Eb. apply EncodeToBytes_spec; [by cbn; split_and!|]. intros c Ec. rewrite Eb in Ec. injection Ec as <-.
    unfold two64, maxInt64 in *. lia.
  - unfold as_type. rewrite (decode_payload_complete _ query_rel reader_query b v HR Hl). cbn. rewrite Hov. done.
Qed.

Lemma wire_reads_back D m v :
  msg_ok m -> packet_value m = Some (Ok v) -> (forall b, rlp_val v = Ok b -> Z.of_nat (length b) <= maxInt64) ->
  exists payload, EncodeToBytes v = Ok payload /\ rlp_val v = Ok payload /\ reads_back (wire_Decoder D) m payload.
Proof.
  unfold msg_ok, packet_value, reads_back. intros Hm Ev Hl.
  assert (forall id l, is_u64 id /\ Forall hash_ok l -> v = RStruct [RUint id; RSlice (map RByteArray l)] [] ->
            exists payload, EncodeToBytes v = Ok payload /\ rlp_val v = Ok payload /\
              @Decode_Hashes66 (wire_Decoder D) payload = Ok (id, l)) as Hq66.
  { intros id l [Hid Hls] ->. destruct (typed_roundtrip hashes66_type _ (of_66 (of_slice of_hash)) (id, l) eq_refl eq_refl Hl)
      as (b & ? & ? & ?); [| |by exists b].
    - split; [|done]. constructor; [exact Hid|]. constructor; [by apply hashes_typed|constructor].
    - cbn [of_66]. by rewrite (of_slice_map RByteArray of_hash l) by done. }
  destruct (packet m) as [| l | | id o a s r | id ls | id l | | | l | id l | | id l | | id l |] eqn:Ep; try done.
  all: try (injection Ev as Ev; by apply Hq66).
  - injection Ev as <-. destruct (typed_roundtrip announces_type _ (of_slice of_announce) l eq_refl eq_refl Hl)
      as (b & ? & ? & ?); [| |by exists b].
    + cbn. clear -Hm. induction Hm as [|[h n] l [H1 H2] _ IH]; cbn; constructor; [|done]. split; [|done]. by repeat constructor; try apply H2.
    + apply of_slice_map. by intros [].
  - destruct (origin_value o) as [ov|e|e] eqn:Eo; cbn in Ev; [|done..]. injection Ev as <-. destruct Hm as (H1 & H2 & H3 & H4 & H5).
    destruct (query_roundtrip id o ov a s r Eo H1 H2 H3 H4 H5 Hl) as (b & ? & ? & ?). by exists b.
  - injection Ev as <-. unfold headers_value in *. destruct Hm as [Hid Hh].
    destruct (typed_roundtrip headers66_type _ (of_66 (of_slice (of_ptr header_of_value))) (id, m_headers m) eq_refl eq_refl Hl)
      as (b & ? & ? & ?); [| |by exists b].
    + split; [|done]. constructor; [exact Hid|]. constructor; [|constructor]. cbn [typed].
      clear -Hh. induction Hh as [|h l Hh _ IH]; cbn [map]; constructor; [|done]. split; [done|by apply header_typed].
    + cbn [of_66]. rewrite (of_slice_map _ (of_ptr header_of_value) (m_headers m)); [done|]. intros h _. apply header_value_read.
  - injection Ev as <-. destruct (typed_roundtrip hashes_type _ (of_slice of_hash) l eq_refl eq_refl Hl)
      as (b & ? & ? & ?); [| |by exists b].
    + by apply hashes_typed.
    + by apply of_slice_map.
Qed.

(** Messages survive the wire: for announcements, every query and every answer
    with headers, whose fields are within their Go types, what the encoder
    writes for the packet is decoded by the handler of its code as exactly what
    the sender put in, a query by hash or by number included. *)
Theorem wire_roundtrip D m v :
  msg_ok m -> packet_value m = Some (Ok v) -> (forall b, rlp_val v = Ok b -> Z.of_nat (length b) <= maxInt64) ->
  exists payload, EncodeToBytes v = Ok payload /\ reads_back (wire_Decoder D) m payload.
Proof. intros Hm Hv Hl. destruct (wire_reads_back D m v Hm Hv Hl) as (b & ? & _ & ?). by exists b. Qed.

(** ** An exchange of headers *)

(** What the other side reads of a message that was sent. *)
Definition transmit_msg (now : Z) (m : Msg) : outcome InMsg :=
  match packet_value m with
  | Some v => v ← v; transmit (Code m) now v
  | None => Err "not a packet of the wire"
  end.

Lemma transmit_reads_back D m v now :
  msg_ok m -> packet_value m = Some (Ok v) -> (forall b, rlp_val v = Ok b -> blen b <= maxMessageSize) ->
  exists msg, transmit_msg now m = Ok msg /\ in_Code msg = Code m /\ in_Size msg <= maxMessageSize /\
    in_Size msg = blen (in_Payload msg) /\ reads_back (wire_Decoder D) m (in_Payload msg).
Proof.
  intros Hm Hv Hl. assert (forall b, rlp_val v = Ok b -> Z.of_nat (length b) <= maxInt64) as Hl'.
  { intros b Hb. specialize (Hl b Hb). unfold blen, maxMessageSize, maxInt64 in *. lia. }
  destruct (wire_reads_back D m v Hm Hv Hl') as (b & Ee & Eb & Hr). specialize (Hl b Eb). unfold blen, maxMessageSize in *.
  unfold transmit_msg, transmit. rewrite Hv. cbn. rewrite Ee. eexists. split; [reflexivity|]. cbn. unfold blen.
  rewrite Z.mod_small by lia. by split_and!.
Qed.

Section Exchange.
Context {Rnd : Randomness} {RndOk : RandomnessOk}.
Context (pop_choice : gset Hash -> option Hash).

Lemma is_ok_tt (o : outcome unit) : is_ok o = true -> o = Ok tt.
Proof. by destruct o as [[]| |]. Qed.

(** The message of a query by number. *)
Definition query_msg (id n a s : Z) (r : bool) : Msg :=
  {| Code := GetBlockHeadersMsg; packet := GetBlockHeadersPacket66 id {| on_Hash := zeroHash; on_Number := n |} a s r;
     m_headers := []; m_txs := []; m_blocks := [] |}.

Lemma request_sent n amount skip r p :
  exists id p1, RequestHeadersByNumber n amount skip r p = (Ok tt, p1) /\ is_u64 id /\
    wire p1 = wire p ++ [query_msg id n (u64 amount) (u64 skip) r].
Proof.
  unfold RequestHeadersByNumber, mbind at 1, StM_bind at 1, draw. pose proof (rand_Uint64_range (rng p)) as Hid.
  destruct (rand_Uint64 (rng p)) as [id r']. cbn [fst] in Hid.
  set (m := GetBlockHeadersPacket66 id _ _ _ _). destruct (record_and_send_eq m (set_rng r' p)) as (o & E & _ & Ho); [by apply no_refs|].
  assert (sent (heap p) (Kind m) m = [query_msg id n (u64 amount) (u64 skip) r]) as Es by reflexivity. cbn [heap set_rng] in *.
  rewrite Es in *. rewrite (is_ok_tt o (proj2 Ho ltac:(done))) in E. exists id. eexists. by split_and!; [exact E|..].
Qed.

(** The answer with the headers [l], which are [hs]. *)
Definition answer_msg (id : Z) (l : list loc) (hs : list Header) : Msg :=
  {| Code := BlockHeadersMsg; packet := BlockHeadersPacket66 id l; m_headers := hs; m_txs := []; m_blocks := [] |}.

Lemma header_ok_encodable h : header_ok h -> header_encodable h = true.
Proof.
  intros [_ _ _ _ (d & Ed & Hd) (n & En & Hn) _ Hf]. unfold header_encodable, bigint_encodable. rewrite Ed, En.
  rewrite (proj2 (Z.leb_le 0 d) Hd), (proj2 (Z.leb_le 0 n) Hn). cbn. destruct (BaseFee h) as [f|] eqn:E; [|done].
  by apply Z.leb_le, Hf.
Qed.

Lemma deref_all_mapM {A} (o : gmap loc A) l hs : mapM (fun x => o !! x) l = Some hs -> deref_all o l = Ok hs.
Proof.
  intros H%mapM_Some_1. induction H as [|x h l hs Hx _ IH]; [done|].
  change (deref_all o (x :: l)) with (a ← deref (o !! x); rest ← deref_all o l; mret (a :: rest)). by rewrite Hx, IH.
Qed.

Lemma answer_sent id l hs q :
  mapM (fun x => headers (heap q) !! x) l = Some hs -> Forall header_ok hs ->
  exists q1, ReplyBlockHeaders id l q = (Ok tt, q1) /\ wire q1 = wire q ++ [answer_msg id l hs].
Proof.
  intros Hl Hok. unfold ReplyBlockHeaders. pose proof (deref_all_mapM _ _ _ Hl) as Hd.
  assert (sent (heap q) (Kind (BlockHeadersPacket66 id l)) (BlockHeadersPacket66 id l) = [answer_msg id l hs]) as Es.
  { unfold sent. cbn [header_refs tx_refs block_refs]. rewrite Hd. cbn. unfold encodable. cbn.
    rewrite (proj2 (forallb_forall header_encodable hs)); [done|]. intros h Hh%list_elem_of_In.
    apply header_ok_encodable. rewrite Forall_forall in Hok. by apply Hok. }
  destruct (record_and_send_eq (BlockHeadersPacket66 id l) q) as (o & E & _ & Ho).
  { split_and!; [|by intros x Hx; apply elem_of_nil in Hx..]. cbn. intros x Hx. apply mapM_Some_1 in Hl.
    apply list_elem_of_lookup in Hx as [i Hi]. destruct (Forall2_lookup_l _ _ _ _ _ Hl Hi) as (h & _ & Hh). by exists h. }
  rewrite Es in *. rewrite (is_ok_tt o (proj2 Ho ltac:(done))) in E. eexists. by split; [exact E|].
Qed.

(** The query is short. *)
Lemma query_short id n a s r b :
  is_u64 id -> is_u64 n -> is_u64 a -> is_u64 s -> rlp_val (query_value id (RUint n) a s r) = Ok b -> blen b <= maxMessageSize.
Proof.
  intros H1 H2 H3 H4 E. cbn in E. injection E as <-. unfold blen, maxMessageSize.
  pose proof (rlp_int_short id 8 H1 ltac:(lia)). pose proof (rlp_int_short n 8 H2 ltac:(lia)).
  pose proof (rlp_int_short a 8 H3 ltac:(lia)). pose proof (rlp_int_short s 8 H4 ltac:(lia)).
  assert (length (rlp_str (if r then [Byte.x01] else [])) <= 2)%nat by (destruct r; vm_compute; lia).
  match goal with |- context [rlp_list (?x ++ rlp_list ?y ++ [])] =>
    pose proof (rlp_list_short y); pose proof (rlp_list_short (x ++ rlp_list y ++ [])) end.
  rewrite !length_app in *. cbn [length] in *. unfold two64 in *. lia.
Qed.

Lemma answer_short id hs b :
  (forall b, rlp_val (headers_value hs) = Ok b -> blen b + 64 <= maxMessageSize) -> is_u64 id ->
  rlp_val (RStruct [RUint id; headers_value hs] []) = Ok b -> blen b <= maxMessageSize.
Proof.
  intros Hl Hid E. cbn -[headers_value] in E. destruct (rlp_val (headers_value hs)) as [c|e|e] eqn:Ec; [|done..].
  cbn in E. injection E as <-. specialize (Hl c eq_refl). unfold blen, maxMessageSize in *.
  pose proof (rlp_int_short id 8 Hid ltac:(lia)).
  match goal with |- context [rlp_list ?y] => pose proof (rlp_list_short y) end.
  rewrite !length_app in *. cbn [length] in *. unfold two64 in *. lia.
Qed.

Lemma handle_query {Bk : Backend} D Handle msg id n a s r l hs (q : Peer) :
  in_Code msg = GetBlockHeadersMsg -> in_Size msg <= maxMessageSize ->
  reads_back (wire_Decoder D) (query_msg id n a s r) (in_Payload msg) ->
  headers_from r s (count_limit a) n = l -> mapM (fun x => headers (heap q) !! x) l = Some hs -> Forall header_ok hs ->
  exists q1, @handleMessage Rnd Bk (wire_Decoder D) pop_choice Handle (Ok msg) q = (Ok tt, q1) /\
    wire q1 = wire q ++ [answer_msg id l hs].
Proof.
  intros Hc Hs Hrd Hl Hhs Hok. destruct (answer_sent id l hs q Hhs Hok) as (q1 & E & Ew). exists q1. split; [|done].
  unfold handleMessage. unfold mbind at 1, StM_bind at 1. cbn [pure]. unfold mbind at 1, StM_bind at 1. cbn [pure].
  rewrite (proj2 (Z.leb_le _ _) Hs), Hc. cbn [ensure].
  change (@eth66 Rnd Bk (wire_Decoder D) pop_choice Handle GetBlockHeadersMsg) with (Some (@handleGetBlockHeaders66 Rnd Bk (wire_Decoder D))).
  cbn iota. unfold handleGetBlockHeaders66, decoding.
  unfold mbind at 1, StM_bind at 1. unfold reads_back in Hrd. cbn [packet query_msg] in Hrd. rewrite Hrd. cbn [Prelude.wrap pure].
  unfold mbind at 1, StM_bind at 1, askS. rewrite answer_by_number by done. cbn [q_Reverse q_Skip q_Amount q_Origin on_Number]. by rewrite Hl.
Qed.

Lemma handle_answer {Bk : Backend} D Handle msg id l hs (p : Peer) :
  in_Code msg = BlockHeadersMsg -> in_Size msg <= maxMessageSize ->
  reads_back (wire_Decoder D) (answer_msg id l hs) (in_Payload msg) ->
  @handleMessage Rnd Bk (wire_Decoder D) pop_choice Handle (Ok msg) p = Handle (DBlockHeaders hs) p.
Proof.
  intros Hc Hs Hrd. unfold handleMessage. unfold mbind at 1, StM_bind at 1. cbn [pure]. unfold mbind at 1, StM_bind at 1. cbn [pure].
  rewrite (proj2 (Z.leb_le _ _) Hs), Hc. cbn [ensure]. unfold reads_back in Hrd. cbn [packet answer_msg m_headers] in Hrd.
  change (@eth66 Rnd Bk (wire_Decoder D) pop_choice Handle BlockHeadersMsg) with (Some (@handleBlockHeaders66 Rnd (wire_Decoder D) Handle)). cbn iota. unfold handleBlockHeaders66, decoding.
  unfold mbind at 1, StM_bind at 1. rewrite Hrd. done.
Qed.

(** C24. A node gets the headers it asks for: a request for headers by number is
    encoded, read by the connected node, answered from its chain, encoded and
    read again, and what the first node then delivers to its backend are exactly
    the headers of the other's canonical chain at the numbers asked for, as far
    as they exist and up to 1024, if these headers have fields within their Go
    types and fit a message of 10 MB.  This runs a peer's request and reply methods,
    the encoder, the decoder and the handlers of both nodes one after the
    other; each writes one message. *)
Theorem headers_exchange (BkA BkB : Backend) (DA DB : Decoder) HandleA HandleB (p q : Peer) n amount skip reverse now now' hs :
  is_u64 n ->
  mapM (fun x => headers (heap q) !! x) (@headers_from BkB reverse (u64 skip) (count_limit (u64 amount)) n) = Some hs ->
  Forall header_ok hs ->
  (forall b, rlp_val (headers_value hs) = Ok b -> blen b + 64 <= maxMessageSize) ->
  exists p1 request req q1 answer ans,
    RequestHeadersByNumber n amount skip reverse p = (Ok tt, p1) /\ wire p1 = wire p ++ [request] /\
    transmit_msg now request = Ok req /\
    @handleMessage Rnd BkB (wire_Decoder DB) pop_choice HandleB (Ok req) q = (Ok tt, q1) /\ wire q1 = wire q ++ [answer] /\
    transmit_msg now' answer = Ok ans /\
    @handleMessage Rnd BkA (wire_Decoder DA) pop_choice HandleA (Ok ans) p1 = HandleA (DBlockHeaders hs) p1.
Proof.
  intros Hn Hl Hok Hlen. destruct (request_sent n amount skip reverse p) as (id & p1 & E1 & Hid & W1).
  pose proof (u64_range amount) as Ha. pose proof (u64_range skip) as Hs.
  destruct (transmit_reads_back DB (query_msg id n (u64 amount) (u64 skip) reverse) (query_value id (RUint n) (u64 amount) (u64 skip) reverse) now)
    as (req & T1 & C1 & S1 & _ & R1); [by split_and!|done|intros b; by apply query_short|].
  destruct (@handle_query BkB DB HandleB req id n _ _ reverse _ hs q C1 S1 R1 eq_refl Hl Hok) as (q1 & E2 & W2).
  destruct (transmit_reads_back DA (answer_msg id (@headers_from BkB reverse (u64 skip) (count_limit (u64 amount)) n) hs)
              (RStruct [RUint id; headers_value hs] []) now') as (ans & T2 & C2 & S2 & _ & R2); [by split|done| |].
  { intros b. by apply answer_short. }
  exists p1, (query_msg id n (u64 amount) (u64 skip) reverse), req, q1. eexists _, ans. split_and!; [done..|].
  exact (@handle_answer BkA DA HandleA ans id _ hs p1 C2 S2 R2).
Qed.
End Exchange.

(** ** Two nodes exchange headers *)

Module WireExample.
Import StreamRandom GethPeerSpec.PeerExample EthHandlersSpec.HandlersExample.

Definition zeros (n : nat) : bytes := replicate n Byte.x00.

(** Headers of blocks before and after the base fee was introduced. *)
Definition full_header (n : Z) : Header := {|
  ParentHash := zeros 32; UncleHash := zeros 32; Coinbase := zeros 20; Root := zeros 32; TxHash := zeros 32;
  ReceiptHash := zeros 32; Bloom := zeros 256; Difficulty := Some 2; Number := Some n; GasLimit := 8000000;
  GasUsed := 0; Time := 1000 + n; Extra := [to_byte 1; to_byte 2]; MixDigest := zeros 32; Nonce := zeros 8;
  BaseFee := if n <? 5 then None else Some 1000000000 |}.

Lemma full_header_ok n : 0 <= n < 100 -> header_ok (full_header n).
Proof.
  intros Hn. split; cbn; [by repeat constructor|done..|by exists 2|by exists n; split; [|lia]| |].
  - unfold is_u64, two64. lia.
  - intros f. destruct (n <? 5); [done|]. by intros [= <-].
Qed.

Definition full_heap : Heap := {|
  headers := list_to_map ((fun n : nat => (Pos.of_succ_nat n, full_header (Z.of_nat n))) <$> seq 0 10);
  txs := ∅; blocks := ∅ |}.
Definition server : Peer := set_heap full_heap p0.

(** The headers of blocks 2, 4 and 6. *)
Definition asked : list Header := [full_header 2; full_header 4; full_header 6].

Definition deliver (d : Delivery) : StM Peer unit := mret tt.

Lemma headers_exchange_witness :
  exists p1 ans, RequestHeadersByNumber 2 3 1 false p0 = (Ok tt, p1) /\
    @handleMessage _ ten_blocks (wire_Decoder header_requests) pop deliver (Ok ans) p1 = deliver (DBlockHeaders asked) p1.
Proof.
  destruct (headers_exchange pop ten_blocks ten_blocks header_requests header_requests deliver deliver p0 server 2 3 1 false 0 0 asked)
    as (p1 & request & req & q1 & answer & ans & E1 & _ & _ & _ & _ & _ & E2).
  - unfold is_u64, two64. lia.
  - vm_compute. reflexivity.
  - repeat constructor; apply full_header_ok; lia.
  - intros b E. vm_compute in E. injection E as <-. vm_compute. discriminate.
  - exists p1, ans. split; [exact E1|exact E2].
Defined.

(** An announcement of a block, as bytes and back. *)
Definition announcement_msg : Msg :=
  {| Code := NewBlockHashesMsg; packet := NewBlockHashesPacket [(zeros 32, 7)]; m_headers := []; m_txs := []; m_blocks := [] |}.

Example announcement_roundtrip :
  exists payload, EncodeToBytes (RSlice [RStruct [RByteArray (zeros 32); RUint 7] []]) = Ok payload /\
    @Decode_NewBlockHashes (wire_Decoder header_requests) payload = Ok [(zeros 32, 7)].
Proof.
  apply (wire_roundtrip header_requests announcement_msg); [|reflexivity|].
  - constructor; [|constructor]. split; [reflexivity|]. unfold is_u64, two64. cbn. lia.
  - intros b E. vm_compute in E. injection E as <-. vm_compute. discriminate.
Qed.
End WireExample.
