(* ===== verification/EthBroadcast.v ===== *)
(** * The write loops of an Ethereum peer

    eth/protocols/eth/broadcast.go: three goroutines per peer that write what the
    asynchronous send methods queued.  The loops for transactions and for
    announcements of transactions pile up hashes in packs and let a writer
    goroutine send one pack at a time; the third loop sends blocks and block
    announcements.

    A loop and its writer are a labelled transition system that is interleaved
    with everything else the peer does.  One step of the loop is one pass: the
    case of [select] that was chosen, and the code from there to the next
    [select].  The transaction pool may differ from pass to pass and is an
    argument of the step; the cached size of a transaction is a function of its
    pointer, and sizes, sums of a few thousand floats, are integers. *)

From S2P Require Import Prelude Randomness EthTypes GethFuzzer GethPeerSpec.

Definition maxTxPacketSize : Z := 102400.
Definition maxQueuedTxs : nat := 4096.
Definition maxQueuedTxAnns : nat := 4096.

(** [txpool.Get]. *)
Abbreviation TxPool := (Hash -> option loc).

Section Channels.
Context {Rnd : Randomness}.

(** What the peer's channels of one kind still hold, and the receipt of the first
    batch. *)
Definition take_broadcast (p : Peer) : Peer :=
  set_queues (queuedBlocks p) (queuedBlockAnns p) (tail (txBroadcast p)) (txAnnounce p) p.
Definition take_announce (p : Peer) : Peer :=
  set_queues (queuedBlocks p) (queuedBlockAnns p) (txBroadcast p) (tail (txAnnounce p)) p.

(** In what the two loops differ: the channel they read, the capacity of the queue,
    how they pile a pack and the method that sends it. *)
Record Writer (A : Type) := {
  w_channel : Peer -> list (list Hash);
  w_take : Peer -> Peer;
  w_cap : nat;
  w_pile : TxPool -> list Hash -> nat * list A;
  w_send : list A -> StM Peer unit;
}.
End Channels.
Arguments w_channel {Rnd A}.
Arguments w_take {Rnd A}.
Arguments w_cap {Rnd A}.
Arguments w_pile {Rnd A}.
Arguments w_send {Rnd A}.

(** ** A loop and its writer *)

(** The goroutine behind a channel [done] that is not nil: it is still writing its
    pack, it has closed the channel, or it has reported an error and is gone,
    and the channel is never closed. *)
Inductive Flight (A : Type) := Writing (pack : list A) | Closed | Lost.
Arguments Writing {A}.
Arguments Closed {A}.
Arguments Lost {A}.

(** The variables of the two functions; [fail] is whether the buffered channel
    holds an error, [stopped] that the function has returned.
    [geth:eth/protocols/eth/broadcast.go:66-71] broadcastTransactions *)
Record Loop (A : Type) := {
  queue : list Hash;
  done : option (Flight A);
  fail : bool;
  failed : bool;
  stopped : bool;
}.
Arguments queue {A}.
Arguments done {A}.
Arguments fail {A}.
Arguments failed {A}.
Arguments stopped {A}.

Definition set_queue {A} q (l : Loop A) : Loop A :=
  {| queue := q; done := done l; fail := fail l; failed := failed l; stopped := stopped l |}.
Definition set_done {A} d (l : Loop A) : Loop A :=
  {| queue := queue l; done := d; fail := fail l; failed := failed l; stopped := stopped l |}.
Definition set_fail {A} x y (l : Loop A) : Loop A :=
  {| queue := queue l; done := done l; fail := x; failed := y; stopped := stopped l |}.
Definition stop {A} (l : Loop A) : Loop A :=
  {| queue := queue l; done := done l; fail := fail l; failed := failed l; stopped := true |}.

Definition idle_loop {A} : Loop A := {| queue := []; done := None; fail := false; failed := false; stopped := false |}.

(** What an observer of a loop sees: a batch was taken into the queue, and the
    oldest hashes fell out of it; a batch was taken and discarded; a chunk left
    the queue as a pack; a pack was written. *)
Inductive Label (A : Type) :=
| Queued (batch dropped : list Hash)
| Discarded (batch : list Hash)
| Packed (chunk : list Hash) (pack : list A)
| Wrote (pack : list A).
Arguments Queued {A}.
Arguments Discarded {A}.
Arguments Packed {A}.
Arguments Wrote {A}.

Section Loops.
Context {Rnd : Randomness}.
Context (pop_choice : gset Hash -> option Hash).
Context (tx_Size : loc -> Z).

(** *** Piling *)

(** How many hashes leave the queue, and the transactions found for them.
    [geth:eth/protocols/eth/broadcast.go:76-88] Peer.broadcastTransactions *)
Fixpoint pile_txs (Get : TxPool) (size : Z) (q : list Hash) : nat * list loc :=
  match q with
  | [] => (O, [])
  | h :: rest =>
      if size <? maxTxPacketSize then
        match Get h with
        | Some tx => let '(n, txs) := pile_txs Get (size + tx_Size tx) rest in (S n, tx :: txs)
        | None => let '(n, txs) := pile_txs Get size rest in (S n, txs)
        end
      else (O, [])
  end.

(** [geth:eth/protocols/eth/broadcast.go:143-155] Peer.announceTransactions *)
Fixpoint pile_hashes (Get : TxPool) (size : Z) (q : list Hash) : nat * list Hash :=
  match q with
  | [] => (O, [])
  | h :: rest =>
      if size <? maxTxPacketSize then
        match Get h with
        | Some _ => let '(n, pending) := pile_hashes Get (size + Z.of_nat HashLength) rest in (S n, h :: pending)
        | None => let '(n, pending) := pile_hashes Get size rest in (S n, pending)
        end
      else (O, [])
  end.

(** [geth:eth/protocols/eth/broadcast.go] Peer.broadcastTransactions *)
Definition broadcastTransactions : Writer loc := {|
  w_channel := txBroadcast;
  w_take := take_broadcast;
  w_cap := maxQueuedTxs;
  w_pile := fun Get q => pile_txs Get 0 q;
  w_send := SendTransactions pop_choice |}.

(** [geth:eth/protocols/eth/broadcast.go] Peer.announceTransactions *)
Definition announceTransactions : Writer Hash := {|
  w_channel := txAnnounce;
  w_take := take_announce;
  w_cap := maxQueuedTxAnns;
  w_pile := fun Get q => pile_hashes Get 0 q;
  w_send := sendPooledTransactionHashes pop_choice |}.

(** *** Steps *)

Section Writer.
Context {A : Type} (W : Writer A).

(** The head of the loop: with no writer running, the next pack is started.
    [geth:eth/protocols/eth/broadcast.go:73-102] Peer.broadcastTransactions *)
Definition schedule (Get : TxPool) (l : Loop A) : Loop A * list (Label A) :=
  match done l, queue l with
  | None, _ :: _ =>
      let '(n, pack) := w_pile W Get (queue l) in
      (set_queue (drop n (queue l)) (set_done (match pack with [] => None | _ => Some (Writing pack) end) l),
       [Packed (take n (queue l)) pack])
  | _, _ => (l, [])
  end.

(** [if len(queue) > max { queue = queue[:copy(queue, queue[len(queue)-max:])] }]:
    what falls out, and the newest hashes, which stay. *)
Definition cap_queue (q : list Hash) : list Hash * list Hash :=
  let n := if (w_cap W <? length q)%nat then (length q - w_cap W)%nat else 0%nat in (take n q, drop n q).

(** The cases of [select]. *)
Inductive Select := SelHashes | SelDone | SelFail | SelTerm.

Definition Sys : Type := Peer * Loop A.

(** A case that is not ready is not chosen.
    [geth:eth/protocols/eth/broadcast.go:104-125] Peer.broadcastTransactions *)
Definition select (c : Select) (s : Sys) : option (Sys * list (Label A)) :=
  let '(p, l) := s in
  match c with
  | SelHashes =>
      match w_channel W p with
      | [] => None
      | batch :: _ =>
          if failed l then Some ((w_take W p, l), [Discarded batch])
          else
            let '(dropped, q) := cap_queue (queue l ++ batch) in
            Some ((w_take W p, set_queue q l), [Queued batch dropped])
      end
  | SelDone => match done l with Some Closed => Some ((p, set_done None l), []) | _ => None end
  | SelFail => if fail l then Some ((p, set_fail false true l), []) else None
  | SelTerm => Some ((p, stop l), [])
  end.

(** Sending over a connection that may be down: everything but the write happens. *)
Definition send_over (up : bool) (m : StM Peer unit) : StM Peer unit := fun p =>
  if up then m p
  else match m p with
       | (Ok _, q) => (Err "connection closed", set_wire (wire p) q)
       | r => r
       end.

(** A step of the system: a pass of the loop, the writer's call of the send method,
    or anything else the peer does. *)
Inductive Event := Pass (c : Select) (Get : TxPool) | Write (up : bool) | Other (o : PeerOp).

(** [None] where the event cannot happen; the outcome is that of the call made.
    [geth:eth/protocols/eth/broadcast.go:72-126] Peer.broadcastTransactions *)
Definition step (e : Event) (s : Sys) : option (outcome unit * Sys * list (Label A)) :=
  match e with
  | Pass c Get =>
      if stopped s.2 then None
      else
        '(s', ls) ← select c s;
        if stopped s'.2 then Some (Ok tt, s', ls)
        else let '(l', ls') := schedule Get s'.2 in Some (Ok tt, (s'.1, l'), ls ++ ls')
  | Write up =>
      match done s.2 with
      | Some (Writing pack) =>
          match send_over up (w_send W pack) s.1 with
          | (Ok _, p') => Some (Ok tt, (p', set_done (Some Closed) s.2), [Wrote pack])
          | (Err _, p') => Some (Ok tt, (p', set_fail true (failed s.2) (set_done (Some Lost) s.2)), [])
          | (Panic x, p') => Some (Panic x, (p', s.2), [])
          end
      | _ => None
      end
  | Other o =>
      let '(r, p') := run_op pop_choice o s.1 in
      Some (match r with Panic x => Panic x | _ => Ok tt end, (p', s.2), [])
  end.
End Writer.

(** ** Blocks *)

(** Either queue may be served next. *)
Inductive BlockSelect := SelBlock | SelAnn | SelBlockTerm.

Definition take_block (p : Peer) : Peer :=
  set_queues (tail (queuedBlocks p)) (queuedBlockAnns p) (txBroadcast p) (txAnnounce p) p.
Definition take_ann (p : Peer) : Peer :=
  set_queues (queuedBlocks p) (tail (queuedBlockAnns p)) (txBroadcast p) (txAnnounce p) p.

(** One pass; the state says whether the loop still runs, and [up] whether the
    connection does.
    [geth:eth/protocols/eth/broadcast.go] Peer.broadcastBlocks *)
Definition broadcastBlocks (c : BlockSelect) (up : bool) (p : Peer) : option (outcome bool * Peer) :=
  let finish (r : outcome unit * Peer) :=
    Some (match r.1 with Ok _ => Ok true | Err _ => Ok false | Panic x => Panic x end, r.2) in
  match c with
  | SelBlock =>
      match queuedBlocks p with
      | [] => None
      | (b, t) :: _ => finish (send_over up (SendNewBlock pop_choice b t) (take_block p))
      end
  | SelAnn =>
      match queuedBlockAnns p with
      | [] => None
      | b :: _ =>
          finish (send_over up
            (blk ← askS (fun p => deref (blocks (heap p) !! b));
             n ← pure (number_of (b_header blk));
             SendNewBlockHashes pop_choice [b_hash blk] [n]) (take_ann p))
      end
  | SelBlockTerm => Some (Ok false, p)
  end.
End Loops.
