(* ===== verification/EthBroadcastSpec.v ===== *)
(** * Correctness of the write loops

    What the loops of EthBroadcast.v do to the hashes handed to them, whatever else
    the peer does meanwhile: the queue is a FIFO that is never left waiting
    without a writer, packs keep their size, a failed write ends all writing. *)

From S2P Require Import Prelude Randomness EthTypes GethFuzzer GethFuzzerSpec GethPeerSpec EthBroadcast.

(** ** What any operation leaves alone *)

Section Keeps.
Context {Rnd : Randomness} {RndOk : RandomnessOk}.
Context (pop_choice : gset Hash -> option Hash).
Context (pop_ok : forall s, s <> ∅ -> exists x, pop_choice s = Some x /\ x ∈ s).

(** Objects stay, the wire and the channels of hashes only grow. *)
Record grows (p q : Peer) : Prop := {
  gr_txs : forall x, is_Some (txs (heap p) !! x) -> is_Some (txs (heap q) !! x);
  gr_wire : exists new, wire q = wire p ++ new;
  gr_broadcast : exists new, txBroadcast q = txBroadcast p ++ new;
  gr_announce : exists new, txAnnounce q = txAnnounce p ++ new;
}.

Lemma app_nil_ex {A} (l : list A) : exists new, l = l ++ new.
Proof. exists []. by rewrite app_nil_r. Qed.

Lemma grows_same p q :
  heap q = heap p -> wire q = wire p -> txBroadcast q = txBroadcast p -> txAnnounce q = txAnnounce p -> grows p q.
Proof. intros E1 E2 E3 E4. split; rewrite ?E1, ?E2, ?E3, ?E4; [done|apply app_nil_ex..]. Qed.

#[export] Instance grows_preorder : PreOrder grows.
Proof.
  split; [intros p; by apply grows_same|]. intros p q r [H1 [w1 E1] [b1 F1] [a1 G1]] [H2 [w2 E2] [b2 F2] [a2 G2]].
  split; [intros x Hx; by apply H2, H1|exists (w1 ++ w2)|exists (b1 ++ b2)|exists (a1 ++ a2)]; rewrite app_assoc; congruence.
Qed.

Lemma grows_record_and_send m p : refs_ok (heap p) m -> grows p (record_and_send m p).2.
Proof.
  intros Hm. destruct (record_and_send_eq m p Hm) as (o & -> & _ & _). cbn. split; cbn; [done|by eexists|apply app_nil_ex..].
Qed.

Lemma grows_fuzzed code i m m' r hp p :
  heap_frame m (heap p) hp -> grows p (fuzzed code i m' r hp p).
Proof.
  intros Hf. split; cbn; [|by eexists|apply app_nil_ex..]. intros x Hx. eapply objects_frame_dom; [apply (hf_txs _ _ _ Hf)|done].
Qed.

Lemma grows_FuzzTransactions n p : peer_inv p -> grows p (FuzzTransactions n p).2.
Proof.
  revert p. induction n as [|n IH]; intros p Hp; [done|]. cbn [FuzzTransactions]. unfold TransactionsMsgFuzzed.
  unfold mbind, StM_bind. destruct (decide (pool TransactionsMsg p = [])) as [E|Hne].
  - rewrite fuzz_seed_empty by done. by apply IH.
  - destruct (fuzz_seed_effect TransactionsMsg p (pi_ok _ Hp) Hne) as (m & m' & r & hp & Hm & Hmut & Hfr & _ & ->).
    etrans; [by eapply grows_fuzzed|]. apply IH. destruct Hp. split; try done. by eapply peer_ok_fuzzed.
Qed.

Lemma grows_FuzzMessages times p : peer_inv p -> grows p (FuzzMessages times p).2.
Proof.
  intros Hp. destruct (FuzzMessages_effect times p (pi_ok _ Hp)) as (q & E & H). rewrite E. cbn. destruct H.
  split; cbn.
  - intros x Hx. destruct (le_objects (TransactionsPacket [x])) as (_ & H & _).
    + split_and!; [by intros y Hy; apply elem_of_nil in Hy| |by intros y Hy; apply elem_of_nil in Hy].
      intros y Hy. by apply list_elem_of_singleton in Hy as ->.
    + apply H. cbn. left.
  - destruct le_wire as (new & E' & _). by exists new.
  - rewrite (proj1 le_channels). apply app_nil_ex.
  - rewrite (proj2 le_channels). apply app_nil_ex.
Qed.

(** Sending after a change of the known hashes or of the generator. *)
Lemma grows_then_send m p p' :
  heap p' = heap p -> wire p' = wire p -> txBroadcast p' = txBroadcast p -> txAnnounce p' = txAnnounce p ->
  refs_ok (heap p) m -> grows p (record_and_send m p').2.
Proof. intros E1 E2 E3 E4 Hm. etrans; [by apply (grows_same p p')|]. apply grows_record_and_send. by rewrite E1. Qed.

Lemma grows_draw_send {A} (f : RNG -> A * RNG) (m : A -> Packet) p :
  (forall a, refs_ok (heap p) (m a)) -> grows p ((draw f ≫= fun a => record_and_send (m a)) p).2.
Proof.
  intros Hm. unfold mbind, StM_bind, draw. destruct (f (rng p)) as [a r]. by apply grows_then_send.
Qed.

Lemma grows_SendTransactions l p :
  op_ok (heap p) (OpSendTransactions l) -> grows p (SendTransactions pop_choice l p).2.
Proof.
  intros [Hr _]. unfold SendTransactions, mbind, StM_bind, askS. destruct (deref_all_ok _ _ Hr) as [ts E]. rewrite E. cbn [putS].
  apply grows_then_send; try done. by split_and!; intros x Hx; [apply elem_of_nil in Hx|apply Hr|apply elem_of_nil in Hx].
Qed.

Lemma grows_op o p : op_ok (heap p) o -> peer_inv p -> grows p (run_op pop_choice o p).2.
Proof.
  intros Ho Hp.
  destruct o; cbn [run_op op_ok] in *;
    try (by apply grows_same);
    try (apply grows_draw_send; intros; by apply no_refs);
    try (apply grows_then_send; try done; by apply no_refs).
  - by apply grows_SendTransactions.
  - unfold AsyncSendTransactions. destruct terminated; [done|]. split; cbn; [done|apply app_nil_ex|by eexists|apply app_nil_ex].
  - unfold AsyncSendPooledTransactionHashes. destruct terminated; [done|].
    split; cbn; [done|apply app_nil_ex|apply app_nil_ex|by eexists].
  - unfold SendNewBlockHashes, mbind, StM_bind, putS. destruct Ho as [_ Ho]. rewrite (proj2 (Nat.ltb_ge _ _) Ho).
    apply grows_then_send; try done. by apply no_refs.
  - destruct Ho as [blk Hb]. unfold AsyncSendNewBlockHash, mbind, StM_bind, getS, askS, putS.
    case_match; [|done]. cbn [heap set_queues]. rewrite Hb. by apply grows_same.
  - destruct Ho as [blk Hb]. unfold SendNewBlock, mbind, StM_bind, askS, putS. rewrite Hb. apply grows_then_send; try done.
    split_and!; intros x Hx; [by apply elem_of_nil in Hx..|]. apply list_elem_of_singleton in Hx as ->. by exists blk.
  - destruct Ho as [blk Hb]. unfold AsyncSendNewBlock, mbind, StM_bind, getS, askS, putS.
    case_match; [|done]. cbn [heap set_queues]. rewrite Hb. by apply grows_same.
  - apply grows_then_send; try done. split_and!; intros x Hx; [by apply Ho|by apply elem_of_nil in Hx..].
  - by apply grows_FuzzMessages.
  - by apply grows_FuzzTransactions.
Qed.
End Keeps.

(** ** Piling *)

Section Pile.
Context {A : Type} (pick : Hash -> option A) (sz : A -> Z).

(** The two piling loops in one: what is found for the hashes is collected until
    its size reaches the limit. *)
Fixpoint pile (size : Z) (q : list Hash) : nat * list A :=
  match q with
  | [] => (O, [])
  | h :: rest =>
      if size <? maxTxPacketSize then
        match pick h with
        | Some x => let '(n, l) := pile (size + sz x) rest in (S n, x :: l)
        | None => let '(n, l) := pile size rest in (S n, l)
        end
      else (O, [])
  end.

Definition total_size (l : list A) : Z := foldr (fun x acc => sz x + acc) 0 l.

(** A pack as the code promises it: what is found for the chunk, as much as fits,
    only the last element going over the limit; the rest of the queue waits
    only when the limit is reached. *)
Record good_pack (q : list Hash) (n : nat) (pack : list A) (size : Z) : Prop := {
  gp_length : (n <= length q)%nat;
  gp_found : pack = omap pick (take n q);
  gp_limit : forall init x, pack = init ++ [x] -> size + total_size init < maxTxPacketSize;
  gp_full : (n < length q)%nat -> maxTxPacketSize <= size + total_size pack;
}.

Lemma pile_good size q : good_pack q (pile size q).1 (pile size q).2 size.
Proof.
  revert size. induction q as [|h q IH]; intros size; [split; cbn; [lia|done|by intros []|lia]|]. cbn.
  destruct (Z.ltb_spec size maxTxPacketSize) as [Hlt|Hge].
  - destruct (pick h) as [x|] eqn:E.
    + specialize (IH (size + sz x)). destruct (pile (size + sz x) q) as [n l]. destruct IH as [H1 H2 H3 H4]. cbn in *.
      split; cbn; [lia|by rewrite E, <- H2| |].
      * intros init y. destruct init as [|z init]; cbn; [lia|]. intros [= <- ->]. specialize (H3 init y eq_refl). fold (total_size init). lia.
      * intros Hn. specialize (H4 ltac:(lia)). unfold total_size in *. lia.
    + specialize (IH size). destruct (pile size q) as [n l]. destruct IH as [H1 H2 H3 H4]. cbn in *.
      split; cbn; [lia|by rewrite E, <- H2|done|]. intros Hn. apply H4. lia.
  - split; cbn; [lia|done| |lia]. by intros [].
Qed.

Lemma pile_progress q : q <> [] -> (1 <= (pile 0 q).1)%nat.
Proof. destruct q as [|h q]; [done|]. intros _. cbn. destruct (pick h); by destruct (pile _ q) as [n l]; cbn; lia. Qed.

Lemma pile_nothing q : (pile 0 q).2 = [] -> (pile 0 q).1 = length q.
Proof.
  intros E. destruct (pile_good 0 q) as [H1 _ _ H4]. rewrite E in H4. cbn in H4.
  destruct (decide ((pile 0 q).1 < length q)%nat) as [H|H]; [|lia]. specialize (H4 H). unfold maxTxPacketSize in H4. lia.
Qed.
End Pile.

Lemma pile_txs_eq tx_Size Get size q : pile_txs tx_Size Get size q = pile Get tx_Size size q.
Proof. revert size. induction q as [|h q IH]; intros size; cbn; [done|]. destruct (Get h); by rewrite IH. Qed.

Definition pick_hash (Get : TxPool) (h : Hash) : option Hash := Get h ≫= fun _ => Some h.

Lemma pile_hashes_eq Get size q : pile_hashes Get size q = pile (pick_hash Get) (fun _ => Z.of_nat HashLength) size q.
Proof. revert size. unfold pick_hash. induction q as [|h q IH]; intros size; cbn; [done|]. destruct (Get h); cbn; by rewrite IH. Qed.

(** ** What a loop promises about its writer *)

Section Promise.
Context {Rnd : Randomness}.

Class WriterSpec {A} (W : Writer A) := {
  (** What is sent for a hash, its size, the packet, and when it can be encoded. *)
  wk_pick : TxPool -> Hash -> option A;
  wk_size : A -> Z;
  wk_packet : list A -> Packet;
  wk_item : Heap -> A -> Prop;
  wk_encodable : Heap -> A -> Prop;
}.

(** The pool holds pointers to objects. *)
Definition pool_ok (hp : Heap) (Get : TxPool) : Prop := forall h x, Get h = Some x -> is_Some (txs hp !! x).

Class WriterOk {A} (W : Writer A) `{!WriterSpec W} := {
  wk_pile Get q : w_pile W Get q = pile (wk_pick Get) wk_size 0 q;
  wk_cap : Z.of_nat (w_cap W) <= maxKnownTxs;
  wk_take p : peer_inv p -> peer_inv (w_take W p) /\ heap (w_take W p) = heap p /\ wire (w_take W p) = wire p;
  wk_channel_take p : w_channel W (w_take W p) = tail (w_channel W p);
  wk_channel_send p pack : w_channel W (w_send W pack p).2 = w_channel W p;
  wk_channel_wire p x : w_channel W (set_wire x p) = w_channel W p;
  wk_channel_grows p q : grows p q -> exists new, w_channel W q = w_channel W p ++ new;
  wk_valid hp Get h x : pool_ok hp Get -> wk_pick Get h = Some x -> wk_item hp x;
  wk_mono p q x : grows p q -> wk_item (heap p) x -> wk_item (heap q) x;
  wk_send p pack :
    peer_inv p -> Forall (wk_item (heap p)) pack -> (length pack <= w_cap W)%nat ->
    exists o q, w_send W pack p = (o, q) /\ (forall e, o <> Panic e) /\ peer_inv q /\ heap q = heap p /\
      match o with
      | Ok _ => exists m, wire q = wire p ++ [m] /\ packet m = wk_packet pack
      | _ => wire q = wire p
      end /\ (Forall (wk_encodable (heap p)) pack -> o = Ok tt);
}.
End Promise.

Section Instances.
Context {Rnd : Randomness} {RndOk : RandomnessOk}.
Context (pop_choice : gset Hash -> option Hash).
Context (pop_ok : forall s, s <> ∅ -> exists x, pop_choice s = Some x /\ x ∈ s).
Context (tx_Size : loc -> Z).

Lemma inv_take_queues p tb ta :
  peer_inv p -> peer_inv (set_queues (queuedBlocks p) (queuedBlockAnns p) tb ta p).
Proof. by intros []. Qed.

(** Recording and sending a packet, as the laws describe it. *)
Lemma send_outcome m p p' :
  peer_inv p' -> heap p' = heap p -> wire p' = wire p -> refs_ok (heap p) m ->
  exists o q, record_and_send m p' = (o, q) /\ (forall e, o <> Panic e) /\ peer_inv q /\ heap q = heap p /\
    match o with Ok _ => exists x, wire q = wire p ++ [x] /\ packet x = m | _ => wire q = wire p end /\
    (sent (heap p) (Kind m) m <> [] -> o = Ok tt).
Proof.
  intros Hp Eh Ew Hm. rewrite <- Eh in Hm. destruct (safe_record_and_send m p' Hm Hp) as [Hq _].
  destruct (record_and_send_eq m p' Hm) as (o & E & Hn & Ho). rewrite E in Hq. eexists _, _. split; [exact E|].
  rewrite Eh in *. split_and!; [done..| |].
  - cbn. rewrite Ew. destruct (sent_cases (heap p) (Kind m) m) as [Es|(x & Es & _ & Ep)].
    + rewrite Es, app_nil_r. destruct o; [|done..]. by destruct (proj1 Ho eq_refl).
    + rewrite Es. destruct o as [u|e|e]; [by exists x|..]; exfalso; cbn in Ho; rewrite Es in Ho; naive_solver.
  - intros Hs. apply Ho in Hs. by destruct o as [[]| |].
Qed.

Lemma record_and_send_channels m p :
  txBroadcast (record_and_send m p).2 = txBroadcast p /\ txAnnounce (record_and_send m p).2 = txAnnounce p.
Proof. unfold record_and_send, Send, mbind, StM_bind, putS, askS, pure. cbn. by repeat case_match. Qed.

#[export] Instance broadcast_spec : WriterSpec (broadcastTransactions pop_choice tx_Size) := {
  wk_pick := fun Get => Get;
  wk_size := tx_Size;
  wk_packet := TransactionsPacket;
  wk_item := fun hp x => is_Some (txs hp !! x);
  wk_encodable := fun hp x => exists t, txs hp !! x = Some t /\ tx_encodable t = true;
}.

#[export] Instance announce_spec : WriterSpec (announceTransactions pop_choice) := {
  wk_pick := pick_hash;
  wk_size := fun _ => Z.of_nat HashLength;
  wk_packet := NewPooledTransactionHashesPacket;
  wk_item := fun _ _ => True;
  wk_encodable := fun _ _ => True;
}.

Lemma txs_sent hp l :
  Forall (fun x => exists t, txs hp !! x = Some t /\ tx_encodable t = true) l ->
  exists ts, deref_all (txs hp) l = Ok ts /\ forallb tx_encodable ts = true.
Proof.
  induction 1 as [|x l (t & Ex & Et) _ (ts & E & Hts)]; [by exists []|]. exists (t :: ts).
  split; [|cbn; by rewrite Et, Hts]. change (deref_all (txs hp) (x :: l)) with (a ← deref (txs hp !! x); rest ← deref_all (txs hp) l; mret (a :: rest)).
  by rewrite Ex, E.
Qed.

#[export] Instance broadcast_ok : WriterOk (broadcastTransactions pop_choice tx_Size).
Proof.
  split.
  - intros. apply pile_txs_eq.
  - done.
  - intros p Hp. split_and!; [by apply inv_take_queues|done..].
  - done.
  - intros p pack. cbn. unfold SendTransactions, mbind, StM_bind, askS, putS. destruct (deref_all _ pack) as [ts|e|e]; [|done..].
    by rewrite (proj1 (record_and_send_channels _ _)).
  - done.
  - intros p q Hg. apply (gr_broadcast _ _ Hg).
  - intros hp Get h x Hpool E. by apply (Hpool h).
  - intros p q x Hg. apply (gr_txs _ _ Hg).
  - intros p pack Hp Hi Hl. cbn in *. unfold SendTransactions, mbind, StM_bind, askS. rewrite Forall_forall in Hi.
    destruct (deref_all_ok _ _ Hi) as [ts E]. rewrite E. cbn [putS].
    destruct (send_outcome (TransactionsPacket pack) p (markTransactions pop_choice (tx_hash <$> ts) p))
      as (o & q & E' & H1 & H2 & H3 & H4 & H5); [|done..| |].
    + apply inv_markTransactions; [done| |done]. rewrite length_fmap, (deref_all_length _ _ _ E).
      unfold maxQueuedTxs, maxKnownTxs in *. lia.
    + by split_and!; intros x Hx; [apply elem_of_nil in Hx|apply Hi|apply elem_of_nil in Hx].
    + exists o, q. split_and!; try done. intros He. apply H5. apply txs_sent in He as (ts' & E2 & He).
      rewrite E in E2. injection E2 as <-. unfold sent. cbn [header_refs tx_refs block_refs]. rewrite E. cbn. by rewrite He.
Qed.

#[export] Instance announce_ok : WriterOk (announceTransactions pop_choice).
Proof.
  split.
  - intros. apply pile_hashes_eq.
  - done.
  - intros p Hp. split_and!; [by apply inv_take_queues|done..].
  - done.
  - intros p pack. cbn. unfold sendPooledTransactionHashes, mbind, StM_bind, putS.
    by rewrite (proj2 (record_and_send_channels _ _)).
  - done.
  - intros p q Hg. apply (gr_announce _ _ Hg).
  - done.
  - done.
  - intros p pack Hp Hi Hl. cbn in *. unfold sendPooledTransactionHashes, mbind, StM_bind, putS.
    destruct (send_outcome (NewPooledTransactionHashesPacket pack) p (markTransactions pop_choice pack p))
      as (o & q & E' & H1 & H2 & H3 & H4 & H5); [|done..| |].
    + apply inv_markTransactions; [done| |done]. unfold maxQueuedTxAnns, maxKnownTxs in *. lia.
    + by apply no_refs.
    + exists o, q. split_and!; try done. intros _. by apply H5.
Qed.
End Instances.

(** ** The system *)

Section LoopSpec.
Context {Rnd : Randomness} {RndOk : RandomnessOk}.
Context (pop_choice : gset Hash -> option Hash).
Context (pop_ok : forall s, s <> ∅ -> exists x, pop_choice s = Some x /\ x ∈ s).
Context {A : Type} (W : Writer A) `{!WriterSpec W, !WriterOk W}.

Abbreviation step := (EthBroadcast.step pop_choice W).

(** What the variables of a loop say about its writer; hashes wait only behind a
    writer, except within a pass, and there is never a second error for the
    channel that buffers one. *)
Definition flight_ok (between : bool) (hp : Heap) (l : Loop A) : Prop :=
  match done l with
  | None => (between = true -> queue l = []) /\ fail l = false /\ failed l = false
  | Some (Writing pack) =>
      pack <> [] /\ (length pack <= w_cap W)%nat /\ Forall (wk_item hp) pack /\ fail l = false /\ failed l = false
  | Some Closed => fail l = false /\ failed l = false
  | Some Lost => fail l = negb (failed l)
  end.

Record sys_inv (s : Sys) : Prop := {
  si_peer : peer_inv s.1;
  si_queue : (length (queue s.2) <= w_cap W)%nat;
  si_flight : flight_ok true (heap s.1) s.2;
}.

(** What the surroundings guarantee. *)
Definition event_ok (s : Sys (A := A)) (e : Event) : Prop :=
  match e with
  | Pass _ Get => pool_ok (heap s.1) Get
  | Write _ => True
  | Other o => op_ok (heap s.1) o
  end.

(** *** One step *)

Lemma omap_length {B C} (f : B -> option C) l : (length (omap f l) <= length l)%nat.
Proof. induction l as [|x l IH]; cbn; [done|]. destruct (f x); cbn; lia. Qed.

Lemma schedule_inv hp Get l :
  pool_ok hp Get -> (length (queue l) <= w_cap W)%nat -> flight_ok false hp l ->
  flight_ok true hp (schedule W Get l).1 /\ (length (queue (schedule W Get l).1) <= w_cap W)%nat.
Proof.
  intros Hpool Hq Hf. unfold schedule. destruct (done l) as [f|] eqn:Ed.
  { split; [|done]. unfold flight_ok in *. cbn [fst]. rewrite Ed in Hf |- *. by destruct f. }
  unfold flight_ok in Hf. rewrite Ed in Hf. destruct Hf as (_ & Hfail & Hfd).
  destruct (queue l) as [|h q] eqn:Eq; [cbn [fst]; split; [unfold flight_ok; by rewrite Ed, Eq|rewrite Eq; cbn; lia]|].
  rewrite wk_pile. pose proof (pile_good (wk_pick Get) wk_size 0 (h :: q)) as Hg.
  pose proof (pile_nothing (wk_pick Get) wk_size (h :: q)) as Hno.
  destruct (pile _ _ 0 (h :: q)) as [n pack]. destruct Hg as [H1 H2 _ _]. cbn [fst snd] in *.
  split; [|cbn [queue set_queue]; rewrite length_drop; lia]. unfold flight_ok. destruct pack as [|x pack]; cbn [done set_queue set_done].
  - split; [|done]. intros _. rewrite Hno by done. apply drop_all.
  - split_and!; try done.
    + rewrite H2. etrans; [apply omap_length|]. rewrite length_take. lia.
    + apply Forall_forall. intros y Hy. rewrite H2 in Hy. apply list_elem_of_omap in Hy as (k & _ & Ek). by eapply wk_valid.
Qed.

Lemma cap_queue_length q : (length (cap_queue W q).2 <= w_cap W)%nat.
Proof. unfold cap_queue. cbv zeta. cbn [snd]. destruct (Nat.ltb_spec (w_cap W) (length q)); rewrite length_drop; lia. Qed.

Lemma select_inv c s s' ls :
  sys_inv s -> select W c s = Some (s', ls) ->
  peer_inv s'.1 /\ heap s'.1 = heap s.1 /\ wire s'.1 = wire s.1 /\ (length (queue s'.2) <= w_cap W)%nat /\
  flight_ok false (heap s.1) s'.2 /\ (stopped s.2 = false -> stopped s'.2 = true -> s' = (s.1, stop s.2)).
Proof.
  destruct s as [p l]. intros [Hp Hq Hf]. cbn [fst snd] in *. assert (flight_ok false (heap p) l) as Hf'.
  { unfold flight_ok in *. destruct (done l) as [[]|]; naive_solver. }
  destruct c; cbn [select]; intros Hs.
  - destruct (w_channel W p) as [|b bs]; [done|]. destruct (wk_take p Hp) as (H1 & H2 & H3). destruct (failed l) eqn:Efd.
    + injection Hs as <- <-. cbn. split_and!; try done. congruence.
    + pose proof (cap_queue_length (queue l ++ b)) as Hc. destruct (cap_queue W _) as [d q']. injection Hs as <- <-. cbn in *.
      split_and!; try done; [|congruence]. unfold flight_ok in *. cbn in *.
      destruct (done l) as [[]|]; naive_solver.
  - destruct (done l) as [[]|] eqn:Ed; try done. injection Hs as <- <-. cbn. unfold flight_ok in Hf. rewrite Ed in Hf.
    destruct Hf as [Hf1 Hf2]. split_and!; try done; congruence.
  - destruct (fail l) eqn:Ef; [|done]. injection Hs as <- <-. cbn. split_and!; try done; [|congruence].
    unfold flight_ok in *. cbn. rewrite Ef in Hf. destruct (done l) as [[]|]; naive_solver.
  - injection Hs as <- <-. cbn. by split_and!.
Qed.

(** Sending a pack over a connection that is up or not. *)
Lemma send_over_ok up p pack :
  peer_inv p -> Forall (wk_item (heap p)) pack -> (length pack <= w_cap W)%nat ->
  exists o q, send_over up (w_send W pack) p = (o, q) /\ (forall e, o <> Panic e) /\ peer_inv q /\ heap q = heap p /\
    match o with
    | Ok _ => up = true /\ exists m, wire q = wire p ++ [m] /\ packet m = wk_packet pack
    | _ => wire q = wire p
    end /\ (up = true -> Forall (wk_encodable (heap p)) pack -> o = Ok tt).
Proof.
  intros Hp Hi Hl. destruct (wk_send p pack Hp Hi Hl) as (o & q & E & Hn & Hq & Hh & Hw & He). unfold send_over. rewrite E.
  destruct up; [exists o, q; split_and!; [done..|by destruct o|by intros _]|].
  destruct o as [u|e|e]; eexists _, _; (split; [reflexivity|]); split_and!; try done. by destruct Hq.
Qed.

Lemma step_inv e s o s' ls :
  sys_inv s -> event_ok s e -> step e s = Some (o, s', ls) -> sys_inv s' /\ o = Ok tt /\ exists new, wire s'.1 = wire s.1 ++ new.
Proof.
  intros Hs He. destruct e as [c Get|up|op]; cbn [EthBroadcast.step event_ok] in *.
  - destruct (stopped s.2) eqn:Est; [done|]. destruct (select W c s) as [[s1 l1]|] eqn:E1; cbn; [|done].
    destruct (select_inv c s s1 l1 Hs E1) as (H1 & H2 & H3 & H4 & H5 & H6).
    destruct (stopped s1.2) eqn:Est1.
    + intros [= <- <- <-]. rewrite (H6 Est eq_refl). split_and!; [|done|apply app_nil_ex]. by destruct Hs.
    + rewrite <- H2 in He, H5. destruct (schedule_inv (heap s1.1) Get s1.2 He H4 H5) as [H7 H8].
      destruct (schedule W Get s1.2) as [l2 ls2]. intros [= <- <- <-]. split_and!; [by split|done|]. rewrite <- H3. apply app_nil_ex.
  - destruct Hs as [Hp Hq Hf]. destruct (done s.2) as [[pack| |]|] eqn:Ed; try done. unfold flight_ok in Hf. rewrite Ed in Hf.
    destruct Hf as (H1 & H2 & H3 & H4 & H5). destruct (send_over_ok up s.1 pack Hp H3 H2) as (r & q & -> & Hn & Hqi & Hh & Hw & _).
    destruct r as [u|x|x]; [| |by destruct (Hn x)]; intros [= <- <- <-]; (split_and!; [split; [done..|]|done|]).
    + unfold flight_ok. cbn. by rewrite H4, H5.
    + cbn. destruct Hw as (_ & m & -> & _). by eexists.
    + unfold flight_ok. cbn. by rewrite H5.
    + cbn. rewrite Hw. apply app_nil_ex.
  - destruct Hs as [Hp Hq Hf]. destruct (safe_op pop_choice pop_ok op s.1 He Hp) as [Hpi Hn].
    pose proof (grows_op pop_choice op s.1 He Hp) as Hg.
    destruct (run_op pop_choice op s.1) as [r p']. cbn in *. intros [= <- <- <-]. split_and!.
    + split; try done. unfold flight_ok in *. cbn. destruct (done s.2) as [[pack| |]|]; try done. destruct Hf as (H1 & H2 & H3 & H4 & H5).
      split_and!; try done. eapply Forall_impl; [exact H3|]. intros x. by apply wk_mono.
    + destruct r as [u|x|x]; [done..|]. by destruct (Hn x).
    + apply (gr_wire _ _ Hg).
Qed.

(** *** Traces *)

(** Any interleaving of the loop, its writer and the rest of the peer, with what an
    observer sees. *)
Inductive btrace (s : Sys) : list (Label A) -> Sys -> Prop :=
| bt_start : btrace s [] s
| bt_step ls s1 e o s2 ls' :
    btrace s ls s1 -> event_ok s1 e -> step e s1 = Some (o, s2, ls') -> btrace s (ls ++ ls') s2.

Lemma btrace_inv s ls s' : sys_inv s -> btrace s ls s' -> sys_inv s'.
Proof. intros Hs. induction 1 as [|ls s1 e o s2 ls' _ IH He E]; [done|]. by apply (step_inv e s1 o s2 ls'). Qed.

(** The write loops are safe under every interleaving: whatever the peer, its
    fuzzers, the loop and its writer goroutine do in between, no step panics,
    all invariants of the peer hold, the queue stays within its capacity, hashes
    never wait without a writer (unless a write failed), and the channel that
    buffers one error never needs room for two. *)
Theorem write_loop_safe s ls s' e o s2 ls2 :
  sys_inv s -> btrace s ls s' -> event_ok s' e -> step e s' = Some (o, s2, ls2) ->
  sys_inv s' /\ sys_inv s2 /\ o = Ok tt.
Proof.
  intros Hs Ht He E. pose proof (btrace_inv s ls s' Hs Ht) as Hs'. split; [done|].
  destruct (step_inv e s' o s2 ls2 Hs' He E) as (H1 & H2 & _). done.
Qed.

(** *** What happens to the hashes *)

Definition received1 (x : Label A) : list Hash := match x with Queued b _ => b | _ => [] end.
Definition left1 (x : Label A) : list Hash := match x with Queued _ d => d | Packed c _ => c | _ => [] end.
Definition packs1 (x : Label A) : list (list A) := match x with Packed _ (y :: l) => [y :: l] | _ => [] end.
Definition wrote1 (x : Label A) : list (list A) := match x with Wrote l => [l] | _ => [] end.

(** The hashes taken from the channel, those that left the queue, the packs made
    and the packs written, in order. *)
Definition received (ls : list (Label A)) : list Hash := ls ≫= received1.
Definition departed (ls : list (Label A)) : list Hash := ls ≫= left1.
Definition packs (ls : list (Label A)) : list (list A) := ls ≫= packs1.
Definition wrote (ls : list (Label A)) : list (list A) := ls ≫= wrote1.

Lemma received_app l1 l2 : received (l1 ++ l2) = received l1 ++ received l2.
Proof. apply bind_app. Qed.
Lemma departed_app l1 l2 : departed (l1 ++ l2) = departed l1 ++ departed l2.
Proof. apply bind_app. Qed.
Lemma packs_app l1 l2 : packs (l1 ++ l2) = packs l1 ++ packs l2.
Proof. apply bind_app. Qed.
Lemma wrote_app l1 l2 : wrote (l1 ++ l2) = wrote l1 ++ wrote l2.
Proof. apply bind_app. Qed.

(** The pack the writer has. *)
Definition in_flight (l : Loop A) : list (list A) := match done l with Some (Writing pack) => [pack] | _ => [] end.

Definition label_ok (x : Label A) : Prop :=
  match x with
  | Packed c pack =>
      exists Get, pack = omap (wk_pick Get) c /\
        forall init y, pack = init ++ [y] -> total_size wk_size init < maxTxPacketSize
  | _ => True
  end.

(** Hashes fall out of the queue only when it is full. *)
Definition drops_when_full (ls : list (Label A)) : Prop :=
  forall ls1 b d ls2, ls = ls1 ++ Queued b d :: ls2 ->
    d = [] \/ (length (received ls1) + length b = length (departed ls1) + length d + w_cap W)%nat.

Lemma drops_snoc ls x :
  drops_when_full ls ->
  match x with
  | Queued b d => d = [] \/ (length (received ls) + length b = length (departed ls) + length d + w_cap W)%nat
  | _ => True
  end -> drops_when_full (ls ++ [x]).
Proof.
  intros Hls Hx ls1 b d ls2 E. destruct ls2 as [|y ls2 _] using rev_ind.
  - apply app_inj_tail in E as [-> ->]. exact Hx.
  - rewrite app_comm_cons, app_assoc in E. apply app_inj_tail in E as [-> _]. by eapply Hls.
Qed.

Lemma drops_app_quiet ls ls' :
  drops_when_full ls -> Forall (fun x => match x with Queued _ _ => False | _ => True end) ls' -> drops_when_full (ls ++ ls').
Proof.
  intros Hls Hq. revert ls Hls. induction Hq as [|x ls' Hx _ IH]; intros ls Hls; [by rewrite app_nil_r|].
  rewrite cons_middle, app_assoc. apply IH, drops_snoc; [done|]. by destruct x.
Qed.

(** What the head of the loop adds. *)
Lemma schedule_hist Get l l' ls :
  schedule W Get l = (l', ls) ->
  queue l = departed ls ++ queue l' /\ received ls = [] /\ wrote ls = [] /\ in_flight l' = in_flight l ++ packs ls /\
  Forall label_ok ls /\ Forall (fun x => match x with Queued _ _ => False | _ => True end) ls /\
  (done l = Some Lost <-> done l' = Some Lost) /\ stopped l' = stopped l.
Proof.
  unfold schedule, in_flight. destruct (done l) as [f|] eqn:Ed.
  { intros [= <- <-]. rewrite Ed, app_nil_r. by split_and!; try constructor. }
  destruct (queue l) as [|h q] eqn:Eq.
  { intros [= <- <-]. rewrite Ed, Eq. by split_and!; try constructor. }
  rewrite wk_pile. pose proof (pile_good (wk_pick Get) wk_size 0 (h :: q)) as Hg. destruct (pile _ _ 0 (h :: q)) as [n pack].
  destruct Hg as [_ H2 H3 _]. cbn [fst snd] in *. intros [= <- <-]. unfold departed, packs. cbn [mbind list_bind left1 packs1].
  cbn [queue set_queue set_done done stopped]. rewrite !app_nil_r.
  split_and!; [by rewrite take_drop|done..|by destruct pack| |by repeat constructor|by destruct pack|done].
  repeat constructor. exists Get. split; [done|]. intros init y E. specialize (H3 init y E). lia.
Qed.

(** What a case of [select] adds. *)
Lemma select_hist c s s' ls :
  select W c s = Some (s', ls) ->
  queue s.2 ++ received ls = departed ls ++ queue s'.2 /\ packs ls = [] /\ wrote ls = [] /\
  in_flight s'.2 = in_flight s.2 /\ Forall label_ok ls /\ (done s.2 = Some Lost <-> done s'.2 = Some Lost) /\
  (ls = [] \/ exists x, ls = [x] /\
     match x with Queued b d => d = [] \/ (length (queue s.2) + length b = length d + w_cap W)%nat | _ => True end).
Proof.
  destruct s as [p l]. destruct c; cbn [select fst snd].
  - destruct (w_channel W p) as [|b bs]; [done|]. destruct (failed l).
    + intros [= <- <-]. unfold received. cbn. rewrite app_nil_r. split_and!; try done; [by repeat constructor|]. right. by eexists.
    + unfold cap_queue. cbv zeta. intros [= <- <-]. unfold received, departed, in_flight.
      cbn [mbind list_bind received1 left1 snd queue set_queue done]. rewrite !app_nil_r.
      split_and!; [by rewrite take_drop|done..|by repeat constructor|done|]. right. eexists. split; [done|]. cbn beta iota.
      destruct (Nat.ltb_spec (w_cap W) (length (queue l ++ b))) as [Hl|Hl]; [|by left]. right.
      rewrite length_take, length_app in *. lia.
  - destruct (done l) as [[]|] eqn:Ed; try done. intros [= <- <-]. unfold in_flight. cbn. rewrite Ed, app_nil_r.
    split_and!; try done; by left.
  - destruct (fail l); [|done]. intros [= <- <-]. cbn. rewrite app_nil_r. split_and!; try done; by left.
  - intros [= <- <-]. cbn. rewrite app_nil_r. split_and!; try done; by left.
Qed.

(** The history of a run, from the state with wire [w0] on. *)
Record history (w0 : list Msg) (ls : list (Label A)) (s : Sys) : Prop := {
  hi_fifo : received ls = departed ls ++ queue s.2;
  hi_packs : exists lost, packs ls = wrote ls ++ in_flight s.2 ++ lost /\ (length lost <= 1)%nat /\
    (lost <> [] <-> done s.2 = Some Lost);
  hi_labels : Forall label_ok ls;
  hi_drops : drops_when_full ls;
  hi_wire : exists new, wire s.1 = w0 ++ new /\ (wk_packet <$> wrote ls) `sublist_of` (packet <$> new);
}.

Lemma nothing_lost {B} (lost : list B) (P : Prop) : (lost <> [] <-> P) -> ~ P -> lost = [].
Proof. destruct lost; naive_solver. Qed.

Lemma history_start p : history (wire p) [] (p, idle_loop).
Proof.
  split; cbn; [done|exists []; split_and!; [done|cbn; lia|done]|done|by intros [] ? ? ? ?|].
  exists []. by rewrite app_nil_r.
Qed.

Lemma history_pass c Get w0 ls s o s' ls' :
  stopped s.2 = false -> history w0 ls s -> step (Pass c Get) s = Some (o, s', ls') -> wire s'.1 = wire s.1 ->
  history w0 (ls ++ ls') s'.
Proof.
  intros Est Hh. cbn [EthBroadcast.step]. rewrite Est. destruct (select W c s) as [[s1 l1]|] eqn:E1; cbn; [|done].
  destruct (select_hist c s s1 l1 E1) as (F1 & F2 & F3 & F4 & F5 & F6 & F7). destruct Hh as [H1 (lost & H2 & H2l & H2n) H3 H4 H5].
  assert (wire s1.1 = wire s.1 -> history w0 (ls ++ l1) s1) as Hmid.
  { intros Ew. split; rewrite ?received_app, ?departed_app, ?packs_app, ?wrote_app.
    - rewrite H1, <- !app_assoc. f_equal. exact F1.
    - exists lost. rewrite F2, F3, F4, !app_nil_r. split_and!; try done. rewrite <- F6. done.
    - by apply Forall_app.
    - destruct F7 as [-> | (x & -> & Hx)]; [by rewrite app_nil_r|]. apply drops_snoc; [done|]. destruct x; try done.
      rewrite H1, length_app. destruct Hx as [|Hx]; [by left|right; lia].
    - rewrite F3, app_nil_r, Ew. exact H5. }
  destruct (stopped s1.2); [intros [= <- <- <-] Ew; by apply Hmid|].
  destruct (schedule W Get s1.2) as [l2 ls2] eqn:E2. intros [= <- <- <-] Ew. specialize (Hmid Ew).
  destruct (schedule_hist Get s1.2 l2 ls2 E2) as (G1 & G2 & G3 & G4 & G5 & G6 & G7 & _).
  destruct Hmid as [K1 (lost' & K2 & K2l & K2n) K3 K4 K5]. rewrite app_assoc.
  split; rewrite 1?received_app, 1?departed_app, 1?packs_app, 1?wrote_app; cbn [fst snd] in *.
  - rewrite G2, app_nil_r, K1, G1. by rewrite <- !app_assoc.
  - exists lost'. rewrite G3, G4, app_nil_r, K2. split_and!; [|done|by rewrite <- G7]. rewrite <- !app_assoc.
    do 2 f_equal. destruct (packs ls2) as [|x l] eqn:Hpk; [by rewrite app_nil_r|]. rewrite (nothing_lost lost' _ K2n); [by rewrite app_nil_r|]. intros Hd. unfold schedule in E2. rewrite Hd in E2. by injection E2 as _ <-.
  - by apply Forall_app.
  - by apply drops_app_quiet.
  - rewrite G3, app_nil_r. exact K5.
Qed.

Lemma sublist_snoc_wire {B C} (f : B -> C) (l : list C) new (m : B) : l `sublist_of` (f <$> new) -> l ++ [f m] `sublist_of` (f <$> (new ++ [m])).
Proof. intros H. rewrite fmap_app. by apply sublist_app. Qed.

Lemma history_step e w0 ls s o s' ls' :
  sys_inv s -> event_ok s e -> history w0 ls s -> step e s = Some (o, s', ls') -> history w0 (ls ++ ls') s'.
Proof.
  intros Hs He Hh E. destruct e as [c Get|up|op].
  - pose proof E as E'. cbn [EthBroadcast.step] in E'. destruct (stopped s.2) eqn:Est; [done|].
    eapply (history_pass c Get); eauto. destruct (select W c s) as [[s1 l1]|] eqn:E1; [|done]. cbn in E'.
    destruct (select_inv c s s1 l1 Hs E1) as (_ & _ & Ew & _). destruct (stopped s1.2); [congruence|].
    destruct (schedule W Get s1.2). injection E' as _ <- _. done.
  - cbn [EthBroadcast.step] in E. destruct Hs as [Hp Hq Hf]. destruct (done s.2) as [[pack| |]|] eqn:Ed; try done.
    unfold flight_ok in Hf. rewrite Ed in Hf. destruct Hf as (F1 & F2 & F3 & _ & _).
    destruct (send_over_ok up s.1 pack Hp F3 F2) as (r & q & Er & Hn & _ & _ & Hw & _). rewrite Er in E.
    destruct Hh as [H1 (lost & H2 & H2l & H2n) H3 H4 (new & H5 & H6)]. rewrite (nothing_lost lost _ H2n ltac:(congruence)) in H2.
    unfold in_flight in H2. rewrite Ed in H2. rewrite app_nil_r in H2.
    destruct r as [u|x|x]; [| |by destruct (Hn x)]; injection E as <- <- <-.
    + destruct Hw as (_ & m & Ew & Em). split; rewrite ?received_app, ?departed_app, ?packs_app, ?wrote_app; cbn.
      * by rewrite !app_nil_r.
      * exists []. rewrite !app_nil_r, H2. split_and!; [done|cbn; lia|done].
      * apply Forall_app. split; [done|by repeat constructor].
      * by apply drops_snoc.
      * exists (new ++ [m]). rewrite Ew, H5, app_assoc. split; [done|].
        rewrite (fmap_app wk_packet). change (wk_packet <$> [pack]) with [wk_packet pack]. rewrite <- Em. by apply sublist_snoc_wire.
    + rewrite app_nil_r. split; cbn; [done| |done..|by exists new; rewrite Hw]. exists [pack]. split_and!; [done|cbn; lia|done].
  - cbn [EthBroadcast.step] in E. pose proof (grows_op pop_choice op s.1 He (si_peer _ Hs)) as [_ [more Ew] _ _].
    destruct (run_op pop_choice op s.1) as [r p']. injection E as _ <- <-. rewrite app_nil_r.
    destruct Hh as [H1 H2 H3 H4 (new & H5 & H6)]. split; try done. cbn in *. exists (new ++ more). rewrite Ew, H5, app_assoc.
    split; [done|]. rewrite fmap_app. by apply sublist_inserts_r.
Qed.

(** *** What happens to the batches *)

(** The batches taken from the channel, and the hashes of those discarded. *)
Definition taken1 (x : Label A) : list (list Hash) := match x with Queued b _ | Discarded b => [b] | _ => [] end.
Definition discarded1 (x : Label A) : list Hash := match x with Discarded b => b | _ => [] end.
Definition taken (ls : list (Label A)) : list (list Hash) := ls ≫= taken1.
Definition discarded (ls : list (Label A)) : list Hash := ls ≫= discarded1.

Lemma taken_app l1 l2 : taken (l1 ++ l2) = taken l1 ++ taken l2.
Proof. apply bind_app. Qed.
Lemma discarded_app l1 l2 : discarded (l1 ++ l2) = discarded l1 ++ discarded l2.
Proof. apply bind_app. Qed.

(** What a step of the surroundings appends to the channel of the loop. *)
Definition handed_by (e : Event) (s s' : Sys (A := A)) : list (list Hash) :=
  match e with Other _ => drop (length (w_channel W s.1)) (w_channel W s'.1) | _ => [] end.

(** A run, with the batches that were handed over meanwhile. *)
Inductive brun (s : Sys) : list (Label A) -> list (list Hash) -> Sys -> Prop :=
| br_start : brun s [] [] s
| br_step ls handed s1 e o s2 ls' :
    brun s ls handed s1 -> event_ok s1 e -> step e s1 = Some (o, s2, ls') ->
    brun s (ls ++ ls') (handed ++ handed_by e s1 s2) s2.

Lemma brun_trace s ls handed s' : brun s ls handed s' -> btrace s ls s'.
Proof. induction 1; econstructor; eauto. Qed.

(** Every batch was taken in turn, and discarded only once the loop knew of an
    error. *)
Record batches (ch0 : list (list Hash)) (ls : list (Label A)) (handed : list (list Hash)) (s : Sys (A := A)) : Prop := {
  ba_taken : ch0 ++ handed = taken ls ++ w_channel W s.1;
  ba_split : concat (taken ls) = received ls ++ discarded ls;
  ba_failed : failed s.2 = false -> discarded ls = [];
}.

Lemma select_batches c s s' ls :
  select W c s = Some (s', ls) ->
  w_channel W s.1 = taken ls ++ w_channel W s'.1 /\ concat (taken ls) = received ls ++ discarded ls /\
  (failed s.2 = true -> failed s'.2 = true /\ received ls = []) /\ (failed s.2 = false -> discarded ls = []).
Proof.
  destruct s as [p l]. destruct c; cbn [select fst snd].
  - destruct (w_channel W p) as [|b bs] eqn:Ech; [done|]. pose proof (wk_channel_take p) as Et. rewrite Ech in Et.
    destruct (failed l) eqn:Ef.
    + intros [= <- <-]. cbn. rewrite Et, app_nil_r. by split_and!.
    + destruct (cap_queue W _) as [d q]. intros [= <- <-]. cbn. rewrite Et, !app_nil_r. by split_and!.
  - destruct (done l) as [[]|]; try done. by intros [= <- <-].
  - destruct (fail l); [|done]. by intros [= <- <-].
  - by intros [= <- <-].
Qed.

Lemma schedule_batches Get l l' ls :
  schedule W Get l = (l', ls) -> taken ls = [] /\ received ls = [] /\ discarded ls = [] /\ failed l' = failed l.
Proof.
  unfold schedule. destruct (done l); [by intros [= <- <-]|]. destruct (queue l); [by intros [= <- <-]|].
  destruct (w_pile W Get _) as [n pack]. by intros [= <- <-].
Qed.

Lemma write_channel up pack p : w_channel W (send_over up (w_send W pack) p).2 = w_channel W p.
Proof.
  unfold send_over. pose proof (wk_channel_send p pack) as E. destruct up; [done|].
  destruct (w_send W pack p) as [[] q]; cbn in *; [by rewrite wk_channel_wire|done..].
Qed.

(** What a step takes and adds. *)
Lemma step_batches e s o s' ls :
  sys_inv s -> event_ok s e -> step e s = Some (o, s', ls) ->
  w_channel W s.1 ++ handed_by e s s' = taken ls ++ w_channel W s'.1 /\ concat (taken ls) = received ls ++ discarded ls /\
  (failed s.2 = true -> failed s'.2 = true /\ received ls = []) /\ (failed s.2 = false -> discarded ls = []).
Proof.
  intros Hs He. destruct e as [c Get|up|op]; cbn [EthBroadcast.step handed_by].
  - rewrite app_nil_r. destruct (stopped s.2); [done|]. destruct (select W c s) as [[s1 l1]|] eqn:E1; cbn; [|done].
    apply select_batches in E1. destruct (stopped s1.2); [by intros [= <- <- <-]|].
    destruct (schedule W Get s1.2) as [l2 ls2] eqn:E2. apply schedule_batches in E2 as (T & F & D & Ef).
    intros [= <- <- <-]. rewrite taken_app, received_app, discarded_app, T, F, D, !app_nil_r. cbn [fst snd] in *. by rewrite Ef.
  - rewrite app_nil_r. destruct (done s.2) as [[pack| |]|]; try done. pose proof (write_channel up pack s.1) as E.
    destruct (send_over up (w_send W pack) s.1) as [[u|x|x] q]; intros [= <- <- <-]; cbn in *; by rewrite E.
  - pose proof (grows_op pop_choice op s.1 He (si_peer _ Hs)) as Hg. destruct (wk_channel_grows _ _ Hg) as [new E].
    destruct (run_op pop_choice op s.1) as [r p']. intros [= <- <- <-]. cbn in *. rewrite E, drop_app_length. by split_and!.
Qed.

Lemma batches_run p ls handed s :
  peer_inv p -> brun (p, idle_loop) ls handed s -> batches (w_channel W p) ls handed s.
Proof.
  intros Hp Hr. assert (sys_inv (p, idle_loop)) as Hi by (split; [done|cbn; lia|done]).
  induction Hr as [|ls handed s1 e o s2 ls' Hr [T F D] He E]; [by split; rewrite ?app_nil_r|].
  pose proof (btrace_inv _ ls s1 Hi (brun_trace _ _ _ _ Hr)) as Hs.
  destruct (step_batches e s1 o s2 ls' Hs He E) as (T' & F' & M & D').
  split; rewrite ?taken_app, ?received_app, ?discarded_app, ?concat_app.
  - by rewrite app_assoc, T, <- !app_assoc, T'.
  - rewrite F, F', <- !app_assoc. f_equal. destruct (failed s1.2) eqn:Ef; [by rewrite (proj2 (M eq_refl))|].
    by rewrite (D eq_refl), (D' eq_refl), !app_nil_r.
  - intros Ef. destruct (failed s1.2) eqn:Ef1; [destruct (M eq_refl); congruence|]. by rewrite D, D'.
Qed.

(** The history of a run from the start. *)
Lemma history_run p ls s : peer_inv p -> btrace (p, idle_loop) ls s -> history (wire p) ls s.
Proof.
  intros Hp Ht. assert (sys_inv (p, idle_loop)) as Hi by (split; [done|cbn; lia|done]).
  induction Ht as [|ls s1 e o s2 ls' Ht IH He E]; [apply history_start|].
  apply (history_step e (wire p) ls s1 o s2 ls'); [by apply (btrace_inv (p, idle_loop) ls)|done..].
Qed.

(** C25. The queues are FIFO, nothing is sent twice and nothing is lost silently.  In
    any run of a loop from its start, however it interleaves with the peer: what
    was in the channel and was handed over meanwhile is exactly the batches the
    loop took, in order, followed by what is still in the channel.  The hashes
    of these batches are those that entered the queue followed by those that
    were discarded; none is discarded before the loop has seen an error, and an
    error means that one pack was lost in a failed write.  The hashes that
    entered the queue are, in order, those that left it followed by those still
    in it; they leave it into a pack or, only when the queue is full, because
    newer ones push them out.  Every pack holds what the pool has for its chunk,
    in order and within the size limit up to its last element; the packs are
    written in order, all but the one in flight or lost, each as one message of
    the connection. *)
Theorem write_loop_fifo p ls handed s :
  peer_inv p -> brun (p, idle_loop) ls handed s ->
  w_channel W p ++ handed = taken ls ++ w_channel W s.1 /\
  concat (taken ls) = received ls ++ discarded ls /\
  (discarded ls <> [] -> failed s.2 = true) /\ (failed s.2 = true -> done s.2 = Some Lost) /\
  received ls = departed ls ++ queue s.2 /\ drops_when_full ls /\ Forall label_ok ls /\
  (exists lost, packs ls = wrote ls ++ in_flight s.2 ++ lost /\ (length lost <= 1)%nat /\
     (lost <> [] <-> done s.2 = Some Lost)) /\
  exists new, wire s.1 = wire p ++ new /\ (wk_packet <$> wrote ls) `sublist_of` (packet <$> new).
Proof.
  intros Hp Hr. pose proof (brun_trace _ _ _ _ Hr) as Ht. destruct (batches_run p ls handed s Hp Hr) as [T F D].
  destruct (history_run p ls s Hp Ht) as [H1 H2 H3 H4 H5].
  assert (sys_inv (p, idle_loop)) as Hi by (split; [done|cbn; lia|done]).
  pose proof (si_flight _ (btrace_inv _ ls s Hi Ht)) as Hf. unfold flight_ok in Hf. split_and!; try done.
  - destruct (failed s.2); naive_solver.
  - intros E. rewrite E in Hf. destruct (done s.2) as [[]|]; naive_solver.
Qed.

(** *** A failed write *)

Lemma lost_step e s o s' ls :
  done s.2 = Some Lost -> step e s = Some (o, s', ls) ->
  done s'.2 = Some Lost /\ packs ls = [] /\ wrote ls = [] /\
  (failed s.2 = true -> failed s'.2 = true /\ queue s'.2 = queue s.2 /\ received ls = []).
Proof.
  intros Hd. destruct e as [c Get|up|op]; cbn [EthBroadcast.step].
  - destruct (stopped s.2); [done|]. destruct (select W c s) as [[s1 l1]|] eqn:E1; cbn; [|done].
    destruct (select_hist c s s1 l1 E1) as (_ & F2 & F3 & _ & _ & F6 & _). apply F6 in Hd as Hd1.
    assert (failed s.2 = true -> failed s1.2 = true /\ queue s1.2 = queue s.2 /\ received l1 = []) as Hfd.
    { destruct s as [p l]. intros Hfd. cbn in Hfd. destruct c; cbn [select] in E1.
      - destruct (w_channel W p); [done|]. rewrite Hfd in E1. by injection E1 as <- <-.
      - cbn in Hd. rewrite Hd in E1. done.
      - destruct (fail l); [|done]. by injection E1 as <- <-.
      - by injection E1 as <- <-. }
    destruct (stopped s1.2); [by intros [= <- <- <-]|]. unfold schedule. rewrite Hd1. intros [= <- <- <-]. by rewrite app_nil_r.
  - by rewrite Hd.
  - destruct (run_op pop_choice op s.1) as [r p']. by intros [= <- <- <-].
Qed.

Lemma lost_trace s ls s' :
  done s.2 = Some Lost -> btrace s ls s' ->
  done s'.2 = Some Lost /\ packs ls = [] /\ wrote ls = [] /\
  (failed s.2 = true -> failed s'.2 = true /\ queue s'.2 = queue s.2 /\ received ls = []).
Proof.
  intros Hd. induction 1 as [|ls s1 e o s2 ls' _ IH _ E]; [done|]. destruct IH as (Hd1 & H1 & H2 & H3).
  destruct (lost_step e s1 o s2 ls' Hd1 E) as (Hd2 & G1 & G2 & G3).
  rewrite packs_app, wrote_app, received_app, H1, H2, G1, G2. split_and!; [done..|]. intros Hf.
  destruct (H3 Hf) as (K1 & K2 & K3), (G3 K1) as (L1 & L2 & L3). rewrite K3, L3. split_and!; [done|congruence|done].
Qed.

(** A failed write is final: when the connection refuses the pack in flight, the
    peer's wire is as before, the error waits for the loop, and from then on,
    whatever happens, no pack is made and nothing is written; once the loop has
    seen the error, further hashes are discarded and the queue does not grow. *)
Theorem failed_write_is_final s pack :
  sys_inv s -> done s.2 = Some (Writing pack) ->
  exists s1, step (Write false) s = Some (Ok tt, s1, []) /\ wire s1.1 = wire s.1 /\ fail s1.2 = true /\
    forall ls s2, btrace s1 ls s2 ->
      packs ls = [] /\ wrote ls = [] /\
      (failed s2.2 = true -> forall ls' s3, btrace s2 ls' s3 -> received ls' = [] /\ queue s3.2 = queue s2.2).
Proof.
  intros [Hp Hq Hf] Hd. unfold flight_ok in Hf. rewrite Hd in Hf. destruct Hf as (_ & F2 & F3 & _ & _).
  destruct (send_over_ok false s.1 pack Hp F3 F2) as (r & q & Er & Hn & _ & _ & Hw & _).
  cbn [EthBroadcast.step]. rewrite Hd, Er. destruct r as [u|x|x]; [by destruct Hw| |by destruct (Hn x)].
  eexists. split; [reflexivity|]. split_and!; [done..|]. intros ls s2 Ht.
  destruct (lost_trace (q, set_fail true (failed s.2) (set_done (Some Lost) s.2)) ls s2 eq_refl Ht) as (Hd2 & H1 & H2 & _).
  split_and!; [done..|]. intros Hfd ls' s3 Ht'.
  destruct (lost_trace s2 ls' s3 Hd2 Ht') as (_ & _ & _ & H3). destruct (H3 Hfd) as (_ & ? & ?). done.
Qed.

(** *** Draining the queue *)

(** The loop and its writer alone, with a connection that is up: the writer writes,
    the loop sees the closed channel and starts the next pack. *)
Fixpoint drain (Get : TxPool) (fuel : nat) (s : Sys) : option (Sys * list (Label A)) :=
  match done s.2 with
  | None => Some (s, [])
  | Some Lost => None
  | Some f =>
      match fuel with
      | O => None
      | S m =>
          '(_, s1, l1) ← step (match f with Writing _ => Write true | _ => Pass SelDone Get end) s;
          '(s2, l2) ← drain Get m s1;
          Some (s2, l1 ++ l2)
      end
  end.

Definition steps_left (l : Loop A) : nat :=
  match done l with Some (Writing _) => 2 * length (queue l) + 2 | Some Closed => 2 * length (queue l) + 1 | _ => 0 end.

(** Nothing stands in the way of writing. *)
Record clear_way (Get : TxPool) (s : Sys) : Prop := {
  cw_running : stopped s.2 = false;
  cw_pool : pool_ok (heap s.1) Get;
  cw_picks : forall h x, wk_pick Get h = Some x -> wk_encodable (heap s.1) x;
  cw_flight : Forall (Forall (wk_encodable (heap s.1))) (in_flight s.2);
  cw_up : done s.2 <> Some Lost;
}.

Lemma omap_take_drop {B C} (f : B -> option C) n (l : list B) : omap f l = omap f (take n l) ++ omap f (drop n l).
Proof. rewrite <- omap_app. by rewrite take_drop. Qed.

(** The loop sees the closed channel and starts the next pack. *)
Lemma drain_pass Get s :
  sys_inv s -> clear_way Get s -> done s.2 = Some Closed ->
  exists s1 l1, step (Pass SelDone Get) s = Some (Ok tt, s1, l1) /\ clear_way Get s1 /\ wrote l1 = [] /\
    (steps_left s1.2 < steps_left s.2)%nat /\
    concat (in_flight s1.2) ++ omap (wk_pick Get) (queue s1.2) = omap (wk_pick Get) (queue s.2).
Proof.
  destruct s as [p l]. intros [Hp Hq Hf] [Hr Hpool Hpk Hfl _] Hd. cbn [fst snd] in *. cbn [EthBroadcast.step select fst snd].
  rewrite Hr, Hd. cbn [mbind option_bind fst snd stopped set_done]. rewrite Hr. unfold schedule. cbn [done set_done queue].
  unfold steps_left. rewrite Hd. destruct (queue l) as [|h q] eqn:Eq.
  { eexists _, _. split; [reflexivity|]. cbn. rewrite Eq. split_and!; [by split|done|lia|done]. }
  rewrite wk_pile. pose proof (pile_good (wk_pick Get) wk_size 0 (h :: q)) as Hg.
  pose proof (pile_progress (wk_pick Get) wk_size (h :: q) ltac:(done)) as Hpos.
  destruct (pile _ _ 0 (h :: q)) as [n pack]. destruct Hg as [H1 H2 _ _]. cbn [fst snd] in *.
  eexists _, _. split; [reflexivity|]. cbn [fst snd done queue set_queue set_done stopped app].
  split_and!.
  - split; try done; [|by destruct pack]. unfold in_flight. cbn. destruct pack as [|x pack]; [done|]. constructor; [|constructor].
    rewrite H2. apply Forall_forall. intros y Hy. apply list_elem_of_omap in Hy as (k & _ & Ek). by eapply Hpk.
  - done.
  - rewrite length_drop. destruct pack; cbn [length] in *; lia.
  - rewrite (omap_take_drop (wk_pick Get) n (h :: q)). f_equal. rewrite <- H2. unfold in_flight. cbn. destruct pack; [done|]. cbn.
    by rewrite app_nil_r.
Qed.

Lemma drain_write Get s pack :
  sys_inv s -> clear_way Get s -> done s.2 = Some (Writing pack) ->
  exists s1, step (Write true) s = Some (Ok tt, s1, [Wrote pack]) /\ clear_way Get s1 /\ done s1.2 = Some Closed /\
    queue s1.2 = queue s.2.
Proof.
  intros [Hp Hq Hf] [Hr Hpool Hpk Hfl _] Hd. unfold flight_ok in Hf. rewrite Hd in Hf. destruct Hf as (_ & F2 & F3 & _ & _).
  unfold in_flight in Hfl. rewrite Hd in Hfl. inversion Hfl as [|? ? Hpack _]; subst.
  destruct (send_over_ok true s.1 pack Hp F3 F2) as (r & q & Er & Hn & _ & Eh & Hw & Hok). specialize (Hok eq_refl Hpack). subst r.
  cbn [EthBroadcast.step]. rewrite Hd, Er. eexists. split; [reflexivity|]. split_and!; try done.
  split; cbn; try done; by rewrite Eh.
Qed.

Lemma drain_all Get fuel s :
  sys_inv s -> clear_way Get s -> (steps_left s.2 <= fuel)%nat ->
  exists s' ls, drain Get fuel s = Some (s', ls) /\ done s'.2 = None /\ queue s'.2 = [] /\
    concat (wrote ls) = concat (in_flight s.2) ++ omap (wk_pick Get) (queue s.2).
Proof.
  revert s. induction fuel as [|fuel IH]; intros s Hs Hc Hfuel; cbn [drain]; pose proof (si_flight _ Hs) as Hf;
    unfold flight_ok in Hf; unfold steps_left in Hfuel; destruct (done s.2) as [[pack| |]|] eqn:Hd; try lia; try (by destruct (cw_up _ _ Hc)).
  - exists s, []. destruct Hf as (Hq & _). unfold in_flight. rewrite Hd, (Hq eq_refl). done.
  - destruct (drain_write Get s pack Hs Hc Hd) as (s1 & E & Hc1 & Hd1 & Eq1). rewrite E. cbn [mbind option_bind].
    destruct (step_inv (Write true) s (Ok tt) s1 _ Hs I E) as (Hs1 & _ & _).
    destruct (IH s1 Hs1 Hc1) as (s' & ls & -> & H1 & H2 & H3); [unfold steps_left; rewrite Hd1, Eq1; lia|].
    cbn. eexists _, _. split_and!; [done..|]. change (concat (wrote (Wrote pack :: ls))) with (pack ++ concat (wrote ls)).
    rewrite H3. unfold in_flight. rewrite Hd, Hd1, Eq1. cbn. by rewrite app_nil_r.
  - destruct (drain_pass Get s Hs Hc Hd) as (s1 & l1 & E & Hc1 & Hw & Hl & Ho). rewrite E. cbn [mbind option_bind].
    destruct (step_inv (Pass SelDone Get) s (Ok tt) s1 _ Hs (cw_pool _ _ Hc) E) as (Hs1 & _ & _).
    destruct (IH s1 Hs1 Hc1) as (s' & ls & -> & H1 & H2 & H3); [unfold steps_left at 2 in Hl; rewrite Hd in Hl; lia|].
    cbn. eexists _, _. split_and!; [done..|]. rewrite wrote_app, Hw, app_nil_l, H3, Ho. unfold in_flight. by rewrite Hd.
  - exists s, []. destruct Hf as (Hq & _). unfold in_flight. rewrite Hd, (Hq eq_refl). done.
Qed.

(** C32. Everything queued is sent: from any state the loop can be in, with the
    connection up and what the pool holds encodable, two steps per queued hash
    (and two for the pack in flight) are enough for the loop and its writer to
    come to rest with an empty queue, and what was written is the pack in flight
    followed by what the pool holds for the queued hashes, in order. *)
Theorem write_loop_drains Get s ls s' :
  sys_inv s -> btrace s ls s' -> clear_way Get s' ->
  exists s2 ls2, drain Get (2 * length (queue s'.2) + 2) s' = Some (s2, ls2) /\ done s2.2 = None /\ queue s2.2 = [] /\
    concat (wrote ls2) = concat (in_flight s'.2) ++ omap (wk_pick Get) (queue s'.2).
Proof.
  intros Hs Ht Hc. apply drain_all; [by eapply btrace_inv|done|]. unfold steps_left. destruct (done s'.2) as [[]|]; lia.
Qed.
End LoopSpec.

(** ** Blocks *)

Section Blocks.
Context {Rnd : Randomness} {RndOk : RandomnessOk}.
Context (pop_choice : gset Hash -> option Hash).
Context (pop_ok : forall s, s <> ∅ -> exists x, pop_choice s = Some x /\ x ∈ s).

(** The queued blocks exist and have a number. *)
Definition queued_ok (p : Peer) : Prop :=
  (forall b t, (b, t) ∈ queuedBlocks p -> is_Some (blocks (heap p) !! b)) /\
  (forall b, b ∈ queuedBlockAnns p -> exists blk n, blocks (heap p) !! b = Some blk /\ number_of (b_header blk) = Ok n).

Lemma inv_shorter qb qa p :
  (length qb <= length (queuedBlocks p))%nat -> (length qa <= length (queuedBlockAnns p))%nat -> peer_inv p ->
  peer_inv (set_queues qb qa (txBroadcast p) (txAnnounce p) p).
Proof. intros H1 H2 [? ? ? ? ?]. split; try done; cbn; lia. Qed.

(** Sending over the connection, from what is known of sending. *)
Lemma send_over_outcome (m : Packet) up (c : StM Peer unit) p p' :
  c p = record_and_send m p' -> peer_inv p' -> heap p' = heap p -> wire p' = wire p -> refs_ok (heap p) m ->
  exists o q, send_over up c p = (o, q) /\ (forall e, o <> Panic e) /\ peer_inv q /\ heap q = heap p /\
    match o with Ok _ => up = true /\ exists x, wire q = wire p ++ [x] /\ packet x = m | _ => wire q = wire p end.
Proof.
  intros Ec Hp Eh Ew Hm. destruct (send_outcome m p p' Hp Eh Ew Hm) as (o & q & E & Hn & Hq & Hh & Hw & _).
  unfold send_over. rewrite Ec, E. destruct up; [exists o, q; split_and!; [done..|by destruct o]|].
  destruct o as [u|e|e]; eexists _, _; (split; [reflexivity|]); split_and!; try done. by destruct Hq.
Qed.

Lemma queues_record_and_send m p :
  queuedBlocks (record_and_send m p).2 = queuedBlocks p /\ queuedBlockAnns (record_and_send m p).2 = queuedBlockAnns p.
Proof.
  unfold record_and_send, Send, mbind, StM_bind, putS, askS, pure. cbn. by repeat case_match.
Qed.

Lemma queues_send_over up c p p' m :
  c p = record_and_send m p' ->
  queuedBlocks (send_over up c p).2 = queuedBlocks p' /\ queuedBlockAnns (send_over up c p).2 = queuedBlockAnns p'.
Proof.
  intros Ec. destruct (queues_record_and_send m p') as [H1 H2]. unfold send_over. rewrite Ec. destruct up; [done|].
  by destruct (record_and_send m p') as [[] q].
Qed.

(** Blocks and announcements are served in the order they were queued, one message
    for each, without a panic; the loop goes on exactly when the message was
    written. *)
Theorem broadcastBlocks_serves c up p o q :
  peer_inv p -> queued_ok p -> broadcastBlocks pop_choice c up p = Some (o, q) ->
  peer_inv q /\ queued_ok q /\ (forall e, o <> Panic e) /\ (o = Ok true -> up = true /\ exists m, wire q = wire p ++ [m]) /\
  (o <> Ok true -> wire q = wire p) /\
  match c with
  | SelBlock => (exists x, queuedBlocks p = x :: queuedBlocks q) /\ queuedBlockAnns q = queuedBlockAnns p
  | SelAnn => (exists x, queuedBlockAnns p = x :: queuedBlockAnns q) /\ queuedBlocks q = queuedBlocks p
  | SelBlockTerm => q = p
  end.
Proof.
  intros Hp [Hb Ha] E. destruct c; cbn [broadcastBlocks] in E.
  - destruct (queuedBlocks p) as [|[b t] bs] eqn:Eq; [done|]. destruct (Hb b t) as [blk Eb]; [left|].
    assert (peer_inv (take_block p)) as Hp1 by (apply inv_shorter; rewrite ?Eq; cbn; (done || lia)).
    assert (SendNewBlock pop_choice b t (take_block p) = record_and_send (NewBlockPacket b t) (markBlock pop_choice (b_hash blk) (take_block p))) as Ec.
    { unfold SendNewBlock, mbind, StM_bind, askS, putS. cbn [heap take_block set_queues]. by rewrite Eb. }
    destruct (send_over_outcome (NewBlockPacket b t) up _ (take_block p) _ Ec) as (r & q' & Er & Hn & Hq & Hh & Hw);
      [by apply inv_markBlock|done..| |].
    { split_and!; intros x Hx; [by apply elem_of_nil in Hx..|]. apply list_elem_of_singleton in Hx as ->. by exists blk. }
    destruct (queues_send_over up _ (take_block p) _ _ Ec) as [Q1 Q2]. rewrite Er in *. injection E as <- <-. cbn in *.
    rewrite Eq in Q1. cbn in Q1. split_and!; [done| |by destruct r as [| |x]; [..|destruct (Hn x)]|..].
    + split; rewrite ?Q1, ?Q2, Hh; cbn; [|done]. intros b' t' Hin. apply (Hb b' t'). by right.
    + destruct r; [intros _; by destruct Hw as (? & m & ? & _); split; [|exists m]|done..].
    + by destruct r.
    + rewrite Q1. by eexists.
    + by rewrite Q2.
  - destruct (queuedBlockAnns p) as [|b bs] eqn:Eq; [done|]. destruct (Ha b) as (blk & n & Eb & En); [left|].
    assert (peer_inv (take_ann p)) as Hp1 by (apply inv_shorter; rewrite ?Eq; cbn; (done || lia)).
    match type of E with context [send_over up ?c (take_ann p)] =>
      assert (c (take_ann p) = record_and_send (NewBlockHashesPacket [(b_hash blk, n)]) (markBlocks pop_choice [b_hash blk] (take_ann p))) as Ec end.
    { unfold mbind, StM_bind, askS, pure. cbn [heap take_ann set_queues]. rewrite Eb. cbn [deref]. by rewrite En. }
    destruct (send_over_outcome (NewBlockHashesPacket [(b_hash blk, n)]) up _ (take_ann p) _ Ec) as (r & q' & Er & Hn & Hq & Hh & Hw);
      [by apply inv_markBlocks|done..|by apply no_refs|].
    destruct (queues_send_over up _ (take_ann p) _ _ Ec) as [Q1 Q2]. rewrite Er in *. injection E as <- <-. cbn in *.
    rewrite Eq in Q2. cbn in Q2. split_and!; [done| |by destruct r as [| |x]; [..|destruct (Hn x)]|..].
    + split; rewrite ?Q1, ?Q2, Hh; cbn; [done|]. intros b' Hin. apply (Ha b'). by right.
    + destruct r; [intros _; by destruct Hw as (? & m & ? & _); split; [|exists m]|done..].
    + by destruct r.
    + rewrite Q2. by eexists.
    + by rewrite Q1.
  - injection E as <- <-. by split_and!.
Qed.
End Blocks.

(** ** A loop that runs *)

Module BroadcastExample.
Import StreamRandom GethPeerSpec.PeerExample.

(** A pool with one transaction. *)
Definition get (h : Hash) : option loc := if bool_decide (h = h1) then Some 1%positive else None.
Definition sizes (_ : loc) : Z := 110.
Definition h2 : Hash := [to_byte 2].

Abbreviation loop := (broadcastTransactions pop sizes).
Abbreviation bstep := (EthBroadcast.step pop loop).

#[local] Instance loop_ok : WriterOk loop := broadcast_ok pop pop_some sizes.

(** After an event that is possible. *)
Definition after_event (e : Event) (s : Sys) : Sys :=
  match bstep e s with Some (_, s', _) => s' | None => s end.

Lemma after_step e s o ls :
  (fun x => (x.1.1, x.2)) <$> bstep e s = Some (o, ls) -> bstep e s = Some (o, after_event e s, ls).
Proof. unfold after_event. destruct (bstep e s) as [[[o' s'] ls']|]; [|done]. cbn. by intros [= -> ->]. Qed.

Definition s0 : Sys (A := loc) := (p0, idle_loop).
(** Two hashes are handed over, one of a transaction the pool no longer has. *)
Definition s1 : Sys := after_event (Other (OpAsyncSendTransactions false [h1; h2])) s0.
(** The loop takes them and starts a writer. *)
Definition s2 : Sys := after_event (Pass SelHashes get) s1.

Lemma s0_inv : sys_inv loop s0.
Proof. split; [apply p0_inv|cbn; lia|done]. Qed.

Lemma get_ok : pool_ok (heap s1.1) get.
Proof. intros h x Hx. unfold get in Hx. case_bool_decide; [|done]. injection Hx as <-. by exists tx1. Qed.

Lemma trace_s2 : btrace pop loop s0 [Queued [h1; h2] []; Packed [h1; h2] [1%positive]] s2.
Proof.
  change [Queued [h1; h2] []; Packed [h1; h2] [1%positive]] with ([] ++ [] ++ [Queued [h1; h2] []; Packed [h1; h2] [1%positive]]).
  rewrite app_assoc. eapply bt_step; [eapply bt_step; [apply bt_start| |]|..].
  - instantiate (1 := Other (OpAsyncSendTransactions false [h1; h2])). vm_compute. discriminate.
  - apply after_step. vm_compute. reflexivity.
  - instantiate (1 := Pass SelHashes get). exact get_ok.
  - apply after_step. vm_compute. reflexivity.
Qed.

Lemma write_loop_safe_witness :
  sys_inv loop s2 /\ sys_inv loop (after_event (Write true) s2).
Proof.
  destruct (write_loop_safe pop pop_some loop s0 [Queued [h1; h2] []; Packed [h1; h2] [1%positive]] s2 (Write true) (Ok tt)
              (after_event (Write true) s2) [Wrote [1%positive]] s0_inv trace_s2 I) as (H1 & H2 & _).
  - apply after_step. vm_compute. reflexivity.
  - split; [exact H1|exact H2].
Defined.

Lemma run_s2 : brun pop loop s0 [Queued [h1; h2] []; Packed [h1; h2] [1%positive]] [[h1; h2]] s2.
Proof.
  change [Queued [h1; h2] []; Packed [h1; h2] [1%positive]] with ([] ++ [] ++ [Queued [h1; h2] []; Packed [h1; h2] [1%positive]]).
  change [[h1; h2]] with (([] ++ handed_by loop (Other (OpAsyncSendTransactions false [h1; h2])) s0 s1) ++
                          handed_by loop (Pass SelHashes get) s1 s2).
  rewrite app_assoc. eapply br_step; [eapply br_step; [apply br_start| |]|..].
  - vm_compute. discriminate.
  - apply after_step. vm_compute. reflexivity.
  - exact get_ok.
  - apply after_step. vm_compute. reflexivity.
Qed.

Lemma write_loop_fifo_witness :
  queue s2.2 = [] /\ in_flight s2.2 = [[1%positive]] /\ txBroadcast p0 ++ [[h1; h2]] = [[h1; h2]] ++ txBroadcast s2.1 /\
  received [Queued [h1; h2] []; Packed [h1; h2] [1%positive]] =
    departed [Queued [h1; h2] []; Packed [h1; h2] [1%positive]] ++ queue s2.2.
Proof.
  split; [vm_compute; reflexivity|]. split; [vm_compute; reflexivity|].
  destruct (write_loop_fifo pop pop_some loop p0 _ _ s2 p0_inv run_s2) as (H1 & _ & _ & _ & H2 & _).
  split; [exact H1|exact H2].
Defined.

Lemma failed_write_is_final_witness :
  exists s3, bstep (Write false) s2 = Some (Ok tt, s3, []) /\ wire s3.1 = [] /\ fail s3.2 = true.
Proof.
  destruct (failed_write_is_final pop loop s2 [1%positive]) as (s3 & E & Hw & Hf & _).
  - exact (btrace_inv pop pop_some loop s0 _ s2 s0_inv trace_s2).
  - vm_compute. reflexivity.
  - exists s3. split; [exact E|]. split; [|exact Hf]. rewrite Hw. vm_compute. reflexivity.
Defined.

Lemma write_loop_drains_witness :
  exists s3 ls, drain pop loop get 2 s2 = Some (s3, ls) /\ done s3.2 = None /\ concat (wrote ls) = [1%positive].
Proof.
  destruct (write_loop_drains pop pop_some loop get s0 _ s2 s0_inv trace_s2) as (s3 & ls & E & Hd & _ & Hw).
  - split; [vm_compute; reflexivity| | | |vm_compute; discriminate].
    + intros h x Hx. unfold get in Hx. case_bool_decide; [|done]. injection Hx as <-. exists tx1. vm_compute. reflexivity.
    + intros h x Hx. cbn in Hx. unfold get in Hx. case_bool_decide; [|done]. injection Hx as <-. exists tx1. by vm_compute.
    + replace (in_flight s2.2) with [[1%positive]] by (vm_compute; reflexivity). repeat constructor. exists tx1. by vm_compute.
  - exists s3, ls. split; [exact E|]. split; [exact Hd|]. rewrite Hw. vm_compute. reflexivity.
Defined.
End BroadcastExample.
