(* ===== verification/TxFetcher.v ===== *)
(** * The transaction fetcher

    eth/fetcher/tx_fetcher.go: the component that hears of transactions by hash,
    from the announcements every connected node may send, and retrieves them.  A
    hash waits for a broadcast of its transaction, is then queued for the nodes
    that announced it, and is requested from one of them at a time.

    The state is the one of the struct and of the variables of [loop]; a pass of
    the loop, [pass], handles the case of [select] that was chosen.  Maps of sets
    are stdpp maps of sets; where an assignment can store the nil map a missing
    key reads as, values are options and [None] is the nil map.  The maps that
    two fields share for a moment are never read through both.  The clock is a
    sequence of readings, of which every call of [Now] takes the next one, a
    timer is the reading from which on it may fire, and a trigger channel is the
    number of signals that were sent to it and not received.  The orders Go
    iterates maps in are arguments of the pass.  [sent] lists the requests handed
    to the goroutines that call [fetchTxs]; their failure is the event [Dropped].
    Durations are nanoseconds; metrics and logging are left out. *)

From S2P Require Import Prelude EthTypes GethFuzzer CliqueSnapshot.

Abbreviation PeerId := string.
Abbreviation AbsTime := Z.

Definition maxTxAnnounces : nat := 4096.
Definition maxTxRetrievals : nat := 256.
Definition maxTxUnderpricedSetSize : nat := Z.to_nat 32768.
Definition Millisecond : Z := 1000000.
Definition txArriveTimeout : Z := 500 * Millisecond.
Definition txGatherSlack : Z := 100 * Millisecond.
Definition gatherSlack : Z := 100 * Millisecond.
Definition txFetchTimeout : Z := 5000 * Millisecond.

(** ** State *)

(** [geth:eth/fetcher/tx_fetcher.go] txAnnounce *)
Record txAnnounce := { ann_origin : PeerId; ann_hashes : list Hash }.

(** A request that timed out has no hashes left, the nil slice of the code.
    [geth:eth/fetcher/tx_fetcher.go] txRequest *)
Record txRequest := { rq_hashes : list Hash; stolen : gset Hash; rq_time : AbsTime }.

(** [geth:eth/fetcher/tx_fetcher.go] txDelivery *)
Record txDelivery := { dl_origin : PeerId; dl_hashes : list Hash; direct : bool }.

(** [geth:eth/fetcher/tx_fetcher.go] TxFetcher *)
Record TxFetcher := {
  underpriced : gset Hash;
  waitlist : gmap Hash (gset PeerId);
  waittime : gmap Hash AbsTime;
  waitslots : gmap PeerId (gset Hash);
  announces : gmap PeerId (gset Hash);
  announced : gmap Hash (option (gset PeerId));
  fetching : gmap Hash PeerId;
  requests : gmap PeerId txRequest;
  alternates : gmap Hash (option (gset PeerId));
  waitTimer : option AbsTime;
  timeoutTimer : option AbsTime;
  waitTrigger : nat;
  timeoutTrigger : nat;
  sent : list (PeerId * list Hash);
  reads : nat;
}.

Definition set_underpriced x (f : TxFetcher) : TxFetcher := {|
  underpriced := x; waitlist := waitlist f; waittime := waittime f; waitslots := waitslots f; announces :=
  announces f; announced := announced f; fetching := fetching f; requests := requests f; alternates :=
  alternates f; waitTimer := waitTimer f; timeoutTimer := timeoutTimer f; waitTrigger := waitTrigger f;
  timeoutTrigger := timeoutTrigger f; sent := sent f; reads := reads f |}.
Definition set_waitlist x (f : TxFetcher) : TxFetcher := {|
  underpriced := underpriced f; waitlist := x; waittime := waittime f; waitslots := waitslots f; announces :=
  announces f; announced := announced f; fetching := fetching f; requests := requests f; alternates :=
  alternates f; waitTimer := waitTimer f; timeoutTimer := timeoutTimer f; waitTrigger := waitTrigger f;
  timeoutTrigger := timeoutTrigger f; sent := sent f; reads := reads f |}.
Definition set_waittime x (f : TxFetcher) : TxFetcher := {|
  underpriced := underpriced f; waitlist := waitlist f; waittime := x; waitslots := waitslots f; announces :=
  announces f; announced := announced f; fetching := fetching f; requests := requests f; alternates :=
  alternates f; waitTimer := waitTimer f; timeoutTimer := timeoutTimer f; waitTrigger := waitTrigger f;
  timeoutTrigger := timeoutTrigger f; sent := sent f; reads := reads f |}.
Definition set_waitslots x (f : TxFetcher) : TxFetcher := {|
  underpriced := underpriced f; waitlist := waitlist f; waittime := waittime f; waitslots := x; announces :=
  announces f; announced := announced f; fetching := fetching f; requests := requests f; alternates :=
  alternates f; waitTimer := waitTimer f; timeoutTimer := timeoutTimer f; waitTrigger := waitTrigger f;
  timeoutTrigger := timeoutTrigger f; sent := sent f; reads := reads f |}.
Definition set_announces x (f : TxFetcher) : TxFetcher := {|
  underpriced := underpriced f; waitlist := waitlist f; waittime := waittime f; waitslots := waitslots f;
  announces := x; announced := announced f; fetching := fetching f; requests := requests f; alternates :=
  alternates f; waitTimer := waitTimer f; timeoutTimer := timeoutTimer f; waitTrigger := waitTrigger f;
  timeoutTrigger := timeoutTrigger f; sent := sent f; reads := reads f |}.
Definition set_announced x (f : TxFetcher) : TxFetcher := {|
  underpriced := underpriced f; waitlist := waitlist f; waittime := waittime f; waitslots := waitslots f;
  announces := announces f; announced := x; fetching := fetching f; requests := requests f; alternates :=
  alternates f; waitTimer := waitTimer f; timeoutTimer := timeoutTimer f; waitTrigger := waitTrigger f;
  timeoutTrigger := timeoutTrigger f; sent := sent f; reads := reads f |}.
Definition set_fetching x (f : TxFetcher) : TxFetcher := {|
  underpriced := underpriced f; waitlist := waitlist f; waittime := waittime f; waitslots := waitslots f;
  announces := announces f; announced := announced f; fetching := x; requests := requests f; alternates :=
  alternates f; waitTimer := waitTimer f; timeoutTimer := timeoutTimer f; waitTrigger := waitTrigger f;
  timeoutTrigger := timeoutTrigger f; sent := sent f; reads := reads f |}.
Definition set_requests x (f : TxFetcher) : TxFetcher := {|
  underpriced := underpriced f; waitlist := waitlist f; waittime := waittime f; waitslots := waitslots f;
  announces := announces f; announced := announced f; fetching := fetching f; requests := x; alternates :=
  alternates f; waitTimer := waitTimer f; timeoutTimer := timeoutTimer f; waitTrigger := waitTrigger f;
  timeoutTrigger := timeoutTrigger f; sent := sent f; reads := reads f |}.
Definition set_alternates x (f : TxFetcher) : TxFetcher := {|
  underpriced := underpriced f; waitlist := waitlist f; waittime := waittime f; waitslots := waitslots f;
  announces := announces f; announced := announced f; fetching := fetching f; requests := requests f;
  alternates := x; waitTimer := waitTimer f; timeoutTimer := timeoutTimer f; waitTrigger := waitTrigger f;
  timeoutTrigger := timeoutTrigger f; sent := sent f; reads := reads f |}.
Definition set_waitTimer x (f : TxFetcher) : TxFetcher := {|
  underpriced := underpriced f; waitlist := waitlist f; waittime := waittime f; waitslots := waitslots f;
  announces := announces f; announced := announced f; fetching := fetching f; requests := requests f;
  alternates := alternates f; waitTimer := x; timeoutTimer := timeoutTimer f; waitTrigger := waitTrigger f;
  timeoutTrigger := timeoutTrigger f; sent := sent f; reads := reads f |}.
Definition set_timeoutTimer x (f : TxFetcher) : TxFetcher := {|
  underpriced := underpriced f; waitlist := waitlist f; waittime := waittime f; waitslots := waitslots f;
  announces := announces f; announced := announced f; fetching := fetching f; requests := requests f;
  alternates := alternates f; waitTimer := waitTimer f; timeoutTimer := x; waitTrigger := waitTrigger f;
  timeoutTrigger := timeoutTrigger f; sent := sent f; reads := reads f |}.
Definition set_waitTrigger x (f : TxFetcher) : TxFetcher := {|
  underpriced := underpriced f; waitlist := waitlist f; waittime := waittime f; waitslots := waitslots f;
  announces := announces f; announced := announced f; fetching := fetching f; requests := requests f;
  alternates := alternates f; waitTimer := waitTimer f; timeoutTimer := timeoutTimer f; waitTrigger := x;
  timeoutTrigger := timeoutTrigger f; sent := sent f; reads := reads f |}.
Definition set_timeoutTrigger x (f : TxFetcher) : TxFetcher := {|
  underpriced := underpriced f; waitlist := waitlist f; waittime := waittime f; waitslots := waitslots f;
  announces := announces f; announced := announced f; fetching := fetching f; requests := requests f;
  alternates := alternates f; waitTimer := waitTimer f; timeoutTimer := timeoutTimer f; waitTrigger :=
  waitTrigger f; timeoutTrigger := x; sent := sent f; reads := reads f |}.
Definition set_sent x (f : TxFetcher) : TxFetcher := {|
  underpriced := underpriced f; waitlist := waitlist f; waittime := waittime f; waitslots := waitslots f;
  announces := announces f; announced := announced f; fetching := fetching f; requests := requests f;
  alternates := alternates f; waitTimer := waitTimer f; timeoutTimer := timeoutTimer f; waitTrigger :=
  waitTrigger f; timeoutTrigger := timeoutTrigger f; sent := x; reads := reads f |}.
Definition set_reads x (f : TxFetcher) : TxFetcher := {|
  underpriced := underpriced f; waitlist := waitlist f; waittime := waittime f; waitslots := waitslots f;
  announces := announces f; announced := announced f; fetching := fetching f; requests := requests f;
  alternates := alternates f; waitTimer := waitTimer f; timeoutTimer := timeoutTimer f; waitTrigger :=
  waitTrigger f; timeoutTrigger := timeoutTrigger f; sent := sent f; reads := x |}.

(** [geth:eth/fetcher/tx_fetcher.go] NewTxFetcherForTests
    [geth:eth/fetcher/tx_fetcher.go] NewTxFetcher *)
Definition NewTxFetcher : TxFetcher := {|
  underpriced := ∅; waitlist := ∅; waittime := ∅; waitslots := ∅; announces := ∅; announced := ∅;
  fetching := ∅; requests := ∅; alternates := ∅;
  waitTimer := None; timeoutTimer := None; waitTrigger := 0; timeoutTrigger := 0; sent := []; reads := 0 |}.

(** ** Maps of sets *)

(** [m[k][x] = struct{}{}], on a new set when there is none. *)
Definition add_to `{Countable K} `{Countable V} (k : K) (x : V) (m : gmap K (gset V)) : gmap K (gset V) :=
  match m !! k with
  | Some s => <[k := s ∪ {[x]}]> m
  | None => <[k := {[x]}]> m
  end.

(** [delete(m[k], x)]. *)
Definition delete_from `{Countable K} `{Countable V} (k : K) (x : V) (m : gmap K (gset V)) : gmap K (gset V) :=
  match m !! k with
  | Some s => <[k := s ∖ {[x]}]> m
  | None => m
  end.

(** [if len(m[k]) == 0 { delete(m, k) }]. *)
Definition tidy `{Countable K} `{Countable V} (k : K) (m : gmap K (gset V)) : gmap K (gset V) :=
  if bool_decide (default ∅ (m !! k) = ∅) then delete k m else m.

(** [for k, set := range m { delete(set, x); if len(set) == 0 { delete(m, k) } }]. *)
Definition delete_everywhere `{Countable K} `{Countable V} (x : V) (m : gmap K (gset V)) : gmap K (gset V) :=
  omap (fun s => if bool_decide (s ∖ {[x]} = ∅) then None else Some (s ∖ {[x]})) m.

(** The same on maps whose values may be nil: [m[k]], and [delete(m[k], x)]. *)
Definition at_ `{Countable K} {S} (m : gmap K (option S)) (k : K) : option S := mjoin (m !! k).

Definition delete_at `{Countable K} `{Countable V} (k : K) (x : V) (m : gmap K (option (gset V))) :
    gmap K (option (gset V)) :=
  match at_ m k with
  | Some s => <[k := Some (s ∖ {[x]})]> m
  | None => m
  end.

Definition tidy_at `{Countable K} `{Countable V} (k : K) (m : gmap K (option (gset V))) :
    gmap K (option (gset V)) :=
  if bool_decide (default ∅ (at_ m k) = ∅) then delete k m else m.

Fixpoint each {S A} (l : list A) (body : A -> StM S unit) : StM S unit :=
  match l with
  | [] => mret tt
  | x :: l => _ ← body x; each l body
  end.

(** ** Orders of iteration *)

(** What the run time chooses during a pass: the order of every range over a map
    of hashes or of peers, numbered in the order of the code, and of the ranges
    over what a peer announced.  A fetcher made for tests has a source of random
    numbers, with which it rotates sorted orders. *)
Record Orders := {
  over_hashes : nat -> gset Hash -> list Hash;
  over_peers : nat -> gset PeerId -> list PeerId;
  over_announces : PeerId -> gset Hash -> list Hash;
  rand : option (option PeerId -> nat);
}.

(** [geth:eth/fetcher/tx_fetcher.go] rotateStrings
    [geth:eth/fetcher/tx_fetcher.go] rotateHashes *)
Definition rotate {A} (slice : list A) (n : nat) : list A :=
  omap (fun i => slice !! ((i + n) mod length slice)%nat) (seq 0 (length slice)).

(** Swaps the head with every smaller element to its right. *)
Fixpoint sort_head (x : Hash) (l : list Hash) : Hash * list Hash :=
  match l with
  | [] => (x, [])
  | y :: l => if bytes_le x y then let '(m, r) := sort_head x l in (m, y :: r)
              else let '(m, r) := sort_head y l in (m, x :: r)
  end.

Fixpoint sort_hashes (fuel : nat) (l : list Hash) : list Hash :=
  match fuel, l with
  | S fuel, x :: l => let '(m, r) := sort_head x l in m :: sort_hashes fuel r
  | _, _ => l
  end.

(** [geth:eth/fetcher/tx_fetcher.go] sortHashes *)
Definition sortHashes (slice : list Hash) : list Hash := sort_hashes (length slice) slice.

(** The order in which the peers, or the hashes of a peer, are visited.
    [geth:eth/fetcher/tx_fetcher.go] TxFetcher.forEachPeer *)
Definition forEachPeer (o : Orders) (peers : gset PeerId) : list PeerId :=
  let list := over_peers o 2 peers in
  match rand o with
  | None => list
  | Some Intn => rotate (merge_sort String.le list) (Intn None)
  end.

(** [geth:eth/fetcher/tx_fetcher.go] TxFetcher.forEachHash *)
Definition forEachHash (o : Orders) (peer : PeerId) (hashes : gset Hash) : list Hash :=
  let list := over_announces o peer hashes in
  match rand o with
  | None => list
  | Some Intn => rotate (sortHashes list) (Intn (Some peer))
  end.

(** ** Outside the loop *)

Section Callers.
Context (hasTx : Hash -> bool).

(** What is neither in the pool nor known to be underpriced is handed to the
    loop.
    [geth:eth/fetcher/tx_fetcher.go] TxFetcher.Notify *)
Definition Notify (peer : PeerId) (hashes : list Hash) (f : TxFetcher) : option txAnnounce :=
  let unknowns := filter (fun h => hasTx h = false /\ h ∉ underpriced f) hashes in
  if bool_decide (unknowns = []) then None else Some {| ann_origin := peer; ann_hashes := unknowns |}.

(** The errors of the pool. *)
Inductive PoolError :=
| ErrAlreadyKnown
| ErrUnderpriced
| ErrReplaceUnderpriced
| OtherReject.
#[export] Instance PoolError_eq_dec : EqDecision PoolError.
Proof. solve_decision. Defined.

(** Makes room in the set of underpriced transactions; [Pop] removes some
    element. *)
Fixpoint pop_until (o : Orders) (fuel : nat) (s : gset Hash) : gset Hash :=
  match fuel with
  | 0%nat => s
  | S fuel =>
      if (maxTxUnderpricedSetSize <=? size s)%nat then
        pop_until o fuel match hd_error (over_hashes o 0 s) with Some h => s ∖ {[h]} | None => s end
      else s
  end.

Fixpoint track_added (o : Orders) (txs : list Transaction) (errs : list (option PoolError)) (i : nat) :
    StM TxFetcher (list Hash) :=
  match errs with
  | [] => mret []
  | err :: errs =>
      tx ← pure match txs !! i with Some tx => Ok tx | None => Panic "index out of range" end;
      _ ← (if bool_decide (err = Some ErrUnderpriced \/ err = Some ErrReplaceUnderpriced) then
             putS (fun f => set_underpriced (pop_until o (size (underpriced f)) (underpriced f) ∪ {[tx_hash tx]}) f)
           else mret tt);
      added ← track_added o txs errs (S i);
      mret (tx_hash tx :: added)
  end.

(** The transactions are put in the pool, which answers with [errs], and all of
    them handed to the loop.
    [geth:eth/fetcher/tx_fetcher.go] TxFetcher.Enqueue *)
Definition Enqueue (o : Orders) (addTxs : list Transaction -> list (option PoolError)) (peer : PeerId)
    (txs : list Transaction) (direct : bool) : StM TxFetcher txDelivery :=
  added ← track_added o txs (addTxs txs) 0;
  mret {| dl_origin := peer; dl_hashes := added; direct := direct |}.
End Callers.

(** ** The loop *)

Section Loop.
(** The readings of the clock. *)
Context (clock : nat -> AbsTime).

(** [clock.Now()]. *)
Definition Now : StM TxFetcher AbsTime := fun f => (Ok (clock (reads f)), set_reads (S (reads f)) f).

(** *** Timers *)

(** The earliest of the times from [now] back; the search ends at a time that is
    due at once. *)
Fixpoint earliest_of (timeout now earliest : AbsTime) (times : list AbsTime) : AbsTime :=
  match times with
  | [] => earliest
  | t :: times =>
      if t <? earliest then
        if timeout - (now - t) <? gatherSlack then t else earliest_of timeout now t times
      else earliest_of timeout now earliest times
  end.

(** [AfterFunc] counts from its own reading of the clock.
    [geth:eth/fetcher/tx_fetcher.go] TxFetcher.rescheduleWait *)
Definition rescheduleWait (o : Orders) : StM TxFetcher unit :=
  now ← Now;
  times ← getS (fun f => omap (fun h => waittime f !! h) (over_hashes o 1 (dom (waittime f))));
  let earliest := earliest_of txArriveTimeout now now times in
  start ← Now;
  putS (set_waitTimer (Some (start + (txArriveTimeout - (now - earliest))))).

(** [geth:eth/fetcher/tx_fetcher.go] TxFetcher.rescheduleTimeout *)
Definition rescheduleTimeout (o : Orders) : StM TxFetcher unit :=
  now ← Now;
  times ← getS (fun f => omap (fun p => req ← requests f !! p;
                                        if bool_decide (rq_hashes req = []) then None else Some (rq_time req))
                              (over_peers o 1 (dom (requests f))));
  let earliest := earliest_of txFetchTimeout now now times in
  start ← Now;
  putS (set_timeoutTimer (Some (start + (txFetchTimeout - (now - earliest))))).

(** *** Requests *)

(** Takes hashes that nobody is asked for, up to the limit of a request.
    [geth:eth/fetcher/tx_fetcher.go:774-791] TxFetcher.scheduleFetches *)
Fixpoint allocate (peer : PeerId) (candidates hashes : list Hash) : StM TxFetcher (list Hash) :=
  match candidates with
  | [] => mret hashes
  | h :: candidates =>
      busy ← getS (fun f => bool_decide (is_Some (fetching f !! h)));
      if (busy : bool) then allocate peer candidates hashes
      else
        _ ← putS (fun f => set_fetching (<[h := peer]> (fetching f)) f);
        clash ← getS (fun f => bool_decide (is_Some (alternates f !! h)));
        _ ← pure (if (clash : bool) then Panic "alternate tracker already contains fetching item" else Ok tt);
        _ ← putS (fun f => set_alternates (<[h := at_ (announced f) h]> (alternates f)) f);
        _ ← putS (fun f => set_announced (delete h (announced f)) f);
        let hashes := hashes ++ [h] in
        if (maxTxRetrievals <=? length hashes)%nat then mret hashes else allocate peer candidates hashes
  end.

(** A request to a peer that announced something and has no request pending.
    [geth:eth/fetcher/tx_fetcher.go:766-806] TxFetcher.scheduleFetches *)
Definition schedule_peer (o : Orders) (peer : PeerId) : StM TxFetcher unit :=
  pending ← getS (fun f => bool_decide (is_Some (requests f !! peer)));
  if (pending : bool) then mret tt
  else
    mine ← getS (fun f => default ∅ (announces f !! peer));
    if bool_decide (mine = ∅) then mret tt
    else
      hashes ← allocate peer (forEachHash o peer mine) [];
      if bool_decide (hashes = []) then mret tt
      else
        now ← Now;
        _ ← putS (fun f => set_requests
              (<[peer := {| rq_hashes := hashes; stolen := ∅; rq_time := now |}]> (requests f)) f);
        putS (fun f => set_sent (sent f ++ [(peer, hashes)]) f).

(** [geth:eth/fetcher/tx_fetcher.go] TxFetcher.scheduleFetches *)
Definition scheduleFetches (o : Orders) (whitelist : option (gset PeerId)) : StM TxFetcher unit :=
  all ← getS (fun f => dom (announces f));
  let actives := default all whitelist in
  if bool_decide (actives = ∅) then mret tt
  else
    idle ← getS (fun f => bool_decide (requests f = ∅));
    _ ← each (forEachPeer o actives) (schedule_peer o);
    some ← getS (fun f => bool_decide (requests f <> ∅));
    if (idle && some)%bool then rescheduleTimeout o else mret tt.

(** *** Announcements *)

(** [geth:eth/fetcher/tx_fetcher.go:379-429] TxFetcher.loop *)
Definition notify_hash (origin : PeerId) (h : Hash) : StM TxFetcher unit :=
  f ← getS id;
  match at_ (alternates f) h with
  | Some s =>
      _ ← putS (set_alternates (<[h := Some (s ∪ {[origin]})]> (alternates f)));
      putS (set_announces (add_to origin h (announces f)))
  | None =>
      match at_ (announced f) h with
      | Some s =>
          _ ← putS (set_announced (<[h := Some (s ∪ {[origin]})]> (announced f)));
          putS (set_announces (add_to origin h (announces f)))
      | None =>
          match waitlist f !! h with
          | Some s =>
              _ ← putS (set_waitlist (<[h := s ∪ {[origin]}]> (waitlist f)));
              putS (set_waitslots (add_to origin h (waitslots f)))
          | None =>
              _ ← putS (set_waitlist (<[h := {[origin]}]> (waitlist f)));
              now ← Now;
              _ ← putS (set_waittime (<[h := now]> (waittime f)));
              putS (set_waitslots (add_to origin h (waitslots f)))
          end
      end
  end.

(** What a peer has pending in the fetcher.
    [geth:eth/fetcher/tx_fetcher.go:361-361] TxFetcher.loop *)
Definition used (p : PeerId) (f : TxFetcher) : nat :=
  (size (default ∅ (waitslots f !! p)) + size (default ∅ (announces f !! p)))%nat.

(** [geth:eth/fetcher/tx_fetcher.go:356-438] TxFetcher.loop *)
Definition on_notify (o : Orders) (ann : txAnnounce) : StM TxFetcher unit :=
  let origin := ann_origin ann in
  used ← getS (used origin);
  if (maxTxAnnounces <=? used)%nat then mret tt
  else
    let want := (used + length (ann_hashes ann))%nat in
    let hashes := if (maxTxAnnounces <? want)%nat then take (want - maxTxAnnounces) (ann_hashes ann)
                  else ann_hashes ann in
    idleWait ← getS (fun f => bool_decide (waittime f = ∅));
    oldPeer ← getS (fun f => bool_decide (is_Some (announces f !! origin)));
    _ ← each hashes (notify_hash origin);
    waiting ← getS (fun f => bool_decide (waittime f <> ∅));
    _ ← (if (idleWait && waiting)%bool then rescheduleWait o else mret tt);
    some ← getS (fun f => bool_decide (default ∅ (announces f !! origin) <> ∅));
    if (negb oldPeer && some)%bool then scheduleFetches o (Some {[origin]}) else mret tt.

(** *** The end of the wait *)

(** [geth:eth/fetcher/tx_fetcher.go:444-466] TxFetcher.loop *)
Definition expire_wait (actives : gset PeerId) (h : Hash) : StM TxFetcher (gset PeerId) :=
  instance ← getS (fun f => waittime f !! h);
  match instance with
  | None => mret actives
  | Some instance =>
      now ← Now;
      if (txArriveTimeout <? (now - instance) + txGatherSlack) then
        f ← getS id;
        _ ← pure (if bool_decide (at_ (announced f) h <> None)
                  then Panic "announce tracker already contains waitlist item" else Ok tt);
        _ ← putS (set_announced (<[h := waitlist f !! h]> (announced f)));
        let peers := elements (default ∅ (waitlist f !! h)) in
        _ ← putS (set_announces (foldr (fun p m => add_to p h m) (announces f) peers));
        _ ← putS (set_waitslots (foldr (fun p m => tidy p (delete_from p h m)) (waitslots f) peers));
        _ ← putS (set_waittime (delete h (waittime f)));
        _ ← putS (set_waitlist (delete h (waitlist f)));
        mret (actives ∪ default ∅ (waitlist f !! h))
      else mret actives
  end.

Fixpoint expire_waits (actives : gset PeerId) (l : list Hash) : StM TxFetcher (gset PeerId) :=
  match l with
  | [] => mret actives
  | h :: l => actives ← expire_wait actives h; expire_waits actives l
  end.

(** [geth:eth/fetcher/tx_fetcher.go:440-474] TxFetcher.loop *)
Definition on_wait (o : Orders) : StM TxFetcher unit :=
  keys ← getS (fun f => over_hashes o 0 (dom (waittime f)));
  actives ← expire_waits ∅ keys;
  waiting ← getS (fun f => bool_decide (waittime f <> ∅));
  _ ← (if (waiting : bool) then rescheduleWait o else mret tt);
  if bool_decide (actives <> ∅) then scheduleFetches o (Some actives) else mret tt.

(** *** Timeouts *)

(** [geth:eth/fetcher/tx_fetcher.go:486-507] TxFetcher.loop *)
Definition expire_hash (peer : PeerId) (req : txRequest) (h : Hash) : StM TxFetcher unit :=
  if bool_decide (h ∈ stolen req) then mret tt
  else
    f ← getS id;
    _ ← pure (if bool_decide (is_Some (announced f !! h))
              then Panic "announced tracker already contains alternate item" else Ok tt);
    _ ← (if bool_decide (at_ (alternates f) h <> None)
         then putS (set_announced (<[h := at_ (alternates f) h]> (announced f))) else mret tt);
    _ ← putS (fun f => set_announced (tidy_at h (delete_at h peer (announced f))) f);
    _ ← putS (set_announces (delete_from peer h (announces f)));
    _ ← putS (set_alternates (delete h (alternates f)));
    putS (set_fetching (delete h (fetching f))).

(** [geth:eth/fetcher/tx_fetcher.go:481-513] TxFetcher.loop *)
Definition expire_request (peer : PeerId) : StM TxFetcher unit :=
  req ← getS (fun f => requests f !! peer);
  match req with
  | None => mret tt
  | Some req =>
      now ← Now;
      if (txFetchTimeout <? (now - rq_time req) + txGatherSlack) then
        _ ← each (rq_hashes req) (expire_hash peer req);
        _ ← putS (fun f => set_announces (tidy peer (announces f)) f);
        putS (fun f => set_requests
          (<[peer := {| rq_hashes := []; stolen := stolen req; rq_time := rq_time req |}]> (requests f)) f)
      else mret tt
  end.

(** [geth:eth/fetcher/tx_fetcher.go:476-520] TxFetcher.loop *)
Definition on_timeout (o : Orders) : StM TxFetcher unit :=
  peers ← getS (fun f => over_peers o 0 (dom (requests f)));
  _ ← each peers expire_request;
  _ ← scheduleFetches o None;
  rescheduleTimeout o.

(** *** Deliveries *)

(** All traces of a delivered hash are removed; a request that is not answered
    by this delivery is told.
    [geth:eth/fetcher/tx_fetcher.go:525-558] TxFetcher.loop *)
Definition forget (d : txDelivery) (h : Hash) : StM TxFetcher unit :=
  f ← getS id;
  if bool_decide (is_Some (waitlist f !! h)) then
    _ ← putS (set_waitslots (delete_everywhere h (waitslots f)));
    _ ← putS (set_waitlist (delete h (waitlist f)));
    putS (set_waittime (delete h (waittime f)))
  else
    _ ← putS (set_announces (delete_everywhere h (announces f)));
    _ ← putS (set_announced (delete h (announced f)));
    _ ← putS (set_alternates (delete h (alternates f)));
    _ ← match fetching f !! h with
        | Some origin =>
            if bool_decide (origin <> dl_origin d) || negb (direct d) then
              match requests f !! origin with
              | Some req =>
                  putS (set_requests (<[origin := {| rq_hashes := rq_hashes req; stolen := stolen req ∪ {[h]};
                                                     rq_time := rq_time req |}]> (requests f)))
              | None => pure (Panic "invalid memory address or nil pointer dereference")
              end
            else mret tt
        | None => mret tt
        end;
    putS (set_fetching (delete h (fetching f))).

(** The index of the last delivered hash of the request, its length when there is
    none.
    [geth:eth/fetcher/tx_fetcher.go:579-584] TxFetcher.loop *)
Fixpoint cutoff_from (delivered : gset Hash) (hashes : list Hash) (i cutoff : nat) : nat :=
  match hashes with
  | [] => cutoff
  | h :: hashes => cutoff_from delivered hashes (S i) (if bool_decide (h ∈ delivered) then i else cutoff)
  end.

(** [geth:eth/fetcher/tx_fetcher.go:586-610] TxFetcher.loop *)
Definition reschedule_hash (origin : PeerId) (req : txRequest) (delivered : gset Hash) (cutoff i : nat) (h : Hash) :
    StM TxFetcher unit :=
  if bool_decide (h ∈ stolen req) then mret tt
  else
    _ ← (if bool_decide (h ∈ delivered) then mret tt
         else
           _ ← (if (i <? cutoff)%nat then
                  _ ← putS (fun f => set_alternates (delete_at h origin (alternates f)) f);
                  putS (fun f => set_announces (tidy origin (delete_from origin h (announces f))) f)
                else mret tt);
           f ← getS id;
           if bool_decide (default ∅ (at_ (alternates f) h) <> ∅) then
             _ ← pure (if bool_decide (is_Some (announced f !! h))
                       then Panic "announced tracker already contains alternate item" else Ok tt);
             putS (set_announced (<[h := at_ (alternates f) h]> (announced f)))
           else mret tt);
    _ ← putS (fun f => set_alternates (delete h (alternates f)) f);
    putS (fun f => set_fetching (delete h (fetching f)) f).

Fixpoint reschedule_all (origin : PeerId) (req : txRequest) (delivered : gset Hash) (cutoff i : nat)
    (hashes : list Hash) : StM TxFetcher unit :=
  match hashes with
  | [] => mret tt
  | h :: hashes =>
      _ ← reschedule_hash origin req delivered cutoff i h;
      reschedule_all origin req delivered cutoff (S i) hashes
  end.

(** [geth:eth/fetcher/tx_fetcher.go:522-613] TxFetcher.loop *)
Definition on_delivery (o : Orders) (d : txDelivery) : StM TxFetcher unit :=
  _ ← each (dl_hashes d) (forget d);
  if direct d then
    req ← getS (fun f => requests f !! dl_origin d);
    match req with
    | None => mret tt
    | Some req =>
        _ ← putS (fun f => set_requests (delete (dl_origin d) (requests f)) f);
        let delivered := list_to_set (dl_hashes d) in
        let cutoff := cutoff_from delivered (rq_hashes req) 0 (length (rq_hashes req)) in
        _ ← reschedule_all (dl_origin d) req delivered cutoff 0 (rq_hashes req);
        scheduleFetches o None
    end
  else mret tt.

(** *** Disconnected peers *)

(** [geth:eth/fetcher/tx_fetcher.go:618-624] TxFetcher.loop *)
Definition drop_wait_hash (peer : PeerId) (h : Hash) : StM TxFetcher unit :=
  _ ← putS (fun f => set_waitlist (delete_from h peer (waitlist f)) f);
  f ← getS id;
  if bool_decide (default ∅ (waitlist f !! h) = ∅) then
    _ ← putS (set_waitlist (delete h (waitlist f)));
    putS (set_waittime (delete h (waittime f)))
  else mret tt.

(** [geth:eth/fetcher/tx_fetcher.go:617-629] TxFetcher.loop *)
Definition drop_waits (o : Orders) (peer : PeerId) : StM TxFetcher unit :=
  f ← getS id;
  match waitslots f !! peer with
  | None => mret tt
  | Some hashes =>
      _ ← each (elements hashes) (drop_wait_hash peer);
      _ ← putS (fun f => set_waitslots (delete peer (waitslots f)) f);
      some ← getS (fun f => bool_decide (waitlist f <> ∅));
      if (some : bool) then rescheduleWait o else mret tt
  end.

(** [geth:eth/fetcher/tx_fetcher.go:633-649] TxFetcher.loop *)
Definition drop_hash (peer : PeerId) (req : txRequest) (h : Hash) : StM TxFetcher unit :=
  if bool_decide (h ∈ stolen req) then mret tt
  else
    _ ← putS (fun f => set_alternates (delete_at h peer (alternates f)) f);
    f ← getS id;
    _ ← (if bool_decide (default ∅ (at_ (alternates f) h) = ∅) then
           putS (set_alternates (delete h (alternates f)))
         else
           _ ← putS (set_announced (<[h := at_ (alternates f) h]> (announced f)));
           putS (set_alternates (delete h (alternates f))));
    putS (set_fetching (delete h (fetching f))).

(** [geth:eth/fetcher/tx_fetcher.go:632-651] TxFetcher.loop *)
Definition drop_request (peer : PeerId) (request : option txRequest) : StM TxFetcher unit :=
  match request with
  | Some req =>
      _ ← each (rq_hashes req) (drop_hash peer req);
      putS (fun f => set_requests (delete peer (requests f)) f)
  | None => mret tt
  end.

(** [geth:eth/fetcher/tx_fetcher.go:653-661] TxFetcher.loop *)
Definition drop_announces (peer : PeerId) (mine : option (gset Hash)) : StM TxFetcher unit :=
  match mine with
  | Some hashes =>
      _ ← each (elements hashes) (fun h =>
            putS (fun f => set_announced (tidy_at h (delete_at h peer (announced f))) f));
      putS (fun f => set_announces (delete peer (announces f)) f)
  | None => mret tt
  end.

(** [geth:eth/fetcher/tx_fetcher.go:615-666] TxFetcher.loop *)
Definition on_drop (o : Orders) (peer : PeerId) : StM TxFetcher unit :=
  _ ← drop_waits o peer;
  request ← getS (fun f => requests f !! peer);
  _ ← drop_request peer request;
  mine ← getS (fun f => announces f !! peer);
  _ ← drop_announces peer mine;
  match request with
  | Some _ => _ ← scheduleFetches o None; rescheduleTimeout o
  | None => mret tt
  end.

(** *** A pass of the loop *)

(** What can happen: a message on one of the channels, or a timer fires. *)
Inductive event :=
| Announced (ann : txAnnounce)
| WaitTriggered
| TimeoutTriggered
| Delivered (d : txDelivery)
| Dropped (peer : PeerId)
| WaitFires
| TimeoutFires.

Definition fires (timer : option AbsTime) (f : TxFetcher) : bool :=
  match timer with Some due => due <=? clock (reads f) | None => false end.

(** An event that is not possible changes nothing.
    [geth:eth/fetcher/tx_fetcher.go] TxFetcher.loop *)
Definition pass (o : Orders) (ev : event) : StM TxFetcher unit :=
  match ev with
  | Announced ann => on_notify o ann
  | WaitTriggered => fun f =>
      match waitTrigger f with
      | S n => on_wait o (set_waitTrigger n f)
      | 0%nat => (Ok tt, f)
      end
  | TimeoutTriggered => fun f =>
      match timeoutTrigger f with
      | S n => on_timeout o (set_timeoutTrigger n f)
      | 0%nat => (Ok tt, f)
      end
  | Delivered d => on_delivery o d
  | Dropped peer => on_drop o peer
  | WaitFires =>
      putS (fun f => if fires (waitTimer f) f then set_waitTrigger (S (waitTrigger f)) (set_waitTimer None f) else f)
  | TimeoutFires =>
      putS (fun f => if fires (timeoutTimer f) f
                     then set_timeoutTrigger (S (timeoutTrigger f)) (set_timeoutTimer None f) else f)
  end.

(** [geth:eth/fetcher/tx_fetcher.go:354-355] TxFetcher.loop *)
Definition loop (evs : list (Orders * event)) : StM TxFetcher unit :=
  each evs (fun e => pass e.1 e.2).
End Loop.
