(* ===== verification/TxFetcherSpec.v ===== *)
(** * The stages of the transaction fetcher

    The invariant the comment of [TxFetcher] claims, as the automaton [stage] of
    one hash over the seven maps and the requests, and that every part of the
    handlers keeps it and runs through.  The invariant of the state, [core], has
    the lists by peer and the requests as arguments, so that inside a loop over
    the hashes of a request it is applied to the part of the request that is
    left.  TxFetcherLoop.v puts the handlers together. *)

From S2P Require Import Prelude EthTypes GethFuzzer CliqueSnapshot TxFetcher.

(** ** Maps of sets *)

Definition proper `{Countable K} {S} `{Empty S} (m : gmap K S) : Prop := forall k s, m !! k = Some s -> s <> ∅.

Section Sets.
Context `{Countable K} `{Countable V}.
Implicit Types (m : gmap K (gset V)) (w : gmap K (option (gset V))).

Lemma total_default m k : m !!! k = default ∅ (m !! k).
Proof. reflexivity. Qed.

Lemma add_to_total k x m k' : add_to k x m !!! k' = if decide (k' = k) then m !!! k' ∪ {[x]} else m !!! k'.
Proof.
  unfold add_to. rewrite !total_default. destruct (m !! k) as [s|] eqn:E; destruct (decide (k' = k)) as [->|].
  all: rewrite ?lookup_insert_eq, ?lookup_insert_ne by done; rewrite ?E; cbn; set_solver.
Qed.

Lemma delete_from_total k x m k' :
  delete_from k x m !!! k' = if decide (k' = k) then m !!! k' ∖ {[x]} else m !!! k'.
Proof.
  unfold delete_from. rewrite !total_default. destruct (m !! k) as [s|] eqn:E; destruct (decide (k' = k)) as [->|].
  all: rewrite ?lookup_insert_eq, ?lookup_insert_ne by done; rewrite ?E; cbn; set_solver.
Qed.

Lemma tidy_total k m k' : tidy k m !!! k' = m !!! k'.
Proof.
  unfold tidy. case_bool_decide as E; [|done]. rewrite !total_default. destruct (decide (k' = k)) as [->|].
  - by rewrite lookup_delete_eq, E.
  - by rewrite lookup_delete_ne.
Qed.

Lemma delete_everywhere_total x m k : delete_everywhere x m !!! k = m !!! k ∖ {[x]}.
Proof.
  unfold delete_everywhere. rewrite !total_default, lookup_omap. destruct (m !! k) as [s|]; cbn; [|set_solver].
  case_bool_decide; cbn; set_solver.
Qed.

Lemma elem_add_to k x m k' y : y ∈ add_to k x m !!! k' <-> (k' = k /\ y = x) \/ y ∈ m !!! k'.
Proof. rewrite add_to_total. case_decide; set_solver. Qed.

Lemma elem_delete_from k x m k' y : y ∈ delete_from k x m !!! k' <-> ~ (k' = k /\ y = x) /\ y ∈ m !!! k'.
Proof. rewrite delete_from_total. case_decide; set_solver. Qed.

Lemma elem_tidy k m k' y : y ∈ tidy k m !!! k' <-> y ∈ m !!! k'.
Proof. by rewrite tidy_total. Qed.

Lemma elem_delete_everywhere x m k y : y ∈ delete_everywhere x m !!! k <-> y <> x /\ y ∈ m !!! k.
Proof. rewrite delete_everywhere_total. set_solver. Qed.

Lemma elem_delete k m k' y : y ∈ delete k m !!! k' <-> k' <> k /\ y ∈ m !!! k'.
Proof.
  rewrite !total_default. destruct (decide (k' = k)) as [->|].
  - rewrite lookup_delete_eq. cbn. set_solver.
  - rewrite lookup_delete_ne by done. naive_solver.
Qed.

Lemma elem_foldr_add x m l k y :
  y ∈ foldr (fun k m => add_to k x m) m l !!! k <-> (k ∈ l /\ y = x) \/ y ∈ m !!! k.
Proof. induction l as [|k' l IH]; cbn; [set_solver|]. rewrite elem_add_to, IH. set_solver. Qed.

Lemma elem_foldr_delete x m l k y :
  y ∈ foldr (fun k m => tidy k (delete_from k x m)) m l !!! k <-> ~ (k ∈ l /\ y = x) /\ y ∈ m !!! k.
Proof. induction l as [|k' l IH]; cbn; [set_solver|]. rewrite elem_tidy, elem_delete_from, IH. set_solver. Qed.

Lemma add_to_proper k x m : proper m -> proper (add_to k x m).
Proof.
  intros Hm k' s Hs. apply (f_equal (default ∅)) in Hs as Hs'. rewrite <- total_default, add_to_total in Hs'.
  unfold add_to in Hs. destruct (decide (k' = k)) as [->|Hne]; [cbn in Hs'; set_solver|].
  destruct (m !! k); rewrite lookup_insert_ne in Hs by done; exact (Hm k' s Hs).
Qed.

Lemma tidy_delete_proper k x m : proper m -> proper (tidy k (delete_from k x m)).
Proof.
  intros Hm k' s Hs. unfold tidy in Hs. case_bool_decide as E.
  - apply lookup_delete_Some in Hs as [Hne Hs]. unfold delete_from in Hs.
    destruct (m !! k); rewrite ?lookup_insert_ne in Hs by done; exact (Hm k' s Hs).
  - destruct (decide (k' = k)) as [->|Hne]; [by rewrite Hs in E|]. unfold delete_from in Hs.
    destruct (m !! k); rewrite ?lookup_insert_ne in Hs by done; exact (Hm k' s Hs).
Qed.

(** Sets that may be empty at one key only. *)
Definition proper_but k m : Prop := forall k' s, k' <> k -> m !! k' = Some s -> s <> ∅.

Lemma proper_but_delete_from k x m : proper_but k m -> proper_but k (delete_from k x m).
Proof.
  intros Hm k' s Hne Hs. unfold delete_from in Hs. apply (Hm k' s Hne).
  destruct (m !! k); [by rewrite lookup_insert_ne in Hs|done].
Qed.

Lemma proper_but_tidy k m : proper_but k m -> proper (tidy k m).
Proof.
  intros Hm k' s Hs. unfold tidy in Hs. case_bool_decide as E.
  - apply lookup_delete_Some in Hs as [Hne Hs]. by apply (Hm k').
  - destruct (decide (k' = k)) as [->|Hne]; [by rewrite Hs in E|by apply (Hm k')].
Qed.

Lemma delete_everywhere_proper x m : proper (delete_everywhere x m).
Proof.
  intros k s. unfold delete_everywhere. rewrite lookup_omap. destruct (m !! k); cbn; [|done].
  case_bool_decide; [done|]. by intros [= <-].
Qed.

Lemma foldr_add_proper x m l : proper m -> proper (foldr (fun k m => add_to k x m) m l).
Proof. intros Hm. induction l; cbn; [done|]. by apply add_to_proper. Qed.

Lemma delete_proper k m : proper m -> proper (delete k m).
Proof. intros Hm k' s [_ Hs]%lookup_delete_Some. exact (Hm k' s Hs). Qed.
End Sets.

(** ** Runs that succeed *)

Definition runs {S A} (m : StM S A) (f : S) (Q : A -> S -> Prop) : Prop := exists a f', m f = (Ok a, f') /\ Q a f'.

Section Runs.
Context {S : Type}.

Lemma total_ret {A} (a : A) (f : S) Q : Q a f -> runs (mret a) f Q.
Proof. intros H. by exists a, f. Qed.

Lemma total_bind {A B} (m : StM S A) (k : A -> StM S B) f Q :
  runs m f (fun a f' => runs (k a) f' Q) -> runs (m ≫= k) f Q.
Proof. intros (a & f' & Hm & b & f'' & Hk & HQ). exists b, f''. by rewrite (StM_run _ _ _ _ _ Hm). Qed.

Lemma runs_get {A} (g : S -> A) f (Q : A -> S -> Prop) : Q (g f) f -> runs (getS g) f Q.
Proof. intros H. by exists (g f), f. Qed.

Lemma runs_put g f (Q : unit -> S -> Prop) : Q tt (g f) -> runs (putS g) f Q.
Proof. intros H. by exists tt, (g f). Qed.

Lemma runs_pure (b : bool) msg f (Q : unit -> S -> Prop) :
  b = false -> Q tt f -> runs (pure (if b then Panic msg else Ok tt)) f Q.
Proof. intros -> H. by exists tt, f. Qed.

Lemma runs_weaken {A} (m : StM S A) f (Q R : A -> S -> Prop) :
  runs m f Q -> (forall a f', Q a f' -> R a f') -> runs m f R.
Proof. intros (a & f' & H & HQ) HR. exists a, f'. eauto. Qed.

Lemma runs_both {A} (m : StM S A) f (Q R : A -> S -> Prop) :
  runs m f Q -> runs m f R -> runs m f (fun a f' => Q a f' /\ R a f').
Proof. intros (a & f' & H & HQ) (b & f'' & H' & HR). rewrite H in H'. simplify_eq. by eexists _, _. Qed.

(** A loop, with an invariant on what is left. *)
Lemma runs_each {A} (I : list A -> S -> Prop) (body : A -> StM S unit) l f :
  I l f -> (forall x l' f', I (x :: l') f' -> runs (body x) f' (fun _ => I l')) ->
  runs (each l body) f (fun _ => I []).
Proof.
  intros HI Hb. revert f HI. induction l as [|x l IH]; intros f HI; cbn; [by apply total_ret|].
  apply total_bind, (runs_weaken _ _ _ _ (Hb x l f HI)). intros _ f' Hf'. by apply IH.
Qed.
End Runs.

Lemma runs_Now clock f (Q : AbsTime -> TxFetcher -> Prop) :
  (forall t, Q t (set_reads (S (reads f)) f)) -> runs (Now clock) f Q.
Proof. intros H. eexists _, _. split; [reflexivity|]. apply H. Qed.

(** Runs through the parts of a program that are plain reads and writes. *)
Ltac run :=
  cbv beta zeta;
  match goal with
  | |- runs (_ ≫= _) _ _ => apply total_bind; run
  | |- runs (mret _) _ _ => apply total_ret; run
  | |- runs (getS _) _ _ => apply runs_get; run
  | |- runs (putS _) _ _ => apply runs_put; run
  | |- runs (Now _) _ _ => apply runs_Now; intros ?; run
  | _ => idtac
  end.

(** ** The stages of a hash

    The automaton of the comment: how the seven maps and the requests must look
    at one hash.  [slot] and [ann] are the peers under which the hash is listed,
    [live] those that are asked for it and have to answer, [said] those that
    announced it at some time. *)
Inductive stage (said : PeerId -> Prop) :
    option (gset PeerId) -> option AbsTime -> (PeerId -> Prop) -> (PeerId -> Prop) ->
    option (option (gset PeerId)) -> option (option (gset PeerId)) -> option PeerId -> (PeerId -> Prop) -> Prop :=
| Unknown (slot ann live : PeerId -> Prop) :
    (forall p, ~ slot p) -> (forall p, ~ ann p) -> (forall p, ~ live p) ->
    stage said None None slot ann None None None live
| Waiting s t (slot ann live : PeerId -> Prop) :
    s <> ∅ -> (forall p, slot p <-> p ∈ s) -> (forall p, p ∈ s -> said p) ->
    (forall p, ~ ann p) -> (forall p, ~ live p) ->
    stage said (Some s) (Some t) slot ann None None None live
| Queued s (slot ann live : PeerId -> Prop) :
    s <> ∅ -> (forall p, ann p -> p ∈ s /\ said p) -> (forall p, ~ slot p) -> (forall p, ~ live p) ->
    stage said None None slot ann (Some (Some s)) None None live
| Fetching p s (slot ann live : PeerId -> Prop) :
    (forall p', ann p' -> p' ∈ s /\ said p') -> (forall p', live p' <-> p' = p) -> (forall p', ~ slot p') ->
    stage said None None slot ann None (Some (Some s)) (Some p) live.

Lemma stage_ext said wl wt slot ann q alt fe live slot' ann' live' :
  stage said wl wt slot ann q alt fe live ->
  (forall p, slot' p <-> slot p) -> (forall p, ann' p <-> ann p) -> (forall p, live' p <-> live p) ->
  stage said wl wt slot' ann' q alt fe live'.
Proof. intros Hst E1 E2 E3. destruct Hst; constructor; naive_solver. Qed.

Lemma stage_inv said wl wt slot ann q alt fe live :
  stage said wl wt slot ann q alt fe live ->
  (wl = None /\ wt = None /\ q = None /\ alt = None /\ fe = None /\
     (forall p, ~ slot p) /\ (forall p, ~ ann p) /\ (forall p, ~ live p)) \/
  (exists s t, wl = Some s /\ wt = Some t /\ q = None /\ alt = None /\ fe = None /\
     (forall p, slot p <-> p ∈ s) /\ (forall p, ~ ann p) /\ (forall p, ~ live p) /\
     s <> ∅ /\ (forall p, p ∈ s -> said p)) \/
  (exists s, wl = None /\ wt = None /\ q = Some (Some s) /\ alt = None /\ fe = None /\
     (forall p, ~ slot p) /\ (forall p, ann p -> p ∈ s /\ said p) /\ (forall p, ~ live p) /\ s <> ∅) \/
  (exists p s, wl = None /\ wt = None /\ q = None /\ alt = Some (Some s) /\ fe = Some p /\
     (forall p, ~ slot p) /\ (forall p, ann p -> p ∈ s /\ said p) /\ (forall p', live p' <-> p' = p)).
Proof.
  intros []; [left|right; left; eexists _, _|right; right; left; eexists|right; right; right; eexists _, _];
    split_and!; (reflexivity || assumption).
Qed.

(** The stage of a hash, with the lookups it determines. *)
Ltac stage_cases H :=
  apply stage_inv in H as
    [(Ewl & Ewt & Eq & Ealt & Efe & Hsl & Han & Hlv)
    |[(ps & tw & Ewl & Ewt & Eq & Ealt & Efe & Hsl & Han & Hlv & Hs & Hsaid)
    |[(ps & Ewl & Ewt & Eq & Ealt & Efe & Hsl & Han & Hlv & Hs)
    |(po & ps & Ewl & Ewt & Eq & Ealt & Efe & Hsl & Han & Hlv)]]].

(** Being asked for a hash. *)
Definition live (rq : gmap PeerId txRequest) (h : Hash) (p : PeerId) : Prop :=
  exists r, rq !! p = Some r /\ h ∈ rq_hashes r /\ h ∉ stolen r.

Definition request_ok (r : txRequest) : Prop :=
  NoDup (rq_hashes r) /\ (length (rq_hashes r) <= maxTxRetrievals)%nat.

(** The invariant; the lists by peer and the requests are arguments, since loops
    update them before or after the rest. *)
Section Core.
Context (said : PeerId -> Hash -> Prop).

Definition stage_of (sl an : gmap PeerId (gset Hash)) (rq : gmap PeerId txRequest) (f : TxFetcher) (h : Hash) : Prop :=
  stage (fun p => said p h) (waitlist f !! h) (waittime f !! h) (fun p => h ∈ sl !!! p) (fun p => h ∈ an !!! p)
    (announced f !! h) (alternates f !! h) (fetching f !! h) (live rq h).

Definition core (sl an : gmap PeerId (gset Hash)) (rq : gmap PeerId txRequest) (f : TxFetcher) : Prop :=
  (forall h, stage_of sl an rq f h) /\ (forall p r, rq !! p = Some r -> request_ok r).

(** A change that concerns one hash only. *)
Lemma core_at h sl an rq f sl' an' rq' f' :
  core sl an rq f ->
  (forall h', h' <> h -> waitlist f' !! h' = waitlist f !! h' /\ waittime f' !! h' = waittime f !! h' /\
    announced f' !! h' = announced f !! h' /\ alternates f' !! h' = alternates f !! h' /\
    fetching f' !! h' = fetching f !! h' /\
    forall p, (h' ∈ sl' !!! p <-> h' ∈ sl !!! p) /\ (h' ∈ an' !!! p <-> h' ∈ an !!! p) /\
              (live rq' h' p <-> live rq h' p)) ->
  (forall p r, rq' !! p = Some r -> request_ok r) ->
  stage_of sl' an' rq' f' h -> core sl' an' rq' f'.
Proof.
  intros [Hs Hr] Hsame Hr' Hh. split; [|done]. intros h'. destruct (decide (h' = h)) as [->|Hne]; [done|].
  destruct (Hsame h' Hne) as (H1 & H2 & H3 & H4 & H5 & H6). unfold stage_of. rewrite H1, H2, H3, H4, H5.
  apply (stage_ext _ _ _ _ _ _ _ _ _ _ _ _ (Hs h')); intros p; apply H6.
Qed.
End Core.

Definition fetcher_ok (said : PeerId -> Hash -> Prop) (f : TxFetcher) : Prop :=
  core said (waitslots f) (announces f) (requests f) f.

Definition some_pending (f : TxFetcher) : Prop := exists q r, requests f !! q = Some r /\ rq_hashes r <> [].

(** While something waits, or a request is pending, a timer is armed or has
    fired. *)
Definition wait_armed (f : TxFetcher) : Prop :=
  waittime f <> ∅ -> waitTimer f <> None \/ (0 < waitTrigger f)%nat.
Definition timeout_armed (f : TxFetcher) : Prop :=
  requests f <> ∅ -> timeoutTimer f <> None \/ (0 < timeoutTrigger f)%nat.

Lemma live_insert_ne rq p r h p' : p' <> p -> live (<[p := r]> rq) h p' <-> live rq h p'.
Proof. intros Hne. unfold live. by rewrite lookup_insert_ne. Qed.

Lemma live_insert_eq rq p r h : live (<[p := r]> rq) h p <-> h ∈ rq_hashes r /\ h ∉ stolen r.
Proof. unfold live. rewrite lookup_insert_eq. naive_solver. Qed.

(** Membership in updated maps of sets, for one peer. *)
Ltac members :=
  try match goal with |- _ <> ∅ => clear; set_solver end;
  let p := fresh "p" in intros p; intros;
  repeat match goal with H : forall _ : PeerId, _ |- _ => specialize (H p) end;
  repeat first [rewrite elem_add_to in *|rewrite elem_tidy in *|rewrite elem_delete_from in *
               |rewrite elem_delete_everywhere in *|rewrite elem_delete in *];
  rewrite ?elem_of_union, ?elem_of_difference, ?elem_of_singleton in *; intuition (subst; auto).

(** The obligations of [core_at] at the other hashes. *)
Ltac elsewhere :=
  let h' := fresh "h'" in let Hne := fresh "Hne" in
  intros h' Hne; cbn; rewrite ?lookup_insert_ne, ?lookup_delete_ne by done;
  split_and!; [reflexivity..|];
  clear -Hne; let p := fresh "p" in intros p; split_and!; revert p; [members..|].

(** ** Announcements *)

Section Announcements.
Context (said : PeerId -> Hash -> Prop) (clock : nat -> AbsTime).

Lemma notify_hash_ok origin h f :
  fetcher_ok said f -> said origin h -> runs (notify_hash clock origin h) f (fun _ => fetcher_ok said).
Proof.
  intros Hf Hnew. pose proof (proj1 Hf h) as Hst. unfold notify_hash. run. cbn [id]. unfold at_.
  stage_cases Hst; rewrite ?Ealt, ?Eq, ?Ewl; cbn; run.
  all: apply (core_at said h _ _ _ _ _ _ _ _ Hf); [elsewhere; done|apply Hf|].
  all: unfold stage_of; cbn; rewrite ?lookup_insert_eq, ?Ewl, ?Ewt, ?Eq, ?Ealt, ?Efe.
  all: clear Hf; constructor; try done; members.
Qed.
End Announcements.

(** ** Orders of iteration *)

(** Every order visits exactly the elements. *)
Record Fair (o : Orders) : Prop := {
  fair_hashes : forall i s x, x ∈ over_hashes o i s <-> x ∈ s;
  fair_peers : forall i s x, x ∈ over_peers o i s <-> x ∈ s;
  fair_announces : forall p s x, x ∈ over_announces o p s <-> x ∈ s;
}.

Lemma elem_rotate {A} (l : list A) n x : x ∈ rotate l n <-> x ∈ l.
Proof.
  unfold rotate. rewrite list_elem_of_omap. split.
  - intros (i & _ & Hi). by apply (list_elem_of_lookup_2 _ _ _ Hi).
  - intros [j Hj]%list_elem_of_lookup_1. pose proof (lookup_lt_Some _ _ _ Hj) as Hlt.
    set (len := length l) in *. pose proof (Nat.mod_upper_bound n len ltac:(lia)).
    exists ((j + (len - n mod len)) mod len)%nat. split.
    + rewrite elem_of_seq. pose proof (Nat.mod_upper_bound (j + (len - n mod len)) len ltac:(lia)). lia.
    + rewrite Nat.Div0.add_mod_idemp_l. rewrite <- Hj. f_equal.
      rewrite <- Nat.Div0.add_mod_idemp_r. replace (j + (len - n mod len) + n mod len)%nat with (j + 1 * len)%nat by lia.
      rewrite Nat.Div0.mod_add. by apply Nat.mod_small.
Qed.

Lemma sort_head_perm l : forall x, (sort_head x l).1 :: (sort_head x l).2 ≡ₚ x :: l.
Proof.
  induction l as [|y l IH]; intros x; cbn; [done|]. destruct (bytes_le x y).
  - specialize (IH x). destruct (sort_head x l) as [m r]. cbn in *. by rewrite Permutation_swap, IH, Permutation_swap.
  - specialize (IH y). destruct (sort_head y l) as [m r]. cbn in *. by rewrite Permutation_swap, IH.
Qed.

Lemma sort_hashes_perm fuel : forall l, sort_hashes fuel l ≡ₚ l.
Proof.
  induction fuel as [|fuel IH]; intros [|x l]; cbn; try done. pose proof (sort_head_perm l x) as H.
  destruct (sort_head x l) as [m r]. cbn in *. by rewrite IH.
Qed.

Lemma elem_forEachPeer o s p : Fair o -> p ∈ forEachPeer o s <-> p ∈ s.
Proof.
  intros Ho. unfold forEachPeer. destruct (rand o); [|by apply fair_peers].
  by rewrite elem_rotate, merge_sort_Permutation, fair_peers.
Qed.

Lemma elem_forEachHash o p s h : Fair o -> h ∈ forEachHash o p s <-> h ∈ s.
Proof.
  intros Ho. unfold forEachHash. destruct (rand o); [|by apply fair_announces].
  unfold sortHashes. by rewrite elem_rotate, sort_hashes_perm, fair_announces.
Qed.

(** ** Scheduling *)

Section Scheduling.
Context (said : PeerId -> Hash -> Prop) (clock : nat -> AbsTime).

Lemma rescheduleWait_runs o f :
  runs (rescheduleWait clock o) f (fun _ f' => exists d n, f' = set_waitTimer (Some d) (set_reads n f)).
Proof. unfold rescheduleWait. run. by eexists _, _. Qed.

Lemma rescheduleTimeout_runs o f :
  runs (rescheduleTimeout clock o) f (fun _ f' => exists d n, f' = set_timeoutTimer (Some d) (set_reads n f)).
Proof. unfold rescheduleTimeout. run. by eexists _, _. Qed.

Definition request (hs : list Hash) (st : gset Hash) (t : AbsTime) : txRequest :=
  {| rq_hashes := hs; stolen := st; rq_time := t |}.

(** Taking a hash that a peer announced and nobody is asked for. *)
Lemma core_acquire sl an rq f p h hs t :
  core said sl an (<[p := request hs ∅ t]> rq) f -> h ∈ an !!! p -> fetching f !! h = None ->
  (length hs < maxTxRetrievals)%nat ->
  alternates f !! h = None /\ said p h /\ h ∉ hs /\
  core said sl an (<[p := request (hs ++ [h]) ∅ t]> rq)
    (set_announced (delete h (announced f)) (set_alternates (<[h := at_ (announced f) h]> (alternates f))
      (set_fetching (<[h := p]> (fetching f)) f))).
Proof.
  intros Hc Hh Hfe Hlen. pose proof (proj1 Hc h) as Hst. unfold stage_of in Hst.
  stage_cases Hst; try congruence; try by destruct (Han p).
  assert (h ∉ hs) as Hnew.
  { intros Hin. apply (Hlv p), live_insert_eq. cbn. set_solver. }
  split; [done|]. split; [by apply Han|]. split; [done|]. apply (core_at said h _ _ _ _ _ _ _ _ Hc).
  - elsewhere. intros p'. destruct (decide (p' = p)) as [->|].
    + rewrite !live_insert_eq. cbn. rewrite elem_of_app, list_elem_of_singleton. naive_solver.
    + by rewrite !live_insert_ne.
  - intros p' r [[<- <-]|[Hne Hr]]%lookup_insert_Some.
    + destruct (proj2 Hc p (request hs ∅ t)) as [Hnd _]; [apply lookup_insert_eq|]. split; cbn in *.
      * apply NoDup_app. split_and!; [done| |apply NoDup_singleton]. intros x Hx ->%list_elem_of_singleton. done.
      * rewrite length_app. cbn. lia.
    + apply (proj2 Hc p'). by rewrite lookup_insert_ne.
  - unfold stage_of, at_. cbn. rewrite lookup_delete_eq, !lookup_insert_eq, Ewl, Ewt, Eq. cbn.
    constructor; [done| |done]. intros p'. destruct (decide (p' = p)) as [->|Hne].
    + rewrite live_insert_eq. cbn. rewrite elem_of_app, list_elem_of_singleton. set_solver.
    + rewrite live_insert_ne by done. split; [|done]. intros Hl. destruct (Hlv p'). by rewrite live_insert_ne.
Qed.

Lemma allocate_ok peer cands : forall hashes t f,
  core said (waitslots f) (announces f) (<[peer := request hashes ∅ t]> (requests f)) f ->
  (forall h, h ∈ cands -> h ∈ announces f !!! peer) -> (length hashes < maxTxRetrievals)%nat ->
  runs (allocate peer cands hashes) f (fun hs f' =>
    (exists a b c, f' = set_announced a (set_alternates b (set_fetching c f))) /\ fetching f ⊆ fetching f' /\
    core said (waitslots f') (announces f') (<[peer := request hs ∅ t]> (requests f')) f' /\
    (hs = [] -> forall h, h ∈ cands -> is_Some (fetching f' !! h)) /\
    (forall h, h ∉ cands -> announced f' !! h = announced f !! h /\ alternates f' !! h = alternates f !! h /\
                            fetching f' !! h = fetching f !! h) /\
    forall h, h ∈ hs -> h ∈ hashes \/ said peer h).
Proof.
  induction cands as [|h cands IH]; intros hashes t f Hc Hann Hlen; cbn [allocate].
  { run. split_and!; [destruct f; eexists _, _, _; reflexivity|done|done|set_solver|done|auto]. }
  assert (forall k, k ∈ cands -> k ∈ announces f !!! peer) as Hann' by (intros k Hk; apply Hann; by right).
  assert (h ∈ announces f !!! peer) as Hh by (apply Hann; by left). clear Hann.
  run. case_bool_decide as Hbusy.
  - apply (runs_weaken _ _ _ _ (IH hashes t f Hc Hann' Hlen)).
    intros hs f' (Hx & Hfe & Hc' & Hcov & Helse & Hs). split_and!; try done.
    + intros E h' [-> |Hin]%elem_of_cons; [|by apply Hcov]. destruct Hbusy as [p Hp].
      exists p. by apply (lookup_weaken (fetching f)).
    + intros h' [_ Hh']%not_elem_of_cons. by apply Helse.
  - apply eq_None_not_Some in Hbusy.
    destruct (core_acquire _ _ _ _ peer h hashes t Hc Hh Hbusy Hlen) as (Halt & Hsaid & Hnew & Hc').
    run. cbn [alternates set_fetching]. rewrite Halt. apply runs_pure; [by apply bool_decide_eq_false|]. run.
    set (f1 := set_announced _ _). change (core said (waitslots f1) (announces f1)
      (<[peer:=request (hashes ++ [h]) ∅ t]> (requests f1)) f1) in Hc'.
    assert (fetching f ⊆ fetching f1) as Hf1 by (apply insert_subseteq; exact Hbusy).
    assert (forall h', h' ∉ h :: cands -> announced f1 !! h' = announced f !! h' /\ alternates f1 !! h' = alternates f !! h' /\
      fetching f1 !! h' = fetching f !! h') as Hf1'.
    { intros h' [Hne _]%not_elem_of_cons. cbn. by rewrite lookup_delete_ne, !lookup_insert_ne. }
    destruct (Nat.leb_spec maxTxRetrievals (length (hashes ++ [h]))) as [_|Hlen'].
    + run. split_and!; [eexists _, _, _; reflexivity|done|done|by destruct hashes|done|].
      intros h' [H| ->%list_elem_of_singleton]%elem_of_app; auto.
    + apply (runs_weaken _ _ _ _ (IH (hashes ++ [h]) t f1 Hc' Hann' Hlen')).
      intros hs f' ((a & b & c & ->) & Hfe & Hc2 & Hcov & Helse & Hs).
      split_and!; [eexists _, _, _; reflexivity|by etrans|done| | |].
      * intros -> h' [-> |Hin]%elem_of_cons; [|by apply Hcov]. exists peer.
        apply (lookup_weaken _ _ _ _ (lookup_insert_eq (fetching f) h peer)). exact Hfe.
      * intros h' Hh'. destruct (Hf1' h' Hh') as (<- & <- & <-). apply Helse. by apply not_elem_of_cons in Hh' as [_ ?].
      * intros h' Hh'. destruct (Hs h' Hh') as [[?| ->%list_elem_of_singleton]%elem_of_app|]; auto.
Qed.

(** What scheduling does: new requests, each for hashes their peer announced. *)
Definition asked (new : list (PeerId * list Hash)) : Prop :=
  forall p hs, (p, hs) ∈ new ->
    hs <> [] /\ NoDup hs /\ (length hs <= maxTxRetrievals)%nat /\ forall h, h ∈ hs -> said p h.

Record extends (f f' : TxFetcher) : Prop := {
  ext_waiting : (waitlist f', waittime f', waitslots f') = (waitlist f, waittime f, waitslots f);
  ext_announces : announces f' = announces f;
  ext_timers : (waitTimer f', waitTrigger f', timeoutTrigger f') = (waitTimer f, waitTrigger f, timeoutTrigger f);
  ext_timeout : timeoutTimer f <> None -> timeoutTimer f' <> None;
  ext_fetching : fetching f ⊆ fetching f';
  ext_requests : requests f ⊆ requests f';
  ext_else : forall h, (forall p, h ∉ announces f !!! p) ->
    announced f' !! h = announced f !! h /\ alternates f' !! h = alternates f !! h /\ fetching f' !! h = fetching f !! h;
  ext_live : forall p r, requests f' !! p = Some r -> requests f !! p = Some r \/ rq_hashes r <> [];
  ext_sent : exists new, sent f' = sent f ++ new /\ asked new;
}.

Lemma extends_refl f : extends f f.
Proof.
  split; try done; [auto|]. exists []. rewrite app_nil_r. split; [done|].
  by intros p hs ?%elem_of_nil.
Qed.

Lemma extends_trans f1 f2 f3 : extends f1 f2 -> extends f2 f3 -> extends f1 f3.
Proof.
  intros [W1 A1 T1 O1 F1 R1 X1 L1 (n1 & Hn1 & Hs1)] [W2 A2 T2 O2 F2 R2 X2 L2 (n2 & Hn2 & Hs2)].
  split; [congruence..|auto|by etrans|by etrans| | |].
  - intros h Hh. destruct (X1 h Hh) as (? & ? & ?). destruct (X2 h) as (? & ? & ?); [by rewrite A1|].
    split_and!; congruence.
  - intros p r [Hr|Hr]%L2; auto.
  - exists (n1 ++ n2). split; [by rewrite Hn2, Hn1, app_assoc|]. intros p hs [?|?]%elem_of_app; auto.
Qed.

(** A request of which nothing is left does not count. *)
Lemma core_no_request sl an rq f p st t :
  core said sl an (<[p := request [] st t]> rq) f -> rq !! p = None -> core said sl an rq f.
Proof.
  intros [Hs Hr] Hp. split.
  - intros h. apply (stage_ext _ _ _ _ _ _ _ _ _ _ _ _ (Hs h)); [done|done|]. intros p'.
    destruct (decide (p' = p)) as [->|]; [|by rewrite live_insert_ne]. rewrite live_insert_eq. cbn.
    split; [|by intros [?%elem_of_nil _]]. intros (r & Hr' & _). congruence.
  - intros p' r Hr'. apply (Hr p'). rewrite lookup_insert_ne; [done|congruence].
Qed.

Lemma core_new_request sl an rq f p st t :
  core said sl an rq f -> rq !! p = None -> core said sl an (<[p := request [] st t]> rq) f.
Proof.
  intros [Hs Hr] Hp. split.
  - intros h. apply (stage_ext _ _ _ _ _ _ _ _ _ _ _ _ (Hs h)); [done|done|]. intros p'.
    destruct (decide (p' = p)) as [->|]; [|by rewrite live_insert_ne]. rewrite live_insert_eq. cbn.
    split; [by intros [?%elem_of_nil _]|]. intros (r & Hr' & _). congruence.
  - intros p' r [[<- <-]|[Hne Hr']]%lookup_insert_Some; [split; cbn; [constructor|unfold maxTxRetrievals; lia]|by apply (Hr p')].
Qed.

(** The time of a request does not matter. *)
Lemma core_retime sl an rq f p hs st t t' :
  core said sl an (<[p := request hs st t]> rq) f -> core said sl an (<[p := request hs st t']> rq) f.
Proof.
  intros [Hs Hr]. split.
  - intros h. apply (stage_ext _ _ _ _ _ _ _ _ _ _ _ _ (Hs h)); [done|done|]. intros p'.
    destruct (decide (p' = p)) as [->|]; [by rewrite !live_insert_eq|by rewrite !live_insert_ne].
  - intros p' r [[<- <-]|[Hne Hr']]%lookup_insert_Some.
    + apply (Hr p (request hs st t)). apply lookup_insert_eq.
    + apply (Hr p'). by rewrite lookup_insert_ne.
Qed.

(** A peer without a request is asked, or has nothing that others are not asked
    for. *)
Definition served (p : PeerId) (f : TxFetcher) : Prop :=
  is_Some (requests f !! p) \/ forall h, h ∈ announces f !!! p -> is_Some (fetching f !! h).

Lemma served_extends p f f' : extends f f' -> served p f -> served p f'.
Proof.
  intros He [[r Hr]|H]; [left; exists r; by apply (lookup_weaken _ _ _ _ Hr), He|right].
  rewrite (ext_announces _ _ He). intros h [q Hq]%H. exists q. by apply (lookup_weaken _ _ _ _ Hq), He.
Qed.

Lemma schedule_peer_ok o p f :
  Fair o -> fetcher_ok said f ->
  runs (schedule_peer clock o p) f (fun _ f' => fetcher_ok said f' /\ extends f f' /\ served p f').
Proof.
  intros Ho Hf. unfold schedule_peer. run. case_bool_decide as Hp; cbn.
  { run. split; [done|]. split; [apply extends_refl|by left]. }
  apply eq_None_not_Some in Hp. run. rewrite <- total_default. case_bool_decide as Hm.
  { run. split; [done|]. split; [apply extends_refl|right]. rewrite Hm. set_solver. }
  run. apply (runs_weaken _ _ _ _ (allocate_ok p _ [] 0 f
    (core_new_request _ _ _ _ p ∅ 0 Hf Hp) ltac:(intros h; apply elem_forEachHash, Ho)
    ltac:(unfold maxTxRetrievals; cbn; lia))).
  intros hs f' ((a & b & c & ->) & Hfe & Hc & Hcov & Helse & Hs). run.
  assert (forall h, (forall p, h ∉ announces f !!! p) -> a !! h = announced f !! h /\ b !! h = alternates f !! h /\
    c !! h = fetching f !! h) as Helse'.
  { intros h Hh. apply Helse. by rewrite elem_forEachHash. }
  case_bool_decide as Hhs.
  - subst hs. run. split; [by apply (core_no_request _ _ _ _ p ∅ 0 Hc)|].
    split; [split; try done; [auto|]; exists []; rewrite app_nil_r; split; [done|by intros ? ? ?%elem_of_nil]|].
    right. intros h Hh. apply (Hcov eq_refl), elem_forEachHash; done.
  - run. split; [by apply (core_retime _ _ _ _ _ _ _ 0)|]. split; [|left; cbn; rewrite lookup_insert_eq; by eexists].
    split; try done; cbn.
    + by apply insert_subseteq.
    + intros p' r [[<- <-]|[_ Hr]]%lookup_insert_Some; auto.
    + eexists. split; [done|]. intros p' hs' [= -> ->]%list_elem_of_singleton. split; [done|].
      destruct (proj2 Hc p (request hs ∅ 0)) as [Hnd Hlen]; [apply lookup_insert_eq|]. split; [done|]. split; [done|].
      intros h [?%elem_of_nil|]%Hs; done.
Qed.

Lemma extends_timeout d n f : extends f (set_timeoutTimer (Some d) (set_reads n f)).
Proof. destruct (extends_refl f). by split. Qed.

Lemma scheduleFetches_ok o whitelist f :
  Fair o -> fetcher_ok said f ->
  runs (scheduleFetches clock o whitelist) f (fun _ f' => fetcher_ok said f' /\ extends f f' /\
    (forall p, p ∈ default (dom (announces f)) whitelist -> served p f') /\
    (requests f = ∅ -> requests f' <> ∅ -> timeoutTimer f' <> None)).
Proof.
  intros Ho Hf. unfold scheduleFetches. run. set (actives := default _ _). case_bool_decide as Ha.
  { run. split; [done|]. split; [apply extends_refl|]. split; [rewrite Ha; set_solver|done]. }
  run. eapply runs_weaken.
  { apply (runs_each (fun l f' => fetcher_ok said f' /\ extends f f' /\ forall p, p ∈ actives -> p ∈ l \/ served p f')).
    - split; [done|]. split; [apply extends_refl|]. intros p Hp. left. by apply elem_forEachPeer.
    - intros p l f' (Hf' & He & Hl). apply (runs_weaken _ _ _ _ (schedule_peer_ok o p f' Ho Hf')).
      intros _ f'' (Hf'' & He' & Hp). split; [done|]. split; [by apply (extends_trans _ f')|].
      intros p' [[-> |?]%elem_of_cons|Hs]%Hl; auto. right. by apply (served_extends _ f'). }
  intros _ f' (Hf' & He & Hl). run.
  assert (forall p, p ∈ actives -> served p f') as Hs by (intros p [?%elem_of_nil|]%Hl; done).
  do 2 case_bool_decide; cbn.
  - apply (runs_weaken _ _ _ _ (rescheduleTimeout_runs o f')). intros _ ? (d & n & ->).
    split; [exact Hf'|]. split; [exact (extends_trans _ _ _ He (extends_timeout d n f'))|]. by split.
  - run. split; [done|]. split; [done|]. by split.
  - run. split; [done|]. split; [done|]. by split.
  - run. split; [done|]. split; [done|]. by split.
Qed.
End Scheduling.

(** ** The end of the wait *)

Section Waits.
Context (said : PeerId -> Hash -> Prop) (clock : nat -> AbsTime).

Lemma core_queue_wait sl an rq f h ws tm :
  core said sl an rq f -> waitlist f !! h = Some ws -> waittime f !! h = Some tm ->
  announced f !! h = None /\
  core said (foldr (fun p m => tidy p (delete_from p h m)) sl (elements ws))
            (foldr (fun p m => add_to p h m) an (elements ws)) rq
    (set_waitlist (delete h (waitlist f)) (set_waittime (delete h (waittime f))
      (set_announced (<[h := Some ws]> (announced f)) f))).
Proof.
  intros Hc E1 E2. pose proof (proj1 Hc h) as Hst. unfold stage_of in Hst. stage_cases Hst; try congruence.
  simplify_eq. split; [done|]. apply (core_at said h _ _ _ _ _ _ _ _ Hc).
  - intros h' Hne. cbn. rewrite lookup_insert_ne, !lookup_delete_ne by done. split_and!; try done.
    intros p. rewrite elem_foldr_delete, elem_foldr_add. clear -Hne. naive_solver.
  - apply Hc.
  - unfold stage_of. cbn. rewrite !lookup_delete_eq, lookup_insert_eq, Ealt, Efe. constructor; [done|..].
    + intros p. rewrite elem_foldr_add, elem_of_elements. intros [[Hp _]|?%Han]; [|done]. auto.
    + intros p. rewrite elem_foldr_delete, elem_of_elements, Hsl. tauto.
    + exact Hlv.
Qed.

(** What the handlers leave alone until they schedule. *)
Definition quiet (f f' : TxFetcher) : Prop :=
  (waitTimer f', timeoutTimer f', waitTrigger f', timeoutTrigger f') =
  (waitTimer f, timeoutTimer f, waitTrigger f, timeoutTrigger f) /\ sent f' = sent f.

Lemma expire_wait_ok actives h f :
  fetcher_ok said f -> proper (announces f) ->
  runs (expire_wait clock actives h) f (fun actives' f' => fetcher_ok said f' /\ proper (announces f') /\
    quiet f f' /\ requests f' = requests f /\ actives ⊆ actives' /\
    forall p, p ∉ actives' -> announces f' !!! p = announces f !!! p).
Proof.
  intros Hf Hpr. unfold expire_wait. run. destruct (waittime f !! h) as [tm|] eqn:Et; run; [|split_and!; [exact Hf|exact Hpr|by split|done..]].
  destruct (Z.ltb_spec txArriveTimeout (t - tm + txGatherSlack)) as [_|_]; run; [|split_and!; [exact Hf|exact Hpr|by split|done..]]. cbn [id].
  pose proof (proj1 Hf h) as Hst. unfold stage_of in Hst. stage_cases Hst; try congruence.
  destruct (core_queue_wait _ _ _ _ h ps tw Hf Ewl Ewt) as [_ Hc].
  apply runs_pure; [apply bool_decide_eq_false; unfold at_; cbn; rewrite Eq; by intros []|]. run. cbn. rewrite Ewl. cbn.
  split_and!; [exact Hc|by apply foldr_add_proper|by split|done|set_solver|].
  intros p Hp. apply set_eq. intros y. rewrite elem_foldr_add, elem_of_elements. set_solver.
Qed.
End Waits.

(** ** Hashes of a request

    Three loops go through the hashes of a request that ends: after a timeout,
    a delivery and a disconnect.  [rq] below is without the request, of which
    [h :: hs] is left. *)

Section Release.
Context (said : PeerId -> Hash -> Prop).

(** A hash that was delivered by someone else has nothing left to release. *)
Lemma core_skip sl an rq f p h hs st t :
  core said sl an (<[p := request (h :: hs) st t]> rq) f -> h ∈ st -> core said sl an (<[p := request hs st t]> rq) f.
Proof.
  intros [Hs Hr] Hst. split.
  - intros h'. apply (stage_ext _ _ _ _ _ _ _ _ _ _ _ _ (Hs h')); [done|done|]. intros p'.
    destruct (decide (p' = p)) as [->|]; [|by rewrite !live_insert_ne].
    rewrite !live_insert_eq. cbn. rewrite elem_of_cons. naive_solver.
  - intros p' r [[<- <-]|[Hne Hr']]%lookup_insert_Some.
    + destruct (Hr p (request (h :: hs) st t)) as [[_ Hnd]%NoDup_cons Hlen]; [apply lookup_insert_eq|].
      split; cbn in *; [done|lia].
    + apply (Hr p'). by rewrite lookup_insert_ne.
Qed.

Lemma core_requested sl an rq f p h hs st t :
  core said sl an (<[p := request (h :: hs) st t]> rq) f -> h ∉ st ->
  exists s, fetching f !! h = Some p /\ alternates f !! h = Some (Some s) /\ announced f !! h = None /\
    forall p', h ∈ an !!! p' -> p' ∈ s /\ said p' h.
Proof.
  intros Hc Hst. pose proof (proj1 Hc h) as Hh. unfold stage_of in Hh.
  assert (live (<[p := request (h :: hs) st t]> rq) h p) as Hl.
  { apply live_insert_eq. split; [by left|done]. }
  stage_cases Hh; try by destruct (Hlv p). apply Hlv in Hl as <-. by exists ps.
Qed.

(** The hash goes back to the queue for the peers [s'], or is given up. *)
Lemma core_release sl an rq f p h hs st t an' f' s' :
  core said sl an (<[p := request (h :: hs) st t]> rq) f -> h ∉ st ->
  (forall k, waitlist f' !! k = waitlist f !! k /\ waittime f' !! k = waittime f !! k) ->
  (forall k, k <> h -> announced f' !! k = announced f !! k /\ alternates f' !! k = alternates f !! k /\
                       fetching f' !! k = fetching f !! k) ->
  announced f' !! h = (if bool_decide (s' = ∅) then None else Some (Some s')) ->
  alternates f' !! h = None -> fetching f' !! h = None ->
  (forall p' k, k <> h -> k ∈ an' !!! p' <-> k ∈ an !!! p') ->
  (forall p', h ∈ an' !!! p' -> p' ∈ s' /\ h ∈ an !!! p') ->
  core said sl an' (<[p := request hs st t]> rq) f'.
Proof.
  intros Hc Hst Hw Hk Hq Ha Hfe Han' Hs'. destruct (core_requested _ _ _ _ _ _ _ _ _ Hc Hst) as (s & E1 & E2 & E3 & E4).
  destruct (proj2 Hc p (request (h :: hs) st t)) as [[Hnew Hnd]%NoDup_cons Hlen]; [apply lookup_insert_eq|].
  pose proof (proj1 Hc h) as Hh. unfold stage_of in Hh. stage_cases Hh; try congruence.
  assert (forall p', ~ live (<[p := request hs st t]> rq) h p') as Hno.
  { intros p'. destruct (decide (p' = p)) as [->|Hne]; [by rewrite live_insert_eq; intros []|].
    rewrite live_insert_ne by done. intros Hl. rewrite <- (live_insert_ne _ p (request (h :: hs) st t)) in Hl by done.
    apply Hlv in Hl. congruence. }
  apply (core_at said h _ _ _ _ _ _ _ _ Hc).
  - intros k Hne. destruct (Hw k), (Hk k Hne) as (? & ? & ?). split_and!; try done. intros p'. split; [done|]. split; [auto|].
    destruct (decide (p' = p)) as [->|]; [|by rewrite !live_insert_ne].
    rewrite !live_insert_eq. cbn. rewrite elem_of_cons. naive_solver.
  - intros p' r [[<- <-]|[Hne Hr']]%lookup_insert_Some; [split; cbn in *; [done|lia]|].
    apply (proj2 Hc p'). by rewrite lookup_insert_ne.
  - unfold stage_of. rewrite (proj1 (Hw h)), (proj2 (Hw h)), Ewl, Ewt, Hq, Ha, Hfe. case_bool_decide as Es.
    + constructor; [done| |done]. intros p' [Hin _]%Hs'. rewrite Es in Hin. by apply not_elem_of_empty in Hin.
    + constructor; [done| |done|done]. intros p' [Hin Hin']%Hs'. split; [done|]. by apply Han.
Qed.

Lemma core_ext sl an rq f an' :
  core said sl an rq f -> (forall p h, h ∈ an' !!! p <-> h ∈ an !!! p) -> core said sl an' rq f.
Proof.
  intros [Hs Hr] H. split; [|done]. intros h. by apply (stage_ext _ _ _ _ _ _ _ _ _ _ _ _ (Hs h)).
Qed.

Lemma core_ext_slots sl an rq f sl' :
  core said sl an rq f -> (forall p h, h ∈ sl' !!! p <-> h ∈ sl !!! p) -> core said sl' an rq f.
Proof.
  intros [Hs Hr] H. split; [|done]. intros h. by apply (stage_ext _ _ _ _ _ _ _ _ _ _ _ _ (Hs h)).
Qed.

(** What is announced may be forgotten. *)
Lemma core_less sl an rq f an' :
  core said sl an rq f -> (forall p h, h ∈ an' !!! p -> h ∈ an !!! p) -> core said sl an' rq f.
Proof.
  intros [Hs Hr] H. split; [|done]. intros h. specialize (Hs h). unfold stage_of in *.
  stage_cases Hs; rewrite Ewl, Ewt, Eq, Ealt, Efe; constructor; naive_solver.
Qed.
End Release.

(** ** Timeouts *)

(** Nothing but the stages and the lists by peer changes. *)
Definition still (f f' : TxFetcher) : Prop :=
  (waitlist f', waittime f', waitslots f', requests f') = (waitlist f, waittime f, waitslots f, requests f) /\ quiet f f'.

Lemma still_refl f : still f f.
Proof. by split. Qed.

Lemma still_trans f1 f2 f3 : still f1 f2 -> still f2 f3 -> still f1 f3.
Proof. intros (? & ? & ?) (? & ? & ?). split; [congruence|]. split; congruence. Qed.

Section Timeouts.
Context (said : PeerId -> Hash -> Prop) (clock : nat -> AbsTime).

Lemma tidy_delete_at (h k : Hash) (p : PeerId) (s : gset PeerId) (q : gmap Hash (option (gset PeerId))) :
  tidy_at h (delete_at h p (<[h := Some s]> q)) !! k =
  if decide (k = h) then (if bool_decide (s ∖ {[p]} = ∅) then None else Some (Some (s ∖ {[p]}))) else q !! k.
Proof.
  unfold delete_at, at_. rewrite lookup_insert_eq. cbn. rewrite insert_insert_eq. unfold tidy_at, at_.
  rewrite lookup_insert_eq. cbn. destruct (decide (k = h)) as [->|Hne]; case_bool_decide.
  - apply lookup_delete_eq.
  - apply lookup_insert_eq.
  - by rewrite lookup_delete_ne, lookup_insert_ne.
  - by rewrite lookup_insert_ne.
Qed.

(** The part of the request of [p] that is left. *)
Definition left_of (p : PeerId) (req : txRequest) (l : list Hash) (f : TxFetcher) : Prop :=
  core said (waitslots f) (announces f) (<[p := request l (stolen req) (rq_time req)]> (requests f)) f.

Lemma expire_hash_ok p req h l f :
  left_of p req (h :: l) f -> proper_but p (announces f) ->
  runs (expire_hash p req h) f (fun _ f' => left_of p req l f' /\ proper_but p (announces f') /\ still f f').
Proof.
  intros Hc Hpr. unfold expire_hash. case_bool_decide as Hst.
  { run. split; [by apply (core_skip said _ _ _ _ _ h)|]. split; [done|apply still_refl]. }
  destruct (core_requested said _ _ _ _ _ _ _ _ _ Hc Hst) as (s & E1 & E2 & E3 & E4). run. cbn [id].
  apply runs_pure; [apply bool_decide_eq_false; rewrite E3; by intros [? ?]|]. unfold at_. rewrite E2. cbn [mjoin option_join].
  rewrite bool_decide_eq_true_2 by done. run. cbn. split; [|split; [by apply proper_but_delete_from|by split]].
  apply (core_release said _ _ _ _ _ h _ _ _ _ _ (s ∖ {[p]}) Hc Hst); cbn.
  - done.
  - intros k Hne. rewrite tidy_delete_at, !lookup_delete_ne by done. by rewrite decide_False.
  - by rewrite tidy_delete_at, decide_True.
  - apply lookup_delete_eq.
  - apply lookup_delete_eq.
  - intros p' k Hne. rewrite elem_delete_from. naive_solver.
  - intros p'. rewrite elem_delete_from. intros [Hne Hin]. split; [|done]. apply E4 in Hin as [Hin _]. set_solver.
Qed.

Lemma expire_request_ok p f :
  fetcher_ok said f -> proper (announces f) -> runs (expire_request clock p) f (fun _ f' =>
    fetcher_ok said f' /\ proper (announces f') /\ quiet f f' /\
    (waittime f', dom (requests f')) = (waittime f, dom (requests f))).
Proof.
  intros Hf Hpr. unfold expire_request. run. destruct (requests f !! p) as [req|] eqn:Er; [|run; by split_and!].
  run. destruct (Z.ltb_spec txFetchTimeout (t - rq_time req + txGatherSlack)) as [_|_];
    [|run; split_and!; [exact Hf|exact Hpr|by split|done]].
  set (f0 := set_reads _ f). run. eapply runs_weaken.
  { apply (runs_each (fun l f' => left_of p req l f' /\ proper_but p (announces f') /\ still f0 f')).
    - split; [|split; [|apply still_refl]].
      + unfold left_of. cbn. rewrite insert_id; [exact Hf|]. rewrite Er. by destruct req.
      + intros k s _. apply Hpr.
    - intros h l f' (H1 & H2 & H3). apply (runs_weaken _ _ _ _ (expire_hash_ok p req h l f' H1 H2)).
      intros _ f'' (G1 & G2 & G3). split; [done|]. split; [done|]. by apply (still_trans _ f'). }
  intros _ f' (H1 & H2 & [[= W1 W2 W3 W4] H3]). run. cbn. split_and!.
  - unfold fetcher_ok. cbn. apply (core_ext said _ _ _ _ _ H1). intros. apply elem_tidy.
  - by apply proper_but_tidy.
  - exact H3.
  - rewrite W2, W4, dom_insert_lookup_L; [done|]. by exists req.
Qed.
End Timeouts.

(** ** Disconnected peers *)

Section Drops.
Context (said : PeerId -> Hash -> Prop) (clock : nat -> AbsTime).

Lemma elem_insert_slots (sl : gmap PeerId (gset Hash)) p s p' h :
  h ∈ <[p := s]> sl !!! p' <-> (p' = p /\ h ∈ s) \/ (p' <> p /\ h ∈ sl !!! p').
Proof.
  clear said clock. rewrite !total_default. destruct (decide (p' = p)) as [->|].
  - rewrite lookup_insert_eq. cbn. naive_solver.
  - rewrite lookup_insert_ne by done. naive_solver.
Qed.

(** [l]: the slots of the peer that are left. *)
Definition slots_left (p : PeerId) (l : list Hash) (f : TxFetcher) : Prop :=
  core said (<[p := list_to_set l]> (waitslots f)) (announces f) (requests f) f.

Lemma drop_wait_hash_ok p h l f :
  slots_left p (h :: l) f -> h ∉ l -> runs (drop_wait_hash p h) f (fun _ f' => slots_left p l f' /\ quiet f f' /\
    (waitslots f', announces f', requests f') = (waitslots f, announces f, requests f)).
Proof.
  intros Hc Hl. pose proof (proj1 Hc h) as Hst. unfold stage_of in Hst. unfold drop_wait_hash. run. cbn.
  assert (h ∈ <[p:=list_to_set (h :: l)]> (waitslots f) !!! p) as Hin by (apply elem_insert_slots; set_solver).
  stage_cases Hst; try by destruct (Hsl p). rewrite <- total_default, delete_from_total, decide_True by done.
  rewrite (total_default (waitlist f)), Ewl. cbn. unfold delete_from. rewrite Ewl.
  assert (forall k p', k <> h -> k ∈ <[p:=list_to_set l]> (waitslots f) !!! p' <->
    k ∈ <[p:=list_to_set (h :: l)]> (waitslots f) !!! p') as Hother.
  { intros k p' Hne. rewrite !elem_insert_slots. clear -Hne. set_solver. }
  assert (forall p', h ∈ <[p:=list_to_set l]> (waitslots f) !!! p' <-> p' ∈ ps ∖ {[p]}) as Hnew.
  { intros p'. specialize (Hsl p'). rewrite elem_insert_slots in Hsl |- *. rewrite elem_of_list_to_set in Hsl |- *.
    rewrite elem_of_difference, elem_of_singleton. clear -Hsl Hl. destruct (decide (p' = p)); naive_solver. }
  case_bool_decide as He; run; (split; [|by split]); apply (core_at said h _ _ _ _ _ _ _ _ Hc).
  - intros k Hne. cbn. rewrite !lookup_delete_ne, lookup_insert_ne by done. split_and!; try done. auto.
  - apply Hc.
  - unfold stage_of. cbn. rewrite !lookup_delete_eq, Eq, Ealt, Efe. constructor; [|done|done].
    intros p' Hp'%Hnew. set_solver.
  - intros k Hne. cbn. rewrite lookup_insert_ne by done. split_and!; try done. auto.
  - apply Hc.
  - unfold stage_of. cbn. rewrite lookup_insert_eq, Ewt, Eq, Ealt, Efe.
    constructor; [done|done| |done|done]. intros p' [? _]%elem_of_difference. auto.
Qed.

Lemma no_waits f : fetcher_ok said f -> waitlist f = ∅ -> waittime f = ∅.
Proof.
  intros [Hs _] E. apply map_eq. intros h. specialize (Hs h). unfold stage_of in Hs. rewrite E, lookup_empty in Hs.
  rewrite lookup_empty. by stage_cases Hs.
Qed.

Lemma drop_waits_ok o p f :
  fetcher_ok said f -> wait_armed f -> runs (drop_waits clock o p) f (fun _ f' => fetcher_ok said f' /\ wait_armed f' /\
    (announces f', requests f', timeoutTimer f', timeoutTrigger f', sent f') =
    (announces f, requests f, timeoutTimer f, timeoutTrigger f, sent f)).
Proof.
  intros Hf Hw. unfold drop_waits. run. cbn [id]. destruct (waitslots f !! p) as [hashes|] eqn:E; [|run; by split_and!].
  run. eapply runs_weaken.
  { apply (runs_each (fun l f' => slots_left p l f' /\ NoDup l /\ quiet f f' /\
      (waitslots f', announces f', requests f') = (waitslots f, announces f, requests f))).
    - split_and!; [|apply NoDup_elements|done|done]. apply (core_ext_slots said _ _ _ _ _ Hf). intros p' h.
      rewrite elem_insert_slots, elem_of_list_to_set, elem_of_elements. destruct (decide (p' = p)) as [->|]; [|naive_solver].
      rewrite total_default, E. naive_solver.
    - intros h l f' (H1 & [H2 H2']%NoDup_cons & [H3 H3'] & H4).
      apply (runs_weaken _ _ _ _ (drop_wait_hash_ok p h l f' H1 H2)). intros _ f'' (G1 & [G2 G2'] & G3).
      split_and!; [done|done|split; congruence|congruence]. }
  intros _ f' (H1 & _ & [[= T1 T2 T3 T4] H3] & [= W1 W2 W3]). run.
  assert (fetcher_ok said (set_waitslots (delete p (waitslots f')) f')) as Hf'.
  { apply (core_ext_slots said _ _ _ _ _ H1). cbn. intros p' h. rewrite elem_delete, elem_insert_slots. set_solver. }
  case_bool_decide as Hne; cbn in Hne; [|run; cbn; split_and!; [exact Hf'| |congruence]].
  - apply (runs_weaken _ _ _ _ (rescheduleWait_runs clock o _)). intros _ ? (d & n & ->).
    split; [exact Hf'|]. split; [intros _; by left|cbn; congruence].
  - intros Hwt. destruct Hwt. apply (no_waits _ Hf'). cbn. destruct (decide (waitlist f' = ∅)); done.
Qed.
(** What is left of the request, without what the peer announced. *)
Definition dropped_left (p : PeerId) (req : txRequest) (l : list Hash) (f : TxFetcher) : Prop :=
  core said (waitslots f) (delete p (announces f)) (<[p := request l (stolen req) (rq_time req)]> (requests f)) f.

Lemma drop_hash_ok p req h l f :
  dropped_left p req (h :: l) f ->
  runs (drop_hash p req h) f (fun _ f' => dropped_left p req l f' /\ still f f' /\ announces f' = announces f).
Proof.
  intros Hc. unfold drop_hash. case_bool_decide as Hst.
  { run. split; [by apply (core_skip said _ _ _ _ _ h)|]. split; [apply still_refl|done]. }
  destruct (core_requested said _ _ _ _ _ _ _ _ _ Hc Hst) as (s & E1 & E2 & E3 & E4). run. cbn [id].
  unfold delete_at, at_. cbn [alternates set_alternates announced]. rewrite E2. cbn [mjoin option_join].
  rewrite lookup_insert_eq. cbn [mjoin option_join default].
  assert (forall p', h ∈ delete p (announces f) !!! p' -> p' ∈ s ∖ {[p]} /\ h ∈ delete p (announces f) !!! p') as Hs'.
  { intros p' Hp'. split; [|done]. pose proof (E4 p' Hp') as [Hin _]. apply elem_delete in Hp' as [? _]. set_solver. }
  case_bool_decide as He; run; (split; [|split; [by split|done]]);
    apply (core_release said _ _ _ _ _ h _ _ _ _ _ (s ∖ {[p]}) Hc Hst); cbn; try done; try apply lookup_delete_eq.
  - intros k Hne. by rewrite !lookup_delete_ne, lookup_insert_ne.
  - by rewrite bool_decide_eq_true_2.
  - intros k Hne. by rewrite !lookup_delete_ne, !lookup_insert_ne.
  - by rewrite lookup_insert_eq, bool_decide_eq_false_2.
Qed.

(** Removing a peer that no longer counts from the origins of a queued hash. *)
Lemma core_unqueue sl an rq f p h :
  core said sl an rq f -> an !!! p = ∅ ->
  core said sl an rq (set_announced (tidy_at h (delete_at h p (announced f))) f).
Proof.
  intros Hc Hp. pose proof (proj1 Hc h) as Hst. unfold stage_of in Hst. unfold delete_at, at_.
  assert (announced f !! h = None -> core said sl an rq (set_announced (delete h (announced f)) f)) as Hnone.
  { intros E. by rewrite delete_id. }
  stage_cases Hst; rewrite Eq; cbn; unfold tidy_at, at_; try (rewrite Eq; cbn; by apply Hnone).
  rewrite lookup_insert_eq. cbn. apply (core_at said h _ _ _ _ _ _ _ _ Hc); [|apply Hc|].
  - intros k Hne. cbn. case_bool_decide; rewrite ?lookup_delete_ne, ?lookup_insert_ne by done; by split_and!.
  - assert (forall p', h ∈ an !!! p' -> p' ∈ ps ∖ {[p]} /\ said p' h) as Hs'.
    { intros p' Hp'. destruct (Han p' Hp'). split; [|done]. apply elem_of_difference. split; [done|].
      intros ->%elem_of_singleton. rewrite Hp in Hp'. by apply not_elem_of_empty in Hp'. }
    unfold stage_of. cbn. rewrite Ewl, Ewt, Ealt, Efe. case_bool_decide as He.
    + rewrite lookup_delete_eq. constructor; [done| |done]. intros p' [Hin _]%Hs'. rewrite He in Hin.
      by apply not_elem_of_empty in Hin.
    + rewrite lookup_insert_eq. by constructor.
Qed.

Lemma core_request_ends sl an rq f p st t :
  core said sl an (<[p := request [] st t]> rq) f -> core said sl an (delete p rq) f.
Proof.
  intros Hc. apply (core_no_request said _ _ _ _ p st t); [|apply lookup_delete_eq]. by rewrite insert_delete_eq.
Qed.

Lemma drop_request_ok p f :
  fetcher_ok said f -> runs (drop_request p (requests f !! p)) f (fun _ f' =>
    core said (waitslots f') (delete p (announces f')) (requests f') f' /\ announces f' = announces f /\
    requests f' = delete p (requests f) /\ waittime f' = waittime f /\ quiet f f').
Proof.
  intros Hf. assert (core said (waitslots f) (delete p (announces f)) (requests f) f) as Hf'.
  { apply (core_less said _ _ _ _ _ Hf). intros p' h [_ ?]%elem_delete. done. }
  unfold drop_request. destruct (requests f !! p) as [req|] eqn:E; [|run; split_and!; try done; by rewrite delete_id].
  run. eapply runs_weaken.
  { apply (runs_each (fun l f' => dropped_left p req l f' /\ still f f' /\ announces f' = announces f)).
    - split; [|split; [apply still_refl|done]]. unfold dropped_left. rewrite insert_id; [done|]. rewrite E. by destruct req.
    - intros h l f' (H1 & H2 & H3). apply (runs_weaken _ _ _ _ (drop_hash_ok p req h l f' H1)).
      intros _ f'' (G1 & G2 & G3). split; [done|]. split; [by apply (still_trans _ f')|congruence]. }
  intros _ f' (H1 & [[= W1 W2 W3 W4] H2] & H3). run. cbn. split_and!; try done; [|by rewrite W4].
  exact (core_request_ends _ _ _ _ _ _ _ H1).
Qed.

Lemma drop_announces_ok p f :
  core said (waitslots f) (delete p (announces f)) (requests f) f ->
  runs (drop_announces p (announces f !! p)) f (fun _ f' => fetcher_ok said f' /\ announces f' = delete p (announces f) /\
    still f f').
Proof.
  intros Hf. unfold drop_announces. destruct (announces f !! p) as [hashes|] eqn:E.
  - run. eapply runs_weaken.
    { apply (runs_each (fun _ f' => core said (waitslots f') (delete p (announces f')) (requests f') f' /\
        still f f' /\ announces f' = announces f)).
      - split; [done|]. split; [apply still_refl|done].
      - intros h l f' (H1 & H2 & H3). run. split; [|by split; [exact H2|]]. apply core_unqueue; [exact H1|].
        cbn. rewrite total_default. by rewrite lookup_delete_eq. }
    intros _ f' (H1 & H2 & H3). run. split; [exact H1|]. cbn. by rewrite H3.
  - run. rewrite delete_id in Hf by done. split; [done|]. split; [by rewrite delete_id|apply still_refl].
Qed.
End Drops.

(** ** Deliveries *)

Section Deliveries.
Context (said : PeerId -> Hash -> Prop) (clock : nat -> AbsTime).

(** No trace of a hash. *)
Definition untracked (f : TxFetcher) (h : Hash) : Prop :=
  (waitlist f !! h, waittime f !! h, announced f !! h, alternates f !! h, fetching f !! h) =
  (None, None, None, None, None) /\ forall p, h ∉ waitslots f !!! p /\ h ∉ announces f !!! p.

(** The requests, as if the delivered hashes [D] had not been part of the one that
    is answered. *)
Definition awaiting (d : txDelivery) (D : gset Hash) (rq : gmap PeerId txRequest) : gmap PeerId txRequest :=
  if direct d then
    alter (fun r => request (filter (fun h => h ∉ D) (rq_hashes r)) (stolen r) (rq_time r)) (dl_origin d) rq
  else rq.

Lemma live_awaiting d D rq h p :
  live (awaiting d D rq) h p <-> live rq h p /\ ~ (direct d = true /\ p = dl_origin d /\ h ∈ D).
Proof.
  clear said clock. unfold awaiting. destruct (direct d); [|naive_solver]. unfold live. destruct (decide (p = dl_origin d)) as [->|].
  - rewrite lookup_alter_eq. destruct (rq !! dl_origin d) as [r|]; cbn; [|naive_solver]. split.
    + intros (r' & [= <-] & [H1 H2]%list_elem_of_filter & H3). cbn in *. split; [by exists r|naive_solver].
    + intros [(r' & [= <-] & H1 & H2) H3]. eexists. split; [done|]. cbn. rewrite list_elem_of_filter. naive_solver.
  - rewrite lookup_alter_ne by done. naive_solver.
Qed.

Lemma awaiting_ok d D rq :
  (forall p r, rq !! p = Some r -> request_ok r) -> forall p r, awaiting d D rq !! p = Some r -> request_ok r.
Proof.
  intros Hr p r. unfold awaiting. destruct (direct d); [|by apply Hr].
  intros [(<- & r' & Hr' & ->)|[_ Hr']]%lookup_alter_Some; [|by apply (Hr p)].
  destruct (Hr _ _ Hr') as [Hnd Hlen]. split; cbn; [by apply NoDup_filter|].
  etrans; [apply length_filter|done].
Qed.

(** The requests of which only the stolen hashes changed. *)
Definition same_requests (rq rq' : gmap PeerId txRequest) : Prop :=
  forall p, match rq !! p, rq' !! p with
            | Some r, Some r' => rq_hashes r' = rq_hashes r
            | None, None => True
            | _, _ => False
            end.

Lemma same_requests_refl rq : same_requests rq rq.
Proof. intros p. by destruct (rq !! p). Qed.

Lemma same_requests_trans rq1 rq2 rq3 : same_requests rq1 rq2 -> same_requests rq2 rq3 -> same_requests rq1 rq3.
Proof.
  intros H1 H2 p. specialize (H1 p). specialize (H2 p). destruct (rq1 !! p), (rq2 !! p), (rq3 !! p); try done. congruence.
Qed.

Lemma same_requests_steal rq q r h :
  rq !! q = Some r -> same_requests rq (<[q := request (rq_hashes r) (stolen r ∪ {[h]}) (rq_time r)]> rq).
Proof.
  intros Hr p. destruct (decide (p = q)) as [->|]; [by rewrite Hr, lookup_insert_eq|].
  rewrite lookup_insert_ne by done. by destruct (rq !! p).
Qed.

Lemma live_steal rq q r h k p :
  rq !! q = Some r ->
  live (<[q := request (rq_hashes r) (stolen r ∪ {[h]}) (rq_time r)]> rq) k p <-> live rq k p /\ ~ (p = q /\ k = h).
Proof.
  clear said clock. intros Hr. destruct (decide (p = q)) as [->|]; [|rewrite live_insert_ne by done; naive_solver].
  rewrite live_insert_eq. cbn. unfold live. rewrite Hr. set_solver.
Qed.

(** The state in the middle of a delivery, of which [D] was handled. *)
Record delivering (d : txDelivery) (D : gset Hash) (f : TxFetcher) : Prop := {
  dv_core : core said (waitslots f) (announces f) (awaiting d D (requests f)) f;
  dv_ok : forall p r, requests f !! p = Some r -> request_ok r;
  dv_proper : proper (announces f);
  dv_gone : forall h, h ∈ D -> untracked f h;
}.

(** Without its trace the hash may be delivered. *)
Lemma delivering_at d D f h f' :
  delivering d D f -> proper (announces f') ->
  (forall p r, requests f' !! p = Some r -> request_ok r) ->
  (forall k p, live (requests f') k p <-> live (requests f) k p /\ ~ (k = h /\ ~ (direct d = true /\ p = dl_origin d))) ->
  (forall k, k <> h -> waitlist f' !! k = waitlist f !! k /\ waittime f' !! k = waittime f !! k /\
    announced f' !! k = announced f !! k /\ alternates f' !! k = alternates f !! k /\ fetching f' !! k = fetching f !! k /\
    forall p, (k ∈ waitslots f' !!! p <-> k ∈ waitslots f !!! p) /\ (k ∈ announces f' !!! p <-> k ∈ announces f !!! p)) ->
  untracked f' h -> delivering d (D ∪ {[h]}) f'.
Proof.
  intros [Hc Hok Hpr Hg] Hpr' Hok' Hlv' Hk Hu. split; [|done|done|].
  - apply (core_at said h _ _ _ _ _ _ _ _ Hc); [|by apply awaiting_ok|].
    + intros k Hne. destruct (Hk k Hne) as (? & ? & ? & ? & ? & Hm). split_and!; try done. intros p.
      destruct (Hm p). split; [done|]. split; [done|]. rewrite !live_awaiting, Hlv'. set_solver.
    + destruct Hu as [[= U1 U2 U3 U4 U5] U6]. unfold stage_of. rewrite U1, U2, U3, U4, U5.
      constructor; [apply U6..|]. intros p. rewrite live_awaiting, Hlv'. set_solver.
  - intros k [Hin|Hin]%elem_of_union; [|by apply elem_of_singleton in Hin as ->].
    destruct (decide (k = h)) as [->|Hne]; [done|]. destruct (Hg k Hin) as [E U], (Hk k Hne) as (? & ? & ? & ? & ? & Hm).
    split; [congruence|]. intros p. destruct (Hm p) as [-> ->]. apply U.
Qed.

Definition forgetting (f f' : TxFetcher) : Prop :=
  quiet f f' /\ same_requests (requests f) (requests f') /\ waittime f' ⊆ waittime f /\
  forall p k, k ∈ announces f' !!! p -> k ∈ announces f !!! p.

Lemma forgetting_refl f : forgetting f f.
Proof. split_and!; [done|apply same_requests_refl|done|done]. Qed.

Lemma forgetting_trans f1 f2 f3 : forgetting f1 f2 -> forgetting f2 f3 -> forgetting f1 f3.
Proof.
  intros ([A1 A2] & B1 & C1 & D1) ([E1 E2] & B2 & C2 & D2).
  split_and!; [split; congruence|by apply (same_requests_trans _ (requests f2))|by etrans|auto].
Qed.

(** The hash is waiting for its broadcast. *)
Lemma forget_waiting d D f h ws tm :
  delivering d D f -> waitlist f !! h = Some ws -> waittime f !! h = Some tm ->
  let f' := set_waittime (delete h (waittime f)) (set_waitlist (delete h (waitlist f))
              (set_waitslots (delete_everywhere h (waitslots f)) f)) in
  delivering d (D ∪ {[h]}) f' /\ forgetting f f'.
Proof.
  intros Hd Ewl' Ewt' f'. pose proof (proj1 (dv_core _ _ _ Hd) h) as Hst. unfold stage_of in Hst.
  stage_cases Hst; try congruence. split; [|split_and!; [by split|apply same_requests_refl|apply delete_subseteq|done]].
  apply (delivering_at d D f h); [done|apply Hd|apply Hd|..]; cbn.
  - intros k p. split; [|tauto]. intros Hl. split; [done|]. intros [-> Hn]. apply (Hlv p). apply live_awaiting.
    split; [done|tauto].
  - intros k Hne. rewrite !lookup_delete_ne by done. split_and!; try done. intros p. rewrite elem_delete_everywhere. tauto.
  - split; [cbn; by rewrite !lookup_delete_eq, Eq, Ealt, Efe|]. intros p. cbn. rewrite elem_delete_everywhere.
    split; [tauto|apply Han].
Qed.

(** The hash is queued, requested or unknown; [rq'] are the requests after it was
    noted as stolen. *)
Lemma forget_other d D f h rq' :
  delivering d D f -> waitlist f !! h = None -> same_requests (requests f) rq' ->
  (forall p r, rq' !! p = Some r -> request_ok r) ->
  (forall k p, live rq' k p <-> live (requests f) k p /\ ~ (k = h /\ ~ (direct d = true /\ p = dl_origin d))) ->
  let f' := set_fetching (delete h (fetching f)) (set_requests rq' (set_alternates (delete h (alternates f))
              (set_announced (delete h (announced f)) (set_announces (delete_everywhere h (announces f)) f)))) in
  delivering d (D ∪ {[h]}) f' /\ forgetting f f'.
Proof.
  intros Hd Ewl' Hsame Hok Hlv' f'. pose proof (proj1 (dv_core _ _ _ Hd) h) as Hst. unfold stage_of in Hst.
  assert (forgetting f f') as Hfg.
  { split_and!; [by split|done|done|]. cbn. intros p k [_ ?]%elem_delete_everywhere. done. }
  split; [|done]. apply (delivering_at d D f h); [done|apply delete_everywhere_proper|done|done|..]; cbn.
  - intros k Hne. rewrite !lookup_delete_ne by done. split_and!; try done. intros p. rewrite elem_delete_everywhere. tauto.
  - assert (waittime f !! h = None /\ forall p, h ∉ waitslots f !!! p) as [Ewt' Hsl'].
    { stage_cases Hst; try congruence; by split. }
    split; [cbn; by rewrite !lookup_delete_eq, Ewl', Ewt'|]. intros p. cbn. rewrite elem_delete_everywhere.
    split; [done|tauto].
Qed.

Lemma forget_ok d D f h :
  delivering d D f -> runs (forget d h) f (fun _ f' => delivering d (D ∪ {[h]}) f' /\ forgetting f f').
Proof.
  intros Hd. pose proof (proj1 (dv_core _ _ _ Hd) h) as Hst. unfold stage_of in Hst. unfold forget. run. cbn [id].
  case_bool_decide as Hwl.
  { stage_cases Hst; try (rewrite Ewl in Hwl; by destruct Hwl). run. by apply (forget_waiting d D f h ps tw). }
  apply eq_None_not_Some in Hwl. run. cbn [fetching requests set_alternates set_announced set_announces].
  destruct (fetching f !! h) as [q|] eqn:Ef.
  - assert (forall p, live (awaiting d D (requests f)) h p <-> p = q) as Hlive.
    { stage_cases Hst; try congruence. by simplify_eq. }
    pose proof (proj2 (Hlive q) eq_refl) as Hl.
    apply live_awaiting in Hl as [(r & Hr & Hin & Hns) Hno]. rewrite Hr.
    destruct (bool_decide (q <> dl_origin d) || negb (direct d)) eqn:Eb; run.
    + apply (forget_other d D f h); try done; [by apply same_requests_steal|..].
      * intros p r' [[<- <-]|[_ Hr']]%lookup_insert_Some; [exact (dv_ok _ _ _ Hd _ _ Hr)|exact (dv_ok _ _ _ Hd _ _ Hr')].
      * intros k p. rewrite (live_steal _ q r h k p Hr). specialize (Hlive p). rewrite live_awaiting in Hlive.
        apply orb_true_iff in Eb. rewrite bool_decide_eq_true, negb_true_iff in Eb. destruct (direct d); naive_solver.
    + apply orb_false_iff in Eb as [Eb%bool_decide_eq_false Ed%negb_false_iff].
      apply (forget_other d D f h (requests f)); try done; [apply same_requests_refl|apply Hd|].
      intros k p. split; [|tauto]. intros Hl. split; [done|]. intros [-> Hn]. specialize (Hlive p).
      rewrite live_awaiting in Hlive. assert (p = q) as -> by (apply Hlive; tauto). apply Hn. split; [done|].
      destruct (decide (q = dl_origin d)); tauto.
  - run. apply (forget_other d D f h (requests f)); try done; [apply same_requests_refl|apply Hd|].
    intros k p. split; [|tauto]. intros Hl. split; [done|]. intros [-> Hn].
    assert (~ live (awaiting d D (requests f)) h p) as Hno by (stage_cases Hst; try congruence; done).
    apply Hno, live_awaiting. split; [done|tauto].
Qed.

(** What is left of the request that is answered. *)
Record rescheduling (p : PeerId) (req : txRequest) (D : gset Hash) (l : list Hash) (f : TxFetcher) : Prop := {
  rs_core : core said (waitslots f) (announces f)
    (<[p := request (filter (fun h => h ∉ D) l) (stolen req) (rq_time req)]> (requests f)) f;
  rs_proper : proper (announces f);
  rs_gone : forall h, h ∈ D -> untracked f h;
}.

Lemma untracked_frame f f' h k :
  untracked f k -> k <> h -> (waitlist f', waittime f', waitslots f') = (waitlist f, waittime f, waitslots f) ->
  announced f' !! k = announced f !! k -> alternates f' !! k = alternates f !! k -> fetching f' !! k = fetching f !! k ->
  (forall p, k ∈ announces f' !!! p -> k ∈ announces f !!! p) -> untracked f' k.
Proof.
  intros [E U] Hne [= W1 W2 W3] E1 E2 E3 Ha. split; [congruence|]. intros p. rewrite W3. destruct (U p). auto.
Qed.

(** A hash that was not delivered goes back to the queue, without the peer when it
    skipped the hash. *)
Lemma reschedule_missing p req D l f h skipped :
  rescheduling p req D (h :: l) f -> h ∉ D -> h ∉ stolen req ->
  exists s, alternates f !! h = Some (Some s) /\ announced f !! h = None /\
  let s' := if (skipped : bool) then s ∖ {[p]} else s in
  rescheduling p req D l (set_fetching (delete h (fetching f)) (set_alternates (delete h (alternates f))
    (set_announced (if bool_decide (s' = ∅) then announced f else <[h := Some s']> (announced f))
    (set_announces (if skipped then tidy p (delete_from p h (announces f)) else announces f) f)))).
Proof.
  intros [Hc Hpr Hg] HD Hst. rewrite filter_cons_True in Hc by done.
  destruct (core_requested said _ _ _ _ _ _ _ _ _ Hc Hst) as (s & E1 & E2 & E3 & E4).
  exists s. split; [done|]. split; [done|]. intros s'.
  assert (forall k, k <> h -> (if bool_decide (s' = ∅) then announced f else <[h := Some s']> (announced f)) !! k =
    announced f !! k) as Hq'.
  { intros k Hne. case_bool_decide; [done|by rewrite lookup_insert_ne]. }
  assert (forall p' k, k <> h -> k ∈ (if skipped then tidy p (delete_from p h (announces f)) else announces f) !!! p' <->
    k ∈ announces f !!! p') as Hother.
  { intros p' k Hne. destruct skipped; [|done]. rewrite elem_tidy, elem_delete_from. tauto. }
  split; cbn.
  - apply (core_release said _ _ _ _ _ h _ _ _ _ _ s' Hc Hst); cbn; try done.
    + intros k Hne. by rewrite Hq', !lookup_delete_ne.
    + case_bool_decide; [done|apply lookup_insert_eq].
    + apply lookup_delete_eq.
    + apply lookup_delete_eq.
    + intros p'. unfold s'. destruct skipped; [|intros Hin; split; [by apply E4|done]].
      rewrite elem_tidy, elem_delete_from. intros [Hne Hin]. split; [|done]. apply E4 in Hin as [? _]. set_solver.
  - destruct skipped; [by apply tidy_delete_proper|done].
  - intros k Hk. assert (k <> h) as Hne by (by intros ->). apply (untracked_frame f _ h k (Hg k Hk) Hne); cbn; try done.
    + by rewrite Hq'.
    + by rewrite lookup_delete_ne.
    + by rewrite lookup_delete_ne.
    + intros p'. by rewrite Hother.
Qed.

Lemma reschedule_hash_ok p req D cutoff i h l f :
  rescheduling p req D (h :: l) f ->
  runs (reschedule_hash p req D cutoff i h) f (fun _ f' => rescheduling p req D l f' /\ still f f').
Proof.
  intros Hr. unfold reschedule_hash. case_bool_decide as Hst.
  { run. split; [|apply still_refl]. destruct Hr as [Hc Hpr Hg]. split; [|done|done]. rewrite filter_cons in Hc.
    case_decide; [by apply (core_skip said _ _ _ _ _ h)|done]. }
  case_bool_decide as HD.
  { run. split; [|by split]. destruct Hr as [Hc Hpr Hg]. rewrite filter_cons_False in Hc by (intros H; by apply H).
    destruct (Hg h HD) as [[= U1 U2 U3 U4 U5] _]. cbn. rewrite !delete_id by done. by split. }
  destruct (reschedule_missing p req D l f h (i <? cutoff)%nat Hr HD Hst) as (s & E1 & E2 & Hnext).
  destruct (i <? cutoff)%nat; run; cbn [id]; unfold delete_at, at_; cbn [alternates set_alternates set_announces announced];
    rewrite E1; cbn [mjoin option_join default].
  - rewrite lookup_insert_eq. cbn [mjoin option_join default id]. unfold id.
    case_bool_decide as He; run; [apply runs_pure; [apply bool_decide_eq_false; rewrite E2; by intros [? ?]|]; run|];
      (split; [|by split]); cbn [alternates set_alternates set_announces announced set_announced fetching set_fetching];
      rewrite delete_insert_eq; cbn zeta in Hnext.
    + rewrite bool_decide_eq_false_2 in Hnext by done. exact Hnext.
    + rewrite bool_decide_eq_true_2 in Hnext by done. exact Hnext.
  - unfold id. case_bool_decide as He; run; [apply runs_pure; [apply bool_decide_eq_false; rewrite E2; by intros [? ?]|]; run|];
      (split; [|by split]); cbn zeta in Hnext.
    + rewrite bool_decide_eq_false_2 in Hnext by done. exact Hnext.
    + rewrite bool_decide_eq_true_2 in Hnext by done. exact Hnext.
Qed.

Lemma reschedule_all_ok p req D cutoff l : forall i f,
  rescheduling p req D l f ->
  runs (reschedule_all p req D cutoff i l) f (fun _ f' => rescheduling p req D [] f' /\ still f f').
Proof.
  induction l as [|h l IH]; intros i f Hr; cbn; run; [split; [done|apply still_refl]|].
  apply (runs_weaken _ _ _ _ (reschedule_hash_ok p req D cutoff i h l f Hr)). intros _ f1 [H1 H2].
  apply (runs_weaken _ _ _ _ (IH (S i) f1 H1)). intros _ f2 [H3 H4]. split; [done|]. by apply (still_trans _ f1).
Qed.
End Deliveries.
