(* ===== verification/TxFetcherLoop.v ===== *)
(** * Correctness of the transaction fetcher

    Whatever nodes announce, deliver and fail to deliver, the loop never reaches
    one of its panics, every tracked hash is in one stage, a hash is requested
    from one peer at a time and only from peers that announced it, what was
    delivered leaves no trace, and as long as something is tracked a timer will
    wake the loop up.  What the comments of the code promise and the code does
    not do is at the end. *)

From S2P Require Import Prelude EthTypes GethFuzzer CliqueSnapshot TxFetcher TxFetcherSpec.

(** ** The invariant of the loop *)

Record unarmed (said : PeerId -> Hash -> Prop) (f : TxFetcher) : Prop := {
  inv_ok : fetcher_ok said f;
  inv_proper : proper (announces f);
  inv_wait : wait_armed f;
  (** A peer is left alone although it announced something only if another
      request will end. *)
  inv_idle : forall p, requests f !! p = None -> announces f !!! p <> ∅ -> some_pending f;
  inv_sent : asked said (sent f);
}.

Definition invariant (said : PeerId -> Hash -> Prop) (f : TxFetcher) : Prop := unarmed said f /\ timeout_armed f.

Section Events.
Context (said : PeerId -> Hash -> Prop) (clock : nat -> AbsTime).

Lemma waits_empty (m : gmap Hash AbsTime) : m ⊆ ∅ -> m = ∅.
Proof. intros H. apply (anti_symm (⊆)); [done|apply map_empty_subseteq]. Qed.

Lemma served_pending p f :
  fetcher_ok said f -> served p f -> requests f !! p = None -> announces f !!! p <> ∅ -> some_pending f.
Proof.
  intros Hf [[r Hr]|Hv] Hp Hne; [congruence|]. apply set_choose_L in Hne as [h Hh].
  destruct (Hv h Hh) as [q Hq]. pose proof (proj1 Hf h) as Hst. unfold stage_of in Hst. rewrite Hq in Hst.
  stage_cases Hst; try congruence. destruct (proj2 (Hlv po) eq_refl) as (r & Hr & Hin & _).
  exists po, r. split; [done|]. by intros E; rewrite E in Hin; apply elem_of_nil in Hin.
Qed.

(** Scheduling establishes the invariant from what holds before it. *)
Lemma schedule_unarmed o whitelist f :
  Fair o -> fetcher_ok said f -> proper (announces f) -> wait_armed f -> asked said (sent f) ->
  (forall p, p ∉ default (dom (announces f)) whitelist -> requests f !! p = None -> announces f !!! p <> ∅ ->
     some_pending f) ->
  runs (scheduleFetches clock o whitelist) f (fun _ f' =>
    unarmed said f' /\ (timeout_armed f -> timeout_armed f')).
Proof.
  intros Ho Hf Hpr Hw Hs Hi. apply (runs_weaken _ _ _ _ (scheduleFetches_ok said clock o whitelist f Ho Hf)).
  intros _ f' (Hf' & He & Hserved & Harm). pose proof He as [W A T O F R _ L (new & Hn & Hnew)].
  injection W as W1 W2 W3. injection T as T1 T2 T3. split; [split; [done|by rewrite A|..]|].
  - unfold wait_armed. by rewrite W2, T1, T2.
  - intros p Hp Hne. destruct (decide (p ∈ default (dom (announces f)) whitelist)) as [Hin|Hout].
    + apply (served_pending p); auto.
    + rewrite A in Hne. destruct (Hi p Hout) as (q & r & Hr & Hh); [|done|].
      * destruct (requests f !! p) eqn:E; [|done]. by rewrite (lookup_weaken _ _ _ _ E R) in Hp.
      * exists q, r. split; [by apply (lookup_weaken _ _ _ _ Hr)|done].
  - rewrite Hn. intros p hs [?|?]%elem_of_app; auto.
  - intros Ht Hne. rewrite T3. destruct (decide (requests f = ∅)) as [E|E]; [left; auto|].
    destruct (Ht E); [left; auto|by right].
Qed.

Lemma fetches_inv o whitelist f :
  Fair o -> fetcher_ok said f -> proper (announces f) -> wait_armed f -> timeout_armed f -> asked said (sent f) ->
  (forall p, p ∉ default (dom (announces f)) whitelist -> requests f !! p = None -> announces f !!! p <> ∅ ->
     some_pending f) ->
  runs (scheduleFetches clock o whitelist) f (fun _ => invariant said).
Proof.
  intros Ho Hf Hpr Hw Ht Hs Hi. apply (runs_weaken _ _ _ _ (schedule_unarmed o whitelist f Ho Hf Hpr Hw Hs Hi)).
  intros _ f' [Hu Ha]. split; auto.
Qed.

Lemma all_scheduled f p : p ∉ dom (announces f) -> announces f !!! p = ∅.
Proof. intros Hp. rewrite total_default. by rewrite (not_elem_of_dom_1 _ _ Hp). Qed.

(** Scheduling everything and arming the timer, whatever became of the timer. *)
Lemma schedule_and_arm o f :
  Fair o -> fetcher_ok said f -> proper (announces f) -> wait_armed f -> asked said (sent f) ->
  runs (_ ← scheduleFetches clock o None; rescheduleTimeout clock o) f (fun _ => invariant said).
Proof.
  intros Ho Hf Hpr Hw Hs. run. eapply runs_weaken.
  { apply (schedule_unarmed o None f Ho Hf Hpr Hw Hs). intros p Hp _ []. by apply all_scheduled. }
  intros _ f' [Hu _]. apply (runs_weaken _ _ _ _ (rescheduleTimeout_runs clock o f')). intros _ ? (d & n & ->).
  split; [by destruct Hu|]. intros _. by left.
Qed.

(** Arming the wait timer where the code does. *)
Lemma arm_wait (arm : bool) o f :
  fetcher_ok said f -> (arm = false -> wait_armed f) ->
  runs (if arm then rescheduleWait clock o else mret tt) f (fun _ f' => fetcher_ok said f' /\ wait_armed f' /\
    (announces f', requests f', timeoutTimer f', timeoutTrigger f', sent f') =
    (announces f, requests f, timeoutTimer f, timeoutTrigger f, sent f)).
Proof.
  intros Hf Hw. destruct arm; [|run; by split_and!; [|apply Hw|]].
  apply (runs_weaken _ _ _ _ (rescheduleWait_runs clock o f)). intros _ ? (d & n & ->).
  split; [exact Hf|]. split; [|done]. intros _. by left.
Qed.

Lemma notify_hash_runs origin h f :
  fetcher_ok said f -> proper (announces f) -> said origin h ->
  runs (notify_hash clock origin h) f (fun _ f' => fetcher_ok said f' /\ proper (announces f') /\ quiet f f' /\
    requests f' = requests f /\ forall p, p <> origin -> announces f' !!! p = announces f !!! p).
Proof.
  intros Hf Hpr Hsaid. destruct (notify_hash_ok said clock origin h f Hf Hsaid) as ([] & f' & E & Hf').
  exists tt, f'. split; [done|]. split; [done|]. revert E. unfold notify_hash, mbind, StM_bind, getS, putS, Now, id. cbn.
  assert (forall p, p <> origin -> add_to origin h (announces f) !!! p = announces f !!! p) as Hadd.
  { intros p Hp. rewrite add_to_total. by case_decide. }
  pose proof (add_to_proper origin h _ Hpr) as Hpr'.
  destruct (at_ (alternates f) h); [|destruct (at_ (announced f) h); [|destruct (waitlist f !! h)]].
  all: intros [= <-]; split_and!; (exact Hpr || exact Hpr' || by split || done).
Qed.

Lemma on_notify_inv o ann f :
  Fair o -> invariant said f -> (forall h, h ∈ ann_hashes ann -> said (ann_origin ann) h) ->
  runs (on_notify clock o ann) f (fun _ => invariant said).
Proof.
  intros Ho Hi Hsaid. pose proof Hi as [[Hf Hpr Hw Hid Hs] Ht]. unfold on_notify. run.
  case_match; run; [done|]. set (hashes := if (_ : bool) then _ else _).
  assert (forall h, h ∈ hashes -> said (ann_origin ann) h) as Hh.
  { intros h Hin. apply Hsaid. unfold hashes in Hin. case_match; [by apply subseteq_take in Hin|done]. }
  clearbody hashes. eapply runs_weaken.
  { apply (runs_each (fun l f' => fetcher_ok said f' /\ proper (announces f') /\ quiet f f' /\ requests f' = requests f /\
      (forall p, p <> ann_origin ann -> announces f' !!! p = announces f !!! p) /\ forall h, h ∈ l -> said (ann_origin ann) h)).
    - by split_and!.
    - intros h l f' (H1 & H2 & [H3 H3'] & H4 & H5 & H6).
      apply (runs_weaken _ _ _ _ (notify_hash_runs (ann_origin ann) h f' H1 H2 ltac:(apply H6; by left))).
      intros _ f'' (G1 & G2 & [G3 G3'] & G4 & G5). split_and!; [done|done|split; congruence|congruence| |].
      + intros p Hp. by rewrite G5, H5.
      + intros h' Hh'. apply H6. by right. }
  intros _ f' (Hf' & Hpr' & [Hq Hsent] & Hr & Ha & _). injection Hq as Q1 Q2 Q3 Q4. run.
  eapply runs_weaken; [apply arm_wait; [exact Hf'|]|].
  { intros E Hne. rewrite (bool_decide_eq_true_2 (waittime f' <> ∅)) in E by done.
    rewrite andb_true_r, bool_decide_eq_false in E. rewrite Q1, Q3. by apply Hw. }
  intros _ f'' (Hf'' & Hw'' & [= A R T1 T2 Se]). run.
  rewrite A. rewrite <- total_default.
  assert (timeout_armed f'') as Ht''. { intros Hne. rewrite T1, T2, Q2, Q4. apply Ht. congruence. }
  assert (some_pending f -> some_pending f'') as Hsp. { unfold some_pending. by rewrite R, Hr. }
  assert (asked said (sent f'')) as Hs'' by (by rewrite Se, Hsent).
  assert (proper (announces f'')) as Hpr'' by (by rewrite A).
  destruct (is_Some_dec (announces f !! ann_origin ann)) as [[s Hold]|Hnew].
  - rewrite bool_decide_eq_true_2 by (by eexists). cbn. run. split; [split; try done|done].
    intros p Hp Hne. apply Hsp. rewrite R, Hr in Hp. destruct (decide (p = ann_origin ann)) as [->|Hne'].
    + apply (Hid _ Hp). rewrite total_default, Hold. exact (Hpr _ _ Hold).
    + apply (Hid _ Hp). by rewrite <- Ha, <- A.
  - rewrite bool_decide_eq_false_2 by done. cbn. case_bool_decide as Hne.
    + apply fetches_inv; try done. cbn. intros p Hp%not_elem_of_singleton Hrp Hap. apply Hsp.
      rewrite R, Hr in Hrp. rewrite A, Ha in Hap by done. by apply (Hid p).
    + run. split; [split; try done|done]. intros p Hp Hap. apply Hsp. rewrite R, Hr in Hp. rewrite A in Hap.
      destruct (decide (p = ann_origin ann)) as [->|Hne']; [done|]. rewrite Ha in Hap by done. by apply (Hid p).
Qed.

Lemma expire_waits_ok l : forall actives f,
  fetcher_ok said f -> proper (announces f) ->
  runs (expire_waits clock actives l) f (fun actives' f' => fetcher_ok said f' /\ proper (announces f') /\
    quiet f f' /\ requests f' = requests f /\ actives ⊆ actives' /\
    forall p, p ∉ actives' -> announces f' !!! p = announces f !!! p).
Proof.
  induction l as [|h l IH]; intros actives f Hf Hpr; cbn; run; [by split_and!|].
  apply (runs_weaken _ _ _ _ (expire_wait_ok said clock actives h f Hf Hpr)).
  intros a1 f1 (H1 & H2 & [H3 H3'] & H4 & H5 & H6). apply (runs_weaken _ _ _ _ (IH a1 f1 H1 H2)).
  intros a2 f2 (G1 & G2 & [G3 G3'] & G4 & G5 & G6).
  split_and!; [done|done|split; congruence|congruence|by etrans|]. intros p Hp. rewrite G6, H6; [done|set_solver|done].
Qed.

Lemma on_wait_inv o f :
  Fair o -> fetcher_ok said f -> proper (announces f) -> timeout_armed f -> asked said (sent f) ->
  (forall p, requests f !! p = None -> announces f !!! p <> ∅ -> some_pending f) ->
  runs (on_wait clock o) f (fun _ => invariant said).
Proof.
  intros Ho Hf Hpr Ht Hs Hid. unfold on_wait. run.
  apply (runs_weaken _ _ _ _ (expire_waits_ok _ ∅ f Hf Hpr)).
  intros actives f' (Hf' & Hpr' & [Hq Hsent] & Hr & _ & Ha). injection Hq as Q1 Q2 Q3 Q4. run.
  eapply runs_weaken; [apply arm_wait; [exact Hf'|]|].
  { intros E%bool_decide_eq_false Hne. done. }
  intros _ f'' (Hf'' & Hw'' & [= A R T1 T2 Se]). run.
  assert (timeout_armed f'') as Ht''. { intros Hne. rewrite T1, T2, Q2, Q4. apply Ht. congruence. }
  assert (proper (announces f'')) as Hpr'' by (by rewrite A).
  assert (asked said (sent f'')) as Hs'' by (by rewrite Se, Hsent).
  assert (forall p, p ∉ actives -> requests f'' !! p = None -> announces f'' !!! p <> ∅ -> some_pending f'') as Hi.
  { intros p Hp Hrp Hap. unfold some_pending. rewrite R, Hr in Hrp |- *. rewrite A, Ha in Hap by done. by apply (Hid p). }
  case_bool_decide as Hact.
  - by apply fetches_inv.
  - run. split; [split; try done|done]. intros p Hp Hap. apply (Hi p); try done. rewrite Hact. set_solver.
Qed.

Lemma on_timeout_inv o f :
  Fair o -> fetcher_ok said f -> proper (announces f) -> wait_armed f -> asked said (sent f) ->
  runs (on_timeout clock o) f (fun _ => invariant said).
Proof.
  intros Ho Hf Hpr Hw Hs. unfold on_timeout. apply total_bind, runs_get, total_bind. eapply runs_weaken.
  { apply (runs_each (fun _ f' => fetcher_ok said f' /\ proper (announces f') /\ wait_armed f' /\ asked said (sent f'))).
    - done.
    - intros p l f' (H1 & H2 & H3 & H4). apply (runs_weaken _ _ _ _ (expire_request_ok said clock p f' H1 H2)).
      intros _ f'' (G1 & G2 & [[= T1 T2 T3 T4] G3] & [= W1 W2]). split_and!; [done|done| |by rewrite G3].
      unfold wait_armed. by rewrite W1, T1, T3. }
  intros _ f' (H1 & H2 & H3 & H4). by apply schedule_and_arm.
Qed.

Lemma on_drop_inv o p f : Fair o -> invariant said f -> runs (on_drop clock o p) f (fun _ => invariant said).
Proof.
  intros Ho [[Hf Hpr Hw Hid Hs] Ht]. unfold on_drop. run.
  apply (runs_weaken _ _ _ _ (drop_waits_ok said clock o p f Hf Hw)). intros _ f1 (Hf1 & Hw1 & [= A1 R1 T1 U1 S1]).
  apply total_bind, runs_get, total_bind. apply (runs_weaken _ _ _ _ (drop_request_ok said p f1 Hf1)).
  intros _ f2 (Hf2 & A2 & R2 & W2 & [[= X1 X2 X3 X4] S2]).
  apply total_bind, runs_get, total_bind. apply (runs_weaken _ _ _ _ (drop_announces_ok said p f2 Hf2)).
  intros _ f3 (Hf3 & A3 & [[= Y1 Y2 Y3 Y4] [[= Z1 Z2 Z3 Z4] S3]]).
  assert (wait_armed f3) as Hw3. { unfold wait_armed in *. by rewrite Y2, W2, Z1, X1, Z3, X3. }
  assert (proper (announces f3)) as Hpr3. { rewrite A3, A2, A1. by apply delete_proper. }
  assert (asked said (sent f3)) as Hs3 by (by rewrite S3, S2, S1).
  destruct (requests f1 !! p) as [req|] eqn:E; [by apply schedule_and_arm|]. run.
  rewrite delete_id in R2 by done. split; [split; try done|].
  - intros p' Hp'. unfold some_pending. rewrite Y4, R2, R1 in Hp' |- *. intros Hne. apply (Hid p' Hp'). intros E'.
    apply Hne, set_eq. intros h. rewrite A3, A2, A1, elem_delete, E'. set_solver.
  - unfold timeout_armed in *. by rewrite Y4, R2, R1, Z2, X2, T1, Z4, X4, U1.
Qed.

Lemma forget_all_ok d f :
  fetcher_ok said f -> proper (announces f) ->
  runs (each (dl_hashes d) (forget d)) f (fun _ f' => delivering said d (list_to_set (dl_hashes d)) f' /\ forgetting f f').
Proof.
  intros Hf Hpr. eapply runs_weaken.
  { apply (runs_each (fun l f' => exists D, delivering said d D f' /\ forgetting f f' /\
      forall h, h ∈ D \/ h ∈ l <-> h ∈ dl_hashes d)).
    - exists ∅. split; [|split; [apply forgetting_refl|set_solver]]. split; [|apply Hf|done|set_solver].
      split; [|apply awaiting_ok, Hf]. intros h. apply (stage_ext _ _ _ _ _ _ _ _ _ _ _ _ (proj1 Hf h)); [done|done|].
      intros p. rewrite live_awaiting. set_solver.
    - intros h l f' (D & H1 & H2 & H3). apply (runs_weaken _ _ _ _ (forget_ok said d D f' h H1)).
      intros _ f'' [G1 G2]. exists (D ∪ {[h]}). split; [done|]. split; [by apply (forgetting_trans _ f')|].
      intros k. rewrite <- H3. set_solver. }
  intros _ f' (D & H1 & H2 & H3). split; [|done].
  replace (list_to_set (dl_hashes d)) with D; [done|]. apply set_eq. intros h. rewrite elem_of_list_to_set, <- H3. set_solver.
Qed.

Lemma same_requests_empty rq rq' : same_requests rq rq' -> rq' <> ∅ -> rq <> ∅.
Proof.
  intros H Hne ->. apply Hne, map_eq. intros p. specialize (H p). rewrite lookup_empty in H |- *. by destruct (rq' !! p).
Qed.

Lemma pending_same f f' : same_requests (requests f) (requests f') -> some_pending f -> some_pending f'.
Proof.
  intros H (q & r & Hr & Hne). specialize (H q). rewrite Hr in H. destruct (requests f' !! q) as [r'|] eqn:E; [|done].
  exists q, r'. split; [done|]. by rewrite H.
Qed.

(** A delivery that answers no request. *)
Lemma forgetting_inv f f' :
  invariant said f -> forgetting f f' -> fetcher_ok said f' -> proper (announces f') -> invariant said f'.
Proof.
  intros [[Hf Hpr Hw Hid Hs] Ht] ([[= T1 T2 T3 T4] S] & Hr & Hwt & Ha) Hf' Hpr'. split; [split; try done|].
  - intros Hne. rewrite T1, T3. apply Hw. intros E. rewrite E in Hwt. by apply Hne, waits_empty.
  - intros p Hp Hne. apply (pending_same f); [done|]. apply (Hid p).
    + specialize (Hr p). rewrite Hp in Hr. by destruct (requests f !! p).
    + intros E. apply Hne, set_eq. intros h. split; [|set_solver]. intros Hh%Ha. by rewrite E in Hh.
  - by rewrite S.
  - intros Hne. rewrite T2, T4. apply Ht. by apply (same_requests_empty _ (requests f')).
Qed.

(** After the hashes are forgotten: without a request nothing is left to do. *)
Lemma delivering_done d D f :
  delivering said d D f -> (direct d = true -> requests f !! dl_origin d = None) -> fetcher_ok said f.
Proof.
  intros [Hc Hok Hpr Hg] Hn. split; [|exact Hok]. intros h.
  apply (stage_ext _ _ _ _ _ _ _ _ _ _ _ _ (proj1 Hc h)); [done|done|]. intros p. rewrite live_awaiting.
  split; [|tauto]. intros Hl. split; [done|]. intros (Hd & -> & _). destruct Hl as (r & Hr & _). by rewrite Hn in Hr.
Qed.

Lemma delivering_request d f req :
  delivering said d (list_to_set (dl_hashes d)) f -> direct d = true -> requests f !! dl_origin d = Some req ->
  rescheduling said (dl_origin d) req (list_to_set (dl_hashes d)) (rq_hashes req)
    (set_requests (delete (dl_origin d) (requests f)) f).
Proof.
  intros [Hc Hok Hpr Hg] Hd Hr. split; [|done|done]. cbn. rewrite insert_delete_eq.
  unfold awaiting in Hc. rewrite Hd in Hc. replace (alter _ _ _) with (<[dl_origin d := request
    (filter (fun h => h ∉ (list_to_set (dl_hashes d) : gset Hash)) (rq_hashes req)) (stolen req) (rq_time req)]> (requests f)) in Hc; [exact Hc|].
  apply map_eq. intros p. destruct (decide (p = dl_origin d)) as [->|].
  - by rewrite lookup_insert_eq, lookup_alter_eq, Hr.
  - by rewrite lookup_insert_ne, lookup_alter_ne.
Qed.

Lemma on_delivery_inv o d f :
  Fair o -> invariant said f -> runs (on_delivery clock o d) f (fun _ f' =>
    invariant said f' /\ forall h, h ∈ dl_hashes d -> untracked f' h).
Proof.
  intros Ho Hi. pose proof Hi as [[Hf Hpr Hw Hid Hs] Ht]. unfold on_delivery. run.
  apply (runs_weaken _ _ _ _ (forget_all_ok d f Hf Hpr)). intros _ f1 [Hd Hfg].
  assert (forall h, h ∈ dl_hashes d -> untracked f1 h) as Hgone.
  { intros h Hh. apply Hd. by apply elem_of_list_to_set. }
  destruct (direct d) eqn:Edir.
  2:{ run. split; [|done]. apply (forgetting_inv f); [done|done| |apply Hd]. apply (delivering_done d _ _ Hd). congruence. }
  run. destruct (requests f1 !! dl_origin d) as [req|] eqn:Er.
  2:{ run. split; [|done]. apply (forgetting_inv f); [done|done| |apply Hd]. by apply (delivering_done d _ _ Hd). }
  run. apply (runs_weaken _ _ _ _ (reschedule_all_ok said _ _ _ _ _ 0 _ (delivering_request d f1 req Hd Edir Er))).
  intros _ f2 [[Hc Hpr2 Hg2] [[= W1 W2 W3 W4] [[= T1 T2 T3 T4] S2]]]. cbn in *.
  destruct Hfg as ([[= U1 U2 U3 U4] S1] & Hr & Hwt & Ha).
  assert (fetcher_ok said f2) as Hf2.
  { apply (core_no_request said _ _ _ _ _ _ _ Hc). by rewrite W4, lookup_delete_eq. }
  assert (wait_armed f2) as Hw2.
  { intros Hne. rewrite T1, U1, T3, U3. apply Hw. intros E. rewrite E in Hwt. rewrite W2 in Hne. by apply Hne, waits_empty. }
  assert (timeout_armed f2) as Ht2.
  { intros Hne. rewrite T2, U2, T4, U4. apply Ht. apply (same_requests_empty _ (requests f1) Hr). intros E.
    apply Hne. by rewrite W4, E, delete_empty. }
  assert (runs (scheduleFetches clock o None) f2 (fun _ => invariant said)) as Hrun.
  { apply fetches_inv; try done; [by rewrite S2, S1|]. intros p Hp _ []. by apply all_scheduled. }
  apply (runs_weaken _ _ _ _ (runs_both _ _ _ _ (scheduleFetches_ok said clock o None f2 Ho Hf2) Hrun)).
  intros _ f3 [(_ & He & _) Hi3]. split; [done|]. intros h Hh.
  destruct (Hg2 h) as [E U]; [by apply elem_of_list_to_set|]. destruct He as [W A _ _ _ _ X _ _].
  destruct (X h) as (X1 & X2 & X3); [intros p; apply U|]. injection W as V1 V2 V3. split; [congruence|].
  intros p. rewrite V3, A. apply U.
Qed.
End Events.

(** ** Deliveries to the pool *)

Lemma pop_until_size o fuel : forall s,
  Fair o -> (size s <= fuel)%nat -> (size (pop_until o fuel s) < maxTxUnderpricedSetSize)%nat.
Proof.
  induction fuel as [|fuel IH]; intros s Ho Hs; cbn [pop_until]; [unfold maxTxUnderpricedSetSize; lia|].
  destruct (Nat.leb_spec maxTxUnderpricedSetSize (size s)) as [Hle|]; [|done].
  destruct (over_hashes o 0 s) as [|h l] eqn:E; cbn [hd_error].
  - destruct (decide (s = ∅)) as [->|[h Hh]%set_choose_L]; [rewrite size_empty in Hle; unfold maxTxUnderpricedSetSize in Hle; lia|].
    apply (fair_hashes o Ho 0) in Hh. rewrite E in Hh. by apply elem_of_nil in Hh.
  - apply IH; [done|]. assert (h ∈ s) as Hh by (apply (fair_hashes o Ho 0); rewrite E; by left).
    rewrite size_difference by set_solver. rewrite size_singleton. lia.
Qed.

Lemma track_added_ok o errs : forall pre txs f,
  Fair o -> length errs = length txs -> (size (underpriced f) <= maxTxUnderpricedSetSize)%nat ->
  runs (track_added o (pre ++ txs) errs (length pre)) f (fun added f' =>
    added = tx_hash <$> txs /\ (size (underpriced f') <= maxTxUnderpricedSetSize)%nat).
Proof.
  induction errs as [|err errs IH]; intros pre [|tx txs] f Ho Hlen Hf; try discriminate; cbn [track_added]; [by run|].
  run. rewrite list_lookup_middle by done. exists tx, f. split; [done|]. run.
  assert (runs (if bool_decide (err = Some ErrUnderpriced \/ err = Some ErrReplaceUnderpriced) then
    putS (fun f => set_underpriced (pop_until o (size (underpriced f)) (underpriced f) ∪ {[tx_hash tx]}) f) else mret tt) f
    (fun _ f' => (size (underpriced f') <= maxTxUnderpricedSetSize)%nat)) as Hstep.
  { case_bool_decide; run; [|done]. cbn. pose proof (pop_until_size o _ (underpriced f) Ho (le_n _)).
    pose proof (size_union_alt (pop_until o (size (underpriced f)) (underpriced f)) {[tx_hash tx]}) as E.
    pose proof (subseteq_size ({[tx_hash tx]} ∖ pop_until o (size (underpriced f)) (underpriced f)) {[tx_hash tx]} ltac:(set_solver)) as E'.
    rewrite size_singleton in E'. lia. }
  apply (runs_weaken _ _ _ _ Hstep). intros _ f1 Hf1. run. injection Hlen as Hlen.
  replace (pre ++ tx :: txs) with ((pre ++ [tx]) ++ txs) by (by rewrite <- app_assoc).
  replace (S (length pre)) with (length (pre ++ [tx])) by (rewrite length_app; cbn; lia).
  apply (runs_weaken _ _ _ _ (IH (pre ++ [tx]) txs f1 Ho Hlen Hf1)). intros added f2 [-> Hf2]. by run.
Qed.

(** Everything that was received is reported to the loop, whatever the pool makes
    of it, and the set of underpriced transactions stays within its limit. *)
Theorem Enqueue_reports o addTxs p txs dir f :
  Fair o -> length (addTxs txs) = length txs -> (size (underpriced f) <= maxTxUnderpricedSetSize)%nat ->
  exists f', Enqueue o addTxs p txs dir f =
    (Ok {| dl_origin := p; dl_hashes := tx_hash <$> txs; direct := dir |}, f') /\
    (size (underpriced f') <= maxTxUnderpricedSetSize)%nat.
Proof.
  intros Ho Hlen Hf. destruct (track_added_ok o (addTxs txs) [] txs f Ho Hlen Hf) as (added & f' & H & -> & Hf').
  exists f'. split; [|done]. unfold Enqueue. by rewrite (StM_run _ _ _ _ _ H).
Qed.

(** ** The loop *)

(** What was announced in a run. *)
Definition announced_in (evs : list (Orders * event)) (p : PeerId) (h : Hash) : Prop :=
  exists o ann, (o, Announced ann) ∈ evs /\ ann_origin ann = p /\ h ∈ ann_hashes ann.

Section Loop.
Context (clock : nat -> AbsTime).

Lemma pass_inv said o ev f :
  Fair o -> (forall ann, ev = Announced ann -> forall h, h ∈ ann_hashes ann -> said (ann_origin ann) h) ->
  invariant said f -> runs (pass clock o ev) f (fun _ => invariant said).
Proof.
  intros Ho Hev Hi. pose proof Hi as [[Hf Hpr Hw Hid Hs] Ht].
  destruct ev as [ann| | |d|p| |]; cbn [pass].
  - apply on_notify_inv; [done|done|by apply Hev].
  - unfold runs. destruct (waitTrigger f); [by exists tt, f|]. by apply on_wait_inv.
  - unfold runs. destruct (timeoutTrigger f); [by exists tt, f|]. by apply on_timeout_inv.
  - apply (runs_weaken _ _ _ _ (on_delivery_inv said clock o d f Ho Hi)). by intros _ f' [? _].
  - by apply on_drop_inv.
  - run. destruct (fires clock (waitTimer f) f); [|done]. split; [split; try done|done]. intros _. cbn. right. lia.
  - run. destruct (fires clock (timeoutTimer f) f); [|done]. split; [by split|]. intros _. cbn. right. lia.
Qed.

Lemma NewTxFetcher_inv said : invariant said NewTxFetcher.
Proof.
  split; [split|]; cbn.
  - split; [|intros p r Hr; cbn in Hr; by rewrite lookup_empty in Hr]. intros h. unfold stage_of. cbn. rewrite !lookup_empty.
    constructor; intros p; rewrite ?total_default; cbn; rewrite ?lookup_empty; cbn; [set_solver..|].
    intros (r & Hr & _). change (requests NewTxFetcher) with (∅ : gmap PeerId txRequest) in Hr. by rewrite lookup_empty in Hr.
  - intros k s Hs. by rewrite lookup_empty in Hs.
  - by intros [].
  - intros p _ []. rewrite total_default. by rewrite lookup_empty.
  - by intros p hs ?%elem_of_nil.
  - by intros [].
Qed.

Lemma loop_inv evs :
  (forall e, e ∈ evs -> Fair e.1) ->
  runs (loop clock evs) NewTxFetcher (fun _ => invariant (announced_in evs)).
Proof.
  intros Hfair. unfold loop. eapply runs_weaken.
  { apply (runs_each (fun l f => invariant (announced_in evs) f /\ forall e, e ∈ l -> e ∈ evs)).
    - split; [apply NewTxFetcher_inv|done].
    - intros [o ev] l f [Hi Hl].
      assert (runs (pass clock o ev) f (fun _ => invariant (announced_in evs))) as Hp.
      { apply pass_inv; [apply (Hfair (o, ev)), Hl; by left| |done].
        intros ann -> h Hh. exists o, ann. split; [apply Hl; by left|done]. }
      apply (runs_weaken _ _ _ _ Hp). intros _ f' Hi'. split; [done|]. intros e He. apply Hl. by right. }
  by intros _ f [Hi _].
Qed.

(** C16. The fetcher never panics: whatever hashes are announced, delivered and not
    delivered by whom, whichever peers disconnect and whenever timers fire, the
    loop runs through, and afterwards every hash is in exactly one stage: unknown,
    waiting under the peers that announced it, queued, or requested from the one
    peer whose request has it; requests are of at most 256 different hashes. *)
Theorem fetcher_never_panics evs :
  (forall e, e ∈ evs -> Fair e.1) ->
  exists f, loop clock evs NewTxFetcher = (Ok tt, f) /\
    (forall h, stage_of (announced_in evs) (waitslots f) (announces f) (requests f) f h) /\
    (forall p r, requests f !! p = Some r -> request_ok r).
Proof.
  intros Hfair. destruct (loop_inv evs Hfair) as ([] & f & Hrun & [[[Hst Hrq] _ _ _ _] _]). by exists f.
Qed.

(** C27. Requests are justified: every request that was ever sent is for at least one
    and at most 256 different hashes, each of which the peer had announced, and
    no two peers are asked for the same hash at a time. *)
Theorem requests_justified evs f :
  (forall e, e ∈ evs -> Fair e.1) -> loop clock evs NewTxFetcher = (Ok tt, f) ->
  (forall p hs, (p, hs) ∈ sent f ->
     hs <> [] /\ NoDup hs /\ (length hs <= maxTxRetrievals)%nat /\ forall h, h ∈ hs -> announced_in evs p h) /\
  (forall h p p', live (requests f) h p -> live (requests f) h p' -> p = p').
Proof.
  intros Hfair E. destruct (loop_inv evs Hfair) as ([] & f' & Hrun & [[[Hst _] _ _ _ Hask] _]). rewrite Hrun in E. injection E as ->.
  split; [exact Hask|]. intros h p p' H1 H2. specialize (Hst h). unfold stage_of in Hst.
  stage_cases Hst; try by destruct (Hlv p). apply Hlv in H1 as ->. by apply Hlv in H2 as ->.
Qed.

(** C26. The loop does not fall asleep: while a hash waits, the wait timer is armed or
    has fired; while a peer is listed with a hash it announced, a request is
    pending and the timeout timer is armed or has fired, and if the peer itself
    is not asked, a request with hashes is pending, at whose end everything is
    scheduled again. *)
Theorem tracked_is_scheduled evs f :
  (forall e, e ∈ evs -> Fair e.1) -> loop clock evs NewTxFetcher = (Ok tt, f) ->
  (forall h, is_Some (waitlist f !! h) -> waitTimer f <> None \/ (0 < waitTrigger f)%nat) /\
  (forall p, announces f !!! p <> ∅ ->
     (is_Some (requests f !! p) \/ some_pending f) /\ (timeoutTimer f <> None \/ (0 < timeoutTrigger f)%nat)).
Proof.
  intros Hfair E. destruct (loop_inv evs Hfair) as ([] & f' & Hrun & [[[Hst _] _ Hw Hid _] Ht]). rewrite Hrun in E. injection E as ->. split.
  - intros h [ws Hws]. apply Hw. intros E0. specialize (Hst h). unfold stage_of in Hst.
    rewrite E0, lookup_empty, Hws in Hst. stage_cases Hst; congruence.
  - intros p Hp. assert (is_Some (requests f !! p) \/ some_pending f) as Hor.
    { destruct (requests f !! p) eqn:Er; [by left|right]. by apply (Hid p). }
    split; [done|]. apply Ht. intros E0. destruct Hor as [[r Hr]|(q & r & Hr & _)]; by rewrite E0, lookup_empty in Hr.
Qed.

(** What was delivered leaves no trace: after a delivery is handled, in any state
    the loop can be in, none of the maps has one of its hashes. *)
Theorem delivered_untracked evs f o d :
  (forall e, e ∈ evs -> Fair e.1) -> Fair o -> loop clock evs NewTxFetcher = (Ok tt, f) ->
  exists f', pass clock o (Delivered d) f = (Ok tt, f') /\ forall h, h ∈ dl_hashes d -> untracked f' h.
Proof.
  intros Hfair Ho E. destruct (loop_inv evs Hfair) as ([] & f0 & Hrun & Hi). rewrite Hrun in E. injection E as ->.
  destruct (on_delivery_inv _ clock o d f Ho Hi) as ([] & f' & H & _ & Hu). by exists f'.
Qed.

(** ** The limit of a peer *)

(** The hashes [done] of the announcements of one peer are waiting, nothing else
    is known. *)
Definition only_waiting (p : PeerId) (done : gset Hash) (f : TxFetcher) : Prop :=
  (announces f, announced f, alternates f) = (∅, ∅, ∅) /\ (forall h, h ∉ done -> waitlist f !! h = None) /\
  waitslots f !!! p = done.

Lemma notify_new p h done f :
  only_waiting p done f -> h ∉ done -> runs (notify_hash clock p h) f (fun _ => only_waiting p (done ∪ {[h]})).
Proof.
  intros ([= A1 A2 A3] & Hw & Hs) Hh. unfold notify_hash. run. cbn [id]. unfold at_. rewrite A2, A3, !lookup_empty. cbn.
  rewrite (Hw h Hh). run. split; [cbn; congruence|]. split; cbn.
  - intros k [Hk Hne]%not_elem_of_union. rewrite lookup_insert_ne by set_solver. by apply Hw.
  - rewrite add_to_total, decide_True by done. by rewrite Hs.
Qed.

Lemma notify_all_new p l : forall done f,
  only_waiting p done f -> NoDup l -> (forall h, h ∈ l -> h ∉ done) ->
  runs (each l (notify_hash clock p)) f (fun _ => only_waiting p (done ∪ list_to_set l)).
Proof.
  induction l as [|h l IH]; intros done f Hf Hnd Hl; cbn; run.
  { by rewrite (right_id_L ∅ (∪) done). }
  apply NoDup_cons in Hnd as [Hh Hnd]. apply (runs_weaken _ _ _ _ (notify_new p h done f Hf (Hl h ltac:(by left)))).
  intros _ f' Hf'. rewrite (assoc_L (∪)). apply IH; [done|done|]. intros k Hk [Hin| ->%elem_of_singleton]%elem_of_union; [|done].
  by apply (Hl k); [right|].
Qed.

Definition kept (n : nat) : nat := if (maxTxAnnounces <? n)%nat then (n - maxTxAnnounces)%nat else n.

(** The limit on what a peer may announce is applied the wrong way round: of [n]
    new hashes from a peer that announced nothing yet, more than the limit of
    4096, not the first 4096 but the first [n - 4096] are tracked.  One hash
    above the limit leaves one hash, and with more than twice the limit the peer
    occupies more than the limit. *)
Theorem announce_limit o p hashes :
  NoDup hashes ->
  exists f, on_notify clock o {| ann_origin := p; ann_hashes := hashes |} NewTxFetcher = (Ok tt, f) /\
    used p f = kept (length hashes).
Proof.
  intros Hnd. assert (runs (on_notify clock o {| ann_origin := p; ann_hashes := hashes |}) NewTxFetcher
    (fun _ f => used p f = kept (length hashes))) as ([] & f & H); [|by exists f].
  unfold on_notify. run. cbn [ann_origin ann_hashes]. change (used p NewTxFetcher) with 0%nat.
  rewrite (proj2 (Nat.leb_gt maxTxAnnounces 0)) by (unfold maxTxAnnounces; lia). run. rewrite Nat.add_0_l.
  set (l := if (maxTxAnnounces <? length hashes)%nat then _ else _).
  assert (NoDup l /\ length l = kept (length hashes)) as [Hl Hlen].
  { unfold l, kept. destruct (maxTxAnnounces <? length hashes)%nat; [|done].
    split; [exact (sublist_NoDup _ _ Hnd (sublist_take _ _))|]. rewrite length_take. lia. }
  clearbody l. eapply runs_weaken; [apply (notify_all_new p l ∅); [|done|set_solver]|].
  { split; [done|]. split; [intros; apply lookup_empty|]. rewrite total_default. cbn. by rewrite lookup_empty. }
  intros _ f ([= A1 A2 A3] & _ & Hs). run.
  assert (forall f', announces f' = ∅ -> waitslots f' = waitslots f -> used p f' = kept (length hashes)) as Hused.
  { intros f' E1 E2. unfold used. rewrite E1, E2, lookup_empty, <- total_default, Hs. cbn.
    rewrite (left_id_L ∅ (∪)), size_list_to_set by done. rewrite size_empty, Hlen. lia. }
  eapply runs_weaken.
  { instantiate (1 := fun _ f' => announces f' = ∅ /\ waitslots f' = waitslots f).
    destruct (_ && _); [|by run]. apply (runs_weaken _ _ _ _ (rescheduleWait_runs clock o f)).
    by intros _ ? (d & n & ->). }
  intros _ f' [E1 E2]. run. rewrite E1, lookup_empty. cbn. rewrite bool_decide_eq_false_2 by (by intros []).
  rewrite andb_false_r. run. by apply Hused.
Qed.
End Loop.
