(* ===== verification/TxFetcherExamples.v ===== *)
(** * Runs of the transaction fetcher

    A node hears of a transaction from two peers, on which the theorems of the
    fetcher are applied, and a run after which a hash is queued for a peer that
    is gone. *)

From S2P Require Import Prelude EthTypes GethFuzzer CliqueSnapshot TxFetcher TxFetcherSpec TxFetcherLoop.

Module FetcherExample.

Definition plain : Orders := {|
  over_hashes _ := elements; over_peers _ := elements; over_announces _ := elements; rand := None |}.

(** The order of a fetcher under test. *)
Definition rotated : Orders := {|
  over_hashes _ := elements; over_peers _ := elements; over_announces _ := elements; rand := Some (fun _ => 1%nat) |}.

Lemma plain_fair : Fair plain.
Proof. split; intros; apply elem_of_elements. Qed.

Lemma rotated_fair : Fair rotated.
Proof. split; intros; apply elem_of_elements. Qed.

(** Ten seconds pass between two readings. *)
Definition clock (n : nat) : AbsTime := 10000 * Millisecond * Z.of_nat n.

Definition h1 : Hash := replicate 32 Byte.x01.
Definition h2 : Hash := replicate 32 Byte.x02.
Definition announce (p : PeerId) (hs : list Hash) : Orders * event :=
  (rotated, Announced {| ann_origin := p; ann_hashes := hs |}).

(** Two peers announce; when the wait is over, one of them is asked. *)
Definition evs : list (Orders * event) :=
  [announce "ann" [h1; h2]; announce "bob" [h1]; (plain, WaitFires); (rotated, WaitTriggered)].

Lemma evs_fair e : e ∈ evs -> Fair e.1.
Proof.
  unfold evs. rewrite !elem_of_cons. intros [-> |[-> |[-> |[-> |H]]]]; [apply rotated_fair..|apply plain_fair|apply rotated_fair|].
  by apply elem_of_nil in H.
Qed.

Definition state : TxFetcher := (loop clock evs NewTxFetcher).2.

(** The first hash is requested from one peer, with the other as an alternative,
    and the second from its only peer. *)
Example two_requests : sent state = [("bob", [h1]); ("ann", [h2])].
Proof. vm_compute. reflexivity. Qed.

Lemma evs_state : loop clock evs NewTxFetcher = (Ok tt, state).
Proof.
  destruct (loop_inv clock evs evs_fair) as ([] & f & Hf & _). unfold state. by rewrite Hf.
Qed.

Lemma fetcher_never_panics_witness :
  exists f, loop clock evs NewTxFetcher = (Ok tt, f) /\
    (forall h, stage_of (announced_in evs) (waitslots f) (announces f) (requests f) f h) /\
    (forall p r, requests f !! p = Some r -> request_ok r).
Proof. exact (fetcher_never_panics clock evs evs_fair). Defined.

Lemma requests_justified_witness :
  (forall p hs, (p, hs) ∈ sent state ->
     hs <> [] /\ NoDup hs /\ (length hs <= maxTxRetrievals)%nat /\ forall h, h ∈ hs -> announced_in evs p h) /\
  (forall h p p', live (requests state) h p -> live (requests state) h p' -> p = p').
Proof. exact (requests_justified clock evs state evs_fair evs_state). Defined.

Lemma tracked_is_scheduled_witness :
  (forall h, is_Some (waitlist state !! h) -> waitTimer state <> None \/ (0 < waitTrigger state)%nat) /\
  (forall p, announces state !!! p <> ∅ ->
     (is_Some (requests state !! p) \/ some_pending state) /\
     (timeoutTimer state <> None \/ (0 < timeoutTrigger state)%nat)).
Proof. exact (tracked_is_scheduled clock evs state evs_fair evs_state). Defined.

(** The second peer delivers what it was asked for, and the other transaction as
    well. *)
Definition delivery : txDelivery := {| dl_origin := "ann"; dl_hashes := [h1; h2]; direct := true |}.

Lemma delivered_untracked_witness :
  exists f', pass clock plain (Delivered delivery) state = (Ok tt, f') /\ forall h, h ∈ [h1; h2] -> untracked f' h.
Proof. exact (delivered_untracked clock evs state plain delivery evs_fair plain_fair evs_state). Defined.

(** ** Hashes that are left behind

    The comment of [TxFetcher] says that there is no data leak, and the one of
    the disconnect that all traces of the peer are removed.  A peer that is an
    alternative origin of a hash requested from another one stays one: when that
    request times out, the hash is queued for a peer that is gone, where nothing
    but a new announcement or a broadcast of the transaction removes it. *)
Definition leaking : list (Orders * event) :=
  evs ++ [(plain, Dropped "ann"); (plain, TimeoutFires); (plain, TimeoutTriggered); (plain, Dropped "bob")].

Definition left_behind : TxFetcher := (loop clock leaking NewTxFetcher).2.

Theorem disconnected_peer_leaks :
  (loop clock leaking NewTxFetcher).1 = Ok tt /\ announced left_behind !! h1 = Some (Some {["ann"]}) /\
  announces left_behind = ∅ /\ requests left_behind = ∅ /\ waitlist left_behind = ∅.
Proof. vm_compute. split_and!; reflexivity. Qed.

(** Announcing one hash more than the limit leaves one. *)
Definition numbered (n : nat) : list Hash := (fun i => replicate i Byte.x00) <$> seq 0 n.

Lemma numbered_NoDup n : NoDup (numbered n).
Proof.
  apply NoDup_fmap_2_strong; [|apply NoDup_seq]. intros x y _ _ E. apply (f_equal length) in E.
  by rewrite !length_replicate in E.
Qed.

Lemma announce_limit_witness :
  exists f, on_notify clock plain {| ann_origin := "ann"; ann_hashes := numbered (S maxTxAnnounces) |} NewTxFetcher =
    (Ok tt, f) /\ used "ann" f = kept (length (numbered (S maxTxAnnounces))).
Proof. exact (announce_limit clock plain "ann" (numbered (S maxTxAnnounces)) (numbered_NoDup _)). Defined.

Example one_is_kept : kept (length (numbered (S maxTxAnnounces))) = 1%nat.
Proof. unfold numbered. rewrite length_fmap, length_seq. reflexivity. Qed.

Lemma Enqueue_reports_witness :
  exists f', Enqueue plain (fun _ => []) "ann" [] true NewTxFetcher =
    (Ok {| dl_origin := "ann"; dl_hashes := []; direct := true |}, f') /\
    (size (underpriced f') <= maxTxUnderpricedSetSize)%nat.
Proof. apply (Enqueue_reports plain (fun _ => []) "ann" [] true NewTxFetcher plain_fair eq_refl). apply Nat.le_0_l. Defined.

End FetcherExample.
