(* ===== verification/BlockFetcher.v ===== *)
(** * The block fetcher

    eth/fetcher/block_fetcher.go: the component that hears of blocks, by hash or
    whole, retrieves header and body of announced ones, and imports blocks in the
    order of their numbers; with common/prque, the priority queue it keeps them
    in.

    The state is the one of the struct and of the timers of [loop].  A pass of the
    loop, [bf_pass], expires fetches, imports from the queue and handles the case
    of [select] that was chosen.  Every call to the clock or to the chain takes
    the next of a sequence of readings, since the chain changes while the loop
    runs.  Goroutines are represented by what they are started with: [calls]
    lists the requests to peers, the peers that are dropped and the imports, and
    [importing] has the hashes whose import has not yet reported on the channel
    [done]; what an import does is [importBlocks_calls].  An announcement that is
    in two maps is one object in the code; where it is updated, both are.  The
    queue is a slice here, which the code cuts into blocks of 4096 items.  The
    hooks of tests, metrics and logging are left out. *)

From S2P Require Import Prelude Rlp EthTypes CliqueSnapshot Clique Randomness GethFuzzer GoHeap TxByPrice Miner TxFetcher.

Definition lightTimeout : Z := Millisecond.
Definition arriveTimeout : Z := 500 * Millisecond.
Definition fetchTimeout : Z := 5000 * Millisecond.
Definition maxUncleDist : Z := 7.
Definition maxQueueDist : Z := 32.
Definition hashLimit : Z := 256.
Definition blockLimit : Z := 64.

(** ** State *)

(** The functions that retrieve header and body belong to the peer of origin.
    [geth:eth/fetcher/block_fetcher.go] blockAnnounce *)
Record blockAnnounce := {
  ba_hash : Hash;
  ba_number : Z;
  ba_header : option Header;
  ba_time : Z;
  ba_origin : PeerId;
}.

(** [geth:eth/fetcher/block_fetcher.go] blockOrHeaderInject *)
Record blockOrHeaderInject := { in_origin : PeerId; in_header : option Header; in_block : option FullBlock }.

(** An entry of the queue.
    [geth:common/prque/sstack.go] item *)
Record item := { it_value : blockOrHeaderInject; it_priority : Z }.

(** What the loop has others do. *)
Inductive call :=
| FetchHeader (peer : PeerId) (h : Hash)
| FetchBodies (peer : PeerId) (hs : list Hash)
| DropPeer (peer : PeerId)
| Import (op : blockOrHeaderInject).

(** [geth:eth/fetcher/block_fetcher.go] BlockFetcher *)
Record BlockFetcher := {
  light : bool;
  bf_announces : gmap PeerId Z;
  bf_announced : gmap Hash (list blockAnnounce);
  bf_fetching : gmap Hash blockAnnounce;
  bf_fetched : gmap Hash (list blockAnnounce);
  bf_completing : gmap Hash blockAnnounce;
  bf_queue : list item;
  bf_queues : gmap PeerId Z;
  bf_queued : gmap Hash blockOrHeaderInject;
  fetchTimer : option Z;
  completeTimer : option Z;
  fetchC : bool;
  completeC : bool;
  importing : list Hash;
  calls : list call;
  ticks : nat;
}.

Definition set_bf_announces x (f : BlockFetcher) : BlockFetcher := {|
  light := light f; bf_announces := x; bf_announced := bf_announced f; bf_fetching := bf_fetching f;
  bf_fetched := bf_fetched f; bf_completing := bf_completing f; bf_queue := bf_queue f; bf_queues := bf_queues
  f; bf_queued := bf_queued f; fetchTimer := fetchTimer f; completeTimer := completeTimer f; fetchC := fetchC
  f; completeC := completeC f; importing := importing f; calls := calls f; ticks := ticks f |}.
Definition set_bf_announced x (f : BlockFetcher) : BlockFetcher := {|
  light := light f; bf_announces := bf_announces f; bf_announced := x; bf_fetching := bf_fetching f;
  bf_fetched := bf_fetched f; bf_completing := bf_completing f; bf_queue := bf_queue f; bf_queues := bf_queues
  f; bf_queued := bf_queued f; fetchTimer := fetchTimer f; completeTimer := completeTimer f; fetchC := fetchC
  f; completeC := completeC f; importing := importing f; calls := calls f; ticks := ticks f |}.
Definition set_bf_fetching x (f : BlockFetcher) : BlockFetcher := {|
  light := light f; bf_announces := bf_announces f; bf_announced := bf_announced f; bf_fetching := x;
  bf_fetched := bf_fetched f; bf_completing := bf_completing f; bf_queue := bf_queue f; bf_queues := bf_queues
  f; bf_queued := bf_queued f; fetchTimer := fetchTimer f; completeTimer := completeTimer f; fetchC := fetchC
  f; completeC := completeC f; importing := importing f; calls := calls f; ticks := ticks f |}.
Definition set_bf_fetched x (f : BlockFetcher) : BlockFetcher := {|
  light := light f; bf_announces := bf_announces f; bf_announced := bf_announced f; bf_fetching := bf_fetching
  f; bf_fetched := x; bf_completing := bf_completing f; bf_queue := bf_queue f; bf_queues := bf_queues f;
  bf_queued := bf_queued f; fetchTimer := fetchTimer f; completeTimer := completeTimer f; fetchC := fetchC f;
  completeC := completeC f; importing := importing f; calls := calls f; ticks := ticks f |}.
Definition set_bf_completing x (f : BlockFetcher) : BlockFetcher := {|
  light := light f; bf_announces := bf_announces f; bf_announced := bf_announced f; bf_fetching := bf_fetching
  f; bf_fetched := bf_fetched f; bf_completing := x; bf_queue := bf_queue f; bf_queues := bf_queues f;
  bf_queued := bf_queued f; fetchTimer := fetchTimer f; completeTimer := completeTimer f; fetchC := fetchC f;
  completeC := completeC f; importing := importing f; calls := calls f; ticks := ticks f |}.
Definition set_bf_queue x (f : BlockFetcher) : BlockFetcher := {|
  light := light f; bf_announces := bf_announces f; bf_announced := bf_announced f; bf_fetching := bf_fetching
  f; bf_fetched := bf_fetched f; bf_completing := bf_completing f; bf_queue := x; bf_queues := bf_queues f;
  bf_queued := bf_queued f; fetchTimer := fetchTimer f; completeTimer := completeTimer f; fetchC := fetchC f;
  completeC := completeC f; importing := importing f; calls := calls f; ticks := ticks f |}.
Definition set_bf_queues x (f : BlockFetcher) : BlockFetcher := {|
  light := light f; bf_announces := bf_announces f; bf_announced := bf_announced f; bf_fetching := bf_fetching
  f; bf_fetched := bf_fetched f; bf_completing := bf_completing f; bf_queue := bf_queue f; bf_queues := x;
  bf_queued := bf_queued f; fetchTimer := fetchTimer f; completeTimer := completeTimer f; fetchC := fetchC f;
  completeC := completeC f; importing := importing f; calls := calls f; ticks := ticks f |}.
Definition set_bf_queued x (f : BlockFetcher) : BlockFetcher := {|
  light := light f; bf_announces := bf_announces f; bf_announced := bf_announced f; bf_fetching := bf_fetching
  f; bf_fetched := bf_fetched f; bf_completing := bf_completing f; bf_queue := bf_queue f; bf_queues :=
  bf_queues f; bf_queued := x; fetchTimer := fetchTimer f; completeTimer := completeTimer f; fetchC := fetchC
  f; completeC := completeC f; importing := importing f; calls := calls f; ticks := ticks f |}.
Definition set_fetchTimer x (f : BlockFetcher) : BlockFetcher := {|
  light := light f; bf_announces := bf_announces f; bf_announced := bf_announced f; bf_fetching := bf_fetching
  f; bf_fetched := bf_fetched f; bf_completing := bf_completing f; bf_queue := bf_queue f; bf_queues :=
  bf_queues f; bf_queued := bf_queued f; fetchTimer := x; completeTimer := completeTimer f; fetchC := fetchC
  f; completeC := completeC f; importing := importing f; calls := calls f; ticks := ticks f |}.
Definition set_completeTimer x (f : BlockFetcher) : BlockFetcher := {|
  light := light f; bf_announces := bf_announces f; bf_announced := bf_announced f; bf_fetching := bf_fetching
  f; bf_fetched := bf_fetched f; bf_completing := bf_completing f; bf_queue := bf_queue f; bf_queues :=
  bf_queues f; bf_queued := bf_queued f; fetchTimer := fetchTimer f; completeTimer := x; fetchC := fetchC f;
  completeC := completeC f; importing := importing f; calls := calls f; ticks := ticks f |}.
Definition set_fetchC x (f : BlockFetcher) : BlockFetcher := {|
  light := light f; bf_announces := bf_announces f; bf_announced := bf_announced f; bf_fetching := bf_fetching
  f; bf_fetched := bf_fetched f; bf_completing := bf_completing f; bf_queue := bf_queue f; bf_queues :=
  bf_queues f; bf_queued := bf_queued f; fetchTimer := fetchTimer f; completeTimer := completeTimer f; fetchC
  := x; completeC := completeC f; importing := importing f; calls := calls f; ticks := ticks f |}.
Definition set_completeC x (f : BlockFetcher) : BlockFetcher := {|
  light := light f; bf_announces := bf_announces f; bf_announced := bf_announced f; bf_fetching := bf_fetching
  f; bf_fetched := bf_fetched f; bf_completing := bf_completing f; bf_queue := bf_queue f; bf_queues :=
  bf_queues f; bf_queued := bf_queued f; fetchTimer := fetchTimer f; completeTimer := completeTimer f; fetchC
  := fetchC f; completeC := x; importing := importing f; calls := calls f; ticks := ticks f |}.
Definition set_importing x (f : BlockFetcher) : BlockFetcher := {|
  light := light f; bf_announces := bf_announces f; bf_announced := bf_announced f; bf_fetching := bf_fetching
  f; bf_fetched := bf_fetched f; bf_completing := bf_completing f; bf_queue := bf_queue f; bf_queues :=
  bf_queues f; bf_queued := bf_queued f; fetchTimer := fetchTimer f; completeTimer := completeTimer f; fetchC
  := fetchC f; completeC := completeC f; importing := x; calls := calls f; ticks := ticks f |}.
Definition set_calls x (f : BlockFetcher) : BlockFetcher := {|
  light := light f; bf_announces := bf_announces f; bf_announced := bf_announced f; bf_fetching := bf_fetching
  f; bf_fetched := bf_fetched f; bf_completing := bf_completing f; bf_queue := bf_queue f; bf_queues :=
  bf_queues f; bf_queued := bf_queued f; fetchTimer := fetchTimer f; completeTimer := completeTimer f; fetchC
  := fetchC f; completeC := completeC f; importing := importing f; calls := x; ticks := ticks f |}.
Definition set_ticks x (f : BlockFetcher) : BlockFetcher := {|
  light := light f; bf_announces := bf_announces f; bf_announced := bf_announced f; bf_fetching := bf_fetching
  f; bf_fetched := bf_fetched f; bf_completing := bf_completing f; bf_queue := bf_queue f; bf_queues :=
  bf_queues f; bf_queued := bf_queued f; fetchTimer := fetchTimer f; completeTimer := completeTimer f; fetchC
  := fetchC f; completeC := completeC f; importing := importing f; calls := calls f; ticks := x |}.

(** [geth:eth/fetcher/block_fetcher.go] NewBlockFetcher *)
Definition NewBlockFetcher (light_ : bool) : BlockFetcher := {|
  light := light_; bf_announces := ∅; bf_announced := ∅; bf_fetching := ∅; bf_fetched := ∅; bf_completing := ∅;
  bf_queue := []; bf_queues := ∅; bf_queued := ∅; fetchTimer := None; completeTimer := None;
  fetchC := false; completeC := false; importing := []; calls := []; ticks := 0 |}.

(** ** The queue *)

(** The greatest priority first.
    [geth:common/prque/sstack.go] sstack.Less *)
Definition higher (a b : item) : bool := it_priority b <? it_priority a.

(** [geth:common/prque/prque.go] Prque.Push *)
Definition Prque_Push (op : blockOrHeaderInject) (priority : Z) (q : list item) : list item :=
  heap_Push higher q {| it_value := op; it_priority := priority |}.

(** [geth:common/prque/prque.go] Prque.PopItem *)
Definition Prque_PopItem (q : list item) : outcome (blockOrHeaderInject * list item) :=
  '(x, q') ← heap_Pop higher q;
  mret (it_value x, q').

(** ** Operations *)

(** What the run time chooses during a pass: the orders of the ranges over maps
    and the draws of [rand.Intn]. *)
Record BlockOrders := {
  over_keys : nat -> gset Hash -> list Hash;
  over_origins : gset PeerId -> list PeerId;
  draw : Hash -> nat;
}.

Section Fetcher.
Context {Crypto : EthCrypto} {TH : TrieHasher} {ME : MinerEnv}.

(** [geth:eth/fetcher/block_fetcher.go] blockOrHeaderInject.number *)
Definition inject_number (op : blockOrHeaderInject) : outcome Z :=
  match in_header op, in_block op with
  | Some h, _ => number_of h
  | None, Some b => NumberU64 b
  | None, None => Panic "invalid memory address or nil pointer dereference"
  end.

(** [geth:eth/fetcher/block_fetcher.go] blockOrHeaderInject.hash *)
Definition inject_hash (op : blockOrHeaderInject) : outcome Hash :=
  match in_header op, in_block op with
  | Some h, _ => Ok (header_hash h)
  | None, Some b => Ok (block_Hash b)
  | None, None => Panic "invalid memory address or nil pointer dereference"
  end.

(** The readings of the clock and of the chain. *)
Context (bclock : nat -> Z) (height : nat -> Z) (hasHeader hasBlock : nat -> Hash -> bool).

Definition read {A} (g : nat -> A) : StM BlockFetcher A :=
  fun f => (Ok (g (ticks f)), set_ticks (S (ticks f)) f).

(** *** Forgetting *)

(** [f.announces[origin]--], with the entry deleted at zero. *)
Definition discount (origin : PeerId) (m : gmap PeerId Z) : gmap PeerId Z :=
  let c := default 0 (m !! origin) - 1 in
  if c <=? 0 then delete origin m else <[origin := c]> m.

Definition discount_all (l : list blockAnnounce) (m : gmap PeerId Z) : gmap PeerId Z :=
  fold_left (fun m a => discount (ba_origin a) m) l m.

(** [geth:eth/fetcher/block_fetcher.go] BlockFetcher.forgetHash *)
Definition forgetHash (h : Hash) : StM BlockFetcher unit :=
  _ ← putS (fun f => match bf_announced f !! h with
                     | Some l => set_bf_announced (delete h (bf_announced f))
                                   (set_bf_announces (discount_all l (bf_announces f)) f)
                     | None => f
                     end);
  _ ← putS (fun f => match bf_fetching f !! h with
                     | Some a => set_bf_fetching (delete h (bf_fetching f))
                                   (set_bf_announces (discount (ba_origin a) (bf_announces f)) f)
                     | None => f
                     end);
  _ ← putS (fun f => set_bf_fetched (delete h (bf_fetched f))
                       (set_bf_announces (discount_all (default [] (bf_fetched f !! h)) (bf_announces f)) f));
  putS (fun f => match bf_completing f !! h with
                 | Some a => set_bf_completing (delete h (bf_completing f))
                               (set_bf_announces (discount (ba_origin a) (bf_announces f)) f)
                 | None => f
                 end).

(** [geth:eth/fetcher/block_fetcher.go] BlockFetcher.forgetBlock *)
Definition forgetBlock (h : Hash) : StM BlockFetcher unit :=
  putS (fun f =>
    match bf_queued f !! h with
    | Some op =>
        let c := default 0 (bf_queues f !! in_origin op) - 1 in
        set_bf_queued (delete h (bf_queued f))
          (set_bf_queues (if c =? 0 then delete (in_origin op) (bf_queues f)
                          else <[in_origin op := c]> (bf_queues f)) f)
    | None => f
    end).

(** *** Timers *)

(** [timer.Reset]. *)
Definition earliest_announce (now : Z) (m : gmap Hash (list blockAnnounce)) (order : list Hash) : outcome Z :=
  foldl (fun acc h =>
    earliest ← acc;
    match m !! h with
    | None => Ok earliest
    | Some [] => Panic "index out of range [0] with length 0"
    | Some (a :: _) => Ok (if ba_time a <? earliest then ba_time a else earliest)
    end) (Ok now) order.

(** [geth:eth/fetcher/block_fetcher.go] BlockFetcher.rescheduleFetch *)
Definition rescheduleFetch (o : BlockOrders) : StM BlockFetcher unit :=
  f ← getS id;
  if bool_decide (bf_announced f = ∅) then mret tt
  else if light f then
    now ← read bclock;
    putS (set_fetchTimer (Some (now + lightTimeout)))
  else
    now ← read bclock;
    earliest ← pure (earliest_announce now (bf_announced f) (over_keys o 2 (dom (bf_announced f))));
    now ← read bclock;
    start ← read bclock;
    putS (set_fetchTimer (Some (start + (arriveTimeout - (now - earliest))))).

(** [geth:eth/fetcher/block_fetcher.go] BlockFetcher.rescheduleComplete *)
Definition rescheduleComplete (o : BlockOrders) : StM BlockFetcher unit :=
  f ← getS id;
  if bool_decide (bf_fetched f = ∅) then mret tt
  else
    now ← read bclock;
    earliest ← pure (earliest_announce now (bf_fetched f) (over_keys o 3 (dom (bf_fetched f))));
    now ← read bclock;
    start ← read bclock;
    putS (set_completeTimer (Some (start + (gatherSlack - (now - earliest))))).

(** *** The import queue *)

(** The distance of a number from the head of the chain is acceptable. *)
Definition near (number head : Z) : bool :=
  let dist := i64 (i64 number - i64 head) in
  negb ((dist <? - maxUncleDist) || (maxQueueDist <? dist)).

(** [geth:eth/fetcher/block_fetcher.go] BlockFetcher.enqueue *)
Definition enqueue (peer : PeerId) (header : option Header) (block : option FullBlock) : StM BlockFetcher unit :=
  let op := {| in_origin := peer; in_header := header; in_block := if header is Some _ then None else block |} in
  hash ← pure (inject_hash op);
  number ← pure (inject_number op);
  count ← getS (fun f => default 0 (bf_queues f !! peer) + 1);
  if blockLimit <? count then forgetHash hash
  else
    head ← read height;
    if negb (near number head) then forgetHash hash
    else
      fresh ← getS (fun f => bool_decide (bf_queued f !! hash = None));
      if (fresh : bool) then
        _ ← putS (fun f => set_bf_queues (<[peer := count]> (bf_queues f)) f);
        _ ← putS (fun f => set_bf_queued (<[hash := op]> (bf_queued f)) f);
        putS (fun f => set_bf_queue (Prque_Push op (i64 (- i64 number)) (bf_queue f)) f)
      else mret tt.

(** The parts of an import that talk to others: whether the parent is known, the
    outcome of the verification of the header, and that of the insertion. *)
Inductive import_step := DropOrigin | Propagate | Insert | Announce.
Inductive verified := HeaderValid | FutureBlock | HeaderInvalid.

(** [geth:eth/fetcher/block_fetcher.go] BlockFetcher.importBlocks *)
Definition importBlocks_calls (parent : bool) (verify : verified) (inserted : bool) : list import_step :=
  if parent then
    match verify with
    | HeaderInvalid => [DropOrigin]
    | v => (if v is HeaderValid then [Propagate] else []) ++ Insert :: (if inserted then [Announce] else [])
    end
  else [].

(** [geth:eth/fetcher/block_fetcher.go] BlockFetcher.importHeaders *)
Definition importHeaders_calls (parent : bool) (verify : verified) : list import_step :=
  if parent then if verify is HeaderInvalid then [DropOrigin] else [Insert] else [].

(** Imports what fits on the chain and is not known; a number above the next one
    ends the loop.  Every pass takes an entry out, so the length of the queue is
    enough fuel.
    [geth:eth/fetcher/block_fetcher.go:352-376] BlockFetcher.loop *)
Fixpoint import_queue (fuel : nat) (head : Z) : StM BlockFetcher unit :=
  match fuel with
  | 0%nat => mret tt
  | S fuel =>
      empty ← getS (fun f => bool_decide (bf_queue f = []));
      if (empty : bool) then mret tt
      else
        '(op, rest) ← askS (fun f => Prque_PopItem (bf_queue f));
        _ ← putS (set_bf_queue rest);
        hash ← pure (inject_hash op);
        number ← pure (inject_number op);
        if u64 (head + 1) <? number then
          putS (fun f => set_bf_queue (Prque_Push op (i64 (- i64 number)) (bf_queue f)) f)
        else
          isLight ← getS light;
          stale ← (if u64 (number + maxUncleDist) <? head then mret true
                   else read (fun n => (if isLight : bool then hasHeader else hasBlock) n hash));
          if (stale : bool) then
            _ ← forgetBlock hash;
            import_queue fuel head
          else
            _ ← pure (match isLight, in_header op, in_block op with
                      | true, Some _, _ | false, _, Some _ => Ok tt
                      | _, _, _ => Panic "invalid memory address or nil pointer dereference"
                      end);
            _ ← putS (fun f => set_importing (importing f ++ [hash]) (set_calls (calls f ++ [Import op]) f));
            import_queue fuel head
  end.

(** *** Announcements *)

(** [geth:eth/fetcher/block_fetcher.go:384-416] BlockFetcher.loop *)
Definition on_announce (o : BlockOrders) (n : blockAnnounce) : StM BlockFetcher unit :=
  count ← getS (fun f => default 0 (bf_announces f !! ba_origin n) + 1);
  if hashLimit <? count then mret tt
  else
    useful ← (if 0 <? ba_number n then
                head ← read height;
                mret (near (ba_number n) head)
              else mret true);
    if negb useful then mret tt
    else
      f ← getS id;
      if bool_decide (is_Some (bf_fetching f !! ba_hash n)) || bool_decide (is_Some (bf_completing f !! ba_hash n))
      then mret tt
      else
        _ ← putS (set_bf_announces (<[ba_origin n := count]> (bf_announces f)));
        _ ← putS (set_bf_announced (<[ba_hash n := default [] (bf_announced f !! ba_hash n) ++ [n]]> (bf_announced f)));
        one ← getS (fun f => bool_decide (size (bf_announced f) = 1%nat));
        if (one : bool) then rescheduleFetch o else mret tt.

(** The block was sent whole; a light fetcher ignores it.
    [geth:eth/fetcher/block_fetcher.go:418-427] BlockFetcher.loop *)
Definition on_inject (peer : PeerId) (b : FullBlock) : StM BlockFetcher unit :=
  isLight ← getS light;
  if (isLight : bool) then mret tt else enqueue peer None (Some b).

(** [geth:eth/fetcher/block_fetcher.go:429-432] BlockFetcher.loop *)
Definition on_done (h : Hash) : StM BlockFetcher unit :=
  _ ← forgetHash h;
  forgetBlock h.

(** *** Retrieval of headers and bodies *)

(** One of the announcements of a hash, drawn at random. *)
Definition draw_announce (o : BlockOrders) (h : Hash) (l : list blockAnnounce) : outcome blockAnnounce :=
  match l !! (draw o h mod length l)%nat with
  | Some a => Ok a
  | None => Panic "invalid argument to Intn"
  end.

Definition add_request (a : blockAnnounce) (h : Hash) (request : gmap PeerId (list Hash)) : gmap PeerId (list Hash) :=
  <[ba_origin a := default [] (request !! ba_origin a) ++ [h]]> request.

(** [geth:eth/fetcher/block_fetcher.go:438-456] BlockFetcher.loop *)
Definition fetch_hash (o : BlockOrders) (request : gmap PeerId (list Hash)) (h : Hash) :
    StM BlockFetcher (gmap PeerId (list Hash)) :=
  f ← getS id;
  match bf_announced f !! h with
  | None => mret request
  | Some l =>
      let timeout := if light f then 0 else arriveTimeout - gatherSlack in
      now ← read bclock;
      first ← pure match l with a :: _ => Ok a | [] => Panic "index out of range [0] with length 0" end;
      if (timeout <? now - ba_time first) then
        announce ← pure (draw_announce o h l);
        _ ← forgetHash h;
        missing ← read (fun n => negb ((if light f then hasHeader else hasBlock) n h));
        if (missing : bool) then
          _ ← putS (fun f => set_bf_fetching (<[h := announce]> (bf_fetching f)) f);
          mret (add_request announce h request)
        else mret request
      else mret request
  end.

Fixpoint fetch_hashes (o : BlockOrders) (request : gmap PeerId (list Hash)) (l : list Hash) :
    StM BlockFetcher (gmap PeerId (list Hash)) :=
  match l with
  | [] => mret request
  | h :: l => request ← fetch_hash o request h; fetch_hashes o request l
  end.

(** A goroutine per peer asks for its headers, with the function of the
    announcement of the first hash.
    [geth:eth/fetcher/block_fetcher.go:458-472] BlockFetcher.loop *)
Definition send_headers (request : gmap PeerId (list Hash)) (peer : PeerId) : StM BlockFetcher unit :=
  let hashes := default [] (request !! peer) in
  f ← getS id;
  match hashes with
  | [] => pure (Panic "index out of range [0] with length 0")
  | h :: _ =>
      match bf_fetching f !! h with
      | Some a => putS (set_calls (calls f ++ (FetchHeader (ba_origin a) <$> hashes)))
      | None => pure (Panic "invalid memory address or nil pointer dereference")
      end
  end.

(** [geth:eth/fetcher/block_fetcher.go:434-474] BlockFetcher.loop *)
Definition on_fetch (o : BlockOrders) : StM BlockFetcher unit :=
  keys ← getS (fun f => over_keys o 1 (dom (bf_announced f)));
  request ← fetch_hashes o ∅ keys;
  _ ← each (over_origins o (dom request)) (send_headers request);
  rescheduleFetch o.

(** [geth:eth/fetcher/block_fetcher.go:480-490] BlockFetcher.loop *)
Definition complete_hash (o : BlockOrders) (request : gmap PeerId (list Hash)) (h : Hash) :
    StM BlockFetcher (gmap PeerId (list Hash)) :=
  f ← getS id;
  match bf_fetched f !! h with
  | None => mret request
  | Some l =>
      announce ← pure (draw_announce o h l);
      _ ← forgetHash h;
      missing ← read (fun n => negb (hasBlock n h));
      if (missing : bool) then
        _ ← putS (fun f => set_bf_completing (<[h := announce]> (bf_completing f)) f);
        mret (add_request announce h request)
      else mret request
  end.

Fixpoint complete_hashes (o : BlockOrders) (request : gmap PeerId (list Hash)) (l : list Hash) :
    StM BlockFetcher (gmap PeerId (list Hash)) :=
  match l with
  | [] => mret request
  | h :: l => request ← complete_hash o request h; complete_hashes o request l
  end.

(** [geth:eth/fetcher/block_fetcher.go:492-501] BlockFetcher.loop *)
Definition send_bodies (request : gmap PeerId (list Hash)) (peer : PeerId) : StM BlockFetcher unit :=
  let hashes := default [] (request !! peer) in
  f ← getS id;
  match hashes with
  | [] => pure (Panic "index out of range [0] with length 0")
  | h :: _ =>
      match bf_completing f !! h with
      | Some a => putS (set_calls (calls f ++ [FetchBodies (ba_origin a) hashes]))
      | None => pure (Panic "invalid memory address or nil pointer dereference")
      end
  end.

(** [geth:eth/fetcher/block_fetcher.go:476-503] BlockFetcher.loop *)
Definition on_complete (o : BlockOrders) : StM BlockFetcher unit :=
  keys ← getS (fun f => over_keys o 1 (dom (bf_fetched f)));
  request ← complete_hashes o ∅ keys;
  _ ← each (over_origins o (dom request)) (send_bodies request);
  rescheduleComplete o.

(** *** Headers *)

(** [geth:core/types/block.go] NewBlockWithHeader *)
Definition NewBlockWithHeader (h : Header) : FullBlock :=
  {| header := CopyHeader h; transactions := []; uncles := [] |}.

(** [geth:core/types/block.go] Block.WithBody *)
Definition WithBody (b : FullBlock) (txs : list Tx) (us : list Header) : FullBlock :=
  {| header := CopyHeader (header b); transactions := txs; uncles := CopyHeader <$> us |}.

(** The header that was retrieved for an announcement. *)
Definition with_header (h : Header) (time : Z) (a : blockAnnounce) : blockAnnounce := {|
  ba_hash := ba_hash a; ba_number := ba_number a; ba_header := Some h; ba_time := time; ba_origin := ba_origin a |}.

(** The batch of headers, split. *)
Record split := {
  unknown : list Header;
  incomplete : list blockAnnounce;
  complete : list FullBlock;
  lightHeaders : list blockAnnounce;
}.

Definition requested_from (peer : PeerId) (h : Hash) (f : BlockFetcher) : option blockAnnounce :=
  match bf_fetching f !! h with
  | Some a => if bool_decide (ba_origin a = peer /\ bf_fetched f !! h = None /\ bf_completing f !! h = None /\
                              bf_queued f !! h = None) then Some a else None
  | None => None
  end.

(** [geth:eth/fetcher/block_fetcher.go:520-568] BlockFetcher.loop *)
Definition filter_header (peer : PeerId) (time : Z) (acc : split) (h : Header) : StM BlockFetcher split :=
  let hash := header_hash h in
  f ← getS id;
  match requested_from peer hash f with
  | None => mret {| unknown := unknown acc ++ [h]; incomplete := incomplete acc; complete := complete acc;
                    lightHeaders := lightHeaders acc |}
  | Some a =>
      number ← pure (number_of h);
      if negb (number =? ba_number a) then
        _ ← putS (set_calls (calls f ++ [DropPeer (ba_origin a)]));
        _ ← forgetHash hash;
        mret acc
      else if light f then
        missing ← read (fun n => negb (hasHeader n hash));
        _ ← forgetHash hash;
        mret (if (missing : bool) then
                {| unknown := unknown acc; incomplete := incomplete acc; complete := complete acc;
                   lightHeaders := lightHeaders acc ++ [with_header h (ba_time a) a] |}
              else acc)
      else
        missing ← read (fun n => negb (hasBlock n hash));
        if (missing : bool) then
          let a := with_header h time a in
          _ ← putS (fun f => set_bf_fetching (<[hash := a]> (bf_fetching f)) f);
          if bool_decide (TxHash h = EmptyRootHash) && bool_decide (UncleHash h = uncleHash) then
            _ ← putS (fun f => set_bf_completing (<[hash := a]> (bf_completing f)) f);
            mret {| unknown := unknown acc; incomplete := incomplete acc;
                    complete := complete acc ++ [NewBlockWithHeader h]; lightHeaders := lightHeaders acc |}
          else mret {| unknown := unknown acc; incomplete := incomplete acc ++ [a]; complete := complete acc;
                       lightHeaders := lightHeaders acc |}
        else
          _ ← forgetHash hash;
          mret acc
  end.

Fixpoint filter_headers (peer : PeerId) (time : Z) (acc : split) (l : list Header) : StM BlockFetcher split :=
  match l with
  | [] => mret acc
  | h :: l => acc ← filter_header peer time acc h; filter_headers peer time acc l
  end.

(** The header of an announcement whose header was retrieved. *)
Definition header_of (a : blockAnnounce) : outcome Header :=
  match ba_header a with Some h => Ok h | None => Panic "invalid memory address or nil pointer dereference" end.

(** [geth:eth/fetcher/block_fetcher.go:576-585] BlockFetcher.loop *)
Definition schedule_body (o : BlockOrders) (a : blockAnnounce) : StM BlockFetcher unit :=
  h ← pure (header_of a);
  let hash := header_hash h in
  f ← getS id;
  if bool_decide (is_Some (bf_completing f !! hash)) then mret tt
  else
    _ ← putS (set_bf_fetched (<[hash := default [] (bf_fetched f !! hash) ++ [a]]> (bf_fetched f)));
    one ← getS (fun f => bool_decide (size (bf_fetched f) = 1%nat));
    if (one : bool) then rescheduleComplete o else mret tt.

(** [geth:eth/fetcher/block_fetcher.go:591-595] BlockFetcher.loop *)
Definition enqueue_completed (b : FullBlock) : StM BlockFetcher unit :=
  a ← getS (fun f => bf_completing f !! block_Hash b);
  match a with
  | Some a => enqueue (ba_origin a) None (Some b)
  | None => mret tt
  end.

(** The headers the fetcher did not ask for are returned.
    [geth:eth/fetcher/block_fetcher.go:505-595] BlockFetcher.loop
    [geth:eth/fetcher/block_fetcher.go] BlockFetcher.FilterHeaders *)
Definition on_headers (o : BlockOrders) (peer : PeerId) (headers : list Header) (time : Z) :
    StM BlockFetcher (list Header) :=
  r ← filter_headers peer time {| unknown := []; incomplete := []; complete := []; lightHeaders := [] |} headers;
  _ ← each (incomplete r) (schedule_body o);
  _ ← each (lightHeaders r) (fun a => enqueue (ba_origin a) (ba_header a) None);
  _ ← each (complete r) enqueue_completed;
  mret (unknown r).

(** *** Bodies *)

(** A body is compared with what is being completed by the peer; all that match
    are assembled.
    [geth:eth/fetcher/block_fetcher.go:616-641] BlockFetcher.loop *)
Fixpoint match_body (peer : PeerId) (txs : list Tx) (us : list Header) (keys : list Hash) :
    StM BlockFetcher (bool * list FullBlock) :=
  match keys with
  | [] => mret (false, [])
  | h :: keys =>
      f ← getS id;
      match bf_completing f !! h with
      | None => match_body peer txs us keys
      | Some a =>
          if bool_decide (is_Some (bf_queued f !! h)) || bool_decide (ba_origin a <> peer) then match_body peer txs us keys
          else
            hd ← pure (header_of a);
            if bool_decide (CalcUncleHash us <> UncleHash hd) then match_body peer txs us keys
            else if bool_decide (DeriveSha encode_transaction txs <> TxHash hd) then match_body peer txs us keys
            else
              missing ← read (fun n => negb (hasBlock n h));
              _ ← (if (missing : bool) then mret tt else forgetHash h);
              '(_, blocks) ← match_body peer txs us keys;
              mret (true, (if (missing : bool) then [WithBody (NewBlockWithHeader hd) txs us] else []) ++ blocks)
      end
  end.

(** The bodies that match nothing are left, in their order; [i] numbers them.
    [geth:eth/fetcher/block_fetcher.go:609-649] BlockFetcher.loop *)
Fixpoint filter_bodies (o : BlockOrders) (peer : PeerId) (i : nat) (txs : list (list Tx)) (us : list (list Header)) :
    StM BlockFetcher (list (list Tx) * list (list Header) * list FullBlock) :=
  match txs, us with
  | t :: txs', u :: us' =>
      keys ← getS (fun f => over_keys o (4 + i) (dom (bf_completing f)));
      '(matched, blocks) ← match_body peer t u keys;
      '(restT, restU, more) ← filter_bodies o peer (S i) txs' us';
      mret (if (matched : bool) then (restT, restU, blocks ++ more) else (t :: restT, u :: restU, blocks ++ more))
  | _, _ => mret (txs, us, [])
  end.

(** [geth:eth/fetcher/block_fetcher.go:597-663] BlockFetcher.loop
    [geth:eth/fetcher/block_fetcher.go] BlockFetcher.FilterBodies *)
Definition on_bodies (o : BlockOrders) (peer : PeerId) (txs : list (list Tx)) (us : list (list Header)) :
    StM BlockFetcher (list (list Tx) * list (list Header)) :=
  some ← getS (fun f => bool_decide (bf_completing f <> ∅));
  '(restT, restU, blocks) ← (if (some : bool) then filter_bodies o peer 0 txs us else mret (txs, us, []));
  _ ← each blocks enqueue_completed;
  mret (restT, restU).

(** *** A pass of the loop *)

Inductive bevent :=
| BlockAnnounced (n : blockAnnounce)
| BlockInjected (peer : PeerId) (b : FullBlock)
| ImportDone (h : Hash)
| FetchTimer
| CompleteTimer
| HeadersArrived (peer : PeerId) (headers : list Header) (time : Z)
| BodiesArrived (peer : PeerId) (txs : list (list Tx)) (us : list (list Header)).

(** [geth:eth/fetcher/block_fetcher.go:345-349] BlockFetcher.loop *)
Definition expire_fetch (h : Hash) : StM BlockFetcher unit :=
  a ← getS (fun f => bf_fetching f !! h);
  match a with
  | None => mret tt
  | Some a =>
      now ← read bclock;
      if fetchTimeout <? now - ba_time a then forgetHash h else mret tt
  end.

(** What comes before every [select].
    [geth:eth/fetcher/block_fetcher.go:343-377] BlockFetcher.loop *)
Definition prepare (o : BlockOrders) : StM BlockFetcher unit :=
  keys ← getS (fun f => over_keys o 0 (dom (bf_fetching f)));
  _ ← each keys expire_fetch;
  head ← read height;
  n ← getS (fun f => length (bf_queue f));
  import_queue n head.

(** A timer that is due sends on its channel, which holds one signal. *)
Definition timers_fire : StM BlockFetcher unit :=
  now ← read bclock;
  _ ← putS (fun f => match fetchTimer f with
                     | Some due => if due <=? now then set_fetchC true (set_fetchTimer None f) else f
                     | None => f
                     end);
  putS (fun f => match completeTimer f with
                 | Some due => if due <=? now then set_completeC true (set_completeTimer None f) else f
                 | None => f
                 end).

(** A case that is not ready changes nothing.
    [geth:eth/fetcher/block_fetcher.go:378-665] BlockFetcher.loop *)
Definition select_case (o : BlockOrders) (ev : bevent) : StM BlockFetcher unit :=
  match ev with
  | BlockAnnounced n => on_announce o n
  | BlockInjected peer b => on_inject peer b
  | ImportDone h => fun f =>
      match list_find (h =.) (importing f) with
      | Some (i, _) => on_done h (set_importing (delete i (importing f)) f)
      | None => (Ok tt, f)
      end
  | FetchTimer => fun f => if fetchC f then on_fetch o (set_fetchC false f) else (Ok tt, f)
  | CompleteTimer => fun f => if completeC f then on_complete o (set_completeC false f) else (Ok tt, f)
  | HeadersArrived peer headers time => _ ← on_headers o peer headers time; mret tt
  | BodiesArrived peer txs us => _ ← on_bodies o peer txs us; mret tt
  end.

(** [geth:eth/fetcher/block_fetcher.go:342-665] BlockFetcher.loop *)
Definition bf_pass (o : BlockOrders) (ev : bevent) : StM BlockFetcher unit :=
  _ ← prepare o;
  _ ← timers_fire;
  select_case o ev.

(** [geth:eth/fetcher/block_fetcher.go] BlockFetcher.loop *)
Definition bf_loop (evs : list (BlockOrders * bevent)) : StM BlockFetcher unit :=
  each evs (fun e => bf_pass e.1 e.2).
End Fetcher.
