(* ===== verification/BlockFetcherSpec.v ===== *)
(** * Correctness of the block fetcher

    Whatever nodes announce and deliver, the loop of the block fetcher runs
    through; no block is imported twice at a time; a node has at most 64 blocks
    in the queue; and what is imported was sent whole by its origin or is the
    block with the announced hash and number, with the body its header commits
    to. *)

From S2P Require Import Prelude Rlp EthTypes CliqueSnapshot Clique Randomness GethFuzzer GoHeap TxByPrice Miner.
From S2P Require Import TxFetcher TxFetcherSpec BlockFetcher.

(** ** The queue *)

#[export] Instance higher_strict : StrictWeak higher.
Proof.
  split; unfold higher; intros; rewrite ?Z.ltb_lt, ?Z.ltb_ge in *; lia.
Qed.

Lemma i64_id z : - 2 ^ 63 <= z < 2 ^ 63 -> i64 z = z.
Proof.
  intros Hz. unfold i64, two64, maxInt64. destruct (decide (0 <= z)).
  - rewrite Z.mod_small by lia. destruct (Z.leb_spec z 9223372036854775807); lia.
  - rewrite <- (Z.mod_add z 1) by lia. rewrite Z.mod_small by lia.
    destruct (Z.leb_spec (z + 1 * 18446744073709551616) 9223372036854775807); lia.
Qed.

Lemma runs_read {A} (g : nat -> A) f (Q : A -> BlockFetcher -> Prop) :
  Q (g (ticks f)) (set_ticks (S (ticks f)) f) -> runs (read g) f Q.
Proof. intros H. eexists _, _. split; [reflexivity|done]. Qed.

Lemma runs_self {S} (f : S) (Q : S -> S -> Prop) : Q f f -> runs (getS id) f Q.
Proof. intros H. by exists f, f. Qed.

(** [run] with the readings. *)
Ltac runb :=
  cbv beta zeta;
  match goal with
  | |- runs (_ ≫= _) _ _ => apply total_bind; runb
  | |- runs (mret _) _ _ => apply total_ret; runb
  | |- runs (getS id) _ _ => apply runs_self; runb
  | |- runs (getS _) _ _ => apply runs_get; runb
  | |- runs (putS _) _ _ => apply runs_put; runb
  | |- runs (read _) _ _ => apply runs_read; runb
  | _ => idtac
  end.

Lemma runs_Ok {S A} (a : A) (f : S) (Q : A -> S -> Prop) m : m = Ok a -> Q a f -> runs (pure m) f Q.
Proof. intros -> H. by exists a, f. Qed.

Section Spec.
Context {Crypto : EthCrypto} {TH : TrieHasher} {ME : MinerEnv}.
Context (bclock : nat -> Z) (height : nat -> Z) (hasHeader hasBlock : nat -> Hash -> bool).

(** Headers as they are decoded have a number and a difficulty. *)
Definition sound (h : Header) : Prop := is_Some (Number h) /\ is_Some (Difficulty h).

Lemma sound_copy h : sound h -> CopyHeader h = h.
Proof. intros [[n Hn] [d Hd]]. destruct h. cbn in *. subst. reflexivity. Qed.

Lemma sound_number h : sound h -> exists n, number_of h = Ok n.
Proof. intros [[n Hn] _]. unfold number_of. rewrite Hn. by eexists. Qed.

Lemma sound_copies us : Forall sound us -> CopyHeader <$> us = us.
Proof. induction 1 as [|h us Hh _ IH]; cbn; [done|]. by rewrite sound_copy, IH. Qed.

(** What peers said: hashes with numbers, and whole blocks. *)
Context (heard : PeerId -> Hash -> Z -> Prop) (given : PeerId -> FullBlock -> Prop) (mode : bool).

(** The header commits to the body. *)
Definition body_ok (b : FullBlock) : Prop :=
  UncleHash (header b) = CalcUncleHash (uncles b) /\
  (TxHash (header b) = DeriveSha encode_transaction (transactions b) \/
   TxHash (header b) = EmptyRootHash /\ transactions b = []).

(** An entry of the queue: in a light node a header that its origin announced, in
    a full node a block it sent or announced. *)
Definition op_ok (isLight : bool) (op : blockOrHeaderInject) : Prop :=
  exists n, inject_number op = Ok n /\
  if isLight then exists h, in_header op = Some h /\ in_block op = None /\ heard (in_origin op) (header_hash h) n
  else in_header op = None /\ exists b, in_block op = Some b /\
         (given (in_origin op) b \/ heard (in_origin op) (block_Hash b) n /\ body_ok b).

Definition hash_of (op : blockOrHeaderInject) : Hash :=
  match in_header op, in_block op with
  | Some h, _ => header_hash h
  | None, Some b => block_Hash b
  | None, None => []
  end.

Lemma op_hash isLight op : op_ok isLight op -> inject_hash op = Ok (hash_of op).
Proof.
  intros (n & _ & H). unfold inject_hash, hash_of.
  destruct isLight; [destruct H as (h & -> & _)|destruct H as (-> & b & -> & _)]; done.
Qed.

Definition origin_is (p : PeerId) (x : Hash * blockOrHeaderInject) : Prop := in_origin x.2 = p.
#[local] Instance origin_is_dec p x : Decision (origin_is p x).
Proof. unfold origin_is. apply _. Defined.

(** The blocks a peer has in the queue or being imported. *)
Definition owned (p : PeerId) (m : gmap Hash blockOrHeaderInject) : nat := size (filter (origin_is p) m).

Lemma owned_insert p h op m :
  m !! h = None -> owned p (<[h := op]> m) = (owned p m + if decide (in_origin op = p) then 1 else 0)%nat.
Proof.
  intros Hm. unfold owned. destruct (decide (in_origin op = p)) as [E|E].
  - rewrite map_filter_insert_True by done. rewrite map_size_insert_None; [lia|]. apply map_lookup_filter_None. by left.
  - rewrite map_filter_insert_False by done. rewrite delete_id by done. lia.
Qed.

Lemma owned_delete p h op m :
  m !! h = Some op -> (owned p (delete h m) + if decide (in_origin op = p) then 1 else 0)%nat = owned p m.
Proof.
  intros Hm. rewrite <- (insert_delete_id m h op Hm) at 2.
  rewrite (owned_insert p h op (delete h m)) by apply lookup_delete_eq. done.
Qed.

Definition queue_hashes (f : BlockFetcher) : list Hash := (fun x => hash_of (it_value x)) <$> bf_queue f.

(** The queue and what belongs to it.  [loose] lists the hashes that were taken
    out of the queue and are not yet imported or forgotten. *)
Record queue_inv (loose : list Hash) (f : BlockFetcher) : Prop := {
  q_heap : heap_from higher 0 (length (bf_queue f)) (bf_queue f);
  q_item : forall x, x ∈ bf_queue f -> bf_queued f !! hash_of (it_value x) = Some (it_value x) /\
             exists n, inject_number (it_value x) = Ok n /\ it_priority x = i64 (- i64 n);
  q_once : NoDup (loose ++ queue_hashes f ++ importing f);
  q_dom : forall h, is_Some (bf_queued f !! h) <-> h ∈ loose ++ queue_hashes f ++ importing f;
  q_op : forall h op, bf_queued f !! h = Some op -> hash_of op = h /\ op_ok (light f) op;
  q_count : forall p, default 0 (bf_queues f !! p) = Z.of_nat (owned p (bf_queued f)) /\
              (owned p (bf_queued f) <= Z.to_nat blockLimit)%nat;
  q_calls : forall op, Import op ∈ calls f -> op_ok (light f) op;
}.
(** An announcement, and one whose header was retrieved. *)
Definition announce_ok (h : Hash) (a : blockAnnounce) : Prop :=
  ba_hash a = h /\ heard (ba_origin a) h (ba_number a).
Definition headed (h : Hash) (a : blockAnnounce) : Prop :=
  announce_ok h a /\ exists hd, ba_header a = Some hd /\ header_hash hd = h /\ number_of hd = Ok (ba_number a) /\ sound hd.

Record stages_ok (f : BlockFetcher) : Prop := {
  st_announced : forall h l, bf_announced f !! h = Some l -> l <> [] /\ Forall (announce_ok h) l;
  st_fetching : forall h a, bf_fetching f !! h = Some a -> announce_ok h a;
  st_fetched : forall h l, bf_fetched f !! h = Some l -> light f = false /\ l <> [] /\ Forall (headed h) l;
  st_completing : forall h a, bf_completing f !! h = Some a -> light f = false /\ headed h a;
  st_light : light f = mode;
}.

(** ** Forgetting *)

(** The part of the state the queue is in. *)
Definition queue_part (f : BlockFetcher) :=
  (light f, bf_queue f, bf_queues f, bf_queued f, importing f, calls f).

Lemma queue_ok_part loose f f' : queue_inv loose f -> queue_part f' = queue_part f -> queue_inv loose f'.
Proof.
  intros [H1 H2 H3 H4 H5 H6 H7] [= E1 E2 E3 E4 E5 E6].
  split; unfold queue_hashes in *; rewrite ?E1, ?E2, ?E3, ?E4, ?E5, ?E6; assumption.
Qed.

Definition forgotten (h : Hash) (f f' : BlockFetcher) : Prop :=
  (bf_announced f', bf_fetching f', bf_fetched f', bf_completing f') =
  (delete h (bf_announced f), delete h (bf_fetching f), delete h (bf_fetched f), delete h (bf_completing f)) /\
  queue_part f' = queue_part f /\ (fetchTimer f', completeTimer f', fetchC f', completeC f') =
  (fetchTimer f, completeTimer f, fetchC f, completeC f).

Lemma forgetHash_runs h f : runs (forgetHash h) f (fun _ => forgotten h f).
Proof.
  unfold forgetHash. runb. split; [|split].
  - destruct (bf_announced f !! h) eqn:E1; cbn; destruct (bf_fetching f !! h) eqn:E2; cbn;
      destruct (bf_completing f !! h) eqn:E4; cbn;
      rewrite ?(delete_id (bf_announced f)), ?(delete_id (bf_fetching f)), ?(delete_id (bf_completing f)) by done; done.
  - destruct (bf_announced f !! h), (bf_fetching f !! h) eqn:E2; cbn; rewrite ?E2; cbn;
      destruct (bf_completing f !! h) eqn:E4; cbn; rewrite ?E4; done.
  - destruct (bf_announced f !! h), (bf_fetching f !! h) eqn:E2; cbn; rewrite ?E2; cbn;
      destruct (bf_completing f !! h) eqn:E4; cbn; rewrite ?E4; done.
Qed.

(** What is kept by the steps that only take hashes out of the stages. *)
Record shrinks (f f' : BlockFetcher) : Prop := {
  sh_light : light f' = light f;
  sh_timers : (fetchTimer f', completeTimer f', fetchC f', completeC f') =
              (fetchTimer f, completeTimer f, fetchC f, completeC f);
  sh_announced : bf_announced f' ⊆ bf_announced f;
  sh_fetching : bf_fetching f' ⊆ bf_fetching f;
  sh_fetched : bf_fetched f' ⊆ bf_fetched f;
  sh_completing : bf_completing f' ⊆ bf_completing f;
}.

#[local] Instance shrinks_preorder : PreOrder shrinks.
Proof.
  split; [by intros f; split|].
  intros f g k [] []. split; first [congruence | by etrans].
Qed.

Lemma stages_shrink f f' : stages_ok f -> shrinks f f' -> stages_ok f'.
Proof.
  intros [H1 H2 H3 H4 H5] [El _ E1 E2 E3 E4]. split; rewrite ?El; [| | | |done]; intros h x Hx; eauto using lookup_weaken.
Qed.

Lemma forgotten_shrinks h f f' : forgotten h f f' -> shrinks f f'.
Proof.
  intros ([= E1 E2 E3 E4] & [= El _ _ _ _ _] & Et). split; rewrite ?E1, ?E2, ?E3, ?E4; first [done|apply delete_subseteq].
Qed.

Lemma forgetHash_ok loose h f :
  stages_ok f -> queue_inv loose f ->
  runs (forgetHash h) f (fun _ f' => stages_ok f' /\ queue_inv loose f' /\ forgotten h f f' /\ shrinks f f').
Proof.
  intros Hs Hq. apply (runs_weaken _ _ _ _ (forgetHash_runs h f)). intros _ f' Hf'.
  pose proof (forgotten_shrinks h f f' Hf') as Hsh.
  split_and!; [by apply (stages_shrink f)| |done|done]. apply (queue_ok_part _ f); [done|apply Hf'].
Qed.

Lemma forgetBlock_ok h f :
  stages_ok f -> queue_inv [h] f ->
  runs (forgetBlock h) f (fun _ f' => stages_ok f' /\ queue_inv [] f' /\ shrinks f f' /\
    (bf_queue f', importing f', calls f') = (bf_queue f, importing f, calls f)).
Proof.
  intros Hs [H1 H2 H3 H4 H5 H6 H7]. unfold forgetBlock. runb.
  assert (is_Some (bf_queued f !! h)) as [op Hop] by (apply H4; set_solver). rewrite Hop.
  split_and!; [by destruct Hs| |by split|done].
  apply NoDup_cons in H3 as [Hnew Hnd].
  split; cbn; unfold queue_hashes; cbn; [done| |done| | | |done].
  - intros x Hx. rewrite lookup_delete_ne; [auto|]. intros ->. apply Hnew, elem_of_app. left.
    apply list_elem_of_fmap. by exists x.
  - intros k. rewrite lookup_delete_is_Some, H4. cbn. rewrite elem_of_cons. split; [naive_solver|].
    intros Hk. split; [|auto]. by intros ->.
  - intros k op' [_ Hk]%lookup_delete_Some. auto.
  - intros p. destruct (H6 p) as [Hc Hl]. pose proof (owned_delete p h op _ Hop) as Ho.
    split; [|case_decide; lia]. destruct (H6 (in_origin op)) as [Hc' _].
    destruct (decide (in_origin op = p)) as [<-|Hne].
    + case_match; [rewrite lookup_delete_eq|rewrite lookup_insert_eq]; cbn; lia.
    + case_match; [rewrite lookup_delete_ne by done|rewrite lookup_insert_ne by done]; lia.
Qed.
(** ** The import queue *)

Lemma push_inv op n f :
  queue_inv [hash_of op] f -> bf_queued f !! hash_of op = Some op -> inject_number op = Ok n ->
  queue_inv [] (set_bf_queue (Prque_Push op (i64 (- i64 n)) (bf_queue f)) f).
Proof.
  intros [H1 H2 H3 H4 H5 H6 H7] Hop Hn.
  set (x := {| it_value := op; it_priority := i64 (- i64 n) |}).
  pose proof (heap_Push_Permutation higher (bf_queue f) x) as Hp.
  assert (queue_hashes (set_bf_queue (Prque_Push op (i64 (- i64 n)) (bf_queue f)) f) ≡ₚ hash_of op :: queue_hashes f) as Hh.
  { unfold queue_hashes. cbn. unfold Prque_Push. fold x. by rewrite Hp. }
  split; try done.
  - apply heap_Push_heap; [apply _|done].
  - intros y Hy. cbn in Hy. unfold Prque_Push in Hy. fold x in Hy. rewrite Hp in Hy.
    apply elem_of_cons in Hy as [->|Hy]; [|by apply H2]. split; [done|]. by exists n.
  - cbn [app]. rewrite Hh. exact H3.
  - intros h. cbn [app]. rewrite Hh. exact (H4 h).
Qed.

Lemma pop_inv x q f :
  queue_inv [] f -> bf_queue f = x :: q ->
  exists rest, Prque_PopItem (bf_queue f) = Ok (it_value x, rest) /\ rest ≡ₚ q /\
    queue_inv [hash_of (it_value x)] (set_bf_queue rest f) /\
    (forall y, y ∈ q -> higher y x = false).
Proof.
  intros [H1 H2 H3 H4 H5 H6 H7] E. rewrite E in H1.
  destruct (heap_Pop_spec higher x q H1) as (rest & Hpop & Hp & Hheap).
  exists rest. unfold Prque_PopItem. rewrite E, Hpop. split_and!; [done|done| |].
  - assert (queue_hashes f ≡ₚ hash_of (it_value x) :: queue_hashes (set_bf_queue rest f)) as Hh.
    { unfold queue_hashes. rewrite E. cbn. by rewrite Hp. }
    split; try done.
    + intros y Hy. apply H2. rewrite E. cbn in Hy. rewrite Hp in Hy. by apply list_elem_of_further.
    + cbn [app] in *. rewrite Hh in H3. exact H3.
    + intros h. rewrite H4. cbn [app]. rewrite Hh. done.
  - intros y Hy. apply (heap_head_best higher x q y H1). by apply list_elem_of_further.
Qed.

Lemma add_inv h op f :
  queue_inv [] f -> bf_queued f !! h = None -> hash_of op = h -> op_ok (light f) op ->
  default 0 (bf_queues f !! in_origin op) + 1 <= blockLimit ->
  queue_inv [h] (set_bf_queued (<[h := op]> (bf_queued f))
    (set_bf_queues (<[in_origin op := default 0 (bf_queues f !! in_origin op) + 1]> (bf_queues f)) f)).
Proof.
  intros [H1 H2 H3 H4 H5 H6 H7] Hnone Hh Hop Hlim.
  assert (h ∉ queue_hashes f ++ importing f) as Hnew.
  { intros Hin. apply H4 in Hin as [? ?]. congruence. }
  split; cbn; try done.
  - intros x Hx. destruct (H2 x Hx) as [Hq Hn]. split; [|done]. rewrite lookup_insert_ne; [done|]. congruence.
  - apply NoDup_cons. done.
  - intros k. rewrite elem_of_cons. destruct (decide (k = h)) as [->|Hne].
    + rewrite lookup_insert_eq. split; [by left|by eexists].
    + rewrite lookup_insert_ne by done. rewrite H4. cbn. naive_solver.
  - intros k op' [[-> ->]|[_ Hk]]%lookup_insert_Some; auto.
  - intros p. rewrite owned_insert by done. destruct (H6 p) as [Hc Hl]. destruct (H6 (in_origin op)) as [Hc' Hl'].
    case_decide as E.
    + subst p. rewrite lookup_insert_eq. cbn. lia.
    + rewrite lookup_insert_ne by done. lia.
Qed.

Lemma runs_ask {S A} (g : S -> outcome A) a f (Q : A -> S -> Prop) : g f = Ok a -> Q a f -> runs (askS g) f Q.
Proof. intros E H. exists a, f. unfold askS. by rewrite E. Qed.

Lemma set_ticks_inv loose n f : queue_inv loose f -> queue_inv loose (set_ticks n f).
Proof. intros H. by apply (queue_ok_part _ f). Qed.

Lemma set_ticks_stages n f : stages_ok f -> stages_ok (set_ticks n f).
Proof. by intros []. Qed.
#[local] Hint Resolve set_ticks_inv set_ticks_stages : core.

Lemma enqueue_ok peer hd b f :
  let op := {| in_origin := peer; in_header := hd; in_block := if hd is Some _ then None else b |} in
  stages_ok f -> queue_inv [] f -> op_ok (light f) op ->
  runs (enqueue height peer hd b) f (fun _ f' => stages_ok f' /\ queue_inv [] f' /\ shrinks f f').
Proof.
  intros op Hs Hq Hop. unfold enqueue. fold op. pose proof Hop as (n & Hn & _).
  apply total_bind, (runs_Ok (hash_of op)); [by apply (op_hash (light f))|].
  apply total_bind, (runs_Ok n); [done|].
  assert (forall f0 h, stages_ok f0 -> queue_inv [] f0 -> shrinks f f0 ->
    runs (forgetHash h) f0 (fun _ f' => stages_ok f' /\ queue_inv [] f' /\ shrinks f f')) as Hforget.
  { intros f0 h Hs0 Hq0 Hsh. apply (runs_weaken _ _ _ _ (forgetHash_ok [] h f0 Hs0 Hq0)).
    intros _ f' (? & ? & _ & ?). split_and!; [done..|]. by trans f0. }
  runb. destruct (_ <? _) eqn:Hlim; [by apply Hforget|]. apply Z.ltb_ge in Hlim.
  runb. destruct (negb _); [apply Hforget; auto; by split|].
  runb. case_bool_decide as Hfresh; runb; cycle 1.
  { split_and!; auto. by split. }
  split_and!; [by destruct Hs| |by split].
  apply push_inv; [|apply lookup_insert_eq|done]. apply (add_inv (hash_of op) op (set_ticks _ f)); auto.
Qed.
(** A number that can be imported at a height. *)
Definition fits (head n : Z) : bool := (n <=? u64 (head + 1)) && negb (u64 (n + maxUncleDist) <? head).

(** Nothing that is left in the queue is next; numbers from 2^63 are left out,
    which the queue puts first. *)
Definition waiting (head : Z) (f : BlockFetcher) : Prop :=
  (forall x, x ∈ bf_queue f -> exists n, inject_number (it_value x) = Ok n /\ 0 <= n < 2 ^ 63) ->
  forall x n, x ∈ bf_queue f -> inject_number (it_value x) = Ok n -> u64 (head + 1) < n.

Lemma top_waiting head f x q q' n :
  queue_inv [] f -> bf_queue f = x :: q -> (forall y, y ∈ q -> higher y x = false) ->
  inject_number (it_value x) = Ok n -> u64 (head + 1) < n -> q' ≡ₚ x :: q ->
  waiting head (set_bf_queue q' f).
Proof.
  intros Hq E Hbest Hn Hlt Hp Hr y m Hy Hm. cbn in Hr, Hy.
  assert (forall z k, z ∈ x :: q -> inject_number (it_value z) = Ok k -> it_priority z = - k /\ 0 <= k < 2 ^ 63) as Hprio.
  { intros z k Hz Hk. destruct (q_item _ _ Hq z) as (_ & k1 & Hk1 & ->); [by rewrite E|].
    destruct (Hr z) as (k2 & Hk2 & Hkr); [by rewrite Hp|]. assert (k1 = k /\ k2 = k) as [-> ->] by (split; congruence).
    split; [|done]. rewrite (i64_id k) by lia. apply i64_id. lia. }
  rewrite Hp in Hy. destruct (Hprio y m Hy Hm) as [Py _].
  apply elem_of_cons in Hy as [->|Hy]; [congruence|].
  destruct (Hprio x n (list_elem_of_here _ _) Hn) as [Px _].
  specialize (Hbest y Hy). unfold higher in Hbest. apply Z.ltb_ge in Hbest. lia.
Qed.

Definition imports_fit (head : Z) (f f' : BlockFetcher) : Prop :=
  exists ops, calls f' = calls f ++ (Import <$> ops) /\
    forall op, op ∈ ops -> exists n, inject_number op = Ok n /\ fits head n = true.

Lemma imports_fit_refl head f f' : calls f' = calls f -> imports_fit head f f'.
Proof. intros E. exists []. split; [by rewrite app_nil_r|]. by intros ? ?%not_elem_of_nil. Qed.

Lemma imports_fit_cons head f f1 f' op n :
  calls f1 = calls f ++ [Import op] -> inject_number op = Ok n -> fits head n = true ->
  imports_fit head f1 f' -> imports_fit head f f'.
Proof.
  intros E Hn Hf (ops & E' & Hops). exists (op :: ops). rewrite E', E, <- app_assoc. split; [done|].
  intros op' [->|Hop']%elem_of_cons; eauto.
Qed.
Lemma import_inv op f :
  queue_inv [hash_of op] f -> bf_queued f !! hash_of op = Some op ->
  queue_inv [] (set_importing (importing f ++ [hash_of op]) (set_calls (calls f ++ [Import op]) f)).
Proof.
  intros [H1 H2 H3 H4 H5 H6 H7] Hop.
  assert (queue_hashes f ++ importing f ++ [hash_of op] ≡ₚ hash_of op :: queue_hashes f ++ importing f) as Hp.
  { rewrite app_assoc. symmetry. apply Permutation_cons_append. }
  split; try done.
  - cbn. unfold queue_hashes in *. cbn. rewrite Hp. exact H3.
  - intros h. cbn. unfold queue_hashes in *. cbn. rewrite Hp. exact (H4 h).
  - intros op' [Hop'|Hop']%elem_of_app; cbn; [by apply H7|].
    apply list_elem_of_singleton in Hop' as [= ->]. by destruct (H5 _ _ Hop).
Qed.

Lemma stale_runs n head (isLight : bool) h f :
  runs (if u64 (n + maxUncleDist) <? head then mret true
        else read (fun k => (if isLight then hasHeader else hasBlock) k h)) f
    (fun stale f' => exists t, f' = set_ticks t f /\ (stale = false -> (u64 (n + maxUncleDist) <? head) = false)).
Proof.
  destruct (_ <? _) eqn:E; runb; [exists (ticks f)|eexists]; (split; [|done]); by destruct f.
Qed.

Lemma import_no_panic (isLight : bool) op :
  op_ok isLight op ->
  match isLight, in_header op, in_block op with
  | true, Some _, _ | false, _, Some _ => Ok tt
  | _, _, _ => Panic "invalid memory address or nil pointer dereference"
  end = Ok tt.
Proof. intros (n & _ & H). destruct isLight; [by destruct H as (h & -> & _)|by destruct H as (_ & b & -> & _)]. Qed.

Lemma import_queue_ok fuel head f :
  (length (bf_queue f) <= fuel)%nat -> stages_ok f -> queue_inv [] f ->
  runs (import_queue hasHeader hasBlock fuel head) f (fun _ f' =>
    stages_ok f' /\ queue_inv [] f' /\ shrinks f f' /\ imports_fit head f f' /\ waiting head f').
Proof.
  revert f. induction fuel as [|fuel IH]; intros f Hlen Hs Hq; cbn [import_queue].
  { runb. split_and!; [done|done|done|by apply imports_fit_refl|].
    destruct (bf_queue f) eqn:E; [|cbn in Hlen; lia]. intros _ x n Hx. rewrite E in Hx. by apply not_elem_of_nil in Hx. }
  runb. case_bool_decide as E; runb.
  { split_and!; [done|done|done|by apply imports_fit_refl|].
    intros _ x n Hx. rewrite E in Hx. by apply not_elem_of_nil in Hx. }
  destruct (bf_queue f) as [|x q] eqn:E'; [done|]. clear E.
  destruct (pop_inv x q f Hq E') as (rest & Hpop & Hp & Hq' & Hbest).
  set (op := it_value x) in *.
  destruct (q_item _ _ Hq x) as (Hop & n & Hn & _); [rewrite E'; apply list_elem_of_here|]. fold op in Hop, Hn.
  assert (op_ok (light f) op) as Hopok by (by destruct (q_op _ _ Hq _ _ Hop)).
  eapply runs_ask; [exact Hpop|]. cbv iota. runb.
  set (f1 := set_bf_queue rest f) in *.
  assert (stages_ok f1) as Hs1 by (by destruct Hs). assert (shrinks f f1) as Hsh1 by done.
  assert (length rest <= fuel)%nat as Hlen1 by (rewrite Hp; cbn in Hlen; lia).
  apply (runs_Ok (hash_of op)); [by apply (op_hash (light f))|]. runb.
  apply (runs_Ok n); [done|]. runb.
  destruct (u64 (head + 1) <? n) eqn:Hhigh; runb.
  { apply Z.ltb_lt in Hhigh. split_and!; [by destruct Hs| | |by apply imports_fit_refl|].
    - by apply push_inv.
    - done.
    - apply (top_waiting head f x q _ n); try done. unfold Prque_Push. cbn [bf_queue f1 set_bf_queue].
      rewrite (heap_Push_Permutation higher), Hp. apply Permutation_cons; [|done].
      destruct (q_item _ _ Hq x) as (_ & n' & Hn' & Px); [rewrite E'; apply list_elem_of_here|].
      fold op in Hn'. rewrite Hn in Hn'. injection Hn' as <-. unfold op. rewrite <- Px. by destruct x. }
  apply Z.ltb_ge in Hhigh. eapply runs_weaken.
  { apply (stale_runs n head (light f1) (hash_of op) f1). }
  intros stale ? (t & -> & Hfresh). set (f2 := set_ticks t f1). assert (shrinks f f2) as Hsh2 by (by split).
  destruct stale; runb.
  - eapply runs_weaken; [apply (forgetBlock_ok (hash_of op) f2); [by destruct Hs|by apply set_ticks_inv]|].
    intros _ f3 (Hs3 & Hq3 & Hsh3 & [= E3 Ei Ec]).
    apply (runs_weaken _ _ _ _ (IH f3 ltac:(by rewrite E3) Hs3 Hq3)). intros _ f' (? & ? & Hsh & Hfit & ?).
    split_and!; [done|done|trans f3; [by trans f2|done]| |done]. destruct Hfit as (ops & Eo & Hops). exists ops. by rewrite Eo, Ec.
  - apply (runs_Ok tt); [by apply (import_no_panic (light f1))|]. runb. set (f3 := set_importing _ _).
    assert (queue_inv [] f3) as Hq3 by (apply (import_inv op f2); [by apply set_ticks_inv|done]).
    apply (runs_weaken _ _ _ _ (IH f3 Hlen1 ltac:(by destruct Hs) Hq3)). intros _ f' (? & ? & Hsh & Hfit & ?).
    split_and!; [done|done|trans f3; [by split|done]| |done].
    apply (imports_fit_cons head f f3 f' op n); try done. unfold fits. by rewrite (proj2 (Z.leb_le _ _) Hhigh), Hfresh.
Qed.
(** ** Timers *)

(** As long as hashes are announced, or bodies missing, the timer runs or has
    fired. *)
Definition armedF (f : BlockFetcher) : Prop := bf_announced f <> ∅ -> is_Some (fetchTimer f) \/ fetchC f = true.
Definition armedC (f : BlockFetcher) : Prop := bf_fetched f <> ∅ -> is_Some (completeTimer f) \/ completeC f = true.

Lemma subseteq_nonempty {A} (m m' : gmap Hash A) : m' ⊆ m -> m' <> ∅ -> m <> ∅.
Proof.
  intros Hs Hm ->. apply Hm, map_empty. intros h. destruct (m' !! h) eqn:E; [|done].
  by apply (lookup_weaken _ _ _ _ E) in Hs.
Qed.

Lemma armedF_shrink f f' : armedF f -> shrinks f f' -> armedF f'.
Proof.
  intros H [_ [= E _ E' _] Ha _ _ _] Hne. rewrite E, E'. apply H. by apply (subseteq_nonempty _ _ Ha).
Qed.
Lemma armedC_shrink f f' : armedC f -> shrinks f f' -> armedC f'.
Proof.
  intros H [_ [= _ E _ E'] _ _ Ha _] Hne. rewrite E, E'. apply H. by apply (subseteq_nonempty _ _ Ha).
Qed.

Definition nonempty_lists (m : gmap Hash (list blockAnnounce)) : Prop := forall h l, m !! h = Some l -> l <> [].

Lemma earliest_announce_ok now m order : nonempty_lists m -> exists e, earliest_announce now m order = Ok e.
Proof.
  intros Hm. unfold earliest_announce. revert now. induction order as [|h order IH]; intros now; cbn; [by eexists|].
  destruct (m !! h) as [[|a l]|] eqn:E; [by destruct (Hm h [] E)|apply IH|apply IH].
Qed.

Lemma announced_nonempty f : stages_ok f -> nonempty_lists (bf_announced f).
Proof. intros Hs h l Hl. apply (st_announced _ Hs h l Hl). Qed.
Lemma fetched_nonempty f : stages_ok f -> nonempty_lists (bf_fetched f).
Proof. intros Hs h l Hl. apply (st_fetched _ Hs h l Hl). Qed.

(** All but the timers. *)
Definition state_part (f : BlockFetcher) :=
  (bf_announced f, bf_fetching f, bf_fetched f, bf_completing f, queue_part f).

Lemma state_part_ok f f' :
  state_part f' = state_part f -> stages_ok f -> queue_inv [] f -> stages_ok f' /\ queue_inv [] f'.
Proof.
  unfold state_part. intros E [H1 H2 H3 H4 H5] Hq.
  assert (queue_part f' = queue_part f) as Eq by congruence. assert (light f' = light f) as El by (unfold queue_part in Eq; congruence).
  injection E as E1 E2 E3 E4 _. split; [|by apply (queue_ok_part _ f)].
  split; rewrite ?El, ?E1, ?E2, ?E3, ?E4; assumption.
Qed.

Lemma rescheduleFetch_runs o f :
  stages_ok f -> runs (rescheduleFetch bclock o) f (fun _ f' => state_part f' = state_part f /\
    armedF f' /\ (completeTimer f', completeC f') = (completeTimer f, completeC f)).
Proof.
  intros Hs. unfold rescheduleFetch. runb. case_bool_decide as E; runb; [split_and!; [done|by intros []|done]|].
  destruct (light f); runb; [split_and!; [done|left; by eexists|done]|].
  destruct (earliest_announce_ok (bclock (ticks f)) (bf_announced f) (over_keys o 2 (dom (bf_announced f)))
              (announced_nonempty f Hs)) as [e He].
  apply (runs_Ok e); [exact He|]. runb. split_and!; [done|left; by eexists|done].
Qed.

Lemma rescheduleComplete_runs o f :
  stages_ok f -> runs (rescheduleComplete bclock o) f (fun _ f' => state_part f' = state_part f /\
    armedC f' /\ (fetchTimer f', fetchC f') = (fetchTimer f, fetchC f)).
Proof.
  intros Hs. unfold rescheduleComplete. runb. case_bool_decide as E; runb; [split_and!; [done|by intros []|done]|].
  destruct (earliest_announce_ok (bclock (ticks f)) (bf_fetched f) (over_keys o 3 (dom (bf_fetched f)))
              (fetched_nonempty f Hs)) as [e He].
  apply (runs_Ok e); [exact He|]. runb. split_and!; [done|left; by eexists|done].
Qed.

Definition bf_ok (f : BlockFetcher) : Prop := stages_ok f /\ queue_inv [] f /\ armedF f /\ armedC f.

Lemma bf_ok_shrink f f' : bf_ok f -> stages_ok f' /\ queue_inv [] f' /\ shrinks f f' -> bf_ok f'.
Proof.
  intros (_ & _ & Hf & Hc) (Hs & Hq & Hsh).
  split_and!; [done|done|by apply (armedF_shrink f)|by apply (armedC_shrink f)].
Qed.

Lemma size_one_insert {A} (m : gmap Hash A) h x : size (<[h := x]> m) <> 1%nat -> m <> ∅.
Proof. intros H ->. apply H. by rewrite insert_empty, map_size_singleton. Qed.

Lemma on_announce_ok o n f :
  bf_ok f -> heard (ba_origin n) (ba_hash n) (ba_number n) ->
  runs (on_announce bclock height o n) f (fun _ => bf_ok).
Proof.
  intros (Hs & Hq & Hf & Hc) Hn. unfold on_announce. runb. destruct (_ <? _); runb; [done|].
  apply (runs_weaken _ _ (fun _ f' => exists t, f' = set_ticks t f)).
  { destruct (0 <? _); runb; [by eexists|exists (ticks f); by destruct f]. }
  intros useful ? [t ->]. destruct (negb useful); runb; [split_and!; auto|].
  destruct (_ || _); runb; [split_and!; auto|].
  set (f1 := set_bf_announced _ _).
  assert (stages_ok f1) as Hs1.
  { destruct Hs as [H1 H2 H3 H4 H5]. split; [|done|done|done|done].
    intros h l Hl. cbn in Hl. apply lookup_insert_Some in Hl as [[<- <-]|[_ Hl]]; [|by apply H1]. split; [by destruct (default _ _)|].
    apply Forall_app. split; [|by apply Forall_singleton].
    destruct (bf_announced f !! ba_hash n) as [l|] eqn:E; cbn; [by apply (H1 _ _ E)|done]. }
  assert (queue_inv [] f1) as Hq1 by (by apply (queue_ok_part _ f)).
  case_bool_decide as E; runb.
  - apply (runs_weaken _ _ _ _ (rescheduleFetch_runs o f1 Hs1)). intros _ f' (Hst & Hf' & [= Et Ec]).
    destruct (state_part_ok _ _ Hst Hs1 Hq1). split_and!; [done..|].
    injection Hst as _ _ E3 _ _. intros Hne. rewrite Et, Ec. apply Hc. by rewrite E3 in Hne.
  - split_and!; [done|done| |exact Hc]. intros _. apply Hf. by apply (size_one_insert _ _ _ E).
Qed.
Lemma inject_op peer b isLight n :
  given peer b \/ heard peer (block_Hash b) n /\ body_ok b -> number_of (header b) = Ok n -> isLight = false ->
  op_ok isLight {| in_origin := peer; in_header := None; in_block := Some b |}.
Proof. intros Hb Hn ->. exists n. split; [done|]. split; [done|]. by exists b. Qed.

Lemma on_inject_ok peer b f :
  bf_ok f -> given peer b -> sound (header b) -> runs (on_inject height peer b) f (fun _ => bf_ok).
Proof.
  intros Hf Hb Hs. pose proof Hf as (Hst & Hq & _). unfold on_inject. runb. destruct (light f) eqn:El; runb; [done|].
  destruct (sound_number _ Hs) as [n Hn]. eapply runs_weaken.
  { apply enqueue_ok; [done|done|]. rewrite El. by apply (inject_op peer b _ n); [left|..]. }
  intros ? f' H'. by apply (bf_ok_shrink f).
Qed.

Lemma finish_inv i h f :
  queue_inv [] f -> importing f !! i = Some h -> queue_inv [h] (set_importing (delete i (importing f)) f).
Proof.
  intros [H1 H2 H3 H4 H5 H6 H7] Hi.
  assert ([] ++ queue_hashes f ++ importing f ≡ₚ [h] ++ queue_hashes f ++ delete i (importing f)) as Hp.
  { rewrite (delete_Permutation _ _ _ Hi) at 1. cbn. symmetry. apply Permutation_middle. }
  split; try done.
  - rewrite Hp in H3. exact H3.
  - intros k. rewrite H4, Hp. done.
Qed.

Lemma on_done_ok h f :
  stages_ok f -> queue_inv [h] f -> runs (on_done h) f (fun _ f' => stages_ok f' /\ queue_inv [] f' /\ shrinks f f').
Proof.
  intros Hs Hq. unfold on_done. runb. apply (runs_weaken _ _ _ _ (forgetHash_ok [h] h f Hs Hq)).
  intros _ f1 (Hs1 & Hq1 & _ & Hsh). apply (runs_weaken _ _ _ _ (forgetBlock_ok h f1 Hs1 Hq1)).
  intros _ f2 (? & ? & ? & _). split_and!; [done|done|by trans f1].
Qed.

(** ** Requests *)

Lemma draw_announce_ok o h l : l <> [] -> exists a, draw_announce o h l = Ok a /\ a ∈ l.
Proof.
  intros Hl. unfold draw_announce. destruct (lookup_lt_is_Some_2 l (draw o h mod length l)) as [a Ha].
  { apply Nat.mod_upper_bound. by destruct l. }
  exists a. rewrite Ha. split; [done|]. by apply list_elem_of_lookup_2 in Ha.
Qed.

(** The hashes that are to be requested are in the map of the stage and no longer
    in the one they came from. *)
Definition requesting (from : gmap Hash (list blockAnnounce)) (to : gmap Hash blockAnnounce)
    (request : gmap PeerId (list Hash)) : Prop :=
  forall p hs, request !! p = Some hs -> hs <> [] /\ Forall (fun h => is_Some (to !! h) /\ from !! h = None) hs.

Lemma requesting_empty from to : requesting from to ∅.
Proof. intros p hs [=]. Qed.

Lemma requesting_forget from to request h :
  requesting from to request -> is_Some (from !! h) -> requesting (delete h from) (delete h to) request.
Proof.
  intros Hr [l Hl] p hs Hp. destruct (Hr p hs Hp) as [Hne Hall]. split; [done|].
  apply (Forall_impl _ _ _ Hall). intros k [Hk Hk']. assert (h <> k) by congruence.
  by rewrite !lookup_delete_ne.
Qed.

Lemma requesting_add from to request a h :
  requesting from to request -> from !! h = None -> requesting from (<[h := a]> to) (add_request a h request).
Proof.
  intros Hr Hh p hs. unfold add_request.
  assert (forall p hs, request !! p = Some hs -> Forall (fun h' => is_Some (<[h:=a]> to !! h') /\ from !! h' = None) hs) as Hold.
  { intros p' hs' Hp'. apply (Forall_impl _ _ _ (proj2 (Hr p' hs' Hp'))). intros k [Hk Hk']. split; [|done].
    rewrite lookup_insert_is_Some'. by right. }
  intros [[<- <-]|[_ Hp]]%lookup_insert_Some; [|split; [apply (Hr _ _ Hp)|eauto]].
  split; [by destruct (default _ _)|]. apply Forall_app. split.
  - destruct (request !! ba_origin a) eqn:E; cbn; eauto.
  - apply Forall_singleton. rewrite lookup_insert_eq. split; [by eexists|done].
Qed.

Definition orders_ok (o : BlockOrders) : Prop :=
  (forall i s, over_keys o i s ≡ₚ elements s) /\ (forall s, over_origins o s ≡ₚ elements s).

Lemma over_origins_lookup o (request : gmap PeerId (list Hash)) p :
  orders_ok o -> p ∈ over_origins o (dom request) -> is_Some (request !! p).
Proof. intros [_ Ho] Hp. rewrite Ho in Hp. by apply elem_of_elements, elem_of_dom in Hp. Qed.

(** A step that leaves the complete timer and what it is for alone. *)
Definition keepsC (f f' : BlockFetcher) : Prop :=
  light f' = light f /\ bf_fetched f' ⊆ bf_fetched f /\ (completeTimer f', completeC f') = (completeTimer f, completeC f).
Definition keepsF (f f' : BlockFetcher) : Prop :=
  light f' = light f /\ bf_announced f' ⊆ bf_announced f /\ (fetchTimer f', fetchC f') = (fetchTimer f, fetchC f).

Lemma keepsC_trans f g k : keepsC f g -> keepsC g k -> keepsC f k.
Proof. intros (? & ? & ?) (? & ? & ?). split_and!; [congruence|by etrans|congruence]. Qed.
Lemma keepsF_trans f g k : keepsF f g -> keepsF g k -> keepsF f k.
Proof. intros (? & ? & ?) (? & ? & ?). split_and!; [congruence|by etrans|congruence]. Qed.
Lemma shrinks_keeps f f' : shrinks f f' -> keepsC f f' /\ keepsF f f'.
Proof. intros [? [= ? ? ? ?] ? ? ? ?]. repeat split; congruence || done. Qed.
Lemma keepsC_armed f f' : armedC f -> keepsC f f' -> armedC f'.
Proof. intros H (_ & Hs & [= E E']) Hne. rewrite E, E'. apply H. by apply (subseteq_nonempty _ _ Hs). Qed.
Lemma keepsF_armed f f' : armedF f -> keepsF f f' -> armedF f'.
Proof. intros H (_ & Hs & [= E E']) Hne. rewrite E, E'. apply H. by apply (subseteq_nonempty _ _ Hs). Qed.
Lemma stages_set_fetching f h a :
  stages_ok f -> announce_ok h a -> stages_ok (set_bf_fetching (<[h := a]> (bf_fetching f)) f).
Proof.
  intros [H1 H2 H3 H4 H5] Ha. split; [done| |done|done|done]. cbn.
  intros k x [[<- <-]|[_ Hx]]%lookup_insert_Some; auto.
Qed.

Lemma stages_set_completing f h a :
  stages_ok f -> light f = false -> headed h a -> stages_ok (set_bf_completing (<[h := a]> (bf_completing f)) f).
Proof.
  intros [H1 H2 H3 H4 H5] Hl Ha. split; [done|done|done| |done]. cbn.
  intros k x [[<- <-]|[_ Hx]]%lookup_insert_Some; auto.
Qed.

Definition fetch_inv (request : gmap PeerId (list Hash)) (f : BlockFetcher) : Prop :=
  stages_ok f /\ queue_inv [] f /\ requesting (bf_announced f) (bf_fetching f) request.

Lemma fetch_hash_ok o request h f :
  fetch_inv request f ->
  runs (fetch_hash bclock hasHeader hasBlock o request h) f (fun r f' => fetch_inv r f' /\ keepsC f f').
Proof.
  intros (Hs & Hq & Hr). unfold fetch_hash. runb. destruct (bf_announced f !! h) as [l|] eqn:E; runb; [|done].
  destruct (st_announced _ Hs h l E) as [Hne Hall]. destruct l as [|first l]; [done|].
  apply (runs_Ok first); [done|]. runb. destruct (_ <? _); runb; [|split; [split_and!; auto|done]].
  destruct (draw_announce_ok o h (first :: l) Hne) as (a & Ha & Hin). apply (runs_Ok a); [done|]. runb.
  set (f0 := set_ticks _ f).
  apply (runs_weaken _ _ _ _ (forgetHash_ok [] h f0 (set_ticks_stages _ _ Hs) (set_ticks_inv _ _ _ Hq))).
  intros _ f1 (Hs1 & Hq1 & Hfg & Hsh). runb.
  assert (keepsC f f1) as Hk by (apply shrinks_keeps in Hsh as [(? & ? & ?) _]; done).
  destruct Hfg as ([= Ea Ef _ _] & _).
  assert (requesting (bf_announced f1) (bf_fetching f1) request) as Hr1.
  { rewrite Ea, Ef. apply requesting_forget; [done|]. cbn. rewrite E. by eexists. }
  destruct (negb _); runb; [|split; [split_and!; auto|done]].
  split; [split_and!|done].
  - apply stages_set_fetching; [auto|]. exact (proj1 (Forall_forall _ _) Hall a Hin).
  - by apply (queue_ok_part _ f1).
  - cbn. apply requesting_add; [done|]. rewrite Ea. apply lookup_delete_eq.
Qed.

Lemma fetch_hashes_ok o keys : forall request f,
  fetch_inv request f ->
  runs (fetch_hashes bclock hasHeader hasBlock o request keys) f (fun r f' => fetch_inv r f' /\ keepsC f f').
Proof.
  induction keys as [|h keys IH]; intros request f Hf; cbn [fetch_hashes]; runb; [done|].
  apply (runs_weaken _ _ _ _ (fetch_hash_ok o request h f Hf)). intros r f1 [Hf1 Hk1].
  apply (runs_weaken _ _ _ _ (IH r f1 Hf1)). intros r' f2 [Hf2 Hk2]. split; [done|]. by apply (keepsC_trans f f1).
Qed.

Lemma not_import_calls f new :
  queue_inv [] f -> (forall op, Import op ∉ new) -> queue_inv [] (set_calls (calls f ++ new) f).
Proof.
  intros [H1 H2 H3 H4 H5 H6 H7] Hn. split; try done. cbn. intros op [Hop|Hop]%elem_of_app; [auto|by apply Hn in Hop].
Qed.

Lemma send_headers_ok request p f :
  fetch_inv request f -> is_Some (request !! p) ->
  runs (send_headers request p) f (fun _ f' => fetch_inv request f' /\ keepsC f f').
Proof.
  intros (Hs & Hq & Hr) [hs Hp]. unfold send_headers. rewrite Hp. runb. cbn [default from_option id].
  destruct (Hr p hs Hp) as [Hne Hall]. destruct hs as [|h hs]; [done|].
  apply Forall_cons in Hall as [[[a Ha] _] _]. rewrite Ha. runb.
  split; [split_and!; [by destruct Hs| |done]|done].
  apply not_import_calls; [done|]. intros op Hop. cbn in Hop. apply elem_of_cons in Hop as [|Hop]; [done|].
  by apply list_elem_of_fmap in Hop as (? & ? & _).
Qed.

Lemma on_fetch_ok o f :
  orders_ok o -> stages_ok f -> queue_inv [] f -> armedC f ->
  runs (on_fetch bclock hasHeader hasBlock o) f (fun _ => bf_ok).
Proof.
  intros Ho Hs Hq Hc. unfold on_fetch. runb. eapply runs_weaken.
  { apply (fetch_hashes_ok o _ ∅ f). split_and!; [done|done|apply requesting_empty]. }
  intros request f1 [Hf1 Hk1]. runb. eapply runs_weaken.
  { apply (runs_each (fun l f' => fetch_inv request f' /\ keepsC f1 f' /\ forall p, p ∈ l -> is_Some (request !! p))).
    - split_and!; [done|done|]. intros p Hp. by apply (over_origins_lookup o).
    - intros p l f' (Hf' & Hk' & Hp). eapply runs_weaken; [apply (send_headers_ok request p f' Hf'), Hp, list_elem_of_here|].
      intros _ f'' [? ?]. split_and!; [done|by apply (keepsC_trans f1 f')|]. intros q Hq'. apply Hp. by apply list_elem_of_further. }
  intros _ f2 ((Hs2 & Hq2 & _) & Hk2 & _). apply (runs_weaken _ _ _ _ (rescheduleFetch_runs o f2 Hs2)).
  intros _ f3 (E & Ha & [= Et Ec]). destruct (state_part_ok f2 f3 E Hs2 Hq2). split_and!; [done|done|done|].
  apply (keepsC_armed f2); [apply (keepsC_armed f); [done|by apply (keepsC_trans f f1)]|].
  injection E as _ _ E3 _ El _. split_and!; [done|by rewrite E3|congruence].
Qed.
Definition complete_inv (request : gmap PeerId (list Hash)) (f : BlockFetcher) : Prop :=
  stages_ok f /\ queue_inv [] f /\ requesting (bf_fetched f) (bf_completing f) request.

Lemma complete_hash_ok o request h f :
  complete_inv request f ->
  runs (complete_hash hasBlock o request h) f (fun r f' => complete_inv r f' /\ keepsF f f').
Proof.
  intros (Hs & Hq & Hr). unfold complete_hash. runb. destruct (bf_fetched f !! h) as [l|] eqn:E; runb; [|done].
  destruct (st_fetched _ Hs h l E) as (Hl & Hne & Hall).
  destruct (draw_announce_ok o h l Hne) as (a & Ha & Hin). apply (runs_Ok a); [done|]. runb.
  apply (runs_weaken _ _ _ _ (forgetHash_ok [] h f Hs Hq)).
  intros _ f1 (Hs1 & Hq1 & Hfg & Hsh). runb.
  pose proof (proj2 (shrinks_keeps _ _ Hsh)) as Hk.
  destruct Hfg as ([= _ _ Ea Ef] & _).
  assert (requesting (bf_fetched f1) (bf_completing f1) request) as Hr1.
  { rewrite Ea, Ef. apply requesting_forget; [done|]. rewrite E. by eexists. }
  destruct (negb _); runb; [|split; [split_and!; auto|done]].
  split; [split_and!|done].
  - apply stages_set_completing; [auto|cbn; by rewrite (sh_light _ _ Hsh)|]. exact (proj1 (Forall_forall _ _) Hall a Hin).
  - by apply (queue_ok_part _ f1).
  - cbn. apply requesting_add; [done|]. rewrite Ea. apply lookup_delete_eq.
Qed.

Lemma complete_hashes_ok o keys : forall request f,
  complete_inv request f ->
  runs (complete_hashes hasBlock o request keys) f (fun r f' => complete_inv r f' /\ keepsF f f').
Proof.
  induction keys as [|h keys IH]; intros request f Hf; cbn [complete_hashes]; runb; [done|].
  apply (runs_weaken _ _ _ _ (complete_hash_ok o request h f Hf)). intros r f1 [Hf1 Hk1].
  apply (runs_weaken _ _ _ _ (IH r f1 Hf1)). intros r' f2 [Hf2 Hk2]. split; [done|]. by apply (keepsF_trans f f1).
Qed.

Lemma send_bodies_ok request p f :
  complete_inv request f -> is_Some (request !! p) ->
  runs (send_bodies request p) f (fun _ f' => complete_inv request f' /\ keepsF f f').
Proof.
  intros (Hs & Hq & Hr) [hs Hp]. unfold send_bodies. rewrite Hp. runb. cbn [default from_option id].
  destruct (Hr p hs Hp) as [Hne Hall]. destruct hs as [|h hs]; [done|].
  apply Forall_cons in Hall as [[[a Ha] _] _]. rewrite Ha. runb.
  split; [split_and!; [by destruct Hs| |done]|done].
  apply not_import_calls; [done|]. intros op Hop. by apply list_elem_of_singleton in Hop.
Qed.

Lemma on_complete_ok o f :
  orders_ok o -> stages_ok f -> queue_inv [] f -> armedF f ->
  runs (on_complete bclock hasBlock o) f (fun _ => bf_ok).
Proof.
  intros Ho Hs Hq Hc. unfold on_complete. runb. eapply runs_weaken.
  { apply (complete_hashes_ok o _ ∅ f). split_and!; [done|done|apply requesting_empty]. }
  intros request f1 [Hf1 Hk1]. runb. eapply runs_weaken.
  { apply (runs_each (fun l f' => complete_inv request f' /\ keepsF f1 f' /\ forall p, p ∈ l -> is_Some (request !! p))).
    - split_and!; [done|done|]. intros p Hp. by apply (over_origins_lookup o).
    - intros p l f' (Hf' & Hk' & Hp). eapply runs_weaken; [apply (send_bodies_ok request p f' Hf'), Hp, list_elem_of_here|].
      intros _ f'' [? ?]. split_and!; [done|by apply (keepsF_trans f1 f')|]. intros q Hq'. apply Hp. by apply list_elem_of_further. }
  intros _ f2 ((Hs2 & Hq2 & _) & Hk2 & _). apply (runs_weaken _ _ _ _ (rescheduleComplete_runs o f2 Hs2)).
  intros _ f3 (E & Ha & [= Et Ec]). destruct (state_part_ok f2 f3 E Hs2 Hq2). split_and!; [done|done| |done].
  apply (keepsF_armed f2); [apply (keepsF_armed f); [done|by apply (keepsF_trans f f1)]|].
  injection E as E3 _ _ _ El _. split_and!; [done|by rewrite E3|congruence].
Qed.

(** ** Headers *)

(** A block that was put together for a peer: what the peer announced, with a
    matching body; if it is still being completed, it was requested from the
    peer. *)
Definition assembled (peer : PeerId) (f : BlockFetcher) (b : FullBlock) : Prop :=
  body_ok b /\ (exists n, number_of (header b) = Ok n /\ heard peer (block_Hash b) n) /\
  forall a, bf_completing f !! block_Hash b = Some a -> ba_origin a = peer.

Lemma assembled_shrink peer f f' b : assembled peer f b -> bf_completing f' ⊆ bf_completing f -> assembled peer f' b.
Proof. intros (H1 & H2 & H3) Hs. split_and!; [done|done|]. intros a Ha. apply H3. by apply (lookup_weaken _ _ _ _ Ha). Qed.

Lemma assembled_insert peer f h a b :
  assembled peer f b -> ba_origin a = peer -> assembled peer (set_bf_completing (<[h := a]> (bf_completing f)) f) b.
Proof.
  intros (H1 & H2 & H3) Ha. split_and!; [done|done|]. intros x Hx. cbn in Hx.
  apply lookup_insert_Some in Hx as [[_ <-]|[_ Hx]]; auto.
Qed.

Lemma enqueue_completed_ok peer b f :
  stages_ok f -> queue_inv [] f -> assembled peer f b ->
  runs (enqueue_completed height b) f (fun _ f' => stages_ok f' /\ queue_inv [] f' /\ shrinks f f').
Proof.
  intros Hs Hq (Hb & (n & Hn & Hh) & Ho). unfold enqueue_completed. runb.
  destruct (bf_completing f !! block_Hash b) as [a|] eqn:E; runb; [|done].
  destruct (st_completing _ Hs _ _ E) as [Hl _]. rewrite (Ho a eq_refl).
  apply enqueue_ok; [done|done|]. apply (inject_op peer b _ n); [by right|done|done].
Qed.

Lemma enqueue_all_ok peer blocks f :
  stages_ok f -> queue_inv [] f -> Forall (assembled peer f) blocks ->
  runs (each blocks (enqueue_completed height)) f (fun _ f' => stages_ok f' /\ queue_inv [] f' /\ shrinks f f').
Proof.
  intros Hs Hq Hb. eapply runs_weaken.
  { apply (runs_each (fun l f' => stages_ok f' /\ queue_inv [] f' /\ shrinks f f' /\ Forall (assembled peer f') l)).
    - split_and!; done.
    - intros b l f' (Hs' & Hq' & Hsh & [Hb' Hl]%Forall_cons).
      apply (runs_weaken _ _ _ _ (enqueue_completed_ok peer b f' Hs' Hq' Hb')). intros _ f'' (? & ? & Hsh').
      split_and!; [done|done|by trans f'|]. apply (Forall_impl _ _ _ Hl). intros b' Hb''.
      apply (assembled_shrink _ f'); [done|]. apply Hsh'. }
  intros _ f' (? & ? & ? & _). done.
Qed.
Definition bare_header (a : blockAnnounce) : Prop :=
  exists hd n, ba_header a = Some hd /\ number_of hd = Ok n /\ heard (ba_origin a) (header_hash hd) n.

Record split_ok (peer : PeerId) (f : BlockFetcher) (acc : split) : Prop := {
  sp_incomplete : Forall (fun a => light f = false /\ exists h, headed h a) (incomplete acc);
  sp_complete : Forall (assembled peer f) (complete acc);
  sp_light : Forall (fun a => light f = true /\ bare_header a) (lightHeaders acc);
}.

Lemma split_ok_shrink peer f f' acc :
  split_ok peer f acc -> light f' = light f -> bf_completing f' ⊆ bf_completing f -> split_ok peer f' acc.
Proof.
  intros [H1 H2 H3] El Hs. split; rewrite ?El; try done.
  apply (Forall_impl _ _ _ H2). intros b Hb. by apply (assembled_shrink _ f).
Qed.

Lemma requested_from_Some peer h f a :
  requested_from peer h f = Some a -> bf_fetching f !! h = Some a /\ ba_origin a = peer.
Proof.
  unfold requested_from. destruct (bf_fetching f !! h) as [x|]; [|done]. case_bool_decide as E; [|done].
  intros [= ->]. by destruct E.
Qed.

Definition filter_inv (peer : PeerId) (f0 : BlockFetcher) (acc : split) (f : BlockFetcher) : Prop :=
  stages_ok f /\ queue_inv [] f /\ split_ok peer f acc /\ keepsC f0 f /\ keepsF f0 f.

Lemma filter_inv_shrink peer f0 acc f f' :
  filter_inv peer f0 acc f -> stages_ok f' -> queue_inv [] f' -> shrinks f f' -> filter_inv peer f0 acc f'.
Proof.
  intros (_ & _ & Hsp & Hc & Hf) Hs Hq Hsh. destruct (shrinks_keeps _ _ Hsh).
  split_and!; [done|done| |by apply (keepsC_trans f0 f)|by apply (keepsF_trans f0 f)].
  apply (split_ok_shrink _ f); [done|apply Hsh|apply Hsh].
Qed.

Lemma filter_inv_forget peer f0 acc f h :
  filter_inv peer f0 acc f -> runs (forgetHash h) f (fun _ => filter_inv peer f0 acc).
Proof.
  intros Hi. pose proof Hi as (Hs & Hq & _). apply (runs_weaken _ _ _ _ (forgetHash_ok [] h f Hs Hq)).
  intros _ f' (? & ? & _ & ?). by apply (filter_inv_shrink _ _ _ f).
Qed.

Lemma filter_inv_ticks peer f0 acc f t : filter_inv peer f0 acc f -> filter_inv peer f0 acc (set_ticks t f).
Proof. intros Hi. pose proof Hi as (? & ? & _). apply (filter_inv_shrink _ _ _ f); auto. by split. Qed.

Lemma filter_inv_fetching peer f0 acc f h a :
  filter_inv peer f0 acc f -> announce_ok h a ->
  filter_inv peer f0 acc (set_bf_fetching (<[h := a]> (bf_fetching f)) f).
Proof.
  intros (? & ? & [] & ? & ?) Ha. split_and!; [by apply stages_set_fetching|by apply (queue_ok_part _ f)|by split|done|done].
Qed.

Lemma filter_inv_completing peer f0 acc f h a :
  filter_inv peer f0 acc f -> light f = false -> headed h a -> ba_origin a = peer ->
  filter_inv peer f0 acc (set_bf_completing (<[h := a]> (bf_completing f)) f).
Proof.
  intros (? & ? & [H1 H2 H3] & ? & ?) Hl Ha Ho.
  split_and!; [by apply stages_set_completing|by apply (queue_ok_part _ f)| |done|done].
  split; [done| |done]. apply (Forall_impl _ _ _ H2). intros b Hb. by apply assembled_insert.
Qed.

Lemma with_header_headed h time a :
  sound h -> announce_ok (header_hash h) a -> number_of h = Ok (ba_number a) -> headed (header_hash h) (with_header h time a).
Proof. intros Hs Ha Hn. split; [done|]. by exists h. Qed.

Lemma empty_assembled peer f h n :
  sound h -> number_of h = Ok n -> heard peer (header_hash h) n -> TxHash h = EmptyRootHash -> UncleHash h = uncleHash ->
  (forall a, bf_completing f !! header_hash h = Some a -> ba_origin a = peer) ->
  assembled peer f (NewBlockWithHeader h).
Proof.
  intros Hs Hn Hh Ht Hu Ha. unfold NewBlockWithHeader, assembled, body_ok, block_Hash. rewrite (sound_copy h Hs). cbn [header uncles transactions].
  split_and!; [done|by right|by exists n|done].
Qed.
Lemma filter_header_ok peer time f0 acc h f :
  filter_inv peer f0 acc f -> sound h ->
  runs (filter_header hasHeader hasBlock peer time acc h) f (filter_inv peer f0).
Proof.
  intros Hi Hh. unfold filter_header. runb.
  destruct (requested_from peer (header_hash h) f) as [a|] eqn:E; runb; cycle 1.
  { destruct Hi as (? & ? & [] & ? & ?). by split_and!. }
  apply requested_from_Some in E as [Ef Eo]. pose proof Hi as (Hs & Hq & [H1 H2 H3] & _).
  pose proof (st_fetching _ Hs _ _ Ef) as Ha. destruct (sound_number h Hh) as [n Hn].
  apply (runs_Ok n); [done|]. destruct (n =? ba_number a) eqn:En; cbn [negb].
  2:{ runb. eapply runs_weaken; [apply (filter_inv_forget peer f0 acc)|intros ? f' Hf'; by runb].
      destruct Hi as (? & ? & [] & ? & ?).
      split_and!; [by destruct Hs|apply not_import_calls; [done|]; by intros op ?%list_elem_of_singleton|by split|done|done]. }
  apply Z.eqb_eq in En. subst n. destruct (light f) eqn:El; runb.
  - eapply runs_weaken; [apply (filter_inv_forget peer f0 acc), filter_inv_ticks, Hi|]. intros ? f' Hf'. runb.
    destruct (negb _); [|done]. destruct Hf' as (? & ? & [] & Hc' & ?). split_and!; [done|done| |done|done].
    split; [done|done|]. apply Forall_app. split; [done|]. apply Forall_singleton. split.
    + destruct Hi as (_ & _ & _ & (El0 & _) & _). destruct Hc' as (-> & _). congruence.
    + exists h, (ba_number a). split_and!; [done|done|]. cbn. apply Ha.
  - destruct (negb _); runb; cycle 1.
    { eapply runs_weaken; [apply (filter_inv_forget peer f0 acc), filter_inv_ticks, Hi|]. intros ? f' Hf'. by runb. }
    pose proof (with_header_headed h time a Hh Ha Hn) as Hw.
    pose proof (filter_inv_fetching _ _ _ _ _ (with_header h time a) (filter_inv_ticks _ _ _ _ (S (ticks f)) Hi) (proj1 Hw)) as Hi2.
    destruct (bool_decide (TxHash h = EmptyRootHash)) eqn:Et; [apply bool_decide_eq_true in Et|];
      (destruct (bool_decide (UncleHash h = uncleHash)) eqn:Eu; [apply bool_decide_eq_true in Eu|]); cbn [andb]; runb.
    2-4: (destruct Hi2 as (? & ? & [K1 K2 K3] & ? & ?); split_and!; [done|done| |done|done];
          split; [|done|done]; apply Forall_app; split; [done|]; apply Forall_singleton; split; [done|by eexists]).
    pose proof (filter_inv_completing _ _ _ _ _ (with_header h time a) Hi2 El Hw Eo) as (? & ? & [] & ? & ?).
    split_and!; [done|done| |done|done]. split; [done| |done]. apply Forall_app. split; [done|]. apply Forall_singleton.
    apply (empty_assembled _ _ _ (ba_number a)); try done; [rewrite <- Eo; apply Ha|].
    cbn. intros x. rewrite lookup_insert_eq. by intros [= <-].
Qed.

Lemma filter_headers_ok peer time f0 l : forall acc f,
  filter_inv peer f0 acc f -> Forall sound l ->
  runs (filter_headers hasHeader hasBlock peer time acc l) f (filter_inv peer f0).
Proof.
  induction l as [|h l IH]; intros acc f Hi Hl; cbn [filter_headers]; runb; [done|].
  apply Forall_cons in Hl as [Hh Hl]. apply (runs_weaken _ _ _ _ (filter_header_ok peer time f0 acc h f Hi Hh)). auto.
Qed.

Lemma schedule_body_ok o a h f :
  bf_ok f -> light f = false -> headed h a ->
  runs (schedule_body bclock o a) f (fun _ f' => bf_ok f' /\ light f' = light f /\ bf_completing f' = bf_completing f).
Proof.
  intros Hf Hl Ha. pose proof Hf as (Hs & Hq & HF & HC). pose proof Ha as (_ & hd & Hhd & Hh & _). unfold schedule_body, header_of.
  rewrite Hhd. apply total_bind, (runs_Ok hd); [done|]. rewrite Hh. runb. case_bool_decide; runb; [done|].
  set (f1 := set_bf_fetched _ f).
  assert (stages_ok f1) as Hs1.
  { destruct Hs as [H1 H2 H3 H4 H5]. split; [done|done| |done|done].
    intros k l Hk. cbn in Hk. apply lookup_insert_Some in Hk as [[<- <-]|[_ Hk]]; [|by apply H3].
    split_and!; [done|by destruct (default _ _)|]. apply Forall_app. split; [|by apply Forall_singleton].
    destruct (bf_fetched f !! h) as [l|] eqn:E; cbn; [by apply (H3 _ _ E)|done]. }
  assert (queue_inv [] f1) as Hq1 by (by apply (queue_ok_part _ f)).
  case_bool_decide as E; runb.
  - apply (runs_weaken _ _ _ _ (rescheduleComplete_runs o f1 Hs1)). intros _ f' (Hst & Hc' & [= Et Ec]).
    destruct (state_part_ok _ _ Hst Hs1 Hq1). injection Hst as E1 _ _ E4 El _. split; [|by rewrite El, E4].
    split_and!; [done|done| |done]. intros Hne. rewrite Et, Ec. apply HF. by rewrite E1 in Hne.
  - split; [|done]. split_and!; [done|done|exact HF|]. intros _. apply HC. by apply (size_one_insert _ _ _ E).
Qed.

Lemma on_headers_ok o peer headers time f :
  bf_ok f -> Forall sound headers ->
  runs (on_headers bclock height hasHeader hasBlock o peer headers time) f (fun _ => bf_ok).
Proof.
  intros (Hs & Hq & HF & HC) Hh. unfold on_headers. runb. eapply runs_weaken.
  { apply (filter_headers_ok peer time f); [|done]. split_and!; [done|done|by split|done|done]. }
  intros r f1 (Hs1 & Hq1 & [H1 H2 H3] & Hk1 & Hk1'). runb.
  assert (bf_ok f1) as Hf1 by (split_and!; [done|done|by apply (keepsF_armed f)|by apply (keepsC_armed f)]).
  eapply runs_weaken.
  { apply (runs_each (fun l f' => bf_ok f' /\ light f' = light f1 /\ bf_completing f' = bf_completing f1 /\
      Forall (fun a => light f1 = false /\ exists h, headed h a) l)).
    - split_and!; done.
    - intros a l f' (Hf' & El & Ec & [[Hl [h Ha]] Hrest]%Forall_cons). rewrite <- El in Hl.
      apply (runs_weaken _ _ _ _ (schedule_body_ok o a h f' Hf' Hl Ha)). intros _ f'' (? & ? & ?).
      split_and!; [done|congruence|congruence|done]. }
  intros _ f2 (Hf2 & El2 & Ec2 & _). runb. eapply runs_weaken.
  { apply (runs_each (fun l f' => bf_ok f' /\ shrinks f2 f' /\ Forall (fun a => light f2 = true /\ bare_header a) l)).
    - rewrite El2. split_and!; [done|by split|done].
    - intros a l f' (Hf' & Hsh & [[Hl (hd & n & Ea & Hn & Hhd)] Hrest]%Forall_cons). eapply runs_weaken.
      { apply enqueue_ok; [apply Hf'|apply Hf'|]. rewrite (sh_light _ _ Hsh), Hl, Ea. exists n. split; [done|]. by exists hd. }
      intros ? f'' (? & ? & ?). split_and!; [by apply (bf_ok_shrink f')|by trans f'|done]. }
  intros _ f3 (Hf3 & Hsh3 & _). runb. eapply runs_weaken.
  { apply (enqueue_all_ok peer (complete r) f3); [apply Hf3|apply Hf3|]. apply (Forall_impl _ _ _ H2). intros b Hb.
    apply (assembled_shrink _ f1); [done|]. rewrite <- Ec2. apply Hsh3. }
  intros ? f4 Hf4. runb. by apply (bf_ok_shrink f3).
Qed.
(** ** Bodies *)

Lemma body_assembled peer f h a hd txs us :
  bf_completing f !! h = Some a -> headed h a -> ba_origin a = peer -> ba_header a = Some hd -> Forall sound us ->
  CalcUncleHash us = UncleHash hd -> DeriveSha encode_transaction txs = TxHash hd ->
  assembled peer f (WithBody (NewBlockWithHeader hd) txs us).
Proof.
  intros Hc ([_ Hheard] & hd' & Hhd' & Hh & Hn & Hs) Ho Hhd Hus Hu Ht. simplify_eq.
  unfold WithBody, NewBlockWithHeader, assembled, body_ok, block_Hash. cbn [header].
  rewrite !(sound_copy _ Hs), (sound_copies us Hus). cbn [header uncles transactions].
  split_and!; [done|by left|by eexists|]. intros x Hx. congruence.
Qed.

Lemma match_body_ok peer txs us keys : Forall sound us -> forall f,
  stages_ok f -> queue_inv [] f ->
  runs (match_body hasBlock peer txs us keys) f (fun r f' =>
    stages_ok f' /\ queue_inv [] f' /\ shrinks f f' /\ Forall (assembled peer f') r.2).
Proof.
  intros Hus. induction keys as [|h keys IH]; intros f Hs Hq; cbn [match_body]; runb; [done|].
  destruct (bf_completing f !! h) as [a|] eqn:E; [|by apply IH].
  destruct (_ || _) eqn:Eo; [by apply IH|]. apply orb_false_iff in Eo as [_ Eo%bool_decide_eq_false].
  apply dec_stable in Eo.
  destruct (st_completing _ Hs _ _ E) as [Hl Ha]. pose proof Ha as (_ & hd & Hhd & _).
  apply total_bind, (runs_Ok hd); [unfold header_of; by rewrite Hhd|].
  destruct (bool_decide (CalcUncleHash us <> UncleHash hd)) eqn:Eu; [by apply IH|].
  apply bool_decide_eq_false, dec_stable in Eu.
  destruct (bool_decide (DeriveSha encode_transaction txs <> TxHash hd)) eqn:Et; [by apply IH|].
  apply bool_decide_eq_false, dec_stable in Et. runb.
  pose proof (body_assembled peer f h a hd txs us E Ha Eo Hhd Hus Eu Et) as Hb.
  set (f1 := set_ticks _ f).
  apply (runs_weaken _ _ (fun _ f' => stages_ok f' /\ queue_inv [] f' /\ shrinks f f')).
  { destruct (negb _); runb; [split_and!; [by apply set_ticks_stages|by apply set_ticks_inv|by split]|].
    apply (runs_weaken _ _ _ _ (forgetHash_ok [] h f1 (set_ticks_stages _ _ Hs) (set_ticks_inv _ _ _ Hq))).
    intros _ f' (? & ? & _ & []). split_and!; [done|done|by split]. }
  intros _ f2 (Hs2 & Hq2 & Hsh2). runb. apply (runs_weaken _ _ _ _ (IH f2 Hs2 Hq2)).
  intros [m blocks] f3 (Hs3 & Hq3 & Hsh3 & Hbs). runb. cbn [snd] in *. assert (shrinks f f3) by (by trans f2).
  split_and!; [done|done|done|]. apply Forall_app. split; [|done].
  destruct (negb _); [|done]. apply Forall_singleton. by apply (assembled_shrink _ f); [|apply H].
Qed.

Lemma filter_bodies_ok o peer txs : forall us i f,
  Forall (Forall sound) us -> stages_ok f -> queue_inv [] f ->
  runs (filter_bodies hasBlock o peer i txs us) f (fun r f' =>
    stages_ok f' /\ queue_inv [] f' /\ shrinks f f' /\ Forall (assembled peer f') r.2).
Proof.
  induction txs as [|t txs IH]; intros [|u us] i f Hus Hs Hq; cbn [filter_bodies]; runb; try done.
  apply Forall_cons in Hus as [Hu Hus]. eapply runs_weaken; [by apply (match_body_ok peer t u)|].
  intros [matched blocks] f1 (Hs1 & Hq1 & Hsh1 & Hb1). runb.
  apply (runs_weaken _ _ _ _ (IH us (S i) f1 Hus Hs1 Hq1)).
  intros [[rT rU] more] f2 (Hs2 & Hq2 & Hsh2 & Hb2). runb. cbn [snd] in *.
  split_and!; [done|done|by trans f1|].
  assert (Forall (assembled peer f2) (blocks ++ more)); [|by destruct matched].
  apply Forall_app. split; [|done]. apply (Forall_impl _ _ _ Hb1). intros b Hb. by apply (assembled_shrink _ f1); [|apply Hsh2].
Qed.

Lemma on_bodies_ok o peer txs us f :
  bf_ok f -> Forall (Forall sound) us -> runs (on_bodies height hasBlock o peer txs us) f (fun _ => bf_ok).
Proof.
  intros Hf Hus. pose proof Hf as (Hs & Hq & _). unfold on_bodies. runb.
  apply (runs_weaken _ _ (fun r f' => stages_ok f' /\ queue_inv [] f' /\ shrinks f f' /\ Forall (assembled peer f') r.2)).
  { case_bool_decide; [by apply filter_bodies_ok|]. runb. done. }
  intros [[rT rU] blocks] f1 (Hs1 & Hq1 & Hsh1 & Hb). runb. eapply runs_weaken; [by apply (enqueue_all_ok peer)|].
  intros ? f2 (? & ? & ?). runb. apply (bf_ok_shrink f); [done|]. split_and!; [done|done|by trans f1].
Qed.

(** ** The loop *)

Lemma expire_ok h f :
  stages_ok f -> queue_inv [] f ->
  runs (expire_fetch bclock h) f (fun _ f' => stages_ok f' /\ queue_inv [] f' /\ shrinks f f' /\ calls f' = calls f).
Proof.
  intros Hs Hq. unfold expire_fetch. runb. destruct (bf_fetching f !! h); runb; [|done].
  destruct (_ <? _); runb; [|split_and!; [auto..|by split|done]].
  apply (runs_weaken _ _ _ _ (forgetHash_ok [] h _ (set_ticks_stages _ _ Hs) (set_ticks_inv _ _ _ Hq))).
  intros _ f' (? & ? & (_ & [= _ _ _ _ _ Ec] & _) & []). by split_and!.
Qed.

(** The imports of a pass fit on the chain, and nothing that fits is left. *)
Lemma prepare_ok o f :
  stages_ok f -> queue_inv [] f ->
  runs (prepare bclock height hasHeader hasBlock o) f (fun _ f' => stages_ok f' /\ queue_inv [] f' /\ shrinks f f' /\
    exists t, imports_fit (height t) f f' /\ waiting (height t) f').
Proof.
  intros Hs Hq. unfold prepare. runb. eapply runs_weaken.
  { apply (runs_each (fun _ f' => stages_ok f' /\ queue_inv [] f' /\ shrinks f f' /\ calls f' = calls f)); [done|].
    intros h l f' (Hs' & Hq' & Hsh & Hc). apply (runs_weaken _ _ _ _ (expire_ok h f' Hs' Hq')).
    intros _ f'' (? & ? & ? & ?). split_and!; [done|done|by trans f'|congruence]. }
  intros _ f1 (Hs1 & Hq1 & Hsh1 & Hc1). runb. set (f2 := set_ticks _ f1).
  apply (runs_weaken _ _ _ _ (import_queue_ok _ (height (ticks f1)) f2 (Nat.le_refl _) (set_ticks_stages _ _ Hs1)
    (set_ticks_inv _ _ _ Hq1))).
  intros _ f' (? & ? & Hsh & (ops & Ec & Hops) & Hw). split_and!; [done|done|trans f1; [done|by destruct Hsh; split]|].
  exists (ticks f1). split; [|done]. exists ops. by rewrite <- Hc1.
Qed.

Lemma timers_fire_ok f : bf_ok f -> runs (timers_fire bclock) f (fun _ f' => bf_ok f' /\ state_part f' = state_part f).
Proof.
  intros (Hs & Hq & HF & HC). unfold timers_fire. runb. cbn. set (f' := match completeTimer _ with Some _ => _ | None => _ end).
  assert (state_part f' = state_part f /\ armedF f' /\ armedC f') as (E & ? & ?).
  { unfold f', armedF, armedC in *.
    destruct (fetchTimer f) eqn:E1; [destruct (_ <=? _)|]; cbn; destruct (completeTimer f) eqn:E2; cbn;
      try destruct (_ <=? _); cbn; rewrite ?E1, ?E2; cbn; rewrite ?E1, ?E2; auto. }
  split; [|done]. destruct (state_part_ok f f' E Hs Hq). by split_and!.
Qed.
(** What the outside gives the loop, as it comes out of the decoders. *)
Definition event_ok (ev : bevent) : Prop :=
  match ev with
  | BlockAnnounced n => heard (ba_origin n) (ba_hash n) (ba_number n)
  | BlockInjected peer b => given peer b /\ sound (header b)
  | HeadersArrived _ headers _ => Forall sound headers
  | BodiesArrived _ _ us => Forall (Forall sound) us
  | _ => True
  end.

Lemma select_case_ok o ev f :
  bf_ok f -> orders_ok o -> event_ok ev ->
  runs (select_case bclock height hasHeader hasBlock o ev) f (fun _ => bf_ok).
Proof.
  intros Hf Ho He. pose proof Hf as (Hs & Hq & HF & HC). destruct ev as [n|peer b|h| | |peer hs t|peer txs us]; cbn [select_case event_ok] in *.
  - by apply on_announce_ok.
  - destruct He. by apply on_inject_ok.
  - unfold runs. destruct (list_find (h =.) (importing f)) as [[i h']|] eqn:E; [|by exists tt, f].
    apply list_find_Some in E as (Hi & <- & _).
    assert (stages_ok (set_importing (delete i (importing f)) f)) as Hs' by (by destruct Hs).
    destruct (on_done_ok h _ Hs' (finish_inv i h f Hq Hi)) as ([] & f' & E & ? & ? & []).
    exists tt, f'. split; [exact E|]. apply (bf_ok_shrink f); [done|]. split_and!; [done|done|by split].
  - unfold runs. destruct (fetchC f); [|by exists tt, f]. apply (on_fetch_ok o (set_fetchC false f)); [done|by destruct Hs| |done].
    by apply (queue_ok_part _ f).
  - unfold runs. destruct (completeC f); [|by exists tt, f].
    apply (on_complete_ok o (set_completeC false f)); [done|by destruct Hs| |done]. by apply (queue_ok_part _ f).
  - runb. apply (runs_weaken _ _ _ _ (on_headers_ok o peer hs t f Hf He)). intros ? f' Hf'. by runb.
  - runb. apply (runs_weaken _ _ _ _ (on_bodies_ok o peer txs us f Hf He)). intros ? f' Hf'. by runb.
Qed.

Lemma bf_pass_ok o ev f :
  bf_ok f -> orders_ok o -> event_ok ev -> runs (bf_pass bclock height hasHeader hasBlock o ev) f (fun _ => bf_ok).
Proof.
  intros Hf Ho He. unfold bf_pass. runb. apply (runs_weaken _ _ _ _ (prepare_ok o f (proj1 Hf) (proj1 (proj2 Hf)))).
  intros _ f1 (? & ? & ? & _). assert (bf_ok f1) as Hf1 by (by apply (bf_ok_shrink f)). runb.
  apply (runs_weaken _ _ _ _ (timers_fire_ok f1 Hf1)). intros _ f2 [Hf2 _]. by apply select_case_ok.
Qed.

Lemma NewBlockFetcher_ok : bf_ok (NewBlockFetcher mode).
Proof.
  split_and!; [split; cbn; [by intros ? ? ?%lookup_empty_Some..|done]| |by intros []|by intros []].
  split; cbn; try done.
  - by intros ? ?%not_elem_of_nil.
  - apply NoDup_nil_2.
  - intros h. rewrite lookup_empty. split; [by intros []|by intros ?%not_elem_of_nil].
  - intros p. unfold owned. rewrite lookup_empty, map_filter_empty, map_size_empty. cbn. lia.
  - by intros ? ?%not_elem_of_nil.
Qed.

Lemma bf_loop_ok evs f :
  bf_ok f -> Forall (fun e => orders_ok e.1 /\ event_ok e.2) evs ->
  runs (bf_loop bclock height hasHeader hasBlock evs) f (fun _ => bf_ok).
Proof.
  intros Hf He. eapply runs_weaken.
  { apply (runs_each (fun l f' => bf_ok f' /\ Forall (fun e => orders_ok e.1 /\ event_ok e.2) l)); [done|].
    intros [o ev] l f' (Hf' & [[Ho Hev] Hl]%Forall_cons). apply (runs_weaken _ _ _ _ (bf_pass_ok o ev f' Hf' Ho Hev)). done. }
  by intros _ f' [Hf' _].
Qed.
End Spec.

(** ** The theorems *)

Section Theorems.
Context {Crypto : EthCrypto} {TH : TrieHasher} {ME : MinerEnv}.
Context (bclock : nat -> Z) (height : nat -> Z) (hasHeader hasBlock : nat -> Hash -> bool).

(** What was announced and sent in a run. *)
Definition heard_in (evs : list (BlockOrders * bevent)) (p : PeerId) (h : Hash) (n : Z) : Prop :=
  exists o a, (o, BlockAnnounced a) ∈ evs /\ ba_origin a = p /\ ba_hash a = h /\ ba_number a = n.
Definition given_in (evs : list (BlockOrders * bevent)) (p : PeerId) (b : FullBlock) : Prop :=
  exists o, (o, BlockInjected p b) ∈ evs.

(** Blocks and headers as they come out of the decoders. *)
Definition decoded (ev : bevent) : Prop :=
  match ev with
  | BlockInjected _ b => sound (header b)
  | HeadersArrived _ headers _ => Forall sound headers
  | BodiesArrived _ _ us => Forall (Forall sound) us
  | _ => True
  end.

Lemma decoded_events evs :
  Forall (fun e => orders_ok e.1 /\ decoded e.2) evs ->
  Forall (fun e => orders_ok e.1 /\ event_ok (heard_in evs) (given_in evs) e.2) evs.
Proof.
  rewrite !Forall_forall. intros H [o ev] Hin. destruct (H _ Hin) as [Ho Hd]. split; [done|].
  destruct ev; try done; cbn in *; [by eexists _, _|]. split; [by eexists|done].
Qed.

Lemma loop_runs isLight evs :
  Forall (fun e => orders_ok e.1 /\ decoded e.2) evs ->
  exists f, bf_loop bclock height hasHeader hasBlock evs (NewBlockFetcher isLight) = (Ok tt, f) /\
    bf_ok (heard_in evs) (given_in evs) isLight f.
Proof.
  intros H. destruct (bf_loop_ok bclock height hasHeader hasBlock (heard_in evs) (given_in evs) isLight evs (NewBlockFetcher isLight)
    (NewBlockFetcher_ok _ _ isLight) (decoded_events evs H)) as ([] & f & E & Hf). by exists f.
Qed.

(** C15. The block fetcher is safe to leave running: whatever is announced, sent,
    delivered or left out by peers, in whatever order the cases of [select] and
    the iterations over maps come, and however the chain grows meanwhile, no
    number of passes makes the loop panic.  No block is imported by two goroutines
    at a time, nor queued while it is imported; a peer has at most 64 blocks in
    the queue and in import, which the counter of the peer tells exactly; and as
    long as hashes are announced or bodies missing, the timer that deals with
    them runs or has fired. *)
Theorem block_fetcher_safe isLight evs :
  Forall (fun e => orders_ok e.1 /\ decoded e.2) evs ->
  exists f, bf_loop bclock height hasHeader hasBlock evs (NewBlockFetcher isLight) = (Ok tt, f) /\
    NoDup (queue_hashes f ++ importing f) /\
    (forall p, default 0 (bf_queues f !! p) = Z.of_nat (owned p (bf_queued f)) /\ default 0 (bf_queues f !! p) <= 64) /\
    (bf_announced f <> ∅ -> is_Some (fetchTimer f) \/ fetchC f = true) /\
    (bf_fetched f <> ∅ -> is_Some (completeTimer f) \/ completeC f = true).
Proof.
  intros H. destruct (loop_runs isLight evs H) as (f & E & _ & Hq & HF & HC). exists f.
  split_and!; [done|apply (q_once _ _ _ _ Hq)| |exact HF|exact HC].
  intros p. destruct (q_count _ _ _ _ Hq p) as [-> Hl]. split; [done|]. unfold blockLimit in Hl. lia.
Qed.

(** Imports are justified: every block a full node's fetcher has imported was
    sent whole by its origin, or its origin announced its hash with its number and
    the body is the one the header commits to, with its transactions and uncles;
    what a light node's fetcher has imported is a header its origin announced
    with its hash and number.  So a peer that delivers something other than it
    announced, or a body of another block, does not get it imported. *)
Theorem imports_justified isLight evs :
  Forall (fun e => orders_ok e.1 /\ decoded e.2) evs ->
  exists f, bf_loop bclock height hasHeader hasBlock evs (NewBlockFetcher isLight) = (Ok tt, f) /\
    forall op, Import op ∈ calls f -> exists n, inject_number op = Ok n /\
      match in_header op, in_block op with
      | Some h, _ => isLight = true /\ heard_in evs (in_origin op) (header_hash h) n
      | None, Some b => isLight = false /\
          (given_in evs (in_origin op) b \/
           heard_in evs (in_origin op) (block_Hash b) n /\ UncleHash (header b) = CalcUncleHash (uncles b) /\
           (TxHash (header b) = DeriveSha encode_transaction (transactions b) \/
            TxHash (header b) = EmptyRootHash /\ transactions b = []))
      | None, None => False
      end.
Proof.
  intros H. destruct (loop_runs isLight evs H) as (f & E & Hs & Hq & _). exists f. split; [done|].
  intros op Hop. destruct (q_calls _ _ _ _ Hq op Hop) as (n & Hn & Hok). exists n. split; [done|].
  rewrite (st_light _ _ _ Hs) in Hok. destruct isLight; [by destruct Hok as (h & -> & _ & Hh)|].
  destruct Hok as (-> & b & -> & Hb). split; [done|]. exact Hb.
Qed.

(** What a pass imports fits on the chain: its number is at most one above the
    head and at most 7 below it; and the pass leaves no entry in the queue that
    is next, unless one has a number from 2^63 on (see [queue_blocked]). *)
Theorem prepare_imports heard given isLight o f :
  bf_ok heard given isLight f ->
  exists f' t, prepare bclock height hasHeader hasBlock o f = (Ok tt, f') /\
    imports_fit (height t) f f' /\ waiting (height t) f'.
Proof.
  intros (Hs & Hq & _). destruct (prepare_ok bclock height hasHeader hasBlock heard given isLight o f Hs Hq) as ([] & f' & E & _ & _ & _ & t & ? & ?).
  by exists f', t.
Qed.
End Theorems.
