(* ===== verification/BlockFetcherExamples.v ===== *)
(** * Runs of the block fetcher

    An announced block is retrieved and imported, on which the theorems of the
    fetcher are applied; and two runs that show where it falls short: a block with
    a number near 2^64 that keeps all others in the queue, and an announcement
    that is no longer counted while it is fetched. *)

From S2P Require Import Prelude Rlp EthTypes CliqueSnapshot Clique CliqueExamples Randomness GethFuzzer GoHeap TxByPrice Miner.
From S2P Require Import MinerExamples TxFetcher TxFetcherSpec BlockFetcher BlockFetcherSpec.

#[local] Existing Instance id_crypto.
#[local] Existing Instance MinerExample.plain_trie.
#[local] Existing Instance MinerExample.flat_env.

Module BlockFetcherExample.

(** A fifth of a second passes between two readings; the chain is at its genesis
    block and knows no other. *)
Definition clock (n : nat) : Z := 200 * Millisecond * Z.of_nat n.
Definition at_genesis (n : nat) : Z := 0.
Definition unknown_to (n : nat) (h : Hash) : bool := false.

Definition plain : BlockOrders := {| over_keys _ := elements; over_origins := elements; draw _ := 0%nat |}.

Definition run (evs : list bevent) : outcome unit * BlockFetcher :=
  bf_loop clock at_genesis unknown_to unknown_to (pair plain <$> evs) (NewBlockFetcher false).

Definition payment : Tx := QueueExample.tx QueueExample.alice 0 1 0.

Definition sealed (number : Z) (txs : list Tx) : FullBlock := {|
  header := with_body (EngineExample.block number zeroHash [] zeroAddress)
              (DeriveSha encode_transaction txs) zeroHash [] uncleHash;
  transactions := txs; uncles := [] |}.

Definition block1 : FullBlock := sealed 1 [payment].
Definition hash1 : Hash := block_Hash block1.

Definition announce (p : PeerId) (b : FullBlock) (number : Z) : bevent :=
  BlockAnnounced {| ba_hash := block_Hash b; ba_number := number; ba_header := None; ba_time := 0; ba_origin := p |}.

(** The block is announced, its header and its body are retrieved, and it is
    imported by the next pass. *)
Definition retrieval : list bevent :=
  [announce "ann" block1 1; FetchTimer; FetchTimer; HeadersArrived "ann" [header block1] (clock 12); CompleteTimer;
   BodiesArrived "ann" [[]] [[]]; BodiesArrived "ann" [[payment]] [[]]; announce "bob" block1 1].

Definition peers_of (f : BlockFetcher) : list (nat * PeerId) :=
  (fun c => match c with
            | FetchHeader p _ => (1%nat, p) | FetchBodies p _ => (2%nat, p) | DropPeer p => (3%nat, p)
            | Import op => (4%nat, in_origin op)
            end) <$> calls f.

Example block_retrieved :
  bool_decide (peers_of (run retrieval).2 = [(1%nat, "ann"); (2%nat, "ann"); (4%nat, "ann")]) = true.
Proof. vm_compute. reflexivity. Qed.

Lemma plain_ok : orders_ok plain.
Proof. split; done. Qed.

Lemma sound_sealed n txs : sound (header (sealed n txs)).
Proof. split; by eexists. Qed.

Lemma plain_events evs :
  Forall decoded evs -> Forall (fun e : BlockOrders * bevent => orders_ok e.1 /\ decoded e.2) (pair plain <$> evs).
Proof. intros H. apply Forall_fmap. apply (Forall_impl _ _ _ H). intros ev Hev. split; [exact plain_ok|done]. Qed.

Lemma retrieval_decoded : Forall decoded retrieval.
Proof. repeat (apply Forall_cons_2; [cbn; repeat constructor; by eexists|]). apply Forall_nil_2. Qed.

Lemma block_fetcher_safe_witness :
  exists f, bf_loop clock at_genesis unknown_to unknown_to (pair plain <$> retrieval) (NewBlockFetcher false) = (Ok tt, f) /\
    NoDup (queue_hashes f ++ importing f) /\
    (forall p, default 0 (bf_queues f !! p) = Z.of_nat (owned p (bf_queued f)) /\ default 0 (bf_queues f !! p) <= 64) /\
    (bf_announced f <> ∅ -> is_Some (fetchTimer f) \/ fetchC f = true) /\
    (bf_fetched f <> ∅ -> is_Some (completeTimer f) \/ completeC f = true).
Proof.
  exact (block_fetcher_safe clock at_genesis unknown_to unknown_to false _ (plain_events _ retrieval_decoded)).
Defined.

Lemma imports_justified_witness :
  exists f, bf_loop clock at_genesis unknown_to unknown_to (pair plain <$> retrieval) (NewBlockFetcher false) = (Ok tt, f) /\
    forall op, Import op ∈ calls f -> exists n, inject_number op = Ok n /\
      match in_header op, in_block op with
      | Some h, _ => false = true /\ heard_in (pair plain <$> retrieval) (in_origin op) (header_hash h) n
      | None, Some b => false = false /\
          (given_in (pair plain <$> retrieval) (in_origin op) b \/
           heard_in (pair plain <$> retrieval) (in_origin op) (block_Hash b) n /\
           UncleHash (header b) = CalcUncleHash (uncles b) /\
           (TxHash (header b) = DeriveSha encode_transaction (transactions b) \/
            TxHash (header b) = EmptyRootHash /\ transactions b = []))
      | None, None => False
      end.
Proof.
  exact (imports_justified clock at_genesis unknown_to unknown_to false _ (plain_events _ retrieval_decoded)).
Defined.

(** ** A queue that is blocked

    At the genesis block the number 2^64 - 1 is one below the head for the
    distance in [int64], so the block is queued, and its priority is above that
    of every other; but in [uint64] it is above the head, so that it is put back
    and the loop over the queue ends, in every pass. *)
Definition far : FullBlock := sealed (two64 - 1) [].

Definition passes : list bevent := replicate 8 FetchTimer.

Example queue_blocked :
  bool_decide (peers_of (run (BlockInjected "eve" far :: BlockInjected "ann" block1 :: passes)).2 = []) &&
  bool_decide (length (bf_queue (run (BlockInjected "eve" far :: BlockInjected "ann" block1 :: passes)).2) = 2%nat) &&
  bool_decide (peers_of (run (BlockInjected "ann" block1 :: passes)).2 = [(4%nat, "ann")]) = true.
Proof. vm_compute. reflexivity. Qed.

(** ** Announcements that are not counted

    When the timer fires the hash moves on to be fetched and its announcement is
    no longer counted; when it is forgotten for good, it is taken off the counter
    a second time, here although another hash of the peer is still announced. *)
Definition mismatch : list bevent := [announce "ann" block1 2; FetchTimer; FetchTimer].
Definition mismatch_end : list bevent :=
  mismatch ++ [announce "ann" (sealed 3 []) 3; HeadersArrived "ann" [header block1] (clock 12)].

Example announces_lost :
  bool_decide (size (bf_fetching (run mismatch).2) = 1%nat) &&
  bool_decide (bf_announces (run mismatch).2 !! "ann" = None) &&
  bool_decide (size (bf_announced (run mismatch_end).2) = 1%nat) &&
  bool_decide (bf_announces (run mismatch_end).2 !! "ann" = None) = true.
Proof. vm_compute. reflexivity. Qed.
End BlockFetcherExample.
