(* ===== verification/EthNode.v ===== *)
(** * The node: peers, packets and broadcasts

    eth/handler.go, eth/handler_eth.go, eth/peerset.go and eth/sync.go: the set of
    connected peers, what becomes of the packets the protocol handlers pass on,
    to whom blocks and transactions are sent, and when a synchronization is
    started.  It joins the peers of GethFuzzer.v with the two fetchers.

    The goroutines of the node, which lock the peer set and talk to the fetchers
    over channels, are the steps of [node_step]: a packet of a peer, a pass of a
    fetcher that is due to a timer or to an import, a peer that joins or leaves,
    a block or transactions to broadcast, an event of the synchronization.  A
    send on the channel of a fetcher is a pass of its loop; passes in between are
    steps of their own, and a packet of several announcements has the effect of
    one packet for each.  The downloader, the snap protocol, timers and the
    network are outside: the calls to them are listed in [n_down].  What the chain
    and the pool answer is given with the step, in [Surroundings]. *)

From S2P Require Import Prelude Rlp EthTypes CliqueSnapshot Clique Randomness GethFuzzer GoHeap TxByPrice Miner.
From S2P Require Import TxFetcher BlockFetcher.

Definition errPeerSetClosed : error := "peerset closed".
Definition errPeerAlreadyRegistered : error := "peer already registered".
Definition errPeerNotRegistered : error := "peer not registered".
Definition errSnapWithoutEth : error := "peer connected on snap without compatible eth support".
Definition DiscTooManyPeers : error := "too many peers".
Definition errUnsynced : error := "unsynced node cannot serve sync".
Definition errCheckpoint : error := "checkpoint hash mismatch".
Definition errWhitelist : error := "whitelist block mismatch".
Definition errUnregistered : error := "unregistered during callback".
Definition errUnexpectedPacket : error := "unexpected eth packet type".

(** ** The peer set *)

Section PeerSet.
Context {Rnd : Randomness}.

(** A peer with its snap extension and the timer that drops it.
    [geth:eth/peer.go:37-44] ethPeer *)
Record ethPeer := { ep_Peer : Peer; snapExt : bool; syncDrop : bool }.

(** [geth:eth/peerset.go] peerSet *)
Record peerSet := {
  ps_peers : gmap PeerId ethPeer;
  snapPeers : Z;
  snapWait : gset PeerId;
  snapPend : gset PeerId;
  ps_closed : bool;
}.

(** [geth:eth/peerset.go] newPeerSet *)
Definition newPeerSet : peerSet :=
  {| ps_peers := ∅; snapPeers := 0; snapWait := ∅; snapPend := ∅; ps_closed := false |}.

Definition set_ps_peers x (ps : peerSet) : peerSet := {|
  ps_peers := x; snapPeers := snapPeers ps; snapWait := snapWait ps; snapPend := snapPend ps; ps_closed := ps_closed ps |}.
Definition set_snapPeers x (ps : peerSet) : peerSet := {|
  ps_peers := ps_peers ps; snapPeers := x; snapWait := snapWait ps; snapPend := snapPend ps; ps_closed := ps_closed ps |}.
Definition set_snaps w p (ps : peerSet) : peerSet := {|
  ps_peers := ps_peers ps; snapPeers := snapPeers ps; snapWait := w; snapPend := p; ps_closed := ps_closed ps |}.

Definition is_peer (pid : PeerId) (ps : peerSet) : bool := bool_decide (is_Some (ps_peers ps !! pid)).

(** [compatible] tells whether the connection runs the protocol as well; the
    result, whether an eth connection was waiting for the extension.
    [geth:eth/peerset.go] peerSet.registerSnapExtension *)
Definition registerSnapExtension (compatible : bool) (pid : PeerId) : StM peerSet bool :=
  _ ← pure (ensure compatible errSnapWithoutEth);
  ps ← getS id;
  _ ← pure (ensure (negb (is_peer pid ps)) errPeerAlreadyRegistered);
  _ ← pure (ensure (negb (bool_decide (pid ∈ snapPend ps))) errPeerAlreadyRegistered);
  if bool_decide (pid ∈ snapWait ps) then
    _ ← putS (set_snaps (snapWait ps ∖ {[pid]}) (snapPend ps));
    mret true
  else
    _ ← putS (set_snaps (snapWait ps) ({[pid]} ∪ snapPend ps));
    mret false.

(** What an eth connection gets: no extension, its extension, or it waits. *)
Inductive extension := NoExtension | Extension | Waits.

(** [geth:eth/peerset.go] peerSet.waitSnapExtension *)
Definition waitSnapExtension (compatible : bool) (pid : PeerId) : StM peerSet extension :=
  if negb compatible then mret NoExtension
  else
    ps ← getS id;
    _ ← pure (ensure (negb (is_peer pid ps)) errPeerAlreadyRegistered);
    _ ← pure (ensure (negb (bool_decide (pid ∈ snapWait ps))) errPeerAlreadyRegistered);
    if bool_decide (pid ∈ snapPend ps) then
      _ ← putS (set_snaps (snapWait ps) (snapPend ps ∖ {[pid]}));
      mret Extension
    else
      _ ← putS (set_snaps ({[pid]} ∪ snapWait ps) (snapPend ps));
      mret Waits.

(** [geth:eth/peerset.go] peerSet.registerPeer *)
Definition registerPeer (pid : PeerId) (peer : Peer) (ext : bool) : StM peerSet unit :=
  ps ← getS id;
  _ ← pure (ensure (negb (ps_closed ps)) errPeerSetClosed);
  _ ← pure (ensure (negb (is_peer pid ps)) errPeerAlreadyRegistered);
  _ ← (if ext then putS (set_snapPeers (snapPeers ps + 1)) else mret tt);
  putS (set_ps_peers (<[pid := {| ep_Peer := peer; snapExt := ext; syncDrop := false |}]> (ps_peers ps))).

(** [geth:eth/peerset.go] peerSet.unregisterPeer *)
Definition unregister (pid : PeerId) : StM peerSet unit :=
  ps ← getS id;
  match ps_peers ps !! pid with
  | None => pure (Err errPeerNotRegistered)
  | Some p =>
      _ ← putS (set_ps_peers (delete pid (ps_peers ps)));
      if snapExt p then putS (set_snapPeers (snapPeers ps - 1)) else mret tt
  end.

(** The order of an iteration over the peers. *)
Definition over := gset PeerId -> list PeerId.

(** [geth:eth/peerset.go] peerSet.peersWithoutBlock *)
Definition peersWithoutBlock (o : over) (h : Hash) (ps : peerSet) : list PeerId :=
  filter (fun pid => (KnownBlock h ∘ ep_Peer <$> ps_peers ps !! pid) = Some false) (o (dom (ps_peers ps))).

(** [geth:eth/peerset.go] peerSet.peersWithoutTransaction *)
Definition peersWithoutTransaction (o : over) (h : Hash) (ps : peerSet) : list PeerId :=
  filter (fun pid => (KnownTransaction h ∘ ep_Peer <$> ps_peers ps !! pid) = Some false) (o (dom (ps_peers ps))).

(** [geth:eth/peerset.go] peerSet.len *)
Definition peers_len (ps : peerSet) : Z := Z.of_nat (size (ps_peers ps)).

(** [geth:eth/peerset.go] peerSet.peerWithHighestTD *)
Definition peerWithHighestTD (o : over) (ps : peerSet) : option (PeerId * Hash * Z) :=
  fold_left (fun best pid =>
    match ps_peers ps !! pid with
    | None => best
    | Some p =>
        let '(hash, td) := Head (ep_Peer p) in
        match best with
        | Some (_, _, bestTd) => if bestTd <? td then Some (pid, hash, td) else best
        | None => Some (pid, hash, td)
        end
    end) (o (dom (ps_peers ps))) None.

(** [geth:eth/peerset.go] peerSet.close *)
Definition close (ps : peerSet) : peerSet := {|
  ps_peers := ps_peers ps; snapPeers := snapPeers ps; snapWait := snapWait ps; snapPend := snapPend ps; ps_closed := true |}.
End PeerSet.

(** ** The node *)

(** The modes of synchronization.
    [geth:eth/downloader/modes.go:22-30] SyncMode *)
Inductive SyncMode := FullSync | FastSync | SnapSync | LightSync.

(** What the node has others do: the downloader, and the network. *)
Inductive down_call :=
| DeliverHeaders (p : PeerId) (l : list Header)
| DeliverBodies (p : PeerId) (txs : list (list Tx)) (us : list (list Header))
| DeliverNodeData (p : PeerId) (l : list bytes)
| DeliverReceipts (p : PeerId) (l : list (list InReceipt))
| RegisterPeer (p : PeerId)
| UnregisterPeer (p : PeerId)
| Synchronise (p : PeerId) (head : Hash) (td : Z) (mode : SyncMode)
| Disconnect (p : PeerId).

Section Node.
Context {Rnd : Randomness} {Crypto : EthCrypto} {TH : TrieHasher} {ME : MinerEnv}.
Context (pop_choice : gset Hash -> option Hash).

(** [n_forced] and [n_syncing] are the state of the chain syncer.
    [geth:eth/handler.go] handler
    [geth:eth/sync.go] chainSyncer *)
Record EthNode := {
  n_peers : peerSet;
  fastSync : bool;
  snapSync : bool;
  acceptTxs : bool;
  checkpointNumber : Z;
  checkpointHash : Hash;
  maxPeers : Z;
  whitelist : gmap Z Hash;
  n_block : BlockFetcher;
  n_tx : TxFetcher;
  n_forced : bool;
  n_syncing : bool;
  n_down : list down_call;
}.

Definition set_n_peers x (n : EthNode) : EthNode := {|
  n_peers := x; fastSync := fastSync n; snapSync := snapSync n; acceptTxs := acceptTxs n;
  checkpointNumber := checkpointNumber n; checkpointHash := checkpointHash n; maxPeers := maxPeers n;
  whitelist := whitelist n; n_block := n_block n; n_tx := n_tx n; n_forced := n_forced n; n_syncing := n_syncing n;
  n_down := n_down n |}.
Definition set_flags f s a (n : EthNode) : EthNode := {|
  n_peers := n_peers n; fastSync := f; snapSync := s; acceptTxs := a;
  checkpointNumber := checkpointNumber n; checkpointHash := checkpointHash n; maxPeers := maxPeers n;
  whitelist := whitelist n; n_block := n_block n; n_tx := n_tx n; n_forced := n_forced n; n_syncing := n_syncing n;
  n_down := n_down n |}.
Definition set_n_block x (n : EthNode) : EthNode := {|
  n_peers := n_peers n; fastSync := fastSync n; snapSync := snapSync n; acceptTxs := acceptTxs n;
  checkpointNumber := checkpointNumber n; checkpointHash := checkpointHash n; maxPeers := maxPeers n;
  whitelist := whitelist n; n_block := x; n_tx := n_tx n; n_forced := n_forced n; n_syncing := n_syncing n;
  n_down := n_down n |}.
Definition set_n_tx x (n : EthNode) : EthNode := {|
  n_peers := n_peers n; fastSync := fastSync n; snapSync := snapSync n; acceptTxs := acceptTxs n;
  checkpointNumber := checkpointNumber n; checkpointHash := checkpointHash n; maxPeers := maxPeers n;
  whitelist := whitelist n; n_block := n_block n; n_tx := x; n_forced := n_forced n; n_syncing := n_syncing n;
  n_down := n_down n |}.
Definition set_sync f s (n : EthNode) : EthNode := {|
  n_peers := n_peers n; fastSync := fastSync n; snapSync := snapSync n; acceptTxs := acceptTxs n;
  checkpointNumber := checkpointNumber n; checkpointHash := checkpointHash n; maxPeers := maxPeers n;
  whitelist := whitelist n; n_block := n_block n; n_tx := n_tx n; n_forced := f; n_syncing := s;
  n_down := n_down n |}.
Definition tell (c : down_call) (n : EthNode) : EthNode := {|
  n_peers := n_peers n; fastSync := fastSync n; snapSync := snapSync n; acceptTxs := acceptTxs n;
  checkpointNumber := checkpointNumber n; checkpointHash := checkpointHash n; maxPeers := maxPeers n;
  whitelist := whitelist n; n_block := n_block n; n_tx := n_tx n; n_forced := n_forced n; n_syncing := n_syncing n;
  n_down := n_down n ++ [c] |}.

(** A checkpoint of the configuration: index and head of a section. *)
Record TrustedCheckpoint := { SectionIndex : Z; SectionHead : Hash }.
Definition CHTFrequency : Z := 32768.

(** The flags of the start, from the numbers of the current and of the current
    fast block.
    [geth:eth/handler.go:144-169] newHandler *)
Definition sync_flags (sync : SyncMode) (full fast : Z) : bool * bool :=
  match sync with
  | FullSync => ((full =? 0) && (0 <? fast), false)
  | m => if 0 <? full then (false, false) else (true, if m is SnapSync then true else false)
  end.

(** [geth:eth/handler.go:128-174] newHandler *)
Definition newHandler (sync : SyncMode) (full fast : Z) (checkpoint : option TrustedCheckpoint) (wl : gmap Z Hash)
    (peers : Z) : EthNode :=
  let '(f, s) := sync_flags sync full fast in {|
  n_peers := newPeerSet; fastSync := f; snapSync := s; acceptTxs := false;
  checkpointNumber := match checkpoint with Some c => u64 ((SectionIndex c + 1) * CHTFrequency - 1) | None => 0 end;
  checkpointHash := match checkpoint with Some c => SectionHead c | None => zeroHash end;
  maxPeers := peers; whitelist := wl; n_block := NewBlockFetcher false; n_tx := NewTxFetcher;
  n_forced := false; n_syncing := false; n_down := [] |}.

(** Operations of the parts on the node. *)
Definition in_peers {A} (m : StM peerSet A) : StM EthNode A := fun n =>
  let '(r, ps) := m (n_peers n) in (r, set_n_peers ps n).
Definition in_block_fetcher {A} (m : StM BlockFetcher A) : StM EthNode A := fun n =>
  let '(r, f) := m (n_block n) in (r, set_n_block f n).
Definition in_tx_fetcher {A} (m : StM TxFetcher A) : StM EthNode A := fun n =>
  let '(r, f) := m (n_tx n) in (r, set_n_tx f n).

(** An operation of a registered peer. *)
Definition set_Peer (x : Peer) (p : ethPeer) : ethPeer := {| ep_Peer := x; snapExt := snapExt p; syncDrop := syncDrop p |}.
Definition set_syncDrop x (p : ethPeer) : ethPeer := {| ep_Peer := ep_Peer p; snapExt := snapExt p; syncDrop := x |}.
Definition set_peer (pid : PeerId) (p : ethPeer) (n : EthNode) : EthNode :=
  set_n_peers (set_ps_peers (<[pid := p]> (ps_peers (n_peers n))) (n_peers n)) n.
Definition find_peer (pid : PeerId) (n : EthNode) : option ethPeer := ps_peers (n_peers n) !! pid.

Definition in_peer (pid : PeerId) (m : StM Peer unit) : StM EthNode unit := fun n =>
  match find_peer pid n with
  | None => (Ok tt, n)
  | Some p => let '(r, x) := m (ep_Peer p) in (r, set_peer pid (set_Peer x p) n)
  end.

(** What the chain, the pool and the run time answer during a step.  [s_has] and
    [s_orders] are numbered by the calls of the step.  [s_parentTD] is the total
    difficulty of the parent of a block to propagate, if the parent is known. *)
Record Surroundings := {
  s_orders : nat -> BlockOrders;
  s_over : nat -> over;
  s_numbers : gset Z -> list Z;
  s_now : nat -> Z;
  s_has : nat -> Hash -> Z -> bool;
  s_txorders : Orders;
  s_hasTx : Hash -> bool;
  s_addTxs : list Transaction -> list (option PoolError);
  s_pending : list Hash;
  s_terminated : PeerId -> bool;
  s_parentTD : option Z;
  s_number : Z;
  s_fullTD : Z;
  s_fastTD : Z;
  s_pivot : option Z;
}.

(** Readings of the fetchers; the block fetcher of a full node has no function
    that looks up headers and does not use it. *)
Context (bclock height : nat -> Z) (hasBlock : nat -> Hash -> bool) (clock : nat -> AbsTime).
Definition no_headers (n : nat) (h : Hash) : bool := false.

(** *** Synchronization *)

Definition defaultMinSyncPeers : Z := 5.

(** [geth:eth/sync.go] chainSyncer.modeAndLocalHead *)
Definition modeAndLocalHead (s : Surroundings) (n : EthNode) : SyncMode * Z :=
  if fastSync n then (FastSync, s_fastTD s)
  else match s_pivot s with
       | Some pivot => if s_number s <? pivot then (FastSync, s_fastTD s) else (FullSync, s_fullTD s)
       | None => (FullSync, s_fullTD s)
       end.

(** [geth:eth/sync.go] chainSyncer.nextSyncOp *)
Definition nextSyncOp (s : Surroundings) (n : EthNode) : option (PeerId * Hash * Z * SyncMode) :=
  if n_syncing n then None
  else
    let minPeers := if n_forced n then 1
                    else if maxPeers n <? defaultMinSyncPeers then maxPeers n else defaultMinSyncPeers in
    if peers_len (n_peers n) <? minPeers then None
    else
      match peerWithHighestTD (s_over s 0) (n_peers n) with
      | None => None
      | Some (p, head, td) =>
          let '(mode, ourTD) := modeAndLocalHead s n in
          let mode := if mode is FastSync then (if snapSync n then SnapSync else FastSync) else mode in
          if td <=? ourTD then None else Some (p, head, td, mode)
      end.

Inductive sync_event := PeerEvent | SyncDone | ForceFired.

(** The case of [select], and the beginning of the next pass.
    [geth:eth/sync.go] chainSyncer.loop
    [geth:eth/sync.go] chainSyncer.startSync *)
Definition sync_pass (s : Surroundings) (ev : sync_event) (n : EthNode) : EthNode :=
  let n := match ev with
           | PeerEvent => n
           | SyncDone => set_sync false false n
           | ForceFired => set_sync true (n_syncing n) n
           end in
  match nextSyncOp s n with
  | Some (p, head, td, mode) => tell (Synchronise p head td mode) (set_sync (n_forced n) true n)
  | None => n
  end.

(** A peer joined or has a new head.
    [geth:eth/sync.go] chainSyncer.handlePeerEvent *)
Definition handlePeerEvent (s : Surroundings) : StM EthNode unit := putS (sync_pass s PeerEvent).

(** *** Broadcasts *)

(** The block [b] is an object of every peer's heap.
    [geth:eth/handler.go] handler.BroadcastBlock *)
Definition BroadcastBlock (s : Surroundings) (i : nat) (b : loc) (blk : Block) (propagate : bool) : StM EthNode unit :=
  peers ← getS (fun n => peersWithoutBlock (s_over s i) (b_hash blk) (n_peers n));
  number ← pure (number_of (b_header blk));
  if propagate then
    match s_parentTD s with
    | None => mret tt
    | Some parentTD =>
        difficulty ← pure (deref (Difficulty (b_header blk)));
        each (take (Nat.sqrt (length peers)) peers)
          (fun p => in_peer p (AsyncSendNewBlock pop_choice b (difficulty + parentTD)))
    end
  else
    if s_has s i (b_hash blk) number then each peers (fun p => in_peer p (AsyncSendNewBlockHash pop_choice b))
    else mret tt.

(** A mined block, propagated and then announced.
    [geth:eth/handler.go] handler.minedBroadcastLoop *)
Definition mined (s : Surroundings) (b : loc) (blk : Block) : StM EthNode unit :=
  _ ← BroadcastBlock s 0 b blk true;
  BroadcastBlock s 1 b blk false.

(** The hashes for each peer: to send, and to announce. *)
Definition assign (h : Hash) (ps : list PeerId) (m : gmap PeerId (list Hash)) : gmap PeerId (list Hash) :=
  fold_left (fun m p => <[p := default [] (m !! p) ++ [h]]> m) ps m.

(** [geth:eth/handler.go:481-492] handler.BroadcastTransactions *)
Fixpoint distribute (s : Surroundings) (i : nat) (ps : peerSet) (hashes : list Hash)
    (txset annos : gmap PeerId (list Hash)) : gmap PeerId (list Hash) * gmap PeerId (list Hash) :=
  match hashes with
  | [] => (txset, annos)
  | h :: rest =>
      let peers := peersWithoutTransaction (s_over s i) h ps in
      let numDirect := Nat.sqrt (length peers) in
      distribute s (S i) ps rest (assign h (take numDirect peers) txset) (assign h (drop numDirect peers) annos)
  end.

(** [geth:eth/handler.go] handler.BroadcastTransactions *)
Definition BroadcastTransactions (s : Surroundings) (hashes : list Hash) : StM EthNode unit :=
  n ← getS id;
  let '(txset, annos) := distribute s 2 (n_peers n) hashes ∅ ∅ in
  _ ← each (s_over s 0 (dom txset)) (fun p =>
        in_peer p (putS (AsyncSendTransactions pop_choice (s_terminated s p) (default [] (txset !! p)))));
  each (s_over s 1 (dom annos)) (fun p =>
    in_peer p (putS (AsyncSendPooledTransactionHashes pop_choice (s_terminated s p) (default [] (annos !! p))))).

(** *** Peers that come and go *)

(** [geth:eth/handler.go] handler.removePeer *)
Definition removePeer (pid : PeerId) : StM EthNode unit :=
  p ← getS (find_peer pid);
  match p with Some _ => putS (tell (Disconnect pid)) | None => mret tt end.

(** [geth:eth/handler.go] handler.unregisterPeer *)
Definition unregisterPeer (s : Surroundings) (pid : PeerId) : StM EthNode unit :=
  p ← getS (find_peer pid);
  match p with
  | None => mret tt
  | Some _ =>
      _ ← putS (tell (UnregisterPeer pid));
      _ ← in_tx_fetcher (pass clock (s_txorders s) (Dropped pid));
      in_peers (unregister pid)
  end.

(** [defer]: the peer is taken out again when what follows fails. *)
Definition or_unregister (s : Surroundings) (pid : PeerId) (m : StM EthNode unit) : StM EthNode unit := fun n =>
  match m n with
  | (Err e, n') => let '(_, n'') := unregisterPeer s pid n' in (Err e, n'')
  | r => r
  end.

(** [geth:eth/sync.go] handler.syncTransactions *)
Definition syncTransactions (s : Surroundings) (pid : PeerId) : StM EthNode unit :=
  if bool_decide (s_pending s = []) then mret tt
  else in_peer pid (putS (AsyncSendPooledTransactionHashes pop_choice (s_terminated s pid) (s_pending s))).

(** The slots for peers without the extension are limited during snap sync.
    [geth:eth/handler.go:264-280] handler.runEthPeer *)
Definition too_many (trusted snap : bool) (n : EthNode) : bool :=
  let all := peers_len (n_peers n) in
  let reject := snapSync n && negb snap && (snapPeers (n_peers n) + 5 <? all - snapPeers (n_peers n)) in
  negb trusted && (reject || (maxPeers n <=? all)).

(** A peer joins, with [peer] as the handshake left it; [registered] is the answer
    of the downloader.
    [geth:eth/handler.go:276-335] handler.runEthPeer *)
Definition join (s : Surroundings) (pid : PeerId) (peer : Peer) (trusted snap : bool) (registered : outcome unit) :
    StM EthNode unit :=
  full ← getS (too_many trusted snap);
  _ ← pure (ensure (negb full) DiscTooManyPeers);
  _ ← in_peers (registerPeer pid peer snap);
  or_unregister s pid (
    _ ← putS (tell (RegisterPeer pid));
    _ ← pure registered;
    _ ← handlePeerEvent s;
    _ ← syncTransactions s pid;
    n ← getS id;
    _ ← (if bool_decide (checkpointHash n = zeroHash) then mret tt
         else
           _ ← in_peer pid (RequestHeadersByNumber (checkpointNumber n) 1 0 false);
           putS (fun n => match find_peer pid n with Some p => set_peer pid (set_syncDrop true p) n | None => n end));
    each (s_numbers s (dom (whitelist n))) (fun number => in_peer pid (RequestHeadersByNumber number 1 0 false))).

(** The loop over the messages of the peer has ended.
    [geth:eth/handler.go:323-328] handler.runEthPeer *)
Definition leave (s : Surroundings) (pid : PeerId) : StM EthNode unit :=
  _ ← putS (fun n => match find_peer pid n with Some p => set_peer pid (set_syncDrop false p) n | None => n end);
  unregisterPeer s pid.

(** *** Packets *)

(** [geth:eth/fetcher/block_fetcher.go] BlockFetcher.FilterHeaders *)
Definition FilterHeaders (o : BlockOrders) (pid : PeerId) (headers : list Header) (time : Z) :
    StM BlockFetcher (list Header) :=
  _ ← prepare bclock height no_headers hasBlock o;
  _ ← timers_fire bclock;
  on_headers bclock height no_headers hasBlock o pid headers time.

(** [geth:eth/fetcher/block_fetcher.go] BlockFetcher.FilterBodies *)
Definition FilterBodies (o : BlockOrders) (pid : PeerId) (txs : list (list Tx)) (us : list (list Header)) :
    StM BlockFetcher (list (list Tx) * list (list Header)) :=
  _ ← prepare bclock height no_headers hasBlock o;
  _ ← timers_fire bclock;
  on_bodies height hasBlock o pid txs us.

(** [geth:eth/fetcher/block_fetcher.go] BlockFetcher.Notify *)
Definition Notify_block (o : BlockOrders) (pid : PeerId) (h : Hash) (number time : Z) : StM BlockFetcher unit :=
  bf_pass bclock height no_headers hasBlock o
    (BlockAnnounced {| ba_hash := h; ba_number := number; ba_header := None; ba_time := time; ba_origin := pid |}).

(** [geth:eth/fetcher/block_fetcher.go] BlockFetcher.Enqueue *)
Definition Enqueue_block (o : BlockOrders) (pid : PeerId) (b : FullBlock) : StM BlockFetcher unit :=
  bf_pass bclock height no_headers hasBlock o (BlockInjected pid b).

(** [geth:eth/handler_eth.go] ethHandler.handleHeaders *)
Definition handleHeaders (s : Surroundings) (pid : PeerId) (headers : list Header) : StM EthNode unit :=
  n ← getS id;
  match find_peer pid n with
  | None => pure (Err errUnregistered)
  | Some p =>
      match headers with
      | [] =>
          _ ← (if syncDrop p then
                 _ ← putS (set_peer pid (set_syncDrop false p));
                 pure (ensure (negb (fastSync n)) errUnsynced)
               else mret tt);
          putS (tell (DeliverHeaders pid []))
      | [h] =>
          number ← pure (number_of h);
          if syncDrop p && (number =? checkpointNumber n) then
            _ ← putS (set_peer pid (set_syncDrop false p));
            pure (ensure (bool_decide (header_hash h = checkpointHash n)) errCheckpoint)
          else
            _ ← pure (ensure (match whitelist n !! number with
                              | Some want => bool_decide (want = header_hash h)
                              | None => true
                              end) errWhitelist);
            rest ← in_block_fetcher (FilterHeaders (s_orders s 0) pid [h] (s_now s 0));
            if bool_decide (rest = []) then mret tt else putS (tell (DeliverHeaders pid rest))
      | l => putS (tell (DeliverHeaders pid l))
      end
  end.

(** [geth:eth/handler_eth.go] ethHandler.handleBodies *)
Definition handleBodies (s : Surroundings) (pid : PeerId) (txs : list (list Tx)) (us : list (list Header)) :
    StM EthNode unit :=
  let filter := negb (bool_decide (txs = []) && bool_decide (us = [])) in
  '(txs, us) ← (if filter then in_block_fetcher (FilterBodies (s_orders s 0) pid txs us) else mret (txs, us));
  if negb (bool_decide (txs = []) && bool_decide (us = [])) || negb filter
  then putS (tell (DeliverBodies pid txs us)) else mret tt.

(** [geth:eth/handler_eth.go] ethHandler.handleBlockAnnounces *)
Definition handleBlockAnnounces (s : Surroundings) (pid : PeerId) (l : list (Hash * Z)) : StM EthNode unit :=
  let unknown := (filter (fun x : nat * (Hash * Z) => s_has s x.1 x.2.1 x.2.2 = false) (imap pair l)).*2 in
  each (imap pair unknown) (fun x =>
    in_block_fetcher (Notify_block (s_orders s x.1) pid x.2.1 x.2.2 (s_now s x.1))).

(** [geth:eth/handler_eth.go] ethHandler.handleBlockBroadcast *)
Definition handleBlockBroadcast (s : Surroundings) (pid : PeerId) (b : FullBlock) (TD : Z) : StM EthNode unit :=
  _ ← in_block_fetcher (Enqueue_block (s_orders s 0) pid b);
  difficulty ← pure (deref (Difficulty (header b)));
  let trueTD := TD - difficulty in
  p ← getS (find_peer pid);
  match p with
  | Some p =>
      if (Head (ep_Peer p)).2 <? trueTD then
        _ ← putS (set_peer pid (set_Peer (SetHead (ParentHash (header b)) trueTD (ep_Peer p)) p));
        handlePeerEvent s
      else mret tt
  | None => mret tt
  end.

(** What the protocol handlers pass on. *)
Inductive Received :=
| RBlockHeaders (l : list Header)
| RBlockBodies (l : list (list Tx * list Header))
| RNodeData (l : list bytes)
| RReceipts (l : list (list InReceipt))
| RNewBlockHashes (l : list (Hash * Z))
| RNewBlock (b : FullBlock) (TD : Z)
| RNewPooledTransactionHashes (l : list Hash)
| RTransactions (l : list Transaction)
| RPooledTransactions (l : list Transaction)
| RUnexpected.

(** [geth:eth/handler_eth.go:96-100] ethHandler.Handle *)
Definition handle_txs (s : Surroundings) (pid : PeerId) (txs : list Transaction) (direct : bool) : StM EthNode unit :=
  in_tx_fetcher (
    d ← Enqueue (s_txorders s) (s_addTxs s) pid txs direct;
    pass clock (s_txorders s) (Delivered d)).

(** [geth:eth/handler_eth.go] ethHandler.Handle *)
Definition Handle (s : Surroundings) (pid : PeerId) (r : Received) : StM EthNode unit :=
  match r with
  | RBlockHeaders l => handleHeaders s pid l
  | RBlockBodies l => handleBodies s pid l.*1 l.*2
  | RNodeData l => putS (tell (DeliverNodeData pid l))
  | RReceipts l => putS (tell (DeliverReceipts pid l))
  | RNewBlockHashes l => handleBlockAnnounces s pid l
  | RNewBlock b TD => handleBlockBroadcast s pid b TD
  | RNewPooledTransactionHashes l => in_tx_fetcher (fun f =>
      match Notify (s_hasTx s) pid l f with
      | Some ann => pass clock (s_txorders s) (Announced ann) f
      | None => (Ok tt, f)
      end)
  | RTransactions l => handle_txs s pid l false
  | RPooledTransactions l => handle_txs s pid l true
  | RUnexpected => pure (Err errUnexpectedPacket)
  end.

(** *** The end of a synchronization *)

(** [result] is what the downloader returned; [b] is the new head, with its time.
    [geth:eth/sync.go:230-262] handler.doSync *)
Definition doSync (s : Surroundings) (result : outcome unit) (b : loc) (blk : Block) (time monthAgo : Z) : StM EthNode unit :=
  _ ← pure result;
  number ← pure (number_of (b_header blk));
  _ ← putS (fun n => set_flags false false (acceptTxs n || ((checkpointNumber n <=? number) && (monthAgo <=? time))) n);
  if 0 <? number then BroadcastBlock s 1 b blk false else mret tt.

(** The inserter of the block fetcher: whether a block goes to the chain, and what
    a success changes.
    [geth:eth/handler.go:194-219] newHandler *)
Definition inserts (number : Z) (n : EthNode) : bool :=
  negb (number <? checkpointNumber n) && negb (fastSync n).
Definition inserter (number : Z) (inserted : outcome unit) : StM EthNode unit :=
  n ← getS id;
  if inserts number n then
    _ ← pure inserted;
    putS (set_flags (fastSync n) (snapSync n) true)
  else mret tt.

(** *** Steps *)

Inductive nstep :=
| SPacket (pid : PeerId) (r : Received)
| SBlockPass (o : BlockOrders) (ev : bevent)
| STxPass (o : Orders) (ev : event)
| SJoin (pid : PeerId) (peer : Peer) (trusted snap : bool) (registered : outcome unit)
| SLeave (pid : PeerId)
| SMined (b : loc) (blk : Block)
| STransactions (hashes : list Hash)
| SSync (ev : sync_event)
| SInserted (number : Z) (inserted : outcome unit)
| SSynced (result : outcome unit) (b : loc) (blk : Block) (time monthAgo : Z)
| SSnap (compatible : bool) (pid : PeerId)
| SWait (compatible : bool) (pid : PeerId)
| SDrop (pid : PeerId)
| SClose.

(** A packet is handled while its peer is registered. *)
Definition node_step (s : Surroundings) (st : nstep) : StM EthNode unit :=
  match st with
  | SPacket pid r => fun n => if is_peer pid (n_peers n) then Handle s pid r n else (Ok tt, n)
  | SBlockPass o ev => in_block_fetcher (bf_pass bclock height no_headers hasBlock o ev)
  | STxPass o ev => in_tx_fetcher (pass clock o ev)
  | SJoin pid peer trusted snap registered => join s pid peer trusted snap registered
  | SLeave pid => leave s pid
  | SMined b blk => mined s b blk
  | STransactions hashes => BroadcastTransactions s hashes
  | SSync ev => putS (sync_pass s ev)
  | SInserted number inserted => inserter number inserted
  | SSynced result b blk time monthAgo => doSync s result b blk time monthAgo
  | SSnap compatible pid => in_peers (_ ← registerSnapExtension compatible pid; mret tt)
  | SWait compatible pid => in_peers (_ ← waitSnapExtension compatible pid; mret tt)
  | SDrop pid => removePeer pid
  | SClose => putS (fun n => set_n_peers (close (n_peers n)) n)
  end.

(** A step that fails closes a connection; the node goes on. *)
Fixpoint node_run (steps : list (Surroundings * nstep)) : StM EthNode unit :=
  match steps with
  | [] => mret tt
  | (s, st) :: steps => fun n =>
      match node_step s st n with
      | (Panic m, n') => (Panic m, n')
      | (_, n') => node_run steps n'
      end
  end.
End Node.
