(* ===== verification/EthNodeSpec.v ===== *)
(** * Correctness of the node

    The invariant of the peer set; to whom a mined block and transactions go; when
    a synchronization starts; and that, whatever peers send, the node runs on and
    imports only what was sent or announced to it. *)

From S2P Require Import Prelude Rlp EthTypes CliqueSnapshot Clique Randomness GethFuzzer GoHeap TxByPrice Miner.
From S2P Require Import TxFetcher TxFetcherSpec TxFetcherLoop BlockFetcher BlockFetcherSpec EthNode.

(** The orders of an iteration over a set. *)
Definition visits (o : over) : Prop := forall s, o s ≡ₚ elements s.

Section PeerSets.
Context {Rnd : Randomness}.

(** ** The peer set *)

Definition with_snap (x : PeerId * ethPeer) : Prop := snapExt x.2 = true.
#[local] Instance with_snap_dec x : Decision (with_snap x).
Proof. unfold with_snap. apply _. Defined.

Definition snap_count (m : gmap PeerId ethPeer) : nat := size (filter with_snap m).

(** The counter is exact, and nobody both waits for an extension and is waited
    for. *)
Record peerset_ok (ps : peerSet) : Prop := {
  pk_count : snapPeers ps = Z.of_nat (snap_count (ps_peers ps));
  pk_apart : snapWait ps ## snapPend ps;
}.

Lemma snap_count_le m : (snap_count m <= size m)%nat.
Proof. apply map_subseteq_size, map_filter_subseteq. Qed.

Lemma snap_count_insert m p x :
  m !! p = None -> snap_count (<[p := x]> m) = (snap_count m + if snapExt x then 1 else 0)%nat.
Proof.
  intros Hm. unfold snap_count. destruct (snapExt x) eqn:E.
  - rewrite map_filter_insert_True by done. rewrite map_size_insert_None; [lia|]. apply map_lookup_filter_None. by left.
  - rewrite map_filter_insert_False by (unfold with_snap; cbn; congruence). rewrite delete_id by done. lia.
Qed.

Lemma snap_count_delete m p x :
  m !! p = Some x -> (snap_count (delete p m) + if snapExt x then 1 else 0)%nat = snap_count m.
Proof.
  intros Hm. rewrite <- (insert_delete_id m p x Hm) at 2.
  by rewrite (snap_count_insert (delete p m) p x) by apply lookup_delete_eq.
Qed.

Lemma snap_count_update m p x y : m !! p = Some x -> snapExt y = snapExt x -> snap_count (<[p := y]> m) = snap_count m.
Proof.
  intros Hm E. rewrite <- (snap_count_delete m p x Hm), <- insert_delete_eq.
  rewrite snap_count_insert by apply lookup_delete_eq. by rewrite E.
Qed.

(** The operations of the peer set. *)
Inductive peerset_op : Type :=
| OpSnap (compatible : bool) (p : PeerId)
| OpWait (compatible : bool) (p : PeerId)
| OpRegister (p : PeerId) (peer : Peer) (ext : bool)
| OpUnregister (p : PeerId).

Definition run_op (op : peerset_op) : StM peerSet unit :=
  match op with
  | OpSnap c p => _ ← registerSnapExtension c p; mret tt
  | OpWait c p => _ ← waitSnapExtension c p; mret tt
  | OpRegister p peer ext => registerPeer p peer ext
  | OpUnregister p => unregister p
  end.

Lemma registerPeer_ok p peer ext ps :
  peerset_ok ps -> peerset_ok (registerPeer p peer ext ps).2 /\ forall m, (registerPeer p peer ext ps).1 <> Panic m.
Proof.
  intros [H1 H2]. unfold registerPeer, mbind, StM_bind, getS, putS, pure, is_peer, ensure. cbn.
  destruct (ps_closed ps); cbn; [by split|]. case_bool_decide as E; cbn; [by split|].
  assert (ps_peers ps !! p = None) as Hp by (destruct (ps_peers ps !! p) eqn:E'; [destruct E; eauto|done]).
  destruct ext; cbn; (split; [|done]); split; cbn; try done; rewrite snap_count_insert by done; cbn; lia.
Qed.

Lemma unregister_ok p ps :
  peerset_ok ps -> peerset_ok (unregister p ps).2 /\ forall m, (unregister p ps).1 <> Panic m.
Proof.
  intros [H1 H2]. unfold unregister, mbind, StM_bind, getS, putS, pure. cbn.
  destruct (ps_peers ps !! p) as [x|] eqn:E; cbn; [|by split].
  pose proof (snap_count_delete _ _ _ E) as Hc.
  destruct (snapExt x); cbn; (split; [|done]); split; cbn; try done; lia.
Qed.

Lemma run_op_ok op ps : peerset_ok ps -> peerset_ok (run_op op ps).2 /\ forall m, (run_op op ps).1 <> Panic m.
Proof.
  intros Hps. destruct op as [c p|c p|p peer ext|p]; cbn [run_op].
  - destruct Hps as [H1 H2]. unfold registerSnapExtension, mbind, StM_bind, getS, putS, pure, ensure. cbn.
    destruct c; cbn; [|by split]. destruct (is_peer p ps); cbn; [by split|].
    case_bool_decide; cbn; [by split|]. case_bool_decide; cbn; (split; [|done]); split; cbn; try done; set_solver.
  - destruct Hps as [H1 H2]. unfold waitSnapExtension. destruct c; cbn; [|by split].
    unfold mbind, StM_bind, getS, putS, pure, ensure. cbn. destruct (is_peer p ps); cbn; [by split|].
    case_bool_decide; cbn; [by split|]. case_bool_decide; cbn; (split; [|done]); split; cbn; try done; set_solver.
  - by apply registerPeer_ok.
  - by apply unregister_ok.
Qed.

(** The peer set counts its peers: after any operations the number of snap peers
    is that of the registered peers with the extension, so at most the number of
    peers; nobody is listed both as waiting and as waited for. *)
Theorem peerset_counts ops :
  let ps := fold_left (fun ps op => (run_op op ps).2) ops newPeerSet in
  peerset_ok ps /\ 0 <= snapPeers ps <= peers_len ps.
Proof.
  cbv zeta. assert (forall ps, peerset_ok ps -> peerset_ok (fold_left (fun ps op => (run_op op ps).2) ops ps)) as H.
  { induction ops as [|op ops IH]; intros ps Hps; cbn; [done|]. apply IH. by apply run_op_ok. }
  assert (peerset_ok newPeerSet) as H0.
  { split; [|set_solver]. unfold snap_count. cbn. by rewrite map_filter_empty, map_size_empty. }
  split; [by apply H|]. destruct (H newPeerSet H0) as [-> _]. unfold peers_len.
  pose proof (snap_count_le (ps_peers (fold_left (fun ps op => (run_op op ps).2) ops newPeerSet))). lia.
Qed.

(** ** Synchronization *)

(** The best of the peers that were looked at. *)
Definition best_of (ps : peerSet) (seen : list PeerId) (best : option (PeerId * Hash * Z)) : Prop :=
  match best with
  | None => forall q, q ∈ seen -> ps_peers ps !! q = None
  | Some (p, hash, t) => (exists x, ps_peers ps !! p = Some x /\ Head (ep_Peer x) = (hash, t)) /\
      forall q y, q ∈ seen -> ps_peers ps !! q = Some y -> td (ep_Peer y) <= t
  end.

Lemma best_of_step ps seen best q :
  best_of ps seen best ->
  best_of ps (seen ++ [q])
    (match ps_peers ps !! q with
     | None => best
     | Some p =>
         let '(hash, td) := Head (ep_Peer p) in
         match best with
         | Some (_, _, bestTd) => if bestTd <? td then Some (q, hash, td) else best
         | None => Some (q, hash, td)
         end
     end).
Proof.
  intros Hb. destruct (ps_peers ps !! q) as [x|] eqn:E.
  - destruct (Head (ep_Peer x)) as [hash t] eqn:Eh. assert (t = td (ep_Peer x)) as Et by (unfold Head in Eh; congruence).
    assert (best_of ps (seen ++ [q]) (Some (q, hash, t)) <->
            forall q' y, q' ∈ seen -> ps_peers ps !! q' = Some y -> td (ep_Peer y) <= t) as Hnew.
    { cbn. split; [intros [_ H] q' y Hq; apply H, elem_of_app; by left|].
      intros H. split; [by exists x|]. intros q' y [Hq|Hq]%elem_of_app Hy; [eauto|].
      apply list_elem_of_singleton in Hq as ->. rewrite E in Hy. injection Hy as <-. lia. }
    destruct best as [[[p hash'] t']|]; cbn in Hb.
    + destruct (Z.ltb_spec t' t) as [Hlt|Hge].
      * apply Hnew. intros q' y Hq Hy. destruct Hb as [_ Hb]. specialize (Hb q' y Hq Hy). lia.
      * destruct Hb as [Hx Hb]. split; [done|]. intros q' y [Hq|Hq]%elem_of_app Hy; [eauto|].
        apply list_elem_of_singleton in Hq as ->. rewrite E in Hy. injection Hy as <-. lia.
    + apply Hnew. intros q' y Hq Hy. rewrite (Hb q' Hq) in Hy. done.
  - destruct best as [[[p hash'] t']|]; cbn in *.
    + destruct Hb as [Hx Hb]. split; [done|]. intros q' y [Hq|Hq]%elem_of_app Hy; [eauto|].
      apply list_elem_of_singleton in Hq as ->. congruence.
    + intros q' [Hq|Hq]%elem_of_app; [eauto|]. by apply list_elem_of_singleton in Hq as ->.
Qed.

Lemma peerWithHighestTD_best o ps : best_of ps (o (dom (ps_peers ps))) (peerWithHighestTD o ps).
Proof.
  unfold peerWithHighestTD. set (step := fun best pid => _).
  assert (forall l seen best, best_of ps seen best -> best_of ps (seen ++ l) (fold_left step l best)) as H.
  { induction l as [|q l IH]; intros seen best Hb; cbn; [by rewrite app_nil_r|].
    replace (seen ++ q :: l) with ((seen ++ [q]) ++ l) by (by rewrite <- app_assoc). apply IH. by apply best_of_step. }
  apply (H _ [] None). by intros q ?%not_elem_of_nil.
Qed.

Lemma visited o (ps : peerSet) q : visits o -> is_Some (ps_peers ps !! q) -> q ∈ o (dom (ps_peers ps)).
Proof. intros Ho Hq. rewrite (Ho _). apply elem_of_elements. by apply elem_of_dom. Qed.
End PeerSets.

Section Sync.
Context {Rnd : Randomness} {Crypto : EthCrypto} {TH : TrieHasher} {ME : MinerEnv}.

(** The number of peers a synchronization waits for. *)
Definition min_peers (n : EthNode) : Z := if n_forced n then 1 else Z.min 5 (maxPeers n).

(** C29. When the node synchronizes and with whom: exactly when it is not doing so,
    has enough peers (five or as many as it admits, one after the timer), and
    some peer claims more total difficulty than the local head of the mode; and
    then with a peer that claims the most, from the head that peer claims,
    whatever the order in which the peers are looked at. *)
Theorem nextSyncOp_spec s n :
  visits (s_over s 0) ->
  let ourTD := (modeAndLocalHead s n).2 in
  (is_Some (nextSyncOp s n) <->
     n_syncing n = false /\ min_peers n <= peers_len (n_peers n) /\
     exists q x, find_peer q n = Some x /\ ourTD < td (ep_Peer x)) /\
  (forall p hash t mode, nextSyncOp s n = Some (p, hash, t, mode) ->
     (exists x, find_peer p n = Some x /\ Head (ep_Peer x) = (hash, t)) /\ ourTD < t /\
     (forall q y, find_peer q n = Some y -> td (ep_Peer y) <= t) /\
     (mode = SnapSync -> snapSync n = true) /\ (mode = FullSync -> fastSync n = false)).
Proof.
  intros Ho ourTD. unfold nextSyncOp, find_peer, ourTD.
  pose proof (peerWithHighestTD_best (s_over s 0) (n_peers n)) as Hb.
  assert (min_peers n = (if n_forced n then 1 else if maxPeers n <? defaultMinSyncPeers then maxPeers n else defaultMinSyncPeers)) as Hmin.
  { unfold min_peers, defaultMinSyncPeers. destruct (n_forced n); [done|]. destruct (Z.ltb_spec (maxPeers n) 5); lia. }
  rewrite <- Hmin. destruct (n_syncing n); [split; [|done]; by split; [intros []|intros [? _]]|].
  destruct (Z.ltb_spec (peers_len (n_peers n)) (min_peers n)) as [Hlt|Hge]; [split; [|done]; split; [intros []|intros (_ & ? & _)]; done || lia|].
  destruct (peerWithHighestTD (s_over s 0) (n_peers n)) as [[[p hash] t]|]; cbn in Hb.
  - destruct Hb as [Hx Hb]. destruct (modeAndLocalHead s n) as [mode our] eqn:Em. cbn.
    assert (forall q y, ps_peers (n_peers n) !! q = Some y -> td (ep_Peer y) <= t) as Hall.
    { intros q y Hy. apply (Hb q y); [|done]. apply visited; [done|by eexists]. }
    destruct (Z.leb_spec t our) as [Hle|Hgt].
    + split; [|done]. split; [intros []; done|]. intros (_ & _ & q & y & Hy & Hlt). specialize (Hall q y Hy). lia.
    + split.
      * split; [|by eexists]. intros _. split_and!; [done|done|]. destruct Hx as (x & Hx & Eh). exists p, x. split; [done|].
        unfold Head in Eh. injection Eh as _ ->. done.
      * intros p' hash' t' mode' [= <- <- <- <-]. split_and!; [done|done|done| |].
        -- unfold modeAndLocalHead in Em. repeat case_match; simplify_eq; done.
        -- unfold modeAndLocalHead in Em. repeat case_match; simplify_eq; done.
  - split; [|done]. split; [intros []; done|]. intros (_ & _ & q & y & Hy & _).
    rewrite (Hb q) in Hy; [done|]. apply visited; [done|by eexists].
Qed.
End Sync.

Section Broadcast.
Context {Rnd : Randomness} {Crypto : EthCrypto} {TH : TrieHasher} {ME : MinerEnv}.
Context (pop_choice : gset Hash -> option Hash).

(** ** Broadcasts *)

Definition with_map (M : gmap PeerId ethPeer) (n : EthNode) : EthNode := set_n_peers (set_ps_peers M (n_peers n)) n.

(** Every peer of a list does something on its own. *)
Lemma each_in_peer (m : PeerId -> StM Peer unit) (g : PeerId -> Peer -> Peer) l n :
  NoDup l -> (forall p x, p ∈ l -> find_peer p n = Some x -> m p (ep_Peer x) = (Ok tt, g p (ep_Peer x))) ->
  runs (each l (fun p => in_peer p (m p))) n (fun _ n' => exists M, n' = with_map M n /\
    forall p, M !! p = if decide (p ∈ l) then (fun x => set_Peer (g p (ep_Peer x)) x) <$> find_peer p n else find_peer p n).
Proof.
  intros Hnd. revert n. induction Hnd as [|p l Hp Hnd IH]; intros n Hm; cbn [each].
  { apply total_ret. exists (ps_peers (n_peers n)). split; [by destruct n as [[]]|]. intros p. by rewrite decide_False by apply not_elem_of_nil. }
  apply total_bind.
  assert (runs (in_peer p (m p)) n (fun _ n1 => exists M, n1 = with_map M n /\
    forall q, M !! q = if decide (q = p) then (fun x => set_Peer (g p (ep_Peer x)) x) <$> find_peer p n else find_peer q n)) as H1.
  { unfold runs, in_peer. destruct (find_peer p n) as [x|] eqn:E.
    - rewrite (Hm p x (list_elem_of_here _ _) E). eexists _, _. split; [reflexivity|]. eexists. split; [reflexivity|].
      intros q. case_decide as Eq; [subst; by rewrite lookup_insert_eq|by rewrite lookup_insert_ne].
    - eexists _, _. split; [reflexivity|]. exists (ps_peers (n_peers n)). split; [by destruct n as [[]]|].
      intros q. case_decide as Eq; [by subst|done]. }
  apply (runs_weaken _ _ _ _ H1). intros _ n1 (M1 & -> & HM1).
  assert (forall q, q ∈ l -> find_peer q (with_map M1 n) = find_peer q n) as Hsame.
  { intros q Hq. unfold find_peer. cbn. rewrite HM1. rewrite decide_False by congruence. done. }
  eapply runs_weaken.
  { apply (IH (with_map M1 n)). intros q x Hq. rewrite (Hsame q Hq). apply Hm. by apply list_elem_of_further. }
  intros _ n2 (M2 & -> & HM2). exists M2. split; [done|]. intros q. rewrite HM2.
  assert (find_peer q (with_map M1 n) = M1 !! q) as -> by done. rewrite HM1.
  destruct (decide (q = p)) as [->|Hne].
  - rewrite decide_False by done. by rewrite decide_True by apply list_elem_of_here.
  - destruct (decide (q ∈ l)); [rewrite decide_True by (by apply list_elem_of_further); done|].
    rewrite decide_False; [done|]. by intros [->|?]%elem_of_cons.
Qed.

(** The effects of the asynchronous sends. *)
Definition got_block (h : Hash) (b : loc) (t : Z) (p : Peer) : Peer :=
  if (length (queuedBlocks p) <? maxQueuedBlocks)%nat
  then markBlock pop_choice h (set_queues (queuedBlocks p ++ [(b, t)]) (queuedBlockAnns p) (txBroadcast p) (GethFuzzer.txAnnounce p) p)
  else p.
Definition got_hash (h : Hash) (b : loc) (p : Peer) : Peer :=
  if (length (queuedBlockAnns p) <? maxQueuedBlockAnns)%nat
  then markBlock pop_choice h (set_queues (queuedBlocks p) (queuedBlockAnns p ++ [b]) (txBroadcast p) (GethFuzzer.txAnnounce p) p)
  else p.

(** The block is an object of the peer's heap. *)
Definition holds (b : loc) (h : Hash) (p : Peer) : Prop := exists blk, blocks (heap p) !! b = Some blk /\ b_hash blk = h.

Lemma AsyncSendNewBlock_got b h t p : holds b h p -> AsyncSendNewBlock pop_choice b t p = (Ok tt, got_block h b t p).
Proof.
  intros (blk & Hb & Hh). unfold AsyncSendNewBlock, got_block, mbind, StM_bind, getS, putS, askS.
  destruct (length (queuedBlocks p) <? maxQueuedBlocks)%nat; [|done]. cbn. rewrite Hb. cbn. by rewrite Hh.
Qed.

Lemma AsyncSendNewBlockHash_got b h p : holds b h p -> AsyncSendNewBlockHash pop_choice b p = (Ok tt, got_hash h b p).
Proof.
  intros (blk & Hb & Hh). unfold AsyncSendNewBlockHash, got_hash, mbind, StM_bind, getS, putS, askS.
  destruct (length (queuedBlockAnns p) <? maxQueuedBlockAnns)%nat; [|done]. cbn. rewrite Hb. cbn. by rewrite Hh.
Qed.

Lemma markBlock_known h p : KnownBlock h (markBlock pop_choice h p) = true.
Proof. apply bool_decide_eq_true. cbn. unfold mark_one. set_solver. Qed.

Lemma got_block_heap h b t p : heap (got_block h b t p) = heap p.
Proof. unfold got_block. by destruct (_ <? _)%nat. Qed.
Lemma got_hash_heap h b p : heap (got_hash h b p) = heap p.
Proof. unfold got_hash. by destruct (_ <? _)%nat. Qed.

(** What becomes of a peer in the broadcast of a block, [whole] if it is one of those
    the block is propagated to: it knew the block and nothing is sent; the block
    is queued for it, if it is one of those and has room; otherwise its hash is
    queued, unless there is no room for it either. *)
Inductive informed (h : Hash) (b : loc) (t : Z) (whole : bool) (p : Peer) : Peer -> Prop :=
| InfKnew : KnownBlock h p = true -> informed h b t whole p p
| InfBlock p' : whole = true -> (length (queuedBlocks p) < maxQueuedBlocks)%nat ->
    KnownBlock h p = false -> KnownBlock h p' = true ->
    queuedBlocks p' = queuedBlocks p ++ [(b, t)] -> queuedBlockAnns p' = queuedBlockAnns p -> informed h b t whole p p'
| InfHash p' : (whole = true -> (maxQueuedBlocks <= length (queuedBlocks p))%nat) ->
    (length (queuedBlockAnns p) < maxQueuedBlockAnns)%nat ->
    KnownBlock h p = false -> KnownBlock h p' = true ->
    queuedBlocks p' = queuedBlocks p -> queuedBlockAnns p' = queuedBlockAnns p ++ [b] -> informed h b t whole p p'
| InfFull : (whole = true -> (maxQueuedBlocks <= length (queuedBlocks p))%nat) ->
    (maxQueuedBlockAnns <= length (queuedBlockAnns p))%nat -> KnownBlock h p = false -> informed h b t whole p p.

Lemma got_hash_informed h b t (whole : bool) p :
  (whole = true -> (maxQueuedBlocks <= length (queuedBlocks p))%nat) ->
  KnownBlock h p = false -> informed h b t whole p (got_hash h b p).
Proof.
  intros Hw Hk. unfold got_hash. destruct (Nat.ltb_spec (length (queuedBlockAnns p)) maxQueuedBlockAnns).
  - apply InfHash; [done|done|done|apply markBlock_known|done|done].
  - apply InfFull; [done|lia|done].
Qed.

Lemma peersWithoutBlock_elem o h ps p :
  visits o -> p ∈ peersWithoutBlock o h ps <-> exists x, ps_peers ps !! p = Some x /\ KnownBlock h (ep_Peer x) = false.
Proof.
  intros Ho. unfold peersWithoutBlock. rewrite list_elem_of_filter, fmap_Some. split.
  - intros [(x & Hx & E) _]. by exists x.
  - intros (x & Hx & E). split; [by exists x|]. apply visited; [done|by eexists].
Qed.

Lemma peersWithoutBlock_NoDup o h ps : visits o -> NoDup (peersWithoutBlock o h ps).
Proof. intros Ho. apply NoDup_filter. rewrite (Ho _). apply NoDup_elements. Qed.

Lemma BroadcastBlock_propagates s i b blk n parentTD d number :
  visits (s_over s i) -> s_parentTD s = Some parentTD -> Difficulty (b_header blk) = Some d ->
  number_of (b_header blk) = Ok number -> (forall p x, find_peer p n = Some x -> holds b (b_hash blk) (ep_Peer x)) ->
  let chosen := take (Nat.sqrt (length (peersWithoutBlock (s_over s i) (b_hash blk) (n_peers n))))
                  (peersWithoutBlock (s_over s i) (b_hash blk) (n_peers n)) in
  runs (BroadcastBlock pop_choice s i b blk true) n (fun _ n' => exists M, n' = with_map M n /\
    forall p, M !! p = if decide (p ∈ chosen) then (fun x => set_Peer (got_block (b_hash blk) b (d + parentTD) (ep_Peer x)) x)
                                                    <$> find_peer p n else find_peer p n).
Proof.
  intros Ho Hp Hd Hn Hh chosen. unfold BroadcastBlock. apply total_bind, runs_get, total_bind, (runs_Ok number); [done|].
  rewrite Hp. apply total_bind, (runs_Ok d); [by rewrite Hd|].
  apply (each_in_peer (fun _ => AsyncSendNewBlock pop_choice b (d + parentTD)) (fun _ => got_block (b_hash blk) b (d + parentTD))).
  - eapply sublist_NoDup; [by apply peersWithoutBlock_NoDup|apply sublist_take].
  - intros p x _ Hx. apply AsyncSendNewBlock_got. eauto.
Qed.

Lemma BroadcastBlock_announces s i b blk n number :
  visits (s_over s i) -> number_of (b_header blk) = Ok number -> s_has s i (b_hash blk) number = true ->
  (forall p x, find_peer p n = Some x -> holds b (b_hash blk) (ep_Peer x)) ->
  runs (BroadcastBlock pop_choice s i b blk false) n (fun _ n' => exists M, n' = with_map M n /\
    forall p, M !! p = (fun x => if KnownBlock (b_hash blk) (ep_Peer x) then x
                                 else set_Peer (got_hash (b_hash blk) b (ep_Peer x)) x) <$> find_peer p n).
Proof.
  intros Ho Hn Hhas Hh. unfold BroadcastBlock. apply total_bind, runs_get, total_bind, (runs_Ok number); [done|].
  rewrite Hhas. eapply runs_weaken.
  { apply (each_in_peer (fun _ => AsyncSendNewBlockHash pop_choice b) (fun _ => got_hash (b_hash blk) b)).
    - by apply peersWithoutBlock_NoDup.
    - intros p x _ Hx. apply AsyncSendNewBlockHash_got. eauto. }
  intros _ n' (M & -> & HM). exists M. split; [done|]. intros p. rewrite HM.
  unfold find_peer in *. destruct (ps_peers (n_peers n) !! p) as [x|] eqn:E; cbn; [|by case_decide].
  destruct (KnownBlock (b_hash blk) (ep_Peer x)) eqn:Ek.
  - rewrite decide_False; [done|]. rewrite peersWithoutBlock_elem by done. intros (y & Hy & Ek'). congruence.
  - rewrite decide_True; [done|]. apply peersWithoutBlock_elem; [done|]. by exists x.
Qed.

(** C28. A mined block reaches everybody.  Let the peers that do not know it be in the
    order in which they are visited.  The first of them, as many as the square
    root of their number, are sent the whole block with its total difficulty, if
    their queue of blocks has room; all others, and those of the first whose
    queue is full, are announced its hash, if their queue of announcements has
    room.  Who is sent the block or its hash is then known to have it; nobody is
    sent both; and who knew it already is left alone.  The parent of the block
    and the block itself are in the chain. *)
Theorem mined_reaches_peers s n b blk parentTD d number :
  visits (s_over s 0) -> visits (s_over s 1) -> s_parentTD s = Some parentTD -> Difficulty (b_header blk) = Some d ->
  number_of (b_header blk) = Ok number -> s_has s 1 (b_hash blk) number = true ->
  (forall p x, find_peer p n = Some x -> holds b (b_hash blk) (ep_Peer x)) ->
  let unknown := peersWithoutBlock (s_over s 0) (b_hash blk) (n_peers n) in
  NoDup unknown /\
  (forall p, p ∈ unknown <-> exists x, find_peer p n = Some x /\ KnownBlock (b_hash blk) (ep_Peer x) = false) /\
  exists n', mined pop_choice s b blk n = (Ok tt, n') /\
    (forall p, find_peer p n = None -> find_peer p n' = None) /\
    forall p x, find_peer p n = Some x -> exists x', find_peer p n' = Some x' /\
      informed (b_hash blk) b (d + parentTD) (bool_decide (p ∈ take (Nat.sqrt (length unknown)) unknown))
        (ep_Peer x) (ep_Peer x').
Proof.
  intros Ho0 Ho1 Hp Hd Hn Hhas Hh unknown. split; [by apply peersWithoutBlock_NoDup|].
  split; [intros p; by apply peersWithoutBlock_elem|]. set (h := b_hash blk) in *.
  destruct (BroadcastBlock_propagates s 0 b blk n parentTD d number Ho0 Hp Hd Hn Hh) as ([] & n1 & E1 & M1 & -> & HM1).
  fold h unknown in HM1. set (chosen := take _ _) in *. set (n1 := with_map M1 n) in *.
  assert (forall p x, find_peer p n1 = Some x -> holds b h (ep_Peer x)) as Hh1.
  { intros p y. unfold find_peer. cbn. rewrite HM1. case_decide; [|by apply Hh].
    intros (x & Hx & ->)%fmap_Some. destruct (Hh p x Hx) as (blk' & Hb & E). exists blk'. cbn. by rewrite got_block_heap. }
  destruct (BroadcastBlock_announces s 1 b blk n1 number Ho1 Hn Hhas Hh1) as ([] & n2 & E2 & M2 & -> & HM2). fold h in HM2.
  exists (with_map M2 n1). split; [unfold mined; by rewrite (StM_run _ _ _ _ _ E1)|].
  assert (forall p, p ∈ chosen -> exists x, find_peer p n = Some x /\ KnownBlock h (ep_Peer x) = false) as Hch.
  { intros p Hin. apply (peersWithoutBlock_elem (s_over s 0)); [done|].
    eapply elem_of_sublist; [exact Hin|apply sublist_take]. }
  assert (forall p, find_peer p (with_map M2 n1) = M2 !! p) as Ef2 by done.
  assert (forall p, find_peer p n1 = M1 !! p) as Ef1 by done.
  split; [intros p Hnone; rewrite Ef2, HM2, Ef1, HM1, Hnone; by case_decide|].
  intros p x Hx. rewrite Ef2, HM2, Ef1, HM1, Hx. cbn. case_decide as Hin; cbn.
  - rewrite bool_decide_true by done. destruct (Hch p Hin) as (y & Hy & Hk). assert (y = x) as -> by congruence.
    unfold got_block. destruct (Nat.ltb_spec (length (queuedBlocks (ep_Peer x))) maxQueuedBlocks) as [Hroom|Hfull].
    + rewrite markBlock_known. eexists. split; [reflexivity|]. cbn. apply InfBlock; try done. apply markBlock_known.
    + rewrite Hk. eexists. split; [reflexivity|]. cbn. by apply got_hash_informed.
  - rewrite bool_decide_false by done. destruct (KnownBlock h (ep_Peer x)) eqn:Hk.
    + eexists. split; [reflexivity|]. by apply InfKnew.
    + eexists. split; [reflexivity|]. cbn. by apply got_hash_informed.
Qed.

(** *** Transactions *)

Lemma assign_lookup h l m p :
  NoDup l -> assign h l m !! p = if decide (p ∈ l) then Some (default [] (m !! p) ++ [h]) else m !! p.
Proof.
  intros Hnd. revert m. induction Hnd as [|q l Hq Hnd IH]; intros m; cbn.
  { by rewrite decide_False by apply not_elem_of_nil. }
  unfold assign in IH. rewrite IH. destruct (decide (p = q)) as [->|Hne].
  - rewrite decide_False, decide_True by (done || apply list_elem_of_here). by rewrite lookup_insert_eq.
  - rewrite !lookup_insert_ne by done. destruct (decide (p ∈ l)).
    + by rewrite decide_True by (by apply list_elem_of_further).
    + rewrite decide_False; [done|]. by intros [?|?]%elem_of_cons.
Qed.

Lemma peersWithoutTransaction_elem o h ps p :
  visits o -> p ∈ peersWithoutTransaction o h ps <->
    exists x, ps_peers ps !! p = Some x /\ KnownTransaction h (ep_Peer x) = false.
Proof.
  intros Ho. unfold peersWithoutTransaction. rewrite list_elem_of_filter, fmap_Some. split.
  - intros [(x & Hx & E) _]. by exists x.
  - intros (x & Hx & E). split; [by exists x|]. apply visited; [done|by eexists].
Qed.

Lemma peersWithoutTransaction_NoDup o h ps : visits o -> NoDup (peersWithoutTransaction o h ps).
Proof. intros Ho. apply NoDup_filter. rewrite (Ho _). apply NoDup_elements. Qed.

(** The hashes a peer has to get. *)
Definition unknown_to (p : PeerId) (ps : peerSet) (hashes : list Hash) : list Hash :=
  match ps_peers ps !! p with
  | Some x => filter (fun h => KnownTransaction h (ep_Peer x) = false) hashes
  | None => []
  end.

Lemma unknown_to_cons o h p ps hashes :
  visits o ->
  unknown_to p ps (h :: hashes) =
  (if decide (p ∈ peersWithoutTransaction o h ps) then [h] else []) ++ unknown_to p ps hashes.
Proof.
  intros Ho. unfold unknown_to. case_decide as E.
  - apply peersWithoutTransaction_elem in E as (x & -> & Hk); [|done]. by rewrite filter_cons_True.
  - destruct (ps_peers ps !! p) as [x|] eqn:Ex; [|done]. rewrite filter_cons_False; [done|].
    intros Hk. apply E, peersWithoutTransaction_elem; [done|]. by exists x.
Qed.

Lemma split_members (l : list PeerId) k p :
  NoDup l -> (p ∈ l <-> p ∈ take k l \/ p ∈ drop k l) /\ ~ (p ∈ take k l /\ p ∈ drop k l).
Proof.
  intros Hnd. rewrite <- (take_drop k l) in Hnd at 1. apply NoDup_app in Hnd as (_ & Hd & _). split.
  - rewrite <- (take_drop k l) at 1. apply elem_of_app.
  - intros [H1 H2]. exact (Hd p H1 H2).
Qed.

Lemma distribute_spec s ps hashes : (forall i, visits (s_over s i)) -> forall i t a t' a' p,
  distribute s i ps hashes t a = (t', a') ->
  default [] (t' !! p) ++ default [] (a' !! p) ≡ₚ (default [] (t !! p) ++ default [] (a !! p)) ++ unknown_to p ps hashes.
Proof.
  intros Ho. induction hashes as [|h hashes IH]; intros i t a t' a' p; cbn [distribute].
  { intros [= <- <-]. unfold unknown_to. destruct (ps_peers ps !! p); by rewrite app_nil_r. }
  set (l := peersWithoutTransaction (s_over s i) h ps). set (k := Nat.sqrt (length l)). intros E%(IH _ _ _ _ _ p).
  rewrite E, (unknown_to_cons (s_over s i) h p ps hashes (Ho i)). fold l. clear E IH.
  assert (NoDup l) as Hnd by (apply peersWithoutTransaction_NoDup, Ho).
  pose proof (split_members l k p Hnd) as [Hor Hnot]. rewrite app_assoc. apply Permutation_app_tail.
  rewrite !assign_lookup by (eapply sublist_NoDup; [exact Hnd|apply sublist_take || apply sublist_drop]).
  destruct (decide (p ∈ take k l)) as [H1|H1]; [|destruct (decide (p ∈ drop k l)) as [H2|H2]].
  - rewrite (decide_False (P := p ∈ drop k l)) by tauto. rewrite (decide_True (P := p ∈ l)) by tauto. cbn.
    rewrite <- !app_assoc. apply Permutation_app_head, Permutation_app_comm.
  - rewrite (decide_True (P := p ∈ l)) by tauto. cbn. by rewrite app_assoc.
  - rewrite (decide_False (P := p ∈ l)) by tauto. by rewrite app_nil_r.
Qed.

(** Transactions reach everybody once: every transaction of a batch that a connected
    peer is not known to have is handed to exactly one of the two goroutines of
    the peer, the one that sends it or the one that announces it, and no other
    transaction is, whatever the orders of the iterations. *)
Theorem transactions_reach_peers s n hashes :
  (forall i, visits (s_over s i)) ->
  exists n', BroadcastTransactions pop_choice s hashes n = (Ok tt, n') /\
    forall p x, find_peer p n = Some x -> s_terminated s p = false -> exists x' direct announced,
      find_peer p n' = Some x' /\
      txBroadcast (ep_Peer x') = txBroadcast (ep_Peer x) ++ direct /\
      GethFuzzer.txAnnounce (ep_Peer x') = GethFuzzer.txAnnounce (ep_Peer x) ++ announced /\
      concat direct ++ concat announced ≡ₚ filter (fun h => KnownTransaction h (ep_Peer x) = false) hashes.
Proof.
  intros Ho. assert (runs (BroadcastTransactions pop_choice s hashes) n (fun _ n' =>
    forall p x, find_peer p n = Some x -> s_terminated s p = false -> exists x' direct announced,
      find_peer p n' = Some x' /\
      txBroadcast (ep_Peer x') = txBroadcast (ep_Peer x) ++ direct /\
      GethFuzzer.txAnnounce (ep_Peer x') = GethFuzzer.txAnnounce (ep_Peer x) ++ announced /\
      concat direct ++ concat announced ≡ₚ filter (fun h => KnownTransaction h (ep_Peer x) = false) hashes))
    as ([] & n' & E & H); [|by exists n'].
  unfold BroadcastTransactions. apply total_bind, runs_self.
  destruct (distribute s 2 (n_peers n) hashes ∅ ∅) as [txset annos] eqn:E. apply total_bind.
  assert (forall o (m : gmap PeerId (list Hash)), visits o -> NoDup (o (dom m))) as Hnd.
  { intros o m Hv. rewrite (Hv _). apply NoDup_elements. }
  assert (forall o (m : gmap PeerId (list Hash)) p, visits o -> p ∈ o (dom m) <-> is_Some (m !! p)) as Hin.
  { intros o m p Hv. rewrite (Hv _), elem_of_elements, elem_of_dom. done. }
  eapply runs_weaken.
  { apply (each_in_peer (fun p => putS (AsyncSendTransactions pop_choice (s_terminated s p) (default [] (txset !! p))))
      (fun p => AsyncSendTransactions pop_choice (s_terminated s p) (default [] (txset !! p)))); [by apply Hnd|done]. }
  intros _ n1 (M1 & -> & HM1). eapply runs_weaken.
  { apply (each_in_peer (fun p => putS (AsyncSendPooledTransactionHashes pop_choice (s_terminated s p) (default [] (annos !! p))))
      (fun p => AsyncSendPooledTransactionHashes pop_choice (s_terminated s p) (default [] (annos !! p)))); [by apply Hnd|done]. }
  intros _ n2 (M2 & -> & HM2) p x Hx Ht.
  pose proof (distribute_spec s (n_peers n) hashes Ho 2 ∅ ∅ txset annos p E) as Hd.
  rewrite !lookup_empty in Hd. cbn in Hd. unfold unknown_to, find_peer in Hd, Hx. rewrite Hx in Hd.
  exists (set_Peer (let y := (if decide (p ∈ s_over s 0 (dom txset)) then AsyncSendTransactions pop_choice false (default [] (txset !! p)) (ep_Peer x) else ep_Peer x) in
          if decide (p ∈ s_over s 1 (dom annos)) then AsyncSendPooledTransactionHashes pop_choice false (default [] (annos !! p)) y else y) x),
    (if decide (p ∈ s_over s 0 (dom txset)) then [default [] (txset !! p)] else []),
    (if decide (p ∈ s_over s 1 (dom annos)) then [default [] (annos !! p)] else []).
  split.
  { assert (find_peer p (with_map M2 (with_map M1 n)) = M2 !! p) as -> by done. rewrite HM2.
    assert (find_peer p (with_map M1 n) = M1 !! p) as -> by done. rewrite HM1. unfold find_peer. rewrite Hx, Ht.
    destruct x. case_decide; case_decide; done. }
  split_and!.
  - cbn. case_decide; case_decide; cbn; by rewrite ?app_nil_r.
  - cbn. case_decide; case_decide; cbn; by rewrite ?app_nil_r.
  - rewrite <- Hd. assert (forall o (m : gmap PeerId (list Hash)), visits o ->
      concat (if decide (p ∈ o (dom m)) then [default [] (m !! p)] else []) = default [] (m !! p)) as Hc.
    { intros o m Hv. case_decide as Hp; cbn; [by rewrite app_nil_r|]. rewrite Hin in Hp by done.
      destruct (m !! p); [destruct Hp; eauto|done]. }
    by rewrite !Hc by apply Ho.
Qed.
End Broadcast.

(** ** The node is safe *)

Section Safety.
Context {Rnd : Randomness} {Crypto : EthCrypto} {TH : TrieHasher} {ME : MinerEnv}.
Context (pop_choice : gset Hash -> option Hash).
Context (bclock height : nat -> Z) (hasBlock : nat -> Hash -> bool) (clock : nat -> AbsTime).

(** What peers said, and the block objects of the node. *)
Context (heard : PeerId -> Hash -> Z -> Prop) (given : PeerId -> FullBlock -> Prop) (said : PeerId -> Hash -> Prop).
Context (objects : gmap loc Block).

Definition heap_ok (p : Peer) : Prop := forall b blk, objects !! b = Some blk -> holds b (b_hash blk) p.

Record node_ok (n : EthNode) : Prop := {
  nk_block : bf_ok heard given false (n_block n);
  nk_tx : invariant said (n_tx n);
  nk_peers : peerset_ok (n_peers n);
  nk_heap : forall p x, find_peer p n = Some x -> heap_ok (ep_Peer x);
}.

(** A program that does not panic and keeps the invariant, whether it fails or
    not. *)
Definition safe {A} (m : StM EthNode A) (n : EthNode) : Prop := node_ok (m n).2 /\ forall e, (m n).1 <> Panic e.

Lemma node_ret {A} (a : A) n : node_ok n -> safe (mret a) n.
Proof. by split. Qed.

Lemma node_bind {A B} (m : StM EthNode A) (k : A -> StM EthNode B) n :
  safe m n -> (forall a n', m n = (Ok a, n') -> node_ok n' -> safe (k a) n') -> safe (m ≫= k) n.
Proof.
  intros [Hm Hp] Hk. unfold safe, mbind, StM_bind. destruct (m n) as [[a|e|e] n'] eqn:E; cbn in *.
  - by apply Hk.
  - by split.
  - by destruct (Hp e).
Qed.

Lemma node_get {A B} (g : EthNode -> A) (k : A -> StM EthNode B) n : safe (k (g n)) n -> safe (getS g ≫= k) n.
Proof. done. Qed.

Lemma node_put g n : node_ok (g n) -> safe (putS g) n.
Proof. by split. Qed.

Lemma node_pure {A} (r : outcome A) n : node_ok n -> (forall e, r <> Panic e) -> safe (pure r) n.
Proof. by split. Qed.

Lemma node_ensure b e n : node_ok n -> safe (pure (ensure b e)) n.
Proof. intros H. apply node_pure; [done|]. by destruct b. Qed.

Lemma node_each {A} (body : A -> StM EthNode unit) l n :
  node_ok n -> (forall x n', x ∈ l -> node_ok n' -> safe (body x) n') -> safe (each l body) n.
Proof.
  revert n. induction l as [|x l IH]; intros n Hn Hb; cbn [each]; [by apply node_ret|].
  apply node_bind; [apply Hb; [apply list_elem_of_here|done]|]. intros _ n' _ Hn'. apply IH; [done|].
  intros y n'' Hy. apply Hb. by apply list_elem_of_further.
Qed.

(** The parts of the node. *)
Definition node_part (n : EthNode) := (n_peers n, n_block n, n_tx n).

Lemma node_ok_part n n' : node_ok n -> node_part n' = node_part n -> node_ok n'.
Proof. intros [H1 H2 H3 H4] [= E1 E2 E3]. split; unfold find_peer in *; rewrite ?E1, ?E2, ?E3; done. Qed.

Lemma sync_pass_ok s ev n : node_ok n -> node_ok (sync_pass s ev n).
Proof.
  intros Hn. apply (node_ok_part n); [done|]. unfold sync_pass.
  destruct (nextSyncOp s _) as [[[[p hd] t] mode]|]; destruct ev; done.
Qed.

Lemma set_peer_ok p x y n :
  node_ok n -> find_peer p n = Some x -> snapExt y = snapExt x -> heap_ok (ep_Peer y) -> node_ok (set_peer p y n).
Proof.
  intros [H1 H2 [H3 H3'] H4] Hx Hs Hh. split; [done|done| |].
  - split; [|done]. cbn. rewrite (snap_count_update _ p x y); done.
  - intros q z. unfold find_peer. cbn. intros [[<- <-]|[_ Hz]]%lookup_insert_Some; [done|by apply (H4 q)].
Qed.

Lemma safe_in_peer p (m : StM Peer unit) n :
  node_ok n -> (forall x, heap_ok x -> heap (m x).2 = heap x /\ forall e, (m x).1 <> Panic e) -> safe (in_peer p m) n.
Proof.
  intros Hn Hm. unfold safe, in_peer. destruct (find_peer p n) as [x|] eqn:E; [|by split].
  pose proof (nk_heap _ Hn p x E) as Hx. destruct (Hm (ep_Peer x) Hx) as [Hh Hp].
  destruct (m (ep_Peer x)) as [r y]. cbn in *. split; [|done].
  apply (set_peer_ok p x); [done|done|done|]. intros b blk Hb. destruct (Hx b blk Hb) as (blk' & ? & ?).
  exists blk'. cbn. by rewrite Hh.
Qed.

Lemma safe_in_block {A} (m : StM BlockFetcher A) n :
  node_ok n -> runs m (n_block n) (fun _ => bf_ok heard given false) -> safe (in_block_fetcher m) n.
Proof.
  intros [H1 H2 H3 H4] (a & f & E & Hf). unfold safe, in_block_fetcher. rewrite E. split; [by split|done].
Qed.

Lemma safe_in_tx {A} (m : StM TxFetcher A) n :
  node_ok n -> runs m (n_tx n) (fun _ => invariant said) -> safe (in_tx_fetcher m) n.
Proof.
  intros [H1 H2 H3 H4] (a & f & E & Hf). unfold safe, in_tx_fetcher. rewrite E. split; [by split|done].
Qed.

Lemma heap_ok_holds b blk x : heap_ok x -> objects !! b = Some blk -> holds b (b_hash blk) x.
Proof. auto. Qed.

(** The surroundings: iterations visit every element once, and the pool answers
    for every transaction. *)
Record surroundings_ok (s : Surroundings) : Prop := {
  so_orders : forall i, orders_ok (s_orders s i);
  so_over : forall i, visits (s_over s i);
  so_tx : Fair (s_txorders s);
  so_pool : forall txs, length (s_addTxs s txs) = length txs;
}.

Lemma RequestHeaders_safe number x :
  heap (RequestHeadersByNumber number 1 0 false x).2 = heap x /\ forall e, (RequestHeadersByNumber number 1 0 false x).1 <> Panic e.
Proof.
  unfold RequestHeadersByNumber, record_and_send, Send, GethFuzzer.draw, mbind, StM_bind, putS, askS, pure.
  destruct (rand_Uint64 (rng x)) as [i r].
  assert (encodable (GetBlockHeadersPacket66 i {| on_Hash := zeroHash; on_Number := number |} (u64 1) (u64 0) false) [] [] [] = Ok tt) as E.
  { unfold encodable, origin_encodable. cbn [on_Hash]. by rewrite bool_decide_eq_true_2. }
  cbn -[encodable zeroHash u64]. rewrite E. done.
Qed.

(** *** Peers *)

Lemma unregisterPeer_safe s p n : surroundings_ok s -> node_ok n -> safe (unregisterPeer clock s p) n.
Proof.
  intros Hs Hn. unfold unregisterPeer. apply node_get. destruct (find_peer p n) as [x|]; [|by apply node_ret].
  apply node_bind; [apply node_put; by apply (node_ok_part n)|]. intros _ n1 _ Hn1.
  apply node_bind; [apply safe_in_tx; [done|]; apply pass_inv; [apply Hs|done|apply Hn1]|]. intros _ n2 _ [H1 H2 H3 H4].
  unfold safe, in_peers. destruct (unregister_ok p (n_peers n2) H3) as [Hk Hp].
  assert (ps_peers (unregister p (n_peers n2)).2 ⊆ ps_peers (n_peers n2)) as Hsub.
  { unfold unregister, mbind, StM_bind, getS, putS, pure. cbn. destruct (ps_peers (n_peers n2) !! p) as [y|]; cbn; [|done].
    destruct (snapExt y); cbn; apply delete_subseteq. }
  destruct (unregister p (n_peers n2)) as [r ps]. cbn in *. split; [|done]. split; [done|done|done|].
  intros q y Hy. apply (H4 q). by apply (lookup_weaken _ _ _ _ Hy).
Qed.

Lemma or_unregister_safe s p m n : surroundings_ok s -> safe m n -> safe (or_unregister clock s p m) n.
Proof.
  intros Hs [Hm Hp]. unfold safe, or_unregister. destruct (m n) as [[[]|e|e] n'] eqn:E; cbn in *; [by split| |by destruct (Hp e)].
  destruct (unregisterPeer_safe s p n' Hs Hm) as [Hu _]. by destruct (unregisterPeer clock s p n') as [r n''].
Qed.

Lemma too_many_register p peer ext n :
  node_ok n -> heap_ok peer -> safe (in_peers (registerPeer p peer ext)) n.
Proof.
  intros [H1 H2 H3 H4] Hh. unfold safe, in_peers. destruct (registerPeer_ok p peer ext (n_peers n) H3) as [Hk Hp].
  assert (forall q y, ps_peers (registerPeer p peer ext (n_peers n)).2 !! q = Some y ->
    ep_Peer y = peer \/ ps_peers (n_peers n) !! q = Some y) as Hl.
  { intros q y. unfold registerPeer, mbind, StM_bind, getS, putS, pure, ensure. cbn.
    destruct (ps_closed (n_peers n)); cbn; [by right|]. destruct (is_peer p (n_peers n)); cbn; [by right|].
    destruct ext; cbn; intros [[<- <-]|[_ Hy]]%lookup_insert_Some; auto. }
  destruct (registerPeer p peer ext (n_peers n)) as [r ps]. cbn in *. split; [|done]. split; [done|done|done|].
  intros q y Hy. destruct (Hl q y Hy) as [->|Hy']; [done|by apply (H4 q)].
Qed.

Lemma syncDrop_ok p b n :
  node_ok n -> node_ok (match find_peer p n with Some x => set_peer p (set_syncDrop b x) n | None => n end).
Proof.
  intros Hn. destruct (find_peer p n) as [x|] eqn:E; [|done].
  apply (set_peer_ok p x); [done|done|done|]. exact (nk_heap _ Hn p x E).
Qed.

Lemma join_safe s p peer trusted snap registered n :
  surroundings_ok s -> node_ok n -> heap_ok peer -> (forall e, registered <> Panic e) ->
  safe (join pop_choice clock s p peer trusted snap registered) n.
Proof.
  intros Hs Hn Hh Hr. unfold join. apply node_get. apply node_bind; [by apply node_ensure|]. intros _ n1 _ Hn1.
  apply node_bind; [by apply too_many_register|]. intros _ n2 _ Hn2. apply or_unregister_safe; [done|].
  apply node_bind; [apply node_put; by apply (node_ok_part n2)|]. intros _ n3 _ Hn3.
  apply node_bind; [by apply node_pure|]. intros _ n4 _ Hn4.
  apply node_bind; [apply node_put; by apply sync_pass_ok|]. intros _ n5 _ Hn5.
  apply node_bind.
  { unfold syncTransactions. case_bool_decide; [by apply node_ret|]. apply safe_in_peer; [done|]. intros x _. split; [|done].
    cbn. by destruct (s_terminated s p). }
  intros _ n6 _ Hn6. apply node_get. apply node_bind.
  { case_bool_decide; [by apply node_ret|]. apply node_bind.
    - apply safe_in_peer; [done|]. intros x _. apply RequestHeaders_safe.
    - intros _ n7 _ Hn7. apply node_put. by apply syncDrop_ok. }
  intros _ n7 _ Hn7. apply node_each; [done|]. intros number n8 _ Hn8. apply safe_in_peer; [done|].
  intros x _. apply RequestHeaders_safe.
Qed.

Lemma leave_safe s p n : surroundings_ok s -> node_ok n -> safe (leave clock s p) n.
Proof.
  intros Hs Hn. unfold leave. apply node_bind; [apply node_put; by apply syncDrop_ok|].
  intros _ n1 _ Hn1. by apply unregisterPeer_safe.
Qed.

(** *** Broadcasts *)

Lemma BroadcastBlock_safe s i b blk pr n :
  node_ok n -> objects !! b = Some blk -> sound (b_header blk) -> safe (BroadcastBlock pop_choice s i b blk pr) n.
Proof.
  intros Hn Hb Hs. unfold BroadcastBlock. apply node_get. destruct (sound_number _ Hs) as [k Hk]. rewrite Hk.
  apply node_bind; [by apply node_pure|]. intros number n1 [= <- <-] _. destruct pr.
  - destruct (s_parentTD s) as [t|]; [|by apply node_ret]. destruct Hs as [_ [d Hd]]. rewrite Hd.
    apply node_bind; [by apply node_pure|]. intros d' n1 [= <- <-] _. apply node_each; [done|]. intros p n1 _ Hn1.
    apply safe_in_peer; [done|]. intros x Hx. rewrite (AsyncSendNewBlock_got pop_choice b (b_hash blk)) by auto.
    split; [apply got_block_heap|done].
  - destruct (s_has s i (b_hash blk) k); [|by apply node_ret]. apply node_each; [done|]. intros p n1 _ Hn1.
    apply safe_in_peer; [done|]. intros x Hx. rewrite (AsyncSendNewBlockHash_got pop_choice b (b_hash blk)) by auto.
    split; [apply got_hash_heap|done].
Qed.

Lemma BroadcastTransactions_safe s hashes n : node_ok n -> safe (BroadcastTransactions pop_choice s hashes) n.
Proof.
  intros Hn. unfold BroadcastTransactions. apply node_get. destruct (distribute s 2 (n_peers (id n)) hashes ∅ ∅) as [t a].
  apply node_bind; [|intros _ n1 _ Hn1]; (apply node_each; [done|]; intros p n2 _ Hn2; apply safe_in_peer; [done|];
    intros x _; split; [cbn; by destruct (s_terminated s p)|done]).
Qed.

(** *** Packets *)

Lemma prepared o f :
  bf_ok heard given false f ->
  runs (_ ← prepare bclock height no_headers hasBlock o; timers_fire bclock) f (fun _ => bf_ok heard given false).
Proof.
  intros Hf. apply total_bind. pose proof Hf as (Hs & Hq & _).
  apply (runs_weaken _ _ _ _ (prepare_ok bclock height no_headers hasBlock heard given false o f Hs Hq)).
  intros _ f1 (? & ? & ? & _). eapply runs_weaken.
  { apply timers_fire_ok. by apply (bf_ok_shrink heard given false f). }
  by intros _ f2 [Hf2 _].
Qed.

Lemma runs_prepared {A} o (m : StM BlockFetcher A) f (Q : A -> BlockFetcher -> Prop) :
  bf_ok heard given false f -> (forall f', bf_ok heard given false f' -> runs m f' Q) ->
  runs (_ ← prepare bclock height no_headers hasBlock o; _ ← timers_fire bclock; m) f Q.
Proof.
  intros Hf Hm. destruct (prepared o f Hf) as ([] & f2 & E & Hf2). destruct (Hm f2 Hf2) as (a & f3 & E3 & HQ).
  exists a, f3. split; [|done]. unfold mbind, StM_bind in *. destruct (prepare bclock height no_headers hasBlock o f) as [[[]|e|e] f1]; try done.
  by rewrite E.
Qed.

Lemma FilterHeaders_runs o p h t f :
  bf_ok heard given false f -> sound h ->
  runs (FilterHeaders bclock height hasBlock o p [h] t) f (fun _ => bf_ok heard given false).
Proof.
  intros Hf Hh. unfold FilterHeaders. apply runs_prepared; [done|]. intros f' Hf'.
  apply on_headers_ok; [done|]. by apply Forall_singleton.
Qed.

Lemma FilterHeaders_safe o p h t n :
  node_ok n -> sound h -> safe (in_block_fetcher (FilterHeaders bclock height hasBlock o p [h] t)) n.
Proof. intros Hn Hh. apply safe_in_block; [done|]. apply FilterHeaders_runs; [apply Hn|done]. Qed.

Lemma FilterBodies_safe o p txs us n :
  node_ok n -> Forall (Forall sound) us -> safe (in_block_fetcher (FilterBodies bclock height hasBlock o p txs us)) n.
Proof.
  intros Hn Hu. apply safe_in_block; [done|]. unfold FilterBodies. apply runs_prepared; [apply Hn|]. intros f' Hf'.
  by apply on_bodies_ok.
Qed.

Lemma handleHeaders_safe s p l n :
  node_ok n -> Forall sound l -> safe (handleHeaders bclock height hasBlock s p l) n.
Proof.
  intros Hn Hl. unfold handleHeaders. apply node_get. change (id n) with n.
  destruct (find_peer p n) as [x|] eqn:E; [|by apply node_pure].
  assert (node_ok (set_peer p (set_syncDrop false x) n)) as Hd.
  { apply (set_peer_ok p x); [done|done|done|]. exact (nk_heap _ Hn p x E). }
  assert (forall n', node_ok n' -> forall c, node_ok (tell c n')) as Htell by (intros n' Hn' c; by apply (node_ok_part n')).
  destruct l as [|h [|h' l]].
  - apply node_bind; [|intros _ n1 _ Hn1; apply node_put; auto]. destruct (syncDrop x); [|by apply node_ret].
    apply node_bind; [by apply node_put|]. intros _ n1 _ Hn1. by apply node_ensure.
  - apply Forall_cons in Hl as [Hl _]. destruct (sound_number h Hl) as [k Hk]. rewrite Hk.
    apply node_bind; [by apply node_pure|]. intros number n1 [= <- <-] _. destruct (_ && _).
    { apply node_bind; [by apply node_put|]. intros _ n1 _ Hn1. by apply node_ensure. }
    apply node_bind; [by apply node_ensure|]. intros _ n1 _ Hn1.
    apply node_bind; [by apply FilterHeaders_safe|]. intros rest n2 _ Hn2.
    case_bool_decide; [by apply node_ret|apply node_put; auto].
  - apply node_put. auto.
Qed.

Lemma handleBodies_safe s p txs us n :
  node_ok n -> Forall (Forall sound) us -> safe (handleBodies bclock height hasBlock s p txs us) n.
Proof.
  intros Hn Hu. unfold handleBodies. cbv zeta.
  apply node_bind; [destruct (negb _); [by apply FilterBodies_safe|by apply node_ret]|]. intros [t u] n1 _ Hn1.
  destruct (_ || _); [apply node_put; by apply (node_ok_part n1)|by apply node_ret].
Qed.

Lemma handleBlockAnnounces_safe s p l n :
  surroundings_ok s -> node_ok n -> (forall h k, (h, k) ∈ l -> heard p h k) ->
  safe (handleBlockAnnounces bclock height hasBlock s p l) n.
Proof.
  intros Hs Hn Hl. unfold handleBlockAnnounces. apply node_each; [done|]. intros [i [h k]] n1 Hin Hn1.
  apply safe_in_block; [done|]. unfold Notify_block. apply bf_pass_ok; [apply Hn1|apply Hs|]. cbn. apply Hl.
  apply list_elem_of_lookup in Hin as [j Hj]. rewrite list_lookup_imap in Hj. apply fmap_Some in Hj as ([h' k'] & Hj & [= -> -> ->]).
  apply list_elem_of_lookup_2 in Hj. apply list_elem_of_fmap in Hj as ([i' x] & Ex & Hx). cbn in Ex. subst x.
  apply list_elem_of_filter in Hx as [_ Hx]. apply list_elem_of_lookup in Hx as [j' Hj']. rewrite list_lookup_imap in Hj'.
  apply fmap_Some in Hj' as (y & Hy & [= _ <-]). by apply list_elem_of_lookup_2 in Hy.
Qed.

Lemma handleBlockBroadcast_safe s p b TD n :
  surroundings_ok s -> node_ok n -> given p b -> sound (header b) ->
  safe (handleBlockBroadcast bclock height hasBlock s p b TD) n.
Proof.
  intros Hs Hn Hg Hb. unfold handleBlockBroadcast. apply node_bind.
  { apply safe_in_block; [done|]. unfold Enqueue_block. apply bf_pass_ok; [apply Hn|apply Hs|]. done. }
  intros _ n1 _ Hn1. destruct Hb as [_ [d Hd]]. rewrite Hd. apply node_bind; [by apply node_pure|].
  intros d' n2 [= <- <-] _. apply node_get. destruct (find_peer p n1) as [x|] eqn:E; [|by apply node_ret].
  destruct (_ <? _); [|by apply node_ret]. apply node_bind.
  - apply node_put. apply (set_peer_ok p x); [done|done|done|]. exact (nk_heap _ Hn1 p x E).
  - intros _ n2 _ Hn2. apply node_put. by apply sync_pass_ok.
Qed.

(** The header that the operator or the checkpoint demands is another one. *)
Definition demands_other (x : ethPeer) (n : EthNode) (h : Header) (k : Z) : Prop :=
  if syncDrop x && (k =? checkpointNumber n) then header_hash h <> checkpointHash n
  else exists want, whitelist n !! k = Some want /\ want <> header_hash h.

Lemma single_header s p h k n x :
  node_ok n -> find_peer p n = Some x -> sound h -> number_of h = Ok k ->
  (exists e, (handleHeaders bclock height hasBlock s p [h] n).1 = Err e) <-> demands_other x n h k.
Proof.
  intros Hn Hx Hh Hk. unfold handleHeaders, demands_other, mbind, StM_bind, getS, putS, pure, ensure.
  change (id n) with n. rewrite Hx, Hk. destruct (syncDrop x && (k =? checkpointNumber n)); cbn.
  { case_bool_decide; cbn; split; [by intros [? ?]|done|done|by eexists]. }
  destruct (FilterHeaders_runs (s_orders s 0) p h (s_now s 0) (n_block n) (nk_block _ Hn) Hh) as (rest & f & E & _).
  unfold in_block_fetcher. destruct (whitelist n !! k) as [want|] eqn:Ew; [case_bool_decide as Eb|]; cbn.
  2:{ split; [intros _; by exists want|by eexists]. }
  all: rewrite E; case_bool_decide; cbn; (split; [by intros [? ?]|]); intros (w & [= Hw'] & Hne); congruence.
Qed.

(** What a peer is dropped for when it sends headers: none although the checkpoint
    was asked for, during fast sync; another header than the checkpoint; another
    header than the one the operator demands; and for nothing else. *)
Theorem headers_drop_peer s p l n x :
  node_ok n -> find_peer p n = Some x -> Forall sound l ->
  (exists e, (handleHeaders bclock height hasBlock s p l n).1 = Err e) <->
  (l = [] /\ syncDrop x = true /\ fastSync n = true) \/
  exists h k, l = [h] /\ number_of h = Ok k /\ demands_other x n h k.
Proof.
  intros Hn Hx Hl. destruct l as [|h [|h' l]].
  - unfold handleHeaders, mbind, StM_bind, getS, putS, pure, ensure. change (id n) with n. rewrite Hx.
    destruct (syncDrop x), (fastSync n); cbn; split; try (by intros [? ?]); try (by left); try (by eexists);
      by intros [(_ & ? & ?)|(? & ? & ? & _)].
  - apply Forall_cons in Hl as [Hh _]. destruct (sound_number h Hh) as [k Hk].
    rewrite (single_header s p h k n x Hn Hx Hh Hk). split; [intros H; right; by exists h, k|].
    intros [[? _]|(h0 & k0 & [= <-] & Hk0 & H)]; [done|]. rewrite Hk in Hk0. by injection Hk0 as <-.
  - unfold handleHeaders, mbind, StM_bind, getS, putS. change (id n) with n. rewrite Hx. cbn.
    split; [by intros [? ?]|]. by intros [(? & _)|(? & ? & ? & _)].
Qed.

(** *** Transactions *)

Lemma track_added_runs o errs : forall pre txs f,
  length errs = length txs ->
  runs (track_added o (pre ++ txs) errs (length pre)) f (fun _ f' => exists u, f' = set_underpriced u f).
Proof.
  induction errs as [|err errs IH]; intros pre [|tx txs] f Hlen; try discriminate; cbn [track_added].
  { apply total_ret. exists (underpriced f). by destruct f. }
  injection Hlen as Hlen. apply total_bind, (runs_Ok tx); [by rewrite list_lookup_middle|]. apply total_bind.
  apply (runs_weaken _ _ (fun _ f' => exists u, f' = set_underpriced u f)).
  { case_bool_decide; [apply runs_put; by eexists|apply total_ret]. exists (underpriced f). by destruct f. }
  intros _ f1 [u ->]. apply total_bind.
  replace (pre ++ tx :: txs) with ((pre ++ [tx]) ++ txs) by (by rewrite <- app_assoc).
  replace (S (length pre)) with (length (pre ++ [tx])) by (rewrite length_app; cbn; lia).
  apply (runs_weaken _ _ _ _ (IH (pre ++ [tx]) txs (set_underpriced u f) Hlen)). intros added f2 [u' ->].
  apply total_ret. by exists u'.
Qed.

Lemma invariant_underpriced u f : invariant said f -> invariant said (set_underpriced u f).
Proof. intros [[[H1 H2] H3 H4 H5 H6] H7]. split; [split; done|done]. Qed.

Lemma handle_txs_safe s p txs dir n :
  surroundings_ok s -> node_ok n -> safe (handle_txs clock s p txs dir) n.
Proof.
  intros Hs Hn. apply safe_in_tx; [done|]. unfold Enqueue. apply total_bind, total_bind.
  apply (runs_weaken _ _ _ _ (track_added_runs _ _ [] txs (n_tx n) (so_pool _ Hs txs))). intros added f' [u ->]. apply total_ret.
  apply pass_inv; [apply Hs|done|]. apply invariant_underpriced, Hn.
Qed.

(** *** The record of the peer *)

(** All a packet changes in the record of the peer that sent it is the head. *)
Definition head_moved (x y : Peer) : Prop := y = x \/ exists h t, y = SetHead h t x.
Definition moves_head (p : PeerId) (n n' : EthNode) : Prop :=
  forall x, find_peer p n = Some x -> exists y, find_peer p n' = Some y /\ head_moved (ep_Peer x) (ep_Peer y).

Lemma moves_same p n n' : n_peers n' = n_peers n -> moves_head p n n'.
Proof. intros E x Hx. exists x. unfold find_peer in *. rewrite E. split; [done|by left]. Qed.

Lemma moves_set p x y n : find_peer p n = Some x -> head_moved (ep_Peer x) (ep_Peer y) -> moves_head p n (set_peer p y n).
Proof.
  intros Hx Hm x' Hx'. rewrite Hx in Hx'. injection Hx' as <-. exists y. split; [|done].
  unfold find_peer. cbn. apply lookup_insert_eq.
Qed.

Lemma in_block_peers {A} (m : StM BlockFetcher A) n : n_peers (in_block_fetcher m n).2 = n_peers n.
Proof. unfold in_block_fetcher. by destruct (m (n_block n)). Qed.

Lemma in_tx_peers {A} (m : StM TxFetcher A) n : n_peers (in_tx_fetcher m n).2 = n_peers n.
Proof. unfold in_tx_fetcher. by destruct (m (n_tx n)). Qed.

(** The rest of a program after a pass of the block fetcher. *)
Lemma after_block {A B} (m : StM BlockFetcher A) (k : A -> StM EthNode B) p n :
  (forall a n1, n_peers n1 = n_peers n -> moves_head p n (k a n1).2) -> moves_head p n ((in_block_fetcher m ≫= k) n).2.
Proof.
  intros Hk. pose proof (in_block_peers m n) as E. unfold mbind, StM_bind.
  destruct (in_block_fetcher m n) as [[a|e|e] n1]; cbn in *; [by apply Hk|by apply moves_same..].
Qed.

Lemma sync_pass_peers s ev n : n_peers (sync_pass s ev n) = n_peers n.
Proof. unfold sync_pass. destruct (nextSyncOp s _) as [[[[p hd] t] mode]|]; by destruct ev. Qed.

Lemma each_block_peers {X} (l : list X) (m : X -> StM BlockFetcher unit) n :
  n_peers (each l (fun x => in_block_fetcher (m x)) n).2 = n_peers n.
Proof.
  revert n. induction l as [|x l IH]; intros n; [done|]. cbn [each]. pose proof (in_block_peers (m x) n) as E.
  unfold mbind, StM_bind. destruct (in_block_fetcher (m x) n) as [[a|e|e] n1]; cbn in *; [by rewrite IH|done..].
Qed.

Lemma handleHeaders_moves s p l n : moves_head p n (handleHeaders bclock height hasBlock s p l n).2.
Proof.
  unfold handleHeaders. cbn [mbind StM_bind getS id]. unfold mbind, StM_bind, getS, id.
  destruct (find_peer p n) as [x|] eqn:Ex; [|by apply moves_same].
  assert (forall b, moves_head p n (set_peer p (set_syncDrop b x) n)) as Hset by (intros b; apply (moves_set p x); [done|by left]).
  destruct l as [|h [|h' l]]; [| |by apply moves_same].
  - destruct (syncDrop x); [|by apply moves_same]. unfold putS, pure, ensure. cbn.
    destruct (negb (fastSync n)); cbn; [|apply Hset]. intros y Hy. destruct (Hset false y Hy) as (z & Hz & Hm). by exists z.
  - unfold pure at 1. destruct (number_of h) as [k|e|e]; [|by apply moves_same..].
    destruct (syncDrop x && (k =? checkpointNumber n)); [apply Hset|].
    unfold pure. destruct (ensure _ errWhitelist) as [[]|e|e]; [|by apply moves_same..].
    apply (after_block _ (fun rest => if bool_decide (rest = []) then mret tt else putS (tell (DeliverHeaders p rest)))).
    intros rest n1 E. case_bool_decide; by apply moves_same.
Qed.

Lemma handleBlockBroadcast_moves s p b TD n :
  moves_head p n (handleBlockBroadcast bclock height hasBlock s p b TD n).2.
Proof.
  unfold handleBlockBroadcast. apply after_block. intros _ n1 E. unfold mbind, StM_bind, pure, getS.
  destruct (deref (Difficulty (header b))) as [d|e|e]; [|by apply moves_same..].
  destruct (find_peer p n1) as [x|] eqn:Ex; [|by apply moves_same]. destruct (_ <? _); [|by apply moves_same].
  unfold putS, handlePeerEvent, putS. intros y Hy. unfold find_peer in Hy. rewrite <- E in Hy.
  destruct (moves_set p x (set_Peer (SetHead (ParentHash (header b)) (TD - d) (ep_Peer x)) x) n1 Ex
    ltac:(right; by eexists _, _) y Hy) as (z & Hz & Hm). exists z. split; [|done].
  unfold find_peer in *. cbn [snd]. by rewrite sync_pass_peers.
Qed.

(** What a packet does to the record of its peer. *)
Lemma Handle_moves_head s p r n : moves_head p n (Handle bclock height hasBlock clock s p r n).2.
Proof.
  destruct r as [l|l|l|l|l|b TD|l|l|l|]; cbn [Handle]; try (by apply moves_same).
  - apply handleHeaders_moves.
  - unfold handleBodies. cbv zeta. destruct (negb (bool_decide (l.*1 = []) && bool_decide (l.*2 = []))).
    + apply after_block. intros [t u] n1 E. destruct (_ || _); by apply moves_same.
    + unfold mbind, StM_bind, mret, StM_ret. destruct (_ || _); by apply moves_same.
  - apply moves_same, each_block_peers.
  - apply handleBlockBroadcast_moves.
  - apply moves_same, in_tx_peers.
  - apply moves_same, in_tx_peers.
  - apply moves_same, in_tx_peers.
Qed.

(** *** Steps *)

(** The passes of the fetchers that nobody outside causes. *)
Definition internal (ev : bevent) : Prop :=
  match ev with ImportDone _ | FetchTimer | CompleteTimer => True | _ => False end.
Definition internal_tx (ev : event) : Prop :=
  match ev with WaitTriggered | TimeoutTriggered | WaitFires | TimeoutFires => True | _ => False end.

Definition packet_ok (p : PeerId) (r : Received) : Prop :=
  match r with
  | RBlockHeaders l => Forall sound l
  | RBlockBodies l => Forall (Forall sound) l.*2
  | RNewBlockHashes l => forall h k, (h, k) ∈ l -> heard p h k
  | RNewBlock b _ => sound (header b) /\ given p b
  | RNewPooledTransactionHashes l => forall h, h ∈ l -> said p h
  | _ => True
  end.

Definition step_ok (st : nstep) : Prop :=
  match st with
  | SPacket p r => packet_ok p r
  | SBlockPass o ev => orders_ok o /\ internal ev
  | STxPass o ev => Fair o /\ internal_tx ev
  | SJoin _ peer _ _ registered => heap_ok peer /\ forall e, registered <> Panic e
  | SMined b blk => objects !! b = Some blk /\ sound (b_header blk)
  | SInserted _ inserted => forall e, inserted <> Panic e
  | SSynced result b blk _ _ => (forall e, result <> Panic e) /\ objects !! b = Some blk /\ sound (b_header blk)
  | _ => True
  end.

Lemma Handle_safe s p r n :
  surroundings_ok s -> node_ok n -> packet_ok p r -> safe (Handle bclock height hasBlock clock s p r) n.
Proof.
  intros Hs Hn Hr. destruct r as [l|l|l|l|l|b TD|l|l|l|]; cbn [Handle packet_ok] in *.
  - by apply handleHeaders_safe.
  - by apply handleBodies_safe.
  - apply node_put. by apply (node_ok_part n).
  - apply node_put. by apply (node_ok_part n).
  - by apply handleBlockAnnounces_safe.
  - destruct Hr. by apply handleBlockBroadcast_safe.
  - apply safe_in_tx; [done|]. unfold runs. destruct (Notify (s_hasTx s) p l (n_tx n)) as [ann|] eqn:E.
    + apply pass_inv; [apply Hs| |apply Hn]. intros ann' [= <-] h Hh. unfold Notify in E. case_bool_decide; [done|].
      injection E as <-. cbn in *. apply Hr. by apply list_elem_of_filter in Hh as [_ ?].
    + eexists _, _. split; [reflexivity|]. apply Hn.
  - by apply handle_txs_safe.
  - by apply handle_txs_safe.
  - by apply node_pure.
Qed.

Lemma doSync_safe s r b blk t t' n :
  node_ok n -> (forall e, r <> Panic e) -> objects !! b = Some blk -> sound (b_header blk) ->
  safe (doSync pop_choice s r b blk t t') n.
Proof.
  intros Hn Hr Hb Hk. unfold doSync. apply node_bind; [by apply node_pure|]. intros _ n1 _ Hn1.
  destruct (sound_number _ Hk) as [k E]. rewrite E. apply node_bind; [by apply node_pure|]. intros k' n2 [= <- <-] _.
  apply node_bind; [apply node_put; by apply (node_ok_part n1)|]. intros _ n3 _ Hn3.
  destruct (0 <? k); [by apply BroadcastBlock_safe|by apply node_ret].
Qed.

(** The operations that concern the extension leave the peers alone. *)
Lemma snap_op_safe op n :
  (if op is OpSnap _ _ then True else if op is OpWait _ _ then True else False) -> node_ok n -> safe (in_peers (run_op op)) n.
Proof.
  intros Hop [H1 H2 H3 H4]. destruct (run_op_ok op (n_peers n) H3) as [Hk Hp].
  assert (ps_peers (run_op op (n_peers n)).2 = ps_peers (n_peers n)) as Hl.
  { destruct op as [c p|c p| |]; try done; cbn [run_op].
    - unfold registerSnapExtension, mbind, StM_bind, getS, putS, pure, ensure. cbn.
      destruct c, (is_peer p (n_peers n)); cbn; try done. by repeat (case_bool_decide; cbn).
    - unfold waitSnapExtension. destruct c; [|done]. unfold mbind, StM_bind, getS, putS, pure, ensure. cbn.
      destruct (is_peer p (n_peers n)); cbn; [done|]. by repeat (case_bool_decide; cbn). }
  unfold safe, in_peers. destruct (run_op op (n_peers n)) as [r ps]. cbn in *. split; [|done]. split; [done|done|done|].
  intros q y Hy. apply (H4 q). unfold find_peer in *. cbn in Hy. by rewrite Hl in Hy.
Qed.

Lemma node_step_safe s st n :
  surroundings_ok s -> node_ok n -> step_ok st -> safe (node_step pop_choice bclock height hasBlock clock s st) n.
Proof.
  intros Hs Hn Hst. destruct st as [p r|o ev|o ev|p peer tr sn reg|p|b blk|hs|ev|k ins|r b blk t t'|c p|c p|p|];
    cbn [node_step step_ok] in *.
  - unfold safe. destruct (is_peer p (n_peers n)); [by apply Handle_safe|by split].
  - destruct Hst as [Ho Hev]. apply safe_in_block; [done|]. apply bf_pass_ok; [apply Hn|done|]. by destruct ev.
  - destruct Hst as [Ho Hev]. apply safe_in_tx; [done|]. apply pass_inv; [done| |apply Hn]. intros ann ->. by destruct Hev.
  - destruct Hst. by apply join_safe.
  - by apply leave_safe.
  - destruct Hst. unfold mined. apply node_bind; [by apply BroadcastBlock_safe|]. intros _ n1 _ Hn1. by apply BroadcastBlock_safe.
  - by apply BroadcastTransactions_safe.
  - apply node_put. by apply sync_pass_ok.
  - unfold inserter. apply node_get. destruct (inserts k (id n)); [|by apply node_ret].
    apply node_bind; [by apply node_pure|]. intros _ n1 _ Hn1. apply node_put. by apply (node_ok_part n1).
  - destruct Hst as (Hr & Hb & Hk). by apply doSync_safe.
  - by apply (snap_op_safe (OpSnap c p)).
  - by apply (snap_op_safe (OpWait c p)).
  - unfold removePeer. apply node_get. destruct (find_peer p n); [|by apply node_ret].
    apply node_put. by apply (node_ok_part n).
  - apply node_put. destruct Hn as [? ? [] ?]. split; [done|done|by split|done].
Qed.

Lemma node_run_ok steps : forall n,
  node_ok n -> Forall (fun x => surroundings_ok x.1 /\ step_ok x.2) steps ->
  exists n', node_run pop_choice bclock height hasBlock clock steps n = (Ok tt, n') /\ node_ok n'.
Proof.
  induction steps as [|[s st] steps IH]; intros n Hn Hall; cbn [node_run]; [by exists n|].
  apply Forall_cons in Hall as [[Hs Hst] Hall].
  destruct (node_step_safe s st n Hs Hn Hst) as [Hn1 Hp]. cbn in Hn1, Hp.
  destruct (node_step pop_choice bclock height hasBlock clock s st n) as [[[]|e|e] n1]; cbn in *; [by apply IH|by apply IH|].
  by destruct (Hp e).
Qed.

Lemma newHandler_ok sync full fast checkpoint wl peers : node_ok (newHandler sync full fast checkpoint wl peers).
Proof.
  unfold newHandler. destruct (sync_flags sync full fast) as [f sn].
  split; [apply NewBlockFetcher_ok|apply NewTxFetcher_inv| |by intros p x Hx; unfold find_peer in Hx; cbn in Hx; apply lookup_empty_Some in Hx].
  split; [|set_solver]. unfold snap_count. cbn. by rewrite map_filter_empty, map_size_empty.
Qed.
End Safety.

(** ** What the node imports and requests *)

Section Origin.
Context {Rnd : Randomness} {Crypto : EthCrypto} {TH : TrieHasher} {ME : MinerEnv}.

(** What peers said in the packets of a run. *)
Definition announced_by (steps : list (Surroundings * nstep)) (p : PeerId) (h : Hash) (number : Z) : Prop :=
  exists s l, (s, SPacket p (RNewBlockHashes l)) ∈ steps /\ (h, number) ∈ l.
Definition sent_by (steps : list (Surroundings * nstep)) (p : PeerId) (b : FullBlock) : Prop :=
  exists s TD, (s, SPacket p (RNewBlock b TD)) ∈ steps.
Definition pooled_by (steps : list (Surroundings * nstep)) (p : PeerId) (h : Hash) : Prop :=
  exists s l, (s, SPacket p (RNewPooledTransactionHashes l)) ∈ steps /\ h ∈ l.

(** Packets as they come out of the decoders, passes of the fetchers that nobody
    outside causes, peers and blocks that refer to objects there are. *)
Definition step_decoded (objects : gmap loc Block) (st : nstep) : Prop :=
  match st with
  | SPacket _ (RBlockHeaders l) => Forall sound l
  | SPacket _ (RBlockBodies l) => Forall (Forall sound) l.*2
  | SPacket _ (RNewBlock b _) => sound (header b)
  | SPacket _ _ => True
  | st => step_ok (fun _ _ _ => False) (fun _ _ => False) (fun _ _ => False) objects st
  end.

Lemma decoded_steps objects steps :
  Forall (fun x => surroundings_ok x.1 /\ step_decoded objects x.2) steps ->
  Forall (fun x => surroundings_ok x.1 /\ step_ok (announced_by steps) (sent_by steps) (pooled_by steps) objects x.2) steps.
Proof.
  rewrite !Forall_forall. intros H [s st] Hin. destruct (H _ Hin) as [Hs Hd]. split; [done|].
  destruct st as [p r| | | | | | | | | | | | |]; try exact Hd. destruct r; cbn in *; try done.
  - intros h k Hk. by eexists _, _.
  - split; [done|]. by eexists _, _.
  - intros h Hh. by eexists _, _.
Qed.

(** C14. A node stands whatever its peers send: handling the packets of any peers in
    any order, interleaved with passes of the fetchers, peers that come and go,
    broadcasts and synchronizations, never panics; an error closes one connection
    and the node goes on.  Whatever the block fetcher of the node has then
    imported was in a block packet of its origin, or its origin announced its
    hash and number in a packet and the body is the one the header commits to;
    whatever transactions were requested from a peer had been announced in a
    packet of that peer. *)
Theorem node_stands pop_choice bclock height hasBlock clock objects sync full fast checkpoint wl peers steps :
  Forall (fun x => surroundings_ok x.1 /\ step_decoded objects x.2) steps ->
  exists n, node_run pop_choice bclock height hasBlock clock steps (newHandler sync full fast checkpoint wl peers) = (Ok tt, n) /\
    (forall op, Import op ∈ calls (n_block n) -> exists b k, in_block op = Some b /\ number_of (header b) = Ok k /\
       (sent_by steps (in_origin op) b \/
        announced_by steps (in_origin op) (block_Hash b) k /\ UncleHash (header b) = CalcUncleHash (uncles b) /\
        (TxHash (header b) = DeriveSha encode_transaction (transactions b) \/
         TxHash (header b) = EmptyRootHash /\ transactions b = []))) /\
    (forall p hs h, (p, hs) ∈ sent (n_tx n) -> h ∈ hs -> pooled_by steps p h) /\
    0 <= snapPeers (n_peers n) <= peers_len (n_peers n).
Proof.
  intros H. destruct (node_run_ok pop_choice bclock height hasBlock clock (announced_by steps) (sent_by steps) (pooled_by steps)
    objects steps _ (newHandler_ok _ _ _ _ sync full fast checkpoint wl peers) (decoded_steps objects steps H)) as (n & E & Hn).
  exists n. split; [done|]. destruct Hn as [(Hst & Hq & _) Htx [Hc _] _]. split_and!.
  - intros op Hop. destruct (q_calls _ _ _ _ Hq op Hop) as (k & Hk & Hok). rewrite (st_light _ _ _ Hst) in Hok.
    destruct Hok as (Eh & b & Eb & Hb). exists b, k. split; [done|]. split; [|exact Hb].
    unfold inject_number in Hk. by rewrite Eh, Eb in Hk.
  - intros p hs h Hp Hh. destruct Htx as [[_ _ _ _ Hs] _]. destruct (Hs p hs Hp) as (_ & _ & _ & Hall). by apply Hall.
  - rewrite Hc. unfold peers_len. lia.
  - rewrite Hc. unfold peers_len. pose proof (snap_count_le (ps_peers (n_peers n))). lia.
Qed.
End Origin.
