(* ===== verification/EthNodeExamples.v ===== *)
(** * Runs of a node

    A node whose peers announce and deliver a block, which it imports; a mined
    block sent to four peers; and the choice of a peer to synchronize with: the
    theorems of the node, applied. *)

From S2P Require Import Prelude Rlp EthTypes CliqueSnapshot Clique CliqueExamples Randomness GethFuzzer GethPeerSpec GoHeap TxByPrice.
From S2P Require Import Miner MinerExamples TxFetcher TxFetcherSpec TxFetcherLoop TxFetcherExamples.
From S2P Require Import BlockFetcher BlockFetcherSpec BlockFetcherExamples EthNode EthNodeSpec.

#[local] Existing Instance id_crypto.
#[local] Existing Instance MinerExample.plain_trie.
#[local] Existing Instance MinerExample.flat_env.
#[local] Existing Instance StreamRandom.stream.

Module NodeExample.
Import PeerExample BlockFetcherExample.

(** The chain is at its genesis block; iterations are in one order. *)
Definition quiet : Surroundings := {|
  s_orders _ := plain; s_over _ := elements; s_numbers := elements; s_now := clock; s_has i _ _ := bool_decide (i = 1%nat);
  s_txorders := FetcherExample.plain; s_hasTx _ := false; s_addTxs txs := (fun _ => None) <$> txs; s_pending := [];
  s_terminated _ := false; s_parentTD := Some 1; s_number := 0; s_fullTD := 1; s_fastTD := 1; s_pivot := None |}.

Lemma quiet_ok : surroundings_ok quiet.
Proof.
  split; [intros ?; exact plain_ok|by intros i s|exact FetcherExample.plain_fair|]. intros txs. apply length_fmap.
Qed.

Definition mined_block : Block := {| b_header := hdr; b_hash := h1; b_ReceivedAt := 0 |}.
Definition objects : gmap loc Block := {[ 1%positive := mined_block ]}.

Lemma p0_heap : heap_ok objects p0.
Proof. intros b blk H. unfold objects in H. apply lookup_singleton_Some in H as [<- <-]. by exists mined_block. Qed.

Lemma hdr_sound : sound hdr.
Proof. split; by eexists. Qed.

(** Peers join; one announces a block, delivers its header when it is asked, and
    then the body; a mined block and transactions are broadcast meanwhile. *)
Definition joins (p : PeerId) : nstep := SJoin p p0 false false (Ok tt).
Definition packet_steps : list nstep :=
  [joins "ann"; joins "bob"; SPacket "ann" (RNewBlockHashes [(hash1, 1)]);
   SBlockPass plain FetchTimer; SMined 1%positive mined_block; SBlockPass plain FetchTimer;
   SPacket "ann" (RBlockHeaders [header block1]); SBlockPass plain CompleteTimer; SBlockPass plain CompleteTimer;
   SPacket "bob" (RNewPooledTransactionHashes [h1]); SPacket "ann" (RBlockBodies [([payment], [])]);
   STransactions [h1]; SSync ForceFired; SBlockPass plain CompleteTimer; SLeave "bob"].
Definition steps : list (Surroundings * nstep) := pair quiet <$> packet_steps.

Definition started : EthNode := newHandler FullSync 0 0 None ∅ 25.
Definition node : outcome unit * EthNode := node_run pop clock at_genesis unknown_to FetcherExample.clock steps started.

(** The block was imported for the peer that announced it. *)
Example node_imports :
  bool_decide (peers_of (n_block node.2) = [(1%nat, "ann"); (2%nat, "ann"); (4%nat, "ann")]) &&
  bool_decide (size (ps_peers (n_peers node.2)) = 1%nat) = true.
Proof. vm_compute. reflexivity. Qed.

Lemma steps_decoded : Forall (fun x : Surroundings * nstep => surroundings_ok x.1 /\ step_decoded objects x.2) steps.
Proof.
  unfold steps. apply Forall_fmap. apply (Forall_impl (step_decoded objects)); [|intros st Hst; split; [exact quiet_ok|exact Hst]].
  repeat (apply Forall_cons_2; [cbn|]); try apply Forall_nil_2; try done.
  all: try (split; [exact p0_heap|done]).
  all: try (split; [exact plain_ok|done]).
Qed.

Lemma node_stands_witness :
  exists n, node_run pop clock at_genesis unknown_to FetcherExample.clock steps started = (Ok tt, n) /\
    (forall op, Import op ∈ calls (n_block n) -> exists b k, in_block op = Some b /\ number_of (header b) = Ok k /\
       (sent_by steps (in_origin op) b \/
        announced_by steps (in_origin op) (block_Hash b) k /\ UncleHash (header b) = CalcUncleHash (uncles b) /\
        (TxHash (header b) = DeriveSha encode_transaction (transactions b) \/
         TxHash (header b) = EmptyRootHash /\ transactions b = []))) /\
    (forall p hs h, (p, hs) ∈ sent (n_tx n) -> h ∈ hs -> pooled_by steps p h) /\
    0 <= snapPeers (n_peers n) <= peers_len (n_peers n).
Proof.
  exact (node_stands pop clock at_genesis unknown_to FetcherExample.clock objects FullSync 0 0 None ∅ 25 steps steps_decoded).
Defined.

(** ** A mined block and four peers *)

Definition four : EthNode :=
  (node_run pop clock at_genesis unknown_to FetcherExample.clock
     (pair quiet <$> [joins "ann"; joins "bob"; joins "cyd"; joins "dan"]) started).2.

(** Two get the block, the other two its hash. *)
Example two_and_two :
  let peers := map_to_list (ps_peers (n_peers (mined pop quiet 1%positive mined_block four).2)) in
  bool_decide ((fun x => length (queuedBlocks (ep_Peer x.2))) <$> peers ≡ₚ [1; 1; 0; 0]%nat) &&
  bool_decide ((fun x => length (queuedBlockAnns (ep_Peer x.2))) <$> peers ≡ₚ [0; 0; 1; 1]%nat) = true.
Proof. vm_compute. reflexivity. Qed.

Definition peer_holds (x : ethPeer) : bool :=
  bool_decide ((b_hash <$> blocks (heap (ep_Peer x)) !! 1%positive) = Some h1).

Lemma all_hold (n : EthNode) :
  forallb (fun y : PeerId * ethPeer => peer_holds y.2) (map_to_list (ps_peers (n_peers n))) = true ->
  forall p x, find_peer p n = Some x -> holds 1%positive (b_hash mined_block) (ep_Peer x).
Proof.
  intros H p x Hx. rewrite forallb_forall in H. specialize (H (p, x)).
  assert (List.In (p, x) (map_to_list (ps_peers (n_peers n)))) as Hin by (apply list_elem_of_In, elem_of_map_to_list; done).
  specialize (H Hin). unfold peer_holds in H. rewrite bool_decide_eq_true in H. apply fmap_Some in H as (blk & Hb & E).
  by exists blk.
Qed.

Lemma four_hold p x : find_peer p four = Some x -> holds 1%positive (b_hash mined_block) (ep_Peer x).
Proof. apply all_hold. vm_compute. reflexivity. Qed.

Lemma mined_reaches_peers_witness :
  let unknown := peersWithoutBlock (s_over quiet 0) (b_hash mined_block) (n_peers four) in
  exists n', mined pop quiet 1%positive mined_block four = (Ok tt, n') /\
    forall p x, find_peer p four = Some x -> exists x', find_peer p n' = Some x' /\
      informed (b_hash mined_block) 1%positive (2 + 1) (bool_decide (p ∈ take (Nat.sqrt (length unknown)) unknown))
        (ep_Peer x) (ep_Peer x').
Proof.
  destruct (mined_reaches_peers pop quiet four 1%positive mined_block 1 2 7 (so_over _ quiet_ok 0) (so_over _ quiet_ok 1)
    eq_refl eq_refl eq_refl eq_refl four_hold) as (_ & _ & n' & E & _ & H). exists n'. split; [exact E|exact H].
Defined.

(** ** Synchronization

    Of two peers one claims a total difficulty of 9; the timer has fired. *)
Definition behind : EthNode :=
  set_sync true false
    (node_run pop clock at_genesis unknown_to FetcherExample.clock
       (pair quiet <$> [joins "ann"; SJoin "bob" (SetHead h1 9 p0) false false (Ok tt)]) started).2.

Example syncs_with_bob :
  bool_decide (option_map (fun op : PeerId * Hash * Z * SyncMode => (op.1.1.1, op.1.2)) (nextSyncOp quiet behind) = Some ("bob", 9)) = true.
Proof. vm_compute. reflexivity. Qed.

Lemma nextSyncOp_spec_witness :
  let ourTD := (modeAndLocalHead quiet behind).2 in
  (is_Some (nextSyncOp quiet behind) <->
     n_syncing behind = false /\ min_peers behind <= peers_len (n_peers behind) /\
     exists q x, find_peer q behind = Some x /\ ourTD < td (ep_Peer x)) /\
  (forall p hash t mode, nextSyncOp quiet behind = Some (p, hash, t, mode) ->
     (exists x, find_peer p behind = Some x /\ Head (ep_Peer x) = (hash, t)) /\ ourTD < t /\
     (forall q y, find_peer q behind = Some y -> td (ep_Peer y) <= t) /\
     (mode = SnapSync -> snapSync behind = true) /\ (mode = FullSync -> fastSync behind = false)).
Proof. exact (nextSyncOp_spec quiet behind (so_over _ quiet_ok 0)). Defined.
End NodeExample.
