(* ===== verification/EthServe.v ===== *)
(** * A node and the messages of a peer

    The protocol handlers of EthHandlers.v together with the node of EthNode.v
    that they hand what they decoded: [backend.Handle] is the node's [Handle].
    The handlers run on the record of the peer, which is the one the node keeps;
    the rest of the node moves on between two messages, so that it may be in any
    state its invariant allows when a message arrives. *)

From S2P Require Import Prelude Rlp EthTypes CliqueSnapshot Clique Randomness GethFuzzer GethPeerSpec GoHeap TxByPrice.
From S2P Require Import EthHandlers EthHandlersSpec Miner TxFetcher TxFetcherSpec TxFetcherLoop BlockFetcher BlockFetcherSpec.
From S2P Require Import EthNode EthNodeSpec CliqueExamples MinerExamples TxFetcherExamples BlockFetcherExamples EthNodeExamples.

(** ** Packets *)

(** A decoded transaction gets the time of its arrival. *)
Definition arrived (time : Z) (tx : Transaction) : Tx := {| inner := tx; tx_time := time |}.

(** What is delivered, as the node looks at it; [time] is the node's clock. *)
Definition packet_of (time : Z) (d : Delivery) : Received :=
  match d with
  | DNewBlockHashes l => RNewBlockHashes l
  | DNewBlock b TD received =>
      RNewBlock {| header := ib_header b; transactions := arrived received <$> ib_txs b; uncles := ib_uncles b |} TD
  | DTransactions l => RTransactions (omap id l)
  | DNewPooledTransactionHashes l => RNewPooledTransactionHashes l
  | DBlockHeaders l => RBlockHeaders l
  | DBlockBodies l => RBlockBodies ((fun x => (arrived time <$> omap id (bb_Transactions x), bb_Uncles x)) <$> l)
  | DNodeData l => RNodeData l
  | DReceipts l => RReceipts l
  | DPooledTransactions l => RPooledTransactions (omap id l)
  end.

Section Serving.
Context {Rnd : Randomness} {RndOk : RandomnessOk} {Bk : Backend} {Dec : Decoder} {DecOk : DecoderOk} {DecFills : DecoderFills}.
Context {Crypto : EthCrypto} {TH : TrieHasher} {ME : MinerEnv}.
Context (pop_choice : gset Hash -> option Hash).
Context (pop_ok : forall s, s <> ∅ -> exists x, pop_choice s = Some x /\ x ∈ s).
Context (bclock height : nat -> Z) (hasBlock : nat -> Hash -> bool) (clock : nat -> AbsTime).

(** The node when something is delivered: what it is surrounded by, the rest of
    its state and the peer's place in it. *)
Record Moment := { m_around : Surroundings; m_node : EthNode; m_peer : ethPeer }.

(** [backend.Handle]: the node's [Handle], with the record of the peer as it is now;
    [now] is the moment of the call. *)
Definition backend_Handle (pid : PeerId) (now : Delivery -> Peer -> Moment) (d : Delivery) : StM Peer unit := fun p =>
  let m := now d p in
  let n := set_peer pid (set_Peer p (m_peer m)) (m_node m) in
  let '(r, n') := EthNode.Handle bclock height hasBlock clock (m_around m) pid (packet_of (s_now (m_around m) 0) d) n in
  (r, match find_peer pid n' with Some x => ep_Peer x | None => p end).

(** The invariant of a node, whatever peers said. *)
Definition any_node_ok : EthNode -> Prop := node_ok (fun _ _ _ => True) (fun _ _ => True) (fun _ _ => True) ∅.

(** The peer is registered with a node in order. *)
Record moment_ok (pid : PeerId) (m : Moment) : Prop := {
  mo_around : surroundings_ok (m_around m);
  mo_node : any_node_ok (m_node m);
  mo_peer : find_peer pid (m_node m) = Some (m_peer m);
}.

Lemma packet_of_ok pid time d :
  delivery_ok d -> packet_ok (fun _ _ _ => True) (fun _ _ => True) (fun _ _ => True) pid (packet_of time d).
Proof.
  destruct d; cbn; try done. intros H. rewrite <- list_fmap_compose. apply Forall_fmap.
  eapply Forall_impl; [exact H|]. by intros x [_ Hx].
Qed.

Lemma node_inv_moved (x y : Peer) : head_moved x y -> node_inv x -> node_inv y.
Proof.
  intros [->|(h & t & ->)]; [done|]. intros [[H1 H2 H3 H4 H5] Hc].
  split; [split; [intros c m Hm; by apply H1|done..]|done].
Qed.

(** The node keeps what the handlers rely on. *)
Lemma backend_Handle_safe pid now d p :
  (forall d p, moment_ok pid (now d p)) -> delivery_ok d -> node_inv p -> node_safe (backend_Handle pid now d) p.
Proof.
  intros Hm Hd Hp. destruct (Hm d p) as [Hs Hn Hx]. unfold node_safe, backend_Handle.
  set (m := now d p) in *. set (x := set_Peer p (m_peer m)). set (n := set_peer pid x (m_node m)).
  assert (any_node_ok n) as Hn'.
  { apply (set_peer_ok _ _ _ _ pid (m_peer m)); [done..|]. intros b blk Hb. by apply lookup_empty_Some in Hb. }
  assert (find_peer pid n = Some x) as Hf by (unfold find_peer; cbn; apply lookup_insert_eq).
  destruct (Handle_safe bclock height hasBlock clock _ _ _ _ (m_around m) pid _ n Hs Hn'
    (packet_of_ok pid (s_now (m_around m) 0) d Hd)) as [_ Hnp].
  destruct (Handle_moves_head bclock height hasBlock clock (m_around m) pid (packet_of (s_now (m_around m) 0) d) n x Hf)
    as (y & Hy & Hmv).
  destruct (EthNode.Handle _ _ _ _ _ _ _ n) as [r n']. cbn [fst snd] in *. rewrite Hy.
  split; [by apply (node_inv_moved p)|exact Hnp].
Qed.

(** C11. No remote peer can break the node with messages.  The protocol handlers run
    on top of the node's own [Handle], which may be in any state its invariant
    allows and with the peer registered whenever something is delivered.
    Whatever is received, of any size, code and content and in any order:
    handling ends with a result or an error and never a panic; the known sets,
    queues and seeds of the peer keep their invariant; and either all messages
    were handled, one after the other and each successfully, or all up to the
    first that fails, whose error is the result, and nothing behind it is read.
    It is assumed that the connection delivers as many bytes as a message
    announces, that the decoders report malformed input as an error and fill in
    the pointers of what they decode, that the header chain of the node is
    consistent (part of [node_inv]), and that an encoded transaction of the pool
    takes at least 64 bytes, so that an answer does not hold more transactions
    than the known set may. *)
Theorem HandleAll_safe pid now reads p :
  (forall tx b, encode_tx tx = Ok b -> 64 <= blen b) ->
  (forall d q, moment_ok pid (now d q)) -> node_inv p -> Forall delivered reads ->
  let loop := HandleAll pop_choice (backend_Handle pid now) in
  node_inv (loop reads p).2 /\ (forall e, (loop reads p).1 <> Panic e) /\
  exists pre rest p1, reads = pre ++ rest /\ handled pop_choice (backend_Handle pid now) pre p p1 /\
    ((rest = [] /\ loop reads p = (Ok tt, p1)) \/
     exists r post e q, rest = r :: post /\ handleMessage pop_choice (backend_Handle pid now) r p1 = (Err e, q) /\
       loop reads p = (Err e, q)).
Proof.
  intros Hmin Hm Hp Hr loop.
  destruct (HandleAll_until_error pop_choice pop_ok (backend_Handle pid now)
    (fun d q Hd Hq => backend_Handle_safe pid now d q Hm Hd Hq) Hmin reads p Hp Hr) as (Hi & pre & rest & p1 & E & Hh & Ho).
  split; [exact Hi|]. split; [|by exists pre, rest, p1]. intros e. subst loop. cbv beta.
  destruct Ho as [[_ ->]|(r & post & e' & q & _ & _ & ->)]; done.
Qed.
End Serving.

(** ** A peer that asks twice and then breaks the protocol *)

#[local] Existing Instance id_crypto.
#[local] Existing Instance MinerExample.plain_trie.
#[local] Existing Instance MinerExample.flat_env.
#[local] Existing Instance StreamRandom.stream.
#[local] Existing Instance StreamRandom.stream_ok.
#[local] Existing Instance HandlersExample.ten_blocks.
#[local] Existing Instance HandlersExample.header_requests.
#[local] Existing Instance HandlersExample.header_requests_ok.
#[local] Existing Instance HandlersExample.header_requests_fill.

Module ServeExample.
Import PeerExample HandlersExample BlockFetcherExample NodeExample.

Definition with_ann : list (Surroundings * nstep) := [(quiet, joins "ann")].
Definition node1 : EthNode := (node_run pop clock at_genesis unknown_to FetcherExample.clock with_ann started).2.
Definition ann : ethPeer := default {| ep_Peer := p2; snapExt := false; syncDrop := false |} (find_peer "ann" node1).
Definition moment : Moment := {| m_around := quiet; m_node := node1; m_peer := ann |}.

Lemma node1_ok : any_node_ok node1.
Proof.
  destruct (node_run_ok pop clock at_genesis unknown_to FetcherExample.clock (fun _ _ _ => True) (fun _ _ => True) (fun _ _ => True)
    ∅ with_ann started (newHandler_ok _ _ _ _ _ _ _ _ _ _)) as (n & E & Hn).
  - repeat constructor; [apply quiet_ok..| |done]. intros b blk Hb. by apply lookup_empty_Some in Hb.
  - unfold node1. rewrite E. exact Hn.
Qed.

Lemma moment_ok_ann : moment_ok "ann" moment.
Proof.
  split; [exact quiet_ok|exact node1_ok|]. cbn [m_node m_peer moment]. unfold ann.
  assert (bool_decide (is_Some (find_peer "ann" node1)) = true) as H by (vm_compute; reflexivity).
  apply bool_decide_eq_true in H as [x Hx]. by rewrite Hx.
Qed.

Abbreviation serve :=
  (HandleAll pop (backend_Handle clock at_genesis unknown_to FetcherExample.clock "ann" (fun _ _ => moment))).

Lemma HandleAll_safe_witness :
  node_inv (serve [request 3; request 3; request 99; request 3] p2).2 /\
  forall e, (serve [request 3; request 3; request 99; request 3] p2).1 <> Panic e.
Proof.
  destruct (HandleAll_safe pop pop_some clock at_genesis unknown_to FetcherExample.clock "ann" (fun _ _ => moment)
    [request 3; request 3; request 99; request 3] p2) as (H1 & H2 & _).
  - intros tx b [= <-]. vm_compute. congruence.
  - intros _ _. exact moment_ok_ann.
  - apply p2_inv.
  - by repeat constructor.
  - split; [exact H1|exact H2].
Defined.

(** Two requests are answered; the unknown code ends it, and the last request is
    not answered. *)
Example stops_at_error :
  (Kind ∘ packet <$> wire (serve [request 3; request 3; request 99; request 3] p2).2) = [4; 4] /\
  (serve [request 3; request 3; request 99; request 3] p2).1 = Err errInvalidMsgCode.
Proof. split; vm_compute; reflexivity. Qed.
End ServeExample.
